(* ===== verification/_CoqProject ===== *)
-Q . S2P
Prelude.v
Numbers.v
Uri.v
ModuleNames.v
ModuleNamesFacts.v
UrlsFacts.v
Almond.v
AlmondFacts.v
Json2.v
Json2Facts.v
Json2Safe.v
Loader.v
LoaderFacts.v
LoaderProps.v
LoaderRequire.v
DataSource.v
DataSourceFacts.v
Datagrid.v
DatagridFacts.v
SearchBox.v
Spinner.v
Wizard.v
Choosers.v
Checks.v
Tree.v
TreeFacts.v
LogSocket.v
Cookie.v
CookieFacts.v
Typeahead.v
Modal.v
Marathon.v
MarathonFacts.v
MarathonProps.v
Carousel.v
CarouselFacts.v
Placement.v
Tooltip.v
TooltipFacts.v
Collapse.v
CollapseFacts.v
Selectors.v
Dropdown.v
DropdownFacts.v
Button.v
Alert.v
Affix.v
Nano.v
PanelLoading.v
Tabs.v
TabsFacts.v
ScrollSpy.v
Form.v
FormFacts.v
FormSubmit.v
FormSubmitFacts.v
FormUpload.v
FormUploadFacts.v
QunitEquiv.v
QunitEquivFacts.v
QunitDiff.v
QunitDiffFacts.v
QunitRunner.v
QunitRunnerFacts.v
QunitRunnerOrder.v
QunitRunnerEnd.v
QunitAssert.v
QunitAssertFacts.v
QunitText.v
QunitTextFacts.v
QunitDump.v
QunitDumpFacts.v
Md5.v
Md5Facts.v
Slides.v
Passport.v
PassportFacts.v
PassportLogin.v
Microblog.v
QunitPage.v
