(* ===== verification/Prelude.v ===== *)
(** The web front end of the service base, verified.

    The repository is a set of Java services (smc-...) with one web application,
    smc-base-server, whose browser side (smc-base-server/src/main/webapp, below: W) is the
    JavaScript this development is about.  It loads its modules with RequireJS or, bundled,
    with Almond; exchanges JSON; keeps settings in cookies; shows logs through a web
    socket; and builds its pages from the Fuel UX widgets.

    Reading conventions.  A JavaScript string is a list of UTF-16 code units ([jstr]). Code
    that changes shared objects is a function of an explicit state; code that can throw
    returns an option, a sum or a type of outcomes of its own; an asynchronous request is
    an entry of a list of pending requests, and the handler that answers it is a step of
    its own, so that answers come late and in any order.  A function that recurses without
    a structural measure takes fuel, and there is a theorem that some stated fuel is
    enough.  An event handler is one definition, named as in the source, and a user session
    is a list of events.

    Parts, files and sources
    - Strings, arrays, numbers, URIs.  This file holds strings, arrays and truthiness;
      Numbers.v integers, parseInt, texts as numbers, slice and ceiling; Uri.v the
      language's encodeURIComponent and decodeURIComponent in full.
    - Module names (W/js/require.js): ModuleNames.v has trimDots, normalize, nameToUrl,
      makeModuleMap, configure, data-main and the helpers; ModuleNamesFacts.v and
      UrlsFacts.v show that trimDots (a loop over an array it splices) is a fold over a stack, that the
      longest mapping and the longest path win, and that generated names are fresh.
    - Almond (W/fuelux/lib/almond.js): Almond.v is the whole loader, AlmondFacts.v shows
      that callbacks run at most once, that the recursion of callDep ends with a fuel of
      one more than the modules still waiting, what it returns, and that its normalize is
      RequireJS's.
    - JSON (W/js/json2.js): Json2.v has quote, stringify, the four replacements of the
      safety test of parse, the reviver walk, and the text of a date with its calendar;
      Json2Facts.v and Json2Safe.v show the round trips of quote and of dates, that
      stringify prints JSON (a grammar of the standard, stated on its own), that all it
      prints without or with white indents passes the test, and that whatever passes the
      test is data: a grammar of numbers, texts and names in brackets.
    - RequireJS's loader (W/js/require.js): Loader.v is one context as a state machine
      (module objects, registry, queues, plugins, script events), LoaderFacts.v its
      invariant by rule induction over every operation (the values delivered to a module
      are noted for the theorems, the program does not read them), LoaderProps.v and
      LoaderRequire.v the properties: factories run once and with what was delivered, scripts are requested
      once, the cycle search is right and ends, require calls back.
    - Data grid (W/fuelux/dist/datagrid.js, W/fuelux/sample/datasource.js): DataSource.v
      has the interface between a grid and its source (class DataSource, and the paging
      contract PagedSource) and the static source; DataSourceFacts.v discharges the
      contract; Datagrid.v is the grid, DatagridFacts.v its properties, proved against the
      contract only.
    - The other widgets (W/fuelux/dist): SearchBox.v (search.js, and its wiring to a grid),
      Spinner.v (spinner.js, with its timers), Wizard.v (wizard.js), Choosers.v (select.js,
      combobox.js, util.js), Checks.v (checkbox.js, radio.js), Tree.v and TreeFacts.v
      (tree.js, W/fuelux/sample/datasourceTree.js).
    - Log viewer (W/js/LogWebSocket.js): LogSocket.v.
    - Cookies (W/js/jquery.cookie.js): Cookie.v and CookieFacts.v, over an interface to the
      browser's jar.
    - Bootstrap (in W/fuelux/dist/all.js): Typeahead.v (the suggestions, their order, keys,
      mouse and late answers) and Modal.v (showing and hiding with transitions, timers and
      overlays; a specification of six phases that the dialogue refines for a patient user,
      and what impatience leaves behind), Carousel.v and CarouselFacts.v (slides, the
      interval, the handlers of a slide), Tabs.v and TabsFacts.v (the marked link and its
      pane), ScrollSpy.v (the section in view); Tooltip.v (tooltips and popovers: elements,
      objects, handlers and timers, and containers that serve the elements inside them)
      with TooltipFacts.v (what the pointer's moves and the timers settle to, and where the
      timers go wrong) and Placement.v (where a tip and its arrow go, over rational
      lengths); Collapse.v and CollapseFacts.v (a panel as a machine of four phases,
      accordions); Dropdown.v and DropdownFacts.v (one menu at a time, the arrow keys),
      Selectors.v (the element an address names); Button.v, Alert.v and Affix.v.
    - The pill box (W/fuelux/dist/pillbox.js), nano templates (W/js/nano.js) and the
      loading cover (W/js/panelLoading.plugin.js): Checks.v, Nano.v (a template filled in
      piece by piece), PanelLoading.v (a cover taken away leaves the panel as it was).
    - Marathon console (W/marathon/js/marathon.js, with the form of index.html): Marathon.v
      has the models, views, requests, the form in its lightbox and the filter;
      MarathonFacts.v that every operation keeps the page in step with the collection;
      MarathonProps.v the properties.
    - Form plugin (W/jquery/jquery.form.js): Form.v has the controls of a form, what they
      send, jQuery's param and its reading back, clearing and selecting; FormFacts.v that
      what is gathered is the form data set of HTML and what clearing leaves; FormSubmit.v
      and FormSubmitFacts.v a submission with its hooks, its request and the button
      pressed, and the binding of forms by ajaxForm; FormUpload.v and FormUploadFacts.v the
      upload through an iframe as a state machine of its timers, loads and aborts.
    - QUnit (W/fuelux/lib/qunit/qunit.js): QunitRunner.v is the runner as a state machine
      of a queue, nested calls of process, timers and events, each with the answers of the
      clock meanwhile; the calls of stop and start are noted, and reports say which test
      they are about, for the theorems only.  QunitRunnerFacts.v has its
      invariants (what stops waits, what is reported adds up, what an exception leaves),
      QunitRunnerOrder.v the order of the phases and that every event ends,
      QunitRunnerEnd.v that tests which do not wait run whole and are reported, the verdict
      of a test and concrete runs.
      QunitEquiv.v is deep equality over a heap of objects and QunitDump.v the dump of the
      same values; QunitEquivFacts.v and QunitDumpFacts.v show that both end on cycles, and
      what they are on trees.  QunitDiff.v and QunitDiffFacts.v have the difference of two
      texts; QunitText.v and QunitTextFacts.v the messages, which compose the dump's text,
      escaping and the difference, and the page's address; QunitAssert.v and
      QunitAssertFacts.v the assertions themselves, where they agree, and what throws
      accepts; QunitPage.v is what the page shows: the list of results, the box that hides
      passed tests, the choice of a module and the title.
    - MD5 (W/js/md5-min.js): Md5.v is the code on signed 32-bit numbers; Md5Facts.v sees
      its operators modulo two to the 32 and octets as little-endian words, has the
      standard (RFC 1321, and RFC 2104 for keys) and shows that the code computes it.
    - Microblog page (W/js/tw.new.index.min.0.0.14.js): Passport.v and PassportFacts.v have
      the completions under the name of the account card; PassportLogin.v a login, its
      request, its interval and its outcomes; Slides.v the scrolling pictures and the
      counting timer; Microblog.v the settings, the counter image and the MSN address. What
      the card calls of the library object (W/js/jquery.sohu.tw.min.0.0.6.js) is modelled
      with it.
    How they interact.  Almond and RequireJS share the naming functions (normalize is
    proved equal); the grid is proved against the interface of a source and the static
    source implements it; the search control drives the grid's searchChanged, and the two
    are composed in SearchBox.v; the cookie plugin is proved against CookieJar.

    Fuel and bounds.  trimDots: the length of the array; callDep: one more than the number
    of waiting modules; findCycle: two more than the registered modules; stringify: one
    more than the nesting; Loader's [exec] takes a call depth and its theorems hold for
    every depth, a run that is cut off being a prefix; the page list of the grid: the
    number of pages, and no fuel is enough for infinitely many; the handlers of a slide: a
    depth of two; an upload looks at a response fifty times; deep equality and the dump: a
    depth of one more than the objects; QUnit's process: one more than the weight of the
    queue, an item weighing what it can queue in turn; nano: the length of the template;
    MD5: as many blocks as there are words, for texts below two to the 28 octets.

    What is a parameter: jQuery's selector engine, underscore's sortBy, the Unicode case
    tables, the browser's cookie jar, clock, innerHTML, the user's factories, plugins,
    revivers and formatters.  Each is an argument or a class, with its documented laws
    where a theorem needs them and a concrete instance in the examples.

    Not modelled, and why.  Layout and animation (widths, heights, fades) computes nothing
    the programs read back, but for the place of a tooltip.  The bundles
    W/fuelux/dist/all.js and loader.js repeat, besides Bootstrap, the files above, and what
    is left of Bootstrap is noConflict and the data attributes of affix; minified libraries
    (jQuery but for its param, underscore, Backbone, bootbox, the rest of the microblog's)
    are third-party code that the sources only call; the sample data is a table.  The Java
    services are not JavaScript.  Within the modelled parts: RequireJS's several contexts,
    its interactive-script path for old browsers and web workers; the regular
    expressions that scan a factory's text for require calls; the percentage the form
    plugin reports of an upload, and what it does to read a frame of another origin;
    QUnit's fixture and rerun by double click, handlers of its reports that call it back,
    the flag that throws sets for onerror, and NodeLists in its dump. *)

From stdpp Require Export base tactics gmap strings pretty numbers option list.
Export list.

(** * Strings *)

(** A JavaScript string is a sequence of UTF-16 code units. *)
Abbreviation jstr := (list N).

Declare Scope js_scope.
Delimit Scope js_scope with js.

(** The code units of a (Latin-1) literal. *)
Fixpoint js (s : string) : jstr :=
  match s with
  | EmptyString => []
  | String a s' => Ascii.N_of_ascii a :: js s'
  end.
Arguments js s%_string.

(** The decimal text of a number, as [String(n)] and [+] produce it. *)
Definition js_of_N (n : N) : jstr := js (pretty n).

(** JavaScript truthiness of the values the sources test. *)
Class Truthy (A : Type) := truthy : A -> bool.
#[export] Instance truthy_bool : Truthy bool := fun b => b.
#[export] Instance truthy_str : Truthy (list N) :=
  fun s => match s with [] => false | _ => true end.
#[export] Instance truthy_option {A} `{Truthy A} : Truthy (option A) :=
  fun o => match o with Some a => truthy a | None => false end.

(** An object, an array or a function is always truthy: [present] is the test of
    a reference that is undefined or null when absent. *)
Definition present {A} (o : option A) : bool :=
  match o with Some _ => true | None => false end.

(** [s.split(sep)] for a separator of one code unit. *)
Fixpoint split (sep : N) (s : jstr) : list jstr :=
  match s with
  | [] => [[]]
  | c :: s' =>
      if decide (c = sep) then [] :: split sep s'
      else match split sep s' with
           | p :: ps => (c :: p) :: ps
           | [] => [[c]]
           end
  end.

(** [parts.join(sep)]. *)
Fixpoint join (sep : jstr) (l : list jstr) : jstr :=
  match l with
  | [] => []
  | [x] => x
  | x :: l' => x ++ sep ++ join sep l'
  end.

(** [s.charAt(0)] is [c]. *)
Definition first_is (c : N) (s : jstr) : bool :=
  match s with x :: _ => bool_decide (x = c) | [] => false end.

(** [s.indexOf(p) === 0]. *)
Fixpoint starts_with (p s : jstr) : bool :=
  match p, s with
  | [], _ => true
  | x :: p', y :: s' => bool_decide (x = y) && starts_with p' s'
  | _ :: _, [] => false
  end.

Definition ends_with (p s : jstr) : bool := starts_with (reverse p) (reverse s).

(** [s.indexOf(c)] for one code unit, [None] standing for -1. *)
Fixpoint index_of (c : N) (s : jstr) : option nat :=
  match s with
  | [] => None
  | x :: s' => if decide (x = c) then Some 0 else S <$> index_of c s'
  end.

(** [s.lastIndexOf(c)]. *)
Fixpoint last_index_of (c : N) (s : jstr) : option nat :=
  match s with
  | [] => None
  | x :: s' =>
      match last_index_of c s' with
      | Some i => Some (S i)
      | None => if decide (x = c) then Some 0 else None
      end
  end.

(** [s.indexOf(p) !== -1]. *)
Fixpoint contains (p s : jstr) : bool :=
  starts_with p s || match s with [] => false | _ :: s' => contains p s' end.

Definition has_char (c : N) (s : jstr) : bool := bool_decide (c ∈ s).

(** The code units the sources name. *)
Definition dot : N := 46.
Definition slash : N := 47.
Definition bang : N := 33.
Definition colon : N := 58.
Definition question : N := 63.
Definition dquote : N := 34.
Definition backslash : N := 92.

(** * Arrays *)

(** [ary.splice(i, n, ...ins)] at an index inside the array. *)
Definition splice {A} (i n : nat) (ins l : list A) : list A :=
  take i l ++ ins ++ drop (i + n) l.

(** [ary.slice(0, ary.length - 1)]. *)
Definition but_last {A} (l : list A) : list A := take (length l - 1) l.

(** The elements of a list at the places [idxs], changed; the places where [f] holds. *)
Definition map_at {A} (f : A -> A) (idxs : list nat) (l : list A) : list A :=
  imap (fun i x => if decide (i ∈ idxs) then f x else x) l.

Definition places {A} (f : A -> bool) (l : list A) : list nat :=
  omap (fun ix => if f (snd ix) then Some (fst ix) else None) (imap pair l).

(** * Lemmas *)

Lemma map_at_lookup {A} (f : A -> A) idxs l i :
  map_at f idxs l !! i = (fun x => if decide (i ∈ idxs) then f x else x) <$> l !! i.
Proof. unfold map_at. by rewrite list_lookup_imap. Qed.

Lemma map_at_length {A} (f : A -> A) idxs l : length (map_at f idxs l) = length l.
Proof. unfold map_at. by rewrite length_imap. Qed.

Lemma places_from {A} (f : A -> bool) a k l :
  (forall i x, l !! i = Some x -> f x = bool_decide (k + i = a)) ->
  omap (fun ix => if f (snd ix) then Some (fst ix) else None) (imap (fun i x => (k + i, x)) l)
  = if decide (k <= a < k + length l) then [a] else [].
Proof.
  revert k. induction l as [|x l IH]; intros k H; [by rewrite decide_False by (cbn; lia)|].
  rewrite imap_cons. cbn [omap list_omap fst snd].
  rewrite (imap_ext _ (fun i x => (S k + i, x))) by (intros i y _; cbn; f_equal; lia).
  rewrite IH by (intros i y Hi; rewrite (H (S i) y Hi); apply bool_decide_ext; lia).
  rewrite (H 0 x eq_refl), Nat.add_0_r. cbn [length].
  case_bool_decide as E.
  - rewrite decide_False by lia. rewrite decide_True by lia. by subst.
  - repeat case_decide; done || lia.
Qed.

(** A single place. *)
Lemma places_one {A} (f : A -> bool) a l :
  a < length l -> (forall i x, l !! i = Some x -> f x = bool_decide (i = a)) -> places f l = [a].
Proof.
  intros Ha H. pose proof (places_from f a 0 l H) as E. rewrite decide_True in E by lia.
  exact E.
Qed.

(** What a map sees of a change at one place. *)
Lemma map_alter {A B} (g : A -> B) (f : A -> A) (h : B -> B) i (l : list A) :
  (forall x, g (f x) = h (g x)) -> map g (alter f i l) = alter h i (map g l).
Proof.
  intros H. apply list_eq. intros j. rewrite list_lookup_fmap, !list_lookup_alter, !list_lookup_fmap.
  destruct (decide (i = j)) as [->|]; [|done]. destruct (l !! j); [|done]. cbn. by rewrite H.
Qed.

Lemma map_alter_same {A B} (g : A -> B) (f : A -> A) i (l : list A) :
  (forall x, g (f x) = g x) -> map g (alter f i l) = map g l.
Proof. intros H. rewrite (map_alter g f id) by done. by apply list_alter_id. Qed.

Lemma truthy_Some {A} `{Truthy A} (x : A) : truthy (Some x) = truthy x.
Proof. done. Qed.

Lemma js_app a b : js (String.append a b) = js a ++ js b.
Proof. induction a as [|x a IH]; simpl; [done|]. by rewrite <- IH. Qed.

#[export] Instance N_of_ascii_inj : Inj (=) (=) Ascii.N_of_ascii.
Proof.
  intros a b H. rewrite <- (Ascii.ascii_N_embedding a), <- (Ascii.ascii_N_embedding b).
  by rewrite H.
Qed.

#[export] Instance js_inj : Inj (=) (=) js.
Proof.
  intros a. induction a as [|x a IH]; intros [|y b]; simpl; try done.
  intros H. injection H as H1 H2. apply N_of_ascii_inj in H1. f_equal; auto.
Qed.

#[export] Instance js_of_N_inj : Inj (=) (=) js_of_N.
Proof. intros a b H. by apply (inj js), (inj pretty) in H. Qed.

Lemma split_not_nil sep s : split sep s ≠ [].
Proof. destruct s; simpl; [done|]. case_decide; [done|]. by destruct (split sep s). Qed.

Lemma split_cons_ne sep c s :
  c ≠ sep -> exists p ps, split sep s = p :: ps /\ split sep (c :: s) = (c :: p) :: ps.
Proof.
  intros Hc. simpl. rewrite decide_False by done.
  destruct (split sep s) as [|p ps] eqn:E; [by apply split_not_nil in E|].
  eauto.
Qed.

Lemma join_cons sep x l :
  l ≠ [] -> join sep (x :: l) = x ++ sep ++ join sep l.
Proof. by destruct l. Qed.

(** Joining what was split gives the string back. *)
Lemma join_split sep s : join [sep] (split sep s) = s.
Proof.
  induction s as [|c s IH]; [done|]. simpl. case_decide; subst.
  - rewrite join_cons by apply split_not_nil. simpl. by rewrite IH.
  - destruct (split sep s) as [|p [|q ps]]; simpl in *; [by subst s|by subst p|].
    by rewrite IH.
Qed.

Lemma split_no_sep sep s : sep ∉ s -> split sep s = [s].
Proof.
  induction s as [|c s IH]; intros H; [done|]. simpl.
  apply not_elem_of_cons in H as [Hc Hs]. rewrite decide_False by done.
  by rewrite IH.
Qed.

Lemma split_app_sep sep p s :
  sep ∉ p -> split sep (p ++ sep :: s) = p :: split sep s.
Proof.
  induction p as [|c p IH]; intros H; simpl.
  - by rewrite decide_True.
  - apply not_elem_of_cons in H as [Hc Hs]. rewrite decide_False by done.
    by rewrite IH.
Qed.

(** Splitting what was joined gives the parts back, when none holds the separator. *)
Lemma split_join sep l :
  l ≠ [] -> Forall (fun p => sep ∉ p) l -> split sep (join [sep] l) = l.
Proof.
  intros Hne Hall. induction Hall as [|p l Hp Hall IH]; [done|].
  destruct l as [|q l].
  - simpl. by apply split_no_sep.
  - rewrite join_cons by done. cbn [app]. rewrite split_app_sep by done.
    by rewrite IH.
Qed.

Lemma split_parts_no_sep sep s : Forall (fun p => sep ∉ p) (split sep s).
Proof.
  induction s as [|c s IH]; simpl.
  - repeat constructor. set_solver.
  - case_decide.
    + constructor; [set_solver|done].
    + destruct (split sep s) as [|p ps]; inversion IH; subst.
      * repeat constructor. set_solver.
      * constructor; [set_solver|done].
Qed.

Lemma join_app sep l1 l2 :
  l1 ≠ [] -> l2 ≠ [] -> join sep (l1 ++ l2) = join sep l1 ++ sep ++ join sep l2.
Proof.
  induction l1 as [|x l1 IH]; intros H1 H2; [done|].
  destruct l1 as [|y l1].
  - cbn [app]. by rewrite join_cons.
  - change ((x :: y :: l1) ++ l2) with (x :: ((y :: l1) ++ l2)).
    rewrite !join_cons by done. rewrite IH by done. by rewrite <- !app_assoc.
Qed.

Lemma starts_with_spec p s : starts_with p s = true <-> exists r, s = p ++ r.
Proof.
  revert s. induction p as [|x p IH]; intros s; simpl.
  - split; [by exists s|done].
  - destruct s as [|y s]; simpl.
    + split; [done|]. by intros [r ?].
    + rewrite andb_true_iff, bool_decide_eq_true, IH. split.
      * intros [-> [r ->]]. by exists r.
      * intros [r H]. injection H as -> ->. eauto.
Qed.

Lemma ends_with_spec p s : ends_with p s = true <-> exists r, s = r ++ p.
Proof.
  unfold ends_with. rewrite starts_with_spec. split.
  - intros [r H]. exists (reverse r).
    rewrite <- (reverse_involutive s), H, reverse_app, reverse_involutive. done.
  - intros [r ->]. exists (reverse r). by rewrite reverse_app.
Qed.

Lemma contains_spec p s : contains p s = true <-> exists a b, s = a ++ p ++ b.
Proof.
  induction s as [|c s IH]; simpl.
  - rewrite orb_false_r, starts_with_spec. split.
    + intros [r H]. by exists [], r.
    + intros (a & b & H). destruct a; [by exists b|done].
  - rewrite orb_true_iff, IH, starts_with_spec. split.
    + intros [[r H]|(a & b & ->)]; [by exists [], r|by exists (c :: a), b].
    + intros (a & b & H). destruct a as [|a0 a]; simpl in H.
      * left. by exists b.
      * injection H as -> ->. right. by exists a, b.
Qed.

Lemma index_of_None c s : index_of c s = None <-> c ∉ s.
Proof.
  induction s as [|x s IH]; simpl; [split; [set_solver|done]|].
  rewrite not_elem_of_cons. case_decide as Hx; subst.
  - split; [done|naive_solver].
  - rewrite fmap_None, IH. naive_solver.
Qed.

Lemma index_of_Some c s i :
  index_of c s = Some i -> s = take i s ++ c :: drop (S i) s /\ c ∉ take i s.
Proof.
  revert i. induction s as [|x s IH]; intros i; simpl; [done|].
  case_decide as Hx; subst.
  - intros [= <-]. simpl. split; [by rewrite drop_0|set_solver].
  - rewrite fmap_Some. intros (j & Hj & ->). destruct (IH j Hj) as [H1 H2].
    simpl. split; [by rewrite <- H1|set_solver].
Qed.

Lemma index_of_app c p s : c ∉ p -> index_of c (p ++ c :: s) = Some (length p).
Proof.
  induction p as [|x p IH]; intros H; simpl.
  - by rewrite decide_True.
  - apply not_elem_of_cons in H as [Hc Hs]. rewrite decide_False by done.
    by rewrite IH.
Qed.

Lemma last_index_of_None c s : last_index_of c s = None <-> c ∉ s.
Proof.
  induction s as [|x s IH]; simpl; [split; [set_solver|done]|].
  rewrite not_elem_of_cons. destruct (last_index_of c s) as [i|].
  - split; [done|]. intros [_ H]. by apply IH in H.
  - case_decide; naive_solver.
Qed.

Lemma last_index_of_app c p s :
  c ∉ s -> last_index_of c (p ++ c :: s) = Some (length p).
Proof.
  intros Hs. induction p as [|x p IH]; simpl.
  - apply last_index_of_None in Hs. rewrite Hs. by rewrite decide_True.
  - by rewrite IH.
Qed.

Lemma first_is_spec c s : first_is c s = true <-> exists r, s = c :: r.
Proof.
  destruct s as [|x s]; simpl; [naive_solver|].
  rewrite bool_decide_eq_true. naive_solver.
Qed.

Lemma but_last_snoc {A} (l : list A) x : but_last (l ++ [x]) = l.
Proof.
  unfold but_last. rewrite length_app. simpl.
  replace (length l + 1 - 1) with (length l) by lia. apply take_app_length.
Qed.

Lemma splice_middle {A} (l1 l2 l3 ins : list A) :
  splice (length l1) (length l2) ins (l1 ++ l2 ++ l3) = l1 ++ ins ++ l3.
Proof.
  unfold splice. by rewrite take_app_length, drop_app_add, drop_app_length.
Qed.

(** * Automation *)

Create HintDb jsdb.
#[export] Hint Resolve split_not_nil split_parts_no_sep : jsdb.
Create Rewrite HintDb jsrw.
#[export] Hint Rewrite @but_last_snoc join_split : jsrw.

(** Case analysis on every [if]/[match] of the goal, with the obvious clean-up. *)
Ltac js_cases :=
  repeat (case_match || case_decide || case_bool_decide); simplify_eq/=; try done.

(** Turn boolean tests of the code into propositions. *)
Ltac js_bool :=
  repeat match goal with
  | H : _ && _ = true |- _ => apply andb_true_iff in H as [? ?]
  | H : _ || _ = false |- _ => apply orb_false_iff in H as [? ?]
  | H : negb _ = true |- _ => apply negb_true_iff in H
  | H : negb _ = false |- _ => apply negb_false_iff in H
  | H : bool_decide _ = true |- _ => apply bool_decide_eq_true in H
  | H : bool_decide _ = false |- _ => apply bool_decide_eq_false in H
  end.
