(* ===== verification/Numbers.v ===== *)
(** Numbers: what the widgets use of JavaScript's numbers.

    The quantities the widgets count (rows, pages, list indices, spinner values) are
    integers; a double holds an integer exactly below 2^53, which is the range the
    development is about, so they are [Z]; negative zero is not distinguished from
    zero.  [parseInt] of a text that starts with no digit is not a number, and a
    quotient by zero is an infinity: [num] keeps both. *)

From S2P Require Import Prelude.
From Stdlib Require Import ZArith.

Local Open Scope Z_scope.

Inductive num := Fin (z : Z) | Infinity | NaN.

#[export] Instance num_eq_dec : EqDecision num.
Proof. solve_decision. Defined.

(** [String(z)]. *)
Definition text_of_Z (z : Z) : jstr :=
  if bool_decide (z < 0) then 45%N :: js_of_N (Z.to_N (- z)) else js_of_N (Z.to_N z).

Definition text_of_num (n : num) : jstr :=
  match n with
  | Fin z => text_of_Z z
  | Infinity => js "Infinity"
  | NaN => js "NaN"
  end.

(** [z > n]; a comparison with NaN is false. *)
Definition Z_gt_num (z : Z) (n : num) : bool :=
  match n with Fin m => bool_decide (m < z) | _ => false end.

(** [z <= n]. *)
Definition Z_le_num (z : Z) (n : num) : bool :=
  match n with Fin m => bool_decide (z <= m) | Infinity => true | NaN => false end.

Definition is_digit (c : N) : bool := bool_decide (48 <= c <= 57)%N.

(** White space and line terminators that [parseInt] skips. *)
Definition is_space (c : N) : bool :=
  bool_decide (9 <= c <= 13)%N || bool_decide (c ∈ [32; 160; 65279]%N).

(** What [\s] matches. *)
Definition js_space (c : N) : bool :=
  is_space c || bool_decide (c ∈ [5760; 8232; 8233; 8239; 8287; 12288]%N)
  || bool_decide (8192 <= c <= 8202)%N.

Fixpoint skip_spaces (s : jstr) : jstr :=
  match s with
  | c :: s' => if is_space c then skip_spaces s' else s
  | [] => []
  end.

(** The digits a text starts with, read in base ten after [acc]. *)
Fixpoint digits_from (acc : Z) (s : jstr) : Z :=
  match s with
  | c :: s' => if is_digit c then digits_from (10 * acc + Z.of_N (c - 48)) s' else acc
  | [] => acc
  end.

Definition starts_digit (s : jstr) : bool :=
  match s with c :: _ => is_digit c | [] => false end.

(** [parseInt(s, 10)], [None] standing for NaN. *)
Definition parseInt (s : jstr) : option Z :=
  let s := skip_spaces s in
  let neg := first_is 45 s in
  let s := if neg || first_is 43 s then drop 1 s else s in
  if starts_digit s
  then Some (if neg then - digits_from 0 s else digits_from 0 s)
  else None.

Fixpoint skip_js_spaces (s : jstr) : jstr :=
  match s with
  | c :: s' => if js_space c then skip_js_spaces s' else s
  | [] => []
  end.

(** [s.trim()]. *)
Definition trim (s : jstr) : jstr := reverse (skip_js_spaces (reverse (skip_js_spaces s))).

(** What a text is as a number ([ToNumber]): a whole number that is exact, a number that is
    not kept here (a fraction, an infinity, one of 2^53 or more), or not a number. *)
Inductive numeral := Whole (z : Z) | Other | NotNumber.

Definition whole (z : Z) : numeral := if bool_decide (Z.abs z < 2 ^ 53) then Whole z else Other.

Fixpoint span_digits (s : jstr) : jstr * jstr :=
  match s with
  | c :: s' => if is_digit c then let r := span_digits s' in (c :: r.1, r.2) else ([], s)
  | [] => ([], [])
  end.

Definition sign_of (s : jstr) : bool * jstr :=
  if first_is 45 s then (true, drop 1 s)
  else if first_is 43 s then (false, drop 1 s) else (false, s).

(** Digits, the last [-e] of them behind the point. *)
Definition decimal (neg : bool) (digits : jstr) (e : Z) : numeral :=
  let m := digits_from 0 digits in
  let m := if neg then - m else m in
  if bool_decide (m = 0) then Whole 0
  else if bool_decide (0 <= e) then (if bool_decide (e < 16) then whole (m * 10 ^ e) else Other)
  else if bool_decide (m mod 10 ^ (- e) = 0) then whole (m / 10 ^ (- e)) else Other.

Definition exponent (s : jstr) : option Z :=
  match s with
  | [] => Some 0
  | c :: s =>
      if bool_decide (c ∈ [69; 101]%N) then
        let (neg, ds) := sign_of s in
        if truthy ds && forallb is_digit ds
        then Some (if neg then - digits_from 0 ds else digits_from 0 ds) else None
      else None
  end.

Definition unsigned (neg : bool) (s : jstr) : numeral :=
  let (ip, r) := span_digits s in
  let (fp, r) := if first_is 46 r then span_digits (drop 1 r) else ([], r) in
  if truthy (ip ++ fp) then
    match exponent r with
    | Some e => decimal neg (ip ++ fp) (e - Z.of_nat (length fp))
    | None => NotNumber
    end
  else NotNumber.

(** Digits of another base: after 0x, 0o and 0b. *)
Definition radix (c : N) : option Z :=
  if bool_decide (c ∈ [88; 120]%N) then Some 16
  else if bool_decide (c ∈ [79; 111]%N) then Some 8
  else if bool_decide (c ∈ [66; 98]%N) then Some 2 else None.

Definition letter_value (c : N) : Z :=
  if is_digit c then Z.of_N c - 48
  else if bool_decide (97 <= c <= 102)%N then Z.of_N c - 87
  else if bool_decide (65 <= c <= 70)%N then Z.of_N c - 55 else 16.

Definition prefixed (s : jstr) : option numeral :=
  match s with
  | z :: c :: ds =>
      if bool_decide (z = 48%N) then
        r ← radix c;
        Some (if truthy ds && forallb (fun c => bool_decide (letter_value c < r)) ds
              then whole (foldl (fun a c => a * r + letter_value c) 0 ds) else NotNumber)
      else None
  | _ => None
  end.

Definition to_number (s : jstr) : numeral :=
  let s := trim s in
  if truthy s then
    match prefixed s with
    | Some n => n
    | None => let (neg, s) := sign_of s in
              if bool_decide (s = js "Infinity") then Other else unsigned neg s
    end
  else Whole 0.

(** [a * b] and [a + b] where a factor or a term may be NaN. *)
Definition mulN (a : Z) (b : option Z) : option Z := Z.mul a <$> b.
Definition addN (a b : option Z) : option Z := x ← a; y ← b; Some (x + y).

(** [Math.ceil(a / b)]. *)
Definition ceil_div (a : Z) (b : option Z) : num :=
  match b with
  | None => NaN
  | Some 0 => if bool_decide (a = 0) then NaN else Infinity
  | Some b => Fin (- ((- a) / b))
  end.

(** An end of [slice], NaN counting as 0 and a negative one from the end. *)
Definition slice_index (len : Z) (i : option Z) : Z :=
  let i := default 0 i in
  if bool_decide (i < 0) then Z.max (len + i) 0 else Z.min i len.

(** [l.slice(a, b)]. *)
Definition slice {A} (a b : option Z) (l : list A) : list A :=
  let i := slice_index (Z.of_nat (length l)) a in
  let j := slice_index (Z.of_nat (length l)) b in
  take (Z.to_nat (j - i)) (drop (Z.to_nat i) l).

(** * Lemmas *)

Lemma ceil_div_pos a b :
  0 < b -> ceil_div a (Some b) = Fin (- ((- a) / b)).
Proof. intros H. by destruct b. Qed.

(** A ceiling is the least whole number of pages that holds [a] rows. *)
Lemma ceil_bounds a b :
  0 < b -> let q := - ((- a) / b) in (q - 1) * b < a <= q * b.
Proof.
  intros Hb q. unfold q.
  pose proof (Z.div_mod (- a) b ltac:(lia)). pose proof (Z.mod_pos_bound (- a) b Hb).
  nia.
Qed.

(** Inside the array [slice] is [take] and [drop]. *)
Lemma slice_nonneg {A} a b (l : list A) :
  0 <= a -> a <= b ->
  slice (Some a) (Some b) l = take (Z.to_nat (b - a)) (drop (Z.to_nat a) l).
Proof.
  intros Ha Hab. unfold slice, slice_index; simpl.
  rewrite !bool_decide_false by lia.
  destruct (decide (a <= Z.of_nat (length l))) as [H|H].
  - rewrite (Z.min_l a) by lia.
    destruct (decide (b <= Z.of_nat (length l))) as [H'|H'].
    + by rewrite Z.min_l by lia.
    + rewrite Z.min_r by lia. rewrite !take_ge; rewrite ?length_drop; lia || done.
  - rewrite (Z.min_r a) by lia. rewrite (Z.min_r b) by lia.
    rewrite !drop_ge by lia. by rewrite !take_nil.
Qed.

Lemma digit_char (d : N) : (d < 10)%N -> is_digit (48 + d) = true.
Proof. intros H. unfold is_digit. rewrite bool_decide_true; lia. Qed.

Lemma digits_from_app acc s t :
  forallb is_digit s = true -> digits_from acc (s ++ t) = digits_from (digits_from acc s) t.
Proof.
  revert acc. induction s as [|c s IH]; intros acc; simpl; [done|].
  intros [-> H]%andb_true_iff. by apply IH.
Qed.

(** The digits [String] writes read back as the number. *)
Lemma pretty_go_digits x s :
  exists p, js (pretty_N_go x s) = p ++ js s /\ forallb is_digit p = true
    /\ digits_from 0 p = Z.of_N x /\ (p = [] -> x = 0%N).
Proof.
  revert s. induction (N.lt_wf_0 x) as [x _ IH]; intros s.
  destruct (decide (x = 0)%N) as [->|Hx]; [by exists []|].
  rewrite pretty_N_go_step by lia.
  destruct (IH (x `div` 10)%N ltac:(apply N.div_lt; lia)
              (String (pretty_N_char (x `mod` 10)) s)) as (p & Hp & Hd & Hv & _).
  set (d := (x `mod` 10)%N) in *.
  assert (Hlt : (d < 10)%N) by (apply N.mod_lt; lia).
  assert (Hc : Ascii.N_of_ascii (pretty_N_char d) = (48 + d)%N).
  { clear -Hlt. destruct d as [|d]; [done|].
    do 4 (destruct d as [d|d|]; try done; try lia). }
  exists (p ++ [(48 + d)%N]). rewrite Hp. cbn [js]. rewrite Hc, <- app_assoc.
  split; [done|]. split; [rewrite forallb_app, Hd; cbn [forallb]; by rewrite digit_char|].
  split; [|by destruct p].
  rewrite digits_from_app by done. rewrite Hv. cbn [digits_from].
  rewrite digit_char by done.
  pose proof (N.div_mod' x 10) as Hx'. fold d in Hx'. clearbody d.
  generalize dependent (x / 10)%N. intros q _ _ ->. lia.
Qed.

Lemma js_of_N_digits n :
  exists c p, js_of_N n = c :: p /\ forallb is_digit (c :: p) = true
    /\ digits_from 0 (c :: p) = Z.of_N n.
Proof.
  unfold js_of_N, pretty, pretty_N. case_decide as Hn; subst.
  - by exists 48%N, [].
  - destruct (pretty_go_digits n EmptyString) as ([|c p] & Hp & Hd & Hv & H0); [by specialize (H0 eq_refl)|].
    exists c, p. cbn [js] in Hp. rewrite app_nil_r in Hp. done.
Qed.

Lemma digit_plain c :
  is_digit c = true -> is_space c = false /\ c ≠ 45%N /\ c ≠ 43%N.
Proof.
  unfold is_digit, is_space. rewrite bool_decide_eq_true. intros H.
  rewrite bool_decide_false by lia. rewrite bool_decide_false; [|set_solver by lia].
  split; [done|lia].
Qed.

(** [parseInt] reads back what [String] wrote. *)
Lemma parseInt_text z : parseInt (text_of_Z z) = Some z.
Proof.
  unfold text_of_Z. case_bool_decide as Hz.
  - destruct (js_of_N_digits (Z.to_N (- z))) as (c & p & -> & Hd & Hv).
    assert (Hc : is_digit c = true) by (apply andb_true_iff in Hd; tauto).
    unfold parseInt. change (skip_spaces (45%N :: c :: p)) with (45%N :: c :: p).
    cbn [first_is drop]. rewrite bool_decide_true by done. cbn [orb starts_digit].
    rewrite Hc, Hv. f_equal. lia.
  - destruct (js_of_N_digits (Z.to_N z)) as (c & p & -> & Hd & Hv).
    assert (Hc : is_digit c = true) by (apply andb_true_iff in Hd; tauto).
    destruct (digit_plain c Hc) as (Hs & H1 & H2).
    unfold parseInt. cbn [skip_spaces]. rewrite Hs. cbn [first_is].
    rewrite !bool_decide_false by done. cbn [orb starts_digit].
    rewrite Hc, Hv. f_equal. lia.
Qed.

(** * Texts as numbers *)

Lemma skip_js_spaces_id s : forallb (fun c => negb (js_space c)) s = true -> skip_js_spaces s = s.
Proof. destruct s as [|c s]; [done|]. cbn. by destruct (js_space c). Qed.

Lemma trim_id s : forallb (fun c => negb (js_space c)) s = true -> trim s = s.
Proof.
  intros H. unfold trim. rewrite (skip_js_spaces_id s) by done.
  rewrite skip_js_spaces_id; [apply reverse_involutive|].
  apply forallb_forall. intros c Hc. rewrite forallb_forall in H. apply H.
  apply list_elem_of_In. apply list_elem_of_In in Hc. by rewrite elem_of_reverse in Hc.
Qed.

Lemma digit_not_space c : is_digit c = true -> js_space c = false.
Proof.
  unfold is_digit, js_space, is_space. rewrite bool_decide_eq_true. intros H.
  rewrite !bool_decide_false; [done|..]; set_unfold; lia.
Qed.

Lemma span_digits_all s : forallb is_digit s = true -> span_digits s = (s, []).
Proof. induction s as [|c s IH]; [done|]. cbn. intros [-> H]%andb_true_iff. by rewrite IH. Qed.

Lemma digits_not_space s :
  forallb is_digit s = true -> forallb (fun c => negb (js_space c)) s = true.
Proof.
  rewrite !forallb_forall. intros H c Hc. by rewrite (digit_not_space c) by auto.
Qed.

Lemma digits_trim s : forallb is_digit s = true -> trim s = s.
Proof. intros H. by apply trim_id, digits_not_space. Qed.

Lemma digit_no_radix c : is_digit c = true -> radix c = None.
Proof.
  unfold is_digit, radix. rewrite bool_decide_eq_true. intros H.
  rewrite !bool_decide_false; [done|..]; set_unfold; lia.
Qed.

(** Digits are the number they write. *)
Lemma to_number_digits s :
  forallb is_digit s = true -> s ≠ [] ->
  to_number s = if bool_decide (digits_from 0 s = 0) then Whole 0 else whole (digits_from 0 s).
Proof.
  intros H Hs. unfold to_number. rewrite digits_trim by done.
  destruct s as [|c s]; [done|]. cbn [truthy].
  assert (is_digit c = true /\ forallb is_digit s = true) as [Hc Hs'] by (by apply andb_true_iff in H).
  assert (prefixed (c :: s) = None) as ->.
  { destruct s as [|d s]; [done|]. cbn [prefixed]. cbn in Hs'. apply andb_true_iff in Hs' as [Hd _].
    rewrite digit_no_radix by done. by case_bool_decide. }
  destruct (digit_plain c Hc) as (_ & H1 & H2). unfold sign_of. cbn [first_is].
  rewrite !bool_decide_false by done.
  rewrite bool_decide_false by (intros [= -> _]; done).
  unfold unsigned. rewrite span_digits_all by done. cbn [first_is]. rewrite app_nil_r. cbn [truthy exponent].
  unfold decimal. change (0 - Z.of_nat (length [])) with 0. cbn [Z.of_nat length].
  case_bool_decide; [done|]. cbn. by rewrite Z.mul_1_r.
Qed.

(** The text of a whole number is that number. *)
Lemma to_number_text z : Z.abs z < 2 ^ 53 -> to_number (text_of_Z z) = Whole z.
Proof.
  intros Hz. unfold text_of_Z. case_bool_decide as Hn.
  - destruct (js_of_N_digits (Z.to_N (- z))) as (c & p & -> & Hd & Hv).
    unfold to_number. rewrite trim_id.
    2: { change (forallb (fun c => negb (js_space c)) (c :: p) = true). by apply digits_not_space. }
    cbn [truthy]. change (prefixed _) with (@None numeral). unfold sign_of. cbn [first_is drop].
    rewrite bool_decide_true by done.
    assert (is_digit c = true) as Hc by (by apply andb_true_iff in Hd as [? _]).
    rewrite bool_decide_false by (intros [= -> _]; done).
    unfold unsigned. rewrite span_digits_all by done. cbn [first_is]. rewrite app_nil_r. cbn [truthy exponent].
    unfold decimal. rewrite Hv. change (0 - Z.of_nat (length [])) with 0.
    rewrite bool_decide_false by lia. cbn. rewrite Z.mul_1_r. unfold whole.
      rewrite !bool_decide_true by lia. f_equal. lia.
  - destruct (js_of_N_digits (Z.to_N z)) as (c & p & -> & Hd & Hv).
    rewrite to_number_digits by done. rewrite Hv, Z2N.id by lia.
    case_bool_decide as H0; [by rewrite H0|]. unfold whole. by rewrite bool_decide_true.
Qed.

Lemma digits_from_bound acc s :
  0 <= acc -> 0 <= digits_from acc s < (acc + 1) * 10 ^ Z.of_nat (length s).
Proof.
  revert acc. induction s as [|c s IH]; intros acc H; cbn [digits_from length]; [lia|].
  rewrite Nat2Z.inj_succ, Z.pow_succ_r by lia. destruct (is_digit c) eqn:E.
  - unfold is_digit in E. apply bool_decide_eq_true in E.
    specialize (IH (10 * acc + Z.of_N (c - 48)) ltac:(lia)). nia.
  - pose proof (Z.pow_pos_nonneg 10 (Z.of_nat (length s)) ltac:(lia) ltac:(lia)). nia.
Qed.

Lemma whole_bound z v : whole z = Whole v -> Z.abs v < 2 ^ 53.
Proof. unfold whole. case_bool_decide; [|done]. by intros [= <-]. Qed.

(** A number that is kept is below 2^53. *)
Lemma to_number_bound s v : to_number s = Whole v -> Z.abs v < 2 ^ 53.
Proof.
  unfold to_number. destruct (truthy (trim s)); [|by intros [= <-]].
  destruct (prefixed (trim s)) as [n|] eqn:E.
  - intros ->. unfold prefixed in E. destruct (trim s) as [|z [|c ds]]; [done..|].
    case_bool_decide; [|done]. destruct (radix c) as [r|]; [|done]. cbn in E.
    destruct (_ && _); [|done]. injection E as E. by eapply whole_bound.
  - destruct (sign_of (trim s)) as [neg t]. case_bool_decide; [done|]. unfold unsigned.
    destruct (span_digits t) as [ip r]. destruct (if first_is 46 r then _ else _) as [fp r'].
    destruct (truthy _); [|done]. destruct (exponent r'); [|done]. unfold decimal.
    repeat case_bool_decide; try done; [by intros [= <-]|apply whole_bound..].
Qed.
