(* ===== verification/Uri.v ===== *)
(** Uri: the language's [encodeURIComponent] and [decodeURIComponent]
    (ECMAScript 5, 15.1.3), which the cookie plugin relies on, on UTF-16 strings. *)

From S2P Require Import Prelude.

Local Open Scope N_scope.

(** Letters, digits and [- _ . ! ~ * ' ( )] are left as they are. *)
Definition unreserved (c : N) : bool :=
  bool_decide (48 <= c <= 57) || bool_decide (65 <= c <= 90) || bool_decide (97 <= c <= 122)
  || bool_decide (c ∈ [45; 95; 46; 33; 126; 42; 39; 40; 41]).

Definition is_high (c : N) : bool := bool_decide (55296 <= c < 56320).
Definition is_low (c : N) : bool := bool_decide (56320 <= c < 57344).

(** The code point of a surrogate pair, and the code units of a code point. *)
Definition pair_point (hi lo : N) : N := 65536 + (hi - 55296) * 1024 + (lo - 56320).
Definition point_units (v : N) : jstr :=
  if bool_decide (v < 65536) then [v]
  else [55296 + (v - 65536) / 1024; 56320 + (v - 65536) mod 1024].

(** The UTF-8 octets of a code point. *)
Definition utf8 (v : N) : list N :=
  if bool_decide (v < 128) then [v]
  else if bool_decide (v < 2048) then [192 + v / 64; 128 + v mod 64]
  else if bool_decide (v < 65536) then [224 + v / 4096; 128 + (v / 64) mod 64; 128 + v mod 64]
  else [240 + v / 262144; 128 + (v / 4096) mod 64; 128 + (v / 64) mod 64; 128 + v mod 64].

Definition hex_upper (d : N) : N := if bool_decide (d < 10) then 48 + d else 55 + d.
Definition percent (b : N) : jstr := [37; hex_upper (b / 16); hex_upper (b mod 16)].
Definition escapes (v : N) : jstr := concat (map percent (utf8 v)).

(** [None] is the URIError of an unpaired surrogate. *)
Fixpoint encodeURIComponent (s : jstr) : option jstr :=
  match s with
  | [] => Some []
  | c :: s' =>
      if unreserved c then cons c <$> encodeURIComponent s'
      else if is_low c then None
      else if is_high c then
        match s' with
        | d :: s'' => if is_low d then app (escapes (pair_point c d)) <$> encodeURIComponent s''
                      else None
        | [] => None
        end
      else app (escapes c) <$> encodeURIComponent s'
  end.

Definition hex_value (c : N) : option N :=
  if bool_decide (48 <= c <= 57) then Some (c - 48)
  else if bool_decide (65 <= c <= 70) then Some (c - 55)
  else if bool_decide (97 <= c <= 102) then Some (c - 87)
  else None.

(** Decoding reads octets and other characters first, then characters. *)
Inductive token := Plain (c : N) | Octet (b : N).

Fixpoint tokens (s : jstr) : option (list token) :=
  match s with
  | [] => Some []
  | c :: s' =>
      if decide (c = 37)
      then match s' with
           | a :: b :: s'' =>
               match hex_value a, hex_value b with
               | Some a, Some b => cons (Octet (16 * a + b)) <$> tokens s''
               | _, _ => None
               end
           | _ => None
           end
      else cons (Plain c) <$> tokens s'
  end.

Definition continues (b : N) : bool := bool_decide (128 <= b < 192).

(** The lead octet says how many continuation octets follow; an overlong form, a
    surrogate and a value above 10FFFF are refused. *)
Fixpoint characters (ts : list token) : option jstr :=
  match ts with
  | [] => Some []
  | Plain c :: ts => cons c <$> characters ts
  | Octet b :: ts =>
      if bool_decide (b < 128) then cons b <$> characters ts
      else if bool_decide (192 <= b < 224) then
        match ts with
        | Octet b1 :: ts =>
            let v := (b - 192) * 64 + (b1 - 128) in
            if continues b1 && bool_decide (128 <= v)
            then app (point_units v) <$> characters ts else None
        | _ => None
        end
      else if bool_decide (224 <= b < 240) then
        match ts with
        | Octet b1 :: Octet b2 :: ts =>
            let v := (b - 224) * 4096 + (b1 - 128) * 64 + (b2 - 128) in
            if continues b1 && continues b2 && bool_decide (2048 <= v)
               && negb (is_high v || is_low v)
            then app (point_units v) <$> characters ts else None
        | _ => None
        end
      else if bool_decide (240 <= b < 248) then
        match ts with
        | Octet b1 :: Octet b2 :: Octet b3 :: ts =>
            let v := (b - 240) * 262144 + (b1 - 128) * 4096 + (b2 - 128) * 64 + (b3 - 128) in
            if continues b1 && continues b2 && continues b3
               && bool_decide (65536 <= v) && bool_decide (v < 1114112)
            then app (point_units v) <$> characters ts else None
        | _ => None
        end
      else None
  end.

Definition decodeURIComponent (s : jstr) : option jstr :=
  ts ← tokens s; characters ts.

(** A string whose surrogates are paired. *)
Fixpoint well_formed (s : jstr) : bool :=
  match s with
  | [] => true
  | c :: s' =>
      if is_low c then false
      else if is_high c then
        match s' with d :: s'' => is_low d && well_formed s'' | [] => false end
      else bool_decide (c < 65536) && well_formed s'
  end.

(** * Lemmas *)

Ltac ndecide :=
  repeat match goal with
  | |- context [bool_decide ?P] =>
      first [rewrite (bool_decide_true P) by lia | rewrite (bool_decide_false P) by lia]
  end.

Lemma hex_value_upper d : d < 16 -> hex_value (hex_upper d) = Some d.
Proof.
  intros H. unfold hex_upper, hex_value. destruct (decide (d < 10)); ndecide; f_equal; lia.
Qed.

Lemma tokens_percent b s :
  b < 256 -> tokens (percent b ++ s) = cons (Octet b) <$> tokens s.
Proof.
  intros H. unfold percent. cbn [app tokens]. rewrite decide_True by done.
  rewrite !hex_value_upper.
  - rewrite <- N.div_mod'. done.
  - apply N.mod_lt. lia.
  - apply N.Div0.div_lt_upper_bound. lia.
Qed.

Lemma tokens_escapes bs s :
  Forall (fun b => b < 256) bs ->
  tokens (concat (map percent bs) ++ s) = app (map Octet bs) <$> tokens s.
Proof.
  induction 1 as [|b bs Hb _ IH]; cbn [map concat].
  - simpl. by destruct (tokens s).
  - rewrite <- app_assoc, tokens_percent by done. rewrite IH. by destruct (tokens s).
Qed.

Ltac Zify.zify_post_hook ::= Z.to_euclidean_division_equations.

Lemma utf8_octets v : v < 1114112 -> Forall (fun b => b < 256) (utf8 v).
Proof.
  intros H. unfold utf8. repeat case_bool_decide; repeat constructor; lia.
Qed.

(** A Unicode scalar value survives UTF-8. *)
Definition scalar (v : N) : Prop := v < 1114112 /\ is_high v = false /\ is_low v = false.

Lemma characters_utf8 v ts :
  scalar v -> characters (map Octet (utf8 v) ++ ts) = app (point_units v) <$> characters ts.
Proof.
  intros (Hv & Hh & Hl). unfold utf8.
  destruct (decide (v < 128)); [|destruct (decide (v < 2048)); [|destruct (decide (v < 65536))]];
    ndecide; cbn [map app characters].
  - ndecide. unfold point_units. ndecide. done.
  - unfold continues. ndecide. cbn [andb].
    replace (_ * 64 + _) with v by lia. ndecide. done.
  - unfold continues. ndecide. cbn [andb].
    replace (_ * 4096 + _ + _) with v by lia. ndecide. rewrite Hh, Hl. done.
  - unfold continues. ndecide. cbn [andb].
    replace (_ * 262144 + _ + _ + _) with v by lia. ndecide. done.
Qed.

Lemma decode_escapes v s :
  scalar v ->
  decodeURIComponent (escapes v ++ s) = app (point_units v) <$> decodeURIComponent s.
Proof.
  intros H. unfold decodeURIComponent, escapes.
  rewrite tokens_escapes by (apply utf8_octets, H).
  destruct (tokens s) as [ts|]; [|done]. cbn. by apply characters_utf8.
Qed.

Lemma decode_plain c s :
  c ≠ 37 -> decodeURIComponent (c :: s) = cons c <$> decodeURIComponent s.
Proof.
  intros H. unfold decodeURIComponent. cbn [tokens]. rewrite decide_False by done.
  by destruct (tokens s).
Qed.

Lemma unreserved_not_percent c : unreserved c = true -> c ≠ 37.
Proof. by intros H ->. Qed.

Lemma pair_scalar c d :
  is_high c = true -> is_low d = true ->
  scalar (pair_point c d) /\ point_units (pair_point c d) = [c; d].
Proof.
  unfold is_high, is_low, scalar, point_units, pair_point. rewrite !bool_decide_eq_true.
  intros Hc Hd. split.
  - split; [lia|]. split; apply bool_decide_false; lia.
  - rewrite bool_decide_false by lia. f_equal; [|f_equal]; lia.
Qed.

(** The characters of an encoded text. *)
Definition uri_char (c : N) : bool := unreserved c || bool_decide (c = 37).

Lemma hex_upper_unreserved d : d < 16 -> unreserved (hex_upper d) = true.
Proof.
  intros H. unfold unreserved, hex_upper. destruct (decide (d < 10)); ndecide.
  - done.
  - by rewrite ?orb_true_r.
Qed.

Lemma escapes_chars v : v < 1114112 -> forallb uri_char (escapes v) = true.
Proof.
  intros H. unfold escapes. pose proof (utf8_octets v H) as Hb.
  induction Hb as [|b bs Hb _ IH]; [done|]. cbn [map concat]. rewrite forallb_app, IH.
  unfold percent, uri_char. cbn [forallb].
  rewrite !hex_upper_unreserved by lia. done.
Qed.

(** Encoding goes through a well-formed text unit by unit: an unreserved character, or the
    units of a scalar value. *)
Lemma encode_ind (P : jstr -> jstr -> Prop) :
  P [] [] ->
  (forall c s e, unreserved c = true -> P s e -> P (c :: s) (c :: e)) ->
  (forall v s e, scalar v -> P s e -> P (point_units v ++ s) (escapes v ++ e)) ->
  forall s, well_formed s = true -> exists e, encodeURIComponent s = Some e /\ P s e.
Proof.
  intros H0 H1 H2 s. remember (length s) as n eqn:Hn. revert s Hn.
  induction n as [n IH] using lt_wf_ind. intros [|c s] Hn H; [by exists []|].
  cbn [length] in Hn. cbn [encodeURIComponent]. cbn [well_formed] in H.
  destruct (is_low c) eqn:Hl; [done|].
  destruct (is_high c) eqn:Hh.
  - destruct s as [|d s]; [done|]. apply andb_true_iff in H as [Hd Hs].
    destruct (IH (length s) ltac:(cbn in Hn; lia) s eq_refl Hs) as (e & He & HP).
    destruct (pair_scalar c d Hh Hd) as [Hp Hu].
    assert (unreserved c = false) as ->.
    { destruct (unreserved c) eqn:E; [|done]. revert E Hh. unfold unreserved, is_high.
      rewrite !orb_true_iff, !bool_decide_eq_true. intros. set_solver by lia. }
    rewrite Hd, He. exists (escapes (pair_point c d) ++ e). split; [done|].
    change (c :: d :: s) with ([c; d] ++ s). rewrite <- Hu. by apply H2.
  - apply andb_true_iff in H as [Hc Hs]. apply bool_decide_eq_true in Hc.
    destruct (IH (length s) ltac:(lia) s eq_refl Hs) as (e & He & HP).
    destruct (unreserved c) eqn:Hu; rewrite He.
    + exists (c :: e). split; [done|]. by apply H1.
    + exists (escapes c ++ e). split; [done|].
      assert (point_units c = [c]) as Hp by (unfold point_units; by rewrite bool_decide_true).
      change (c :: s) with ([c] ++ s). rewrite <- Hp. apply H2; [|done].
      split; [lia|done].
Qed.

(** Encoding a well-formed text always succeeds, decoding gives the text back, and the
    encoded text has only unreserved characters and percent signs. *)
Lemma encode_decode s :
  well_formed s = true ->
  exists e, encodeURIComponent s = Some e /\ decodeURIComponent e = Some s
    /\ forallb uri_char e = true.
Proof.
  apply (encode_ind (fun s e => decodeURIComponent e = Some s /\ forallb uri_char e = true)).
  - done.
  - intros c t e Hu [Hd Hc]. rewrite decode_plain, Hd by (by apply unreserved_not_percent).
    split; [done|]. cbn [forallb]. unfold uri_char at 1. by rewrite Hu, Hc.
  - intros v t e Hv [Hd Hc]. rewrite decode_escapes, Hd by done. split; [done|].
    rewrite forallb_app, Hc, escapes_chars; [done|apply Hv].
Qed.
