(* ===== verification/ModuleNames.v ===== *)
(** Module names: the name resolution of the AMD loader [js/require.js]
    ([trimDots], [normalize], [nameToUrl], [toUrl], [makeModuleMap],
    [configure]) and the attribute data-main. *)

From S2P Require Import Prelude.

(** * [trimDots] *)

Module TrimDots.

Definition one : jstr := js ".".
Definition two : jstr := js "..".

(** One iteration of [for (i = 0; ary[i]; i += 1)]: the loop stops at the end of
    the array and at an empty segment, which is falsy.  [fuel] bounds the number
    of iterations; [loop_total] shows that [2 * length ary + 1] is enough. *)
Fixpoint loop (fuel : nat) (i : nat) (ary : list jstr) : option (list jstr) :=
  match fuel with
  | O => None
  | S fuel =>
      match ary !! i with
      | None => Some ary
      | Some part =>
          if negb (truthy part) then Some ary
          else if decide (part = one) then
            (* ary.splice(i, 1); i -= 1; and the loop's i += 1 *)
            loop fuel i (splice i 1 [] ary)
          else if decide (part = two) then
            if decide (i = 1 /\ (ary !! 2 = Some two \/ ary !! 0 = Some two))
            then Some ary
            else if decide (0 < i) then
              (* ary.splice(i - 1, 2); i -= 2; and the loop's i += 1 *)
              loop fuel (i - 1) (splice (i - 1) 2 [] ary)
            else loop fuel (S i) ary
          else loop fuel (S i) ary
      end
  end.

Definition trimDots (ary : list jstr) : list jstr :=
  default ary (loop (2 * length ary + 1) 0 ary).

(** The specification: a stack machine over the segments still to read.  [stk]
    holds the kept segments, the last one first. *)
Fixpoint resolve (stk rest : list jstr) : list jstr :=
  match rest with
  | [] => reverse stk
  | part :: rest' =>
      if negb (truthy part) then reverse stk ++ rest
      else if decide (part = one) then resolve stk rest'
      else if decide (part = two) then
        match stk with
        | [] => resolve [part] rest'
        | [top] =>
            if decide (head rest' = Some two \/ top = two)
            then reverse stk ++ rest
            else resolve [] rest'
        | _ :: stk' => resolve stk' rest'
        end
      else resolve (part :: stk) rest'
  end.

(** Where a path leads, starting from some directory: how many levels it climbs
    above it, and the names it then descends by (the last one first). *)
Fixpoint leads (ups : nat) (downs path : list jstr) : nat * list jstr :=
  match path with
  | [] => (ups, downs)
  | part :: path' =>
      if decide (part = one) then leads ups downs path'
      else if decide (part = two) then
        match downs with
        | [] => leads (S ups) [] path'
        | _ :: downs' => leads ups downs' path'
        end
      else leads ups (part :: downs) path'
  end.

(** The same walk, refusing to leave the starting directory. *)
Fixpoint walk (downs path : list jstr) : option (list jstr) :=
  match path with
  | [] => Some (reverse downs)
  | part :: path' =>
      if decide (part = one) then walk downs path'
      else if decide (part = two) then
        match downs with [] => None | _ :: downs' => walk downs' path' end
      else walk (part :: downs) path'
  end.

(** The shape of the kept segments: plain names, over at most one [..]. *)
Definition plain (p : jstr) : Prop := p <> one /\ p <> two /\ p <> [].
Definition stack_ok (stk : list jstr) : Prop :=
  exists names bottom, stk = names ++ bottom /\ Forall plain names /\ (bottom = [] \/ bottom = [two]).

End TrimDots.

(** * Configuration *)

(** [config.paths[id]]: a string, or an array of alternatives to try in turn. *)
Inductive path_cfg := PathStr (s : jstr) | PathArr (alts : list jstr).

(** A normalised entry of [config.pkgs]. *)
Record package := Package { pkg_name : jstr; pkg_location : jstr; pkg_main : jstr }.

(** [shim.exports] after [makeShimExports]: the function that reads a dotted
    global name (kept on the function as [.exports]), or a user function, named
    by a number. *)
Inductive shim_exports := ExportsGlobal (name : jstr) | ExportsFun (fn : nat).
Record shim_cfg := Shim { shim_deps : list jstr; shim_exp : option shim_exports }.

(** The [config] of a context.  [config_map] is [config.map]: for each base-name
    prefix (or ["*"]), the names to replace. *)
Record config := Config {
  baseUrl : jstr;
  paths : gmap jstr path_cfg;
  pkgs : gmap jstr package;
  shims : gmap jstr shim_cfg;
  config_map : option (gmap jstr (gmap jstr jstr));
  urlArgs : jstr;
  waitSeconds : Z;
  enforceDefine : bool }.

(** The initial [config] of [newContext]. *)
Definition config_init : config :=
  {| baseUrl := js "./"; paths := ∅; pkgs := ∅; shims := ∅; config_map := None;
     urlArgs := []; waitSeconds := 7; enforceDefine := false |}.

(** * [normalize] *)

Module Normalize.
Import TrimDots.

(** The first half of [normalize]: relative names.  It returns the adjusted name
    and [baseParts], which the map lookup that follows uses. *)
Definition adjust (cfg : config) (name : jstr) (baseName : option jstr)
    : jstr * option (list jstr) :=
  match baseName with
  | Some b =>
      if truthy b then
        if first_is dot name then
          let baseParts :=
            match pkgs cfg !! b with
            | Some _ => [b]
            | None => but_last (split slash b)
            end in
          let segs := trimDots (baseParts ++ split slash name) in
          let joined := join [slash] segs in
          let name' :=
            match segs with
            | pkgName :: _ =>
                match pkgs cfg !! pkgName with
                | Some pk =>
                    if decide (joined = pkgName ++ [slash] ++ pkg_main pk)
                    then pkgName else joined
                | None => joined
                end
            | [] => joined
            end in
          (name', Some baseParts)
        else (name, Some (split slash b))
      else (if starts_with (js "./") name then drop 2 name else name, None)
  | None => (if starts_with (js "./") name then drop 2 name else name, None)
  end.

Section Map.
Context (m : gmap jstr (gmap jstr jstr)).

(** [map[k] && map[k][seg]], keeping only truthy results. *)
Definition map_entry (k seg : jstr) : option jstr :=
  match m !! k with
  | Some mv =>
      match mv !! seg with
      | Some v => if truthy v then Some v else None
      | None => None
      end
  | None => None
  end.

(** [for (j = baseParts.length; j > 0; j -= 1)]: the longest prefix of the base
    name that has an entry for [seg]. *)
Fixpoint base_entry (baseParts : list jstr) (seg : jstr) (j : nat) : option jstr :=
  match j with
  | O => None
  | S j' =>
      match map_entry (join [slash] (take j baseParts)) seg with
      | Some v => Some v
      | None => base_entry baseParts seg j'
      end
  end.

Definition found_map (baseParts : option (list jstr)) (seg : jstr) : option jstr :=
  match (match baseParts with Some bp => base_entry bp seg (length bp) | None => None end) with
  | Some v => Some v
  | None => map_entry (js "*") seg
  end.

(** [for (i = nameParts.length; i > 0; i -= 1)]. *)
Fixpoint map_loop (baseParts : option (list jstr)) (nameParts : list jstr) (i : nat)
    : option jstr :=
  match i with
  | O => None
  | S i' =>
      match found_map baseParts (join [slash] (take i nameParts)) with
      | Some v => Some (join [slash] (splice 0 i [v] nameParts))
      | None => map_loop baseParts nameParts i'
      end
  end.
End Map.

Definition normalize (cfg : config) (name : jstr) (baseName : option jstr)
    (applyMap : bool) : jstr :=
  let '(name', baseParts) := adjust cfg name baseName in
  match config_map cfg with
  | Some m =>
      if applyMap && (present baseParts || present (m !! js "*")) then
        let nameParts := split slash name' in
        default name' (map_loop m baseParts nameParts (length nameParts))
      else name'
  | None => name'
  end.

End Normalize.

(** * [nameToUrl] and [toUrl] *)

Module Urls.
Import Normalize.

(** [req.jsExtRegExp = /^\/|:|\?|\.js$/]: names that already are URLs. *)
Definition jsExtRegExp_test (name : jstr) : bool :=
  first_is slash name || has_char colon name || has_char question name
  || ends_with (js ".js") name.

(** [\w], [+], [.] and [-]. *)
Definition scheme_char (c : N) : bool :=
  bool_decide (48 <= c <= 57)%N || bool_decide (65 <= c <= 90)%N
  || bool_decide (97 <= c <= 122)%N || bool_decide (c = 95%N)
  || bool_decide (c = 43%N) || bool_decide (c = 46%N) || bool_decide (c = 45%N).

(** [/^[\w\+\.\-]+:/] : a protocol.  [seen] tells that a character was read. *)
Fixpoint scheme_from (seen : bool) (s : jstr) : bool :=
  match s with
  | [] => false
  | c :: s' =>
      if decide (c = colon) then seen
      else if scheme_char c then scheme_from true s' else false
  end.
Definition has_scheme (url : jstr) : bool := scheme_from false url.

(** One step of the path lookup: what replaces the first [i] segments. *)
Definition path_entry (cfg : config) (moduleName parentModule : jstr) : option jstr :=
  let use_pkg :=
    match pkgs cfg !! parentModule with
    | Some pk =>
        Some (if decide (moduleName = pkg_name pk)
              then pkg_location pk ++ [slash] ++ pkg_main pk
              else pkg_location pk)
    | None => None
    end in
  match paths cfg !! parentModule with
  | Some (PathArr alts) => Some (default [] (head alts))
  | Some (PathStr s) => if truthy s then Some s else use_pkg
  | None => use_pkg
  end.

(** [for (i = syms.length; i > 0; i -= 1)]. *)
Fixpoint path_loop (cfg : config) (moduleName : jstr) (syms : list jstr) (i : nat)
    : list jstr :=
  match i with
  | O => syms
  | S i' =>
      match path_entry cfg moduleName (join [slash] (take i syms)) with
      | Some p => splice 0 i [p] syms
      | None => path_loop cfg moduleName syms i'
      end
  end.

(** [config.urlArgs ? url + ((url.indexOf('?') === -1 ? '?' : '&') + urlArgs) : url] *)
Definition add_urlArgs (cfg : config) (url : jstr) : jstr :=
  if truthy (urlArgs cfg)
  then url ++ (if has_char question url then js "&" else js "?") ++ urlArgs cfg
  else url.

Definition nameToUrl (cfg : config) (moduleName : jstr) (ext : option jstr)
    (relId : option jstr) : jstr :=
  let moduleName := normalize cfg moduleName relId true in
  let url :=
    if jsExtRegExp_test moduleName then
      moduleName ++ (if truthy ext then default [] ext else [])
    else
      let syms := split slash moduleName in
      let syms := path_loop cfg moduleName syms (length syms) in
      let url := join [slash] syms ++ (if truthy ext then default [] ext else js ".js") in
      (if first_is slash url || has_scheme url then [] else baseUrl cfg) ++ url in
  add_urlArgs cfg url.

Definition toUrl (cfg : config) (moduleNamePlusExt : jstr) (relId : option jstr) : jstr :=
  match last_index_of dot moduleNamePlusExt with
  | Some index =>
      nameToUrl cfg (take index moduleNamePlusExt) (Some (drop index moduleNamePlusExt)) relId
  | None => nameToUrl cfg moduleNamePlusExt None relId
  end.

End Urls.

(** * The helpers of the loader: [each], [eachReverse], [eachProp], [mixin] *)

Module Helpers.

(** [each(ary, func)]: falsy elements are skipped, and a truthy answer of [func]
    stops the iteration.  [func] acts on a state [S]. *)
Fixpoint each_from {A S} `{Truthy A} (i : nat) (ary : list A)
    (func : A -> nat -> S -> S * bool) (s : S) : S :=
  match ary with
  | [] => s
  | x :: ary' =>
      if truthy x then
        let '(s', stop) := func x i s in
        if stop : bool then s' else each_from (Datatypes.S i) ary' func s'
      else each_from (Datatypes.S i) ary' func s
  end.
Definition each {A S} `{Truthy A} (ary : list A) := @each_from A S _ 0 ary.

(** [eachReverse]: from the last element to the first. *)
Fixpoint eachReverse_at {A S} `{Truthy A} (ary : list A) (n : nat)
    (func : A -> nat -> S -> S * bool) (s : S) : S :=
  match n with
  | O => s
  | Datatypes.S i =>
      match ary !! i with
      | Some x =>
          if truthy x then
            let '(s', stop) := func x i s in
            if stop : bool then s' else eachReverse_at ary i func s'
          else eachReverse_at ary i func s
      | None => eachReverse_at ary i func s
      end
  end.
Definition eachReverse {A S} `{Truthy A} (ary : list A) :=
  @eachReverse_at A S _ ary (length ary).

(** [eachProp(obj, func)] over the own properties in enumeration order. *)
Fixpoint eachProp {A S} (props : list (jstr * A))
    (func : A -> jstr -> S -> S * bool) (s : S) : S :=
  match props with
  | [] => s
  | (prop, v) :: props' =>
      let '(s', stop) := func v prop s in
      if stop : bool then s' else eachProp props' func s'
  end.

(** [mixin(target, source, force)] without [deepStringMixin]. *)
Definition mixin {A} (target : gmap jstr A) (source : list (jstr * A)) (force : bool)
    : gmap jstr A :=
  eachProp source
    (fun v prop t =>
       (if force || negb (present (t !! prop)) then <[prop := v]> t else t, false))
    target.

(** [mixin(target, source, force, true)] on two levels: the values of the outer
    object are objects of strings. *)
Definition mixin_deep (target : gmap jstr (gmap jstr jstr))
    (source : list (jstr * list (jstr * jstr))) (force : bool) : gmap jstr (gmap jstr jstr) :=
  eachProp source
    (fun v prop t =>
       (if force || negb (present (t !! prop))
        then <[prop := mixin (default ∅ (t !! prop)) v force]> t else t, false))
    target.

End Helpers.

(** * [configure] *)

Module Configure.
Import Helpers.

Inductive raw_exports := RawString (s : jstr) | RawFunction (fn : nat).
(** [shim[id]] as the user writes it: an array of dependencies, or an object. *)
Inductive raw_shim :=
  | RawDeps (deps : list jstr)
  | RawShim (deps : option (list jstr)) (exports : option raw_exports).
(** [packages[i]]: a name, or an object. *)
Inductive raw_package :=
  | RawName (name : jstr)
  | RawPackage (name : jstr) (location main : option jstr).

(** The [cfg] argument; its properties in enumeration order. *)
Record cfg := Cfg {
  c_baseUrl : option jstr;
  c_paths : list (jstr * path_cfg);
  c_map : option (list (jstr * list (jstr * jstr)));
  c_shim : list (jstr * raw_shim);
  c_packages : list raw_package;
  c_urlArgs : option jstr;
  c_waitSeconds : option Z;
  c_enforceDefine : option bool }.

(** [makeShimExports]. *)
Definition makeShimExports (e : raw_exports) : shim_exports :=
  match e with RawString s => ExportsGlobal s | RawFunction f => ExportsFun f end.

(** [value.exports && ...]: an empty string counts as no exports. *)
Definition raw_exports_truthy (e : raw_exports) : bool :=
  match e with RawString s => truthy s | RawFunction _ => true end.

Definition normalize_shim (v : raw_shim) : shim_cfg :=
  match v with
  | RawDeps deps => Shim deps None
  | RawShim deps e =>
      Shim (default [] deps)
           (match e with
            | Some e => if raw_exports_truthy e then Some (makeShimExports e) else None
            | None => None
            end)
  end.

(** [.replace(/^\.\//, '').replace(/\.js$/, '')]. *)
Definition strip_main (main : jstr) : jstr :=
  let m := if starts_with (js "./") main then drop 2 main else main in
  if ends_with (js ".js") m then take (length m - 3) m else m.

Definition normalize_package (p : raw_package) : package :=
  let '(name, location, main) :=
    match p with
    | RawName name => (name, None, None)
    | RawPackage name location main => (name, location, main)
    end in
  {| pkg_name := name;
     pkg_location := if truthy location then default [] location else name;
     pkg_main := strip_main (if truthy main then default [] main else js "main") |}.

(** [if (cfg.baseUrl) ...]: make sure it ends in a slash. *)
Definition end_slash (url : jstr) : jstr :=
  if truthy url && negb (ends_with [slash] url) then url ++ [slash] else url.

(** The part of [configure] that updates [config]; what it does to the waiting
    modules, and the [require] call for [deps] and [callback], is not here. *)
Definition configure (c : config) (f : cfg) : config :=
  {| baseUrl := match c_baseUrl f with Some u => end_slash u | None => baseUrl c end;
     paths := mixin (paths c) (c_paths f) true;
     pkgs := fold_left (fun acc p => let k := normalize_package p in <[pkg_name k := k]> acc)
               (c_packages f) (pkgs c);
     shims := eachProp (c_shim f) (fun v id t => (<[id := normalize_shim v]> t, false)) (shims c);
     config_map :=
       match c_map f with
       | Some src => Some (mixin_deep (default ∅ (config_map c)) src true)
       | None => config_map c
       end;
     urlArgs := default (urlArgs c) (c_urlArgs f);
     waitSeconds := default (waitSeconds c) (c_waitSeconds f);
     enforceDefine := default (enforceDefine c) (c_enforceDefine f) |}.

End Configure.

(** * The main script of the page: the attribute data-main *)

Module DataMain.
Import Helpers.

(** What this part of the code uses of the page's [cfg]. *)
Record main_cfg := MainCfg { m_baseUrl : jstr; m_deps : option (list jstr) }.

(** [.replace(jsSuffixRegExp, '')]. *)
Definition strip_js (m : jstr) : jstr :=
  if ends_with (js ".js") m then take (length m - 3) m else m.

Definition use_main (dataMain : jstr) (cfg : main_cfg) : main_cfg :=
  let src := split slash dataMain in
  let mainScript := List.last src [] in
  let src := removelast src in
  let subPath := match src with [] => js "./" | _ => join [slash] src ++ [slash] end in
  let dataMain := strip_js mainScript in
  MainCfg (if truthy (m_baseUrl cfg) then m_baseUrl cfg else subPath)
    (Some (match m_deps cfg with Some deps => deps ++ [dataMain] | None => [dataMain] end)).

(** The scripts of the page by their attribute, if they have it: the last that has. *)
Definition data_main (scripts : list (option jstr)) (cfg : main_cfg) : main_cfg :=
  eachReverse scripts (fun dataMain _ cfg =>
    match dataMain with Some d => (use_main d cfg, true) | None => (cfg, false) end) cfg.

End DataMain.

(** * [makeModuleMap] *)

(** What [makeModuleMap] returns.  [mm_prefix] is falsy ([None]) when the name has
    no plugin. *)
Inductive modmap := ModMap {
  mm_prefix : option jstr;
  mm_name : jstr;
  mm_parentMap : option modmap;
  mm_unnormalized : bool;
  mm_url : option jstr;
  mm_originalName : jstr;
  mm_isDefine : bool;
  mm_id : jstr }.

(** The counters of a context. *)
Record counters := Counters { requireCounter : N; unnormalizedCounter : N }.
Definition counters_init : counters := Counters 1 1.

Module ModuleMaps.
Import Normalize Urls.

Section Plugins.
(** Module values are opaque; [plugin_normalize] is the [normalize] method of a
    plugin module, when it has one.  It is handed the loader's own [normalize]. *)
Context {V : Type} `{Truthy V} (plugin_normalize : V -> option (jstr -> (jstr -> jstr) -> jstr)).

(** [name = prefix!rest] at the first bang; an empty prefix is falsy. *)
Definition split_prefix (name : jstr) : option jstr * jstr :=
  match index_of bang name with
  | Some i => (if truthy (take i name) then Some (take i name) else None, drop (S i) name)
  | None => (None, name)
  end.

Definition makeModuleMap (cfg : config) (defined : gmap jstr V) (cnt : counters)
    (name : option jstr) (parentMap : option modmap) (isNormalized applyMap : bool)
    : modmap * counters :=
  let parentName := mm_name <$> parentMap in
  let originalName := default [] name in
  let isDefine := truthy name in
  let cnt1 :=
    if isDefine then cnt
    else Counters (requireCounter cnt + 1) (unnormalizedCounter cnt) in
  let fullName :=
    if isDefine then default [] name
    else js "_@r" ++ js_of_N (requireCounter cnt1) in
  let '(prefix0, rest) := if isDefine then split_prefix fullName else (None, fullName) in
  let prefix := (fun p => normalize cfg p parentName applyMap) <$> prefix0 in
  let pluginModule := match prefix with Some p => defined !! p | None => None end in
  let norm := fun n => normalize cfg n parentName applyMap in
  let prefixed := truthy prefix in
  let normalizedName :=
    if truthy rest then
      if prefixed then
        match (match pluginModule with Some v => plugin_normalize v | None => None end) with
        | Some f => f rest norm
        | None => norm rest
        end
      else norm rest
    else [] in
  let url :=
    if truthy rest && negb prefixed
    then Some (nameToUrl cfg rest None (mm_id <$> parentMap)) else None in
  let unnormalized := prefixed && negb (truthy pluginModule) && negb isNormalized in
  let cnt2 :=
    if unnormalized
    then Counters (requireCounter cnt1) (unnormalizedCounter cnt1 + 1) else cnt1 in
  let suffix :=
    if unnormalized then js "_unnormalized" ++ js_of_N (unnormalizedCounter cnt2) else [] in
  ({| mm_prefix := if prefixed then prefix else None;
      mm_name := normalizedName;
      mm_parentMap := parentMap;
      mm_unnormalized := unnormalized;
      mm_url := url;
      mm_originalName := originalName;
      mm_isDefine := isDefine;
      mm_id := (if prefixed then default [] prefix ++ [bang] ++ normalizedName
                else normalizedName) ++ suffix |}, cnt2).

End Plugins.
End ModuleMaps.
