(* ===== verification/ModuleNamesFacts.v ===== *)
(** Facts about module names: the theorems on [ModuleNames]. *)

From S2P Require Import Prelude ModuleNames.

Module TrimDotsFacts.
Import TrimDots.

Lemma lookup_at_stack (stk rest : list jstr) :
  (reverse stk ++ rest) !! length stk = head rest.
Proof.
  rewrite <- (length_reverse stk), lookup_app_r by lia.
  rewrite Nat.sub_diag. by destruct rest.
Qed.

(** The in-place loop, with its index standing after the kept segments, computes
    what the stack machine computes, and [2 * |rest| + |stk|] iterations do. *)
Lemma loop_resolve rest : forall stk fuel,
  2 * length rest + 1 <= fuel ->
  loop fuel (length stk) (reverse stk ++ rest) = Some (resolve stk rest).
Proof.
  induction rest as [|part rest IH]; intros stk fuel Hf;
    (destruct fuel as [|fuel]; [simpl in Hf; lia|]); simpl in Hf; simpl;
    rewrite lookup_at_stack; simpl.
  - by rewrite app_nil_r.
  - destruct (truthy part); simpl; [|done].
    assert (Hpush : loop fuel (S (length stk)) (reverse stk ++ part :: rest) =
                    Some (resolve (part :: stk) rest)).
    { rewrite <- (IH (part :: stk) fuel) by (simpl; lia).
      by rewrite reverse_cons, <- app_assoc. }
    case_decide; [|case_decide; [|done]].
    + rewrite <- (IH stk fuel) by lia. f_equal.
      rewrite <- (length_reverse stk). apply (splice_middle (reverse stk) [part] rest []).
    + destruct stk as [|top [|next stk]].
      * rewrite decide_False by (simpl; lia). by rewrite decide_False by (simpl; lia).
      * change (reverse [top] ++ part :: rest) with (top :: part :: rest) in *. simpl.
        replace (rest !! 0) with (head rest) by (by destruct rest).
        case_decide as H1; case_decide as H2; try done.
        -- exfalso. naive_solver.
        -- exfalso. naive_solver.
        -- simpl. by rewrite <- (IH [] fuel) by (simpl; lia).
      * rewrite decide_False by (simpl; lia). rewrite decide_True by (simpl; lia).
        rewrite <- (IH (next :: stk) fuel) by (simpl; lia).
        replace (length (top :: next :: stk) - 1) with (length (next :: stk)) by (simpl; lia).
        f_equal. rewrite reverse_cons, <- app_assoc, <- (length_reverse (next :: stk)).
        apply (splice_middle (reverse (next :: stk)) [top; part] rest []).
Qed.

Lemma loop_fuel fuel ary :
  2 * length ary + 1 <= fuel -> loop fuel 0 ary = Some (resolve [] ary).
Proof. intros. by apply (loop_resolve ary [] fuel). Qed.

Lemma stack_ok_nil : stack_ok [].
Proof. exists [], []. auto. Qed.

Lemma stack_ok_push p stk : plain p -> stack_ok stk -> stack_ok (p :: stk).
Proof. intros Hp (n & b & -> & Hn & Hb). exists (p :: n), b. auto. Qed.

Lemma stack_ok_two : stack_ok [two].
Proof. exists [], [two]. auto. Qed.

Lemma stack_ok_pop p stk : stack_ok (p :: stk) -> stack_ok stk.
Proof.
  intros (n & b & H & Hn & Hb). destruct n as [|q n]; simpl in H.
  - destruct Hb as [->| ->]; simplify_eq. apply stack_ok_nil.
  - simplify_eq. inversion Hn; subst. by exists n, b.
Qed.

Lemma stack_ok_top p q stk : stack_ok (p :: q :: stk) -> plain p.
Proof.
  intros (n & b & H & Hn & Hb). destruct n as [|r n]; simpl in H.
  - destruct Hb as [->| ->]; simplify_eq.
  - simplify_eq. by inversion Hn.
Qed.

Lemma stack_ok_single p : stack_ok [p] -> ~ (head (@nil jstr) = Some two \/ p = two) -> plain p.
Proof.
  intros (n & b & H & Hn & Hb) Hne. destruct n as [|r n]; simpl in H.
  - destruct Hb as [->| ->]; simplify_eq. naive_solver.
  - simplify_eq. by inversion Hn.
Qed.

Lemma leads_plain p ups downs path :
  plain p -> leads ups downs (p :: path) = leads ups (p :: downs) path.
Proof. intros (H1 & H2 & _). simpl. by rewrite !decide_False. Qed.

Lemma leads_app path1 path2 ups downs :
  leads ups downs (path1 ++ path2) =
    let '(u, d) := leads ups downs path1 in leads u d path2.
Proof.
  revert ups downs. induction path1 as [|p path1 IH]; intros ups downs; simpl; [done|].
  case_decide; [done|]. case_decide; [|done]. by destruct downs.
Qed.

(** A kept plain name followed by [..] leads nowhere. *)
Lemma leads_cancel p stk rest :
  plain p -> leads 0 [] (reverse (p :: stk) ++ two :: rest) = leads 0 [] (reverse stk ++ rest).
Proof.
  intros Hp. rewrite reverse_cons, <- app_assoc, !leads_app.
  destruct (leads 0 [] (reverse stk)) as [u d]. cbn [app]. by rewrite leads_plain.
Qed.

Lemma resolve_leads rest : forall stk,
  stack_ok stk -> leads 0 [] (resolve stk rest) = leads 0 [] (reverse stk ++ rest).
Proof.
  induction rest as [|part rest IH]; intros stk Hok; simpl; [by rewrite app_nil_r|].
  destruct (truthy part) eqn:Ht; simpl; [|done].
  case_decide as H1; [|case_decide as H2].
  - rewrite IH, !leads_app by done. destruct (leads 0 [] (reverse stk)) as [u d].
    simpl. by rewrite decide_True.
  - subst part. destruct stk as [|top [|next stk]].
    + by rewrite IH by apply stack_ok_two.
    + case_decide as Hb; [done|]. rewrite IH by apply stack_ok_nil.
      rewrite leads_cancel; [done|]. apply stack_ok_single; naive_solver.
    + rewrite IH by by eapply stack_ok_pop.
      rewrite leads_cancel; [done|]. by eapply stack_ok_top.
  - rewrite IH.
    + by rewrite reverse_cons, <- app_assoc.
    + apply stack_ok_push; [|done]. repeat split; try done. by intros ->.
Qed.

Lemma resolve_walk rest : forall downs path,
  Forall plain downs -> Forall (fun p => p <> []) rest ->
  walk downs rest = Some path -> resolve downs rest = path.
Proof.
  induction rest as [|part rest IH]; intros downs path Hd Hr Hw; simpl in *; [congruence|].
  apply Forall_cons_1 in Hr as [Hp Hr].
  destruct part as [|c part]; [done|]. simpl.
  case_decide; [by apply IH|]. case_decide as H2; [|apply IH; try done; by repeat constructor].
  destruct downs as [|top [|next downs]]; [done| |].
  - rewrite decide_False; [by apply IH|]. apply Forall_cons_1 in Hd as [(Ht1 & Ht2 & Ht3) _].
    intros [Hh|]; [|done]. destruct rest; simplify_eq/=.
  - apply IH; try done. by apply Forall_cons_1 in Hd as [_ ?].
Qed.

Lemma trimDots_eq ary : trimDots ary = resolve [] ary.
Proof. unfold trimDots. by rewrite loop_fuel by lia. Qed.

Lemma walk_app path1 path2 downs :
  walk downs (path1 ++ path2) =
    match walk downs path1 with
    | Some kept => walk (reverse kept) path2
    | None => None
    end.
Proof.
  revert downs. induction path1 as [|p path1 IH]; intros downs; simpl.
  - by rewrite reverse_involutive.
  - case_decide; [done|]. case_decide; [|done]. by destruct downs.
Qed.

Lemma walk_plain dir downs : Forall plain dir -> walk downs dir = Some (reverse downs ++ dir).
Proof.
  intros Hd. revert downs. induction Hd as [|p dir (H1 & H2 & _) Hd IH]; intros downs; simpl.
  - by rewrite app_nil_r.
  - rewrite !decide_False by done. by rewrite IH, reverse_cons, <- app_assoc.
Qed.

(** C1. The in-place loop of [trimDots] stops, whatever the array, within
    [2 * length ary + 1] iterations, more fuel never changes its answer, and that
    answer is the stack machine [resolve]'s. *)
Theorem trimDots_refines ary fuel :
  2 * length ary + 1 <= fuel ->
  loop fuel 0 ary = Some (trimDots ary) /\ trimDots ary = resolve [] ary.
Proof. intros Hf. rewrite trimDots_eq. split; [by apply loop_fuel|done]. Qed.

Lemma trimDots_refines_witness :
  let ary := [js "a"; js "b"; js ".."; js "."; js "c"] in
  loop 11 0 ary = Some (trimDots ary) /\ trimDots ary = resolve [] ary.
Proof. cbv zeta. apply (trimDots_refines _ 11). vm_compute. lia. Defined.

(** Trimming the dots never changes where a path leads: as many levels up,
    then the same names down, whether the loop runs to the end or stops early. *)
Theorem trimDots_leads ary : leads 0 [] (trimDots ary) = leads 0 [] ary.
Proof. rewrite trimDots_eq. apply (resolve_leads ary []), stack_ok_nil. Qed.

(** A path that never leaves its starting directory is trimmed completely:
    what is left is exactly the list of names walked to, without any dot. *)
Theorem trimDots_inside ary path :
  Forall (fun p => p <> []) ary -> walk [] ary = Some path -> trimDots ary = path.
Proof. rewrite trimDots_eq. intros. by apply resolve_walk. Qed.

Lemma trimDots_inside_witness :
  trimDots [js "a"; js "b"; js ".."; js "."; js "c"] = [js "a"; js "c"].
Proof.
  apply trimDots_inside; [|vm_compute; reflexivity].
  repeat constructor; discriminate.
Defined.

End TrimDotsFacts.

Module HelpersFacts.
Import Helpers.

Lemma mixin_cons_force {A} (t : gmap jstr A) k v src :
  mixin t ((k, v) :: src) true = mixin (<[k := v]> t) src true.
Proof. done. Qed.

(** A forced mix-in answers with the last value the source gives, else the target's. *)
Lemma mixin_force_lookup {A} (src : list (jstr * A)) t k :
  mixin t src true !! k =
    match (list_to_map (reverse src) : gmap jstr A) !! k with Some v => Some v | None => t !! k end.
Proof.
  revert t. induction src as [|[k' v] src IH] using rev_ind; intros t; [done|].
  assert (Happ : mixin t (src ++ [(k', v)]) true = <[k' := v]> (mixin t src true)).
  { clear IH. revert t. induction src as [|[k2 v2] src IH]; intros t; [done|].
    cbn [app]. by rewrite !mixin_cons_force, IH. }
  rewrite Happ, reverse_app. simpl. rewrite !lookup_insert. case_decide; [done|]. apply IH.
Qed.

(** An unforced mix-in never overrides the target. *)
Lemma mixin_keep_lookup {A} (src : list (jstr * A)) t k v :
  t !! k = Some v -> mixin t src false !! k = Some v.
Proof.
  unfold mixin. revert t. induction src as [|[k' v'] src IH]; intros t Ht; simpl; [done|].
  apply IH. destruct (t !! k') eqn:E; simpl; [done|].
  rewrite lookup_insert_ne; [done|]. congruence.
Qed.

End HelpersFacts.

Module NormalizeFacts.
Import TrimDots TrimDotsFacts Normalize.

(** The names found in a base name without dots. *)
Definition base_name (dir : list jstr) (file : jstr) : jstr := join [slash] (dir ++ [file]).

Lemma split_base_name dir file :
  Forall (fun p => slash ∉ p) (dir ++ [file]) -> split slash (base_name dir file) = dir ++ [file].
Proof. intros H. apply split_join; [by destruct dir|done]. Qed.

Lemma base_name_truthy dir file : file <> [] -> truthy (base_name dir file) = true.
Proof.
  unfold base_name. intros Hf. destruct dir as [|d dir]; [by destruct file|].
  cbn [app]. rewrite join_cons by (by destruct dir). by destruct d.
Qed.

(** The pieces a relative name is made of before the dots are trimmed. *)
Lemma adjust_relative cfg dir file name :
  pkgs cfg = ∅ -> Forall (fun p => slash ∉ p) (dir ++ [file]) -> file <> [] ->
  first_is dot name = true ->
  adjust cfg name (Some (base_name dir file)) =
    (join [slash] (trimDots (dir ++ split slash name)), Some dir).
Proof.
  intros Hp Hs Hf Hn. unfold adjust. rewrite base_name_truthy, Hn, Hp, lookup_empty by done.
  rewrite split_base_name by done. rewrite but_last_snoc.
  destruct (trimDots _) as [|q segs]; [done|]. by rewrite lookup_empty.
Qed.

(** A relative name is resolved against the directory of the base name: when
    the path stays inside the root, [normalize] joins the names walked to. *)
Theorem normalize_inside cfg dir file name path :
  pkgs cfg = ∅ -> Forall plain dir -> Forall (fun p => slash ∉ p) (dir ++ [file]) ->
  file <> [] -> first_is dot name = true ->
  Forall (fun p => p <> []) (split slash name) ->
  walk (reverse dir) (split slash name) = Some path ->
  normalize cfg name (Some (base_name dir file)) false = join [slash] path.
Proof.
  intros Hp Hd Hs Hf Hn Hne Hw. unfold normalize. rewrite adjust_relative by done.
  assert (Ht : trimDots (dir ++ split slash name) = path).
  { apply trimDots_inside.
    - apply Forall_app. split; [|done]. eapply Forall_impl; [exact Hd|]. by intros ? (_ & _ & ?).
    - rewrite walk_app, walk_plain by done. by rewrite app_nil_l. }
  rewrite Ht. by destruct (config_map cfg).
Qed.

Lemma normalize_inside_witness :
  normalize config_init (js "../x/./y") (Some (base_name [js "a"; js "b"] (js "c"))) false
    = join [slash] [js "a"; js "x"; js "y"].
Proof.
  apply normalize_inside; try (vm_compute; reflexivity).
  - repeat constructor; discriminate.
  - apply Forall_app; split; repeat constructor; apply (bool_decide_unpack _); vm_compute; exact I.
  - discriminate.
  - vm_compute. repeat constructor; discriminate.
Defined.

Lemma base_entry_spec m bp seg j v :
  base_entry m bp seg j = Some v ->
  exists k, 0 < k <= j /\ map_entry m (join [slash] (take k bp)) seg = Some v /\
    forall k', k < k' <= j -> map_entry m (join [slash] (take k' bp)) seg = None.
Proof.
  induction j as [|j IH]; [done|]. unfold base_entry; fold base_entry.
  destruct (map_entry m (join [slash] (take (S j) bp)) seg) as [w|] eqn:E.
  - intros [= ->]. exists (S j). repeat split; [lia..|done|lia].
  - intros H. destruct (IH H) as (k & Hk & Hm & Hno). exists k. repeat split; [lia..|done|].
    intros k' Hk'. destruct (decide (k' = S j)) as [->|]; [done|]. apply Hno. lia.
Qed.

Lemma map_loop_spec m bp parts n r :
  map_loop m bp parts n = Some r <->
  exists i v, i <= n /\ 0 < i /\ found_map m bp (join [slash] (take i parts)) = Some v /\
    (forall i', i < i' <= n -> found_map m bp (join [slash] (take i' parts)) = None) /\
    r = join [slash] (v :: drop i parts).
Proof.
  induction n as [|n IH]; simpl.
  - split; [done|]. intros (i & v & ? & ? & _). lia.
  - change (match parts with [] => [] | x :: l => x :: take n l end) with (take (S n) parts).
    destruct (found_map m bp (join [slash] (take (S n) parts))) as [w|] eqn:E.
    + split.
      * intros [= <-]. exists (S n), w. repeat split; [lia..|done|lia].
      * intros (i & v & Hi & Hpos & Hf & Hno & ->). destruct (decide (i = S n)) as [->|].
        -- rewrite E in Hf. by simplify_eq.
        -- rewrite Hno in E by lia. done.
    + rewrite IH. split; intros (i & v & Hi & Hpos & Hf & Hno & ->); exists i, v.
      * repeat split; [lia..|done|]. intros i' Hi'.
        destruct (decide (i' = S n)) as [->|]; [done|]. apply Hno. lia.
      * assert (i <> S n) by congruence. repeat split; [lia..|done|].
        intros i' Hi'. apply Hno. lia.
Qed.

Lemma base_entry_none m bp seg j :
  base_entry m bp seg j = None <->
  forall k, 0 < k <= j -> map_entry m (join [slash] (take k bp)) seg = None.
Proof.
  induction j as [|j IH]; unfold base_entry; fold base_entry; [split; [lia|done]|].
  destruct (map_entry m (join [slash] (take (S j) bp)) seg) as [w|] eqn:E.
  - split; [done|]. intros H. rewrite (H (S j)) in E by lia. done.
  - rewrite IH. split; intros H k Hk; [|apply H; lia].
    destruct (decide (k = S j)) as [->|]; [done|apply H; lia].
Qed.

Lemma map_loop_none m bp parts n :
  map_loop m bp parts n = None <->
  forall i, 0 < i <= n -> found_map m bp (join [slash] (take i parts)) = None.
Proof.
  induction n as [|n IH]; unfold map_loop; fold map_loop; [split; [lia|done]|].
  destruct (found_map m bp (join [slash] (take (S n) parts))) as [w|] eqn:E.
  - split; [done|]. intros H. rewrite (H (S n)) in E by lia. done.
  - rewrite IH. split; intros H k Hk; [|apply H; lia].
    destruct (decide (k = S n)) as [->|]; [done|apply H; lia].
Qed.

(** What the map config says, without the code's search: module [k] has the
    (non-empty) entry [v] for [seg]. *)
Definition mapped (m : gmap jstr (gmap jstr jstr)) (k seg v : jstr) : Prop :=
  exists entries, m !! k = Some entries /\ entries !! seg = Some v /\ v <> [].

(** The entry chosen for [seg] from the base segments [bp]: the one of the
    longest beginning of the base name that has one, else the one of ["*"]. *)
Definition chosen (m : gmap jstr (gmap jstr jstr)) (bp : list jstr) (seg v : jstr) : Prop :=
  (exists k, 0 < k <= length bp /\ mapped m (join [slash] (take k bp)) seg v /\
     forall k' w, k < k' <= length bp -> ~ mapped m (join [slash] (take k' bp)) seg w) \/
  (mapped m (js "*") seg v /\
     forall k w, 0 < k <= length bp -> ~ mapped m (join [slash] (take k bp)) seg w).

(** The segments of the base name the map is searched with: all of them, for a
    relative name those of its directory (or the package's name); none
    without a base name. *)
Definition base_segments (cfg : config) (name : jstr) (base : option jstr) : list jstr :=
  match base with
  | None | Some [] => []
  | Some b =>
      if first_is dot name then
        if decide (is_Some (pkgs cfg !! b)) then [b] else but_last (split slash b)
      else split slash b
  end.

Lemma map_entry_mapped m k seg v : map_entry m k seg = Some v <-> mapped m k seg v.
Proof.
  unfold map_entry, mapped. split.
  - destruct (m !! k) as [e|]; [|done]. destruct (e !! seg) as [w|] eqn:E; [|done].
    destruct w; [done|]. intros [= <-]. by exists e.
  - intros (e & -> & -> & Hv). by destruct v.
Qed.

Lemma map_entry_unmapped m k seg : map_entry m k seg = None <-> forall v, ~ mapped m k seg v.
Proof.
  setoid_rewrite <- map_entry_mapped. destruct (map_entry m k seg) as [v|].
  - split; [done|]. intros H. by destruct (H v).
  - split; [|done]. by intros _ v.
Qed.

Lemma found_map_chosen m bp seg v :
  found_map m bp seg = Some v <-> chosen m (default [] bp) seg v.
Proof.
  assert (Hstar : found_map m bp seg =
    match base_entry m (default [] bp) seg (length (default [] bp)) with
    | Some w => Some w | None => map_entry m (js "*") seg end) by by destruct bp.
  rewrite Hstar. generalize (default [] bp). clear. intros bp. unfold chosen.
  setoid_rewrite <- map_entry_mapped.
  destruct (base_entry m bp seg (length bp)) as [w|] eqn:E.
  - apply base_entry_spec in E as (k & Hk & Hw & Hno). split.
    + intros [= <-]. left. exists k. repeat split; [lia..|done|]. intros k' u Hk'.
      by rewrite Hno by lia.
    + intros [(k2 & Hk2 & Hv & Hno2)|[_ Hno2]]; [|by destruct (Hno2 k w ltac:(lia))].
      destruct (decide (k = k2)) as [->|]; [congruence|].
      destruct (decide (k < k2)); [rewrite Hno in Hv by lia; done|].
      by destruct (Hno2 k w ltac:(lia)).
  - rewrite base_entry_none in E. split.
    + intros Hv. right. split; [done|]. intros k u Hk. by rewrite E.
    + intros [(k & Hk & Hv & _)|[Hv _]]; [by rewrite E in Hv|done].
Qed.

Lemma found_map_not_chosen m bp seg :
  found_map m bp seg = None <-> forall v, ~ chosen m (default [] bp) seg v.
Proof.
  setoid_rewrite <- found_map_chosen. destruct (found_map m bp seg) as [v|].
  - split; [done|]. intros H. by destruct (H v).
  - split; [|done]. by intros _ v.
Qed.

Lemma adjust_base_segments cfg name base :
  default [] (adjust cfg name base).2 = base_segments cfg name base.
Proof.
  unfold adjust, base_segments. destruct base as [[|c b]|]; [done| |done].
  change (truthy (c :: b)) with true. cbn iota. destruct (first_is dot name); [|done].
  cbn [snd default]. destruct (pkgs cfg !! (c :: b)) as [pk|]; case_decide as Hp; try done.
  by destruct Hp.
Qed.

Lemma normalize_maps cfg name base m :
  config_map cfg = Some m ->
  let (name', bps) := adjust cfg name base in
  normalize cfg name base true =
    default name' (map_loop m bps (split slash name') (length (split slash name'))).
Proof.
  intros Hm. unfold normalize. destruct (adjust cfg name base) as [name' bps]. rewrite Hm.
  destruct bps as [bp|]; [done|]. destruct (m !! js "*") as [e|] eqn:E; [done|].
  cbn -[js].
  destruct (map_loop m None _ _) as [r|] eqn:Er; [|done].
  apply map_loop_spec in Er as (i & v & _ & _ & Hf & _). unfold found_map, map_entry in Hf.
  by rewrite E in Hf.
Qed.

(** C2. The map config is applied to the longest mapped prefix of the name, and
    to nothing else: for every name, relative or not, and every base name or
    none, the mapped segments of the resolved name are replaced by the entry
    chosen for them (that of the longest beginning of the base name that has
    one, else that of the star) and the other segments kept; a name none of
    whose prefixes has an entry stays as it was resolved. *)
Theorem normalize_map_longest cfg name base m :
  config_map cfg = Some m ->
  let bp := base_segments cfg name base in
  let name' := normalize cfg name base false in
  let parts := split slash name' in
  (exists i v, 0 < i <= length parts /\
     chosen m bp (join [slash] (take i parts)) v /\
     (forall i' w, i < i' <= length parts -> ~ chosen m bp (join [slash] (take i' parts)) w) /\
     normalize cfg name base true = join [slash] (v :: drop i parts)) \/
  ((forall i w, 0 < i <= length parts -> ~ chosen m bp (join [slash] (take i parts)) w) /\
   normalize cfg name base true = name').
Proof.
  intros Hm. pose proof (normalize_maps cfg name base m Hm) as Hr.
  assert (Hn : normalize cfg name base false = (adjust cfg name base).1).
  { unfold normalize. destruct (adjust cfg name base), (config_map cfg); done. }
  rewrite Hn, <- adjust_base_segments. destruct (adjust cfg name base) as [name' bps].
  cbn [fst snd]. rewrite Hr. destruct (map_loop m bps _ _) as [r|] eqn:E.
  - left. apply map_loop_spec in E as (i & v & Hi & Hpos & Hf & Hno & ->). exists i, v.
    repeat split; [lia..|by apply found_map_chosen|].
    intros i' w Hi'. revert w. apply found_map_not_chosen, Hno. lia.
  - right. split; [|done]. rewrite map_loop_none in E. intros i w Hi. revert w.
    by apply found_map_not_chosen, E.
Qed.

Definition longest_map : gmap jstr (gmap jstr jstr) :=
  {[js "*" := list_to_map [(js "lib", js "v1"); (js "app/ui", js "v2")];
    js "app" := list_to_map [(js "app/ui", js "v3")]]}.
Definition longest_config : config :=
  {| baseUrl := js "./"; paths := ∅; pkgs := ∅; shims := ∅; config_map := Some longest_map;
     urlArgs := []; waitSeconds := 7; enforceDefine := false |}.

(** ["./ui/x"] asked for by ["app/main"] is ["app/ui/x"], which the entry of
    ["app"] maps although the star has one too; ["lib/x"] takes the star's. *)
Lemma normalize_map_longest_witness :
  (normalize longest_config (js "./ui/x") (Some (js "app/main")) true = js "v3/x" /\
   normalize longest_config (js "lib/x") None true = js "v1/x") /\
  exists i v, chosen longest_map [js "app"] (join [slash] (take i [js "app"; js "ui"; js "x"])) v /\
    normalize longest_config (js "./ui/x") (Some (js "app/main")) true =
      join [slash] (v :: drop i [js "app"; js "ui"; js "x"]).
Proof.
  split; [by split; vm_compute|].
  destruct (normalize_map_longest longest_config (js "./ui/x") (Some (js "app/main")) longest_map
              eq_refl) as [(i & v & _ & Hf & _ & Hr)|[_ Hr]].
  - exists i, v. split; [exact Hf|exact Hr].
  - exfalso. vm_compute in Hr. discriminate.
Defined.

End NormalizeFacts.
