(* ===== verification/UrlsFacts.v ===== *)
(** Facts about URLs, module maps and the configuration of [js/require.js]. *)

From S2P Require Import Prelude ModuleNames ModuleNamesFacts.

Module UrlsFacts.
Import Normalize Urls.

Lemma scheme_from_no_colon seen s : colon ∉ s -> scheme_from seen s = false.
Proof.
  revert seen. induction s as [|c s IH]; intros seen H; simpl; [done|].
  apply not_elem_of_cons in H as [Hc Hs]. rewrite decide_False by done.
  destruct (scheme_char c); [by apply IH|done].
Qed.

(** A name that is not already an URL. *)
Lemma module_name_chars name :
  jsExtRegExp_test name = false ->
  first_is slash name = false /\ (colon ∉ name) /\ (question ∉ name) /\
  ends_with (js ".js") name = false.
Proof. unfold jsExtRegExp_test, has_char. intros H. js_bool. auto. Qed.

Lemma normalize_unmapped cfg name base :
  config_map cfg = None -> first_is dot name = false -> normalize cfg name base true = name.
Proof.
  intros Hm Hn. unfold normalize, adjust. rewrite Hm, Hn.
  assert (Hs : starts_with (js "./") name = false).
  { destruct name as [|c name]; [done|]. simpl in *. apply bool_decide_eq_false in Hn.
    by rewrite bool_decide_false by (by unfold dot in Hn; intros <-). }
  rewrite Hs. destruct base as [b|]; [|done]. by destruct (truthy b).
Qed.

Lemma path_loop_spec cfg name syms n :
  (exists i p, 0 < i <= n /\ path_entry cfg name (join [slash] (take i syms)) = Some p /\
     (forall i', i < i' <= n -> path_entry cfg name (join [slash] (take i' syms)) = None) /\
     path_loop cfg name syms n = p :: drop i syms) \/
  ((forall i, 0 < i <= n -> path_entry cfg name (join [slash] (take i syms)) = None) /\
   path_loop cfg name syms n = syms).
Proof.
  induction n as [|n IH].
  - right. split; [lia|done].
  - unfold path_loop; fold path_loop.
    destruct (path_entry cfg name (join [slash] (take (S n) syms))) as [p|] eqn:E.
    + left. exists (S n), p. repeat split; [lia..|done|lia].
    + destruct IH as [(i & p & Hi & He & Hno & Hl)|[Hno Hl]]; [left|right].
      * exists i, p. repeat split; [lia..|done| |done].
        intros i' Hi'. destruct (decide (i' = S n)) as [->|]; [done|]. apply Hno. lia.
      * split; [|done]. intros i Hi.
        destruct (decide (i = S n)) as [->|]; [done|]. apply Hno. lia.
Qed.

(** The URL of a path: absolute URLs stand, the others are under [baseUrl]. *)
Definition under_base (cfg : config) (url : jstr) : jstr :=
  (if first_is slash url || has_scheme url then [] else baseUrl cfg) ++ url.

(** The URL of a module name: the longest prefix of its segments that has a
    path or is a package is replaced by its location, the rest is kept, [.js] is
    added, and [baseUrl] is put in front unless the result is absolute. *)
Theorem nameToUrl_longest_path cfg name rel :
  config_map cfg = None -> first_is dot name = false -> jsExtRegExp_test name = false ->
  let parts := split slash name in
  (exists i p, 0 < i <= length parts /\
     path_entry cfg name (join [slash] (take i parts)) = Some p /\
     (forall i', i < i' <= length parts ->
        path_entry cfg name (join [slash] (take i' parts)) = None) /\
     nameToUrl cfg name None rel =
       add_urlArgs cfg (under_base cfg (join [slash] (p :: drop i parts) ++ js ".js"))) \/
  ((forall i, 0 < i <= length parts ->
      path_entry cfg name (join [slash] (take i parts)) = None) /\
   nameToUrl cfg name None rel = add_urlArgs cfg (baseUrl cfg ++ name ++ js ".js")).
Proof.
  intros Hm Hn Hu parts. unfold nameToUrl. rewrite normalize_unmapped, Hu by done.
  cbn [truthy truthy_option]. fold parts. fold (under_base cfg).
  destruct (path_loop_spec cfg name parts (length parts))
    as [(i & p & Hi & He & Hno & Hl)|[Hno Hl]]; [left|right]; rewrite Hl.
  - by exists i, p.
  - split; [done|]. unfold parts. rewrite join_split. unfold under_base.
    destruct (module_name_chars _ Hu) as (Hf & Hc & _).
    assert (Hf' : first_is slash (name ++ js ".js") = false) by (by destruct name).
    assert (Hc' : has_scheme (name ++ js ".js") = false).
    { apply scheme_from_no_colon. intros Hin. apply elem_of_app in Hin as [Hin|Hin]; [done|].
      revert Hin. apply (bool_decide_unpack (colon ∉ js ".js")). by vm_compute. }
    by rewrite Hf', Hc'.
Qed.

Definition example_config : config :=
  {| baseUrl := js "/s/"; paths := {[js "lib" := PathStr (js "vendor/lib")]};
     pkgs := {[js "p" := Package (js "p") (js "pkgs/p") (js "main")]}; shims := ∅;
     config_map := None; urlArgs := js "v=1"; waitSeconds := 7; enforceDefine := false |}.

Lemma nameToUrl_longest_path_witness :
  exists i p, path_entry example_config (js "lib/x/y")
                (join [slash] (take i (split slash (js "lib/x/y")))) = Some p /\
    nameToUrl example_config (js "lib/x/y") None None =
      add_urlArgs example_config (under_base example_config
        (join [slash] (p :: drop i (split slash (js "lib/x/y"))) ++ js ".js")).
Proof.
  destruct (nameToUrl_longest_path example_config (js "lib/x/y") None
              eq_refl eq_refl eq_refl) as [(i & p & _ & Hp & _ & Hu)|[Hno _]].
  - exists i, p. split; [exact Hp|exact Hu].
  - exfalso. specialize (Hno 1 ltac:(vm_compute; lia)). vm_compute in Hno. discriminate.
Defined.

(** A name that already is an URL (it starts with a slash, holds a colon or a
    question mark, or ends in [.js]) is not looked up: it only gets the extension
    that was given and the [urlArgs]. *)
Theorem nameToUrl_url cfg name ext rel :
  config_map cfg = None -> first_is dot name = false -> jsExtRegExp_test name = true ->
  nameToUrl cfg name ext rel = add_urlArgs cfg (name ++ default [] ext).
Proof.
  intros Hm Hn Hu. unfold nameToUrl. rewrite normalize_unmapped, Hu by done.
  destruct ext as [[|c ext]|]; done.
Qed.

Lemma nameToUrl_url_witness :
  nameToUrl example_config (js "http://h/x.css") None (Some (js "a")) =
    add_urlArgs example_config (js "http://h/x.css" ++ default [] None).
Proof. apply nameToUrl_url; vm_compute; reflexivity. Defined.

End UrlsFacts.

Module ModuleMapsFacts.
Import Normalize Urls ModuleMaps UrlsFacts.

Section Plugins.
Context {V : Type} `{Truthy V} (plugin_normalize : V -> option (jstr -> (jstr -> jstr) -> jstr)).

Lemma internal_name_not_relative n :
  first_is dot (js "_@r" ++ js_of_N n) = false.
Proof. done. Qed.

Lemma makeModuleMap_internal cfg defined cnt parent isNorm :
  let '(m, cnt') := makeModuleMap plugin_normalize cfg defined cnt None parent isNorm false in
  mm_id m = js "_@r" ++ js_of_N (requireCounter cnt + 1) /\ mm_isDefine m = false /\
  mm_prefix m = None /\ requireCounter cnt' = (requireCounter cnt + 1)%N.
Proof.
  unfold makeModuleMap. cbn -[normalize nameToUrl js_of_N js]. unfold normalize, adjust.
  rewrite internal_name_not_relative.
  assert (Hs : starts_with (js "./") (js "_@r" ++ js_of_N (requireCounter cnt + 1)) = false) by done.
  rewrite Hs.
  destruct parent as [p|]; simpl; [destruct (truthy (mm_name p))|];
    destruct (config_map cfg); rewrite ?app_nil_r; done.
Qed.

(** Every [require] call with an array of dependencies gets a module of its
    own: the names made up for two calls, one after the other, with any number of
    other calls between them, are different. *)
Theorem internal_names_fresh cfg1 cfg2 def1 def2 cnt1 cnt2 par1 par2 :
  let '(m1, cnt1') := makeModuleMap plugin_normalize cfg1 def1 cnt1 None par1 false false in
  (requireCounter cnt1' <= requireCounter cnt2)%N ->
  mm_id m1 <> mm_id (makeModuleMap plugin_normalize cfg2 def2 cnt2 None par2 false false).1.
Proof.
  pose proof (makeModuleMap_internal cfg1 def1 cnt1 par1 false) as H1.
  pose proof (makeModuleMap_internal cfg2 def2 cnt2 par2 false) as H2.
  destruct (makeModuleMap plugin_normalize cfg1 def1 cnt1 None par1 false false) as [m1 c1].
  destruct (makeModuleMap plugin_normalize cfg2 def2 cnt2 None par2 false false) as [m2 c2].
  destruct H1 as (Hid1 & _ & _ & Hc1), H2 as (Hid2 & _ & _ & Hc2).
  intros Hle. simpl. rewrite Hid1, Hid2, Hc1 in *. intros Heq.
  apply app_inv_head in Heq. apply (inj js_of_N) in Heq. lia.
Qed.

(** The map of an ordinary dependency (no plugin): its id and name are the
    normalised name, its URL is [nameToUrl]'s, it is a definition, and no counter
    moves, so the same name always gets the same id. *)
Theorem makeModuleMap_plain cfg defined cnt name parent isNorm applyMap :
  truthy name = true -> bang ∉ name ->
  makeModuleMap plugin_normalize cfg defined cnt (Some name) parent isNorm applyMap =
  ({| mm_prefix := None; mm_name := normalize cfg name (mm_name <$> parent) applyMap;
      mm_parentMap := parent; mm_unnormalized := false;
      mm_url := Some (nameToUrl cfg name None (mm_id <$> parent));
      mm_originalName := name; mm_isDefine := true;
      mm_id := normalize cfg name (mm_name <$> parent) applyMap |}, cnt).
Proof.
  intros Ht Hb. unfold makeModuleMap, split_prefix. apply index_of_None in Hb.
  cbn -[normalize nameToUrl js]. rewrite Ht. cbn -[normalize nameToUrl js]. rewrite Hb.
  cbn -[normalize nameToUrl js]. rewrite Ht. by rewrite app_nil_r.
Qed.

(** A plugin resource whose plugin is loaded and has no [normalize] gets the
    id [prefix!name], both halves normalised; while the plugin is not loaded the id
    carries a stamp that no later map repeats. *)
Theorem makeModuleMap_plugin cfg defined cnt prefix rest parent isNorm :
  prefix <> [] -> rest <> [] -> bang ∉ prefix -> config_map cfg = None ->
  first_is dot prefix = false ->
  let '(m, cnt') :=
    makeModuleMap plugin_normalize cfg defined cnt (Some (prefix ++ bang :: rest)) parent isNorm true in
  mm_prefix m = Some prefix /\ mm_url m = None /\
  match defined !! prefix with
  | Some p =>
      (truthy p = true -> plugin_normalize p = None ->
       mm_id m = prefix ++ bang :: normalize cfg rest (mm_name <$> parent) true /\ cnt' = cnt)
  | None =>
      mm_unnormalized m = negb isNorm /\
      (isNorm = false ->
       mm_id m = (prefix ++ bang :: normalize cfg rest (mm_name <$> parent) true) ++
                 js "_unnormalized" ++ js_of_N (unnormalizedCounter cnt') /\
       unnormalizedCounter cnt' = (unnormalizedCounter cnt + 1)%N)
  end.
Proof.
  intros Hp Hr Hb Hm Hd.
  assert (Ht : truthy (prefix ++ bang :: rest) = true) by (by destruct prefix).
  assert (Htp : truthy prefix = true) by (by destruct prefix).
  assert (Htr : truthy rest = true) by (by destruct rest).
  assert (Hs : split_prefix (prefix ++ bang :: rest) = (Some prefix, rest)).
  { unfold split_prefix. rewrite index_of_app, take_app_length, Htp by done.
    by rewrite <- Nat.add_1_r, drop_app_add. }
  unfold makeModuleMap. cbn -[normalize nameToUrl js split_prefix truthy].
  rewrite !truthy_Some, !Ht, Hs.
  cbn -[normalize nameToUrl js truthy]. rewrite normalize_unmapped, !Htr by done.
  cbn -[normalize nameToUrl js truthy]. rewrite !truthy_Some, Htp.
  cbn -[normalize nameToUrl js truthy].
  destruct (defined !! prefix) as [p|] eqn:E.
  - split; [done|]. split; [done|]. intros Htr' Hno. rewrite truthy_Some, Htr', Hno.
    simpl. by rewrite app_nil_r.
  - change (truthy (@None V)) with false.
    split; [done|]. split; [done|]. split; [done|]. intros ->. simpl.
    split; [|done]. by rewrite <- app_assoc.
Qed.

End Plugins.

Lemma internal_names_fresh_witness :
  let r := makeModuleMap (V := bool) (fun _ => None) config_init ∅ counters_init None None false false in
  mm_id r.1 <> mm_id (makeModuleMap (V := bool) (fun _ => None) config_init ∅ r.2 None None false false).1.
Proof.
  exact (internal_names_fresh (V := bool) (fun _ => None) config_init config_init ∅ ∅ counters_init
           (Counters 2 1) None None (N.le_refl _)).
Defined.

Lemma makeModuleMap_plain_witness :
  mm_id (makeModuleMap (V := bool) (fun _ => None) config_init ∅ counters_init
           (Some (js "a/b")) None false true).1 = js "a/b".
Proof.
  rewrite (makeModuleMap_plain (V := bool) (fun _ => None) config_init ∅ counters_init
             (js "a/b") None false true); [reflexivity|reflexivity|].
  apply (bool_decide_unpack _). vm_compute. exact I.
Defined.

Lemma makeModuleMap_plugin_witness :
  let '(m, cnt') := makeModuleMap (V := bool) (fun _ => None) config_init ∅ counters_init
                      (Some (js "text" ++ bang :: js "./a.html")) None false true in
  mm_id m = (js "text" ++ bang :: normalize config_init (js "./a.html") (mm_name <$> None) true) ++
            js "_unnormalized" ++ js_of_N (unnormalizedCounter cnt').
Proof.
  assert (Hb : bang ∉ js "text") by (apply (bool_decide_unpack _); vm_compute; exact I).
  pose proof (makeModuleMap_plugin (V := bool) (fun _ => None) config_init ∅ counters_init
    (js "text") (js "./a.html") None false ltac:(discriminate) ltac:(discriminate) Hb
    eq_refl eq_refl) as H.
  destruct (makeModuleMap _ _ _ _ _ _ _ _) as [m c].
  destruct H as (_ & _ & _ & H). exact (proj1 (H eq_refl)).
Defined.

End ModuleMapsFacts.

Module ConfigureFacts.
Import Helpers HelpersFacts Configure.

Lemma mixin_twice {A} (t : gmap jstr A) src :
  mixin (mixin t src true) src true = mixin t src true.
Proof.
  apply map_eq. intros k. rewrite !mixin_force_lookup.
  by destruct ((list_to_map (reverse src) : gmap jstr A) !! k).
Qed.

Lemma mixin_app {A} (t : gmap jstr A) s1 s2 :
  mixin t (s1 ++ s2) true = mixin (mixin t s1 true) s2 true.
Proof.
  revert t. induction s1 as [|[k v] s1 IH]; intros t; [done|].
  cbn [app]. by rewrite !mixin_cons_force, IH.
Qed.

Lemma fold_packages_mixin l m :
  fold_left (fun acc p => let k := normalize_package p in <[pkg_name k := k]> acc) l m =
  mixin m ((fun p => (pkg_name (normalize_package p), normalize_package p)) <$> l) true.
Proof. revert m. induction l as [|p l IH]; intros m; [done|]. apply IH. Qed.

Lemma eachProp_shims_mixin l m :
  eachProp l (fun v id t => (<[id := normalize_shim v]> t, false)) m =
  mixin m (prod_map id normalize_shim <$> l) true.
Proof. revert m. induction l as [|[k v] l IH]; intros m; [done|]. apply IH. Qed.

(** All that a source gives for the outer key [k], in order. *)
Definition given (src : list (jstr * list (jstr * jstr))) (k : jstr) : list (jstr * jstr) :=
  concat (snd <$> filter (fun e => e.1 = k) src).

Lemma given_cons k' v src k :
  given ((k', v) :: src) k = (if decide (k' = k) then v else []) ++ given src k.
Proof. unfold given. rewrite filter_cons. simpl. by case_decide. Qed.

Lemma given_none src k : k ∉ src.*1 -> given src k = [].
Proof.
  induction src as [|[k2 v2] src IH]; intros Hin; [done|]. rewrite given_cons.
  simpl in Hin. apply not_elem_of_cons in Hin as [Hk Hin].
  rewrite decide_False by done. auto.
Qed.

Lemma mixin_deep_cons t k v src :
  mixin_deep t ((k, v) :: src) true =
  mixin_deep (<[k := mixin (default ∅ (t !! k)) v true]> t) src true.
Proof. done. Qed.

Lemma mixin_deep_lookup src t k :
  mixin_deep t src true !! k =
    if decide (k ∈ src.*1) then Some (mixin (default ∅ (t !! k)) (given src k) true) else t !! k.
Proof.
  revert t. induction src as [|[k' v] src IH]; intros t; [done|].
  rewrite mixin_deep_cons, IH, given_cons. rewrite lookup_insert.
  change (((k', v) :: src).*1) with (k' :: src.*1).
  repeat case_decide; subst; simpl; try done; try (exfalso; set_solver).
  - by rewrite mixin_app.
  - by rewrite given_none, app_nil_r.
Qed.

Lemma mixin_deep_twice t src :
  mixin_deep (mixin_deep t src true) src true = mixin_deep t src true.
Proof.
  apply map_eq. intros k. rewrite !mixin_deep_lookup. case_decide; [|done].
  simpl. by rewrite mixin_twice.
Qed.

(** Configuring a context twice with the same object is configuring it once:
    paths, packages, shims and the two-level map are merged, not accumulated. *)
Theorem configure_idempotent c f : configure (configure c f) f = configure c f.
Proof.
  unfold configure; simpl. rewrite !fold_packages_mixin, !eachProp_shims_mixin, !mixin_twice.
  f_equal.
  - by destruct (c_baseUrl f).
  - destruct (c_map f); [|done]. simpl. by rewrite mixin_deep_twice.
  - by destruct (c_urlArgs f).
  - by destruct (c_waitSeconds f).
  - by destruct (c_enforceDefine f).
Qed.

Lemma end_slash_ends url : url <> [] -> ends_with [slash] (end_slash url) = true.
Proof.
  intros Hu. unfold end_slash.
  destruct (truthy url) eqn:Ht; [|by destruct url].
  destruct (ends_with [slash] url) eqn:E; [done|]. apply ends_with_spec. eauto.
Qed.

(** What a configuration call leaves in the context: a [baseUrl] that ends in a
    slash, the last path given for a name (the old one where none was given), and
    the earlier settings it does not mention. *)
Theorem configure_merges c f :
  (forall u, c_baseUrl f = Some u -> u <> [] ->
     ends_with [slash] (baseUrl (configure c f)) = true /\
     (baseUrl (configure c f) = u \/ baseUrl (configure c f) = u ++ [slash])) /\
  (c_baseUrl f = None -> baseUrl (configure c f) = baseUrl c) /\
  (forall k, paths (configure c f) !! k =
     match (list_to_map (reverse (c_paths f)) : gmap jstr path_cfg) !! k with
     | Some p => Some p
     | None => paths c !! k
     end) /\
  (forall k, k ∉ (pkg_name ∘ normalize_package) <$> c_packages f ->
     pkgs (configure c f) !! k = pkgs c !! k).
Proof.
  unfold configure; simpl. repeat split.
  - rewrite H. by apply end_slash_ends.
  - rewrite H. unfold end_slash. case_match; auto.
  - by intros ->.
  - intros k. apply mixin_force_lookup.
  - intros k Hk. rewrite fold_packages_mixin, mixin_force_lookup.
    rewrite not_elem_of_list_to_map_1; [done|].
    intros Hin. apply Hk. rewrite fmap_reverse, elem_of_reverse, <- list_fmap_compose in Hin.
    done.
Qed.

Lemma configure_merges_witness :
  ends_with [slash] (baseUrl (configure config_init
    {| c_baseUrl := Some (js "http://h/app"); c_paths := []; c_map := None; c_shim := [];
       c_packages := []; c_urlArgs := None; c_waitSeconds := None; c_enforceDefine := None |}))
    = true.
Proof. eapply (proj1 (configure_merges _ _)); [reflexivity|discriminate]. Defined.

End ConfigureFacts.

Module DataMainFacts.
Import Helpers Normalize Urls UrlsFacts DataMain.

Lemma starts_with_before p x y c : c ∉ p -> starts_with p (x ++ c :: y) = starts_with p x.
Proof.
  revert x. induction p as [|d p IH]; intros x H; [by destruct x|].
  apply not_elem_of_cons in H as [Hd Hp]. destruct x as [|e x]; cbn.
  - by rewrite bool_decide_false.
  - by rewrite IH.
Qed.

Lemma strip_js_after a b : strip_js (a ++ slash :: b) = a ++ slash :: strip_js b.
Proof.
  assert (ends_with (js ".js") (a ++ slash :: b) = ends_with (js ".js") b) as E.
  { unfold ends_with. rewrite reverse_app, reverse_cons, <- app_assoc. apply starts_with_before.
    apply (bool_decide_unpack _). vm_compute. exact I. }
  unfold strip_js. rewrite E. destruct (ends_with (js ".js") b) eqn:Eb; [|done].
  apply ends_with_spec in Eb as [t ->]. rewrite !length_app. cbn [length]. rewrite !length_app.
  change (length (js ".js")) with 3. rewrite take_app, take_ge by lia. f_equal.
  replace (length a + S (length t + 3) - 3 - length a) with (S (length t)) by lia.
  cbn [firstn]. by rewrite Nat.add_sub.
Qed.

(** The segments of a path but the last, with their slash, before the last. *)
Lemma last_segment d :
  exists m, List.last (split slash d) [] = m /\ (slash ∉ m)
    /\ (removelast (split slash d) = [] /\ d = m
        \/ removelast (split slash d) <> [] /\ d = join [slash] (removelast (split slash d)) ++ slash :: m).
Proof.
  pose proof (split_not_nil slash d) as Hn. pose proof (split_parts_no_sep slash d) as Hp.
  pose proof (app_removelast_last [] Hn) as E. set (m := List.last (split slash d) []) in *.
  exists m. split; [done|]. split.
  { rewrite Forall_forall in Hp. apply Hp. rewrite E. apply elem_of_app. right. left. }
  pose proof (join_split slash d) as J. rewrite E in J.
  destruct (removelast (split slash d)) as [|x l]; [left|right]; (split; [done|]).
  - by rewrite <- J.
  - rewrite <- J at 1. by rewrite join_app.
Qed.

Lemma eachReverse_last {A S} `{Truthy A} (pre : list A) x post (func : A -> nat -> S -> S * bool) s :
  truthy x = true -> snd (func x (length pre) s) = true -> forallb (fun y => negb (truthy y)) post = true ->
  eachReverse (pre ++ x :: post) func s = fst (func x (length pre) s).
Proof.
  intros Hx Hf Hp. unfold eachReverse. rewrite length_app. cbn [length].
  rewrite Nat.add_succ_r. revert Hp.
  enough (forall n, n <= length post -> forallb (fun y => negb (truthy y)) (take n post) = true ->
    eachReverse_at (pre ++ x :: post) (Datatypes.S (length pre + n)) func s = fst (func x (length pre) s)) as H'.
  { intros Hp. apply (H' (length post)); [done|]. by rewrite firstn_all. }
  induction n as [|n IH]; intros Hn Hp.
  - rewrite Nat.add_0_r. cbn [eachReverse_at]. rewrite lookup_app_r by lia. rewrite Nat.sub_diag. cbn.
    rewrite Hx. destruct (func x (length pre) s) as [s' stop]. cbn in Hf. by rewrite Hf.
  - destruct (lookup_lt_is_Some_2 post n) as [y Hy]; [lia|].
    erewrite take_S_r in Hp by done. rewrite forallb_app in Hp. apply andb_true_iff in Hp as [Hp Hy'].
    cbn in Hy'. rewrite andb_true_r in Hy'. apply negb_true_iff in Hy'.
    rewrite <- (IH ltac:(lia) Hp). rewrite Nat.add_succ_r.
    cbn [eachReverse_at]. rewrite lookup_app_r by lia.
    replace (Datatypes.S (length pre + n) - length pre) with (Datatypes.S n) by lia.
    change ((x :: post) !! Datatypes.S n) with (post !! n). by rewrite Hy, Hy'.
Qed.

(** The script named by the last data-main of the page is the one that is loaded: with
    no base URL of its own the configuration gets the script's directory, the script's
    name joins the modules required, and that module's URL is the attribute, with or
    without its suffix, as long as the name has nothing special. *)
Theorem data_main_loads_script cfg c pre d post :
  forallb (fun o => negb (truthy o)) post = true -> d <> [] -> m_baseUrl c = [] ->
  let c' := data_main (pre ++ Some d :: post) c in
  let m := strip_js (List.last (split slash d) []) in
  baseUrl cfg = m_baseUrl c' -> config_map cfg = None -> urlArgs cfg = [] ->
  path_entry cfg m m = None -> first_is dot m = false -> jsExtRegExp_test m = false ->
  m_deps c' = Some (default [] (m_deps c) ++ [m])
  /\ nameToUrl cfg m None None = (if has_char slash d then [] else js "./") ++ strip_js d ++ js ".js".
Proof.
  intros Hpost Hd Hb c' m Hbase Hmap Hargs Hpath Hdot Hext.
  assert (c' = use_main d c) as Ec.
  { unfold c', data_main. rewrite eachReverse_last; try done. by destruct d. }
  destruct (last_segment d) as (l & Hl & Hsl & Hcase). unfold use_main in Ec. rewrite Hl in Ec.
  unfold m in *. rewrite Hl in *. clear m.
  split; [rewrite Ec; cbn; by destruct (m_deps c)|].
  assert (slash ∉ strip_js l) as Hs.
  { unfold strip_js. destruct (ends_with _ l); [|done]. intros H. apply Hsl. by apply elem_of_take in H as (? & ? & _); eapply list_elem_of_lookup_2. }
  destruct (nameToUrl_longest_path cfg (strip_js l) None Hmap Hdot Hext) as [(i & p & Hi & He & _)|[_ ->]].
  - exfalso. rewrite split_no_sep in Hi, He by done. cbn in Hi.
    replace i with 1 in He by lia. change (join [slash] (take 1 [strip_js l])) with (strip_js l) in He. congruence.
  - unfold add_urlArgs. rewrite Hargs. cbn [truthy truthy_str]. rewrite Hbase, Ec, Hb. cbn [truthy truthy_str m_baseUrl].
    destruct Hcase as [[Hr E]|[Hr E]].
    + rewrite Hr. unfold has_char. rewrite bool_decide_false by (by rewrite E). by rewrite E.
    + destruct (removelast (split slash d)) as [|x r]; [done|]. unfold has_char.
      rewrite bool_decide_true by (rewrite E; apply elem_of_app; right; left).
      rewrite E, strip_js_after. by rewrite <- !app_assoc.
Qed.

Definition sample_scripts : list (option jstr) := [Some (js "old"); None] ++ Some (js "js/app/main.js") :: [None].
Definition sample_cfg : main_cfg := MainCfg [] (Some [js "a"]).
Definition sample_config : config :=
  {| baseUrl := m_baseUrl (data_main sample_scripts sample_cfg); paths := ∅; pkgs := ∅; shims := ∅;
     config_map := None; urlArgs := []; waitSeconds := 7; enforceDefine := false |}.

Lemma data_main_loads_script_witness :
  m_deps (data_main sample_scripts sample_cfg) = Some ([js "a"] ++ [js "main"])
  /\ nameToUrl sample_config (js "main") None None = [] ++ js "js/app/main" ++ js ".js".
Proof.
  apply (data_main_loads_script sample_config sample_cfg [Some (js "old"); None] (js "js/app/main.js") [None]);
    [reflexivity|discriminate|reflexivity..].
Defined.

(** With a base URL of its own, the directory of data-main is forgotten: the module is
    looked for under the base URL. *)
Lemma data_main_directory_lost c d :
  m_baseUrl c <> [] -> m_baseUrl (use_main d c) = m_baseUrl c.
Proof. intros H. unfold use_main. cbn. by destruct (m_baseUrl c). Qed.

End DataMainFacts.
