(* ===== verification/Almond.v ===== *)
(** Almond: the synchronous AMD loader [fuelux/lib/almond.js] (the same text
    opens [fuelux/dist/loader.js]).

    The closure variables [defined], [waiting], [config], [defining] are the
    record [state]; [main], [callDep], [makeMap], [req] and [define] are state
    transformers that may throw.  Module callbacks are user code: a callback is a
    function from its arguments to a [prog], a tree of the calls it makes to the
    loader, so a callback may require other modules while it runs, catch what
    they throw, and schedule asynchronous requires. *)

From S2P Require Import Prelude ModuleNames.

(** * [normalize] *)

Module AlmondNames.
Import TrimDots.

(** The inlined dot trimming: unlike [trimDots] of [js/require.js], the loop runs
    to the end of the array ([i < name.length]), empty segments included. *)
Fixpoint loop (fuel : nat) (i : nat) (name : list jstr) : option (list jstr) :=
  match fuel with
  | O => None
  | S fuel =>
      match name !! i with
      | None => Some name
      | Some part =>
          if decide (part = one) then loop fuel i (splice i 1 [] name)
          else if decide (part = two) then
            if decide (i = 1 /\ (name !! 2 = Some two \/ name !! 0 = Some two))
            then Some name
            else if decide (0 < i) then loop fuel (i - 1) (splice (i - 1) 2 [] name)
            else loop fuel (S i) name
          else loop fuel (S i) name
      end
  end.
Definition trim (name : list jstr) : list jstr :=
  default name (loop (2 * length name + 1) 0 name).

(** [config.map]. *)
Abbreviation name_map := (gmap jstr (gmap jstr jstr)).

Definition adjust (name : jstr) (baseName : option jstr) : jstr * option (list jstr) :=
  match baseName with
  | Some b =>
      if truthy b then
        let baseParts := split slash b in
        if first_is dot name then
          let dir := but_last baseParts in
          (join [slash] (trim (dir ++ split slash name)), Some dir)
        else (name, Some baseParts)
      else (name, None)
  | None => (name, None)
  end.

(** The lookup loop: a match for the base name ends it at once; the first match of
    the star map is only held on to ([star]). *)
Fixpoint map_loop (m : name_map) (baseParts : option (list jstr)) (nameParts : list jstr)
    (i : nat) (star : option (jstr * nat)) : option (jstr * nat) :=
  match i with
  | O => star
  | S i' =>
      let seg := join [slash] (take i nameParts) in
      match (match baseParts with
             | Some bp => Normalize.base_entry m bp seg (length bp)
             | None => None
             end) with
      | Some v => Some (v, i)
      | None =>
          let star' :=
            match star with
            | Some _ => star
            | None => (fun v => (v, i)) <$> Normalize.map_entry m (js "*") seg
            end in
          map_loop m baseParts nameParts i' star'
      end
  end.

Definition normalize (cmap : option name_map) (name : jstr) (baseName : option jstr) : jstr :=
  let '(name', baseParts) := adjust name baseName in
  match cmap with
  | Some m =>
      let nameParts := split slash name' in
      match map_loop m baseParts nameParts (length nameParts) None with
      | Some (v, i) => join [slash] (splice 0 i [v] nameParts)
      | None => name'
      end
  | None => name'
  end.

End AlmondNames.

(** * The loader *)

Module Almond.
Import AlmondNames.

Section Almond.
(** The values user code makes: opaque, compared by identity. *)
Context {X : Type} `{EqDecision X}.

(** A module value: undefined, the [n]-th object the loader created for an
    [exports] dependency, or a value of user code. *)
Inductive val := VUndef | VObj (n : nat) | VUser (x : X).
#[export] Instance val_eq_dec : EqDecision val.
Proof. solve_decision. Defined.

(** What a callback receives: a [require] function bound to a module name, the
    fresh [exports] object, a CommonJS [module] object with its initial [exports],
    or a module value. *)
Inductive arg :=
  | ARequire (relName : option jstr)
  | AExports (exports : val)
  | AModule (exports : val)
  | AVal (v : val).

(** The errors of the source, and the ones user code throws. *)
Inductive err :=
  | ENo (name : jstr)                       (* Error('No ' + name) *)
  | EMissing (name : option jstr) (dep : jstr)  (* Error(name + ' missing ' + depName) *)
  | ETypeError                              (* a method call on undefined *)
  | EUser (n : nat).

(** A run of user code: it returns (its value, and what [module.exports] holds at
    the end), throws, calls [require("name")] and goes on with the answer or with
    the exception it caught, or calls [require([..], callback)]. *)
Inductive prog :=
  | Return (ret module_exports : val)
  | Throw (n : nat)
  | Require (name : jstr) (k : val + err -> prog)
  | RequireAsync (deps : list jstr) (arity : nat) (f : list arg -> prog) (k : prog).

(** The third argument of [define]: a function with its [length], or a value. *)
Inductive callback := CFun (arity : nat) (f : list arg -> prog) | CVal (v : val).
Record definition := Def { d_deps : list jstr; d_callback : callback }.

(** A call of [main] waiting in [setTimeout]. *)
Record timer := Timer { t_deps : option (list jstr); t_callback : callback; t_rel : option jstr }.

(** [defined], [waiting], [defining], [config.map]; the pending timeouts; the number
    of objects created so far; and [trace], a ghost record of the module callbacks
    run, in order. *)
Record state := State {
  defined : gmap jstr val;
  waiting : gmap jstr definition;
  defining : gset jstr;
  cmap : option name_map;
  timers : list timer;
  objects : nat;
  trace : list jstr }.

Definition init : state := State ∅ ∅ ∅ None [] 0 [].

Definition set_defined (n : jstr) (v : val) (s : state) : state :=
  State (<[n := v]> (defined s)) (waiting s) (defining s) (cmap s) (timers s) (objects s) (trace s).
(** [delete waiting[name]; defining[name] = true]. *)
Definition start (n : jstr) (s : state) : state :=
  State (defined s) (delete n (waiting s)) ({[n]} ∪ defining s) (cmap s) (timers s) (objects s) (trace s).
Definition push_timer (t : timer) (s : state) : state :=
  State (defined s) (waiting s) (defining s) (cmap s) (timers s ++ [t]) (objects s) (trace s).
(** [{}]: the object is the old value of [objects]. *)
Definition new_object (s : state) : state :=
  State (defined s) (waiting s) (defining s) (cmap s) (timers s) (S (objects s)) (trace s).
Definition log (n : jstr) (s : state) : state :=
  State (defined s) (waiting s) (defining s) (cmap s) (timers s) (objects s) (trace s ++ [n]).
Definition set_cmap (m : option name_map) (s : state) : state :=
  State (defined s) (waiting s) (defining s) m (timers s) (objects s) (trace s).

(** State transformers that may throw; [None] is running out of fuel. *)
Definition M (A : Type) : Type := state -> option (state * (A + err)).
Definition ret {A} (a : A) : M A := fun s => Some (s, inl a).
Definition throw {A} (e : err) : M A := fun s => Some (s, inr e).
Definition bind {A B} (m : M A) (f : A -> M B) : M B :=
  fun s => match m s with
           | Some (s', inl a) => f a s'
           | Some (s', inr e) => Some (s', inr e)
           | None => None
           end.
(** [try { m } catch]: the outcome as a value. *)
Definition try {A} (m : M A) : M (A + err) :=
  fun s => match m s with Some (s', r) => Some (s', inl r) | None => None end.
Definition gets {A} (f : state -> A) : M A := fun s => Some (s, inl (f s)).
Definition modify (f : state -> state) : M unit := fun s => Some (f s, inl tt).

#[export] Instance M_ret : MRet M := @ret.
#[export] Instance M_bind : MBind M := fun A B f m => bind m f.

(** The methods of plugin modules: [truthy_of], [plugin.normalize] and
    [plugin.load].  [load_of] answers with the value the plugin hands to the load
    callback before it returns, if it does. *)
Context (truthy_of : X -> bool).
Context (normalize_of : val -> option (jstr -> (jstr -> jstr) -> jstr)).
Context (load_of : val -> option (jstr -> option val)).

Definition val_truthy (v : val) : bool :=
  match v with VUndef => false | VObj _ => true | VUser x => truthy_of x end.

(** [defined[name]] with [name] possibly undefined: the key is then ["undefined"]. *)
Definition key (name : option jstr) : jstr := default (js "undefined") name.

(** The result of [makeMap]. *)
Record map := Map { m_f : jstr; m_n : jstr; m_p : option val }.

Section Rec.
(** [callDep], for the calls it makes to itself through [main]. *)
Context (callDep : jstr -> M val).

Definition makeMap (name : jstr) (relName : option jstr) : M map :=
  cm ← gets cmap;
  match index_of bang name with
  | Some index =>
      let prefix := normalize cm (take index name) relName in
      let rest := drop (S index) name in
      plugin ← callDep prefix;
      let norm := fun n => normalize cm n relName in
      let n :=
        match (if val_truthy plugin then normalize_of plugin else None) with
        | Some f => f rest norm
        | None => norm rest
        end in
      ret (Map (if truthy prefix then prefix ++ [bang] ++ n else n) n (Some plugin))
  | None =>
      let n := normalize cm name relName in
      ret (Map n n None)
  end.

(** [req(name, relName)]: the synchronous form of [require]. *)
Definition require_sync (name : jstr) (relName : option jstr) : M val :=
  m ← makeMap name relName; callDep (m_f m).

(** User code, run on behalf of the module [name]. *)
Fixpoint run (name : option jstr) (p : prog) : M (val * val) :=
  match p with
  | Return r e => ret (r, e)
  | Throw n => throw (EUser n)
  | Require x k => r ← try (require_sync x name); run name (k r)
  | RequireAsync deps arity f k =>
      modify (push_timer (Timer (Some deps) (CFun arity f) name)) ;; run name k
  end.

(** One dependency of [main]'s loop: the argument it becomes. *)
Definition load_dep (name relName : option jstr) (dep : jstr) : M arg :=
  m ← makeMap dep relName;
  let depName := m_f m in
  d ← gets defined;
  w ← gets waiting;
  di ← gets defining;
  if decide (depName = js "require") then ret (ARequire name)
  else if decide (depName = js "exports") then
    o ← gets objects;
    modify new_object ;;
    modify (set_defined (key name) (VObj o)) ;;
    ret (AExports (VObj o))
  else if decide (depName = js "module") then
    ret (AModule (default VUndef (d !! key name)))
  else if present (d !! depName) || present (w !! depName) then
    v ← callDep depName; ret (AVal v)
  else if val_truthy (default VUndef (m_p m)) then
    match load_of (default VUndef (m_p m)) with
    | Some load =>
        match load (m_n m) with
        | Some v => modify (set_defined depName v) ;; ret (AVal v)
        | None => ret (AVal VUndef)
        end
    | None => throw ETypeError
    end
  else if negb (bool_decide (depName ∈ di)) then throw (EMissing name depName)
  else ret (AVal VUndef).

Fixpoint load_deps (name relName : option jstr) (deps : list jstr) : M (list arg) :=
  match deps with
  | [] => ret []
  | dep :: deps' =>
      a ← load_dep name relName dep;
      l ← load_deps name relName deps';
      ret (a :: l)
  end.

(** [usingExports], and [cjsModule] being set. *)
Definition using_exports (args : list arg) : bool :=
  existsb (fun a => match a with AExports _ => true | _ => false end) args.
Definition uses_module (args : list arg) : bool :=
  existsb (fun a => match a with AModule _ => true | _ => false end) args.

(** The value a module ends up with: [module.exports] if it was replaced, else the
    returned value, unless it is undefined and [exports] was asked for. *)
Definition settle (n : jstr) (cjs exports_used : bool) (r e : val) : M unit :=
  d ← gets defined;
  if cjs && negb (bool_decide (e = VUndef))
     && negb (bool_decide (e = default VUndef (d !! n)))
  then modify (set_defined n e)
  else if negb (bool_decide (r = VUndef)) || negb exports_used
  then modify (set_defined n r)
  else ret tt.

Definition main (name : option jstr) (deps0 : option (list jstr)) (cb : callback)
    (relName0 : option jstr) : M unit :=
  let relName := if truthy relName0 then relName0 else name in
  match cb, deps0 with
  | CFun arity f, None => throw ETypeError     (* [deps.length] of undefined *)
  | CFun arity f, Some deps =>
      let deps := if bool_decide (deps = []) && negb (bool_decide (arity = 0))
                  then [js "require"; js "exports"; js "module"] else deps in
      args ← load_deps name relName deps;
      (match name with Some n => modify (log n) | None => ret tt end) ;;
      re ← run name (f args);
      (match name with
       | Some n =>
           if truthy n
           then settle n (uses_module args) (using_exports args) re.1 re.2
           else ret tt
       | None => ret tt
       end)
  | CVal v, _ =>
      match name with
      | Some n => if truthy n then modify (set_defined n v) else ret tt
      | None => ret tt
      end
  end.

End Rec.

(** [callDep(name)].  Each level takes one definition out of [waiting], so
    [size waiting] levels are enough ([callDep_total]). *)
Fixpoint callDep (fuel : nat) (name : jstr) : M val :=
  fun s =>
    match waiting s !! name with
    | Some d =>
        match fuel with
        | O => None
        | S fuel' =>
            (modify (start name) ;;
             main (callDep fuel') (Some name) (Some (d_deps d)) (d_callback d) None ;;
             dm ← gets defined;
             match dm !! name with Some v => ret v | None => throw (ENo name) end) s
        end
    | None =>
        match defined s !! name with
        | Some v => Some (s, inl v)
        | None => Some (s, inr (ENo name))
        end
    end.

(** A top-level operation runs with a fuel read off the state. *)
Definition enough {A} (m : (jstr -> M val) -> M A) : M A :=
  fun s => m (callDep (size (waiting s))) s.

(** [define(name, deps, callback)]: without an array of dependencies, the second
    argument is the callback. *)
Definition define (name : jstr) (deps : option (list jstr)) (cb : callback) (s : state) : state :=
  State (defined s) (<[name := Def (default [] deps) cb]> (waiting s)) (defining s) (cmap s)
        (timers s) (objects s) (trace s).

(** [require(name, relName)]. *)
Definition req_name (name : jstr) (relName : option jstr) : M val :=
  enough (fun cd => require_sync cd name relName).

(** [require(deps, callback, relName, forceSync)]; no callback is an empty function. *)
Definition noop : callback := CFun 0 (fun _ => Return VUndef VUndef).
Definition req_array (deps : list jstr) (cb : option callback) (relName : option jstr)
    (forceSync : bool) : M unit :=
  let cb := default noop cb in
  if forceSync then enough (fun cd => main cd None (Some deps) cb relName)
  else modify (push_timer (Timer (Some deps) cb relName)).

(** [require(config, ...)]: the second argument is missing, an array of
    dependencies (then the callback comes third), or something else. *)
Inductive second := SMissing | SArray (deps : list jstr) (cb : option callback) | SOther (cb : callback).
Definition req_config (m : option name_map) (arg2 : second) : M unit :=
  modify (set_cmap m) ;;
  match arg2 with
  | SMissing => throw ETypeError            (* [callback.splice] of undefined *)
  | SArray deps cb => req_array deps cb None false
  | SOther cb =>
      (* [deps = undef]: the timeout will run [main] without dependencies *)
      modify (push_timer (Timer None cb None))
  end.

(** [req.config(cfg)]. *)
Definition req_set_config (m : option name_map) : M unit := modify (set_cmap m).

(** The next timeout fires. *)
Definition fire : M unit :=
  fun s => match timers s with
           | [] => Some (s, inl tt)
           | t :: ts =>
               enough (fun cd => main cd None (t_deps t) (t_callback t) (t_rel t))
                 (State (defined s) (waiting s) (defining s) (cmap s) ts (objects s) (trace s))
           end.

End Almond.
End Almond.
