(* ===== verification/AlmondFacts.v ===== *)
(** Facts about Almond: termination, callbacks run at most once, the errors, and
    the agreement of its name resolution with [js/require.js]. *)

From S2P Require Import Prelude ModuleNames ModuleNamesFacts Almond.

Module AlmondNamesFacts.
Import TrimDots AlmondNames.

Lemma Forall_splice {A} (P : A -> Prop) i n (l : list A) :
  Forall P l -> Forall P (splice i n [] l).
Proof. intros H. unfold splice. apply Forall_app; split; [|by apply Forall_drop]. by apply Forall_take. Qed.

Lemma loops_agree fuel : forall i ary,
  Forall (fun p => p <> []) ary -> AlmondNames.loop fuel i ary = TrimDots.loop fuel i ary.
Proof.
  induction fuel as [|fuel IH]; intros i ary Hall; [done|]. simpl.
  destruct (ary !! i) as [part|] eqn:E; [|done].
  rewrite Forall_lookup in Hall. pose proof (Hall _ _ E) as Hp. rewrite <- Forall_lookup in Hall.
  destruct part as [|c part]; [done|]. cbn [truthy truthy_str negb].
  repeat case_decide; try done; apply IH; try done; by apply Forall_splice.
Qed.

Lemma trim_trimDots ary : Forall (fun p => p <> []) ary -> trim ary = trimDots ary.
Proof. intros H. unfold trim, trimDots. by rewrite loops_agree. Qed.

Lemma map_loops_agree m bp parts i :
  m !! js "*" = None ->
  (fun '(v, k) => join [slash] (splice 0 k [v] parts)) <$> AlmondNames.map_loop m bp parts i None
  = Normalize.map_loop m bp parts i.
Proof.
  intros Hs.
  assert (Hstar : forall seg, Normalize.map_entry m (js "*") seg = None).
  { intros seg. unfold Normalize.map_entry. by rewrite Hs. }
  induction i as [|i IH]; [done|].
  unfold AlmondNames.map_loop; fold AlmondNames.map_loop.
  unfold Normalize.map_loop; fold Normalize.map_loop. unfold Normalize.found_map.
  rewrite Hstar. cbn [fmap option_fmap option_map].
  destruct (match bp with Some b => _ | None => None end); [done|apply IH].
Qed.

Definition segments (name : jstr) (base : jstr) : list jstr :=
  but_last (split slash base) ++ split slash name.

(** C4. Within a module Almond and RequireJS resolve dependency names alike:
    for a non-empty base name, the same map config, without packages and without
    a star map, the two [normalize] functions agree on every name when neither
    it nor the directory of the base has an empty segment.  Without a base name
    they differ: RequireJS strips a leading ["./"] and Almond leaves it. *)
Theorem normalize_agrees cfg name base :
  pkgs cfg = ∅ -> base <> [] ->
  (forall m, config_map cfg = Some m -> m !! js "*" = None) ->
  Forall (fun p => p <> []) (segments name base) ->
  AlmondNames.normalize (config_map cfg) name (Some base)
  = Normalize.normalize cfg name (Some base) true.
Proof.
  intros Hp Hb Hstar Hseg. unfold AlmondNames.normalize, Normalize.normalize.
  assert (Hadj : AlmondNames.adjust name (Some base) = Normalize.adjust cfg name (Some base)).
  { unfold AlmondNames.adjust, Normalize.adjust. destruct (truthy base) eqn:Ht; [|by destruct base].
    destruct (first_is dot name); [|done]. rewrite Hp, lookup_empty.
    rewrite trim_trimDots by done. destruct (trimDots _); [done|]. by rewrite lookup_empty. }
  rewrite Hadj. destruct (Normalize.adjust cfg name (Some base)) as [n bp] eqn:E.
  assert (Hbp : present bp = true).
  { unfold Normalize.adjust in E. destruct base as [|c base]; [done|]. cbn in E.
    repeat case_match; by simplify_eq. }
  destruct (config_map cfg) as [m|]; [|done]. rewrite Hbp. cbn [orb andb].
  rewrite <- map_loops_agree by (by apply Hstar).
  by destruct (AlmondNames.map_loop m bp (split slash n) (length (split slash n)) None) as [[v k]|].
Qed.

Definition agree_map : gmap jstr (gmap jstr jstr) := {[js "a" := {[js "a/lib" := js "lib2"]}]}.
Definition agree_config : config :=
  {| baseUrl := js "./"; paths := ∅; pkgs := ∅; shims := ∅; config_map := Some agree_map;
     urlArgs := []; waitSeconds := 7; enforceDefine := false |}.

Lemma normalize_agrees_witness :
  AlmondNames.normalize (Some agree_map) (js "./lib/x") (Some (js "a/b"))
  = Normalize.normalize agree_config (js "./lib/x") (Some (js "a/b")) true.
Proof.
  apply (normalize_agrees agree_config (js "./lib/x") (js "a/b")).
  - reflexivity.
  - discriminate.
  - intros m [= <-]. reflexivity.
  - repeat constructor; discriminate.
Defined.

End AlmondNamesFacts.

Module AlmondFacts.
Import AlmondNames Almond.

Section Facts.
Context {X : Type} `{EqDecision X}.
Context (truthy_of : X -> bool).
Context (normalize_of : val (X := X) -> option (jstr -> (jstr -> jstr) -> jstr)).
Context (load_of : val (X := X) -> option (jstr -> option (val (X := X)))).

Local Abbreviation st := (state (X := X)).
Local Abbreviation callDep := (@Almond.callDep X _ truthy_of normalize_of load_of).
Local Abbreviation main := (@Almond.main X _ truthy_of normalize_of load_of).

(** ** What any run of the loader does to [waiting] and to the trace *)

(** The callbacks [es] were run, in this order: each once, each of a module that
    was waiting and no longer is; nothing was added to [waiting]. *)
Definition ran (s s' : st) (es : list jstr) : Prop :=
  trace s' = trace s ++ es /\ NoDup es /\
  (forall n, n ∈ es -> n ∈ dom (waiting s) /\ n ∉ dom (waiting s')) /\
  waiting s' ⊆ waiting s /\ cmap s' = cmap s.
Definition moves (s s' : st) : Prop := exists es, ran s s' es.

Lemma moves_same s s' :
  trace s' = trace s -> waiting s' = waiting s -> cmap s' = cmap s -> moves s s'.
Proof.
  intros Ht Hw Hc. exists []. unfold ran. rewrite Ht, Hw, Hc, app_nil_r.
  repeat split; [constructor|set_solver..].
Qed.

Lemma ran_app s1 s2 s3 es1 es2 : ran s1 s2 es1 -> ran s2 s3 es2 -> ran s1 s3 (es1 ++ es2).
Proof.
  intros (Ht1 & Hn1 & Hw1 & Hs1 & Hc1) (Ht2 & Hn2 & Hw2 & Hs2 & Hc2).
  pose proof (subseteq_dom _ _ Hs1). pose proof (subseteq_dom _ _ Hs2).
  repeat split; [| | | | |by rewrite Hc2].
  - by rewrite Ht2, Ht1, app_assoc.
  - apply NoDup_app. split; [done|]. split; [|done]. intros n Hin1 Hin2.
    apply Hw1 in Hin1 as [_ Hno]. apply Hw2 in Hin2 as [Hin _]. done.
  - rename select (_ ∈ _ ++ _) into Hin. apply elem_of_app in Hin as [Hin|Hin]; [apply Hw1 in Hin|apply Hw2 in Hin]; set_solver.
  - rename select (_ ∈ _ ++ _) into Hin. apply elem_of_app in Hin as [Hin|Hin]; [apply Hw1 in Hin|apply Hw2 in Hin]; set_solver.
  - by etrans.
Qed.

Lemma moves_trans s1 s2 s3 : moves s1 s2 -> moves s2 s3 -> moves s1 s3.
Proof. intros [es1 H1] [es2 H2]. exists (es1 ++ es2). by eapply ran_app. Qed.

Lemma moves_size s s' : moves s s' -> size (waiting s') <= size (waiting s).
Proof. intros (es & _ & _ & _ & Hs & _). by apply map_subseteq_size. Qed.

(** A computation that only moves so. *)
Definition keeps {A} (m : M (X := X) A) : Prop := forall s s' r, m s = Some (s', r) -> moves s s'.

Lemma keeps_ret {A} (a : A) : keeps (mret a).
Proof. intros s s' r [= <- <-]. by apply moves_same. Qed.
Lemma keeps_throw {A} e : keeps (throw (A := A) e).
Proof. intros s s' r [= <- <-]. by apply moves_same. Qed.
Lemma keeps_gets {A} (f : st -> A) : keeps (gets f).
Proof. intros s s' r [= <- <-]. by apply moves_same. Qed.
Lemma keeps_modify f :
  (forall s, trace (f s) = trace s) -> (forall s, waiting (f s) = waiting s) ->
  (forall s, cmap (f s) = cmap s) -> keeps (modify f).
Proof. intros Ht Hw Hc s s' r [= <- <-]. by apply moves_same. Qed.
Lemma keeps_bind {A B} (m : M A) (f : A -> M B) :
  keeps m -> (forall a, keeps (f a)) -> keeps (m ≫= f).
Proof.
  intros Hm Hf s s' r H1. unfold mbind, M_bind, bind in H1.
  destruct (m s) as [[s1 [a|e]]|] eqn:E; simplify_eq.
  - eapply moves_trans; [by eapply Hm|by eapply Hf].
  - by eapply Hm.
Qed.
Lemma keeps_try {A} (m : M A) : keeps m -> keeps (try m).
Proof.
  intros Hm s s' r H1. unfold try in H1.
  destruct (m s) as [[s1 r1]|] eqn:E; simplify_eq. by eapply Hm.
Qed.

Create HintDb keepsdb.
Hint Resolve keeps_ret keeps_throw keeps_gets keeps_try : keepsdb.
Ltac keeps_step :=
  lazymatch goal with
  | |- keeps (_ ≫= _) => apply keeps_bind; [|intros ?]
  | |- keeps (modify _) => by apply keeps_modify
  | |- keeps (match ?x with _ => _ end) => destruct x
  | |- keeps _ => solve [eauto with keepsdb]
  end.

Section Rec.
Context (cd : jstr -> M (X := X) (val (X := X))).
Hypothesis cd_keeps : forall n, keeps (cd n).
Hint Resolve cd_keeps : keepsdb.

Lemma makeMap_keeps n rel : keeps (makeMap truthy_of normalize_of cd n rel).
Proof. unfold makeMap. repeat keeps_step. Qed.
Hint Resolve makeMap_keeps : keepsdb.

Lemma require_sync_keeps n rel : keeps (require_sync truthy_of normalize_of cd n rel).
Proof. unfold require_sync. repeat keeps_step. Qed.
Hint Resolve require_sync_keeps : keepsdb.

Lemma run_keeps n p : keeps (run truthy_of normalize_of cd n p).
Proof.
  induction p as [r e|e|x k IH|deps ar f IHf k IHk]; simpl; repeat keeps_step; auto.
Qed.
Hint Resolve run_keeps : keepsdb.

Lemma load_dep_keeps n rel dep : keeps (load_dep truthy_of normalize_of load_of cd n rel dep).
Proof. unfold load_dep. repeat keeps_step. Qed.
Hint Resolve load_dep_keeps : keepsdb.

Lemma load_deps_keeps n rel deps : keeps (load_deps truthy_of normalize_of load_of cd n rel deps).
Proof. induction deps; simpl; repeat keeps_step. Qed.

Hint Resolve load_deps_keeps : keepsdb.

Lemma settle_keeps n cjs ex r e : keeps (settle n cjs ex r e).
Proof. unfold settle. repeat keeps_step. Qed.

Lemma bind_inv {A B} (m : M (X := X) A) (f : A -> M B) s s' r :
  (m ≫= f) s = Some (s', r) ->
  (exists e, m s = Some (s', inr e) /\ r = inr e) \/
  (exists a s1, m s = Some (s1, inl a) /\ f a s1 = Some (s', r)).
Proof.
  unfold mbind, M_bind, bind. destruct (m s) as [[s1 [a|e]]|]; intros; simplify_eq; eauto 6.
Qed.

Hint Resolve settle_keeps : keepsdb.

(** [ran], with the module [n], already taken out of [waiting], possibly run. *)
Definition ran_with (n : jstr) (s s' : st) (es : list jstr) : Prop :=
  trace s' = trace s ++ es /\ NoDup es /\
  (forall m, m ∈ es -> (m = n \/ m ∈ dom (waiting s)) /\ m ∉ dom (waiting s')) /\
  waiting s' ⊆ waiting s /\ cmap s' = cmap s.

Lemma ran_ran_with n s s' es : ran s s' es -> ran_with n s s' es.
Proof. intros (? & ? & H & ? & ?). repeat split; try done; naive_solver. Qed.

Lemma ran_log n s1 s2 s3 es1 es2 :
  n ∉ dom (waiting s1) -> ran s1 s2 es1 -> ran (log n s2) s3 es2 ->
  ran_with n s1 s3 (es1 ++ n :: es2).
Proof.
  intros Hn H1 H2.
  destruct H1 as (Ht1 & Hn1 & Hw1 & Hs1 & Hc1), H2 as (Ht2 & Hn2 & Hw2 & Hs2 & Hc2). simpl in *.
  pose proof (subseteq_dom _ _ Hs1). pose proof (subseteq_dom _ _ Hs2).
  assert (Hall : forall m, m ∈ es1 ++ n :: es2 ->
            (m = n \/ m ∈ dom (waiting s1)) /\ m ∉ dom (waiting s3)).
  { intros m Hm. rewrite elem_of_app, elem_of_cons in Hm.
    destruct Hm as [Hm|[->|Hm]]; [apply Hw1 in Hm|split; [by left|]|apply Hw2 in Hm]; set_solver. }
  repeat split; [| |by apply Hall|by apply Hall|by etrans|by rewrite Hc2].
  - by rewrite Ht2, Ht1, <- !app_assoc.
  - apply NoDup_app. split; [done|]. split.
    + intros m Hm1 Hm2. apply elem_of_cons in Hm2. apply Hw1 in Hm1 as [Hin Hno].
      destruct Hm2 as [->|Hm2]; [done|]. by apply Hw2 in Hm2 as [? _].
    + constructor; [|done]. intros Hm. apply Hw2 in Hm as [Hm _]. set_solver.
Qed.

Lemma main_keeps deps cb rel : keeps (main cd None deps cb rel).
Proof.
  unfold Almond.main. destruct cb as [ar f|v], deps as [deps|]; repeat keeps_step.
Qed.

Lemma main_ran n deps cb rel s s' r :
  main cd (Some n) deps cb rel s = Some (s', r) ->
  n ∉ dom (waiting s) -> exists es, ran_with n s s' es.
Proof.
  intros Hm Hn. unfold Almond.main in Hm. destruct cb as [ar f|v].
  - destruct deps as [deps|]; 
      [|apply keeps_throw in Hm as [es Hm]; exists es; by apply ran_ran_with].
    apply bind_inv in Hm as [(e & Hm & ->)|(args & s1 & Hm & Hm2)].
    + apply load_deps_keeps in Hm as [es Hm]. exists es. by apply ran_ran_with.
    + apply load_deps_keeps in Hm as [es1 H1].
      apply bind_inv in Hm2 as [(e & Hm2 & ->)|(u & s2 & Hm2 & Hm3)]; [done|].
      injection Hm2 as <- _.
      assert (H2 : moves (log n s1) s').
      { revert Hm3. match goal with |- ?m (log n s1) = _ -> _ => enough (Hk : keeps m) by apply Hk end.
        repeat keeps_step. }
      destruct H2 as [es2 H2]. exists (es1 ++ n :: es2). by eapply ran_log.
  - assert (H2 : moves s s').
    { revert Hm. match goal with |- ?m s = _ -> _ => enough (Hk : keeps m) by apply Hk end.
      repeat keeps_step. }
    destruct H2 as [es2 H2]. exists es2. by apply ran_ran_with.
Qed.

End Rec.

Lemma start_ran n s s' es :
  n ∈ dom (waiting s) -> ran_with n (start n s) s' es -> ran s s' es.
Proof.
  intros Hn (Ht & Hnd & Hw & Hs & Hc). simpl in *. repeat split; try done.
  - destruct (Hw _ H) as [[->|Hin] _]; [done|]. rewrite dom_delete in Hin. set_solver.
  - by apply Hw.
  - etrans; [done|]. apply delete_subseteq.
Qed.

Lemma callDep_keeps fuel : forall n, keeps (callDep fuel n).
Proof.
  induction fuel as [|fuel IH]; intros n s s' r; simpl.
  - destruct (waiting s !! n); [done|].
    destruct (defined s !! n); intros; simplify_eq; by apply moves_same.
  - destruct (waiting s !! n) as [d|] eqn:E.
    + intros Hm. apply bind_inv in Hm as [(e & ? & ->)|(u & s1 & H1 & Hm)]; [done|].
      injection H1 as <- _.
      assert (Hn : n ∈ dom (waiting s)) by (apply elem_of_dom; eauto).
      assert (Hd : n ∉ dom (waiting (start n s))) by (simpl; set_solver).
      apply bind_inv in Hm as [(e & Hm & ->)|(u' & s2 & Hm & Hm2)].
      * apply main_ran in Hm as [es Hm]; [|done..]. exists es. by eapply start_ran.
      * apply main_ran in Hm as [es Hm]; [|done..].
        eapply moves_trans; [exists es; by eapply start_ran|].
        revert Hm2. match goal with |- ?m s2 = _ -> _ => enough (Hk : keeps m) by apply Hk end.
        repeat keeps_step.
    + destruct (defined s !! n); intros; simplify_eq; by apply moves_same.
Qed.

(** ** Termination *)

(** [m] does not run out of fuel while at most [k] modules are waiting. *)
Definition total {A} (k : nat) (m : M (X := X) A) : Prop :=
  forall s, size (waiting s) <= k -> is_Some (m s).

(** [m] adds no waiting module. *)
Definition shrinks {A} (m : M (X := X) A) : Prop :=
  forall s s' r, m s = Some (s', r) -> size (waiting s') <= size (waiting s).
Lemma keeps_shrinks {A} (m : M (X := X) A) : keeps m -> shrinks m.
Proof. intros Hm s s' r E. by eapply moves_size, Hm. Qed.
Lemma shrinks_log (name : option jstr) :
  shrinks (match name with Some n => modify (log n) | None => ret tt end).
Proof. by destruct name; intros s s' r [= <- _]. Qed.

Lemma total_some {A} k (m : M (X := X) A) : (forall s, is_Some (m s)) -> total k m.
Proof. by intros H s _. Qed.
Lemma total_bind {A B} k (m : M (X := X) A) (f : A -> M B) :
  total k m -> shrinks m -> (forall a, total k (f a)) -> total k (m ≫= f).
Proof.
  intros Hm Hk Hf s Hs. destruct (Hm s Hs) as [[s1 [a|e]] E];
    unfold mbind, M_bind, bind; rewrite E; [|eauto].
  apply Hf. apply Hk in E. lia.
Qed.
Lemma total_try {A} k (m : M (X := X) A) : total k m -> total k (try m).
Proof. intros Hm s Hs. unfold try. destruct (Hm s Hs) as [[s1 r] ->]. eauto. Qed.

Ltac total_step :=
  lazymatch goal with
  | |- total _ (_ ≫= _) =>
      apply total_bind;
      [| solve [apply shrinks_log | apply keeps_shrinks; repeat keeps_step] | intros ?]
  | |- total _ (match ?x with _ => _ end) => destruct x
  | |- total _ (modify _) => apply total_some; intros ?; unfold modify; eauto
  | |- total _ (gets _) => apply total_some; intros ?; unfold gets; eauto
  | |- total _ (mret _) => apply total_some; intros ?; unfold mret, M_ret, ret; eauto
  | |- total _ (ret _) => apply total_some; intros ?; unfold ret; eauto
  | |- total _ (throw _) => apply total_some; intros ?; unfold throw; eauto
  | |- total _ (try _) => apply total_try
  | |- total _ _ => solve [auto]
  end.

Section RecTotal.
Context (k : nat) (cd : jstr -> M (X := X) (val (X := X))).
Hypothesis cd_keeps : forall n, keeps (cd n).
Hypothesis cd_total : forall n, total k (cd n).
Hint Resolve cd_keeps makeMap_keeps require_sync_keeps run_keeps load_dep_keeps
  load_deps_keeps settle_keeps : keepsdb.

Lemma makeMap_total n rel : total k (makeMap truthy_of normalize_of cd n rel).
Proof. unfold makeMap. repeat total_step. Qed.
Hint Resolve makeMap_total : core.

Lemma require_sync_total n rel : total k (require_sync truthy_of normalize_of cd n rel).
Proof. unfold require_sync. repeat total_step. Qed.
Hint Resolve require_sync_total : core.

Lemma run_total n p : total k (run truthy_of normalize_of cd n p).
Proof. induction p as [r e|e|x c IH|deps ar f IHf c IHc]; simpl; repeat total_step. Qed.
Hint Resolve run_total : core.

Lemma load_dep_total n rel dep : total k (load_dep truthy_of normalize_of load_of cd n rel dep).
Proof. unfold load_dep. repeat total_step. Qed.
Hint Resolve load_dep_total : core.

Lemma load_deps_total n rel deps : total k (load_deps truthy_of normalize_of load_of cd n rel deps).
Proof. induction deps; simpl; repeat total_step. Qed.
Hint Resolve load_deps_total : core.

Lemma settle_total n cjs ex r e : total k (settle n cjs ex r e).
Proof. unfold settle. repeat total_step. Qed.
Hint Resolve settle_total : core.

Lemma main_total n deps cb rel : total k (main cd n deps cb rel).
Proof. unfold Almond.main. repeat total_step. Qed.

End RecTotal.

Lemma callDep_enough fuel : forall n, total fuel (callDep fuel n).
Proof.
  induction fuel as [|fuel IH]; intros n s Hs; simpl.
  - destruct (waiting s !! n) as [d|] eqn:E; [|destruct (defined s !! n); eauto].
    apply Nat.le_0_r, map_size_empty_inv in Hs. rewrite Hs in E. by rewrite lookup_empty in E.
  - destruct (waiting s !! n) as [d|] eqn:E; [|destruct (defined s !! n); eauto].
    assert (Hd : size (waiting (start n s)) <= fuel).
    { simpl. rewrite map_size_delete_Some by eauto. lia. }
    assert (Hm := main_total fuel (callDep fuel) (callDep_keeps fuel) IH (Some n)
                    (Some (d_deps d)) (d_callback d) None _ Hd).
    destruct Hm as [[s1 [u|e]] Hm]; unfold mbind, M_bind, bind at 1; simpl; unfold bind at 1;
      rewrite Hm; [|eauto].
    unfold gets, bind. destruct (defined s1 !! n); unfold mret, M_ret, ret, throw; eauto.
Qed.

(** [m2] does at least what [m1] does, without running out of fuel where [m1] does not. *)
Definition below {A} (m1 m2 : M (X := X) A) : Prop := forall s r, m1 s = Some r -> m2 s = Some r.
Lemma below_refl {A} (m : M (X := X) A) : below m m.
Proof. by intros s r. Qed.
Lemma below_bind {A B} (m1 m2 : M (X := X) A) (f1 f2 : A -> M B) :
  below m1 m2 -> (forall a, below (f1 a) (f2 a)) -> below (m1 ≫= f1) (m2 ≫= f2).
Proof.
  intros Hm Hf s r. unfold mbind, M_bind, bind.
  destruct (m1 s) as [[s1 [a|e]]|] eqn:E; [| |done]; rewrite (Hm _ _ E); [apply Hf|done].
Qed.
Lemma below_try {A} (m1 m2 : M (X := X) A) : below m1 m2 -> below (try m1) (try m2).
Proof.
  intros Hm s r. unfold try. destruct (m1 s) as [[s1 r1]|] eqn:E; [|done].
  by rewrite (Hm _ _ E).
Qed.

Ltac below_step :=
  lazymatch goal with
  | |- below (_ ≫= _) _ => apply below_bind; [|intros ?]
  | |- below (try _) _ => apply below_try
  | |- below (match ?x with _ => _ end) _ => destruct x
  | |- below _ _ => solve [apply below_refl | auto]
  end.

Section RecBelow.
Context (cd1 cd2 : jstr -> M (X := X) (val (X := X))).
Hypothesis cd_below : forall n, below (cd1 n) (cd2 n).

Lemma makeMap_below n rel :
  below (makeMap truthy_of normalize_of cd1 n rel) (makeMap truthy_of normalize_of cd2 n rel).
Proof. unfold makeMap. repeat below_step. Qed.
Hint Resolve makeMap_below : core.

Lemma require_sync_below n rel :
  below (require_sync truthy_of normalize_of cd1 n rel) (require_sync truthy_of normalize_of cd2 n rel).
Proof. unfold require_sync. repeat below_step. Qed.
Hint Resolve require_sync_below : core.

Lemma run_below n p : below (run truthy_of normalize_of cd1 n p) (run truthy_of normalize_of cd2 n p).
Proof. induction p as [r e|e|x c IH|deps ar f IHf c IHc]; simpl; repeat below_step. Qed.
Hint Resolve run_below : core.

Lemma load_deps_below n rel deps :
  below (load_deps truthy_of normalize_of load_of cd1 n rel deps)
        (load_deps truthy_of normalize_of load_of cd2 n rel deps).
Proof. induction deps; simpl; repeat below_step. unfold load_dep. repeat below_step. Qed.
Hint Resolve load_deps_below : core.

Lemma main_below n deps cb rel : below (main cd1 n deps cb rel) (main cd2 n deps cb rel).
Proof. unfold Almond.main. repeat below_step. Qed.
End RecBelow.

Lemma callDep_below fuel : forall n, below (callDep fuel n) (callDep (S fuel) n).
Proof.
  induction fuel as [|fuel IH]; intros n s r; simpl.
  - by destruct (waiting s !! n).
  - destruct (waiting s !! n) as [d|]; [|done]. revert s r. 
    match goal with |- forall s r, ?m1 s = _ -> ?m2 s = _ => enough (H : below m1 m2) by exact H end.
    repeat below_step. by apply main_below.
Qed.

Lemma callDep_more fuel k n : below (callDep fuel n) (callDep (fuel + k) n).
Proof.
  induction k as [|k IH]; [rewrite Nat.add_0_r; apply below_refl|].
  rewrite Nat.add_succ_r. intros s r Hr. by apply callDep_below, IH.
Qed.

(** [callDep] always comes back, with a value or an exception, whatever the
    modules and their callbacks: a depth of [size waiting] is enough, even through
    dependency cycles and nested requires, and more depth changes nothing. *)
Theorem callDep_terminates name s fuel :
  size (waiting s) <= fuel ->
  exists s' r, callDep fuel name s = Some (s', r) /\
               callDep (size (waiting s)) name s = Some (s', r).
Proof.
  intros Hf. destruct (callDep_enough _ name s (le_n _)) as [[s' r] E].
  exists s', r. split; [|done]. replace fuel with (size (waiting s) + (fuel - size (waiting s))) by lia.
  by apply callDep_more.
Qed.

(** What a successful [callDep] leaves: the value it returns is the one stored
    for the module, the module is no longer waiting, and the callbacks it ran are
    those of modules that were waiting, each once. *)
Theorem callDep_value fuel name s s' v :
  callDep fuel name s = Some (s', inl v) ->
  defined s' !! name = Some v /\ waiting s' !! name = None /\
  exists es, trace s' = trace s ++ es /\ NoDup es /\
    forall n, n ∈ es -> n ∈ dom (waiting s) /\ n ∉ dom (waiting s').
Proof.
  intros Hc. pose proof Hc as Hk. apply callDep_keeps in Hk as (es & Ht & Hn & Hw & Hs & _).
  assert (Hlast : exists es', trace s' = trace s ++ es' /\ NoDup es' /\
    forall n, n ∈ es' -> n ∈ dom (waiting s) /\ n ∉ dom (waiting s')) by (by exists es).
  destruct fuel as [|fuel]; simpl in Hc.
  - destruct (waiting s !! name) eqn:E; [done|]. destruct (defined s !! name) eqn:Ed; by simplify_eq.
  - destruct (waiting s !! name) as [d|] eqn:E.
    + apply bind_inv in Hc as [(e & ? & ?)|(u & s1 & H1 & Hc)]; [done|]. injection H1 as <- _.
      apply bind_inv in Hc as [(e & ? & ?)|(u' & s2 & Hm & Hc)]; [done|].
      apply main_ran in Hm as (es2 & _ & _ & _ & Hs2 & _);
        [|apply callDep_keeps|simpl; rewrite dom_delete_L; set_solver].
      apply bind_inv in Hc as [(e & ? & ?)|(dm & s3 & Hd & Hc)]; [done|]. injection Hd as <- <-.
      destruct (defined s2 !! name) as [w|] eqn:Ed; [|done]. injection Hc as <- <-.
      split; [done|]. split; [|done].
      destruct (waiting s2 !! name) eqn:Ew; [|done].
      pose proof (lookup_weaken _ _ _ _ Ew Hs2) as Hd. simpl in Hd.
      by rewrite lookup_delete_eq in Hd.
    + destruct (defined s !! name) eqn:Ed; by simplify_eq.
Qed.

Local Abbreviation req_name := (@Almond.req_name X _ truthy_of normalize_of load_of).
Local Abbreviation req_array := (@Almond.req_array X _ truthy_of normalize_of load_of).
Local Abbreviation req_config := (@Almond.req_config X _ truthy_of normalize_of load_of).
Local Abbreviation fire := (@Almond.fire X _ truthy_of normalize_of load_of).

(** What a page does with the loader: any sequence of definitions, of synchronous
    and asynchronous requires, of configurations and of timeouts.  A module is not
    defined again once its callback has run. *)
Inductive step : st -> st -> Prop :=
  | step_define n deps cb s : n ∉ trace s -> step s (define n deps cb s)
  | step_req_name n rel s s' r : req_name n rel s = Some (s', r) -> step s s'
  | step_req_array deps cb rel sync s s' r :
      req_array deps cb rel sync s = Some (s', r) -> step s s'
  | step_req_config m arg2 s s' r : req_config m arg2 s = Some (s', r) -> step s s'
  | step_set_config m s s' r : req_set_config m s = Some (s', r) -> step s s'
  | step_fire s s' r : fire s = Some (s', r) -> step s s'.

Definition once (s : st) : Prop := NoDup (trace s) /\ forall n, n ∈ trace s -> n ∉ dom (waiting s).

Lemma once_ran s s' es : once s -> ran s s' es -> once s'.
Proof.
  intros [Hn Hw] (Ht & Hes & Hr & Hs & _). pose proof (subseteq_dom _ _ Hs). split; rewrite Ht.
  - apply NoDup_app. split; [done|]. split; [|done]. intros n H1 H2. apply Hr in H2 as [? _].
    by apply Hw in H1.
  - intros n Hin. apply elem_of_app in Hin as [Hin|Hin].
    + apply Hw in Hin. set_solver.
    + by apply Hr in Hin as [_ ?].
Qed.

Lemma once_keeps {A} (m : M (X := X) A) s s' r : keeps m -> m s = Some (s', r) -> once s -> once s'.
Proof. intros Hm E Hs. apply Hm in E as [es E]. by eapply once_ran. Qed.

Lemma req_array_keeps deps cb rel sync : keeps (req_array deps cb rel sync).
Proof.
  unfold Almond.req_array. destruct sync; [|by apply keeps_modify].
  intros s s' r. unfold enough. apply main_keeps, callDep_keeps.
Qed.

Lemma once_modify_cmap m (s : st) : once s -> once (set_cmap m s).
Proof. done. Qed.

(** C3. Module callbacks run at most once: in every state the page can reach, no
    callback was run twice, and a module whose callback has run is not waiting to
    run again. *)
Theorem callbacks_run_once s : rtc step init s -> once s.
Proof.
  assert (Hpres : forall s1 s2, step s1 s2 -> once s1 -> once s2).
  { intros s1 s2 Hst Ho. destruct Hst as [n deps cb s1 Hn|n rel s1 s2 r E|deps cb rel sy s1 s2 r E
      |m arg2 s1 s2 r E|m s1 s2 r E|s1 s2 r E].
    - destruct Ho as [Hd Hw]. split; [done|]. simpl. intros n' Hn'.
      rewrite dom_insert_L. specialize (Hw n' Hn'). set_solver.
    - unfold Almond.req_name, enough in E.
      eapply once_keeps in E; [done| |done]. apply require_sync_keeps, callDep_keeps.
    - eapply once_keeps in E; [done| |done]. apply req_array_keeps.
    - unfold Almond.req_config in E.
      apply bind_inv in E as [(e & ? & ?)|(u & s3 & E1 & E)]; [done|]. injection E1 as <- _.
      assert (Ho' : once (set_cmap m s1)) by done. destruct arg2.
      + by injection E as <- _.
      + eapply once_keeps in E; [done| |done]. apply req_array_keeps.
      + eapply once_keeps in E; [done| |done]. by apply keeps_modify.
    - by injection E as <- _.
    - unfold Almond.fire in E. destruct (timers s1) as [|t ts]; [by injection E as <- _|].
      unfold enough in E. eapply once_keeps in E; [done| |done]. apply main_keeps, callDep_keeps. }
  intros Hr. assert (Hi : once init) by (split; [constructor|set_solver]).
  induction Hr as [|s1 s2 s3 Hst Hr IH]; [done|]. eauto.
Qed.

Lemma require_sync_plain cd n rel (s : st) :
  bang ∉ n -> require_sync truthy_of normalize_of cd n rel s = cd (normalize (cmap s) n rel) s.
Proof.
  intros Hb. apply index_of_None in Hb. unfold require_sync, makeMap.
  unfold mbind, M_bind, bind at 1. simpl. unfold gets, bind. by rewrite Hb.
Qed.

(** Requiring a module again gives the value it gave the first time, and runs
    nothing: the state does not change. *)
Theorem require_again name rel s s' v :
  bang ∉ name -> req_name name rel s = Some (s', inl v) ->
  req_name name rel s' = Some (s', inl v).
Proof.
  unfold Almond.req_name, enough. intros Hb. rewrite !require_sync_plain by done. intros Hc.
  pose proof Hc as Hk. apply callDep_keeps in Hk as (_ & _ & _ & _ & _ & Hcm).
  apply callDep_value in Hc as (Hd & Hw & _). rewrite Hcm.
  destruct (size (waiting s')); simpl; by rewrite Hw, Hd.
Qed.

(** The argument a dependency without plugin becomes, case by case: the
    CommonJS names, a module that has to be run first, a module already there, a
    module being defined (a cycle: undefined), and the error for an unknown one. *)
Theorem load_dep_cases cd name rel dep (s : st) :
  bang ∉ dep ->
  let d := normalize (cmap s) dep rel in
  load_dep truthy_of normalize_of load_of cd name rel dep s =
    if decide (d = js "require") then Some (s, inl (ARequire name))
    else if decide (d = js "exports") then
      Some (set_defined (key name) (VObj (objects s)) (new_object s),
            inl (AExports (VObj (objects s))))
    else if decide (d = js "module") then
      Some (s, inl (AModule (default VUndef (defined s !! key name))))
    else if present (defined s !! d) || present (waiting s !! d) then
      match cd d s with
      | Some (s', inl v) => Some (s', inl (AVal v))
      | Some (s', inr e) => Some (s', inr e)
      | None => None
      end
    else if bool_decide (d ∈ defining s) then Some (s, inl (AVal VUndef))
    else Some (s, inr (EMissing name d)).
Proof.
  intros Hb. cbv zeta. apply index_of_None in Hb. unfold load_dep, makeMap.
  unfold mbind, M_bind, bind at 1. unfold bind at 1, gets at 1. rewrite Hb. cbn [ret m_f m_n m_p].
  unfold bind, gets. generalize (normalize (cmap s) dep rel). intros d.
  destruct (decide (d = js "require")); [done|]. destruct (decide (d = js "exports")); [done|].
  destruct (decide (d = js "module")); [done|].
  destruct (present (defined s !! d) || present (waiting s !! d)).
  - by destruct (cd d s) as [[s' [v|e]]|].
  - simpl. by destruct (bool_decide (d ∈ defining s)).
Qed.

(** Which value a module is given when its callback returns: a replaced
    [module.exports] first, then a returned value that is not undefined; an
    undefined return only counts when [exports] was not asked for. *)
Theorem settle_precedence n cjs exports_used r e (s : st) :
  exists s', settle n cjs exports_used r e s = Some (s', inl tt) /\
  default VUndef (defined s' !! n) =
    (let old := default VUndef (defined s !! n) in
     if cjs && negb (bool_decide (e = VUndef)) && negb (bool_decide (e = old)) then e
     else if negb (bool_decide (r = VUndef)) then r
     else if exports_used then old else VUndef) /\
  (forall n', n' <> n -> defined s' !! n' = defined s !! n').
Proof.
  assert (Hset : forall v, exists s', modify (set_defined n v) s = Some (s', inl tt) /\
            default VUndef (defined s' !! n) = v /\
            forall n', n' <> n -> defined s' !! n' = defined s !! n').
  { intros v. eexists. split; [reflexivity|]. cbn [set_defined defined].
    rewrite lookup_insert_eq. split; [done|]. intros n' Hn. by rewrite lookup_insert_ne. }
  unfold settle, mbind, M_bind, bind, gets. cbv zeta.
  destruct (cjs && negb (bool_decide (e = VUndef)) &&
            negb (bool_decide (e = default VUndef (defined s !! n)))); [apply Hset|].
  destruct (bool_decide (r = VUndef)) eqn:Er; cbn [negb orb]; [|apply Hset].
  apply bool_decide_eq_true in Er as ->. destruct exports_used; [|apply Hset].
  by exists s.
Qed.

(** [require(config)] with nothing after the configuration object throws: the
    code asks [callback.splice] of a missing callback.  The configuration itself is
    taken.  With a callback but no array, the error comes when the timeout fires. *)
Theorem require_config_throws m (s : st) :
  req_config m SMissing s = Some (set_cmap m s, inr ETypeError) /\
  forall arity f, timers s = [] ->
    match req_config m (SOther (CFun arity f)) s with
    | Some (s', inl _) => exists s'', fire s' = Some (s'', inr ETypeError)
    | _ => False
    end.
Proof.
  split; [done|]. intros arity f Ht. simpl. unfold Almond.fire. simpl. rewrite Ht. simpl.
  eexists. done.
Qed.

End Facts.
(** ** A concrete page: [a] depends on [b], [b] on [a] through [exports] *)

Section Example.
Definition no_normalize (v : val (X := nat)) : option (jstr -> (jstr -> jstr) -> jstr) := None.
Definition no_load (v : val (X := nat)) : option (jstr -> option (val (X := nat))) := None.
Definition all_truthy (x : nat) : bool := true.

Definition page : state (X := nat) :=
  define (js "b") (Some [js "./a"; js "exports"])
    (CFun 2 (fun args => Return VUndef VUndef))
    (define (js "a") (Some [js "b"]) (CFun 1 (fun args => Return (VUser 7) VUndef)) init).

Definition run_a := Almond.req_name all_truthy no_normalize no_load (js "a") None page.

(** [a] gets its value after [b] was run; [b] kept its [exports] object. *)
Example run_a_result :
  match run_a with
  | Some (s, inl v) => v = VUser 7 /\ trace s = [js "b"; js "a"] /\
                       defined s !! js "b" = Some (VObj 0)
  | _ => False
  end.
Proof. vm_compute. auto. Qed.

Lemma callDep_terminates_witness :
  exists s' r, Almond.callDep all_truthy no_normalize no_load 5 (js "a") page = Some (s', r) /\
    Almond.callDep all_truthy no_normalize no_load (size (waiting page)) (js "a") page = Some (s', r).
Proof. apply (callDep_terminates all_truthy no_normalize no_load (js "a") page 5). vm_compute. lia. Defined.

Lemma callDep_value_witness :
  exists s', Almond.callDep all_truthy no_normalize no_load 2 (js "a") page = Some (s', inl (VUser 7))
    /\ defined s' !! js "a" = Some (VUser 7).
Proof.
  eexists. split; [vm_compute; reflexivity|].
  eapply (callDep_value all_truthy no_normalize no_load 2 (js "a") page).
  vm_compute. reflexivity.
Defined.

Lemma callbacks_run_once_witness :
  exists s', rtc (step all_truthy no_normalize no_load) init s' /\ once s' /\
             trace s' = [js "b"; js "a"].
Proof.
  destruct run_a as [[s' r]|] eqn:E; [|exfalso; vm_compute in E; discriminate].
  exists s'.
  assert (Hr : rtc (step all_truthy no_normalize no_load) init s').
  { eapply rtc_l; [apply (step_define _ _ _ (js "a")); apply not_elem_of_nil|].
    eapply rtc_l; [apply (step_define _ _ _ (js "b")); apply not_elem_of_nil|].
    eapply rtc_l; [eapply step_req_name, E|apply rtc_refl]. }
  split; [exact Hr|]. split; [exact (callbacks_run_once _ _ _ s' Hr)|].
  vm_compute in E. injection E as <- _. reflexivity.
Defined.

Lemma require_again_witness :
  exists s', Almond.req_name all_truthy no_normalize no_load (js "a") None page = Some (s', inl (VUser 7))
    /\ Almond.req_name all_truthy no_normalize no_load (js "a") None s' = Some (s', inl (VUser 7)).
Proof.
  eexists. split; [vm_compute; reflexivity|].
  eapply (require_again all_truthy no_normalize no_load (js "a") None page).
  - apply (bool_decide_unpack _). vm_compute. exact I.
  - vm_compute. reflexivity.
Defined.

Lemma load_dep_cases_witness :
  load_dep all_truthy no_normalize no_load (fun _ => throw ETypeError) (Some (js "a")) (Some (js "a"))
    (js "./zzz") page = Some (page, inr (EMissing (Some (js "a")) (js "zzz"))).
Proof.
  rewrite (load_dep_cases all_truthy no_normalize no_load (fun _ => throw ETypeError)
             (Some (js "a")) (Some (js "a")) (js "./zzz") page).
  - vm_compute. reflexivity.
  - apply (bool_decide_unpack _). vm_compute. exact I.
Defined.

Lemma require_config_throws_witness :
  match Almond.req_config all_truthy no_normalize no_load None
          (SOther (CFun 0 (fun _ => Return VUndef VUndef))) page with
  | Some (s', inl _) =>
      exists s'', Almond.fire all_truthy no_normalize no_load s' = Some (s'', inr ETypeError)
  | _ => False
  end.
Proof.
  exact (proj2 (require_config_throws all_truthy no_normalize no_load None page) 0
           (fun _ => Return VUndef VUndef) eq_refl).
Defined.
End Example.

End AlmondFacts.
