(* ===== verification/Json2.v ===== *)
(** JSON: [js/json2.js], the [JSON.stringify] and [JSON.parse] of old browsers.

    Strings are sequences of code units, numbers are NaN, the infinities or
    integers (whose decimal text is below 10^21, where [String] switches to
    exponents).  User code ([toJSON] methods, replacers, revivers) and [eval] are
    parameters. *)

From S2P Require Import Prelude.

(** * Values *)

Inductive num := NaN | Infinite (neg : bool) | Int (z : Z).

Inductive jval :=
  | JUndef | JNull | JBool (b : bool) | JNum (n : num) | JStr (s : jstr) | JFun
  | JArr (elems : list jval)
  | JObj (props : list (jstr * jval)).

(** A property key as user code sees it: a name, or the index of an array element. *)
Inductive pkey := KName (s : jstr) | KIndex (i : nat).

Module Quote.

Definition in_range (a b c : N) : bool := bool_decide (a <= c <= b)%N.

(** [escapable]: the class of code units that need an escape. *)
Definition escapable (c : N) : bool :=
  bool_decide (c = backslash) || bool_decide (c = dquote)
  || in_range 0 31 c || in_range 127 159 c || bool_decide (c = 173%N)
  || in_range 1536 1540 c || bool_decide (c = 1807%N) || in_range 6068 6069 c
  || in_range 8204 8207 c || in_range 8232 8239 c || in_range 8288 8303 c
  || bool_decide (c = 65279%N) || in_range 65520 65535 c.

(** [meta]: the short escapes. *)
Definition meta (c : N) : option jstr :=
  if decide (c = 8%N) then Some (js "\b")
  else if decide (c = 9%N) then Some (js "\t")
  else if decide (c = 10%N) then Some (js "\n")
  else if decide (c = 12%N) then Some (js "\f")
  else if decide (c = 13%N) then Some (js "\r")
  else if decide (c = dquote) then Some [backslash; dquote]
  else if decide (c = backslash) then Some [backslash; backslash]
  else None.

(** The digit of [toString(16)]. *)
Definition hex_digit (d : N) : N := if decide (d < 10)%N then (48 + d)%N else (87 + d)%N.

(** [('0000' + c.toString(16)).slice(-4)]. *)
Definition hex4 (c : N) : jstr :=
  [hex_digit (c / 4096 mod 16); hex_digit (c / 256 mod 16);
   hex_digit (c / 16 mod 16); hex_digit (c mod 16)]%N.

Definition u_escape (c : N) : jstr := backslash :: 117%N :: hex4 c.

(** The replacement of one code unit. *)
Definition escape (c : N) : jstr :=
  if escapable c then match meta c with Some e => e | None => u_escape c end else [c].

Definition quote (s : jstr) : jstr :=
  if existsb escapable s then dquote :: concat (map escape s) ++ [dquote]
  else dquote :: s ++ [dquote].

(** The reader of JSON string literals, from the grammar of ECMA-404. *)
Definition hex_value (c : N) : option N :=
  if in_range 48 57 c then Some (c - 48)%N
  else if in_range 97 102 c then Some (c - 87)%N
  else if in_range 65 70 c then Some (c - 55)%N
  else None.

Definition hex4_value (a b c d : N) : option N :=
  match hex_value a, hex_value b, hex_value c, hex_value d with
  | Some a, Some b, Some c, Some d => Some (a * 4096 + b * 256 + c * 16 + d)%N
  | _, _, _, _ => None
  end.

Definition short_value (c : N) : option N :=
  if decide (c = 98%N) then Some 8%N
  else if decide (c = 116%N) then Some 9%N
  else if decide (c = 110%N) then Some 10%N
  else if decide (c = 102%N) then Some 12%N
  else if decide (c = 114%N) then Some 13%N
  else if decide (c = dquote \/ c = backslash \/ c = slash) then Some c
  else None.

(** The characters up to the closing quote, which must end the text. *)
Fixpoint unquote_body (s : jstr) : option jstr :=
  match s with
  | [] => None
  | c :: s1 =>
      if decide (c = dquote) then match s1 with [] => Some [] | _ => None end
      else if decide (c = backslash) then
        match s1 with
        | e :: s2 =>
            if decide (e = 117%N) then
              match s2 with
              | h1 :: h2 :: h3 :: h4 :: s3 =>
                  match hex4_value h1 h2 h3 h4 with
                  | Some v => cons v <$> unquote_body s3
                  | None => None
                  end
              | _ => None
              end
            else match short_value e with
                 | Some v => cons v <$> unquote_body s2
                 | None => None
                 end
        | [] => None
        end
      else if decide (c < 32)%N then None
      else cons c <$> unquote_body s1
  end.

Definition unquote (s : jstr) : option jstr :=
  match s with
  | c :: s' => if decide (c = dquote) then unquote_body s' else None
  | [] => None
  end.

End Quote.

(** * [stringify] *)

Module Stringify.
Import Quote.

(** [String(n)] of an integer. *)
Definition num_text (z : Z) : jstr := js (pretty z).

(** The replacer: none, a function of the holder, the key and the value, an array
    (its elements), or something else that is truthy. *)
Inductive replacer :=
  | RNone
  | RFun (f : jval -> pkey -> jval -> jval)
  | RArr (l : list jval)
  | ROther.

Inductive space := SNone | SNum (z : Z) | SStr (s : jstr).

Section Str.
(** [value.toJSON], for the objects that have such a method. *)
Context (toJSON : jval -> option (pkey -> jval)).
Context (rep : replacer) (indent : jstr).

(** [truthy && typeof value === 'object']. *)
Definition is_object (v : jval) : bool :=
  match v with JArr _ | JObj _ => true | _ => false end.

(** The value to print for [holder[key]]: after [toJSON] and after the replacer. *)
Definition prepare (key : pkey) (holder value : jval) : jval :=
  let value :=
    if is_object value then
      match toJSON value with Some f => f key | None => value end
    else value in
  match rep with RFun f => f holder key value | _ => value end.

(** [holder[k]] of an object; an absent property is undefined. *)
Definition get_prop (props : list (jstr * jval)) (k : jstr) : jval :=
  match find (fun p => bool_decide (p.1 = k)) props with Some p => p.2 | None => JUndef end.

(** The members to print: those of the replacer array that are strings, or all. *)
Definition member_names (props : list (jstr * jval)) : list (jstr * jval) :=
  match rep with
  | RArr l =>
      omap (fun r => match r with JStr k => Some (k, get_prop props k) | _ => None end) l
  | _ => props
  end.

Definition nl : jstr := [10%N].

(** The text of a list of partial results between two brackets. *)
Definition wrap (open close mind gap : jstr) (partial : list jstr) : jstr :=
  match partial with
  | [] => open ++ close
  | _ =>
      if truthy gap then
        open ++ nl ++ gap ++ join (js "," ++ nl ++ gap) partial ++ nl ++ mind ++ close
      else open ++ join (js ",") partial ++ close
  end.

(** [partial[i] = str(i, value) || 'null']. *)
Fixpoint str_elems (rec : pkey -> jval -> option (option jstr)) (i : nat) (l : list jval)
    : option (list jstr) :=
  match l with
  | [] => Some []
  | v :: l' =>
      match rec (KIndex i) v, str_elems rec (S i) l' with
      | Some r, Some rest => Some ((if truthy r then default [] r else js "null") :: rest)
      | _, _ => None
      end
  end.

(** [if (v) partial.push(quote(k) + (gap ? ': ' : ':') + v)]. *)
Fixpoint str_members (rec : pkey -> jval -> option (option jstr)) (gap : jstr)
    (l : list (jstr * jval)) : option (list jstr) :=
  match l with
  | [] => Some []
  | (k, v) :: l' =>
      match rec (KName k) v, str_members rec gap l' with
      | Some r, Some rest =>
          Some (if truthy r
                then (quote k ++ (if truthy gap then js ": " else js ":") ++ default [] r) :: rest
                else rest)
      | _, _ => None
      end
  end.

(** [str(key, holder)], with [value = holder[key]] and the current [gap].  The
    outer option is [None] when [fuel] runs out, the inner one is the returned
    string, or undefined. *)
Fixpoint str (fuel : nat) (mind : jstr) (key : pkey) (holder value : jval)
    : option (option jstr) :=
  match fuel with
  | O => None
  | S fuel =>
      let value := prepare key holder value in
      let gap := mind ++ indent in
      match value with
      | JStr s => Some (Some (quote s))
      | JNum (Int z) => Some (Some (num_text z))
      | JNum _ => Some (Some (js "null"))
      | JBool b => Some (Some (if b then js "true" else js "false"))
      | JNull => Some (Some (js "null"))
      | JArr l =>
          (fun partial => Some (wrap (js "[") (js "]") mind gap partial))
            <$> str_elems (fun k v => str fuel gap k value v) 0 l
      | JObj props =>
          (fun partial => Some (wrap (js "{") (js "}") mind gap partial))
            <$> str_members (fun k v => str fuel gap k value v) gap (member_names props)
      | JUndef | JFun => Some None
      end
  end.
End Str.

(** The indent string of the [space] argument. *)
Definition indent_of (sp : space) : jstr :=
  match sp with
  | SNum z => replicate (Z.to_nat z) 32%N
  | SStr s => s
  | SNone => []
  end.

(** What [stringify] does: throw, or return (a string or undefined). *)
Inductive outcome := Throws | Returns (r : option jstr).

Definition stringify (toJSON : jval -> option (pkey -> jval)) (fuel : nat)
    (value : jval) (rep : replacer) (sp : space) : option outcome :=
  match rep with
  | ROther => Some Throws
  | _ => Returns <$> str toJSON rep (indent_of sp) fuel [] (KName []) (JObj [([], value)]) value
  end.

(** How deep a value nests: the fuel [str] needs without user code. *)
Fixpoint depth (v : jval) : nat :=
  match v with
  | JArr l => S (list_max (map depth l))
  | JObj ps => S (list_max (map (fun p => depth p.2) ps))
  | _ => 0
  end.

End Stringify.

(** * [parse] *)

Module Parse.
Import Quote.

(** [cx]: the code units that JavaScript handles incorrectly in a literal. *)
Definition cx (c : N) : bool :=
  bool_decide (c = 0%N) || bool_decide (c = 173%N)
  || in_range 1536 1540 c || bool_decide (c = 1807%N) || in_range 6068 6069 c
  || in_range 8204 8207 c || in_range 8232 8239 c || in_range 8288 8303 c
  || bool_decide (c = 65279%N) || in_range 65520 65535 c.

(** Stage one: [text.replace(cx, ...)]. *)
Definition escape_cx (text : jstr) : jstr :=
  concat (map (fun c => if cx c then u_escape c else [c]) text).

Definition is_hex (c : N) : bool := in_range 48 57 c || in_range 97 102 c || in_range 65 70 c.
Definition digit (c : N) : bool := in_range 48 57 c.

(** Replacing, from left to right, every match of a pattern by one character:
    [len] gives the length of the match that starts at the head of its argument,
    if there is one, and [skip] counts the matched characters still to drop. *)
Fixpoint replace_all (len : jstr -> option nat) (by_char : N) (skip : nat) (s : jstr) : jstr :=
  match s with
  | [] => []
  | c :: s' =>
      match skip with
      | S k => replace_all len by_char k s'
      | O =>
          match len s with
          | Some (S l) => by_char :: replace_all len by_char l s'
          | _ => c :: replace_all len by_char 0 s'
          end
      end
  end.

(** A backslash and one of the short escapes, or [u] and four hex digits. *)
Definition escape_len (s : jstr) : option nat :=
  match s with
  | b :: c :: r =>
      if decide (b = backslash) then
        if existsb (N.eqb c) [dquote; backslash; slash; 98; 102; 110; 114; 116]%N then Some 2
        else if decide (c = 117%N) then
          match r with
          | h1 :: h2 :: h3 :: h4 :: _ =>
              if is_hex h1 && is_hex h2 && is_hex h3 && is_hex h4 then Some 6 else None
          | _ => None
          end
        else None
      else None
  | _ => None
  end.

(** The length of the longest prefix of characters in a class. *)
Fixpoint span_len (p : N -> bool) (s : jstr) : nat :=
  match s with c :: s' => if p c then S (span_len p s') else 0 | [] => 0 end.

(** The string part of the token pattern: a quote, characters other than quote,
    backslash and line ends, and a quote. *)
Definition string_char (c : N) : bool :=
  negb (bool_decide (c = dquote)) && negb (bool_decide (c = backslash))
  && negb (bool_decide (c = 10%N)) && negb (bool_decide (c = 13%N)).
Definition string_len (s : jstr) : option nat :=
  match s with
  | q :: s' =>
      if decide (q = dquote) then
        let n := span_len string_char s' in
        match drop n s' with
        | q2 :: _ => if decide (q2 = dquote) then Some (n + 2) else None
        | [] => None
        end
      else None
  | [] => None
  end.

(** The optional exponent: its length, 0 when it is absent. *)
Definition exponent_len (s : jstr) : nat :=
  match s with
  | e :: s1 =>
      if decide (e = 101%N \/ e = 69%N) then
        match s1 with
        | c :: s2 =>
            if decide (c = 43%N \/ c = 45%N) then
              match span_len digit s2 with O => 0 | n => n + 2 end
            else match span_len digit s1 with O => 0 | n => n + 1 end
        | [] => 0
        end
      else 0
  | [] => 0
  end.

(** The optional fraction: a dot and digits, possibly none. *)
Definition fraction_len (s : jstr) : nat :=
  match s with
  | c :: s' => if decide (c = dot) then S (span_len digit s') else 0
  | [] => 0
  end.

(** A number: an optional minus, digits, the optional fraction and exponent. *)
Definition unsigned_len (s : jstr) : option nat :=
  match span_len digit s with
  | O => None
  | n =>
      let f := fraction_len (drop n s) in
      Some (n + f + exponent_len (drop (n + f) s))
  end.
Definition number_len (s : jstr) : option nat :=
  match s with
  | c :: s' => if decide (c = 45%N) then S <$> unsigned_len s' else unsigned_len s
  | [] => None
  end.

(** The simple value tokens, in the order of the alternatives. *)
Definition token_len (s : jstr) : option nat :=
  match string_len s with
  | Some n => Some n
  | None =>
      if starts_with (js "true") s then Some 4
      else if starts_with (js "false") s then Some 5
      else if starts_with (js "null") s then Some 4
      else number_len s
  end.

(** [\s]. *)
Definition white (c : N) : bool :=
  in_range 9 13 c || bool_decide (c = 32%N) || bool_decide (c = 160%N)
  || bool_decide (c = 5760%N) || in_range 8192 8202 c || in_range 8232 8233 c
  || bool_decide (c = 8239%N) || bool_decide (c = 8287%N) || bool_decide (c = 12288%N)
  || bool_decide (c = 65279%N).

Definition lbracket : N := 91.
Definition rbracket : N := 93.
Definition comma : N := 44.

(** One or more brackets, each after white space: the length up to the last bracket, 0 without a match.  [pos]
    characters were read, the last bracket ended at [last]. *)
Fixpoint brackets_len (pos last : nat) (s : jstr) : nat :=
  match s with
  | c :: s' =>
      if decide (c = lbracket) then brackets_len (S pos) (S pos) s'
      else if white c then brackets_len (S pos) last s'
      else last
  | [] => last
  end.

(** The start of the text, a colon or a comma, followed by open brackets; [start]
    tells that the head is the start of the text. *)
Definition open_len (start : bool) (s : jstr) : nat :=
  match (if start then brackets_len 0 0 s else 0) with
  | O =>
      match s with
      | c :: s' =>
          if decide (c = colon \/ c = comma) then
            match brackets_len 0 0 s' with O => 0 | n => S n end
          else 0
      | [] => 0
      end
  | n => n
  end.

(** The global deletion of such runs. *)
Fixpoint delete_opens (start : bool) (skip : nat) (s : jstr) : jstr :=
  match s with
  | [] => []
  | c :: s' =>
      match skip with
      | S k => delete_opens false k s'
      | O =>
          match open_len start s with
          | S l => delete_opens false l s'
          | O => c :: delete_opens false 0 s'
          end
      end
  end.

(** [/^[\],:{}\s]*$/]. *)
Definition harmless (c : N) : bool :=
  bool_decide (c = rbracket) || bool_decide (c = comma) || bool_decide (c = colon)
  || bool_decide (c = 123%N) || bool_decide (c = 125%N) || white c.

Definition hide_escapes (s : jstr) : jstr := replace_all escape_len 64 0 s.
Definition hide_tokens (s : jstr) : jstr := replace_all token_len rbracket 0 s.

(** The test of stage two. *)
Definition looks_safe (text : jstr) : bool :=
  forallb harmless (delete_opens true 0 (hide_tokens (hide_escapes text))).

Section Walk.
(** [reviver.call(holder, key, value)]; it may return undefined.  The reviver does not itself
    change the objects it is given. *)
Context (reviver : jval -> jstr -> jval -> jval).

(** [walk(holder, key)] for [value = holder[key]].  The holder is the live object:
    [holder] gives it for the value that its property [key] then has, after the
    properties of that value were replaced in place.  A property becomes what its
    own walk returns, or is deleted when that is undefined (an array keeps its
    length, with a hole there).  The keys of [for in] are strings, also those of
    an array. *)
Fixpoint walk (holder : jval -> jval) (key : jstr) (value : jval) : jval :=
  let value' :=
    match value with
    | JObj props =>
        JObj ((fix members (done rest : list (jstr * jval)) :=
          match rest with
          | [] => done
          | (k, v) :: rest' =>
              match walk (fun v => JObj (done ++ (k, v) :: rest')) k v with
              | JUndef => members done rest'
              | v' => members (done ++ [(k, v')]) rest'
              end
          end) [] props)
    | JArr l =>
        JArr ((fix elems (done rest : list jval) :=
          match rest with
          | [] => done
          | v :: rest' =>
              elems (done ++ [walk (fun v => JArr (done ++ v :: rest'))
                                   (js (pretty (length done))) v]) rest'
          end) [] l)
    | _ => value
    end in
  reviver (holder value') key value'.
End Walk.

(** What [parse] does: throw a SyntaxError, or return a value. *)
Inductive result := SyntaxError | Value (v : jval).

(** [eval('(' + text + ')')] is the parameter [eval]; [None] is an exception. *)
Definition parse (eval : jstr -> option jval) (text : jstr)
    (reviver : option (jval -> jstr -> jval -> jval)) : result :=
  let text := escape_cx text in
  if looks_safe text then
    match eval (js "(" ++ text ++ js ")") with
    | Some j =>
        Value (match reviver with
               | Some r => walk r (fun j => JObj [([], j)]) [] j
               | None => j
               end)
    | None => SyntaxError
    end
  else SyntaxError.

End Parse.

(** * Dates *)

Module Dates.
Import Stringify.
Local Open Scope Z_scope.

(** The calendar of the language (its Date has the proleptic Gregorian one): the day and
    the time within it of a number of milliseconds since 1970. *)
Definition Day (t : Z) : Z := t / 86400000.
Definition TimeWithinDay (t : Z) : Z := t mod 86400000.

Definition DayFromYear (y : Z) : Z :=
  365 * (y - 1970) + (y - 1969) / 4 - (y - 1901) / 100 + (y - 1601) / 400.

(** The year a day is in, from an estimate that is wrong by one at most. *)
Definition YearFromDay (d : Z) : Z :=
  let y := 1970 + d * 400 / 146097 in
  if bool_decide (DayFromYear (y + 1) <= d) then y + 1
  else if bool_decide (d < DayFromYear y) then y - 1 else y.

Definition InLeapYear (y : Z) : bool := bool_decide (DayFromYear (y + 1) - DayFromYear y = 366).

(** The day of its year a month begins with. *)
Definition MonthStart (leap : bool) (m : nat) : Z :=
  nth m [0; 31; 59; 90; 120; 151; 181; 212; 243; 273; 304; 334] 365
  + (if leap && bool_decide (2 <= m)%nat then 1 else 0).

(** The last month that begins no later than a day of the year. *)
Definition MonthFrom (leap : bool) (n : Z) : nat :=
  length (List.filter (fun m => bool_decide (MonthStart leap m <= n)) (seq 1 11)).

Definition getUTCFullYear (t : Z) : Z := YearFromDay (Day t).
Definition DayInYear (t : Z) : Z := Day t - DayFromYear (getUTCFullYear t).
Definition getUTCMonth (t : Z) : nat := MonthFrom (InLeapYear (getUTCFullYear t)) (DayInYear t).
Definition getUTCDate (t : Z) : Z :=
  DayInYear t - MonthStart (InLeapYear (getUTCFullYear t)) (getUTCMonth t) + 1.
Definition getUTCHours (t : Z) : Z := TimeWithinDay t / 3600000.
Definition getUTCMinutes (t : Z) : Z := TimeWithinDay t / 60000 mod 60.
Definition getUTCSeconds (t : Z) : Z := TimeWithinDay t / 1000 mod 60.

(** [f]: an integer with two digits at least. *)
Definition f (n : Z) : jstr := if bool_decide (n < 10) then 48%N :: num_text n else num_text n.

(** [Date.prototype.toJSON], from the date's [valueOf]: not a number, or milliseconds. *)
Definition toJSON (valueOf : option Z) : jval :=
  match valueOf with
  | Some t =>
      JStr (num_text (getUTCFullYear t) ++ js "-" ++ f (Z.of_nat (getUTCMonth t) + 1) ++ js "-"
            ++ f (getUTCDate t) ++ js "T" ++ f (getUTCHours t) ++ js ":" ++ f (getUTCMinutes t)
            ++ js ":" ++ f (getUTCSeconds t) ++ js "Z")
  | None => JNull
  end.

End Dates.
