(* ===== verification/Json2Facts.v ===== *)
(** Facts about [js/json2.js]: quoting, totality of [stringify], the walk of [parse] with a
    reviver, and dates. *)

From S2P Require Import Prelude Numbers Json2.

Module QuoteFacts.
Import Quote.

(** A code unit is 16 bits wide. *)
Definition unit16 (c : N) : Prop := (c < 65536)%N.

Lemma quote_eq s : quote s = dquote :: concat (map escape s) ++ [dquote].
Proof.
  unfold quote. destruct (existsb escapable s) eqn:E; [done|]. f_equal. f_equal.
  induction s as [|c s IH]; [done|]. simpl in *. apply orb_false_iff in E as [Hc Hs].
  unfold escape at 1. rewrite Hc. simpl. f_equal. by apply IH.
Qed.

Lemma hex_value_digit d : (d < 16)%N -> hex_value (hex_digit d) = Some d.
Proof.
  intros H. unfold hex_digit, hex_value, in_range. case_decide.
  - rewrite bool_decide_true by lia. f_equal. lia.
  - rewrite bool_decide_false by lia. rewrite bool_decide_true by lia. f_equal. lia.
Qed.

Lemma hex4_value_hex4 c :
  unit16 c ->
  hex4_value (hex_digit (c / 4096 mod 16)) (hex_digit (c / 256 mod 16))
             (hex_digit (c / 16 mod 16)) (hex_digit (c mod 16)) = Some c.
Proof.
  unfold unit16, hex4_value. intros Hc.
  rewrite !hex_value_digit by (apply N.mod_lt; lia). f_equal.
  zify. Z.to_euclidean_division_equations. lia.
Qed.

Lemma not_escapable c :
  escapable c = false -> c <> dquote /\ c <> backslash /\ (32 <= c)%N /\ c <> 10%N /\ c <> 13%N.
Proof.
  unfold escapable, in_range. intros H. js_bool. repeat split; lia || done.
Qed.

Lemma unquote_escape c rest :
  unit16 c -> unquote_body (escape c ++ rest) = cons c <$> unquote_body rest.
Proof.
  intros Hc. unfold escape. destruct (escapable c) eqn:E.
  - unfold meta. repeat (case_decide; [subst c; reflexivity|]).
    unfold u_escape, hex4. cbn [app]. cbn [unquote_body].
    rewrite (decide_False (P := backslash = dquote)) by done.
    rewrite (decide_True (P := backslash = backslash)) by done.
    rewrite (decide_True (P := 117%N = 117%N)) by done. by rewrite hex4_value_hex4.
  - apply not_escapable in E as (H1 & H2 & H3 & _). cbn [app unquote_body].
    rewrite !decide_False by (done || lia). done.
Qed.

(** C7. [quote] is undone by the JSON grammar's reader of string literals: whatever
    the code units, surrogates and controls included. *)
Theorem unquote_quote s : Forall unit16 s -> unquote (quote s) = Some s.
Proof.
  intros Hs. rewrite quote_eq. unfold unquote. rewrite decide_True by done.
  induction Hs as [|c s Hc Hs IH]; [done|].
  cbn [map concat]. rewrite <- app_assoc, unquote_escape, IH by done. done.
Qed.

Lemma unquote_quote_witness :
  let s := [104; 0; 34; 92; 8232; 65535; 55357; 10]%N in unquote (quote s) = Some s.
Proof. cbv zeta. apply unquote_quote. repeat constructor. Defined.

Lemma hex_digit_plain d : (d < 16)%N -> escapable (hex_digit d) = false.
Proof.
  intros H. unfold hex_digit. case_decide.
  - assert (Hd : d ∈ [0; 1; 2; 3; 4; 5; 6; 7; 8; 9]%N) by (rewrite !elem_of_cons; lia).
    repeat (apply elem_of_cons in Hd as [->|Hd]; [reflexivity|]). by apply elem_of_nil in Hd.
  - assert (Hd : d ∈ [10; 11; 12; 13; 14; 15]%N) by (rewrite !elem_of_cons; lia).
    repeat (apply elem_of_cons in Hd as [->|Hd]; [reflexivity|]). by apply elem_of_nil in Hd.
Qed.

Lemma escape_plain c x : x ∈ escape c -> escapable x = true -> x = dquote \/ x = backslash.
Proof.
  unfold escape. destruct (escapable c) eqn:E; [|intros ->%list_elem_of_singleton; congruence].
  unfold meta. repeat (case_decide; [subst c; intros Hx;
    repeat (apply elem_of_cons in Hx as [->|Hx]; [vm_compute; auto; done|]);
    by apply elem_of_nil in Hx|]).
  unfold u_escape, hex4. rewrite !elem_of_cons, elem_of_nil.
  intros [->|[->|[->|[->|[->|[->|[]]]]]]]; try done; auto;
    rewrite hex_digit_plain by (apply N.mod_lt; lia); done.
Qed.

Lemma escape_in_quote s x :
  x ∈ quote s -> escapable x = true -> x = dquote \/ x = backslash.
Proof.
  rewrite quote_eq, elem_of_cons, elem_of_app. intros [->|[Hx|Hx]]; [auto| |].
  - apply list_elem_of_In, in_concat in Hx as (l & Hl & Hx).
    apply in_map_iff in Hl as (c & <- & _). apply list_elem_of_In in Hx. by eapply escape_plain.
  - apply list_elem_of_singleton in Hx as ->. auto.
Qed.

(** The text [quote] produces is safe to embed: between its quotes there is no
    control character, no line separator and no other character that JavaScript
    mishandles; the only special ones left are the backslashes and quotes of the
    escapes. *)
Theorem quote_is_plain s x :
  x ∈ quote s -> escapable x = true -> x = dquote \/ x = backslash.
Proof. apply escape_in_quote. Qed.

Lemma quote_is_plain_witness : 34%N = dquote \/ 34%N = backslash.
Proof. apply (quote_is_plain (js "a")); [left; reflexivity|reflexivity]. Defined.

End QuoteFacts.

Module StringifyFacts.
Import Quote Stringify QuoteFacts.

Section Plain.
(** Without user code: no [toJSON] methods and no replacer function. *)
Context (rep : replacer) (indent : jstr).
Hypothesis rep_plain : forall f, rep <> RFun f.

Local Abbreviation str := (Stringify.str (fun _ => None) rep indent).

Lemma prepare_plain key holder value : prepare (fun _ => None) rep key holder value = value.
Proof.
  unfold prepare. destruct rep as [|f|l|] eqn:E; try (by destruct (is_object value)).
  by destruct (rep_plain f).
Qed.

Lemma list_max_le {A} (f : A -> nat) l x : In x l -> f x <= list_max (map f l).
Proof.
  intros Hx. pose proof (proj1 (List.list_max_le (map f l) _) (le_n _)) as H.
  rewrite List.Forall_forall in H. by apply H, in_map.
Qed.

Lemma member_names_depth props k v fuel :
  (forall k v, In (k, v) props -> depth v < fuel) -> 0 < fuel ->
  In (k, v) (member_names rep props) -> depth v < fuel.
Proof.
  intros Hall Hf. unfold member_names. destruct rep as [|f|l|]; try (intros; by eapply Hall).
  rewrite <- list_elem_of_In, list_elem_of_omap. intros (r & _ & Hr).
  destruct r; simplify_eq/=. unfold get_prop.
  destruct (find _ props) as [[k' v']|] eqn:E; [|simpl; lia].
  apply find_some in E as [E _]. by eapply Hall.
Qed.

Lemma str_elems_total rec l :
  (forall k v, In v l -> is_Some (rec k v)) -> forall i, is_Some (str_elems rec i l).
Proof.
  induction l as [|v l IH]; intros Hl i; simpl; [eauto|].
  destruct (Hl (KIndex i) v (or_introl eq_refl)) as [r ->].
  destruct (IH (fun k w Hw => Hl k w (or_intror Hw)) (S i)) as [rest ->]. eauto.
Qed.

Lemma str_members_total rec gap l :
  (forall k v, In (k, v) l -> is_Some (rec (KName k) v)) -> is_Some (str_members rec gap l).
Proof.
  induction l as [|[k v] l IH]; intros Hl; simpl; [eauto|].
  destruct (Hl k v (or_introl eq_refl)) as [r ->].
  destruct (IH (fun k w Hw => Hl k w (or_intror Hw))) as [rest ->]. eauto.
Qed.

Lemma str_total fuel : forall mind key holder value,
  depth value < fuel -> is_Some (str fuel mind key holder value).
Proof.
  induction fuel as [|fuel IH]; intros mind key holder value Hd; [lia|].
  cbn [Stringify.str]. rewrite prepare_plain.
  destruct value as [| |b|n|s| |l|ps]; try (by eauto); try (by destruct n; eauto);
    rewrite fmap_is_Some; simpl in Hd.
  - apply str_elems_total. intros k v Hv. apply IH. pose proof (list_max_le depth l v Hv). lia.
  - apply str_members_total. intros k v Hv. apply IH.
    eapply (member_names_depth ps); [|lia|exact Hv].
    intros k' v' Hin. pose proof (list_max_le (fun p => depth p.2) ps _ Hin). simpl in *. lia.
Qed.

Lemma str_undefined fuel mind key holder value r :
  str fuel mind key holder value = Some r ->
  (r = None <-> value = JUndef \/ value = JFun).
Proof.
  destruct fuel; [done|]. cbn [Stringify.str]. rewrite prepare_plain.
  destruct value as [| |b|n|s| |l|ps]; try (intros; simplify_eq; naive_solver);
    try (destruct n; intros; simplify_eq; naive_solver).
  - intros (p & _ & H)%fmap_Some. simplify_eq. naive_solver.
  - intros (p & _ & H)%fmap_Some. simplify_eq. naive_solver.
Qed.

End Plain.

(** Without [toJSON] methods and replacer functions, [stringify] always comes
    back: a depth of calls one above the nesting of the value is enough.  It
    returns undefined exactly for undefined and functions, and throws exactly for
    a replacer that is neither a function nor an array. *)
Theorem stringify_returns value rep sp fuel :
  (forall f, rep <> RFun f) -> depth value < fuel ->
  exists o, stringify (fun _ => None) fuel value rep sp = Some o /\
    (o = Throws <-> rep = ROther) /\
    (o = Returns None <-> rep <> ROther /\ (value = JUndef \/ value = JFun)).
Proof.
  intros Hrep Hd.
  destruct (str_total rep (indent_of sp) Hrep fuel [] (KName []) (JObj [([], value)]) value Hd)
    as [r Hr].
  pose proof (str_undefined rep (indent_of sp) Hrep _ _ _ _ _ _ Hr) as Hu.
  unfold stringify. destruct rep as [|f|l|]; try (exists (Returns r); rewrite Hr; split; [done|]);
    try (split; [done|]); try naive_solver.
Qed.

Lemma stringify_returns_witness :
  exists o, stringify (fun _ => None) 3 (JObj [(js "a", JArr [JFun; JNum (Int 1)])])
              (RArr [JStr (js "a"); JNull]) SNone = Some o /\
    o = Returns (Some (js "{" ++ [dquote] ++ js "a" ++ [dquote] ++ js ":[null,1]}")).
Proof.
  destruct (stringify_returns (JObj [(js "a", JArr [JFun; JNum (Int 1)])])
              (RArr [JStr (js "a"); JNull]) SNone 3) as (o & Ho & _ & _).
  - discriminate.
  - vm_compute. lia.
  - exists o. split; [exact Ho|]. vm_compute in Ho. injection Ho as <-. reflexivity.
Defined.

(** ** The JSON grammar *)

(** Texts as values, from the grammar of ECMA-404: what is read, independently of
    how [stringify] writes. *)
Definition ws (s : jstr) : Prop := Forall (fun c => c = 9 \/ c = 10 \/ c = 13 \/ c = 32)%N s.

(** The elements of an array or the members of an object, between commas. *)
Inductive separated {A} (R : jstr -> A -> Prop) : jstr -> list A -> Prop :=
  | separated_one w t w' v : ws w -> ws w' -> R t v -> separated R (w ++ t ++ w') [v]
  | separated_more w t w' v rest vs :
      ws w -> ws w' -> R t v -> separated R rest vs ->
      separated R (w ++ t ++ w' ++ js "," ++ rest) (v :: vs).

Inductive json : jstr -> jval -> Prop :=
  | json_null : json (js "null") JNull
  | json_bool (b : bool) : json (if b then js "true" else js "false") (JBool b)
  | json_number (neg : bool) ds :
      forallb is_digit ds = true -> ds <> [] -> (first_is 48 ds = true -> ds = js "0") ->
      json ((if neg then js "-" else []) ++ ds)
        (JNum (Int (if neg then - digits_from 0 ds else digits_from 0 ds)))
  | json_string t s : unquote t = Some s -> json t (JStr s)
  | json_no_elements w : ws w -> json (js "[" ++ w ++ js "]") (JArr [])
  | json_elements body vs : separated json body vs -> json (js "[" ++ body ++ js "]") (JArr vs)
  | json_no_members w : ws w -> json (js "{" ++ w ++ js "}") (JObj [])
  | json_members body ps :
      separated (fun t p => exists key w w' t', t = key ++ w ++ js ":" ++ w' ++ t' /\
        unquote key = Some p.1 /\ ws w /\ ws w' /\ json t' p.2) body ps ->
      json (js "{" ++ body ++ js "}") (JObj ps).

Lemma json_nonempty t v : json t v -> t <> [].
Proof. destruct 1 as [|[]|[] []|[] ? H| | | |]; try done. Qed.

(** What a value is in JSON: undefined and functions have no text, in an array
    they are null, as a number that is not finite is, and an object loses the
    members they are the values of. *)
Fixpoint in_json (v : jval) : option jval :=
  match v with
  | JUndef | JFun => None
  | JNum (Int z) => Some v
  | JNum _ => Some JNull
  | JArr l => Some (JArr (map (fun v => default JNull (in_json v)) l))
  | JObj ps => Some (JObj (omap (fun p => pair p.1 <$> in_json p.2) ps))
  | _ => Some v
  end.

(** Strings of code units, and integers that [String] writes without an exponent. *)
Fixpoint fits (v : jval) : Prop :=
  match v with
  | JNum (Int z) => (Z.abs z < 10 ^ 21)%Z
  | JStr s => Forall unit16 s
  | JArr l => fold_right and True (map fits l)
  | JObj ps => fold_right and True (map (fun p => Forall unit16 p.1 /\ fits p.2) ps)
  | _ => True
  end.

Lemma all_in {A} (P : A -> Prop) l x : fold_right and True (map P l) -> In x l -> P x.
Proof. induction l as [|y l IH]; simpl; [done|]. intros [Hy Hl] [->|Hx]; auto. Qed.

Lemma quote_reads s : Forall unit16 s -> unquote (quote s) = Some s.
Proof.
  rewrite quote_eq. unfold unquote. rewrite decide_True by done.
  induction 1 as [|c s Hc Hs IH]; [done|]. cbn [map concat].
  by rewrite <- app_assoc, unquote_escape, IH.
Qed.

(** A number is written without leading zeros. *)
Lemma pretty_go_head x s :
  (0 < x)%N -> exists c q, js (pretty_N_go x s) = c :: q /\ c <> 48%N.
Proof.
  revert s. induction (N.lt_wf_0 x) as [x _ IH]; intros s Hx. rewrite pretty_N_go_step by done.
  destruct (decide (0 < x / 10)%N) as [Hd|Hd]; [apply IH; [by apply N.div_lt|done]|].
  assert ((x / 10)%N = 0%N) as H0 by (by apply N.le_0_r, N.nlt_ge). pose proof (N.div_mod' x 10) as Hx'.
  rewrite H0 in *. rewrite pretty_N_go_0. cbn [js]. eexists _, _. split; [done|].
  assert (Hlt : (x `mod` 10 < 10)%N) by (apply N.mod_lt; lia).
  destruct (x `mod` 10)%N as [|d]; [lia|]. clear -Hlt.
  do 4 (destruct d as [d|d|]; try done; try lia).
Qed.

Lemma digits_text n :
  exists ds, js_of_N n = ds /\ forallb is_digit ds = true /\ ds <> [] /\
    (first_is 48 ds = true -> ds = js "0") /\ digits_from 0 ds = Z.of_N n.
Proof.
  destruct (js_of_N_digits n) as (c & p & He & Hd & Hv). exists (c :: p).
  split_and!; try done. intros Hc. unfold js_of_N, pretty, pretty_N in He. case_decide as Hn.
  - by rewrite <- He.
  - destruct (pretty_go_head n EmptyString ltac:(lia)) as (c' & q & Hq & Hne).
    rewrite Hq in He. injection He as -> ->. unfold first_is in Hc.
    by apply bool_decide_eq_true in Hc.
Qed.

Lemma num_text_reads z : json (num_text z) (JNum (Int z)).
Proof.
  unfold num_text. destruct z as [|p|p].
  - apply (json_number false (js "0")); [done..|by intros].
  - destruct (digits_text (N.pos p)) as (ds & He & Hd & Hne & H0 & Hv).
    change (js (pretty (Z.pos p))) with (js_of_N (N.pos p)). rewrite He.
    change (Z.pos p) with (Z.of_N (N.pos p)). rewrite <- Hv. by apply (json_number false).
  - destruct (digits_text (N.pos p)) as (ds & He & Hd & Hne & H0 & Hv).
    change (pretty (Z.neg p)) with ("-" +:+ pretty (N.pos p)). rewrite js_app.
    change (js (pretty (N.pos p))) with (js_of_N (N.pos p)). rewrite He.
    change (Z.neg p) with (- Z.of_N (N.pos p))%Z. rewrite <- Hv. by apply (json_number true).
Qed.

Lemma separated_join {A} (R : jstr -> A -> Prop) w w' ts vs :
  ws w -> ws w' -> Forall2 R ts vs -> ts <> [] ->
  separated R (w ++ join (js "," ++ w) ts ++ w') vs.
Proof.
  intros Hw Hw'. induction 1 as [|t v ts vs Ht Hts IH]; [done|]. intros _.
  destruct Hts as [|t2 v2 ts vs Ht2 Hts]; [by apply separated_one|].
  rewrite join_cons by done. rewrite <- !app_assoc.
  rewrite <- (app_nil_l (js "," ++ _)). apply separated_more; [done|by constructor|done|].
  by apply IH.
Qed.

(** What the printing of a value gives. *)
Definition prints (o : option (option jstr)) (v : jval) : Prop :=
  match in_json v with
  | None => o = Some None
  | Some v' => exists t, o = Some (Some t) /\ json t v'
  end.

Definition member (t : jstr) (p : jstr * jval) : Prop :=
  exists key w w' t', t = key ++ w ++ js ":" ++ w' ++ t' /\
    unquote key = Some p.1 /\ ws w /\ ws w' /\ json t' p.2.

Lemma str_elems_print rec l :
  (forall k v, In v l -> prints (rec k v) v) -> forall i,
  exists ts, str_elems rec i l = Some ts /\
    Forall2 json ts (map (fun v => default JNull (in_json v)) l).
Proof.
  induction l as [|v l IH]; intros Hl i; [by exists []|]. cbn [str_elems map].
  destruct (IH (fun k v Hv => Hl k v (or_intror Hv)) (S i)) as (ts & -> & Hts).
  pose proof (Hl (KIndex i) v (or_introl eq_refl)) as Hv. unfold prints in Hv.
  destruct (in_json v) as [v'|].
  - destruct Hv as (t & -> & Ht). exists (t :: ts). pose proof (json_nonempty t v' Ht).
    split; [by destruct t|by constructor].
  - rewrite Hv. exists (js "null" :: ts). split; [done|]. constructor; [apply json_null|done].
Qed.

Lemma str_members_print rec gap l :
  (forall k v, In (k, v) l -> Forall unit16 k /\ prints (rec (KName k) v) v) ->
  exists ts, str_members rec gap l = Some ts /\
    Forall2 member ts (omap (fun p => pair p.1 <$> in_json p.2) l).
Proof.
  induction l as [|[k v] l IH]; intros Hl; [by exists []|]. cbn [str_members omap list_omap].
  destruct (IH (fun k v Hv => Hl k v (or_intror Hv))) as (ts & -> & Hts).
  destruct (Hl k v (or_introl eq_refl)) as [Hk Hv]. unfold prints in Hv. cbn [fst snd].
  destruct (in_json v) as [v'|].
  - destruct Hv as (t & -> & Ht). pose proof (json_nonempty t v' Ht).
    exists ((quote k ++ (if truthy gap then js ": " else js ":") ++ t) :: ts).
    split; [by destruct t|]. apply Forall2_cons. split; [|done].
    exists (quote k), [], (if truthy gap then js " " else []), t. cbn [fst snd].
    split_and!; [|by apply quote_reads|constructor| |done].
    + by destruct (truthy gap).
    + destruct (truthy gap); [constructor; [by right; right; right|constructor]|constructor].
  - rewrite Hv. by exists ts.
Qed.

Lemma wrap_shape (open close mind gap : jstr) ts :
  ws mind -> ws gap ->
  (ts = [] /\ wrap open close mind gap ts = open ++ close) \/
  exists w w', ws w /\ ws w' /\ ts <> [] /\
    wrap open close mind gap ts = open ++ (w ++ join (js "," ++ w) ts ++ w') ++ close.
Proof.
  intros Hm Hg. assert (Hnl : ws nl) by (constructor; [by right; left|constructor]). unfold wrap.
  destruct ts as [|t ts]; [by left|right]. destruct (truthy gap).
  - exists (nl ++ gap), (nl ++ mind). split_and!; [by apply Forall_app_2..|done|].
    by rewrite <- !app_assoc.
  - exists [], []. split_and!; [constructor..|done|]. by rewrite app_nil_l, !app_nil_r.
Qed.

Lemma str_prints indent fuel : ws indent -> forall mind key holder value,
  depth value < fuel -> fits value -> ws mind ->
  prints (str (fun _ => None) RNone indent fuel mind key holder value) value.
Proof.
  intros Hi. induction fuel as [|fuel IH]; intros mind key holder value Hd Hf Hm; [lia|].
  assert (Hg : ws (mind ++ indent)) by (by apply Forall_app_2).
  cbn [str]. rewrite prepare_plain by done.
  destruct value as [| |b|n|s| |l|ps]; unfold prints; cbn [in_json]; try done.
  - exists (js "null"). split; [done|constructor].
  - eexists. split; [done|constructor].
  - destruct n as [| |z]; eexists; (split; [done|]); try constructor. apply num_text_reads.
  - eexists. split; [done|]. constructor. by apply quote_reads.
  - destruct (str_elems_print
      (fun k v => str (fun _ => None) RNone indent fuel (mind ++ indent) k (JArr l) v) l)
      with (i := 0) as (ts & -> & Hts).
    { intros k v Hv. apply IH; [|by eapply all_in|done]. simpl in Hd.
      pose proof (list_max_le depth l v Hv). lia. }
    eexists. split; [done|].
    destruct (wrap_shape (js "[") (js "]") mind (mind ++ indent) ts Hm Hg)
      as [(-> & ->)|(w & w' & Hw & Hw' & Hne & ->)].
    + apply Forall2_nil_inv_l in Hts as ->. apply (json_no_elements []). constructor.
    + apply json_elements. by apply separated_join.
  - destruct (str_members_print
      (fun k v => str (fun _ => None) RNone indent fuel (mind ++ indent) k (JObj ps) v)
      (mind ++ indent) ps) as (ts & Hs & Hts).
    { intros k v Hv. pose proof (all_in _ _ _ Hf Hv) as [Hk Hfv]. split; [done|].
      apply IH; [|done..]. simpl in Hd.
      pose proof (list_max_le (fun p => depth p.2) ps _ Hv). simpl in *. lia. }
    cbn [member_names]. rewrite Hs. eexists. split; [done|].
    destruct (wrap_shape (js "{") (js "}") mind (mind ++ indent) ts Hm Hg)
      as [(-> & ->)|(w & w' & Hw & Hw' & Hne & ->)].
    + apply Forall2_nil_inv_l in Hts as ->. apply (json_no_members []). constructor.
    + apply json_members. by apply (separated_join member).
Qed.

(** C8. [stringify] prints JSON, and the value itself: without [toJSON] methods and
    without a replacer, when the indent is JSON white space, the returned text
    reads, by the grammar of ECMA-404, as the value with what JSON lacks left out
    (null for it in arrays and for numbers that are not finite, no member for it
    in objects); undefined is returned exactly where the value itself has no
    JSON.  One call more than the value is deep is enough. *)
Theorem stringify_prints_json value sp fuel :
  fits value -> ws (indent_of sp) -> depth value < fuel ->
  match in_json value with
  | None => stringify (fun _ => None) fuel value RNone sp = Some (Returns None)
  | Some v => exists t,
      stringify (fun _ => None) fuel value RNone sp = Some (Returns (Some t)) /\ json t v
  end.
Proof.
  intros Hf Hi Hd. pose proof (str_prints (indent_of sp) fuel Hi [] (KName [])
    (JObj [([], value)]) value Hd Hf ltac:(constructor)) as Hp.
  unfold stringify. unfold prints in Hp. destruct (in_json value) as [v|]; [|by rewrite Hp].
  destruct Hp as (t & -> & Ht). by exists t.
Qed.

Lemma stringify_prints_json_witness :
  exists t, stringify (fun _ => None) 3
      (JObj [(js "a", JArr [JFun; JNum (Int (-12))]); (js "b", JUndef)]) RNone (SNum 2)
    = Some (Returns (Some t)) /\
    json t (JObj [(js "a", JArr [JNull; JNum (Int (-12))])]).
Proof.
  apply (stringify_prints_json
    (JObj [(js "a", JArr [JFun; JNum (Int (-12))]); (js "b", JUndef)]) (SNum 2) 3).
  - cbn -[Z.pow]. repeat split; repeat constructor.
  - do 2 (constructor; [by right; right; right|]). constructor.
  - vm_compute. lia.
Defined.

End StringifyFacts.

Module WalkFacts.
Import Parse.

(** Values without undefined inside: what a JSON text denotes. *)
Fixpoint defined_value (v : jval) : bool :=
  match v with
  | JUndef => false
  | JArr l => forallb defined_value l
  | JObj ps => forallb (fun p => defined_value p.2) ps
  | _ => true
  end.

Section Members.
Context (f : (jval -> jval) -> jstr -> jval -> jval).

(** The two loops of [walk], for any walk [f] of the properties. *)
Fixpoint walk_members (done rest : list (jstr * jval)) : list (jstr * jval) :=
  match rest with
  | [] => done
  | (k, v) :: rest' =>
      match f (fun v => JObj (done ++ (k, v) :: rest')) k v with
      | JUndef => walk_members done rest'
      | v' => walk_members (done ++ [(k, v')]) rest'
      end
  end.

Fixpoint walk_elems (done rest : list jval) : list jval :=
  match rest with
  | [] => done
  | v :: rest' =>
      walk_elems (done ++ [f (fun v => JArr (done ++ v :: rest')) (js (pretty (length done))) v]) rest'
  end.

Lemma walk_members_map g done rest :
  (forall h k v, In (k, v) rest -> f h k v = g k v) ->
  walk_members done rest =
    done ++ omap (fun p => match g p.1 p.2 with JUndef => None | v => Some (p.1, v) end) rest.
Proof.
  revert done. induction rest as [|[k v] rest IH]; intros done H; simpl; [by rewrite app_nil_r|].
  rewrite (H _ k v) by (by left).
  assert (H' : forall h k v, In (k, v) rest -> f h k v = g k v) by (intros; apply H; by right).
  by destruct (g k v); rewrite IH by done; rewrite <- ?app_assoc.
Qed.

Lemma walk_elems_map g done rest :
  (forall h k v, In v rest -> f h k v = g v) -> walk_elems done rest = done ++ map g rest.
Proof.
  revert done. induction rest as [|v rest IH]; intros done H; simpl; [by rewrite app_nil_r|].
  rewrite (H _ _ v) by (by left). rewrite IH by (intros; apply H; by right).
  by rewrite <- app_assoc.
Qed.
End Members.

Lemma walk_eq rv holder key value :
  walk rv holder key value =
    let value' := match value with
                  | JObj ps => JObj (walk_members (walk rv) [] ps)
                  | JArr l => JArr (walk_elems (walk rv) [] l)
                  | _ => value
                  end in
    rv (holder value') key value'.
Proof. by destruct value. Qed.

(** The walk of a reviver that looks only at the value: bottom up. *)
Fixpoint rebuild (r : jval -> jval) (v : jval) : jval :=
  r match v with
    | JArr l => JArr (map (rebuild r) l)
    | JObj ps =>
        JObj (omap (fun p => match rebuild r p.2 with JUndef => None | v => Some (p.1, v) end) ps)
    | _ => v
    end.

Fixpoint vsize (v : jval) : nat :=
  match v with
  | JArr l => S (list_sum (map vsize l))
  | JObj ps => S (list_sum (map (fun p => vsize p.2) ps))
  | _ => 1
  end.

Lemma vsize_in {A} (f : A -> nat) l x : In x l -> f x <= list_sum (map f l).
Proof. induction l as [|y l IH]; simpl; [done|]. intros [->|H]; [lia|]. apply IH in H. lia. Qed.

Lemma omap_keeps {A} (f : A -> option A) l :
  (forall x, In x l -> f x = Some x) -> omap f l = l.
Proof.
  induction l as [|x l IH]; intros H; simpl; [done|]. rewrite (H x) by (by left).
  f_equal. apply IH. intros y Hy. apply H. by right.
Qed.

(** A reviver that looks only at the value rebuilds the structure bottom up:
    every property becomes the reviver's result on its rebuilt value, object
    properties for which that is undefined are deleted, arrays keep their length. *)
Theorem walk_rebuilds r holder key value :
  walk (fun _ _ v => r v) holder key value = rebuild r value.
Proof.
  revert holder key. remember (vsize value) as n eqn:Hn.
  revert value Hn. induction (lt_wf n) as [n _ IH]. intros value -> holder key.
  rewrite walk_eq. destruct value as [| |b|m|s| |l|ps]; try done; cbn zeta; simpl; do 2 f_equal.
  - rewrite (walk_elems_map _ (rebuild r)); [done|]. intros h k v Hv.
    pose proof (vsize_in vsize l v Hv). eapply IH; [|done]. simpl. lia.
  - rewrite (walk_members_map _ (fun _ => rebuild r)); [done|]. intros h k v Hv.
    pose proof (vsize_in (fun p => vsize p.2) ps _ Hv). eapply IH; [|done]. simpl in *. lia.
Qed.

(** With a reviver that returns the value it is given, [parse] returns what it
    would return without a reviver, if that holds no undefined. *)
Theorem parse_identity_reviver eval text :
  (forall s v, eval s = Some v -> defined_value v = true) ->
  parse eval text (Some (fun _ _ v => v)) = parse eval text None.
Proof.
  intros Hd. unfold parse. destruct (looks_safe _); [|done].
  destruct (eval _) as [v|] eqn:E; [|done]. f_equal. rewrite (walk_rebuilds (fun v => v)).
  apply Hd in E. clear -E. remember (vsize v) as n eqn:Hn.
  revert v Hn E. induction (lt_wf n) as [n _ IH]. intros v -> E.
  destruct v as [| |b|m|s| |l|ps]; try done; simpl in *; f_equal.
  - rewrite forallb_forall in E. rewrite <- (map_id l) at 2. apply map_ext_in. intros v Hv.
    pose proof (vsize_in vsize l v Hv). eapply IH; [|done|by apply E]. lia.
  - assert (H : forall k v, In (k, v) ps -> rebuild (fun v => v) v = v /\ v <> JUndef).
    { intros k v Hv. rewrite forallb_forall in E. specialize (E _ Hv). simpl in E.
      pose proof (vsize_in (fun p => vsize p.2) ps _ Hv). split; [|by intros ->].
      eapply IH; [|done|done]. simpl in *. lia. }
    apply omap_keeps. intros [k v] Hv. destruct (H k v Hv) as [Hr Hu]. simpl. rewrite Hr.
    by destruct v.
Qed.

Lemma parse_identity_reviver_witness :
  parse (fun _ => Some (JArr [JNum (Int 1)])) (js "[1]") (Some (fun _ _ v => v))
    = Value (JArr [JNum (Int 1)]).
Proof.
  rewrite (parse_identity_reviver (fun _ => Some (JArr [JNum (Int 1)])) (js "[1]")).
  - reflexivity.
  - intros s v [= <-]. reflexivity.
Defined.

End WalkFacts.

Module DatesFacts.
Import Stringify Dates.
Local Open Scope Z_scope.

(** What [Date.parse] reads: the format of the language's standard, YYYY-MM-DDTHH:mm:ssZ,
    and the milliseconds of that time. *)
Definition digit_value (c : N) : option Z :=
  if bool_decide (48 <= c <= 57)%N then Some (Z.of_N c - 48) else None.

Fixpoint digits_value (acc : Z) (s : jstr) : option Z :=
  match s with
  | [] => Some acc
  | c :: s => d ← digit_value c; digits_value (10 * acc + d) s
  end.

Definition MakeTime (y mo d h mi s : Z) : Z :=
  (DayFromYear y + MonthStart (InLeapYear y) (Z.to_nat (mo - 1)) + d - 1) * 86400000
  + h * 3600000 + mi * 60000 + s * 1000.

(** The texts between the separators, each of its length. *)
Fixpoint fields (format : list (nat * N)) (s : jstr) : option (list Z) :=
  match format with
  | [] => match s with [] => Some [] | _ => None end
  | (n, sep) :: format =>
      if bool_decide (nth n s 0%N = sep) && bool_decide (n < length s)%nat then
        v ← digits_value 0 (take n s); vs ← fields format (drop (S n) s); Some (v :: vs)
      else None
  end.

Definition date_format : list (nat * N) :=
  [(4%nat, 45%N); (2%nat, 45%N); (2%nat, 84%N); (2%nat, 58%N); (2%nat, 58%N); (2%nat, 90%N)].

Definition Date_parse (s : jstr) : option Z :=
  match fields date_format s with
  | Some [y; mo; d; h; mi; sec] => Some (MakeTime y mo d h mi sec)
  | _ => None
  end.

(** ** The calendar *)

Lemma YearFromDay_spec d :
  DayFromYear (YearFromDay d) <= d < DayFromYear (YearFromDay d + 1).
Proof.
  unfold YearFromDay. set (k := d * 400 / 146097).
  assert (146097 * k <= d * 400 < 146097 * k + 146097) as Hk.
  { unfold k. pose proof (Z.div_mod (d * 400) 146097). pose proof (Z.mod_pos_bound (d * 400) 146097). lia. }
  clearbody k. unfold DayFromYear.
  repeat case_bool_decide; Z.div_mod_to_equations; lia.
Qed.

Lemma year_length y :
  DayFromYear (y + 1) - DayFromYear y = if InLeapYear y then 366 else 365.
Proof.
  unfold InLeapYear. case_bool_decide as H; [done|]. revert H. unfold DayFromYear.
  Z.div_mod_to_equations. lia.
Qed.

(** Leap years are those of the Gregorian rule. *)
Lemma InLeapYear_rule y :
  InLeapYear y = bool_decide (y mod 4 = 0) && (negb (bool_decide (y mod 100 = 0)) || bool_decide (y mod 400 = 0)).
Proof.
  unfold InLeapYear, DayFromYear. repeat case_bool_decide; cbn; try done; exfalso;
    Z.div_mod_to_equations; lia.
Qed.

(** A property of [n] numbers from [z] on, decided. *)
Fixpoint all_from (P : Z -> bool) (n : nat) (z : Z) : bool :=
  match n with O => true | S n => P z && all_from P n (z + 1) end.

Lemma all_from_spec P n z i : all_from P n z = true -> z <= i < z + Z.of_nat n -> P i = true.
Proof.
  revert z. induction n as [|n IH]; intros z H Hi; [lia|]. cbn [all_from] in H.
  apply andb_true_iff in H as [H1 H2]. destruct (decide (i = z)) as [->|]; [done|].
  apply (IH (z + 1)); [done|lia].
Qed.

Lemma decided_from (P : Z -> Prop) `{forall z, Decision (P z)} n z i :
  all_from (fun i => bool_decide (P i)) n z = true -> z <= i < z + Z.of_nat n -> P i.
Proof. intros H1 H2. pose proof (all_from_spec _ _ _ _ H1 H2) as H3. by apply bool_decide_eq_true in H3. Qed.

(** A day of the year is a day of its month. *)
Lemma MonthFrom_spec leap n :
  0 <= n < (if leap : bool then 366 else 365) ->
  (MonthFrom leap n < 12)%nat /\ 1 <= n - MonthStart leap (MonthFrom leap n) + 1 <= 31.
Proof.
  intros H. set (P := fun n => (MonthFrom leap n < 12)%nat /\ 1 <= n - MonthStart leap (MonthFrom leap n) + 1 <= 31).
  change (P n). apply (decided_from P (if leap then 366 else 365) 0).
  - destruct leap; vm_compute; reflexivity.
  - destruct leap; lia.
Qed.

(** ** The texts *)

Lemma f_field z :
  0 <= z < 60 -> length (f z) = 2%nat /\ digits_value 0 (f z) = Some z.
Proof. intros H. pattern z. by apply (decided_from _ 60 0). Qed.

Lemma year_field z :
  1000 <= z < 10000 -> length (num_text z) = 4%nat /\ digits_value 0 (num_text z) = Some z.
Proof.
  intros H. pattern z. apply (decided_from _ (Z.to_nat 9000) 1000); [|lia]. vm_compute. reflexivity.
Qed.

Lemma fields_cons n sep format a v s :
  length a = n -> digits_value 0 a = Some v ->
  fields ((n, sep) :: format) (a ++ sep :: s) = cons v <$> fields format s.
Proof.
  intros <- Hv. cbn [fields]. rewrite bool_decide_true, bool_decide_true.
  - rewrite take_app_length, Hv, drop_app_ge by lia.
    replace (S (length a) - length a)%nat with 1%nat by lia. 
    change (drop 1 (sep :: s)) with s. cbn. by destruct (fields format s).
  - rewrite length_app. cbn. lia.
  - rewrite app_nth2 by lia. by rewrite Nat.sub_diag.
Qed.

(** Hours, minutes and seconds make up the time without its milliseconds. *)
Lemma time_of_fields w :
  w / 3600000 * 3600000 + w / 60000 mod 60 * 60000 + w / 1000 mod 60 * 1000 = w - w mod 1000.
Proof.
  pose proof (Z.div_mod w 1000 ltac:(lia)). pose proof (Z.div_mod (w / 1000) 60 ltac:(lia)) as H1.
  pose proof (Z.div_mod (w / 60000) 60 ltac:(lia)) as H2.
  rewrite Z.div_div in H1, H2 by lia. change (1000 * 60) with 60000 in H1. change (60000 * 60) with 3600000 in H2. lia.
Qed.

Lemma seconds_of t : t mod 86400000 mod 1000 = t mod 1000.
Proof. apply Z.mod_mod_divide. by exists 86400. Qed.

Lemma month_and_date t : (getUTCMonth t < 12)%nat /\ 1 <= getUTCDate t <= 31.
Proof.
  unfold getUTCMonth, getUTCDate. apply MonthFrom_spec.
  pose proof (YearFromDay_spec (Day t)) as Hd. pose proof (year_length (getUTCFullYear t)) as Hl.
  unfold DayInYear. unfold getUTCFullYear in *. lia.
Qed.

(** A date of the years 1000 to 9999 is written in the format of the standard: what
    [Date.parse] reads in it is the date without its milliseconds. *)
Theorem date_reads_back t :
  1000 <= getUTCFullYear t < 10000 ->
  exists s, toJSON (Some t) = JStr s /\ Date_parse s = Some (t - t mod 1000).
Proof.
  intros Hy. eexists. split; [unfold toJSON; exact eq_refl|]. destruct (month_and_date t) as [Hm Hdate].
  assert (0 <= TimeWithinDay t < 86400000) as Hw by exact (Z.mod_pos_bound t 86400000 eq_refl).
  assert (0 <= getUTCHours t < 24 /\ 0 <= getUTCMinutes t < 60 /\ 0 <= getUTCSeconds t < 60) as (Hh & Hmi & Hs).
  { unfold getUTCHours, getUTCMinutes, getUTCSeconds. split; [|split; apply Z.mod_pos_bound; lia].
    split; [apply Z.div_pos; lia|apply Z.div_lt_upper_bound; lia]. }
  destruct (year_field _ Hy) as [L1 V1].
  destruct (f_field (Z.of_nat (getUTCMonth t) + 1)) as [L2 V2]; [lia|].
  destruct (f_field (getUTCDate t)) as [L3 V3]; [lia|].
  destruct (f_field (getUTCHours t)) as [L4 V4]; [lia|].
  destruct (f_field (getUTCMinutes t)) as [L5 V5]; [lia|].
  destruct (f_field (getUTCSeconds t)) as [L6 V6]; [lia|].
  unfold Date_parse, date_format. change (js "-") with [45%N]. change (js "T") with [84%N].
  change (js ":") with [58%N]. change (js "Z") with [90%N]. cbn [app].
  do 6 (erewrite fields_cons by eassumption). cbn [fields fmap option_fmap option_map].
  f_equal. unfold MakeTime. replace (Z.to_nat _) with (getUTCMonth t) by lia.
  transitivity (Day t * 86400000 + (TimeWithinDay t - TimeWithinDay t mod 1000)).
  - unfold getUTCDate. rewrite <- (time_of_fields (TimeWithinDay t)). unfold DayInYear, getUTCHours, getUTCMinutes, getUTCSeconds. lia.
  - unfold Day, TimeWithinDay. rewrite (seconds_of t). pose proof (Z.div_mod t 86400000). lia.
Qed.

Lemma date_reads_back_witness :
  exists s, toJSON (Some 1371639845678) = JStr s /\ Date_parse s = Some (1371639845678 - 1371639845678 mod 1000).
Proof.
  apply (date_reads_back 1371639845678). split; vm_compute; [discriminate|reflexivity].
Defined.

(** Years below 1000 are written without their zeros: that is not the format. *)
Lemma early_year_unread :
  toJSON (Some (-30641760000000)) = JStr (js "999-01-01T00:00:00Z")
  /\ Date_parse (js "999-01-01T00:00:00Z") = None.
Proof. split; vm_compute; reflexivity. Qed.

End DatesFacts.
