(* ===== verification/Json2Safe.v ===== *)
(** Facts about the safety test of [JSON.parse]: that it accepts every text
    [JSON.stringify] prints, and that what it lets through to [eval] is data. *)

From S2P Require Import Prelude Json2 Json2Facts.

Module ParseFacts.
Import Quote Stringify Parse QuoteFacts.

(** ** The replacement loops *)

Lemma replace_skip len ch p r :
  replace_all len ch (length p) (p ++ r) = replace_all len ch 0 r.
Proof. induction p as [|c p IH]; simpl; [done|apply IH]. Qed.

Lemma replace_match len ch c p r :
  len (c :: p ++ r) = Some (S (length p)) ->
  replace_all len ch 0 (c :: p ++ r) = ch :: replace_all len ch 0 r.
Proof. intros H. simpl. rewrite H. by rewrite replace_skip. Qed.

Lemma replace_pass len ch c s :
  len (c :: s) = None -> replace_all len ch 0 (c :: s) = c :: replace_all len ch 0 s.
Proof. intros H. simpl. by rewrite H. Qed.

Lemma hide_escapes_pass c s : c <> backslash -> hide_escapes (c :: s) = c :: hide_escapes s.
Proof.
  intros Hc. apply replace_pass. unfold escape_len. destruct s as [|x s]; [done|].
  by rewrite decide_False.
Qed.

Lemma hide_escapes_app p s :
  backslash ∉ p -> hide_escapes (p ++ s) = p ++ hide_escapes s.
Proof.
  induction p as [|c p IH]; intros H; [done|]. apply not_elem_of_cons in H as [Hc Hp].
  cbn [app]. rewrite hide_escapes_pass by done. by rewrite IH.
Qed.

(** What is left of one character of a quoted string. *)
Definition hidden (c : N) : N := if escapable c then 64%N else c.

Lemma is_hex_digit d : (d < 16)%N -> is_hex (hex_digit d) = true.
Proof.
  intros H. unfold hex_digit, is_hex, in_range. case_decide.
  - by rewrite bool_decide_true by lia.
  - rewrite (bool_decide_true (97 <= _ <= 102)%N) by lia. by rewrite orb_true_r.
Qed.

Lemma hide_escape c r : hide_escapes (escape c ++ r) = hidden c :: hide_escapes r.
Proof.
  unfold escape, hidden. destruct (escapable c) eqn:E.
  - unfold meta. repeat (case_decide; [subst c; reflexivity|]).
    unfold u_escape. apply (replace_match escape_len 64 backslash (117%N :: hex4 c) r).
    unfold hex4. cbn [app length]. unfold escape_len. rewrite decide_True by done.
    rewrite !is_hex_digit by (apply N.mod_lt; lia). reflexivity.
  - apply not_escapable in E as (_ & Hb & _). by apply hide_escapes_pass.
Qed.

Lemma hide_escapes_body s r :
  hide_escapes (concat (map escape s) ++ r) = map hidden s ++ hide_escapes r.
Proof.
  induction s as [|c s IH]; [done|]. cbn [map concat]. rewrite <- app_assoc, hide_escape.
  cbn [app]. by rewrite IH.
Qed.

Lemma hide_escapes_string s r :
  hide_escapes (quote s ++ r) = dquote :: map hidden s ++ dquote :: hide_escapes r.
Proof.
  rewrite quote_eq. cbn [app]. rewrite hide_escapes_pass by done. f_equal.
  rewrite <- app_assoc, hide_escapes_body. cbn [app]. by rewrite hide_escapes_pass.
Qed.

Lemma hidden_string_char c : string_char (hidden c) = true.
Proof.
  unfold hidden. destruct (escapable c) eqn:E; [done|].
  apply not_escapable in E as (H1 & H2 & _ & H3 & H4). unfold string_char.
  by rewrite !bool_decide_false.
Qed.

Lemma span_len_app p a b :
  Forall (fun c => p c = true) a -> (match b with [] => True | c :: _ => p c = false end) ->
  span_len p (a ++ b) = length a.
Proof.
  intros Ha Hb. induction Ha as [|c a Hc Ha IH]; simpl.
  - destruct b as [|c b]; [done|]. simpl. by rewrite Hb.
  - by rewrite Hc, IH.
Qed.

Lemma string_len_string body r :
  Forall (fun c => string_char c = true) body ->
  string_len (dquote :: body ++ dquote :: r) = Some (S (length (body ++ [dquote]))).
Proof.
  intros Hb. unfold string_len. rewrite decide_True by done.
  rewrite span_len_app by done. rewrite drop_app_length, decide_True by done.
  rewrite length_app. simpl. f_equal. lia.
Qed.

Lemma hide_tokens_string body r :
  Forall (fun c => string_char c = true) body ->
  hide_tokens (dquote :: body ++ dquote :: r) = rbracket :: hide_tokens r.
Proof.
  intros Hb. unfold hide_tokens.
  replace (body ++ dquote :: r) with ((body ++ [dquote]) ++ r) by (by rewrite <- app_assoc).
  apply replace_match. rewrite <- app_assoc. cbn [app]. unfold token_len.
  by rewrite string_len_string.
Qed.

(** ** Texts, and what the two replacements leave of them *)

Definition hide (s : jstr) : jstr := hide_tokens (hide_escapes s).

(** What may follow a value: nothing, a comma, a closing bracket or a line end. *)
Definition boundary (r : jstr) : Prop :=
  match r with [] => True | c :: _ => c = comma \/ c = rbracket \/ c = 125%N \/ c = 10%N end.

(** The text [t] is reduced to [h], wherever it stands. *)
Definition reduces (t h : jstr) : Prop := forall r, boundary r -> hide (t ++ r) = h ++ hide r.

(** Characters that start neither an escape nor a token. *)
Definition punct (c : N) : bool :=
  negb (existsb (N.eqb c) [dquote; backslash; 116; 102; 110; 45]%N) && negb (digit c).

Lemma token_len_punct c s : punct c = true -> token_len (c :: s) = None.
Proof.
  unfold punct. intros H. apply andb_true_iff in H as [H1 H2].
  apply negb_true_iff in H1, H2. cbn [existsb] in H1.
  repeat match goal with
  | E : (_ || _) = false |- _ => apply orb_false_iff in E as [? E]
  | E : (_ =? _)%N = false |- _ => apply N.eqb_neq in E
  end.
  unfold token_len, string_len. rewrite decide_False by done.
  change (js "true") with [116; 114; 117; 101]%N. change (js "null") with [110; 117; 108; 108]%N.
  change (js "false") with [102; 97; 108; 115; 101]%N. cbn [starts_with].
  rewrite !bool_decide_false by (intros <-; done). cbn [andb]. unfold number_len.
  rewrite decide_False by done. unfold unsigned_len. cbn [span_len]. by rewrite H2.
Qed.

Lemma hide_punct c r : punct c = true -> hide (c :: r) = c :: hide r.
Proof.
  intros Hc. unfold hide. assert (Hb : c <> backslash) by (by intros ->).
  rewrite hide_escapes_pass by done. unfold hide_tokens.
  apply replace_pass. by apply token_len_punct.
Qed.

Lemma hide_puncts p r : Forall (fun c => punct c = true) p -> hide (p ++ r) = p ++ hide r.
Proof. induction 1 as [|c p Hc Hp IH]; cbn [app]; [done|]. by rewrite hide_punct, IH. Qed.

Lemma white_punct c : white c = true -> punct c = true.
Proof.
  unfold white, punct, digit, in_range. intros H. apply andb_true_iff.
  split; apply negb_true_iff.
  - cbn [existsb]. unfold dquote, backslash.
    repeat match goal with E : _ || _ = true |- _ => apply orb_true_iff in E as [E|E] end;
      apply bool_decide_eq_true in H; repeat (apply orb_false_iff; split); try done;
      apply N.eqb_neq; lia.
  - repeat match goal with E : _ || _ = true |- _ => apply orb_true_iff in E as [E|E] end;
      apply bool_decide_eq_true in H; apply bool_decide_eq_false; lia.
Qed.

Lemma reduces_quote s : reduces (quote s) [rbracket].
Proof.
  intros r _. unfold hide. rewrite hide_escapes_string, hide_tokens_string; [done|].
  apply Forall_fmap. apply Forall_true. intros c. apply hidden_string_char.
Qed.

Lemma reduces_word w :
  w ∈ [js "true"; js "false"; js "null"] -> reduces w [rbracket].
Proof.
  intros Hw r _. rewrite !elem_of_cons, elem_of_nil in Hw.
  unfold hide. destruct Hw as [->|[->|[->|[]]]]; rewrite hide_escapes_app;
    try reflexivity; apply (bool_decide_unpack (backslash ∉ _)); reflexivity.
Qed.

(** ** Numbers *)

Lemma pretty_char_digit x : digit (Ascii.N_of_ascii (pretty_N_char x)) = true.
Proof. destruct x as [|p]; [done|]. do 4 (destruct p; try done). Qed.

Lemma pretty_N_go_digits x s :
  Forall (fun c => digit c = true) (js s) -> Forall (fun c => digit c = true) (js (pretty_N_go x s)).
Proof.
  revert s. induction (N.lt_wf_0 x) as [x _ IH]; intros s Hs.
  destruct (decide (0 < x)%N) as [Hx|Hx].
  - rewrite pretty_N_go_step by done. apply IH; [by apply N.div_lt|].
    constructor; [apply pretty_char_digit|done].
  - assert (x = 0%N) as -> by lia. by rewrite pretty_N_go_0.
Qed.

Lemma pretty_N_go_nonempty x s : js s <> [] -> js (pretty_N_go x s) <> [].
Proof.
  revert s. induction (N.lt_wf_0 x) as [x _ IH]; intros s Hs.
  destruct (decide (0 < x)%N) as [Hx|Hx].
  - rewrite pretty_N_go_step by done. apply IH; [by apply N.div_lt|done].
  - assert (x = 0%N) as -> by lia. by rewrite pretty_N_go_0.
Qed.

Lemma js_pretty_N (n : N) :
  Forall (fun c => digit c = true) (js (pretty n)) /\ js (pretty n) <> [].
Proof.
  unfold pretty, pretty_N. case_decide; [split; [repeat constructor|done]|].
  split; [apply pretty_N_go_digits; constructor|].
  rewrite pretty_N_go_step by lia. by apply pretty_N_go_nonempty.
Qed.

Lemma unsigned_len_digits ds r :
  Forall (fun c => digit c = true) ds -> ds <> [] -> boundary r ->
  unsigned_len (ds ++ r) = Some (length ds).
Proof.
  intros Hd Hne Hb. unfold unsigned_len.
  assert (Hr : match r with [] => True | c :: _ => digit c = false end).
  { destruct r as [|c r]; [done|]. by destruct Hb as [->|[->|[->| ->]]]. }
  rewrite span_len_app by done. destruct (length ds) as [|n] eqn:E; [by destruct ds|].
  rewrite <- E, drop_app_length.
  assert (Hf : fraction_len r = 0).
  { destruct r as [|c r]; [done|]. by destruct Hb as [->|[->|[->| ->]]]. }
  rewrite Hf, Nat.add_0_r, drop_app_length.
  assert (He : exponent_len r = 0).
  { destruct r as [|c r]; [done|]. by destruct Hb as [->|[->|[->| ->]]]. }
  rewrite He. f_equal. lia.
Qed.

Lemma digit_cases c : digit c = true -> c ∈ [48; 49; 50; 51; 52; 53; 54; 55; 56; 57]%N.
Proof.
  unfold digit, in_range. intros H. apply bool_decide_eq_true in H.
  rewrite !elem_of_cons. lia.
Qed.

Lemma digit_head c s :
  digit c = true -> token_len (c :: s) = unsigned_len (c :: s) /\ c <> backslash.
Proof.
  intros Hc%digit_cases.
  repeat (apply elem_of_cons in Hc as [->|Hc]; [split; [reflexivity|done]|]).
  by apply elem_of_nil in Hc.
Qed.

Lemma backslash_not_digits ds : Forall (fun c => digit c = true) ds -> backslash ∉ ds.
Proof. intros Hd Hin. rewrite Forall_forall in Hd. by apply Hd in Hin. Qed.

Lemma reduces_digits ds :
  Forall (fun c => digit c = true) ds -> ds <> [] -> reduces ds [rbracket].
Proof.
  intros Hd Hne r Hb. unfold hide. rewrite hide_escapes_app by (by apply backslash_not_digits).
  assert (Hb' : boundary (hide_escapes r)).
  { destruct r as [|c r]; [done|]. rewrite hide_escapes_pass; [done|].
    by destruct Hb as [->|[->|[->| ->]]]. }
  pose proof (unsigned_len_digits ds (hide_escapes r) Hd Hne Hb') as Hl.
  destruct ds as [|c ds]; [done|]. apply Forall_cons in Hd as [Hc Hd]. cbn [app] in *.
  unfold hide_tokens. apply replace_match. by rewrite (proj1 (digit_head _ _ Hc)).
Qed.

Lemma reduces_negative ds :
  Forall (fun c => digit c = true) ds -> ds <> [] -> reduces (45%N :: ds) [rbracket].
Proof.
  intros Hd Hne r Hb. unfold hide.
  rewrite (hide_escapes_app (45%N :: ds)).
  2:{ apply not_elem_of_cons. split; [done|by apply backslash_not_digits]. }
  assert (Hb' : boundary (hide_escapes r)).
  { destruct r as [|c r]; [done|]. rewrite hide_escapes_pass; [done|].
    by destruct Hb as [->|[->|[->| ->]]]. }
  pose proof (unsigned_len_digits ds (hide_escapes r) Hd Hne Hb') as Hl.
  unfold hide_tokens. cbn [app]. apply replace_match.
  unfold token_len, number_len. cbn -[unsigned_len]. by rewrite Hl.
Qed.

Lemma reduces_num z : reduces (num_text z) [rbracket].
Proof.
  unfold num_text. destruct z as [|p|p].
  - apply reduces_digits; [repeat constructor|done].
  - change (pretty (Z.pos p)) with (pretty (N.pos p)). apply reduces_digits; apply js_pretty_N.
  - change (pretty (Z.neg p)) with ("-" +:+ pretty (N.pos p)). rewrite js_app.
    apply reduces_negative; apply js_pretty_N.
Qed.

(** ** The deletion of open brackets *)

(** Reading a reduced text: [armed] after the start, a colon, a comma or an open
    bracket, through white space.  [None]: an open bracket when not armed. *)
Fixpoint run (armed : bool) (h : jstr) : option bool :=
  match h with
  | [] => Some armed
  | c :: h' =>
      if decide (c = lbracket) then if armed then run true h' else None
      else if white c then run armed h'
      else run (bool_decide (c = colon \/ c = comma)) h'
  end.

Lemma run_app a h1 h2 : run a (h1 ++ h2) = match run a h1 with Some b => run b h2 | None => None end.
Proof.
  revert a. induction h1 as [|c h1 IH]; intros a; simpl; [done|].
  case_decide; [by destruct a|]. destruct (white c); apply IH.
Qed.

Lemma run_white a w : Forall (fun c => white c = true) w -> run a w = Some a.
Proof.
  induction 1 as [|c w Hc Hw IH]; [done|]. cbn [run].
  rewrite decide_False by (by intros ->). by rewrite Hc.
Qed.

Lemma brackets_len_shift pos last s :
  brackets_len pos last s =
    match brackets_len 0 0 s with O => last | S n => pos + S n end.
Proof.
  revert pos last. induction s as [|c s IH]; intros pos last; simpl; [done|].
  case_decide.
  - rewrite (IH (S pos)), (IH 1). destruct (brackets_len 0 0 s); simpl; lia.
  - destruct (white c); [|done]. rewrite (IH (S pos)), (IH 1). destruct (brackets_len 0 0 s); simpl; lia.
Qed.

(** Past the brackets that an armed position consumes, nothing is armed. *)
Lemma run_after_brackets s b : run true s = Some b ->
  exists b', run false (drop (brackets_len 0 0 s) s) = Some b'.
Proof.
  revert b. induction s as [|c s IH]; intros b; [by exists false|]. cbn [run brackets_len].
  case_decide as Hc.
  - intros H. destruct (IH _ H) as [b' Hb']. rewrite brackets_len_shift.
    destruct (brackets_len 0 0 s) as [|n] eqn:E; simpl; [|by exists b'].
    rewrite drop_0 in *. by exists b'.
  - destruct (white c) eqn:Hw.
    + intros H. destruct (IH _ H) as [b' Hb']. rewrite brackets_len_shift.
      destruct (brackets_len 0 0 s) as [|n] eqn:E; simpl; [|by exists b'].
      rewrite decide_False, Hw by done. rewrite drop_0 in *. by exists b'.
    + intros H. cbn [drop run]. rewrite decide_False, Hw by done. by exists b.
Qed.

Lemma delete_skip n s : delete_opens false n s = delete_opens false 0 (drop n s).
Proof.
  revert n. induction s as [|c s IH]; intros [|n]; try done. cbn [delete_opens drop]. apply IH.
Qed.

(** Every character kept by the deletion was there, and is no open bracket. *)
Lemma delete_opens_ok n : forall s b, length s <= n -> run false s = Some b ->
  forall c, c ∈ delete_opens false 0 s -> c <> lbracket /\ c ∈ s.
Proof.
  induction n as [|n IH]; intros s b Hn Hr c Hc; destruct s as [|x s];
    try (by apply elem_of_nil in Hc); simpl in Hn; [lia|].
  cbn [run] in Hr. destruct (decide (x = lbracket)) as [|Hx]; [done|].
  cbn [delete_opens] in Hc. unfold open_len in Hc.
  destruct (decide (x = colon \/ x = comma)) as [Ht|Ht].
  - rewrite bool_decide_true in Hr by done.
    assert (Hw : white x = false) by (by destruct Ht as [->| ->]). rewrite Hw in Hr.
    destruct (run_after_brackets s _ Hr) as [b' Hb'].
    destruct (brackets_len 0 0 s) as [|l] eqn:E.
    + rewrite drop_0 in Hb'. apply elem_of_cons in Hc as [->|Hc]; [split; [done|left]|].
      destruct (IH s b' ltac:(lia) Hb' c Hc). split; [done|by right].
    + rewrite delete_skip in Hc. destruct (IH (drop (S l) s) b') with (c := c); try done.
      * rewrite length_drop. lia.
      * split; [done|]. right. rename select (c ∈ drop _ _) into H2.
        rewrite list_elem_of_lookup in *. destruct H2 as [i Hi]. rewrite lookup_drop in Hi. eauto.
  - assert (Hr' : run false s = Some b).
    { destruct (white x); [done|]. by rewrite bool_decide_false in Hr by done. }
    apply elem_of_cons in Hc as [->|Hc]; [split; [done|left]|].
    destruct (IH s b ltac:(lia) Hr' c Hc). split; [done|by right].
Qed.

Lemma delete_opens_start s b : run true s = Some b ->
  forall c, c ∈ delete_opens true 0 s -> c <> lbracket /\ c ∈ s.
Proof.
  intros Hr c Hc. destruct (run_after_brackets s b Hr) as [b' Hb'].
  assert (Hd : delete_opens true 0 s = delete_opens false 0 (drop (brackets_len 0 0 s) s)).
  { destruct s as [|x s]; [done|]. cbn [delete_opens]. unfold open_len at 1.
    destruct (brackets_len 0 0 (x :: s)) as [|l] eqn:E; [|by rewrite delete_skip].
    by rewrite drop_0. }
  rewrite Hd in Hc. destruct (delete_opens_ok _ _ b' (le_n _) Hb' c Hc) as [H1 H2].
  split; [done|]. rewrite list_elem_of_lookup in *. destruct H2 as [i Hi].
  rewrite lookup_drop in Hi. eauto.
Qed.

(** ** What [stringify] prints *)

Definition tame (c : N) : bool := existsb (N.eqb c) (js "{}[],:") || white c.

Lemma tame_harmless c : tame c = harmless c || bool_decide (c = lbracket).
Proof.
  assert (Hb : forall d, bool_decide (c = d) = N.eqb c d)
    by (intros d; case_bool_decide; symmetry; [by apply N.eqb_eq|by apply N.eqb_neq]).
  unfold tame, harmless. rewrite !Hb. unfold rbracket, lbracket, comma, colon.
  destruct (white c); rewrite ?orb_true_r, ?orb_false_r; [done|].
  change (js "{}[],:") with [123; 125; 91; 93; 44; 58]%N. cbn [existsb].
  destruct (c =? 123)%N, (c =? 125)%N, (c =? 91)%N, (c =? 93)%N, (c =? 44)%N, (c =? 58)%N; done.
Qed.

(** A piece of text that the tests of [parse] let through: the replacements reduce
    it to a text of punctuation whose open brackets all stand where they are
    deleted, read after the start of a value and, with [armed], in that state. *)
Definition fine (armed : bool) (t : jstr) : Prop :=
  Forall (fun c => cx c = false) t /\
  exists h, reduces t h /\ run armed h = Some false /\ run true h = Some false /\
    Forall (fun c => tame c = true) h.

Lemma fine_token t : reduces t [rbracket] -> Forall (fun c => cx c = false) t -> fine true t.
Proof. intros Hr Hc. split; [done|]. exists [rbracket]. repeat split; [done|by constructor]. Qed.

Lemma cx_escapable c : cx c = true -> escapable c = true /\ c <> dquote /\ c <> backslash.
Proof.
  unfold cx, escapable. intros H. split.
  - repeat match goal with E : _ || _ = true |- _ => apply orb_true_iff in E as [E|E] end;
      rewrite ?H, ?orb_true_r; try done.
    apply bool_decide_eq_true in H as ->. done.
  - split; intros ->; discriminate.
Qed.

Lemma quote_no_cx s : Forall (fun c => cx c = false) (quote s).
Proof.
  apply Forall_forall. intros c Hc. destruct (cx c) eqn:E; [|done].
  apply cx_escapable in E as (He & Hd & Hb). by destruct (escape_in_quote s c Hc He).
Qed.

Lemma digits_no_cx ds : Forall (fun c => digit c = true) ds -> Forall (fun c => cx c = false) ds.
Proof.
  intros H. eapply Forall_impl; [exact H|]. intros c Hc. apply digit_cases in Hc.
  repeat (apply elem_of_cons in Hc as [->|Hc]; [reflexivity|]). by apply elem_of_nil in Hc.
Qed.

Lemma num_text_no_cx z : Forall (fun c => cx c = false) (num_text z).
Proof.
  unfold num_text. destruct z as [|p|p].
  - by repeat constructor.
  - change (pretty (Z.pos p)) with (pretty (N.pos p)). apply digits_no_cx, js_pretty_N.
  - change (pretty (Z.neg p)) with ("-" +:+ pretty (N.pos p)). rewrite js_app.
    constructor; [done|]. apply digits_no_cx, js_pretty_N.
Qed.

(** White space that stage one does not touch. *)
Definition blank (c : N) : bool := white c && negb (cx c).

Lemma blank_white w : Forall (fun c => blank c = true) w -> Forall (fun c => white c = true) w.
Proof. intros Hw. eapply Forall_impl; [exact Hw|]. intros c. by intros [H _]%andb_true_iff. Qed.
Lemma blank_no_cx w : Forall (fun c => blank c = true) w -> Forall (fun c => cx c = false) w.
Proof. intros Hw. eapply Forall_impl; [exact Hw|]. intros c. by intros [_ H%negb_true_iff]%andb_true_iff. Qed.
Lemma blank_punct w : Forall (fun c => blank c = true) w -> Forall (fun c => punct c = true) w.
Proof. intros H%blank_white. eapply Forall_impl; [exact H|apply white_punct]. Qed.
Lemma blank_tame w : Forall (fun c => blank c = true) w -> Forall (fun c => tame c = true) w.
Proof.
  intros H%blank_white. eapply Forall_impl; [exact H|]. intros c Hc. rewrite tame_harmless. unfold harmless.
  by rewrite Hc, !orb_true_r.
Qed.
Lemma run_blank a w : Forall (fun c => blank c = true) w -> run a w = Some a.
Proof. intros H%blank_white. by apply run_white. Qed.

(** A member: the quoted name, a colon, white space and the value. *)
Lemma fine_member k w t :
  Forall (fun c => blank c = true) w -> fine true t -> fine false (quote k ++ (colon :: w) ++ t).
Proof.
  intros Hw (Hc & h & Hr & Ha & _ & Ht). split.
  { repeat apply Forall_app_2; [apply quote_no_cx| |done].
    constructor; [done|by apply blank_no_cx]. }
  exists ([rbracket] ++ (colon :: w) ++ h). split_and!.
  - intros r Hb. rewrite <- !app_assoc. unfold hide at 1.
    rewrite hide_escapes_string, hide_tokens_string
      by (apply Forall_fmap, Forall_true; intros; apply hidden_string_char).
    cbn [app]. f_equal. change (hide (colon :: w ++ t ++ r) = colon :: w ++ h ++ hide r).
    rewrite hide_punct, hide_puncts, (Hr r Hb) by (done || by apply blank_punct). done.
  - cbn [app run]. change (run true (w ++ h) = Some false). by rewrite run_app, run_blank.
  - cbn [app run]. change (run true (w ++ h) = Some false). by rewrite run_app, run_blank.
  - cbn [app]. repeat constructor. apply Forall_app_2; [by apply blank_tame|done].
Qed.

(** The separator of elements and members: a comma and white space. *)
Lemma fine_join a w ts :
  Forall (fun c => blank c = true) w -> ts <> [] -> Forall (fine a) ts ->
  fine a (join (comma :: w) ts).
Proof.
  intros Hw Hne Hts. induction Hts as [|t ts (Hc & h & Hr & Ha & Hv & Ht) Hts IH]; [done|].
  destruct ts as [|t' ts]; [split; [done|by exists h]|].
  rewrite join_cons by done. destruct (IH ltac:(done)) as (Hc2 & h2 & Hr2 & _ & Hv2 & Ht2). split.
  { repeat apply Forall_app_2; [done| |done]. constructor; [done|by apply blank_no_cx]. }
  exists (h ++ (comma :: w) ++ h2). split_and!.
  - intros r Hb. rewrite <- !app_assoc. rewrite Hr by (cbn; auto). f_equal.
    cbn [app]. rewrite hide_punct, hide_puncts, (Hr2 r Hb) by (done || by apply blank_punct). done.
  - rewrite run_app, Ha. cbn [app run]. change (run true (w ++ h2) = Some false).
    by rewrite run_app, run_blank.
  - rewrite run_app, Hv. cbn [app run]. change (run true (w ++ h2) = Some false).
    by rewrite run_app, run_blank.
  - apply Forall_app_2; [done|]. constructor; [done|].
    apply Forall_app_2; [by apply blank_tame|done].
Qed.

(** The brackets of an array or an object. *)
Definition is_pair (a : bool) (o c : N) : Prop :=
  (a, o, c) = (true, lbracket, rbracket) \/ (a, o, c) = (false, 123, 125)%N.

Lemma fine_enclose a o c w t w' :
  is_pair a o c -> Forall (fun c => blank c = true) w -> Forall (fun c => blank c = true) w' ->
  (w' = [] \/ exists w2, w' = 10%N :: w2) ->
  fine a t -> fine true (o :: w ++ t ++ w' ++ [c]).
Proof.
  intros Hp Hw Hw' Hw2 (Hc & h & Hr & Ha & _ & Ht).
  assert (Ho : punct o = true /\ punct c = true /\ tame o = true /\ tame c = true /\
               cx o = false /\ cx c = false /\ run true [o] = Some a /\
               forall b, run b [c] = Some false) by (by destruct Hp as [[= -> -> ->]|[= -> -> ->]]).
  destruct Ho as (Po & Pc & To & Tc & Co & Cc & Ro & Rc). split.
  { constructor; [done|]. repeat apply Forall_app_2; try done; try by apply blank_no_cx.
    by constructor. }
  assert (Hrun : run true (o :: w ++ h ++ w' ++ [c]) = Some false).
  { change (o :: ?x) with ([o] ++ x). rewrite run_app, Ro, run_app, run_blank, run_app, Ha by done.
    by rewrite run_app, run_blank. }
  exists (o :: w ++ h ++ w' ++ [c]). split_and!; try done.
  - intros r Hb. cbn [app]. rewrite <- !app_assoc. rewrite hide_punct by done. f_equal.
    rewrite hide_puncts by (by apply blank_punct). f_equal. rewrite Hr.
    + f_equal. rewrite hide_puncts by (by apply blank_punct). f_equal. cbn [app].
      by rewrite hide_punct.
    + destruct Hw2 as [->|[w2 ->]]; [|cbn; auto]. cbn.
      destruct Hp as [[= -> -> ->]|[= -> -> ->]]; auto.
  - constructor; [done|]. repeat apply Forall_app_2; try done; try by apply blank_tame.
    by constructor.
Qed.

Lemma fine_empty a o c : is_pair a o c -> fine true [o; c].
Proof.
  intros Hp. assert (punct o = true /\ punct c = true) as [Po Pc]
    by (by destruct Hp as [[= -> -> ->]|[= -> -> ->]]).
  split; [destruct Hp as [[= -> -> ->]|[= -> -> ->]]; by repeat constructor|].
  exists [o; c]. split.
  - intros r _. cbn [app]. by rewrite !hide_punct.
  - destruct Hp as [[= -> -> ->]|[= -> -> ->]]; by repeat constructor.
Qed.

Lemma fine_wrap a o c mind gap ts :
  is_pair a o c -> Forall (fun c => blank c = true) mind -> Forall (fun c => blank c = true) gap ->
  Forall (fine a) ts -> fine true (wrap [o] [c] mind gap ts).
Proof.
  intros Hp Hm Hg Hts. destruct ts as [|t ts]; [by apply (fine_empty a)|].
  assert (Hn : forall w, Forall (fun c => blank c = true) w ->
                         Forall (fun c => blank c = true) (nl ++ w)) by (by constructor).
  set (l := t :: ts) in *. assert (Hl : l <> []) by done. unfold wrap. fold l.
  change (match l with [] => ?x | _ => ?y end) with y.
  destruct (truthy gap).
  - change (js "," ++ nl ++ gap) with (comma :: (nl ++ gap)).
    replace ([o] ++ nl ++ gap ++ join (comma :: nl ++ gap) l ++ nl ++ mind ++ [c])
      with (o :: (nl ++ gap) ++ join (comma :: nl ++ gap) l ++ (nl ++ mind) ++ [c])
      by (cbn [app]; by rewrite <- ?app_assoc).
    apply (fine_enclose a); auto; [right; by exists mind|]. apply fine_join; auto.
  - apply (fine_enclose a o c [] _ []); auto. apply fine_join; auto.
Qed.

Lemma truthy_default (r : option jstr) t :
  truthy r = true -> default t r = default [] r /\ exists s, r = Some s.
Proof. destruct r as [s|]; [|done]. intros _. split; [done|by exists s]. Qed.

Section Print.
Context (toJSON : jval -> option (pkey -> jval)) (rep : replacer) (indent : jstr).
Hypothesis indent_blank : Forall (fun c => blank c = true) indent.

Lemma fine_elems rec l :
  (forall k v t, rec k v = Some (Some t) -> fine true t) ->
  forall i ts, str_elems rec i l = Some ts -> Forall (fine true) ts.
Proof.
  intros Hrec. induction l as [|v l IH]; intros i ts H; simpl in H; [by simplify_eq|].
  destruct (rec (KIndex i) v) as [r|] eqn:E; [|done].
  destruct (str_elems rec (S i) l) as [rest|] eqn:E2; [|done]. simplify_eq.
  constructor; [|by eapply IH]. destruct (truthy r) eqn:Et.
  - destruct r as [t|]; [|done]. by eapply Hrec.
  - apply fine_token; [apply reduces_word; set_solver|by repeat constructor].
Qed.

Lemma fine_members rec gap l :
  (forall k v t, rec k v = Some (Some t) -> fine true t) ->
  forall ts, str_members rec gap l = Some ts -> Forall (fine false) ts.
Proof.
  intros Hrec. induction l as [|[k v] l IH]; intros ts H; simpl in H; [by simplify_eq|].
  destruct (rec (KName k) v) as [r|] eqn:E; [|done].
  destruct (str_members rec gap l) as [rest|] eqn:E2; [|done]. simplify_eq.
  destruct (truthy r) eqn:Et; [|by eapply IH]. destruct r as [t|]; [|done].
  constructor; [|by eapply IH]. apply Hrec in E.
  destruct (truthy gap); [apply (fine_member k [32%N])|apply (fine_member k [])]; try done;
    by repeat constructor.
Qed.

Lemma fine_str fuel : forall mind key holder value t,
  Forall (fun c => blank c = true) mind ->
  str toJSON rep indent fuel mind key holder value = Some (Some t) -> fine true t.
Proof.
  induction fuel as [|fuel IH]; intros mind key holder value t Hm H; [done|].
  cbn [str] in H. assert (Hg : Forall (fun c => blank c = true) (mind ++ indent))
    by (by apply Forall_app_2).
  assert (Hw : forall w, w ∈ [js "true"; js "false"; js "null"] -> fine true w).
  { intros w Hin. apply fine_token; [by apply reduces_word|].
    rewrite !elem_of_cons, elem_of_nil in Hin.
    destruct Hin as [->|[->|[->|[]]]]; by repeat constructor. }
  destruct (prepare toJSON rep key holder value) as [| |b|n|s| |l|ps]; simplify_eq.
  - apply Hw. set_solver.
  - apply Hw. destruct b; set_solver.
  - destruct n as [| |z]; simplify_eq; try (apply Hw; set_solver).
    apply fine_token; [apply reduces_num|apply num_text_no_cx].
  - apply fine_token; [apply reduces_quote|apply quote_no_cx].
  - apply fmap_Some in H as (ts & Hts & [= ->]). apply (fine_wrap true); [by left|done..|].
    eapply fine_elems; [|exact Hts]. intros k v t. by apply IH.
  - apply fmap_Some in H as (ts & Hts & [= ->]). apply (fine_wrap false); [by right|done..|].
    eapply fine_members; [|exact Hts]. intros k v t. by apply IH.
Qed.

End Print.

Lemma escape_cx_id t : Forall (fun c => cx c = false) t -> escape_cx t = t.
Proof.
  unfold escape_cx. induction 1 as [|c t Hc Ht IH]; [done|]. simpl. by rewrite Hc, IH.
Qed.

Lemma fine_looks_safe t h :
  reduces t h -> run true h = Some false -> Forall (fun c => tame c = true) h ->
  looks_safe t = true.
Proof.
  intros Hr Hv Ht. specialize (Hr [] I). change (hide []) with (@nil N) in Hr.
  rewrite !app_nil_r in Hr. unfold hide in Hr at 1.
  unfold looks_safe. rewrite Hr. rewrite forallb_forall. intros c Hc%list_elem_of_In.
  destruct (delete_opens_start h false Hv c Hc) as [Hb Hin].
  rewrite Forall_forall in Ht. specialize (Ht c Hin). rewrite tame_harmless in Ht.
  rewrite bool_decide_false, orb_false_r in Ht by done. done.
Qed.

(** C6. When the indent is white space (or empty, and without the code units that
    [parse] escapes), what [stringify] prints, whatever the [toJSON] methods and the
    replacer do, passes the tests of [parse] unchanged: the text is handed to
    [eval] between parentheses.  An indent of other characters, such as the
    documented [&nbsp;], gives texts that [parse] refuses. *)
Theorem parse_accepts_stringify toJSON fuel value rep sp t eval :
  stringify toJSON fuel value rep sp = Some (Returns (Some t)) ->
  Forall (fun c => blank c = true) (indent_of sp) ->
  parse eval t None =
    match eval (js "(" ++ t ++ js ")") with Some j => Value j | None => SyntaxError end.
Proof.
  intros Hs Hi. assert (Hf : fine true t).
  { unfold stringify in Hs. destruct rep; try done; apply fmap_Some in Hs as (r & Hr & [= <-]);
      by eapply fine_str in Hr. }
  destruct Hf as (Hc & h & Hr & _ & Hv & Ht). unfold parse.
  rewrite (escape_cx_id t Hc), (fine_looks_safe t h Hr Hv Ht). done.
Qed.

Lemma parse_accepts_stringify_witness :
  let t := js "[[1],{" ++ quote (js "a,[") ++ js ":[true]}]" in
  let read (s : jstr) := if decide (s = js "(" ++ t ++ js ")") then Some JNull else None in
  parse read t None = Value JNull.
Proof.
  cbv zeta. rewrite (parse_accepts_stringify (fun _ => None) 9
    (JArr [JArr [JNum (Int 1)]; JObj [(js "a,[", JArr [JBool true])]]) RNone SNone).
  - rewrite decide_True by reflexivity. reflexivity.
  - vm_compute. reflexivity.
  - constructor.
Defined.

(** ** What the tests refuse *)

(** The numbers of JSON, without the rule on leading zeros: an optional minus,
    digits, an optional fraction and an optional exponent. *)
Definition digits (ds : jstr) : Prop := Forall (fun c => (48 <= c <= 57)%N) ds.
Definition is_number (p : jstr) : Prop :=
  exists sign int frac exp, p = sign ++ int ++ frac ++ exp /\
    (sign = [] \/ sign = js "-") /\
    (digits int /\ int <> []) /\
    (frac = [] \/ exists ds, frac = dot :: ds /\ digits ds) /\
    (exp = [] \/ exists e sg ds, exp = e :: sg ++ ds /\ (e = 101 \/ e = 69)%N /\
       (sg = [] \/ sg = js "+" \/ sg = js "-") /\ digits ds /\ ds <> []).

(** A simple value: a string of plain characters, a constant or a number. *)
Definition simple (p : jstr) : Prop :=
  (exists body, p = dquote :: body ++ [dquote] /\ Forall (fun c => string_char c = true) body) \/
  p ∈ [js "true"; js "false"; js "null"] \/
  is_number p.

Lemma span_len_take p s : Forall (fun c => p c = true) (take (span_len p s) s).
Proof.
  induction s as [|c s IH]; [constructor|]. simpl. destruct (p c) eqn:E; simpl; [|constructor].
  by constructor.
Qed.

Lemma span_len_le p s : span_len p s <= length s.
Proof. induction s as [|c s IH]; simpl; [done|]. destruct (p c); simpl; lia. Qed.

Lemma span_digits s : digits (take (span_len digit s) s).
Proof.
  eapply Forall_impl; [apply span_len_take|]. intros c H. by apply bool_decide_eq_true in H.
Qed.

Lemma span_digits_nonempty s n : span_len digit s = S n -> take (span_len digit s) s <> [].
Proof. intros E. destruct s; [done|]. by rewrite E. Qed.

Lemma fraction_shape s :
  take (fraction_len s) s = [] \/ exists ds, take (fraction_len s) s = dot :: ds /\ digits ds.
Proof.
  destruct s as [|c s]; simpl; [by left|]. case_decide as Hc; [right|by left]. subst c.
  exists (take (span_len digit s) s). split; [done|apply span_digits].
Qed.

Lemma exponent_shape s :
  take (exponent_len s) s = [] \/
  exists e sg ds, take (exponent_len s) s = e :: sg ++ ds /\ (e = 101 \/ e = 69)%N /\
    (sg = [] \/ sg = js "+" \/ sg = js "-") /\ digits ds /\ ds <> [].
Proof.
  destruct s as [|e s]; [by left|]. unfold exponent_len. case_decide as He; [|by left].
  destruct s as [|c s]; [by left|]. case_decide as Hc.
  - pose proof (span_digits s) as Hd. pose proof (span_digits_nonempty s) as Hn.
    destruct (span_len digit s) as [|n]; [by left|]. right.
    exists e, [c], (take (S n) s). rewrite Nat.add_comm. split_and!; try done.
    + destruct Hc as [->| ->]; auto.
    + by eapply Hn.
  - pose proof (span_digits (c :: s)) as Hd.
    destruct (span_len digit (c :: s)) as [|n]; [by left|]. right.
    exists e, [], (take (S n) (c :: s)). rewrite Nat.add_comm. split_and!; try done. by left.
Qed.

Lemma unsigned_number sign s n :
  (sign = [] \/ sign = js "-") -> unsigned_len s = Some n -> is_number (sign ++ take n s).
Proof.
  intros Hsign. unfold unsigned_len. pose proof (span_digits s) as Hd.
  pose proof (span_digits_nonempty s) as Hne. destruct (span_len digit s) as [|k]; [done|].
  intros [= <-]. set (f := fraction_len (drop (S k) s)).
  exists sign, (take (S k) s), (take f (drop (S k) s)),
    (take (exponent_len (drop (S k + f) s)) (drop (S k + f) s)).
  split_and!; [|done|done|by eapply Hne|apply fraction_shape|apply exponent_shape].
  f_equal. rewrite app_assoc, take_take_drop, take_take_drop. done.
Qed.

Lemma string_shape s n : string_len s = Some n ->
  exists body, take n s = dquote :: body ++ [dquote] /\ Forall (fun c => string_char c = true) body.
Proof.
  unfold string_len. destruct s as [|q s]; [done|]. case_decide as Hq; [|done]. subst q.
  intros H. destruct (drop (span_len string_char s) s) as [|q2 r] eqn:E; [done|].
  case_decide as Hq; [|done]. subst q2. exists (take (span_len string_char s) s).
  split; [|apply span_len_take]. assert (n = S (span_len string_char s + 1)) as -> by (simplify_eq; lia).
  simpl. f_equal. rewrite <- (take_drop (span_len string_char s) s) at 2. rewrite E.
  rewrite take_app_add'; [done|]. rewrite length_take.
  assert (length (drop (span_len string_char s) s) > 0) by (rewrite E; simpl; lia).
  rewrite length_drop in *. lia.
Qed.

Lemma token_simple s n : token_len s = Some n -> simple (take n s).
Proof.
  unfold token_len. destruct (string_len s) as [m|] eqn:E.
  { intros [= ->]. left. by apply string_shape. }
  intros H. right.
  destruct (starts_with (js "true") s) eqn:E1.
  { simplify_eq. apply starts_with_spec in E1 as [r ->]. left. set_solver. }
  destruct (starts_with (js "false") s) eqn:E2.
  { simplify_eq. apply starts_with_spec in E2 as [r ->]. left. set_solver. }
  destruct (starts_with (js "null") s) eqn:E3.
  { simplify_eq. apply starts_with_spec in E3 as [r ->]. left. set_solver. }
  right. unfold number_len in H. destruct s as [|c s]; [done|]. case_decide as Hc.
  - apply fmap_Some in H as (m & Hm & ->). subst c.
    apply (unsigned_number (js "-")); [by right|done].
  - apply (unsigned_number []); [by left|done].
Qed.

Lemma replace_drop len ch n s : replace_all len ch n s = replace_all len ch 0 (drop n s).
Proof.
  revert n. induction s as [|c s IH]; intros [|n]; try done. cbn [replace_all drop]. apply IH.
Qed.

(** A piece of a text: a simple value, or a single character between values. *)
Inductive piece := Token (p : jstr) | Mark (c : N).
Definition piece_text (p : piece) : jstr := match p with Token t => t | Mark c => [c] end.
Definition text_of (ps : list piece) : jstr := concat (map piece_text ps).

(** A bracket, a brace, a comma, a colon or white space. *)
Definition data_piece (p : piece) : Prop :=
  match p with Token t => simple t | Mark c => c ∈ js "{}[],:" \/ white c = true end.
Definition blank_piece (p : piece) : Prop :=
  match p with Token _ => False | Mark c => white c = true end.

(** Where a value may start: at the start of the text, or after a colon, a comma
    or an open bracket. *)
Definition value_place (ps : list piece) : Prop :=
  Forall blank_piece ps \/
  exists a m b, ps = a ++ Mark m :: b /\ m ∈ js ":,[" /\ Forall blank_piece b.

(** What the replacement of the tokens leaves of the pieces. *)
Definition shadow (ps : list piece) : jstr :=
  map (fun p => match p with Token _ => rbracket | Mark c => c end) ps.

(** A text whose reduction is tame is a sequence of simple values and tame characters. *)
Lemma hide_tokens_pieces n : forall s, length s <= n ->
  Forall (fun c => tame c = true) (hide_tokens s) ->
  exists ps, s = text_of ps /\ hide_tokens s = shadow ps /\
    Forall (fun p => match p with Token t => simple t | Mark c => tame c = true end) ps.
Proof.
  induction n as [|n IH]; intros s Hn Ht.
  { exists []. destruct s; [done|simpl in Hn; lia]. }
  destruct s as [|c s]; [by exists []|]. simpl in Hn. unfold hide_tokens in Ht |- *.
  cbn [replace_all] in Ht |- *. pose proof (token_simple (c :: s)) as Hs.
  assert (Hone : forall t, Forall (fun c => tame c = true) (c :: t) -> t = hide_tokens s ->
    exists ps, c :: s = text_of ps /\ c :: t = shadow ps /\
      Forall (fun p => match p with Token t => simple t | Mark c => tame c = true end) ps).
  { intros t [Hc Hr]%Forall_cons ->. destruct (IH s ltac:(lia) Hr) as (ps & -> & -> & Hps).
    exists (Mark c :: ps). by repeat split; [..|constructor]. }
  destruct (token_len (c :: s)) as [[|l]|]; try (by eapply Hone).
  apply Forall_cons in Ht as [_ Ht]. rewrite replace_drop in Ht |- *.
  destruct (IH (drop l s)) as (ps & Hps & Hsh & Hall); [rewrite length_drop; lia|done|].
  exists (Token (take (S l) (c :: s)) :: ps). unfold text_of, shadow. cbn [map concat].
  fold (text_of ps) (shadow ps). unfold hide_tokens in Hsh. rewrite <- Hps, <- Hsh.
  repeat split; [|constructor; [by apply Hs|done]]. cbn [piece_text take app]. by rewrite take_drop.
Qed.

Lemma white_tame c : white c = true -> tame c = true.
Proof. intros Hw. unfold tame. by rewrite Hw, !orb_true_r. Qed.

Lemma brackets_tame s : Forall (fun c => tame c = true) (take (brackets_len 0 0 s) s).
Proof.
  induction s as [|c s IH]; [constructor|]. cbn [brackets_len].
  case_decide as Hc; [|destruct (white c) eqn:Hw; [|constructor]];
    rewrite brackets_len_shift; destruct (brackets_len 0 0 s) as [|n]; try constructor.
  - by subst c.
  - constructor.
  - by subst c.
  - exact IH.
  - by apply white_tame.
  - exact IH.
Qed.

Lemma open_tame start s : Forall (fun c => tame c = true) (take (open_len start s) s).
Proof.
  assert (Hnot : Forall (fun c => tame c = true) (take (open_len false s) s)).
  { unfold open_len. destruct s as [|c s]; [constructor|]. case_decide as Hc; [|constructor].
    pose proof (brackets_tame s) as Hb. destruct (brackets_len 0 0 s) as [|n]; [constructor|].
    constructor; [|done]. by destruct Hc as [->| ->]. }
  destruct start; [|done]. pose proof (brackets_tame s) as Hb. unfold open_len in *.
  by destruct (brackets_len 0 0 s).
Qed.

Lemma delete_opens_tame s : forall start skip,
  forallb harmless (delete_opens start skip s) = true -> Forall (fun c => tame c = true) (drop skip s).
Proof.
  induction s as [|c s IH]; intros start skip H; [by destruct skip|].
  destruct skip as [|k]; cbn [delete_opens] in H; [|by apply (IH false)].
  pose proof (open_tame start (c :: s)) as Ho. destruct (open_len start (c :: s)) as [|l].
  - cbn [forallb] in H. apply andb_true_iff in H as [Hc H]. constructor; [by rewrite tame_harmless, Hc|].
    by apply (IH false 0).
  - apply IH in H. rewrite <- (take_drop (S l) (c :: s)). by apply Forall_app_2.
Qed.

Lemma run_arm h b : run false h = Some b -> exists b', run true h = Some b'.
Proof.
  revert b. induction h as [|c h IH]; intros b; cbn [run]; [by exists true|].
  case_decide; [done|]. destruct (white c); [apply IH|by eexists].
Qed.

Lemma run_brackets s :
  exists b, run true (take (brackets_len 0 0 s) s) = Some b /\
            (0 < brackets_len 0 0 s -> b = true).
Proof.
  induction s as [|c s (b & Hb & Hp)]; [by exists true|]. cbn [brackets_len].
  case_decide as Hc; [|destruct (white c) eqn:Hw; [|by exists true]];
    rewrite brackets_len_shift; destruct (brackets_len 0 0 s) as [|n] eqn:E;
    cbn [Nat.add take run]; rewrite ?decide_True by done; try (by exists true).
  - exists b. rewrite Hb. split; [done|]. intros _. apply Hp. lia.
  - rewrite decide_False, Hw by done. exists b. rewrite Hb. split; [done|]. intros _. apply Hp. lia.
Qed.

(** A run of brackets that the deletion removes starts where a value may. *)
Lemma run_open start s :
  0 < open_len start s -> run start (take (open_len start s) s) = Some true.
Proof.
  assert (Hnot : forall a, 0 < open_len false s -> run a (take (open_len false s) s) = Some true).
  { intros a. unfold open_len. destruct s as [|c s]; [simpl; lia|]. case_decide as Hc; [|lia].
    destruct (run_brackets s) as (b & Hb & Hp). destruct (brackets_len 0 0 s) as [|n]; [lia|].
    intros _. cbn [take run]. rewrite decide_False by (by destruct Hc as [->| ->]).
    replace (white c) with false by (by destruct Hc as [->| ->]).
    rewrite bool_decide_true by done. rewrite Hb, Hp by lia. done. }
  destruct start; [|apply Hnot]. destruct (run_brackets s) as (b & Hb & Hp).
  unfold open_len in *. destruct (brackets_len 0 0 s) as [|n]; [apply Hnot|].
  intros _. rewrite Hb, Hp by lia. done.
Qed.

(** The test passes only when every open bracket stands where a value may start. *)
Lemma delete_opens_run n : forall start s, length s <= n ->
  forallb harmless (delete_opens start 0 s) = true -> exists b, run start s = Some b.
Proof.
  induction n as [|n IH]; intros start s Hn H; (destruct s as [|c s]; [by eexists|]).
  { simpl in Hn. lia. }
  simpl in Hn. cbn [delete_opens] in H. pose proof (run_open start (c :: s)) as Ho.
  destruct (open_len start (c :: s)) as [|l].
  - cbn [forallb] in H. apply andb_true_iff in H as [Hc H].
    apply IH in H as [b Hb]; [|lia]. cbn [run]. rewrite decide_False by (by intros ->).
    destruct (white c); [destruct start|destruct (bool_decide (c = colon \/ c = comma))];
      eauto using run_arm.
  - rewrite delete_skip in H. apply IH in H as [b Hb]; [|rewrite length_drop; lia].
    rewrite <- (take_drop (S l) (c :: s)), run_app, Ho by lia. by eapply run_arm.
Qed.

Lemma run_value_place ps : forall a,
  run a (shadow ps) = Some true ->
  (a = true /\ Forall blank_piece ps) \/
  exists l m r, ps = l ++ Mark m :: r /\ m ∈ js ":,[" /\ Forall blank_piece r.
Proof.
  induction ps as [|p ps IH]; intros a; [intros [= ->]; by left|].
  unfold shadow. cbn [map run]. fold (shadow ps).
  set (c := match p with Token _ => rbracket | Mark c => c end).
  assert (Hlater : (exists l m r, ps = l ++ Mark m :: r /\ m ∈ js ":,[" /\ Forall blank_piece r) ->
    exists l m r, p :: ps = l ++ Mark m :: r /\ m ∈ js ":,[" /\ Forall blank_piece r).
  { intros (l & m & r & -> & H). by exists (p :: l), m, r. }
  case_decide as Hc.
  - destruct a; [|done]. intros [[_ Hb]|H]%IH; right; [|auto].
    destruct p as [t|m]; [done|]. exists [], m, ps. repeat split; [|done].
    change (m = lbracket) in Hc. rewrite Hc. apply (bool_decide_unpack _). by vm_compute.
  - destruct (white c) eqn:Hw.
    + intros [[-> Hb]|H]%IH; [left|right; auto]. split; [done|]. constructor; [|done].
      by destruct p as [t|m].
    + intros [[Hm Hb]|H]%IH; right; [|auto]. apply bool_decide_eq_true in Hm.
      destruct p as [t|m]; [by destruct Hm|]. exists [], m, ps. repeat split; [|done].
      change (m = colon \/ m = comma) in Hm. destruct Hm as [->| ->]; apply (bool_decide_unpack _); by vm_compute.
Qed.

Lemma tame_data c : tame c = true -> c ∈ js "{}[],:" \/ white c = true.
Proof.
  unfold tame. intros [H|H]%orb_true_iff; [left|by right].
  apply existsb_exists in H as (x & Hx & ->%N.eqb_eq). by apply list_elem_of_In.
Qed.

(** C5. [parse] evaluates nothing but data: a text that it does not refuse is, once
    its string escapes are hidden, a sequence of simple values (strings without
    quotes, backslashes and line ends inside, [true], [false], [null], numbers of
    the JSON grammar up to leading zeros and an empty fraction) and of brackets,
    braces, commas, colons and white space; and every open bracket stands at the
    start of the text or after a colon, a comma or another open bracket, so it
    opens an array and never indexes a value.  No identifier, operator or
    parenthesis is left outside the strings for [eval] to run. *)
Theorem parse_evaluates_data eval text reviver v :
  parse eval text reviver = Value v ->
  exists pieces, hide_escapes (escape_cx text) = text_of pieces /\
    Forall data_piece pieces /\
    (forall before after, pieces = before ++ Mark lbracket :: after -> value_place before).
Proof.
  unfold parse. destruct (looks_safe (escape_cx text)) eqn:E; [|done]. intros _.
  unfold looks_safe in E. destruct (delete_opens_run _ _ _ (le_n _) E) as [b Hb].
  apply delete_opens_tame in E. destruct (hide_tokens_pieces _ _ (le_n _) E) as (ps & Hps & Hsh & Hall).
  exists ps. split_and!; [done| |].
  - eapply Forall_impl; [exact Hall|]. intros [t|c]; [done|]. apply tame_data.
  - intros before after ->. rewrite Hsh in Hb. unfold shadow in Hb. rewrite map_app, run_app in Hb.
    fold (shadow before) in Hb. destruct (run true (shadow before)) as [[|]|] eqn:Er; [|done..].
    by apply run_value_place in Er as [[_ ?]|?]; [left|right].
Qed.

(** What is evaluated of ["[1.5e3,{q:true}]"], [q] a quoted name. *)
Lemma parse_evaluates_data_witness :
  let text := js "[1.5e3,{" ++ quote (js "a[") ++ js ":true}]" in
  exists pieces, hide_escapes text = text_of pieces /\
    Forall data_piece pieces /\
    (forall before after, pieces = before ++ Mark lbracket :: after -> value_place before).
Proof.
  cbv zeta.
  apply (parse_evaluates_data (fun _ => Some JNull)
    (js "[1.5e3,{" ++ quote (js "a[") ++ js ":true}]") None JNull). vm_compute. reflexivity.
Defined.

(** An indexed value is refused, and so is what only looks like a number. *)
Example indexing_refused :
  parse (fun _ => Some JNull) (quote (js "a") ++ js "[0]") None = SyntaxError /\
  parse (fun _ => Some JNull) (js "[--1]") None = SyntaxError.
Proof. vm_compute. done. Qed.

(** The characters of data outside strings. *)
Definition number_char (c : N) : bool := digit c || existsb (N.eqb c) [dot; 43; 45; 101; 69]%N.
Definition data_char (c : N) : bool :=
  tame c || number_char c || existsb (N.eqb c) (js "truefalsenull").

Lemma digits_chars ds : digits ds -> Forall (fun c => number_char c = true) ds.
Proof.
  intros H. eapply Forall_impl; [exact H|]. intros c Hc. unfold number_char, digit, in_range.
  by rewrite bool_decide_true.
Qed.

Lemma number_chars p : is_number p -> Forall (fun c => number_char c = true) p.
Proof.
  intros (sign & int & frac & exp & -> & Hs & [Hi _] & Hf & He).
  repeat apply Forall_app_2; [|by apply digits_chars| |].
  - destruct Hs as [->| ->]; repeat constructor.
  - destruct Hf as [->|(ds & -> & Hd)]; constructor; [done|by apply digits_chars].
  - destruct He as [->|(e & sg & ds & -> & He & Hsg & Hd & _)]; constructor.
    + by destruct He as [->| ->].
    + apply Forall_app_2; [|by apply digits_chars].
      destruct Hsg as [->|[->| ->]]; repeat constructor.
Qed.

Lemma simple_char p c : simple p -> dquote ∉ p -> c ∈ p -> data_char c = true.
Proof.
  unfold data_char. intros [(body & -> & _)|[Hw|Hn%number_chars]] Hq Hc.
  - destruct Hq. by left.
  - assert (H : existsb (N.eqb c) (js "truefalsenull") = true); [|by rewrite H, !orb_true_r].
    rewrite !elem_of_cons, elem_of_nil in Hw.
    destruct Hw as [->|[->|[->|[]]]];
      repeat (apply elem_of_cons in Hc as [->|Hc]; [reflexivity|]); by apply elem_of_nil in Hc.
  - rewrite Forall_forall in Hn. rewrite (Hn c Hc), orb_true_r. done.
Qed.

(** Code is refused: if a text without quotes and backslashes holds one
    character that is no data character (a parenthesis, an equals sign, a semicolon,
    an operator, most letters), [parse] throws a SyntaxError and [eval] never runs. *)
Theorem parse_refuses_code eval text reviver c :
  dquote ∉ text -> backslash ∉ text -> Forall (fun c => cx c = false) text ->
  c ∈ text -> data_char c = false -> parse eval text reviver = SyntaxError.
Proof.
  intros Hq Hb Hx Hc Hd. unfold parse. rewrite (escape_cx_id text Hx).
  destruct (looks_safe text) eqn:E; [|done]. unfold looks_safe in E. apply delete_opens_tame in E.
  destruct (hide_tokens_pieces _ _ (le_n _) E) as (ps & Hps & _ & Hall).
  pose proof (hide_escapes_app text [] Hb) as Hh. change (hide_escapes []) with (@nil N) in Hh.
  rewrite !app_nil_r in Hh. rewrite Hh in Hps. rewrite Hps in Hc, Hq.
  unfold text_of in Hc, Hq. apply list_elem_of_In, in_concat in Hc as (t & Ht & Hc).
  apply in_map_iff in Ht as (p & <- & Hp). apply list_elem_of_In in Hc.
  apply list_elem_of_In in Hp as Hp'. rewrite Forall_forall in Hall. exfalso.
  specialize (Hall p Hp'). destruct p as [t|c']; simpl in Hall, Hc.
  - apply (simple_char t c) in Hall; [congruence| |done]. intros Hin. destruct Hq.
    apply list_elem_of_In, in_concat. exists t. split; [|by apply list_elem_of_In].
    apply in_map_iff. by exists (Token t).
  - rename Hall into Ht. apply list_elem_of_singleton in Hc as ->. unfold data_char in Hd. by rewrite Ht in Hd.
Qed.

Lemma parse_refuses_code_witness :
  parse (fun _ => Some JNull) (js "alert(1)") None = SyntaxError.
Proof.
  apply (parse_refuses_code (fun _ => Some JNull) (js "alert(1)") None 40%N); try reflexivity;
    try (apply (bool_decide_unpack _); vm_compute; exact I).
Defined.

End ParseFacts.
