(* ===== verification/Loader.v ===== *)
(** The RequireJS loader [js/require.js]: the state of a context ([newContext]),
    its [Module] objects and their life cycle ([init], [enable], [fetch], [check],
    [emit], loader plugins), the queues of [define] calls, cycle breaking and
    timeouts ([checkLoaded]), and the entry points ([require], [define],
    [completeLoad], script events, [undef], [configure]).

    Objects that the code shares are references into the state: modules, event
    objects, listener arrays and the [waitAry] arrays.  Closures are data
    ([listener], [errback], [factory]); user code is a tree of its calls to the
    loader ([prog]).  The operations call each other through [exec], which has
    fuel; running out of it is an exception that user code cannot catch, so that
    the state in which it happens stays visible.

    The model is that of a browser without the [attachEvent] path
    ([useInteractive] is false), one context, and names that are no properties
    of [Object.prototype] and no integers (enumeration order). *)

From S2P Require Import Prelude ModuleNames.
From coqutil Require Import Datatypes.RecordSettersUsingExistingGetters.

(** * Values, errors, user code *)

(** A module value: undefined, the [n]-th [exports] object the loader made, or a
    value of user code. *)
Inductive val := VUndef | VObj (n : nat) | VUser (n : nat).
#[export] Instance val_eq_dec : EqDecision val.
Proof. solve_decision. Defined.

(** The [requireType] of an error, or what user code threw. *)
Inductive err_kind :=
  | KRequireArgs | KNotLoaded (id : jstr) | KMismatch | KTimeout (ids : list jstr)
  | KNoDefine (id : jstr) | KScript | KType | KUser (n : nat).
Record error := Error { e_kind : err_kind; e_modules : list jstr }.

(** The arguments of a factory: a [require] function bound to a module map, a
    CommonJS [module] object, or a module value. *)
Inductive arg := ARequire (rel : option modmap) | AModule (id : jstr) (exports : val) | AVal (v : val).

(** The [load] callback that [callPlugin] hands to a plugin: its module, and the
    [id] it closes over. *)
Record load_fn := LoadFn { l_mod : nat; l_id : jstr }.

(** User code: it returns (its value, and what it assigned to [module.exports], if
    it did), throws, or calls the loader and goes on with the answer or with the
    exception it caught.  [rel] is the map of the [require] function it calls,
    [None] for the global one; [Parent] is the [require] a plugin is given. *)
Inductive prog :=
  | Return (r : val) (module_exports : option val)
  | Throw (n : nat)
  | Require (rel : option modmap) (name : jstr) (k : val + error -> prog)
  | RequireAll (rel : option modmap) (deps : list jstr) (cb : factory)
      (eb : option (error -> prog)) (k : unit + error -> prog)
  | Parent (deps : jstr + list jstr) (cb : factory) (k : unit + error -> prog)
  | Define (name : option jstr) (deps : option (list jstr)) (cb : factory) (k : prog)
  | Undef (name : jstr) (k : prog)
  | OnLoad (l : load_fn) (v : val) (k : unit + error -> prog)
  | OnLoadError (l : load_fn) (n : nat) (k : unit + error -> prog)
  | FromText (name : jstr) (text : prog) (k : unit + error -> prog)
(** A factory or callback: a function (with its [length], and the names that its
    text requires, as [cjsRequireRegExp] finds them), a literal, the function of
    [makeShimExports] for a global, or the callback of [fetch] for a shim. *)
with factory :=
  | FFun (arity : nat) (requires : list jstr) (f : list arg -> prog)
  | FVal (v : val)
  | FGlobal (name : jstr)
  | FFetch (m : nat) (prefixed : bool).

Definition isFunction (f : factory) : bool := match f with FVal _ => false | _ => true end.

(** An errback: a user function, or the [bind] that emits an error on a module. *)
Inductive errback := EbUser (f : error -> prog) | EbEmit (m : nat).

(** The listeners that the loader registers, one constructor per closure. *)
Inductive listener :=
  | LDep (m : nat) (i : nat)                (* enable: dependency [i] is there *)
  | LPlugin (m : nat) (map : modmap)        (* callPlugin: the plugin is there *)
  | LUnnorm (m : nat)                       (* callPlugin: the normalized resource is there *)
  | LErrback (eb : errback).
Inductive event := EvDefined (v : val) | EvError (e : error).

(** An element of [depMaps]: a name, or the map [enable] makes of it. *)
Inductive dep := DName (s : jstr) | DMap (map : modmap).

(** * State *)

(** A [Module] object; [m_module] is [this.module.exports].  [m_delivered] is a ghost:
    the values that came for the dependencies, by index, in the order they came. *)
Record module := Mod {
  m_events : nat; m_map : modmap; m_shim : option shim_cfg;
  m_depExports : list arg; m_depMaps : list dep; m_skipMap : bool;
  m_depMatched : gset nat; m_pluginMaps : list (jstr * modmap); m_depCount : Z;
  m_inited : bool; m_enabled : bool; m_enabling : bool; m_fetched : bool;
  m_defining : bool; m_defined : bool; m_defineEmitted : bool;
  m_defineEmitComplete : bool; m_waitPushed : bool; m_ignore : bool;
  m_usingExports : bool; m_error : option error; m_errback : option errback;
  m_factory : factory; m_exports : val; m_module : option val;
  m_delivered : list (nat * val) }.

(** An element of the queues of [define] calls. *)
Record qitem := QItem { q_name : option jstr; q_deps : list jstr; q_factory : factory }.

(** Ghost records of what happened: the factory of a module was called, with the
    [depMaps] and [depExports] it then had and the values that had come for it; a script was requested, or its URL was
    forgotten by [undef]. *)
Record run_record := Run { r_mod : nat; r_deps : list dep; r_args : list arg;
                           r_delivered : list (nat * val) }.
Inductive load_record := Requested (url : jstr) | Forgotten (url : jstr).
#[export] Instance load_record_eq_dec : EqDecision load_record.
Proof. solve_decision. Defined.

(** The context, the globals of the file that it uses, and the outside world: the
    script elements, the clock, the pending [checkLoaded] timer and the global
    variables; [runs] and [loads] are ghosts. *)
Record state := State {
  cfg : config; registry : list (jstr * nat); undefEvents : gmap jstr nat;
  defQueue : list qitem; globalDefQueue : list qitem; defined : gmap jstr val;
  urlFetched : gset jstr; cnt : counters; waitAry : nat; waitCount : Z;
  inCheckLoaded : bool; checkTimer : bool; startTime : Z;
  mods : gmap nat module; events : gmap nat (gmap jstr nat);
  arrays : gmap nat (list listener); waits : gmap nat (list nat); next : nat;
  scripts : list (jstr * jstr); now : Z; globals : gmap jstr val;
  runs : list run_record; loads : list load_record }.

Definition init_state (c : config) : state :=
  {| cfg := c; registry := []; undefEvents := ∅; defQueue := []; globalDefQueue := [];
     defined := ∅; urlFetched := ∅; cnt := counters_init; waitAry := 0; waitCount := 0;
     inCheckLoaded := false; checkTimer := false; startTime := 0; mods := ∅; events := ∅;
     arrays := ∅; waits := {[0 := []]}; next := 1; scripts := []; now := 0; globals := ∅;
     runs := []; loads := [] |}.

(** What user code provides: which of its values are truthy, the methods of plugin
    modules, and the functions of shim configurations. *)
Class Env := {
  user_truthy : nat -> bool;
  plugin_normalize : val -> option (jstr -> (jstr -> jstr) -> jstr);
  plugin_load : val -> option (jstr -> load_fn -> prog);
  shim_fun : nat -> list arg -> prog }.
#[export] Instance val_truthy `{Env} : Truthy val :=
  fun v => match v with VUndef => false | VObj _ => true | VUser n => user_truthy n end.

(** * Operations that may throw *)

Inductive exn := Err (e : error) | OutOfFuel.
Definition M (A : Type) : Type := state -> state * (A + exn).
#[export] Instance M_ret : MRet M := fun A a s => (s, inl a).
#[export] Instance M_bind : MBind M := fun A B f m s =>
  match m s with (s', inl a) => f a s' | (s', inr e) => (s', inr e) end.
Definition throw {A} (e : exn) : M A := fun s => (s, inr e).
Definition type_error : error := Error KType [].
(** [try { } catch]: the outcome as a value. *)
Definition try {A} (m : M A) : M (A + error) := fun s =>
  match m s with
  | (s', inl a) => (s', inl (inl a))
  | (s', inr (Err e)) => (s', inl (inr e))
  | (s', inr OutOfFuel) => (s', inr OutOfFuel)
  end.
Definition gets {A} (f : state -> A) : M A := fun s => (s, inl (f s)).
Definition modify (f : state -> state) : M unit := fun s => (f s, inl tt).
Definition skip : M unit := mret tt.

(** [ary[i] = x], and [ary.push] of holes before it. *)
Definition set_at {A} (d : A) (i : nat) (x : A) (l : list A) : list A :=
  <[i := x]> (l ++ replicate (S i - length l) d).

(** [obj[prop]], [delete obj[prop]] and a new property, in enumeration order. *)
Definition prop_get {A} (k : jstr) (o : list (jstr * A)) : option A :=
  snd <$> find (fun p => bool_decide (p.1 = k)) o.
Definition prop_del {A} (k : jstr) (o : list (jstr * A)) : list (jstr * A) :=
  List.filter (fun p => negb (bool_decide (p.1 = k))) o.
Definition prop_set {A} (k : jstr) (v : A) (o : list (jstr * A)) : list (jstr * A) :=
  if present (prop_get k o) then map (fun p => if decide (p.1 = k) then (k, v) else p) o
  else o ++ [(k, v)].

(** A reference that is not allocated reads as this module (there is none). *)
Definition nowhere : modmap := ModMap None [] None false None [] false [].
Definition blank (ev : nat) (map : modmap) (shim : option shim_cfg) : module :=
  {| m_events := ev; m_map := map; m_shim := shim; m_depExports := []; m_depMaps := [];
     m_skipMap := false; m_depMatched := ∅; m_pluginMaps := []; m_depCount := 0;
     m_inited := false; m_enabled := false; m_enabling := false; m_fetched := false;
     m_defining := false; m_defined := false; m_defineEmitted := false;
     m_defineEmitComplete := false; m_waitPushed := false; m_ignore := false;
     m_usingExports := false; m_error := None; m_errback := None; m_factory := FVal VUndef;
     m_exports := VUndef; m_module := None; m_delivered := [] |}.
Definition mod_at (s : state) (m : nat) : module := default (blank 0 nowhere None) (mods s !! m).

Definition get (m : nat) : M module := gets (fun s => mod_at s m).
Definition upd (m : nat) (f : module -> module) : M unit :=
  modify (fun s => s <| mods ::= alter f m |>).
Definition reg (id : jstr) : M (option nat) := gets (fun s => prop_get id (registry s)).

(** The calls that close a cycle between the operations. *)
Inductive call :=
  | CInit (m : nat) (deps : list jstr) (skipMap : bool) (f : factory) (eb : option errback)
      (ignore enabled : bool)
  | CEnable (m : nat)
  | CCheck (m : nat) (silent : bool)
  | CEmit (arr : nat) (i : nat) (e : event)
  | CListener (l : listener) (e : event)
  | CRequire (deps : list jstr) (skipMap : bool) (cb : factory) (eb : option errback)
      (rel : option modmap)
  | CCheckLoaded
  | CWaits (arr : nat) (i : nat)
  | CCompleteLoad (name : jstr).

Definition s_error : jstr := js "error".
Definition s_defined : jstr := js "defined".

Section Operations.
Context {E : Env} (exec : call -> M unit).

(** ** Allocation, events *)

Definition fresh : M nat :=
  n ← gets next; modify (fun s => s <| next := S n |>) ;; mret n.

(** [new context.Module(depMap)]. *)
Definition new_Module (map : modmap) : M nat :=
  u ← gets undefEvents;
  c ← gets cfg;
  ev ← match u !! mm_id map with
       | Some ev => mret ev
       | None => ev ← fresh; modify (fun s => s <| events ::= insert ev ∅ |>) ;; mret ev
       end;
  m ← fresh;
  modify (fun s => s <| mods ::= insert m (blank ev map (shims c !! mm_id map)) |>) ;;
  mret m.

Definition getModule (depMap : modmap) : M nat :=
  r ← reg (mm_id depMap);
  match r with
  | Some m => mret m
  | None =>
      m ← new_Module depMap;
      modify (fun s => s <| registry ::= fun r => r ++ [(mm_id depMap, m)] |>) ;; mret m
  end.

(** [this.events[name]]. *)
Definition listeners_of (m : nat) (name : jstr) : M (option nat) :=
  gets (fun s => (events s !! m_events (mod_at s m)) ≫= fun ev => ev !! name).

(** [Module.prototype.on]. *)
Definition module_on (m : nat) (name : jstr) (cb : listener) : M unit :=
  cbs ← listeners_of m name;
  arr ← match cbs with
        | Some arr => mret arr
        | None =>
            arr ← fresh;
            mo ← get m;
            modify (fun s => s <| events ::= alter (insert name arr) (m_events mo) |>
                               <| arrays ::= insert arr [] |>) ;;
            mret arr
        end;
  modify (fun s => s <| arrays ::= alter (fun l => l ++ [cb]) arr |>).

(** [emit]: the loop of [each] is [CEmit]; the error listeners are removed. *)
Definition emit (m : nat) (name : jstr) (evt : event) : M unit :=
  cbs ← listeners_of m name;
  match cbs with Some arr => exec (CEmit arr 0 evt) | None => skip end ;;
  if decide (name = s_error) then
    mo ← get m; modify (fun s => s <| events ::= alter (delete name) (m_events mo) |>)
  else skip.

Definition emit_from (arr i : nat) (evt : event) : M unit :=
  l ← gets (fun s => (arrays s !! arr) ≫= fun l => l !! i);
  match l with
  | Some cb => exec (CListener cb evt) ;; exec (CEmit arr (S i) evt)
  | None => skip
  end.

(** The test of [on]: the module has its value and told everybody. *)
Definition settled (depMap : modmap) : M (option val) :=
  d ← gets (fun s => defined s !! mm_id depMap);
  r ← reg (mm_id depMap);
  done_ ← match r with Some m => mo ← get m; mret (m_defineEmitComplete mo) | None => mret true end;
  mret (if done_ : bool then d else None).

Definition on_defined (depMap : modmap) (fn : listener) : M unit :=
  d ← settled depMap;
  match d with
  | Some v => exec (CListener fn (EvDefined v))
  | None => m ← getModule depMap; module_on m s_defined fn
  end.

Definition on_error (depMap : modmap) (fn : errback) : M unit :=
  d ← settled depMap;
  match d with
  | Some _ => skip
  | None => m ← getModule depMap; module_on m s_error (LErrback fn)
  end.

(** [onError(err)] without an errback: the modules that the error names are told;
    if none has error listeners, [req.onError] throws. *)
Fixpoint notify (ids : list jstr) (err : error) : M bool :=
  match ids with
  | [] => mret false
  | id :: ids' =>
      r ← if truthy id then reg id else mret None;
      told ← match r with
             | Some m =>
                 upd m (fun mo => mo <| m_error := Some err |>) ;;
                 l ← listeners_of m s_error;
                 match l with
                 | Some _ => emit m s_error (EvError err) ;; mret true
                 | None => mret false
                 end
             | None => mret false
             end;
      rest ← notify ids' err;
      mret (told || rest)
  end.
Definition onError (err : error) : M unit :=
  notified ← notify (e_modules err) err;
  if notified : bool then skip else throw (Err err).

(** [makeModuleMap], on the state. *)
Definition mk_map (name : option jstr) (parentMap : option modmap)
    (isNormalized applyMap : bool) : M modmap := fun s =>
  let '(map, c) := ModuleMaps.makeModuleMap plugin_normalize (cfg s) (defined s) (cnt s)
                     name parentMap isNormalized applyMap in
  (s <| cnt := c |>, inl map).

(** ** The queues *)

(** [takeGlobalQueue]: [splice] at [defQueue.length - 1], which is from the end of
    an empty array. *)
Definition takeGlobalQueue : M unit := modify (fun s =>
  match globalDefQueue s with
  | [] => s
  | g => s <| defQueue := splice (length (defQueue s) - 1) 0 g (defQueue s) |>
           <| globalDefQueue := [] |>
  end).

Definition shift : M (option qitem) :=
  q ← gets defQueue;
  match q with
  | [] => mret None
  | x :: q' => modify (fun s => s <| defQueue := q' |>) ;; mret (Some x)
  end.

Definition callGetModule (name : jstr) (deps : list jstr) (f : factory) : M unit :=
  map ← mk_map (Some name) None true false;
  m ← getModule map;
  exec (CInit m deps false f None false false).

(** ** Removal *)

(** [removeWaiting]. *)
Definition removeWaiting (id : jstr) : M unit :=
  modify (fun s => s <| registry ::= prop_del id |>) ;;
  modify (fun s =>
    let ary := default [] (waits s !! waitAry s) in
    match list_find (fun m => mm_id (m_map (mod_at s m)) = id) ary with
    | Some (i, m) =>
        s <| waits ::= insert (waitAry s) (splice i 1 [] ary) |>
          <| waitCount ::= fun n => if m_defined (mod_at s m) then n else (n - 1)%Z |>
    | None => s
    end).

Definition undef (id : jstr) : M unit :=
  map ← mk_map (Some id) None true false;
  r ← reg id;
  modify (fun s => s <| defined ::= delete id |> <| undefEvents ::= delete id |>) ;;
  modify (fun s =>
    match mm_url map with
    | Some url => s <| urlFetched ::= fun u => u ∖ {[url]} |>
                    <| loads ::= fun l => l ++ [Forgotten url] |>
    | None => s
    end) ;;
  match r with
  | Some m =>
      mo ← get m;
      l ← listeners_of m s_defined;
      (match l with
       | Some _ => modify (fun s => s <| undefEvents ::= insert id (m_events mo) |>)
       | None => skip
       end) ;;
      removeWaiting id
  | None => skip
  end.

(** [removeScript]: the first script element of that module. *)
Definition removeScript (name : jstr) : M unit := modify (fun s =>
  match list_find (fun p : jstr * jstr => p.1 = name) (scripts s) with
  | Some (i, _) => s <| scripts ::= splice i 1 [] |>
  | None => s
  end).

Definition hasPathFallback (id : jstr) : M bool :=
  c ← gets cfg;
  match paths c !! id with
  | Some (PathArr (_ :: ((_ :: _) as rest))) =>
      removeScript id ;;
      modify (fun s => s <| cfg := c <| paths ::= insert id (PathArr rest) |> |>) ;;
      undef id ;;
      exec (CRequire [id] false (FVal VUndef) None None) ;;
      mret true
  | _ => mret false
  end.
(** ** User code *)

(** [define(name, deps, callback)]: what it pushes on the global queue. *)
Definition define_item (name : option jstr) (deps : option (list jstr)) (cb : factory) : qitem :=
  let deps := default [] deps in
  match deps, cb with
  | [], FFun (S n) requires _ =>
      QItem name ((match n with O => [js "require"]
                   | _ => [js "require"; js "exports"; js "module"] end) ++ requires) cb
  | _, _ => QItem name deps cb
  end.
Definition define (name : option jstr) (deps : option (list jstr)) (cb : factory) : M unit :=
  modify (fun s => s <| globalDefQueue ::= fun q => q ++ [define_item name deps cb] |>).

(** [context.require(id)], the synchronous form. *)
Definition require_name (rel : option modmap) (name : jstr) : M val :=
  map ← mk_map (Some name) rel false true;
  d ← gets (fun s => defined s !! mm_id map);
  match d with
  | Some v => mret v
  | None => onError (Error (KNotLoaded (mm_id map)) []) ;; mret VUndef
  end.

(** [load(value)]. *)
Definition load_value (l : load_fn) (v : val) (ignore : bool) : M unit :=
  exec (CInit (l_mod l) [] false (FFun 0 [] (fun _ => Return v None)) None ignore true).

(** The loop of [load.error] over the registry. *)
Fixpoint drop_unnormalized (pre : jstr) (keys : list jstr) : M unit :=
  match keys with
  | [] => skip
  | k :: keys' =>
      r ← reg k;
      (match r with
       | Some m => mo ← get m;
                   if starts_with pre (mm_id (m_map mo)) then removeWaiting (mm_id (m_map mo)) else skip
       | None => skip
       end) ;;
      drop_unnormalized pre keys'
  end.

(** [load.error(err)]. *)
Definition load_error (l : load_fn) (n : nat) : M unit :=
  let err := Error (KUser n) [l_id l] in
  upd (l_mod l) (fun mo => mo <| m_inited := true |> <| m_error := Some err |>) ;;
  keys ← gets (fun s => map fst (registry s));
  drop_unnormalized (l_id l ++ js "_unnormalized") keys ;;
  onError err.

(** Running user code. *)
Fixpoint run (p : prog) : M (val * option val) :=
  match p with
  | Return r e => mret (r, e)
  | Throw n => throw (Err (Error (KUser n) []))
  | Require rel name k => r ← try (require_name rel name); run (k r)
  | RequireAll rel deps cb eb k =>
      r ← try (exec (CRequire deps false cb (EbUser <$> eb) rel)); run (k r)
  | Parent (inl _) _ k =>
      (* strict mode: deps.rjsSkipMap = true on a string *)
      r ← try (throw (Err type_error)); run (k r)
  | Parent (inr deps) cb k =>
      (* [makeRequire] takes [map.parentMap] for a module: the relMap is undefined *)
      r ← try (exec (CRequire deps true cb None None)); run (k r)
  | Define name deps cb k => define name deps cb ;; run k
  | Undef name k => undef name ;; run k
  | OnLoad l v k => r ← try (load_value l v false); run (k r)
  | OnLoadError l n k => r ← try (load_error l n); run (k r)
  | FromText name text k =>
      r ← try (map ← mk_map (Some name) None false false;
               getModule map ;;
               run text ;;
               exec (CCompleteLoad name));
      run (k r)
  end.

(** [errback(err)]. *)
Definition call_errback (eb : errback) (err : error) : M unit :=
  match eb with
  | EbUser f => run (f err) ;; skip
  | EbEmit m => emit m s_error (EvError err)
  end.

(** ** The methods of [Module] *)

(** [init]. *)
Definition init (m : nat) (deps : list jstr) (skipMap : bool) (f : factory)
    (eb : option errback) (ignore enabled : bool) : M unit :=
  mo ← get m;
  if m_inited mo then skip else
  upd m (fun mo => mo <| m_factory := f |>) ;;
  eb ← match eb with
       | Some e => module_on m s_error (LErrback e) ;; mret (Some e)
       | None => l ← listeners_of m s_error; mret ((fun _ => EbEmit m) <$> l)
       end;
  upd m (fun mo => mo <| m_depMaps := map DName deps |> <| m_skipMap := skipMap |>
                      <| m_errback := eb |> <| m_inited := true |> <| m_ignore := ignore |>) ;;
  if enabled || m_enabled mo then exec (CEnable m) else exec (CCheck m false).

(** The ghost: value [v] comes for dependency [i]. *)
Definition note (m i : nat) (v : val) : M unit :=
  upd m (fun mo => mo <| m_delivered ::= fun l => l ++ [(i, v)] |>).

(** [defineDep], [defineDepById] (the id is always one of [depMaps]). *)
Definition defineDep_mod (i : nat) (a : arg) (mo : module) : module :=
  if decide (i ∈ m_depMatched mo) then mo
  else mo <| m_depMatched ::= union {[i]} |> <| m_depCount ::= Z.pred |>
          <| m_depExports ::= set_at (AVal VUndef) i a |>.
Definition defineDep (m i : nat) (a : arg) : M unit := upd m (defineDep_mod i a).

Definition dep_map (d : dep) : option modmap :=
  match d with DName _ => None | DMap map => Some map end.
(** [depMap.id]; the [id] of a string is undefined, as a key it reads ["undefined"]. *)
Definition dep_id (d : dep) : jstr :=
  match d with DName _ => js "undefined" | DMap map => mm_id map end.
Definition defineDepById (m : nat) (id : jstr) (v : val) : M unit :=
  mo ← get m;
  match list_find (fun d => mm_id <$> dep_map d = Some id) (m_depMaps mo) with
  | Some (i, _) => note m i v ;; defineDep m i (AVal v)
  | None => skip
  end.

(** [load], and [context.load] with [req.load]: a script element. *)
Definition load (m : nat) : M unit :=
  mo ← get m;
  let url := default [] (mm_url (m_map mo)) in
  modify (fun s =>
    if decide (url ∈ urlFetched s) then s
    else s <| urlFetched ::= union {[url]} |> <| loads ::= fun l => l ++ [Requested url] |>
           <| scripts ::= fun l => l ++ [(mm_id (m_map mo), url)] |>).

(** [context.enable]. *)
Definition context_enable (depMap : modmap) : M unit :=
  r ← reg (mm_id depMap);
  match r with Some m => exec (CEnable m) | None => skip end.

Definition callPlugin (m : nat) : M unit :=
  mo ← get m;
  let map := m_map mo in
  pluginMap ← mk_map (mm_prefix map) None false true;
  on_defined pluginMap (LPlugin m map) ;;
  context_enable pluginMap ;;
  upd m (fun mo => mo <| m_pluginMaps ::= prop_set (mm_id pluginMap) pluginMap |>).

Definition load_or_plugin (m : nat) (prefixed : bool) : M unit :=
  if prefixed then callPlugin m else load m.

Definition fetch (m : nat) : M unit :=
  mo ← get m;
  if m_fetched mo then skip else
  upd m (fun mo => mo <| m_fetched := true |>) ;;
  modify (fun s => s <| startTime := now s |>) ;;
  let prefixed := truthy (mm_prefix (m_map mo)) in
  match m_shim mo with
  | Some sh => exec (CRequire (shim_deps sh) false (FFetch m prefixed) None (Some (m_map mo)))
  | None => load_or_plugin m prefixed
  end.

(** The handlers of the special dependencies. *)
Inductive handler := HRequire | HExports | HModule.
Definition handlers (id : jstr) : option handler :=
  if decide (id = js "require") then Some HRequire
  else if decide (id = js "exports") then Some HExports
  else if decide (id = js "module") then Some HModule
  else None.

Definition run_handler (h : handler) (m : nat) : M arg :=
  mo ← get m;
  match h with
  | HRequire => mret (ARequire (Some (m_map mo)))
  | HExports =>
      upd m (fun mo => mo <| m_usingExports := true |>) ;;
      if mm_isDefine (m_map mo) then
        n ← fresh;
        modify (fun s => s <| defined ::= insert (mm_id (m_map mo)) (VObj n) |>) ;;
        upd m (fun mo => mo <| m_exports := VObj n |>) ;;
        mret (AVal (VObj n))
      else mret (AVal VUndef)
  | HModule =>
      e ← gets (fun s => default VUndef (defined s !! mm_id (m_map mo)));
      upd m (fun mo => mo <| m_module := Some e |>) ;;
      mret (AModule (mm_id (m_map mo)) e)
  end.

(** The last part of [enable]'s loop body. *)
Definition enable_if_needed (depMap : modmap) : M unit :=
  r ← reg (mm_id depMap);
  match handlers (mm_id depMap), r with
  | None, Some dm => d ← get dm; if m_enabled d then skip else context_enable depMap
  | _, _ => skip
  end.

(** One step of [enable]'s loop over [depMaps]. *)
Definition enable_dep (m i : nat) : M unit :=
  mo ← get m;
  match m_depMaps mo !! i with
  | Some (DName name) =>
      if negb (truthy name) then skip else
      depMap ← mk_map (Some name)
                 (if mm_isDefine (m_map mo) then Some (m_map mo) else mm_parentMap (m_map mo))
                 false (negb (m_skipMap mo));
      upd m (fun mo => mo <| m_depMaps ::= insert i (DMap depMap) |>) ;;
      match handlers (mm_id depMap) with
      | Some h =>
          a ← run_handler h m;
          upd m (fun mo => mo <| m_depExports ::= set_at (AVal VUndef) i a |>)
      | None =>
          upd m (fun mo => mo <| m_depCount ::= Z.succ |>) ;;
          on_defined depMap (LDep m i) ;;
          (match m_errback mo with Some eb => on_error depMap eb | None => skip end) ;;
          enable_if_needed depMap
      end
  | Some (DMap depMap) => enable_if_needed depMap
  | None => skip
  end.

Fixpoint enable_deps (m : nat) (idx : list nat) : M unit :=
  match idx with [] => skip | i :: idx' => enable_dep m i ;; enable_deps m idx' end.

Fixpoint enable_plugins (pluginMaps : list (jstr * modmap)) : M unit :=
  match pluginMaps with
  | [] => skip
  | (_, pluginMap) :: rest =>
      r ← reg (mm_id pluginMap);
      (match r with
       | Some dm => d ← get dm; if m_enabled d then skip else context_enable pluginMap
       | None => skip
       end) ;;
      enable_plugins rest
  end.

Definition enable (m : nat) : M unit :=
  upd m (fun mo => mo <| m_enabled := true |>) ;;
  mo ← get m;
  (if m_waitPushed mo then skip else
   modify (fun s => s <| waits ::= alter (fun l => l ++ [m]) (waitAry s) |>
                      <| waitCount ::= Z.succ |>) ;;
   upd m (fun mo => mo <| m_waitPushed := true |>)) ;;
  upd m (fun mo => mo <| m_enabling := true |>) ;;
  enable_deps m (seq 0 (length (m_depMaps mo))) ;;
  mo ← get m;
  enable_plugins (m_pluginMaps mo) ;;
  upd m (fun mo => mo <| m_enabling := false |>) ;;
  exec (CCheck m false).
(** [context.execCb]: what calling a factory with [depExports] does. *)
Definition execCb (f : factory) (args : list arg) : M (val * option val) :=
  match f with
  | FFun _ _ f => run (f args)
  | FVal v => mret (v, None)
  | FGlobal name =>
      v ← gets (fun s => default VUndef (globals s !! name)); mret (v, None)
  | FFetch m prefixed => load_or_plugin m prefixed ;; mret (VUndef, None)
  end.

(** The value of a module: [module.exports] if it was replaced, else what the
    factory returned, unless that is undefined and [exports] was asked for. *)
Definition settle (mo : module) (r : val) : val :=
  if mm_isDefine (m_map mo) then
    match m_module mo with
    | Some e =>
        if bool_decide (e <> VUndef) && bool_decide (e <> m_exports mo) then e
        else if bool_decide (r = VUndef) && m_usingExports mo then m_exports mo else r
    | None => if bool_decide (r = VUndef) && m_usingExports mo then m_exports mo else r
    end
  else r.

(** The module has its exports: record them, leave the registry and the wait count. *)
Definition complete (m : nat) (id : jstr) (exports : val) : M unit :=
  upd m (fun mo => mo <| m_exports := exports |>) ;;
  mo ← get m;
  modify (fun s =>
    (if mm_isDefine (m_map mo) && negb (m_ignore mo)
     then s <| defined ::= insert id exports |> else s) <| registry ::= prop_del id |>) ;;
  upd m (fun mo => mo <| m_defined := true |>) ;;
  modify (fun s => s <| waitCount ::= Z.pred |>) ;;
  w ← gets waitCount;
  if decide (w = 0%Z) then
    a ← fresh; modify (fun s => s <| waits ::= insert a [] |> <| waitAry := a |>)
  else skip.

(** [return onError((this.error = err))]: the factory threw, and somebody listens. *)
Definition factory_error (m : nat) (err : error) : M unit :=
  mo ← get m;
  let err := Error (e_kind err) [mm_id (m_map mo)] in
  upd m (fun mo => mo <| m_error := Some err |>) ;;
  onError err.

(** After the call of the factory: an error is kept and reported, the exports are
    settled otherwise.  It answers whether [check] returns. *)
Definition factory_done (m : nat) (id : jstr) (r : val * option val + error) : M bool :=
  match r with
  | inl (v, e) =>
      (* assignments to module.exports of the object the factory was given *)
      upd m (fun mo => match e, m_module mo with
                       | Some x, Some _ => mo <| m_module := Some x |>
                       | _, _ => mo
                       end) ;;
      mo ← get m;
      complete m id (settle mo v) ;; mret false
  | inr err => factory_error m err ;; mret true
  end.

(** The factory is called: an error is caught when there are error listeners. *)
Definition call_factory (m : nat) (id : jstr) (f : factory) (args : list arg) : M bool :=
  l ← listeners_of m s_error;
  r ← match l with
      | Some _ => try (execCb f args)
      | None => x ← execCb f args; mret (inl x)
      end;
  factory_done m id r.

(** The define stage of [check]. *)
Definition define_module (m : nat) : M bool :=
  mo ← get m;
  let id := mm_id (m_map mo) in
  match m_factory mo with
  | FVal v => complete m id v ;; mret false
  | f =>
      modify (fun s => s <| runs ::= fun l => l ++ [Run m (m_depMaps mo) (m_depExports mo) (m_delivered mo)] |>) ;;
      call_factory m id f (m_depExports mo)
  end.

(** The end of [check]: the define notifications. *)
Definition finish_check (m : nat) (silent : bool) : M unit :=
  upd m (fun mo => mo <| m_defining := false |>) ;;
  mo ← get m;
  if negb silent && m_defined mo && negb (m_defineEmitted mo) then
    upd m (fun mo => mo <| m_defineEmitted := true |>) ;;
    emit m s_defined (EvDefined (m_exports mo)) ;;
    upd m (fun mo => mo <| m_defineEmitComplete := true |>)
  else skip.

Definition check (m : nat) (silent : bool) : M unit :=
  mo ← get m;
  if negb (m_enabled mo) || m_enabling mo then skip
  else if negb (m_inited mo) then fetch m
  else match m_error mo with
  | Some e => emit m s_error (EvError e)
  | None =>
      if m_defining mo then skip else
      upd m (fun mo => mo <| m_defining := true |>) ;;
      returns ← (if bool_decide (m_depCount mo < 1)%Z && negb (m_defined mo)
                 then define_module m else mret false);
      if returns : bool then skip else finish_check m silent
  end.

(** The listener of [callPlugin], once the plugin module has its value. *)
Definition plugin_ready (m : nat) (map : modmap) (plugin : val) : M unit :=
  mo ← get m;
  if decide (plugin = VUndef) then throw (Err type_error) else
  if mm_unnormalized (m_map mo) then
    c ← gets cfg;
    let parentName := mm_name <$> mm_parentMap (m_map mo) in
    let name :=
      match plugin_normalize plugin with
      | Some f => f (mm_name (m_map mo)) (fun n => Normalize.normalize c n parentName true)
      | None => mm_name (m_map mo)
      end in
    normalizedMap ← mk_map (Some (default [] (mm_prefix map) ++ [bang] ++ name))
                      (mm_parentMap (m_map mo)) false true;
    on_defined normalizedMap (LUnnorm m) ;;
    r ← reg (mm_id normalizedMap);
    match r with
    | Some nm =>
        l ← listeners_of m s_error;
        (match l with
         | Some _ => module_on nm s_error (LErrback (EbEmit m))
         | None => skip
         end) ;;
        exec (CEnable nm)
    | None => skip
    end
  else
    match plugin_load plugin with
    | Some f => run (f (mm_name map) (LoadFn m (mm_id map))) ;; skip
    | None => throw (Err type_error)
    end.

Definition call_listener (l : listener) (evt : event) : M unit :=
  match l, evt with
  | LDep m i, EvDefined v => note m i v ;; defineDep m i (AVal v) ;; exec (CCheck m false)
  | LPlugin m map, EvDefined v => plugin_ready m map v
  | LUnnorm m, EvDefined v => load_value (LoadFn m []) v true
  | LErrback eb, EvError e => call_errback eb e
  | _, _ => skip
  end.

(** ** Cycles *)

(** [findCycle(mod, traced)], on a state that does not change; the fuel is the
    number of nested calls, [None] is running out of it. *)
Fixpoint findCycle (s : state) (fuel : nat) (m : nat) (traced : list jstr)
    : option (option nat) :=
  match fuel with
  | O => None
  | S fuel' =>
      let mo := mod_at s m in
      let id := mm_id (m_map mo) in
      if negb (m_inited mo) then Some None
      else if decide (id ∈ traced) then Some (Some m)
      else
        (fix deps (l : list dep) : option (option nat) :=
          match l with
          | [] => Some None
          | d :: l' =>
              if match d with DName n => negb (truthy n) | DMap _ => false end
              then deps l' else
              match prop_get (dep_id d) (registry s) with
              | None => deps l'
              | Some dm =>
                  if negb (m_inited (mod_at s dm)) || negb (m_enabled (mod_at s dm))
                  then Some None
                  else match findCycle s fuel' dm (id :: traced) with
                       | None => None
                       | Some (Some c) => Some (Some c)
                       | Some None => deps l'
                       end
              end
          end) (m_depMaps mo)
  end.

(** [forceExec(mod, traced, uninited)]: [traced] in insertion order. *)
Fixpoint forceExec (fuel : nat) (m : nat) (traced : list (jstr * nat)) (uninited : gset jstr)
    : M (val * list (jstr * nat) * gset jstr) :=
  match fuel with
  | O => throw OutOfFuel
  | S fuel' =>
      mo ← get m;
      let id := mm_id (m_map mo) in
      if negb (m_inited mo) || negb (mm_isDefine (m_map mo)) then mret (VUndef, traced, uninited)
      else if present (prop_get id traced) then
        v ← gets (fun s => default VUndef (defined s !! id)); mret (v, traced, uninited)
      else
        tu ← (fix deps (idx : list nat) (traced : list (jstr * nat)) (uninited : gset jstr)
               : M (list (jstr * nat) * gset jstr) :=
          match idx with
          | [] => mret (traced, uninited)
          | i :: idx' =>
              mo ← get m;
              match m_depMaps mo !! i with
              | Some (DMap depMap) =>
                  let depId := mm_id depMap in
                  r ← reg depId;
                  match handlers depId, r with
                  | None, Some dm =>
                      d ← get dm;
                      if negb (m_inited d) || negb (m_enabled d)
                      then deps idx' traced (uninited ∪ {[id]})
                      else
                        vtu ← forceExec fuel' dm traced uninited;
                        let '(v, traced, uninited) := vtu in
                        (if decide (depId ∈ uninited) then skip
                         else defineDepById m depId v) ;;
                        deps idx' traced uninited
                  | _, _ => deps idx' traced uninited
                  end
              | _ => deps idx' traced uninited
              end
          end) (seq 0 (length (m_depMaps mo))) (traced ++ [(id, m)]) uninited;
        exec (CCheck m true) ;;
        v ← gets (fun s => default VUndef (defined s !! id));
        mret (v, tu.1, tu.2)
  end.
(** ** [checkLoaded] *)

(** What the first loop of [checkLoaded] finds. *)
Record survey := Survey { noLoads : list jstr; stillLoading : bool; needCycleCheck : bool;
                          usingPathFallback : bool }.

(** The loop over the registry; keys deleted in the meantime are not visited. *)
Fixpoint survey_modules (expired : bool) (keys : list jstr) (v : survey) : M survey :=
  match keys with
  | [] => mret v
  | k :: keys' =>
      r ← reg k;
      match r with
      | None => survey_modules expired keys' v
      | Some m =>
          mo ← get m;
          let modId := mm_id (m_map mo) in
          if negb (m_enabled mo) || present (m_error mo) then survey_modules expired keys' v
          else if negb (m_inited mo) && expired then
            fb ← hasPathFallback modId;
            if fb : bool then
              survey_modules expired keys' (v <| stillLoading := true |> <| usingPathFallback := true |>)
            else
              removeScript modId ;;
              survey_modules expired keys' (v <| noLoads ::= fun l => l ++ [modId] |>)
          else if negb (m_inited mo) && m_fetched mo && mm_isDefine (m_map mo) then
            if truthy (mm_prefix (m_map mo))
            then survey_modules expired keys' (v <| stillLoading := true |>)
            else mret (v <| stillLoading := true |> <| needCycleCheck := false |>)
          else survey_modules expired keys' v
      end
  end.

(** [eachProp(obj, modCheck)], for the registry and for [traced]. *)
Fixpoint check_registry (keys : list jstr) : M unit :=
  match keys with
  | [] => skip
  | k :: keys' =>
      r ← reg k;
      (match r with Some m => exec (CCheck m false) | None => skip end) ;;
      check_registry keys'
  end.
Fixpoint check_mods (ms : list nat) : M unit :=
  match ms with [] => skip | m :: ms' => exec (CCheck m false) ;; check_mods ms' end.

(** The loop over the [waitAry] array [arr], from its index [i]. *)
Definition waits_from (fuel : nat) (arr i : nat) : M unit :=
  x ← gets (fun s => (waits s !! arr) ≫= fun l => l !! i);
  match x with
  | None => skip
  | Some m =>
      mo ← get m;
      (if m_defined mo then skip else
       c ← gets (fun s => findCycle s (S (S (length (registry s)))) m []);
       match c with
       | None => throw OutOfFuel
       | Some None => skip
       | Some (Some cycleMod) =>
           r ← forceExec fuel cycleMod [] ∅;
           check_mods (map snd r.1.2)
       end) ;;
      exec (CWaits arr (S i))
  end.

Definition checkLoaded : M unit :=
  c ← gets cfg;
  start ← gets startTime;
  t ← gets now;
  let waitInterval := (waitSeconds c * 1000)%Z in
  let expired := negb (bool_decide (waitInterval = 0%Z)) && bool_decide (start + waitInterval < t)%Z in
  busy ← gets inCheckLoaded;
  if busy : bool then skip else
  modify (fun s => s <| inCheckLoaded := true |>) ;;
  keys ← gets (fun s => map fst (registry s));
  v ← survey_modules expired keys (Survey [] false true false);
  if expired && negb (bool_decide (noLoads v = [])) then
    onError (Error (KTimeout (noLoads v)) (noLoads v))
  else
    (if needCycleCheck v then
       a ← gets waitAry;
       exec (CWaits a 0) ;;
       keys ← gets (fun s => map fst (registry s));
       check_registry keys
     else skip) ;;
    modify (fun s =>
      (if (negb expired || usingPathFallback v) && stillLoading v
       then s <| checkTimer := true |> else s) <| inCheckLoaded := false |>).

(** ** [require] and [completeLoad] *)

(** The [while] loop of [require]: [false] is the return on an anonymous [define]. *)
Fixpoint drain (fuel : nat) : M bool :=
  match fuel with
  | O => throw OutOfFuel
  | S fuel' =>
      x ← shift;
      match x with
      | None => mret true
      | Some (QItem None _ _) => onError (Error KMismatch []) ;; mret false
      | Some (QItem (Some name) deps f) => callGetModule name deps f ;; drain fuel'
      end
  end.

(** [context.require(deps, callback, errback, relMap)] with an array. *)
Definition require_all (fuel : nat) (deps : list jstr) (skipMap : bool) (cb : factory)
    (eb : option errback) (rel : option modmap) : M unit :=
  takeGlobalQueue ;;
  ok ← drain fuel;
  if ok : bool then
    map ← mk_map None rel false false;
    requireMod ← getModule map;
    exec (CInit requireMod deps skipMap cb eb false true) ;;
    exec CCheckLoaded
  else skip.

(** The [while] loop of [completeLoad]; it answers [found]. *)
Fixpoint complete_loop (fuel : nat) (moduleName : jstr) (found : bool) : M bool :=
  match fuel with
  | O => throw OutOfFuel
  | S fuel' =>
      x ← shift;
      match x with
      | None => mret found
      | Some (QItem None deps f) =>
          if found then mret found
          else callGetModule moduleName deps f ;; complete_loop fuel' moduleName true
      | Some (QItem (Some name) deps f) =>
          let found := found || bool_decide (name = moduleName) in
          callGetModule name deps f ;; complete_loop fuel' moduleName found
      end
  end.

Definition shim_factory (e : option shim_exports) : factory :=
  match e with
  | None => FVal VUndef
  | Some (ExportsGlobal name) => FGlobal name
  | Some (ExportsFun f) => FFun 0 [] (shim_fun f)
  end.

(** [!shExports || !getGlobal(shExports)]. *)
Definition no_global (sh : option shim_cfg) (s : state) : bool :=
  match (sh ≫= shim_exp) with
  | Some (ExportsGlobal name) =>
      negb (truthy name) || negb (truthy (default VUndef (globals s !! name)))
  | _ => true
  end.

Definition completeLoad (fuel : nat) (moduleName : jstr) : M unit :=
  c ← gets cfg;
  let shim := shims c !! moduleName in
  takeGlobalQueue ;;
  found ← complete_loop fuel moduleName false;
  mod_ ← reg moduleName;
  inited ← match mod_ with Some m => mo ← get m; mret (m_inited mo) | None => mret true end;
  d ← gets (fun s => truthy (defined s !! moduleName));
  if negb found && negb d && negb inited then
    c ← gets cfg;
    nog ← gets (no_global shim);
    if enforceDefine c && nog then
      fb ← hasPathFallback moduleName;
      if fb : bool then skip else onError (Error (KNoDefine moduleName) [moduleName])
    else
      callGetModule moduleName (match shim with Some sh => shim_deps sh | None => [] end)
        (shim_factory (shim ≫= shim_exp)) ;;
      exec CCheckLoaded
  else exec CCheckLoaded.

(** One call, its nested calls through [exec]. *)
Definition dispatch (fuel : nat) (c : call) : M unit :=
  match c with
  | CInit m deps sk f eb ignore enabled => init m deps sk f eb ignore enabled
  | CEnable m => enable m
  | CCheck m silent => check m silent
  | CEmit arr i e => emit_from arr i e
  | CListener l e => call_listener l e
  | CRequire deps sk cb eb rel => require_all fuel deps sk cb eb rel
  | CCheckLoaded => checkLoaded
  | CWaits arr i => waits_from fuel arr i
  | CCompleteLoad name => completeLoad fuel name
  end.

End Operations.

Section Runs.
Context {E : Env}.

Fixpoint exec (fuel : nat) (c : call) : M unit :=
  match fuel with
  | O => throw OutOfFuel
  | S fuel' => dispatch (exec fuel') fuel' c
  end.

(** ** What happens to a page *)

(** Code of the page runs, a script element fires its load or error event, the
    [checkLoaded] timer fires, the clock advances, a global variable is set, or
    [require] is called with a configuration ([deps] and [callback] in it). *)
Inductive page_event :=
  | UserCode (p : prog)
  | OnScriptLoad (name : jstr)
  | OnScriptError (name : jstr)
  | Timer
  | Tick (ms : N)
  | SetGlobal (name : jstr) (v : val)
  | Configure (f : Configure.cfg) (deps : option (list jstr)) (cb : option factory).

Fixpoint remap (keys : list jstr) : M unit :=
  match keys with
  | [] => skip
  | k :: keys' =>
      r ← reg k;
      (match r with
       | Some m => map ← mk_map (Some k) None false false; upd m (fun mo => mo <| m_map := map |>)
       | None => skip
       end) ;;
      remap keys'
  end.

(** [context.configure]. *)
Definition configure (exec : call -> M unit) (f : Configure.cfg) (deps : option (list jstr))
    (cb : option factory) : M unit :=
  modify (fun s => s <| cfg ::= fun c => Configure.configure c f |>) ;;
  keys ← gets (fun s => map fst (registry s));
  remap keys ;;
  if present deps || present cb
  then exec (CRequire (default [] deps) false (default (FVal VUndef) cb) None None)
  else skip.

Definition onScriptError (exec : call -> M unit) (id : jstr) : M unit :=
  fb ← hasPathFallback exec id;
  if fb : bool then skip else onError exec (Error KScript [id]).

Definition page_step (exec : call -> M unit) (e : page_event) : M unit :=
  match e with
  | UserCode p => run exec p ;; skip
  | OnScriptLoad name => exec (CCompleteLoad name)
  | OnScriptError name => onScriptError exec name
  | Timer =>
      t ← gets checkTimer;
      if t : bool then
        modify (fun s => s <| checkTimer := false |>) ;; exec CCheckLoaded
      else skip
  | Tick ms => modify (fun s => s <| now ::= Z.add (Z.of_N ms) |>)
  | SetGlobal name v => modify (fun s => s <| globals ::= insert name v |>)
  | Configure f deps cb => configure exec f deps cb
  end.

(** The states a page can reach; an exception ends the event it happens in, and a
    state in which the fuel of an event runs out is one of them. *)
Inductive reachable (c : config) : state -> Prop :=
  | reach_init : reachable c (init_state c)
  | reach_step s fuel e : reachable c s -> reachable c (page_step (exec fuel) e s).1.

End Runs.
