(* ===== verification/LoaderFacts.v ===== *)
(** Facts about the RequireJS loader: an invariant of every state a page can reach
    (factories run at most once and with their dependencies delivered, scripts are
    requested once), proved for all operations at once by induction on [exec]. *)

From S2P Require Import Prelude ModuleNames Loader.
From coqutil Require Import Datatypes.RecordSettersUsingExistingGetters.

Module LoaderInv.

(** ** Modules *)

(** Dependency [i] was wired to another module: it has a map, and is none of the
    special dependencies. *)
Definition wired (deps : list dep) (i : nat) : bool :=
  match deps !! i with Some (DMap map) => negb (present (handlers (mm_id map))) | _ => false end.

(** The wired dependencies that were not delivered yet. *)
Definition outstanding (mo : module) : list nat :=
  List.filter (fun i => wired (m_depMaps mo) i && negb (bool_decide (i ∈ m_depMatched mo)))
    (seq 0 (length (m_depMaps mo))).

(** The value that came first for dependency [i]. *)
Definition first_delivered (i : nat) (l : list (nat * val)) : option val :=
  snd <$> find (fun p => Nat.eqb p.1 i) l.

Record mod_ok (mo : module) : Prop := {
  mo_uninit : m_inited mo = false -> m_depMaps mo = [];
  mo_matched i : i ∈ m_depMatched mo ->
    wired (m_depMaps mo) i = true /\
    exists v, first_delivered i (m_delivered mo) = Some v /\ m_depExports mo !! i = Some (AVal v);
  mo_unmatched i : i ∉ m_depMatched mo -> first_delivered i (m_delivered mo) = None;
  mo_count : m_depCount mo = Z.of_nat (length (outstanding mo)) }.

(** A factory ran with every dependency that was wired: its argument is the value
    that came for it first. *)
Definition args_ready (r : run_record) : Prop :=
  forall i, wired (r_deps r) i = true ->
  exists v, first_delivered i (r_delivered r) = Some v /\ r_args r !! i = Some (AVal v).

(** ** Requested scripts *)

(** The URLs that count as fetched after some history. *)
Definition log_step (u : gset jstr) (x : load_record) : gset jstr :=
  match x with Requested url => {[url]} ∪ u | Forgotten url => u ∖ {[url]} end.
Definition fetched_after (l : list load_record) : gset jstr := fold_left log_step l ∅.

(** No URL is requested again before it is forgotten. *)
Definition no_refetch (l : list load_record) : Prop :=
  forall l1 url l2, l = l1 ++ Requested url :: l2 -> url ∉ fetched_after l1.

(** ** The invariant *)

Record inv (s : state) : Prop := {
  inv_next m : m ∈ dom (mods s) -> m < next s;
  inv_mods m mo : mods s !! m = Some mo -> mod_ok mo;
  inv_arrays a l m i : arrays s !! a = Some l -> LDep m i ∈ l ->
    wired (m_depMaps (mod_at s m)) i = true;
  inv_runs_nodup : NoDup (map r_mod (runs s));
  inv_runs_busy r : r ∈ runs s ->
    m_defining (mod_at s (r_mod r)) = true \/ m_defined (mod_at s (r_mod r)) = true;
  inv_runs_ready r : r ∈ runs s -> args_ready r;
  inv_fetched : urlFetched s = fetched_after (loads s);
  inv_loads : no_refetch (loads s);
  inv_registry : NoDup (map fst (registry s)) }.

(** What never changes back. *)
Record later (s s' : state) : Prop := {
  later_mods m : m ∈ dom (mods s) -> m ∈ dom (mods s');
  later_defining m : m_defining (mod_at s m) = true -> m_defining (mod_at s' m) = true;
  later_defined m : m_defined (mod_at s m) = true -> m_defined (mod_at s' m) = true;
  later_deps m i map : m_depMaps (mod_at s m) !! i = Some (DMap map) ->
    m_depMaps (mod_at s' m) !! i = Some (DMap map);
  later_inited m : m_inited (mod_at s m) = true ->
    m_inited (mod_at s' m) = true /\
    length (m_depMaps (mod_at s' m)) = length (m_depMaps (mod_at s m));
  later_names m i n : m_inited (mod_at s m) = true ->
    m_depMaps (mod_at s' m) !! i = Some (DName n) -> m_depMaps (mod_at s m) !! i = Some (DName n);
  later_runs : exists l, runs s' = runs s ++ l;
  later_checking : inCheckLoaded s = true -> inCheckLoaded s' = true }.

Lemma same_runs s s' : runs s' = runs s -> exists l, runs s' = runs s ++ l.
Proof. exists []. by rewrite app_nil_r. Qed.

(** A step that leaves the modules alone. *)
Lemma later_frame s s' :
  mods s' = mods s -> (exists l, runs s' = runs s ++ l) ->
  (inCheckLoaded s = true -> inCheckLoaded s' = true) -> later s s'.
Proof.
  intros Hm Hr Hc. assert (Ha : forall m, mod_at s' m = mod_at s m) by (unfold mod_at; by rewrite Hm).
  split; intros; rewrite ?Ha, ?Hm in *; auto.
Qed.

#[export] Instance later_preorder : PreOrder later.
Proof.
  split.
  - intros s. split; try done. exists []. by rewrite app_nil_r.
  - intros s1 s2 s3 H1 H2. split; intros; try by apply H2, H1.
    + destruct (later_inited _ _ H1 m) as [Hi Hl]; [done|].
      destruct (later_inited _ _ H2 m Hi) as [Hi' Hl']. by rewrite Hl'.
    + destruct (later_inited _ _ H1 m) as [Hi _]; [done|].
      by apply (later_names _ _ H1); [|apply (later_names _ _ H2)].
    + destruct (later_runs _ _ H1) as [l1 E1], (later_runs _ _ H2) as [l2 E2].
      exists (l1 ++ l2). by rewrite E2, E1, app_assoc.
Qed.

Lemma later_wired s s' m i : later s s' ->
  wired (m_depMaps (mod_at s m)) i = true -> wired (m_depMaps (mod_at s' m)) i = true.
Proof.
  intros H. unfold wired. destruct (m_depMaps (mod_at s m) !! i) as [[|map]|] eqn:E; try done.
  by rewrite (later_deps _ _ H _ _ _ E).
Qed.

(** ** Safe operations *)

(** From a state with the invariant, an operation ends, or stops, in one, and
    nothing changes back. *)
Definition safe {A} (m : M A) : Prop :=
  forall s, inv s -> inv (m s).1 /\ later s (m s).1.

Lemma safe_ret {A} (a : A) : safe (mret a).
Proof. intros s Hs. by split. Qed.
Lemma safe_skip : safe skip.
Proof. apply safe_ret. Qed.
Lemma safe_throw {A} e : safe (A := A) (throw e).
Proof. intros s Hs. by split. Qed.
Lemma safe_gets {A} (f : state -> A) : safe (gets f).
Proof. intros s Hs. by split. Qed.
Lemma safe_get m : safe (get m).
Proof. apply safe_gets. Qed.
Lemma safe_reg id : safe (reg id).
Proof. apply safe_gets. Qed.

Lemma safe_bind {A B} (m : M A) (f : A -> M B) :
  safe m -> (forall a, safe (f a)) -> safe (m ≫= f).
Proof.
  intros Hm Hf s Hs. unfold mbind, M_bind. destruct (Hm s Hs) as [Hi Hl].
  destruct (m s) as [s1 [a|e]]; [|done]. destruct (Hf a s1 Hi) as [Hi2 Hl2].
  split; [done|]. by etransitivity.
Qed.

Lemma safe_gets_bind {A B} (f : state -> A) (g : A -> M B) :
  (forall s, inv s -> inv (g (f s) s).1 /\ later s (g (f s) s).1) -> safe (gets f ≫= g).
Proof. intros H s Hs. by apply H. Qed.

(** The same at one state. *)
Definition safe_at {A} (m : M A) (s : state) : Prop := inv (m s).1 /\ later s (m s).1.

Lemma at_bind {A B} (m : M A) (f : A -> M B) s :
  safe_at m s ->
  (forall a s1, m s = (s1, inl a) -> inv s1 -> later s s1 -> safe_at (f a) s1) ->
  safe_at (m ≫= f) s.
Proof.
  intros [Hi Hl] Hf. unfold safe_at, mbind, M_bind in *.
  destruct (m s) as [s1 [a|e]] eqn:E; [|done]. destruct (Hf a s1 eq_refl Hi Hl) as [Hi2 Hl2].
  split; [done|]. by etransitivity.
Qed.

(** Seen from an earlier state [s0]. *)
Definition since {A} (s0 : state) (m : M A) (s : state) : Prop := inv (m s).1 /\ later s0 (m s).1.

Lemma since_bind {A B} s0 (m : M A) (f : A -> M B) s :
  since s0 m s ->
  (forall a s1, m s = (s1, inl a) -> inv s1 -> later s0 s1 -> since s0 (f a) s1) ->
  since s0 (m ≫= f) s.
Proof.
  intros [Hi Hl] Hf. unfold since, mbind, M_bind in *.
  destruct (m s) as [s1 [a|e]] eqn:E; [|done]. by apply (Hf a s1).
Qed.

Lemma since_safe {A} s0 (m : M A) s : inv s -> later s0 s -> safe m -> since s0 m s.
Proof. intros Hi Hl Hm. destruct (Hm s Hi) as [Hi2 Hl2]. split; [done|]. by etransitivity. Qed.

(** With a postcondition for a normal return. *)
Definition holds {A} (m : M A) (s : state) (Q : A -> state -> Prop) : Prop :=
  safe_at m s /\ forall a s', m s = (s', inl a) -> Q a s'.

Lemma holds_bind {A B} (m : M A) (f : A -> M B) s Q :
  safe_at m s ->
  (forall a s1, m s = (s1, inl a) -> inv s1 -> later s s1 -> holds (f a) s1 Q) ->
  holds (m ≫= f) s Q.
Proof.
  intros Hm Hf. split.
  - apply at_bind; [done|]. intros a s1 H1 H2 H3. by apply Hf.
  - intros b s'. unfold mbind, M_bind. destruct Hm as [Hi Hl].
    destruct (m s) as [s1 [a|e]] eqn:E; [|done]. destruct (Hf a s1 eq_refl Hi Hl) as [_ H]. apply H.
Qed.

Lemma holds_safe {A} (m : M A) s Q :
  inv s -> safe m -> (forall a s', m s = (s', inl a) -> later s s' -> Q a s') -> holds m s Q.
Proof.
  intros Hs Hm HQ. destruct (Hm s Hs) as [Hi Hl]. split; [done|].
  intros a s' E. apply HQ; [done|]. by rewrite E in Hl.
Qed.

Lemma safe_try {A} (m : M A) : safe m -> safe (try m).
Proof.
  intros Hm s Hs. unfold try. destruct (Hm s Hs) as [Hi Hl].
  by destruct (m s) as [s1 [a|[e|]]].
Qed.

(** An update of the parts that the invariant does not read. *)
Definition same_view (s s' : state) : Prop :=
  mods s' = mods s /\ runs s' = runs s /\ loads s' = loads s /\ urlFetched s' = urlFetched s /\
  next s <= next s' /\ arrays s' = arrays s /\ map fst (registry s') = map fst (registry s) /\
  (inCheckLoaded s = true -> inCheckLoaded s' = true).

Lemma mod_at_mods s s' m : mods s' = mods s -> mod_at s' m = mod_at s m.
Proof. unfold mod_at. by intros ->. Qed.

Lemma same_view_later s s' : same_view s s' -> later s s'.
Proof.
  intros (Hm & Hr & _ & _ & _ & _ & _ & Hc). apply later_frame; auto. by apply same_runs.
Qed.

Lemma same_view_inv s s' : same_view s s' -> inv s -> inv s'.
Proof.
  intros (Hm & Hr & Hl & Hu & Hn & Ha & Hg & _) []. split; intros;
    rewrite ?(mod_at_mods s s'), ?Hr, ?Hl, ?Hu, ?Hg, ?Hm, ?Ha in *; eauto.
  eapply Nat.lt_le_trans; eauto.
Qed.

Lemma safe_modify f : (forall s, same_view s (f s)) -> safe (modify f).
Proof.
  intros H s Hs. specialize (H s).
  split; [by apply (same_view_inv s)|by apply same_view_later].
Qed.

(** ** Updates of a module *)

Lemma mod_at_upd s m f m' :
  mod_at (upd m f s).1 m' = if decide (m' = m /\ m ∈ dom (mods s)) then f (mod_at s m) else mod_at s m'.
Proof.
  unfold mod_at, upd, modify. cbn. case_decide as H.
  - destruct H as [-> H]. apply elem_of_dom in H as [mo Hmo]. rewrite lookup_alter_eq, Hmo. done.
  - destruct (decide (m' = m)) as [->|Hne]; [|by rewrite lookup_alter_ne].
    rewrite lookup_alter_eq. destruct (mods s !! m) eqn:E; [|done].
    destruct H. split; [done|]. by apply elem_of_dom.
Qed.

Lemma mod_at_unallocated s m : m ∉ dom (mods s) -> mod_at s m = Loader.blank 0 nowhere None.
Proof. intros H. unfold mod_at. by rewrite (not_elem_of_dom_1 _ _ H). Qed.

Lemma blank_ok ev map sh : mod_ok (Loader.blank ev map sh).
Proof. split; [done| |done..]. intros i Hi. by apply elem_of_empty in Hi. Qed.

Lemma inv_mod s m : inv s -> mod_ok (mod_at s m).
Proof.
  intros Hs. unfold mod_at. destruct (mods s !! m) eqn:E; [by eapply inv_mods|apply blank_ok].
Qed.

(** A step of one module that undoes nothing. *)
Record mod_step (mo mo' : module) : Prop := {
  step_ok : mod_ok mo -> mod_ok mo';
  step_defining : m_defining mo = true -> m_defining mo' = true;
  step_defined : m_defined mo = true -> m_defined mo' = true;
  step_deps i map : m_depMaps mo !! i = Some (DMap map) -> m_depMaps mo' !! i = Some (DMap map);
  step_inited : m_inited mo = true ->
    m_inited mo' = true /\ length (m_depMaps mo') = length (m_depMaps mo);
  step_names i n : m_inited mo = true ->
    m_depMaps mo' !! i = Some (DName n) -> m_depMaps mo !! i = Some (DName n) }.

Lemma step_wired mo mo' i :
  mod_step mo mo' -> wired (m_depMaps mo) i = true -> wired (m_depMaps mo') i = true.
Proof.
  intros H. unfold wired. destruct (m_depMaps mo !! i) as [[|map]|] eqn:E; try done.
  by rewrite (step_deps _ _ H _ _ E).
Qed.

Lemma upd_later s m f : mod_step (mod_at s m) (f (mod_at s m)) -> later s (upd m f s).1.
Proof.
  intros Hf. split; intros *; rewrite ?mod_at_upd;
    try (case_decide as Hd; [destruct Hd as [-> Hd]|]); try apply Hf; try done.
  - cbn. by rewrite dom_alter_L.
  - by apply same_runs.
Qed.

Lemma upd_inv s m f :
  inv s -> mod_step (mod_at s m) (f (mod_at s m)) -> inv (upd m f s).1.
Proof.
  intros Hs Hf. pose proof (upd_later s m f Hf) as Hl.
  split; try apply Hs.
  - cbn. rewrite dom_alter_L. apply Hs.
  - intros m' mo. cbn. rewrite lookup_alter_Some. intros [(-> & mo0 & H0 & ->)|[_ H]].
    + assert (mod_at s m' = mo0) as E by (unfold mod_at; by rewrite H0). rewrite E in Hf.
      apply Hf. by eapply inv_mods.
    + by eapply inv_mods.
  - intros a l m' i Ha Hin. eapply later_wired; [done|]. by eapply inv_arrays.
  - intros r Hr. destruct (inv_runs_busy _ Hs r Hr); [left|right]; by apply Hl.
Qed.

Lemma safe_upd m f : (forall mo, mod_step mo (f mo)) -> safe (upd m f).
Proof. intros H s Hs. split; [by apply upd_inv|by apply upd_later]. Qed.

(** Updates of fields that the invariant does not read. *)
Definition same_mod (mo mo' : module) : Prop :=
  m_depExports mo' = m_depExports mo /\ m_depMaps mo' = m_depMaps mo /\
  m_depMatched mo' = m_depMatched mo /\ m_depCount mo' = m_depCount mo /\
  m_inited mo' = m_inited mo /\ m_defining mo' = m_defining mo /\ m_defined mo' = m_defined mo /\
  m_delivered mo' = m_delivered mo.

Lemma same_mod_step mo mo' : same_mod mo mo' -> mod_step mo mo'.
Proof.
  intros (He & Hd & Hm & Hc & Hi & Hg & Hf & Hv).
  split; rewrite ?Hd, ?Hi, ?Hg, ?Hf; try done.
  intros []. split; unfold outstanding; rewrite ?He, ?Hd, ?Hm, ?Hc, ?Hi, ?Hv; auto.
Qed.

Lemma safe_upd_same m f : (forall mo, same_mod mo (f mo)) -> safe (upd m f).
Proof. intros H. apply safe_upd. intros mo. by apply same_mod_step. Qed.

(** ** Operations with a precondition that, once true, stays true *)

Definition stable (P : state -> Prop) : Prop := forall s s', later s s' -> P s -> P s'.
Definition safe_from {A} (P : state -> Prop) (m : M A) : Prop :=
  forall s, inv s -> P s -> inv (m s).1 /\ later s (m s).1.

Lemma safe_weaken {A} P (m : M A) : safe m -> safe_from P m.
Proof. intros H s Hs _. by apply H. Qed.

Lemma safe_from_bind {A B} P (m : M A) (f : A -> M B) :
  stable P -> safe_from P m -> (forall a, safe_from P (f a)) -> safe_from P (m ≫= f).
Proof.
  intros HP Hm Hf s Hs Hp. unfold mbind, M_bind. destruct (Hm s Hs Hp) as [Hi Hl].
  destruct (m s) as [s1 [a|e]]; [|done].
  destruct (Hf a s1 Hi (HP _ _ Hl Hp)) as [Hi2 Hl2]. split; [done|]. by etransitivity.
Qed.

(** What a listener relies on. *)
Definition listener_ok (l : listener) (s : state) : Prop :=
  match l with LDep m i => wired (m_depMaps (mod_at s m)) i = true | _ => True end.
Definition call_ok (c : call) (s : state) : Prop :=
  match c with CListener l _ => listener_ok l s | _ => True end.

Lemma listener_ok_stable l : stable (listener_ok l).
Proof. intros s s' H. destruct l; try done. simpl. by apply later_wired. Qed.

(** ** The heap operations *)

(** An update of the state at which the parts that the invariant reads stay. *)
Lemma view_step s s' : same_view s s' -> inv s -> inv s' /\ later s s'.
Proof. intros H Hs. split; [by apply (same_view_inv s)|by apply same_view_later]. Qed.

Ltac same_view :=
  repeat split; cbn; unfold RecordSettersUsingExistingGetters.const; try done; try lia.

Ltac unfold_m := cbv [mbind M_bind mret M_ret gets modify fresh get reg skip throw]; cbn.

Lemma safe_fresh : safe fresh.
Proof. intros s Hs. apply view_step; [|done]. unfold_m. same_view. Qed.

Definition with_mod (m : nat) (mo : module) (s : state) : state :=
  s <| next := S m |> <| mods ::= insert m mo |>.

Lemma mod_at_with s m mo m' : mod_at (with_mod m mo s) m' = if decide (m' = m) then mo else mod_at s m'.
Proof.
  unfold mod_at, with_mod. cbn. case_decide as H.
  - subst. by rewrite lookup_insert_eq.
  - by rewrite lookup_insert_ne.
Qed.

(** A new module object at a fresh reference. *)
Lemma alloc_step s ev map sh :
  inv s -> inv (with_mod (next s) (Loader.blank ev map sh) s) /\
           later s (with_mod (next s) (Loader.blank ev map sh) s).
Proof.
  intros Hs. assert (Hf : next s ∉ dom (mods s)).
  { intros H%(inv_next _ Hs). lia. }
  pose proof (mod_at_unallocated _ _ Hf) as Hb. split.
  - split; try apply Hs.
    + intros m. cbn. unfold RecordSettersUsingExistingGetters.const. rewrite dom_insert_L. intros [->%elem_of_singleton|Hm]%elem_of_union; [lia|].
      apply (inv_next _ Hs) in Hm. lia.
    + intros m mo. cbn. rewrite lookup_insert_Some.
      intros [[<- <-]|[_ H]]; [apply blank_ok|by eapply inv_mods].
    + intros a l m i Ha Hin. rewrite mod_at_with. pose proof (inv_arrays _ Hs a l m i Ha Hin) as Hw.
      case_decide; [|done]. subst m. by rewrite Hb in Hw.
    + intros r Hr. rewrite !mod_at_with. pose proof (inv_runs_busy _ Hs r Hr) as Hw.
      case_decide as Hd; [|done]. by rewrite Hd, Hb in Hw.
  - split; intros *; rewrite ?mod_at_with; try (case_decide; [subst m; rewrite Hb|]; done); try done.
    + cbn. rewrite dom_insert_L. set_solver.
    + by apply same_runs.
Qed.

Lemma safe_new_Module map : safe (new_Module map).
Proof.
  unfold new_Module. apply safe_bind; [apply safe_gets|]. intros u.
  apply safe_bind; [apply safe_gets|]. intros c. apply safe_bind.
  - destruct (u !! mm_id map) as [ev|]; [apply safe_ret|].
    apply safe_bind; [apply safe_fresh|]. intros ev.
    apply safe_bind; [|intros _; apply safe_ret]. apply safe_modify. intros s. same_view.
  - intros ev s Hs. by apply (alloc_step s ev map (shims c !! mm_id map)).
Qed.

Lemma prop_get_None {A} k (o : list (jstr * A)) : prop_get k o = None -> k ∉ List.map fst o.
Proof.
  unfold prop_get. intros H Hin. apply list_elem_of_In, in_map_iff in Hin as ([k' v] & <- & Hin).
  apply fmap_None in H. eapply find_none in H; [|exact Hin]. by rewrite bool_decide_true in H.
Qed.

Lemma prop_del_keys {A} k (o : list (jstr * A)) :
  NoDup (List.map fst o) -> NoDup (List.map fst (prop_del k o)).
Proof.
  unfold prop_del. induction o as [|[k' v] o IH]; simpl; [done|].
  intros [Hn Hd]%NoDup_cons. case_bool_decide; simpl; [by apply IH|].
  apply NoDup_cons. split; [|by apply IH]. intros Hin. apply Hn.
  apply list_elem_of_In, in_map_iff in Hin as ([k2 v2] & <- & Hin). simpl.
  apply filter_In in Hin as [Hin _]. apply list_elem_of_In, in_map_iff. by exists (k2, v2).
Qed.

(** An update of the registry that keeps its keys distinct. *)
Lemma registry_step s f :
  NoDup (List.map fst (f (registry s))) -> inv s ->
  inv (s <| registry ::= f |>) /\ later s (s <| registry ::= f |>).
Proof.
  intros Hf Hs. split; [|by apply later_frame; [|apply same_runs|]]. split; try apply Hs. done.
Qed.

Lemma safe_delete id : safe (modify (fun s => s <| registry ::= prop_del id |>)).
Proof. intros s Hs. apply registry_step; [|done]. apply prop_del_keys, Hs. Qed.

Lemma new_Module_registry map s : registry (new_Module map s).1 = registry s.
Proof. unfold new_Module. unfold_m. by destruct (undefEvents s !! mm_id map). Qed.

Lemma safe_getModule map : safe (getModule map).
Proof.
  intros s Hs. unfold getModule. unfold_m.
  destruct (prop_get (mm_id map) (registry s)) as [m|] eqn:E; [by split|].
  destruct (safe_new_Module map s Hs) as [Hi Hl]. pose proof (new_Module_registry map s) as Hr.
  destruct (new_Module map s) as [s1 [m|e]]; [|done]. cbn in *.
  destruct (registry_step s1 (fun r => r ++ [(mm_id map, m)])) as [Hi2 Hl2]; [|done|].
  - rewrite map_app, Hr. cbn. apply NoDup_app. split; [rewrite <- Hr; apply Hi|].
    split; [|by apply NoDup_singleton]. intros k Hk ->%list_elem_of_singleton.
    by apply prop_get_None in E.
  - split; [done|]. by etransitivity.
Qed.

(** An update of the listener arrays that adds only listeners that may be there. *)
Lemma arrays_step s f :
  (forall a l m i, f (arrays s) !! a = Some l -> LDep m i ∈ l ->
     wired (m_depMaps (mod_at s m)) i = true) ->
  inv s -> inv (s <| arrays ::= f |>) /\ later s (s <| arrays ::= f |>).
Proof.
  intros Hf Hs. split; [|by apply later_frame; [|apply same_runs|]]. split; try apply Hs. exact Hf.
Qed.

Lemma safe_module_on m name cb : safe_from (listener_ok cb) (module_on m name cb).
Proof.
  unfold module_on. apply safe_from_bind; [apply listener_ok_stable|apply safe_weaken, safe_gets|].
  intros cbs. apply safe_from_bind; [apply listener_ok_stable| |].
  - apply safe_weaken. destruct cbs as [arr|]; [apply safe_ret|].
    apply safe_bind; [apply safe_fresh|]. intros arr.
    apply safe_bind; [apply safe_get|]. intros mo.
    apply safe_bind; [|intros _; apply safe_ret]. intros s Hs.
    set (s1 := s <| events ::= alter (insert name arr) (m_events mo) |>).
    assert (Hv : same_view s s1) by same_view. destruct (view_step _ _ Hv Hs) as [Hi Hl].
    destruct (arrays_step s1 (insert arr [])) as [Hi2 Hl2]; [|done|].
    + intros a l m' i. rewrite lookup_insert_Some.
      intros [[_ <-]|[_ H]]; [by intros ?%elem_of_nil|by apply (inv_arrays _ Hi a)].
    + split; [done|]. by etransitivity.
  - intros arr s Hs Hok. apply arrays_step; [|done]. intros a l m' i.
    rewrite lookup_alter_Some. intros [(-> & l0 & H0 & ->)|[_ H]].
    + intros [Hin|Hin%list_elem_of_singleton]%elem_of_app; [by eapply inv_arrays|].
      subst cb. exact Hok.
    + by eapply inv_arrays.
Qed.

(** ** Dependencies *)

Lemma set_at_eq {A} (d : A) i x l : set_at d i x l !! i = Some x.
Proof.
  unfold set_at. apply list_lookup_insert_eq. rewrite length_app, length_replicate. lia.
Qed.

Lemma set_at_other {A} (d : A) i j x l y : i <> j -> l !! j = Some y -> set_at d i x l !! j = Some y.
Proof.
  intros Hij H. unfold set_at. rewrite list_lookup_insert_ne by done. by apply lookup_app_l_Some.
Qed.

Lemma filter_remove (P : nat -> bool) i l :
  NoDup l -> i ∈ l -> P i = true ->
  length (List.filter P l) = S (length (List.filter (fun x => P x && negb (bool_decide (x = i))) l)).
Proof.
  intros Hn Hi HP. induction Hn as [|x l Hx Hn IH]; [by apply elem_of_nil in Hi|]. simpl.
  destruct (decide (x = i)) as [->|Hne].
  - rewrite HP, bool_decide_true by done. simpl. f_equal. f_equal. apply filter_ext_in.
    intros y Hy. rewrite bool_decide_false, andb_true_r; [done|].
    intros ->. by rewrite list_elem_of_In in Hx.
  - apply elem_of_cons in Hi as [->|Hi]; [done|]. rewrite (bool_decide_false (x = i)) by done.
    rewrite andb_true_r. destruct (P x); simpl; rewrite IH by done; done.
Qed.

Lemma wired_bound deps i : wired deps i = true -> i < length deps.
Proof.
  unfold wired. destruct (deps !! i) eqn:E; [|done]. intros _. by eapply lookup_lt_Some.
Qed.

Lemma first_delivered_snoc i j v l :
  first_delivered j (l ++ [(i, v)]) =
    match first_delivered j l with
    | Some w => Some w
    | None => if Nat.eqb i j then Some v else None
    end.
Proof.
  unfold first_delivered. induction l as [|[k w] l IH]; cbn; [by destruct (Nat.eqb i j)|].
  by destruct (Nat.eqb k j).
Qed.

(** The delivery of a wired dependency. *)
Definition deliver (i : nat) (v : val) (mo : module) : module :=
  defineDep_mod i (AVal v) (mo <| m_delivered ::= fun l => l ++ [(i, v)] |>).

Lemma deliver_step mo i v :
  wired (m_depMaps mo) i = true -> mod_step mo (deliver i v mo).
Proof.
  intros Hw. set (mo1 := mo <| m_delivered ::= fun l => l ++ [(i, v)] |>).
  assert (Hlog : m_delivered mo1 = m_delivered mo ++ [(i, v)]) by done.
  unfold deliver, defineDep_mod. fold mo1. case_decide as Hi.
  { split; try done. intros [Hu Hm Hn Hc]. split; try done.
    - intros j Hj. destruct (Hm j Hj) as [Hwj (w & Hf & Hv)]. split; [done|]. exists w.
      split; [|done]. rewrite Hlog. by rewrite first_delivered_snoc, Hf.
    - intros j Hj. rewrite Hlog, first_delivered_snoc, Hn by done.
      destruct (Nat.eqb_spec i j) as [->|]; [|done]. by destruct Hj. }
  change (i ∉ m_depMatched mo) in Hi. split; try done.
  intros [Hu Hm Hn Hc]. split; try done.
  - intros j. cbn -[first_delivered mo1]. rewrite Hlog, first_delivered_snoc.
    destruct (decide (j = i)) as [->|Hne].
    + intros _. split; [done|]. exists v. rewrite Hn, Nat.eqb_refl by done.
      split; [done|apply set_at_eq].
    + intros Hj. assert (Hj' : j ∈ m_depMatched mo) by set_solver.
      destruct (Hm j Hj') as [Hwj (w & Hf & Hv)].
      split; [done|]. exists w. rewrite Hf. split; [done|by apply set_at_other].
  - intros j. cbn -[first_delivered mo1].
    rewrite not_elem_of_union, not_elem_of_singleton. intros [Hne Hj]. rewrite Hlog, first_delivered_snoc, Hn by done. by destruct (Nat.eqb_spec i j) as [->|].
  - cbn. rewrite Hc. unfold outstanding at 1. rewrite (filter_remove _ i).
    + rewrite Nat2Z.inj_succ, Z.pred_succ. unfold outstanding. cbn. do 2 f_equal. apply filter_ext.
      intros j. rewrite <- andb_assoc. f_equal. apply Bool.eq_true_iff_eq.
      rewrite andb_true_iff, !negb_true_iff, !bool_decide_eq_false. set_solver.
    + apply NoDup_seq.
    + apply elem_of_seq. apply wired_bound in Hw. lia.
    + by rewrite Hw, bool_decide_false.
Qed.

(** The dependencies that [init] is given. *)
Lemma wired_names deps i : wired (map DName deps) i = false.
Proof.
  unfold wired. rewrite list_lookup_fmap. by destruct (deps !! i).
Qed.

Lemma filter_none {A} (P : A -> bool) l : (forall x, P x = false) -> List.filter P l = [].
Proof. intros H. induction l as [|x l IH]; simpl; [done|]. by rewrite H. Qed.

Lemma init_step mo deps sk eb ig :
  m_inited mo = false -> mod_ok mo ->
  mod_step mo (mo <| m_depMaps := map DName deps |> <| m_skipMap := sk |>
                  <| m_errback := eb |> <| m_inited := true |> <| m_ignore := ig |>).
Proof.
  intros Hi [Hu Hm Hn Hc]. specialize (Hu Hi). split; try done.
  - intros _. split; [done| |done|].
    + intros i Hin. apply Hm in Hin as [Hw _]. by rewrite Hu in Hw.
    + cbn. rewrite Hc. unfold outstanding. rewrite Hu. cbn.
      rewrite filter_none; [done|]. intros i.
      unfold RecordSettersUsingExistingGetters.const. by rewrite wired_names.
  - intros i map. by rewrite Hu.
  - by rewrite Hi.
  - by rewrite Hi.
Qed.

(** The name of a dependency is replaced by its map. *)
Lemma outstanding_insert mo i name map :
  m_depMaps mo !! i = Some (DName name) -> (i ∈ m_depMatched mo -> False) ->
  length (List.filter (fun j => wired (<[i := DMap map]> (m_depMaps mo)) j
                                && negb (bool_decide (j ∈ m_depMatched mo)))
            (seq 0 (length (m_depMaps mo)))) =
    length (outstanding mo) + (if present (handlers (mm_id map)) then 0 else 1).
Proof.
  intros Hi Hm. assert (Hlt : i < length (m_depMaps mo)) by by eapply lookup_lt_Some.
  assert (Hne : forall j, j <> i -> wired (<[i := DMap map]> (m_depMaps mo)) j = wired (m_depMaps mo) j).
  { intros j Hj. unfold wired. by rewrite list_lookup_insert_ne. }
  assert (Heq : wired (<[i := DMap map]> (m_depMaps mo)) i = negb (present (handlers (mm_id map)))).
  { unfold wired. by rewrite list_lookup_insert_eq. }
  assert (Hold : wired (m_depMaps mo) i = false) by (unfold wired; by rewrite Hi).
  unfold outstanding. destruct (present (handlers (mm_id map))).
  - rewrite Nat.add_0_r. f_equal. apply filter_ext. intros j.
    destruct (decide (j = i)) as [->|Hj]; [by rewrite Heq, Hold|by rewrite Hne].
  - rewrite (filter_remove _ i); [|apply NoDup_seq|apply elem_of_seq; lia|].
    + rewrite Nat.add_1_r. do 2 f_equal. apply filter_ext. intros j.
      destruct (decide (j = i)) as [->|Hj].
      * by rewrite Hold, (bool_decide_true (i = i)), andb_false_r.
      * by rewrite Hne, (bool_decide_false (j = i)), andb_true_r.
    + rewrite Heq, bool_decide_false; done.
Qed.

Lemma unmatched_name mo i name :
  mod_ok mo -> m_depMaps mo !! i = Some (DName name) -> i ∈ m_depMatched mo -> False.
Proof. intros Hok Hi Hm. apply (mo_matched _ Hok) in Hm as [Hw _]. unfold wired in Hw. by rewrite Hi in Hw. Qed.

Lemma insert_deps_step mo i name map n :
  m_depMaps mo !! i = Some (DName name) -> mod_ok mo ->
  n = (if present (handlers (mm_id map)) then m_depCount mo else Z.succ (m_depCount mo)) ->
  mod_step mo (mo <| m_depMaps ::= insert i (DMap map) |> <| m_depCount := n |>).
Proof.
  intros Hi Hok ->. pose proof (unmatched_name _ _ _ Hok Hi) as Hun. destruct Hok as [Hu Hm Hn Hc].
  assert (Hlt : i < length (m_depMaps mo)) by by eapply lookup_lt_Some.
  assert (Hother : forall j, j <> i -> (<[i := DMap map]> (m_depMaps mo)) !! j = m_depMaps mo !! j)
    by (intros j Hj; by apply list_lookup_insert_ne).
  split; try done.
  - intros _. split.
    + cbn. intros Hin. by rewrite (Hu Hin).
    + intros j Hj. destruct (Hm j Hj) as [Hw Hv]. split; [|done]. cbn. unfold wired in *.
      rewrite Hother; [done|]. by intros ->.
    + exact Hn.
    + cbn. unfold outstanding. cbn. rewrite length_insert, (outstanding_insert _ _ _ _ Hi Hun).
      unfold RecordSettersUsingExistingGetters.const.
      destruct (present (handlers (mm_id map))); rewrite Hc; lia.
  - intros j map' Hj. cbn. rewrite Hother; [done|]. intros ->. by rewrite Hi in Hj.
  - intros Hin. cbn. by rewrite length_insert.
  - intros j n _ Hj. cbn in Hj. destruct (decide (j = i)) as [->|Hne].
    + by rewrite list_lookup_insert_eq in Hj.
    + by rewrite Hother in Hj.
Qed.

(** The argument for a special dependency. *)
Lemma special_step mo i map a :
  m_depMaps mo !! i = Some (DMap map) -> present (handlers (mm_id map)) = true ->
  mod_step mo (mo <| m_depExports ::= set_at (AVal VUndef) i a |>).
Proof.
  intros Hi Hh. split; try done. intros [Hu Hm Hn Hc]. split; try done.
  intros j Hj. destruct (Hm j Hj) as [Hw (v & Hf & Hv)]. split; [done|]. exists v. split; [done|].
  cbn. apply set_at_other; [|done]. intros ->. unfold wired in Hw. by rewrite Hi, Hh in Hw.
Qed.

(** ** The operations, for any safe [exec] *)

Section Exec.
Context {E : Env} (exec : call -> M unit).
Hypothesis safe_exec : forall c, safe_from (call_ok c) (exec c).

Lemma safe_call c : (forall s, call_ok c s) -> safe (exec c).
Proof. intros H s Hs. by apply safe_exec. Qed.

Lemma safe_mk_map name parent isN appl : safe (mk_map name parent isN appl).
Proof.
  intros s Hs. unfold mk_map. destruct (ModuleMaps.makeModuleMap _ _ _ _ _ _ _ _) as [map c].
  apply view_step; [same_view|done].
Qed.

Lemma safe_listeners_of m name : safe (listeners_of m name).
Proof. apply safe_gets. Qed.

(** The automation: follow the shape of an operation. *)
Ltac safe_step :=
  match goal with
  | |- safe (mret _) => apply safe_ret
  | |- safe skip => apply safe_skip
  | |- safe (throw _) => apply safe_throw
  | |- safe (gets _) => apply safe_gets
  | |- safe (get _) => apply safe_get
  | |- safe (reg _) => apply safe_reg
  | |- safe fresh => apply safe_fresh
  | |- safe (mk_map _ _ _ _) => apply safe_mk_map
  | |- safe (listeners_of _ _) => apply safe_gets
  | |- safe (getModule _) => apply safe_getModule
  | |- safe (module_on _ _ _) => intros ? ?; apply safe_module_on; [assumption|exact I]
  | |- safe (exec _) => apply safe_call; intros ?; exact I
  | |- safe (try _) => apply safe_try
  | |- safe (upd _ _) => apply safe_upd_same; intros ?; by repeat split
  | |- safe (modify (fun s => s <| registry ::= prop_del _ |>)) => apply safe_delete
  | |- safe (modify _) => apply safe_modify; intros ?; same_view
  | |- safe (_ ≫= _) => apply safe_bind; [|intros ?]
  | |- safe (let '(_, _) := ?x in _) => destruct x
  | |- safe (match ?x with _ => _ end) => destruct x
  | |- safe (if ?x then _ else _) => destruct x
  | |- safe (let _ := _ in _) => cbv zeta
  | H : forall _, safe _ |- _ => apply H
  end.
Ltac safe := repeat (safe_step || eauto with safedb).
Create HintDb safedb.

Lemma safe_emit m name evt : safe (emit exec m name evt).
Proof. unfold emit. safe. Qed.

Lemma safe_emit_from arr i evt : safe (emit_from exec arr i evt).
Proof.
  unfold emit_from. apply safe_gets_bind. intros s Hs.
  destruct ((arrays s !! arr) ≫= _) as [cb|] eqn:Hcb; [|by apply safe_ret].
  apply bind_Some in Hcb as (l & Hl & Hcb). apply list_elem_of_lookup_2 in Hcb.
  assert (Hok : call_ok (CListener cb evt) s).
  { destruct cb; try done. by eapply inv_arrays. }
  unfold mbind, M_bind.
  destruct (safe_exec _ s Hs Hok) as [Hi Hla]. destruct (exec (CListener cb evt) s) as [s1 [[]|e]]; [|done].
  destruct (safe_exec (CEmit arr (S i) evt) s1 Hi I) as [Hi2 Hl2]. split; [done|]. by etransitivity.
Qed.

Lemma safe_settled map : safe (settled map).
Proof. unfold settled. safe. Qed.

Lemma safe_on_defined map fn : safe_from (listener_ok fn) (on_defined exec map fn).
Proof.
  unfold on_defined. apply safe_from_bind; [apply listener_ok_stable|apply safe_weaken, safe_settled|].
  intros [v|]; [apply (safe_exec (CListener fn (EvDefined v)))|].
  apply safe_from_bind; [apply listener_ok_stable|apply safe_weaken, safe_getModule|].
  intros m. apply safe_module_on.
Qed.

Lemma safe_on_error map fn : safe (on_error map fn).
Proof. unfold on_error. apply safe_bind; [apply safe_settled|]. intros d. safe. Qed.

Hint Resolve safe_emit safe_settled safe_on_error : safedb.

Lemma safe_notify ids err : safe (notify exec ids err).
Proof. induction ids as [|id ids IH]; simpl; safe. Qed.
Hint Resolve safe_notify : safedb.

Lemma safe_onError err : safe (onError exec err).
Proof. unfold onError. safe. Qed.
Hint Resolve safe_onError : safedb.

Lemma safe_takeGlobalQueue : safe takeGlobalQueue.
Proof. apply safe_modify. intros s. destruct (globalDefQueue s); same_view. Qed.

Lemma safe_shift : safe shift.
Proof. unfold shift. safe. Qed.

Lemma safe_callGetModule name deps f : safe (callGetModule exec name deps f).
Proof. unfold callGetModule. safe. Qed.

Lemma safe_removeWaiting id : safe (removeWaiting id).
Proof.
  unfold removeWaiting. apply safe_bind; [apply safe_delete|]. intros _. apply safe_modify.
  intros s. cbv zeta. destruct (list_find _ _) as [[i m]|]; same_view.
Qed.
Hint Resolve safe_takeGlobalQueue safe_shift safe_callGetModule safe_removeWaiting : safedb.

(** An event of a script: requested for the first time, or forgotten. *)
Lemma loads_step s x :
  (forall url, x = Requested url -> url ∉ urlFetched s) -> inv s ->
  inv (s <| urlFetched ::= fun u => log_step u x |> <| loads ::= fun l => l ++ [x] |>) /\
  later s (s <| urlFetched ::= fun u => log_step u x |> <| loads ::= fun l => l ++ [x] |>).
Proof.
  intros Hx Hs. split; [|by apply later_frame; [|apply same_runs|]]. split; try apply Hs; cbn.
  - unfold fetched_after. by rewrite fold_left_app, (inv_fetched _ Hs).
  - intros l1 url l2 H. destruct l2 as [|y l2 _] using rev_ind.
    + apply app_inj_tail in H as [<- ->]. rewrite <- (inv_fetched _ Hs). by apply Hx.
    + rewrite app_comm_cons, app_assoc in H. apply app_inj_tail in H as [H _].
      by eapply (inv_loads _ Hs).
Qed.

Lemma safe_undef id : safe (undef id).
Proof.
  unfold undef. apply safe_bind; [apply safe_mk_map|]. intros map.
  apply safe_bind; [apply safe_reg|]. intros r.
  apply safe_bind; [safe|]. intros _.
  apply safe_bind; [|intros _; safe]. intros s Hs. cbn. destruct (mm_url map) as [url|]; [|by split].
  by apply (loads_step s (Forgotten url)).
Qed.

Lemma safe_load m : safe (load m).
Proof.
  unfold load. apply safe_bind; [apply safe_get|]. intros mo s Hs. cbn.
  case_decide as Hu; [by split|]. set (url := default [] (mm_url (m_map mo))) in *.
  destruct (loads_step s (Requested url)) as [Hi Hl]; [by intros ? [= <-]|done|].
  split; [|by apply later_frame; [|apply same_runs|]].
  eapply same_view_inv; [|exact Hi]. same_view.
Qed.
Hint Resolve safe_undef safe_load : safedb.

Lemma safe_removeScript name : safe (removeScript name).
Proof. apply safe_modify. intros s. destruct (list_find _ _) as [[i m]|]; same_view. Qed.
Hint Resolve safe_removeScript : safedb.

Lemma safe_hasPathFallback id : safe (hasPathFallback exec id).
Proof. unfold hasPathFallback. safe. Qed.

Lemma safe_require_name rel name : safe (require_name exec rel name).
Proof. unfold require_name. safe. Qed.

Lemma safe_drop_unnormalized pre keys : safe (drop_unnormalized pre keys).
Proof. induction keys as [|k keys IH]; simpl; safe. Qed.
Hint Resolve safe_hasPathFallback safe_require_name safe_drop_unnormalized : safedb.

Lemma safe_load_error l n : safe (load_error exec l n).
Proof.
  unfold load_error. cbv zeta. apply safe_bind; [|intros _; safe].
  apply safe_upd. intros mo. split; try done. intros []. by split.
Qed.
Hint Resolve safe_load_error : safedb.

Lemma safe_run p : safe (run exec p).
Proof. induction p; simpl; unfold define, load_value; safe. Qed.
Hint Resolve safe_run : safedb.

Lemma safe_call_errback eb err : safe (call_errback exec eb err).
Proof. unfold call_errback. safe. Qed.
Hint Resolve safe_call_errback : safedb.

(** ** The methods of [Module] *)

Lemma at_safe {A} (m : M A) s : safe m -> inv s -> safe_at m s.
Proof. intros H Hs. by apply H. Qed.

Lemma at_upd m f s : inv s -> mod_step (mod_at s m) (f (mod_at s m)) -> safe_at (upd m f) s.
Proof. intros Hs Hf. split; [by apply upd_inv|by apply upd_later]. Qed.

Lemma module_on_mods m name cb s : mods (module_on m name cb s).1 = mods s.
Proof. unfold module_on, listeners_of. unfold_m.
  by match goal with |- context [option_bind ?a ?b ?f ?x] => destruct (option_bind a b f x) end.
Qed.

Lemma inited_upd m f s m' :
  (forall mo, m_inited (f mo) = m_inited mo) ->
  m_inited (mod_at (upd m f s).1 m') = m_inited (mod_at s m').
Proof. intros Hf. rewrite mod_at_upd. case_decide as H; [|done]. destruct H as [-> _]. apply Hf. Qed.

Lemma safe_init m deps sk f eb ig en : safe (init exec m deps sk f eb ig en).
Proof.
  unfold init. apply safe_gets_bind. intros s Hs.
  destruct (m_inited (mod_at s m)) eqn:Hin; [by apply safe_skip|].
  apply at_bind; [by apply at_safe; [safe|]|]. intros [] s1 E1 Hi1 _.
  assert (Hin1 : m_inited (mod_at s1 m) = false).
  { rewrite <- Hin. replace s1 with (upd m (fun mo => mo <| m_factory := f |>) s).1 by by rewrite E1.
    by apply inited_upd. }
  apply at_bind; [apply at_safe; [safe|done]|]. intros eb' s2 E2 Hi2 _.
  assert (Hin2 : m_inited (mod_at s2 m) = false).
  { rewrite <- Hin1. f_equal. apply mod_at_mods. destruct eb as [e|].
    - pose proof (module_on_mods m s_error (LErrback e) s1) as Hm. unfold mbind, M_bind in E2.
      destruct (module_on m s_error (LErrback e) s1) as [s3 [[]|]]; [|done]. by injection E2 as <- <-.
    - revert E2. unfold listeners_of. unfold_m. by intros [= <- <-]. }
  apply at_bind; [apply at_upd; [done|]; apply init_step; [done|by apply inv_mod]|].
  intros [] s3 _ Hi3 _. apply at_safe; [safe|done].
Qed.

Lemma upd_seq m f g s : (upd m f ;; upd m g) s = upd m (fun mo => g (f mo)) s.
Proof. unfold upd. unfold_m. f_equal. unfold set. cbn. f_equal. apply alter_alter_eq. Qed.

Lemma safe_deliver m i v :
  safe_from (listener_ok (LDep m i)) (note m i v ;; defineDep m i (AVal v)).
Proof.
  intros s Hs Hok. unfold note, defineDep. rewrite upd_seq. apply at_upd; [done|].
  by apply deliver_step.
Qed.

Lemma safe_defineDepById m id v :
  handlers id = None -> safe (defineDepById m id v).
Proof.
  intros Hid. unfold defineDepById. apply safe_gets_bind. intros s Hs.
  destruct (list_find _ _) as [[i d]|] eqn:Ef; [|by apply safe_skip].
  apply list_find_Some in Ef as (Hi & Hd & _). apply safe_deliver; [done|].
  unfold listener_ok, wired. rewrite Hi. destruct d as [|map]; [done|]. cbn in Hd.
  injection Hd as ->. by rewrite Hid.
Qed.

Lemma safe_context_enable map : safe (context_enable exec map).
Proof. unfold context_enable. safe. Qed.
Hint Resolve safe_context_enable : safedb.

Lemma safe_callPlugin m : safe (callPlugin exec m).
Proof.
  unfold callPlugin. apply safe_bind; [safe|]. intros mo. cbv zeta.
  apply safe_bind; [safe|]. intros pm. apply safe_bind; [|intros _; safe].
  intros s Hs. by apply safe_on_defined.
Qed.
Hint Resolve safe_callPlugin : safedb.

Lemma safe_load_or_plugin m b : safe (load_or_plugin exec m b).
Proof. unfold load_or_plugin. safe. Qed.
Hint Resolve safe_load_or_plugin : safedb.

Lemma safe_fetch m : safe (fetch exec m).
Proof. unfold fetch. safe. Qed.
Hint Resolve safe_fetch : safedb.

Lemma safe_enable_if_needed map : safe (enable_if_needed exec map).
Proof. unfold enable_if_needed. safe. Qed.
Hint Resolve safe_enable_if_needed : safedb.

Lemma safe_run_handler h m : safe (run_handler h m).
Proof. unfold run_handler. safe. Qed.


Lemma mk_map_mods name parent isN appl s : mods (mk_map name parent isN appl s).1 = mods s.
Proof. unfold mk_map. by destruct (ModuleMaps.makeModuleMap _ _ _ _ _ _ _ _). Qed.

Lemma upd_upd {A} m f g (k : M A) s :
  (upd m f ;; upd m g ;; k) s = (upd m (fun mo => g (f mo)) ;; k) s.
Proof.
  unfold upd. unfold_m. f_equal. unfold set. cbn. f_equal. apply alter_alter_eq.
Qed.

Lemma dep_allocated s m i d : m_depMaps (mod_at s m) !! i = Some d -> m ∈ dom (mods s).
Proof.
  intros H. destruct (decide (m ∈ dom (mods s))) as [|Hn]; [done|].
  by rewrite (mod_at_unallocated _ _ Hn) in H.
Qed.

(** Entry [i] of [depMaps] is no name that is still to be wired. *)
Definition wired_up (m i : nat) (s : state) : Prop :=
  forall n, m_depMaps (mod_at s m) !! i = Some (DName n) -> n = [].

Lemma holds_wired {A} m i map (x : M A) s :
  m_depMaps (mod_at s m) !! i = Some (DMap map) -> safe_at x s ->
  holds x s (fun _ s' => wired_up m i s').
Proof.
  intros Hi [Hs Hl]. split; [done|]. intros a s' Heq n. rewrite Heq in Hl. cbn in Hl.
  by rewrite (later_deps _ _ Hl _ _ _ Hi).
Qed.

Lemma insert_map_deps s m i d map (f : module -> module) :
  m_depMaps (mod_at s m) !! i = Some d ->
  (forall mo, m_depMaps (f mo) = <[i := DMap map]> (m_depMaps mo)) ->
  m_depMaps (mod_at (upd m f s).1 m) !! i = Some (DMap map).
Proof.
  intros Hi Hf. rewrite mod_at_upd, decide_True by (split; [done|by eapply dep_allocated]).
  rewrite Hf. apply list_lookup_insert_eq. by eapply lookup_lt_Some.
Qed.

(** The special dependency [h] of [m] at [i]: its argument. *)
Lemma at_special m i map h s :
  inv s -> m_depMaps (mod_at s m) !! i = Some (DMap map) -> handlers (mm_id map) = Some h ->
  safe_at (a ← run_handler h m; upd m (fun mo => mo <| m_depExports ::= set_at (AVal VUndef) i a |>)) s.
Proof.
  intros Hs Hi Hh. apply at_bind; [apply at_safe; [apply safe_run_handler|done]|].
  intros a s2 _ Hi2 Hl2. apply at_upd; [done|].
  eapply (special_step _ _ map); [by apply Hl2|by rewrite Hh].
Qed.

(** The wiring of [m] to the module of its dependency [i]. *)
Lemma at_wire m i map eb s :
  inv s -> m_depMaps (mod_at s m) !! i = Some (DMap map) -> handlers (mm_id map) = None ->
  safe_at (on_defined exec map (LDep m i) ;;
           (match eb with Some eb => on_error map eb | None => skip end) ;;
           enable_if_needed exec map) s.
Proof.
  intros Hs Hi Hh. apply at_bind.
  { apply safe_on_defined; [done|]. unfold listener_ok, wired. by rewrite Hi, Hh. }
  intros [] s2 _ Hi2 _. apply at_safe; [|done]. apply safe_bind; [|intros _; safe].
  destruct eb; safe.
Qed.

Lemma enable_dep_holds m i s :
  inv s -> holds (enable_dep exec m i) s (fun _ s' => wired_up m i s').
Proof.
  intros Hs. unfold enable_dep. apply holds_bind; [by apply at_safe; [safe|]|].
  intros mo s0 [= <- <-] _ _.
  destruct (m_depMaps (mod_at s m) !! i) as [[name|map]|] eqn:Hi.
  2: { apply (holds_wired m i map); [done|]. by apply at_safe; [apply safe_enable_if_needed|]. }
  2: { split; [by apply safe_skip|]. intros [] s' [= <-] n. by rewrite Hi. }
  destruct (truthy name) eqn:Ht; cbn [negb].
  2: { split; [by apply safe_skip|]. intros [] s' [= <-] n. rewrite Hi. intros [= <-]. by destruct name. }
  apply holds_bind; [by apply at_safe; [safe|]|]. intros map s1 E1 Hi1 _.
  assert (Hm1 : mods s1 = mods s).
  { rewrite <- (mk_map_mods (Some name)
      (if mm_isDefine (m_map (mod_at s m)) then Some (m_map (mod_at s m))
       else mm_parentMap (m_map (mod_at s m))) false (negb (m_skipMap (mod_at s m))) s).
    by rewrite E1. }
  rewrite <- (mod_at_mods s s1) in Hi by done.
  pose proof (insert_deps_step (mod_at s1 m) i name map) as Hst.
  specialize (Hst _ Hi (inv_mod s1 m Hi1) eq_refl).
  destruct (handlers (mm_id map)) as [h|] eqn:Hh; [|unfold holds, safe_at; rewrite upd_upd];
    (apply holds_bind; [apply at_upd; [done|]; revert Hst; by destruct (mod_at s1 m)|]);
    intros [] s2 E2 Hi2 _;
    (assert (Hd2 : m_depMaps (mod_at s2 m) !! i = Some (DMap map));
     [match type of E2 with ?u s1 = _ => replace s2 with (u s1).1 by by rewrite E2 end;
      by eapply insert_map_deps|]);
    apply (holds_wired m i map); try done.
  - by eapply at_special.
  - by apply at_wire.
Qed.

Lemma safe_enable_dep m i : safe (enable_dep exec m i).
Proof. intros s Hs. by apply enable_dep_holds. Qed.

Lemma safe_enable_deps m idx : safe (enable_deps exec m idx).
Proof.
  induction idx as [|i idx IH]; [apply safe_skip|]. cbn [enable_deps].
  apply safe_bind; [apply safe_enable_dep|]. by intros [].
Qed.

Lemma safe_enable_plugins l : safe (enable_plugins exec l).
Proof. induction l as [|[k map] l IH]; cbn [enable_plugins]; safe. Qed.

Lemma safe_enable m : safe (enable exec m).
Proof.
  unfold enable. apply safe_bind; [safe|]. intros _. apply safe_bind; [safe|]. intros mo.
  apply safe_bind; [safe|]. intros _. apply safe_bind; [safe|]. intros _.
  apply safe_bind; [apply safe_enable_deps|]. intros _. apply safe_bind; [safe|]. intros mo2.
  apply safe_bind; [apply safe_enable_plugins|]. intros _. safe.
Qed.

Lemma wired_up_later m i s s' :
  m_inited (mod_at s m) = true -> later s s' -> wired_up m i s -> wired_up m i s'.
Proof. intros Hin Hl Hw n Hn. apply Hw. by apply (later_names _ _ Hl). Qed.

Lemma enable_deps_holds m idx : forall s, inv s -> m_inited (mod_at s m) = true ->
  holds (enable_deps exec m idx) s (fun _ s' => forall i, i ∈ idx -> wired_up m i s').
Proof.
  induction idx as [|i idx IH]; intros s Hs Hin; cbn [enable_deps].
  { split; [by apply safe_skip|]. by intros [] s' _ i ?%elem_of_nil. }
  destruct (enable_dep_holds m i s Hs) as [Ha Hb]. apply holds_bind; [done|].
  intros [] s1 E1 Hi1 Hl1. specialize (Hb _ _ E1).
  assert (Hin1 : m_inited (mod_at s1 m) = true) by by apply Hl1.
  destruct (IH s1 Hi1 Hin1) as [[Hc1 Hc2] Hd]. split; [done|]. intros [] s2 E2 k.
  rewrite E2 in Hc2. intros [->|Hk]%elem_of_cons; [by eapply wired_up_later|by eapply Hd].
Qed.

(** When [enable] comes back, every dependency of an initialised module is wired. *)
Lemma enable_holds m s : inv s -> m_inited (mod_at s m) = true ->
  holds (enable exec m) s (fun _ s' => forall i, wired_up m i s').
Proof.
  intros Hs Hin. unfold enable.
  apply holds_bind; [by apply at_safe; [safe|]|]. intros [] s1 _ Hi1 Hl1.
  apply holds_bind; [by apply at_safe; [safe|]|]. intros mo s1' [= <- <-] _ _.
  apply holds_bind; [by apply at_safe; [safe|]|]. intros [] s2 _ Hi2 Hl2.
  apply holds_bind; [by apply at_safe; [safe|]|]. intros [] s3 _ Hi3 Hl3.
  assert (Hl13 : later s1 s3) by by etransitivity.
  assert (Hin1 : m_inited (mod_at s1 m) = true) by by apply Hl1.
  destruct (later_inited _ _ Hl13 m Hin1) as [Hin3 Hlen].
  destruct (enable_deps_holds m (seq 0 (length (m_depMaps (mod_at s1 m)))) s3 Hi3 Hin3) as [Ha Hb].
  apply holds_bind; [done|]. intros [] s4 E4 Hi4 Hl4. specialize (Hb _ _ E4).
  assert (Hall : forall i, wired_up m i s4).
  { intros i. destruct (decide (i < length (m_depMaps (mod_at s1 m)))) as [Hlt|Hge].
    - apply Hb. apply elem_of_seq. lia.
    - intros n Hn. apply lookup_lt_Some in Hn. destruct (later_inited _ _ Hl4 m Hin3) as [_ ?]. lia. }
  apply holds_safe; [done| |].
  - apply safe_bind; [safe|]. intros mo2. apply safe_bind; [apply safe_enable_plugins|]. intros _. safe.
  - intros [] s' _ Hl i. eapply wired_up_later; [|exact Hl|apply Hall].
    by apply (later_inited _ _ Hl4 m Hin3).
Qed.

Lemma safe_execCb f args : safe (execCb exec f args).
Proof. unfold execCb. safe. Qed.
Hint Resolve safe_execCb : safedb.

Lemma safe_set_defined m : safe (upd m (fun mo => mo <| m_defined := true |>)).
Proof. apply safe_upd. intros mo. split; try done. intros []. by split. Qed.

Lemma complete_holds m id e s : inv s -> m ∈ dom (mods s) ->
  holds (complete m id e) s (fun _ s' => m_defined (mod_at s' m) = true).
Proof.
  intros Hs Hm. unfold complete.
  apply holds_bind; [by apply at_safe; [safe|]|]. intros [] s1 _ Hi1 Hl1.
  apply holds_bind; [by apply at_safe; [safe|]|]. intros mo s2 _ Hi2 Hl2.
  apply holds_bind.
  { set (b := mm_isDefine (m_map mo) && negb (m_ignore mo)). unfold safe_at. cbn.
    set (s3 := if b then s2 <| defined ::= insert id e |> else s2).
    assert (Hv : same_view s2 s3) by (subst s3; destruct b; same_view).
    destruct (view_step _ _ Hv Hi2) as [Hi3 Hl3].
    destruct (registry_step s3 (prop_del id)) as [Hi4 Hl4]; [apply prop_del_keys, Hi3|done|].
    split; [done|]. by etransitivity. }
  intros [] s3 _ Hi3 Hl3.
  apply holds_bind; [by apply at_safe; [apply safe_set_defined|]|]. intros [] s4 E4 Hi4 Hl4.
  apply holds_safe; [done|safe|]. intros [] s' _ Hl. apply Hl.
  replace s4 with (upd m (fun mo => mo <| m_defined := true |>) s3).1 by by rewrite E4.
  rewrite mod_at_upd, decide_True; [done|]. split; [done|]. by apply Hl3, Hl2, Hl1.
Qed.

Lemma safe_factory_error m err : safe (factory_error exec m err).
Proof. unfold factory_error. safe. Qed.
Hint Resolve safe_factory_error : safedb.

Lemma no_outstanding mo i :
  mod_ok mo -> (m_depCount mo < 1)%Z -> wired (m_depMaps mo) i = true ->
  exists v, first_delivered i (m_delivered mo) = Some v /\ m_depExports mo !! i = Some (AVal v).
Proof.
  intros Hok Hc Hw. apply (mo_matched _ Hok).
  destruct (decide (i ∈ m_depMatched mo)) as [|Hn]; [done|]. exfalso.
  rewrite (mo_count _ Hok) in Hc. assert (Hin : In i (outstanding mo)).
  { apply filter_In. split; [apply in_seq; apply wired_bound in Hw; lia|].
    by rewrite Hw, bool_decide_false. }
  destruct (outstanding mo); [done|]. simpl in Hc. lia.
Qed.

(** The record of a call of the factory. *)
Definition module_run (s : state) (m : nat) : run_record :=
  let mo := mod_at s m in Run m (m_depMaps mo) (m_depExports mo) (m_delivered mo).

(** The factory of a module that is being defined, and whose dependencies are there,
    is called for the first time. *)
Lemma run_step s m :
  inv s -> m_defining (mod_at s m) = true -> (m_depCount (mod_at s m) < 1)%Z ->
  m ∉ map r_mod (runs s) ->
  let r := module_run s m in
  inv (s <| runs ::= fun l => l ++ [r] |>) /\ later s (s <| runs ::= fun l => l ++ [r] |>).
Proof.
  intros Hs Hd Hc Hm r. split; [|apply later_frame; [done|by exists [r]|done]].
  split; try apply Hs; cbn.
  - rewrite map_app. apply NoDup_app. split; [apply Hs|].
    split; [|apply NoDup_singleton]. by intros x Hx ->%list_elem_of_singleton.
  - intros r' [H|H%list_elem_of_singleton]%elem_of_app; [by apply (inv_runs_busy _ Hs)|].
    subst r'. by left.
  - intros r' [H|H%list_elem_of_singleton]%elem_of_app; [by apply (inv_runs_ready _ Hs)|].
    subst r'. intros i Hw. apply no_outstanding; [by apply inv_mod|done|done].
Qed.

Lemma done_holds m id e s : inv s -> m ∈ dom (mods s) ->
  holds (complete m id e ;; mret false) s (fun r s' => r = false -> m_defined (mod_at s' m) = true).
Proof.
  intros Hs Hm. destruct (complete_holds m id e s Hs Hm) as [Hc1 Hc2].
  apply holds_bind; [done|]. intros [] s2 E2 Hi2 _. split; [by apply safe_ret|].
  intros b s' [= <- _] _. by eapply Hc2.
Qed.

Lemma factory_done_holds m id r s : inv s -> m ∈ dom (mods s) ->
  holds (factory_done exec m id r) s (fun b s' => b = false -> m_defined (mod_at s' m) = true).
Proof.
  intros Hs Hm. unfold factory_done. destruct r as [[v e]|err].
  2: { apply holds_bind; [by apply at_safe; [safe|]|]; intros [] s4 _ Hi4 _.
       apply holds_safe; [done|apply safe_ret|]; by intros b s' [= _ <-]. }
  apply holds_bind; [apply at_safe; [|done];
    apply safe_upd_same; intros mo'; destruct e, (m_module mo'); by repeat split|].
  intros [] s4 _ Hi4 Hl4; apply holds_bind; [by apply at_safe; [safe|]|].
  intros mo4 s5 _ Hi5 Hl5. apply done_holds; [done|]. by apply Hl5, Hl4.
Qed.

Lemma call_factory_holds m id f args s : inv s -> m ∈ dom (mods s) ->
  holds (call_factory exec m id f args) s (fun r s' => r = false -> m_defined (mod_at s' m) = true).
Proof.
  intros Hs Hm. unfold call_factory.
  apply holds_bind; [by apply at_safe; [safe|]|]; intros l s2 _ Hi2 Hl2.
  apply holds_bind; [apply at_safe; [destruct l; safe|done]|]; intros r s3 _ Hi3 Hl3.
  apply factory_done_holds; [done|]. by apply Hl3, Hl2.
Qed.

(** What is recorded while an operation runs stays recorded. *)
Lemma bind_runs {A B} (x : M A) (f : A -> M B) s :
  (forall a s1, x s = (s1, inl a) -> safe_at (f a) s1) ->
  exists l, runs ((x ≫= f) s).1 = runs (x s).1 ++ l.
Proof.
  intros Hf. unfold mbind, M_bind. destruct (x s) as [s1 [a|e]]; [by apply (Hf a s1)|].
  exists []. by rewrite app_nil_r.
Qed.

(** A function factory is run, on its arguments. *)
Lemma call_factory_runs m id ar rq f args s : inv s -> m ∈ dom (mods s) ->
  exists l, runs (call_factory exec m id (FFun ar rq f) args s).1 = runs (run exec (f args) s).1 ++ l.
Proof.
  intros Hs Hm. destruct (safe_run (f args) s Hs) as [Hi Hl].
  assert (Hm' : m ∈ dom (mods (run exec (f args) s).1)) by by apply Hl.
  unfold call_factory, listeners_of, gets. unfold mbind at 1, M_bind at 1.
  assert (Hdone : forall (x : M ((val * option val) + error)),
    (x s).1 = (run exec (f args) s).1 ->
    exists l, runs ((x ≫= factory_done exec m id) s).1 = runs (run exec (f args) s).1 ++ l).
  { intros x Hx. rewrite <- Hx. apply bind_runs. intros a s1 Ex. rewrite Ex in Hx. cbn in Hx. subst s1.
    by apply factory_done_holds. }
  destruct (events s !! _ ≫= _); apply Hdone; cbn [execCb].
  - unfold try. by destruct (run exec (f args) s) as [? [?|[?|]]].
  - unfold mbind, M_bind. by destruct (run exec (f args) s) as [? [?|?]].
Qed.

Lemma define_module_holds m s :
  inv s -> m ∈ dom (mods s) -> m_defining (mod_at s m) = true ->
  (m_depCount (mod_at s m) < 1)%Z -> m ∉ map r_mod (runs s) ->
  holds (define_module exec m) s (fun r s' => r = false -> m_defined (mod_at s' m) = true).
Proof.
  intros Hs Hm Hd Hc Hr. unfold define_module.
  apply holds_bind; [by apply at_safe; [safe|]|]. intros mo s1 [= <- <-] _ _. cbv zeta.
  destruct (m_factory (mod_at s m)) as [ar rq f|v|n|m' p]; [|by apply done_holds| |].
  all: apply holds_bind; [by apply run_step|]; intros [] s1 _ Hi1 Hl1.
  all: apply call_factory_holds; [done|by apply Hl1].
Qed.

(** A function factory leaves its record first, then it is run. *)
Lemma define_module_runs m s ar rq f :
  inv s -> m ∈ dom (mods s) -> m_defining (mod_at s m) = true ->
  (m_depCount (mod_at s m) < 1)%Z -> m ∉ map r_mod (runs s) ->
  m_factory (mod_at s m) = FFun ar rq f ->
  let s1 := s <| runs ::= fun l => l ++ [module_run s m] |> in
  inv s1 /\
  exists l, runs (define_module exec m s).1 =
    runs (run exec (f (m_depExports (mod_at s m))) s1).1 ++ l.
Proof.
  intros Hs Hm Hd Hc Hr Hf s1. destruct (run_step s m Hs Hd Hc Hr) as [Hi1 Hl1].
  split; [done|]. fold s1 in Hi1, Hl1.
  assert (Hdef : define_module exec m s =
    call_factory exec m (mm_id (m_map (mod_at s m))) (FFun ar rq f) (m_depExports (mod_at s m)) s1).
  { unfold define_module, get, gets, modify, mbind, M_bind. by rewrite Hf. }
  rewrite Hdef. apply call_factory_runs; [done|]. by apply Hl1.
Qed.

(** The end of the define stage. *)
Lemma undefining_step s0 s m :
  inv s -> later s0 s -> m_defining (mod_at s0 m) = false ->
  m_defined (mod_at s m) = true \/ m ∉ map r_mod (runs s) ->
  since s0 (upd m (fun mo => mo <| m_defining := false |>)) s.
Proof.
  intros Hs Hl H0 Hm. set (f := fun mo => mo <| m_defining := false |>).
  assert (Hother : forall m', mod_at (upd m f s).1 m' = mod_at s m' \/
    m' = m /\ mod_at (upd m f s).1 m' = f (mod_at s m)).
  { intros m'. rewrite mod_at_upd. case_decide as H; [right; naive_solver|by left]. }
  split.
  - split; try apply Hs.
    + intros m'. cbn. rewrite dom_alter_L. apply Hs.
    + intros m' mo. cbn. rewrite lookup_alter_Some. intros [(-> & mo0 & Hmo & ->)|[_ H]].
      * destruct (inv_mods _ Hs _ _ Hmo). by split.
      * by eapply inv_mods.
    + intros a l m' i Ha Hin. pose proof (inv_arrays _ Hs a l m' i Ha Hin) as Hw.
      destruct (Hother m') as [->|[-> ->]]; done.
    + intros r Hr. destruct (Hother (r_mod r)) as [->|[Hrm ->]]; [by apply (inv_runs_busy _ Hs)|].
      right. destruct Hm as [Hm|Hm]; [done|]. destruct Hm. rewrite <- Hrm.
      apply list_elem_of_In, in_map. by apply list_elem_of_In.
  - split; intros *; try (destruct (Hother m0) as [->|[-> ->]]; cbn); try apply Hl.
    + cbn. rewrite dom_alter_L. apply Hl.
    + by rewrite H0.
Qed.

Lemma since_finish s0 m silent s :
  inv s -> later s0 s -> m_defining (mod_at s0 m) = false ->
  m_defined (mod_at s m) = true \/ m ∉ map r_mod (runs s) ->
  since s0 (finish_check exec m silent) s.
Proof.
  intros Hs Hl H0 Hm. unfold finish_check.
  apply since_bind; [by apply undefining_step|]. intros [] s1 _ Hi1 Hl1.
  apply since_safe; [done|done|]. safe.
Qed.

(** A module that is marked as being defined. *)
Lemma defining_step mo : mod_step mo (mo <| m_defining := true |>).
Proof. split; try done. intros []. by split. Qed.

(** The define stage, from the state [s1] in which the module was just marked. *)
Lemma define_stage s m :
  inv s -> m ∈ dom (mods s) -> m_defining (mod_at s m) = false ->
  let mo := mod_at s m in
  let s1 := (upd m (fun mo => mo <| m_defining := true |>) s).1 in
  holds (if bool_decide (m_depCount mo < 1)%Z && negb (m_defined mo)
         then define_module exec m else mret false) s1
    (fun r s' => r = false -> m_defined (mod_at s' m) = true \/ m ∉ map r_mod (runs s')).
Proof.
  intros Hs Hm Hdg mo s1.
  destruct (at_upd m (fun mo => mo <| m_defining := true |>) s Hs (defining_step _)) as [Hi1 Hl1].
  fold s1 in Hi1, Hl1.
  assert (Hmo1 : mod_at s1 m = mo <| m_defining := true |>) by
    (subst s1; by rewrite mod_at_upd, decide_True).
  assert (Hnot : m_defined mo = false -> m ∉ map r_mod (runs s1)).
  { intros Hd Hin. apply list_elem_of_In, in_map_iff in Hin as (r & <- & Hr).
    apply list_elem_of_In in Hr. destruct (inv_runs_busy _ Hs r Hr); subst mo; congruence. }
  destruct (bool_decide (m_depCount mo < 1)%Z && negb (m_defined mo)) eqn:Hgo.
  - apply andb_true_iff in Hgo as [Hc%bool_decide_eq_true Hd%negb_true_iff].
    destruct (define_module_holds m s1) as [Ha Hb]; rewrite ?Hmo1; auto; [by apply Hl1|].
    split; [done|]. intros r s' Hr Hf. left. by eapply Hb.
  - split; [by apply safe_ret|]. intros r s' [= <- _] _. rewrite Hmo1. cbn.
    destruct (m_defined mo) eqn:Hd; [by left|right; by apply Hnot].
Qed.

Lemma safe_check m silent : safe (check exec m silent).
Proof.
  unfold check. apply safe_gets_bind. intros s Hs. set (mo := mod_at s m).
  destruct (negb (m_enabled mo) || m_enabling mo) eqn:Hen; [by apply safe_skip|].
  assert (Hm : m ∈ dom (mods s)).
  { destruct (decide (m ∈ dom (mods s))) as [|Hn]; [done|]. subst mo.
    by rewrite (mod_at_unallocated _ _ Hn) in Hen. }
  destruct (negb (m_inited mo)); [by apply safe_fetch|].
  destruct (m_error mo); [by apply safe_emit|].
  destruct (m_defining mo) eqn:Hdg; [by apply safe_skip|].
  apply (since_bind s); [apply at_upd; [done|apply defining_step]|]. intros [] s1 E1 Hi1 Hl1.
  destruct (define_stage s m Hs Hm Hdg) as [[Ha1 Ha2] Hb]. rewrite E1 in Ha1, Ha2, Hb. cbn in *.
  apply since_bind; [split; [done|by etransitivity]|]. intros [|] s2 E2 Hi2 Hl2.
  - by apply since_safe; [| |apply safe_skip].
  - apply since_finish; auto. by eapply Hb.
Qed.

Lemma finish_runs m silent s :
  inv (upd m (fun mo => mo <| m_defining := false |>) s).1 ->
  exists l, runs (finish_check exec m silent s).1 = runs s ++ l.
Proof.
  intros Hs. set (s1 := (upd m (fun mo => mo <| m_defining := false |>) s).1) in *.
  change (exists l, runs ((mo ← get m;
    if negb silent && m_defined mo && negb (m_defineEmitted mo) then
      upd m (fun mo => mo <| m_defineEmitted := true |>) ;;
      emit exec m s_defined (EvDefined (m_exports mo)) ;;
      upd m (fun mo => mo <| m_defineEmitComplete := true |>)
    else skip) s1).1 = runs s1 ++ l).
  match goal with |- context [runs (?x s1).1] => assert (H : safe x) by safe end.
  apply (H s1 Hs).
Qed.

(** The state in which the factory of [m] is run. *)
Definition about_to_run (s : state) (m : nat) : state :=
  (upd m (fun mo => mo <| m_defining := true |>) s).1 <| runs ::= fun l => l ++ [module_run s m] |>.

(** [check] of a module that is ready calls its factory. *)
Lemma check_runs m s ar rq f :
  inv s -> m ∈ dom (mods s) ->
  m_enabled (mod_at s m) = true -> m_enabling (mod_at s m) = false ->
  m_inited (mod_at s m) = true -> m_error (mod_at s m) = None ->
  m_defining (mod_at s m) = false -> m_defined (mod_at s m) = false ->
  (m_depCount (mod_at s m) < 1)%Z -> m_factory (mod_at s m) = FFun ar rq f ->
  inv (about_to_run s m) /\
  exists l, runs (check exec m false s).1 =
    runs (run exec (f (m_depExports (mod_at s m))) (about_to_run s m)).1 ++ l.
Proof.
  intros Hs Hm Hen Heg Hin Her Hdg Hdd Hc Hf.
  pose proof (define_stage s m Hs Hm Hdg) as Hst. cbv zeta in Hst.
  set (s1 := (upd m (fun mo => mo <| m_defining := true |>) s).1) in *.
  destruct (at_upd m _ s Hs (defining_step _)) as [Hi1 Hl1]. fold s1 in Hi1, Hl1.
  assert (Hmo1 : mod_at s1 m = (mod_at s m) <| m_defining := true |>) by
    (subst s1; by rewrite mod_at_upd, decide_True).
  assert (Hgo : bool_decide (m_depCount (mod_at s m) < 1)%Z && negb (m_defined (mod_at s m)) = true)
    by (by rewrite bool_decide_true, Hdd).
  rewrite Hgo in Hst. destruct Hst as [[Ha1 Ha2] Hb].
  destruct (define_module_runs m s1 ar rq f) as [Hir [l Hl]]; rewrite ?Hmo1; auto; [by apply Hl1| |].
  { intros Hin'. apply list_elem_of_In, in_map_iff in Hin' as (r & <- & Hr).
    apply list_elem_of_In in Hr. destruct (inv_runs_busy _ Hs r Hr); congruence. }
  assert (Hrec : module_run s1 m = module_run s m) by (unfold module_run; by rewrite Hmo1).
  rewrite Hrec in Hir, Hl. fold (about_to_run s m) in Hir, Hl. split; [exact Hir|].
  assert (Hl' : runs (define_module exec m s1).1 =
    runs (run exec (f (m_depExports (mod_at s m))) (about_to_run s m)).1 ++ l).
  { rewrite Hl. by rewrite Hmo1. }
  clear Hl. assert (Hck : check exec m false s = (returns ← define_module exec m;
            if returns : bool then skip else finish_check exec m false) s1).
  { unfold check, get, gets, mbind, M_bind. rewrite Hen, Heg, Hin, Her, Hdg, Hgo. done. }
  rewrite Hck. unfold mbind, M_bind.
  destruct (define_module exec m s1) as [s2 [[|]|e]] eqn:Ed; cbn in Hl', Ha1, Ha2;
    [exists l; exact Hl'| |exists l; exact Hl'].
  destruct (finish_runs m false s2) as [l2 Hl2].
  - apply (undefining_step s s2 m); auto; [by etransitivity|by eapply Hb].
  - exists (l ++ l2). rewrite Hl2, Hl', <- app_assoc. done.
Qed.

Lemma safe_plugin_ready m map plugin : safe (plugin_ready exec m map plugin).
Proof.
  unfold plugin_ready. apply safe_bind; [safe|]. intros mo.
  destruct (decide (plugin = VUndef)); [safe|]. destruct (mm_unnormalized (m_map mo)); [|safe].
  apply safe_bind; [safe|]. intros c. cbv zeta. apply safe_bind; [safe|]. intros nmap.
  apply safe_bind; [intros s Hs; by apply safe_on_defined|]. intros _.
  apply safe_bind; [safe|]. intros [nm|]; [|safe].
  apply safe_bind; [safe|]. intros l. apply safe_bind; [|intros _; safe].
  destruct l; [intros s Hs; by apply safe_module_on|safe].
Qed.

Lemma safe_call_listener l evt : safe_from (listener_ok l) (call_listener exec l evt).
Proof.
  destruct l as [m i|m map|m|eb], evt as [v|err]; cbn [call_listener];
    try (apply safe_weaken; unfold load_value; safe; apply safe_plugin_ready).
  intros s Hs Hok.
  assert (Hd : safe_at ((note m i v ;; defineDep m i (AVal v)) ;; exec (CCheck m false)) s).
  { apply at_bind; [by apply safe_deliver|]. intros [] s2 _ Hi2 _. by apply at_safe; [safe|]. }
  exact Hd.
Qed.

(** ** Cycles and timeouts *)

Lemma safe_forceExec fuel : forall m traced un, safe (forceExec exec fuel m traced un).
Proof.
  induction fuel as [|fuel IH]; intros m traced un; cbn [forceExec]; [safe|].
  apply safe_bind; [safe|]. intros mo. cbv zeta.
  destruct (negb (m_inited mo) || negb (mm_isDefine (m_map mo))); [safe|].
  destruct (present (prop_get (mm_id (m_map mo)) traced)); [safe|].
  apply safe_bind; [|intros tu; safe].
  generalize (seq 0 (length (m_depMaps mo))) (traced ++ [(mm_id (m_map mo), m)]) un. clear un.
  intros idx. induction idx as [|i idx IHidx]; intros tr un; [safe|].
  apply safe_bind; [safe|]. intros mo2. destruct (m_depMaps mo2 !! i) as [[|map]|]; try apply IHidx.
  cbv zeta. apply safe_bind; [safe|]. intros r.
  destruct (handlers (mm_id map)) eqn:Hh, r as [dm|]; try apply IHidx.
  apply safe_bind; [safe|]. intros d.
  destruct (negb (m_inited d) || negb (m_enabled d)); [apply IHidx|].
  apply safe_bind; [apply IH|]. intros [[v tr'] un'].
  apply safe_bind; [|intros _; apply IHidx].
  case_decide; [safe|by apply safe_defineDepById].
Qed.

Lemma safe_survey exp keys : forall v, safe (survey_modules exec exp keys v).
Proof.
  induction keys as [|k keys IH]; intros v; cbn [survey_modules]; [safe|].
  apply safe_bind; [safe|]. intros [m|]; [|apply IH].
  apply safe_bind; [safe|]. intros mo. cbv zeta.
  destruct (negb (m_enabled mo) || present (m_error mo)); [apply IH|].
  destruct (negb (m_inited mo) && exp).
  - apply safe_bind; [apply safe_hasPathFallback|]. intros [|]; [apply IH|].
    apply safe_bind; [safe|]. intros _. apply IH.
  - destruct (negb (m_inited mo) && m_fetched mo && mm_isDefine (m_map mo)); [|apply IH].
    destruct (truthy (mm_prefix (m_map mo))); [apply IH|safe].
Qed.

Lemma safe_check_registry keys : safe (check_registry exec keys).
Proof. induction keys as [|k keys IH]; cbn [check_registry]; safe. Qed.

Lemma safe_check_mods ms : safe (check_mods exec ms).
Proof. induction ms as [|m ms IH]; cbn [check_mods]; safe. Qed.

Lemma safe_waits_from fuel arr i : safe (waits_from exec fuel arr i).
Proof.
  unfold waits_from. apply safe_bind; [safe|]. intros [m|]; [|safe].
  apply safe_bind; [safe|]. intros mo. apply safe_bind; [|intros _; safe].
  destruct (m_defined mo); [safe|]. apply safe_bind; [safe|]. intros [[c|]|]; [|safe|safe].
  apply safe_bind; [apply safe_forceExec|]. intros [[v tr] un]. apply safe_check_mods.
Qed.

Lemma checked_step s0 s f :
  inv s -> later s0 s -> inCheckLoaded s0 = false ->
  (forall s, same_view (s <| inCheckLoaded := false |>) (f s)) -> since s0 (modify f) s.
Proof.
  intros Hs Hl H0 Hf. destruct (Hf s) as (Hm & Hr & Hld & Hu & Hn & Ha & Hg & _).
  set (s' := (f s) <| inCheckLoaded := inCheckLoaded s |>).
  cbn in Hm, Hr, Hld, Hu, Hn, Ha, Hg.
  assert (Hv : same_view s s').
  { unfold same_view. by split_and!. }
  destruct (view_step _ _ Hv Hs) as [Hi' Hl'].
  unfold since. cbn. split.
  - destruct Hi'. by split.
  - assert (Hl2 : later s0 s') by (by etransitivity). destruct Hl2. split; try done. by rewrite H0.
Qed.

Lemma safe_checkLoaded : safe (checkLoaded exec).
Proof.
  unfold checkLoaded. intros s0 Hs0. change (since s0 (checkLoaded exec) s0). unfold checkLoaded.
  apply since_bind; [by split|]. intros c s1 [= <- <-] _ _.
  apply since_bind; [by split|]. intros start s1 [= <- <-] _ _.
  apply since_bind; [by split|]. intros t s1 [= <- <-] _ _. cbv zeta.
  apply since_bind; [by split|]. intros busy s1 [= <- <-] _ _.
  destruct (inCheckLoaded s0) eqn:Hbusy; [by apply safe_skip|].
  apply since_bind; [apply since_safe; [done..|safe]|]. intros [] s1 _ Hi1 Hl1.
  apply since_bind; [apply since_safe; [done..|safe]|]. intros keys s2 _ Hi2 Hl2.
  apply since_bind; [apply since_safe; [done..|apply safe_survey]|]. intros v s3 _ Hi3 Hl3.
  destruct (_ && negb (bool_decide (noLoads v = []))); [apply since_safe; [done..|safe]|].
  apply since_bind.
  { apply since_safe; [done..|]. destruct (needCycleCheck v); [|safe].
    apply safe_bind; [safe|]. intros a. apply safe_bind; [safe|]. intros _.
    apply safe_bind; [safe|]. intros ks. apply safe_check_registry. }
  intros [] s4 _ Hi4 Hl4. apply checked_step; try done.
  intros s. match goal with |- context [if ?b then _ else _] => destruct b end; same_view.
Qed.

(** ** [require] and [completeLoad] *)

Lemma safe_drain fuel : safe (drain exec fuel).
Proof.
  induction fuel as [|fuel IH]; cbn [drain]; [safe|].
  apply safe_bind; [safe|]. intros [[[name|] deps f]|]; safe.
Qed.

Lemma safe_require_all fuel deps sk cb eb rel : safe (require_all exec fuel deps sk cb eb rel).
Proof.
  unfold require_all. apply safe_bind; [safe|]. intros _.
  apply safe_bind; [apply safe_drain|]. intros [|]; safe.
Qed.

Lemma safe_complete_loop fuel name : forall found, safe (complete_loop exec fuel name found).
Proof.
  induction fuel as [|fuel IH]; intros found; cbn [complete_loop]; [safe|].
  apply safe_bind; [safe|]. intros [[[n|] deps f]|]; cbv zeta; [| |safe].
  - apply safe_bind; [safe|]. intros _. apply IH.
  - destruct found; [safe|]. apply safe_bind; [safe|]. intros _. apply IH.
Qed.

Lemma safe_completeLoad fuel name : safe (completeLoad exec fuel name).
Proof.
  unfold completeLoad. apply safe_bind; [safe|]. intros c. cbv zeta.
  apply safe_bind; [safe|]. intros _. apply safe_bind; [apply safe_complete_loop|]. intros found.
  apply safe_bind; [safe|]. intros r. apply safe_bind; [safe|]. intros ini.
  apply safe_bind; [safe|]. intros d. safe.
Qed.

Lemma safe_dispatch fuel c : safe_from (call_ok c) (dispatch exec fuel c).
Proof.
  destruct c; cbn [dispatch]; first [apply safe_call_listener | apply safe_weaken].
  - apply safe_init.
  - apply safe_enable.
  - apply safe_check.
  - apply safe_emit_from.
  - apply safe_require_all.
  - apply safe_checkLoaded.
  - apply safe_waits_from.
  - apply safe_completeLoad.
Qed.

End Exec.

Section Page.
Context {E : Env}.

Lemma safe_exec fuel c : safe_from (call_ok c) (exec fuel c).
Proof.
  revert c. induction fuel as [|fuel IH]; intros c; cbn [exec].
  - apply safe_weaken, safe_throw.
  - by apply safe_dispatch.
Qed.

Lemma safe_remap keys : safe (remap keys).
Proof.
  induction keys as [|k keys IH]; cbn [remap]; [apply safe_skip|].
  apply safe_bind; [apply safe_reg|]. intros r. apply safe_bind; [|by intros _].
  destruct r as [m|]; [|apply safe_skip]. apply safe_bind; [apply safe_mk_map|]. intros map.
  apply safe_upd_same. intros mo. by repeat split.
Qed.

Lemma safe_page_step fuel e : safe (page_step (exec fuel) e).
Proof.
  pose proof (safe_exec fuel) as He. destruct e as [p|name|name| |ms|name v|f deps cb]; cbn [page_step].
  - apply safe_bind; [by apply safe_run|]. intros _. apply safe_skip.
  - by apply safe_call.
  - unfold onScriptError. apply safe_bind; [by apply safe_hasPathFallback|].
    intros [|]; [apply safe_skip|by apply safe_onError].
  - apply safe_bind; [apply safe_gets|]. intros [|]; [|apply safe_skip].
    apply safe_bind; [|intros _; by apply safe_call]. apply safe_modify. intros s. same_view.
  - apply safe_modify. intros s. same_view.
  - apply safe_modify. intros s. same_view.
  - unfold configure. apply safe_bind; [apply safe_modify; intros s; same_view|]. intros _.
    apply safe_bind; [apply safe_gets|]. intros keys. apply safe_bind; [apply safe_remap|].
    intros _. destruct (present deps || present cb); [by apply safe_call|apply safe_skip].
Qed.

Lemma init_inv c : inv (init_state c).
Proof.
  split; cbn; try done; try apply NoDup_nil_2; try (intros r Hr; by apply elem_of_nil in Hr).
  intros l1 url l2 H. by destruct l1.
Qed.

Lemma reachable_inv c s : reachable c s -> inv s.
Proof.
  induction 1 as [|s fuel e Hs IH]; [apply init_inv|]. by apply safe_page_step.
Qed.

End Page.

End LoaderInv.
