(* ===== verification/LoaderProps.v ===== *)
(** What the loader promises: theorems over the states a page can reach, the cycle
    search, and example pages that reach the interesting states. *)

From S2P Require Import Prelude ModuleNames Loader LoaderFacts.
From coqutil Require Import Datatypes.RecordSettersUsingExistingGetters.

Module LoaderProps.
Import LoaderInv.

(** ** Example pages *)

(** An environment: every user value is truthy, [VUser 77] is a plugin that hands
    over [VUser 78] at once. *)
#[local] Instance sample_env : Env := {|
  user_truthy := fun _ => true;
  plugin_normalize := fun _ => None;
  plugin_load := fun v => match v with
                          | VUser 77 => Some (fun _ l => OnLoad l (VUser 78) (fun _ => Return VUndef None))
                          | _ => None
                          end;
  shim_fun := fun _ _ => Return VUndef None |}.

Definition returns (n : nat) : factory := FFun 0 [] (fun _ => Return (VUser n) None).
Definition ignore : unit + error -> prog := fun _ => Return VUndef None.
Definition script (deps : list jstr) (f : factory) : page_event :=
  UserCode (Define None (Some deps) f (Return VUndef None)).

(** The states along a list of events, with 60 units of fuel for each. *)
Definition step (s : state) (e : page_event) : state := (page_step (exec 60) e s).1.
Definition play (c : config) (l : list page_event) : state := fold_left step l (init_state c).
#[local] Arguments step : simpl never.

Lemma play_reachable c l : reachable c (play c l).
Proof.
  unfold play. assert (H : reachable c (init_state c)) by constructor. revert H.
  generalize (init_state c). induction l as [|e l IH]; intros s Hs; [done|]. simpl.
  apply IH. by constructor.
Qed.

(** The page requires [a] and [b], which need each other; [a] uses [exports]. *)
Definition cycle_page : list page_event :=
  [UserCode (RequireAll None [js "a"; js "b"] (returns 1) None ignore);
   script [js "b"; js "exports"] (returns 2); OnScriptLoad (js "a");
   script [js "a"] (returns 3); OnScriptLoad (js "b")].

(** The page requires [a], which never arrives; after seven seconds the timer fires. *)
Definition timeout_page : list page_event :=
  [UserCode (RequireAll None [js "a"] (returns 1) None ignore); Tick 7001%N; Timer].

(** ** Every reachable state *)

(** C9. The factory of a module object runs at most once, whatever the scripts, the
    plugins and the user code do, and even if the loader is stopped half-way. *)
Theorem factories_run_once (E : Env) c s : reachable c s -> NoDup (map r_mod (runs s)).
Proof. intros Hs%reachable_inv. apply Hs. Qed.

Lemma factories_run_once_witness :
  map r_mod (runs (play config_init cycle_page)) = [7; 4; 2] /\
  NoDup (map r_mod (runs (play config_init cycle_page))).
Proof.
  split; [vm_compute; reflexivity|].
  apply (factories_run_once sample_env config_init). apply play_reachable.
Defined.

(** C10. A factory runs only with its dependencies delivered: at each place where the
    module was wired to another module, a value has come before the run (with a
    "defined" notification of the dependency, or forced to break a cycle), and the
    argument there is the one that came first. *)
Theorem factories_get_their_dependencies (E : Env) c s r i map :
  reachable c s -> r ∈ runs s ->
  r_deps r !! i = Some (DMap map) -> handlers (mm_id map) = None ->
  exists v, first_delivered i (r_delivered r) = Some v /\ r_args r !! i = Some (AVal v).
Proof.
  intros Hs%reachable_inv Hr Hd Hh. apply (inv_runs_ready _ Hs r Hr).
  unfold wired. by rewrite Hd, Hh.
Qed.

Lemma factories_get_their_dependencies_witness :
  exists r map v, r ∈ runs (play config_init cycle_page) /\
    r_deps r !! 1 = Some (DMap map) /\ mm_id map = js "b" /\
    r_delivered r = [(0, VUser 2); (1, VUser 3)] /\
    first_delivered 1 (r_delivered r) = Some v /\ r_args r !! 1 = Some (AVal v).
Proof.
  assert (H : exists r map, r ∈ runs (play config_init cycle_page) /\
    r_deps r !! 1 = Some (DMap map) /\ mm_id map = js "b" /\
    r_delivered r = [(0, VUser 2); (1, VUser 3)]).
  { destruct (runs (play config_init cycle_page)) as [|r1 [|r2 [|r3 l]]] eqn:E; try by vm_compute in E.
    exists r3. vm_compute in E. injection E as <- <- <- <-. eexists.
    split; [by right; right; left|]. vm_compute. by repeat split. }
  destruct H as (r & map & Hr & Hd & Hid & Hdel).
  destruct (factories_get_their_dependencies sample_env config_init _ r 1 map
              (play_reachable _ _) Hr Hd) as (v & Hf & Hv).
  - by rewrite Hid.
  - exists r, map, v. by repeat split.
Defined.

(** When [enable] comes back, every dependency of an initialised module was turned
    into a module map, and so wired to the module or the value that it names; only
    empty names are skipped. *)
Theorem enable_wires_all (E : Env) c s fuel m s' i name :
  reachable c s -> m_inited (mod_at s m) = true ->
  enable (exec fuel) m s = (s', inl tt) ->
  m_depMaps (mod_at s' m) !! i = Some (DName name) -> name = [].
Proof.
  intros Hs%reachable_inv Hin He Hn.
  destruct (enable_holds (exec fuel) (safe_exec fuel) m s Hs Hin) as [_ H]. by eapply H.
Qed.

(** A page where the module [m] is defined but not enabled yet. *)
Definition defined_page : state :=
  play config_init [UserCode (Define (Some (js "m")) (Some [[]; js "b"]) (returns 2) (Return VUndef None));
                    UserCode (RequireAll None [] (returns 1) None ignore)].

Lemma enable_wires_all_witness :
  m_depMaps (mod_at defined_page 2) = [DName []; DName (js "b")] /\ ([] : jstr) = [].
Proof.
  split; [vm_compute; reflexivity|].
  apply (enable_wires_all sample_env config_init defined_page 60 2
           (enable (exec 60) 2 defined_page).1 0 []);
    [apply play_reachable|vm_compute; reflexivity..].
Defined.

(** C12. The script of a URL is requested again only after [undef] made the loader
    forget the URL. *)
Theorem scripts_requested_once (E : Env) c s url l1 l2 l3 :
  reachable c s ->
  loads s = l1 ++ Requested url :: l2 ++ Requested url :: l3 -> Forgotten url ∈ l2.
Proof.
  intros Hs%reachable_inv Hl.
  assert (H : url ∉ fetched_after (l1 ++ Requested url :: l2)).
  { apply (inv_loads _ Hs _ url l3). by rewrite Hl, <- app_assoc. }
  clear Hl. induction l2 as [|x l2 IH] using rev_ind.
  - destruct H. unfold fetched_after. rewrite fold_left_app. set_solver.
  - destruct (decide (x = Forgotten url)) as [->|Hx]; [set_solver|].
    apply elem_of_app. left. apply IH. intros Hin. apply H.
    rewrite app_comm_cons, app_assoc. unfold fetched_after in *. rewrite fold_left_app.
    destruct x as [u|u]; simpl; [set_solver|]. apply elem_of_difference. split; [done|]. 
    intros ->%elem_of_singleton. done.
Qed.

Lemma scripts_requested_once_witness :
  Forgotten (js "./a.js") ∈ [Forgotten (js "./a.js")].
Proof.
  apply (scripts_requested_once sample_env config_init
    (play config_init
       [UserCode (RequireAll None [js "a"] (returns 1) None ignore);
        UserCode (Undef (js "a") (Return VUndef None));
        UserCode (RequireAll None [js "a"] (returns 1) None ignore)])
    (js "./a.js") [] [Forgotten (js "./a.js")] []).
  - apply play_reachable.
  - vm_compute. reflexivity.
Defined.

(** ** The life of a page *)

(** [s'] is reached from [s]. *)
Inductive leads_to {E : Env} : state -> state -> Prop :=
  | leads_refl s : leads_to s s
  | leads_step s s' fuel e : leads_to s s' -> leads_to s (page_step (exec fuel) e s').1.

Lemma leads_later {E : Env} s s' : inv s -> leads_to s s' -> inv s' /\ later s s'.
Proof.
  intros Hs. induction 1 as [|s s' fuel e H IH]; [done|]. destruct (IH Hs) as [Hi Hl].
  destruct (safe_page_step fuel e s' Hi) as [Hi2 Hl2]. split; [done|]. by etransitivity.
Qed.

Lemma steps_lead s l : leads_to s (fold_left step l s).
Proof.
  rewrite <- (rev_involutive l). generalize (rev l). clear l. intros l.
  induction l as [|e l IH]; cbn [rev]; [apply leads_refl|].
  rewrite fold_left_app. cbn [fold_left]. by apply leads_step.
Qed.

(** The busy flag that [checkLoaded] leaves set, when it reports a timeout or a
    factory throws inside it, is never reset: from then on [checkLoaded] does nothing,
    so that no cycle is resolved and no timeout is reported any more. *)
Theorem checkLoaded_stays_busy (E : Env) c s s' ex :
  reachable c s -> inCheckLoaded s = true -> leads_to s s' ->
  inCheckLoaded s' = true /\ checkLoaded ex s' = (s', inl tt).
Proof.
  intros Hs%reachable_inv Hb Hl. destruct (leads_later s s' Hs Hl) as [_ Hla].
  assert (H : inCheckLoaded s' = true) by by apply Hla. split; [done|].
  unfold checkLoaded, gets, mbind, M_bind. by rewrite H.
Qed.

Lemma checkLoaded_stays_busy_witness :
  inCheckLoaded (play config_init (timeout_page ++ cycle_page)) = true /\
  map r_mod (runs (play config_init (timeout_page ++ cycle_page))) = [].
Proof.
  split; [|vm_compute; reflexivity].
  apply (checkLoaded_stays_busy sample_env config_init (play config_init timeout_page) _
           (exec 0)); [apply play_reachable|vm_compute; reflexivity|].
  unfold play. rewrite fold_left_app. apply steps_lead.
Defined.

(** ** The cycle search *)

Section Cycles.
Context (s : state).

Definition mod_id (m : nat) : jstr := mm_id (m_map (mod_at s m)).

(** [m'] is the registered module of a dependency of [m]. *)
Definition depends (m m' : nat) : Prop :=
  exists d, d ∈ m_depMaps (mod_at s m) /\ prop_get (dep_id d) (registry s) = Some m'.

(** A chain of dependencies; the list has its modules except the last. *)
Inductive dep_path : nat -> list nat -> nat -> Prop :=
  | path_nil m : dep_path m [] m
  | path_cons m m' l c : m_inited (mod_at s m) = true -> depends m m' ->
      dep_path m' l c -> dep_path m (m :: l) c.

(** The loop of [findCycle] over the dependencies, for any search [rec]. *)
Section Deps.
Context (rec : nat -> option (option nat)).
Fixpoint cycle_deps (l : list dep) : option (option nat) :=
  match l with
  | [] => Some None
  | d :: l' =>
      if match d with DName n => negb (truthy n) | DMap _ => false end
      then cycle_deps l' else
      match prop_get (dep_id d) (registry s) with
      | None => cycle_deps l'
      | Some dm =>
          if negb (m_inited (mod_at s dm)) || negb (m_enabled (mod_at s dm))
          then Some None
          else match rec dm with
               | None => None
               | Some (Some c) => Some (Some c)
               | Some None => cycle_deps l'
               end
      end
  end.
End Deps.

Lemma findCycle_eq fuel m traced :
  findCycle s (S fuel) m traced =
    if negb (m_inited (mod_at s m)) then Some None
    else if decide (mod_id m ∈ traced) then Some (Some m)
    else cycle_deps (fun dm => findCycle s fuel dm (mod_id m :: traced)) (m_depMaps (mod_at s m)).
Proof. reflexivity. Qed.

Lemma cycle_deps_total rec l :
  (forall d m, d ∈ l -> prop_get (dep_id d) (registry s) = Some m -> rec m <> None) ->
  cycle_deps rec l <> None.
Proof.
  induction l as [|d l IH]; intros H; [done|]. cbn [cycle_deps].
  assert (IH' : cycle_deps rec l <> None) by (apply IH; intros; eapply H; [by right|done]).
  destruct (match d with DName n => negb (truthy n) | DMap _ => false end); [done|].
  destruct (prop_get (dep_id d) (registry s)) as [dm|] eqn:E; [|done].
  destruct (_ || _); [done|]. specialize (H d dm (list_elem_of_here _ _) E).
  by destruct (rec dm) as [[c|]|].
Qed.

Lemma cycle_deps_sound rec l c :
  cycle_deps rec l = Some (Some c) ->
  exists d m, d ∈ l /\ prop_get (dep_id d) (registry s) = Some m /\ rec m = Some (Some c).
Proof.
  induction l as [|d l IH]; cbn [cycle_deps]; [done|]. intros H.
  assert (IH' : cycle_deps rec l = Some (Some c) ->
    exists d' m, d' ∈ d :: l /\ prop_get (dep_id d') (registry s) = Some m /\ rec m = Some (Some c)).
  { intros H'. destruct (IH H') as (d' & m & Hd & Hr). exists d', m. split; [by right|done]. }
  destruct (match d with DName n => negb (truthy n) | DMap _ => false end); [by apply IH'|].
  destruct (prop_get (dep_id d) (registry s)) as [dm|] eqn:E; [|by apply IH'].
  destruct (_ || _); [done|]. destruct (rec dm) as [[c'|]|] eqn:Er; [|by apply IH'|done].
  injection H as ->. exists d, dm. split; [by left|done].
Qed.

(** The registered names that were not traced yet. *)
Definition untraced (traced : list jstr) : list jstr :=
  List.filter (fun k => negb (bool_decide (k ∈ traced))) (map (fun p => mod_id p.2) (registry s)).

Lemma filter_le {A} (P Q : A -> bool) l :
  (forall x, P x = true -> Q x = true) -> length (List.filter P l) <= length (List.filter Q l).
Proof.
  intros H. induction l as [|x l IH]; simpl; [done|]. specialize (H x).
  destruct (P x); [rewrite H by done; simpl; lia|]. destruct (Q x); simpl; lia.
Qed.

Lemma filter_lt {A} (P Q : A -> bool) l x :
  (forall x, P x = true -> Q x = true) -> In x l -> Q x = true -> P x = false ->
  length (List.filter P l) < length (List.filter Q l).
Proof.
  intros H. induction l as [|y l IH]; [done|]. intros [->|Hin] Hq Hp; simpl.
  - rewrite Hq, Hp. simpl. pose proof (filter_le P Q l H). lia.
  - specialize (IH Hin Hq Hp). pose proof (H y) as Hy.
    destruct (P y); [rewrite Hy by done; simpl; lia|]. destruct (Q y); simpl; lia.
Qed.

Lemma prop_get_In {A} k (o : list (jstr * A)) v : prop_get k o = Some v -> In (k, v) o.
Proof.
  unfold prop_get. intros ([k' v'] & Hf & ->)%fmap_Some. apply find_some in Hf as [Hin Hk].
  apply bool_decide_eq_true in Hk as <-. done.
Qed.

Lemma findCycle_registered fuel : forall m traced k,
  prop_get k (registry s) = Some m -> length (untraced traced) < fuel ->
  findCycle s fuel m traced <> None.
Proof.
  induction fuel as [|fuel IH]; intros m traced k Hk Hf; [lia|]. rewrite findCycle_eq.
  destruct (negb _); [done|]. case_decide as Ht; [done|]. apply cycle_deps_total.
  intros d dm _ Hd. eapply IH; [done|].
  assert (Hlt : length (untraced (mod_id m :: traced)) < length (untraced traced)); [|lia].
  apply (filter_lt _ _ _ (mod_id m)).
  - intros x. rewrite !negb_true_iff, !bool_decide_eq_false. set_solver.
  - apply in_map_iff. exists (k, m). split; [done|]. by apply prop_get_In.
  - by rewrite bool_decide_false.
  - rewrite bool_decide_true; [done|]. by left.
Qed.

(** The cycle search always comes back: the recursion depth that [checkLoaded] can
    need is one above the number of registered modules. *)
Theorem findCycle_terminates m :
  findCycle s (S (S (length (registry s)))) m [] <> None.
Proof.
  rewrite findCycle_eq. destruct (negb _); [done|]. case_decide; [done|]. apply cycle_deps_total.
  intros d dm _ Hd. eapply findCycle_registered; [done|].
  unfold untraced. pose proof (filter_length_le (fun k => negb (bool_decide (k ∈ [mod_id m])))
    (map (fun p : jstr * nat => mod_id p.2) (registry s))) as Hlen. rewrite length_map in Hlen. lia.
Qed.

(** What the cycle search finds is a cycle: a chain of dependencies between
    initialised modules leads from where it started to the module it returns, whose
    name already occurs on the chain. *)
Theorem findCycle_sound fuel m c :
  findCycle s fuel m [] = Some (Some c) ->
  exists l, dep_path m l c /\ m_inited (mod_at s c) = true /\ mod_id c ∈ map mod_id l.
Proof.
  assert (H : forall traced, findCycle s fuel m traced = Some (Some c) ->
    exists l, dep_path m l c /\ m_inited (mod_at s c) = true /\ mod_id c ∈ map mod_id l ++ traced).
  { revert m. induction fuel as [|fuel IH]; intros m traced; [done|]. rewrite findCycle_eq.
    destruct (m_inited (mod_at s m)) eqn:Hi; [|done]. cbn [negb].
    case_decide as Ht; [intros [= ->]; exists []; by repeat constructor|].
    intros (d & dm & Hd & Hr & Hc)%cycle_deps_sound.
    destruct (IH _ _ Hc) as (l & Hl & Hic & Hin). exists (m :: l). split_and!; [|done|].
    - apply (path_cons m dm); [done| |done]. by exists d.
    - cbn [map]. set_solver. }
  intros Hc. destruct (H [] Hc) as (l & Hl & Hic & Hin). exists l. by rewrite app_nil_r in Hin.
Qed.

End Cycles.

(** The two modules of the cycle page, on a page where no cycle is resolved. *)
Definition stuck_page : list page_event := timeout_page ++ cycle_page.

Lemma findCycle_sound_witness :
  let s := play config_init stuck_page in
  prop_get (js "a") (registry s) = Some 4 /\
  exists l, dep_path s 4 l 4 /\ m_inited (mod_at s 4) = true /\ mod_id s 4 ∈ map (mod_id s) l.
Proof.
  cbv zeta. split; [vm_compute; reflexivity|].
  apply (findCycle_sound (play config_init stuck_page) 9). vm_compute. reflexivity.
Defined.

(** ** The queues of [define] calls *)

(** [takeGlobalQueue] empties the global queue, and puts its items, in order,
    before the last item that was left in the queue of the context, not behind it. *)
Theorem takeGlobalQueue_order s :
  globalDefQueue (takeGlobalQueue s).1 = [] /\
  let q := defQueue s in
  defQueue (takeGlobalQueue s).1 =
    take (length q - 1) q ++ globalDefQueue s ++ drop (length q - 1) q.
Proof.
  unfold takeGlobalQueue, modify. destruct (globalDefQueue s) as [|x g] eqn:Hg; cbn.
  - rewrite Hg. split; [done|]. by rewrite take_drop.
  - split; [done|]. cbv [RecordSettersUsingExistingGetters.const]. unfold splice.
    by rewrite Nat.add_0_r.
Qed.

(** In [completeLoad], once an anonymous [define] was bound to the script, the next
    anonymous one in the queue is taken out and dropped: its module is never defined by
    it, and the script it came from will look as if it had not called [define]. *)
Theorem second_anonymous_define_lost ex fuel name s deps f q :
  defQueue s = QItem None deps f :: q ->
  complete_loop ex (S fuel) name true s = (s <| defQueue := q |>, inl true).
Proof.
  intros Hq. cbn [complete_loop]. unfold shift, gets, modify, mbind, M_bind. cbn. by rewrite Hq.
Qed.

(** Two anonymous scripts ran before their load events. *)
Definition two_scripts_page : list page_event :=
  [UserCode (RequireAll None [js "a"; js "b"] (returns 1) None ignore);
   script [] (returns 2); script [] (returns 3); OnScriptLoad (js "a"); OnScriptLoad (js "b")].

Lemma second_anonymous_define_lost_witness :
  let s := (init_state config_init) <| defQueue := [QItem None [] (returns 3)] |> in
  complete_loop (exec (E := sample_env) 60) 1 (js "a") true s = (s <| defQueue := [] |>, inl true) /\
  defined (play config_init two_scripts_page) !! js "a" = Some (VUser 2) /\
  defined (play config_init two_scripts_page) !! js "b" = Some VUndef.
Proof.
  cbv zeta. split; [by apply (second_anonymous_define_lost _ 0 _ _ [] (returns 3))|].
  split; vm_compute; reflexivity.
Defined.

(** ** Configuring while a plugin resource is waited for *)

Definition empty_cfg : Configure.cfg := Configure.Cfg None [] None [] [] None None None.

(** The page requires a resource of a plugin, [events] happen, the plugin arrives. *)
Definition plugin_page (events : list page_event) : list page_event :=
  UserCode (RequireAll None [js "p!x"] (returns 1) None ignore) ::
  events ++ [script [] (FVal (VUser 77)); OnScriptLoad (js "p")].

Definition is_timeout (r : unit + exn) : bool :=
  match r with inr (Err (Error (KTimeout _) _)) => true | _ => false end.

(** A call of [require.config], even with an empty object, between the request of a
    plugin resource and the arrival of the plugin strands the request: [configure]
    renames the waiting module, the callback (of module 2) does not run when the plugin
    is there, and seven seconds later the loader reports a timeout. *)
Theorem configure_strands_resources :
  let calm := play config_init (plugin_page []) in
  let stranded := play config_init (plugin_page [Configure empty_cfg None None]) in
  2 ∈ map r_mod (runs calm) /\ registry calm = [] /\
  runs stranded = [] /\ defined stranded !! js "p" = Some (VUser 77) /\
  is_timeout (page_step (exec 60) Timer (step stranded (Tick 7001))).2 = true.
Proof.
  cbv zeta. split; [|vm_compute; repeat split; reflexivity].
  apply (bool_decide_unpack _). vm_compute. exact I.
Qed.

End LoaderProps.
