(* ===== verification/LoaderRequire.v ===== *)
(** [require] of modules that are there: the callback runs at once, with their values.
    The execution is followed step by step, through [init], [enable], the delivery of
    each value and [check]. *)

From S2P Require Import Prelude ModuleNames Loader LoaderFacts LoaderProps.
From coqutil Require Import Datatypes.RecordSettersUsingExistingGetters.

Module LoaderRequire.
Import LoaderInv LoaderProps ModuleMaps.

Section Require.
Context {E : Env}.
(** The state in which [require] is called, its dependencies and its callback. *)
Context (s0 : state) (deps : list jstr) (cb : list arg -> prog) (ar : nat) (rq : list jstr).

(** A name that stands for itself: no plugin, not relative, not mapped, not special. *)
Definition plain (d : jstr) : Prop :=
  truthy d = true /\ index_of bang d = None /\
  Normalize.normalize (cfg s0) d None true = d /\ handlers d = None.

(** The module map of a plain name. *)
Definition plain_map (d : jstr) : modmap :=
  ModMap None d None false (Some (Urls.nameToUrl (cfg s0) d None None)) d true d.

Lemma plain_module_map def c d : plain d ->
  makeModuleMap plugin_normalize (cfg s0) def c (Some d) None false true = (plain_map d, c).
Proof.
  intros (Ht & Hb & Hn & _). unfold makeModuleMap, plain_map.
  assert (Hs : truthy (Some d) = true) by exact Ht. rewrite !Hs. change (default [] (Some d)) with d.
  unfold split_prefix. rewrite Hb. cbn -[Normalize.normalize Urls.nameToUrl truthy].
  rewrite Ht, Hn. cbn -[Normalize.normalize Urls.nameToUrl]. by rewrite app_nil_r.
Qed.

(** The internal module of the call. *)
Definition call_map : modmap * counters :=
  makeModuleMap plugin_normalize (cfg s0) (defined s0) (cnt s0) None None false false.
Definition call_id : jstr := mm_id call_map.1.

Definition value_of (d : jstr) : val := default VUndef (defined s0 !! d).

Hypothesis s0_inv : inv s0.
Hypothesis no_queue : defQueue s0 = [] /\ globalDefQueue s0 = [].
Hypothesis deps_plain : Forall plain deps.
Hypothesis deps_there : Forall (fun d => is_Some (defined s0 !! d) /\ prop_get d (registry s0) = None) deps.
Hypothesis call_fresh : prop_get call_id (registry s0) = None /\ undefEvents s0 !! call_id = None /\
  call_id ∉ deps.

(** What the call leaves as it was until the callback runs. *)
Definition kept (s : state) : Prop :=
  cfg s = cfg s0 /\ defined s = defined s0 /\ defQueue s = [] /\ globalDefQueue s = [].

(** After [k] dependencies of the internal module [m]. *)
Record wiring (m k : nat) (s : state) : Prop := {
  w_inv : inv s;
  w_dom : m ∈ dom (mods s);
  w_deps : m_depMaps (mod_at s m) = map (fun d => DMap (plain_map d)) (take k deps) ++ map DName (drop k deps);
  w_exports : m_depExports (mod_at s m) = map (fun d => AVal (value_of d)) (take k deps);
  w_matched i : i ∈ m_depMatched (mod_at s m) <-> i < k;
  w_count : m_depCount (mod_at s m) = 0%Z;
  w_flags : m_enabled (mod_at s m) = true /\ m_enabling (mod_at s m) = true /\
    m_inited (mod_at s m) = true /\ m_defining (mod_at s m) = false /\ m_defined (mod_at s m) = false;
  w_quiet : m_error (mod_at s m) = None /\ m_errback (mod_at s m) = None /\
    m_skipMap (mod_at s m) = false /\ m_pluginMaps (mod_at s m) = [];
  w_map : m_map (mod_at s m) = call_map.1;
  w_factory : m_factory (mod_at s m) = FFun ar rq cb;
  w_same : kept s /\ runs s = runs s0 /\
    registry s = registry s0 ++ [(call_id, m)] }.

Lemma prop_get_app {A} k (o : list (jstr * A)) k' v :
  prop_get k o = None -> k' <> k -> prop_get k (o ++ [(k', v)]) = None.
Proof.
  unfold prop_get. intros H Hk. apply fmap_None in H. apply fmap_None.
  induction o as [|p o IH]; cbn in *; [by rewrite bool_decide_false|].
  destruct (bool_decide (p.1 = k)); [done|]. by apply IH.
Qed.

Lemma call_map_shape : mm_isDefine call_map.1 = false /\ mm_parentMap call_map.1 = None.
Proof. done. Qed.

Lemma bind_inl {A B} (x : M A) (f : A -> M B) s s1 a :
  x s = (s1, inl a) -> (x ≫= f) s = f a s1.
Proof. intros H. unfold mbind, M_bind. by rewrite H. Qed.

Lemma upd_fuse m f g s : (upd m g (upd m f s).1).1 = (upd m (fun mo => g (f mo)) s).1.
Proof. unfold upd, modify, set. cbn. f_equal. apply alter_alter_eq. Qed.

(** The module after the delivery of dependency [k]. *)
Definition wire_mod (k : nat) (d : jstr) (mo : module) : module :=
  deliver k (value_of d)
    (mo <| m_depMaps ::= insert k (DMap (plain_map d)) |> <| m_depCount ::= Z.succ |>).

Lemma deps_facts d : d ∈ deps ->
  plain d /\ defined s0 !! d = Some (value_of d) /\ prop_get d (registry s0) = None /\ call_id <> d.
Proof.
  intros Hd. rewrite Forall_forall in deps_plain. rewrite Forall_forall in deps_there.
  destruct (deps_there d Hd) as [[v Hv] Hr]. split_and!; [by apply deps_plain| |done|].
  - unfold value_of. by rewrite Hv.
  - intros <-. by apply call_fresh.
Qed.

Lemma wired_lookup k d : deps !! k = Some d ->
  (map (fun d => DMap (plain_map d)) (take k deps) ++ map DName (drop k deps)) !! k = Some (DName d).
Proof.
  intros Hd. rewrite lookup_app_r; rewrite length_map, length_take_le;
    try (apply lookup_lt_Some in Hd; lia).
  rewrite Nat.sub_diag, list_lookup_fmap, lookup_drop, Nat.add_0_r, Hd. done.
Qed.

(** One dependency is wired and delivered: the execution. *)
Lemma wire_exec m k d fuel s :
  deps !! k = Some d -> wiring m k s ->
  enable_dep (exec (S (S fuel))) m k s =
    ((upd m (wire_mod k d) (s <| cnt := cnt s |>)).1, inl tt).
Proof.
  intros Hd Hw. pose proof (list_elem_of_lookup_2 _ _ _ Hd) as Hin.
  destruct (deps_facts d Hin) as (Hp & Hv & Hreg & Hne). destruct Hw. destruct w_same0 as ((Hc & Hdef & _) & _ & Hr).
  unfold enable_dep. rewrite (bind_inl _ _ _ _ _ eq_refl). rewrite w_deps0, (wired_lookup k d Hd).
  destruct Hp as (Ht & Hp). rewrite Ht. cbn [negb].
  assert (Hmk : mk_map (Some d) (if mm_isDefine (m_map (mod_at s m)) then Some (m_map (mod_at s m))
      else mm_parentMap (m_map (mod_at s m))) false (negb (m_skipMap (mod_at s m))) s
      = (s <| cnt := cnt s |>, inl (plain_map d))).
  { destruct w_quiet0 as (_ & _ & -> & _). rewrite w_map0. destruct call_map_shape as [-> ->].
    unfold mk_map. rewrite Hc, plain_module_map by (by split). done. }
  rewrite (bind_inl _ _ _ _ _ Hmk). change (mm_id (plain_map d)) with d.
  destruct Hp as (_ & _ & Hh). rewrite Hh. rewrite upd_upd.
  set (s1 := s <| cnt := cnt s |>).
  set (g := fun mo => mo <| m_depMaps ::= insert k (DMap (plain_map d)) |> <| m_depCount ::= Z.succ |>).
  rewrite (bind_inl (upd m g) _ s1 (upd m g s1).1 tt eq_refl). set (s2 := (upd m g s1).1).
  assert (Hat2 : mod_at s2 m = g (mod_at s m)).
  { subst s2. rewrite mod_at_upd, decide_True by done. by rewrite (mod_at_mods s s1). }
  assert (Hreg2 : prop_get d (registry s2) = None).
  { change (registry s2) with (registry s). rewrite Hr. by apply prop_get_app. }
  set (s3 := (upd m (deliver k (value_of d)) s2).1).
  assert (Hat3 : mod_at s3 m = deliver k (value_of d) (g (mod_at s m))).
  { subst s3. rewrite mod_at_upd, decide_True, Hat2; [done|]. split; [done|].
    change (m ∈ dom (alter g m (mods s))). by rewrite dom_alter_L. }
  assert (Hon : on_defined (exec (S (S fuel))) (plain_map d) (LDep m k) s2 = (s3, inl tt)).
  { unfold on_defined. rewrite (bind_inl _ _ s2 s2 (Some (value_of d))).
    2:{ unfold settled. change (mm_id (plain_map d)) with d.
        rewrite (bind_inl _ _ s2 s2 (Some (value_of d)))
          by (unfold gets; change (defined s2) with (defined s); by rewrite Hdef, Hv).
        rewrite (bind_inl _ _ s2 s2 None) by (unfold reg, gets; by rewrite Hreg2). done. }
    cbn [exec dispatch call_listener].
    unfold note, defineDep. rewrite upd_upd. fold (deliver k (value_of d)).
    rewrite (bind_inl (upd m (deliver k (value_of d))) _ s2 s3 tt eq_refl).
    unfold check. rewrite (bind_inl (get m) _ s3 s3 (mod_at s3 m) eq_refl).
    rewrite Hat3. destruct w_flags0 as (He & Hen & _).
    assert (Hb : m_enabling (deliver k (value_of d) (g (mod_at s m))) = true).
    { unfold deliver, defineDep_mod. by case_decide. }
    by rewrite Hb, orb_true_r. }
  rewrite (bind_inl _ _ _ _ _ Hon). destruct w_quiet0 as (_ & -> & _).
  rewrite (bind_inl skip _ s3 s3 tt eq_refl).
  unfold enable_if_needed. rewrite (bind_inl (reg _) _ s3 s3 None).
  2:{ unfold reg, gets. change (mm_id (plain_map d)) with d.
      change (registry s3) with (registry s2). by rewrite Hreg2. }
  replace (match handlers (mm_id (plain_map d)) with _ => _ end) with skip by (by destruct (handlers _)).
  unfold skip. f_equal. subst s3 s2. rewrite upd_fuse. done.
Qed.

Lemma set_at_end {A} (d x : A) l : set_at d (length l) x l = l ++ [x].
Proof.
  unfold set_at. replace (S (length l) - length l) with 1 by lia. cbn [replicate].
  rewrite insert_app_r_alt, Nat.sub_diag by lia. done.
Qed.

Lemma insert_names k d : deps !! k = Some d ->
  <[k := DMap (plain_map d)]>
    (map (fun d => DMap (plain_map d)) (take k deps) ++ map DName (drop k deps))
  = map (fun d => DMap (plain_map d)) (take (S k) deps) ++ map DName (drop (S k) deps).
Proof.
  intros Hd. pose proof (lookup_lt_Some _ _ _ Hd) as Hlt.
  rewrite (take_S_r _ _ _ Hd), (drop_S _ _ _ Hd), map_app, <- app_assoc. cbn [map app].
  rewrite insert_app_r_alt by (rewrite length_map, length_take_le; lia).
  rewrite length_map, length_take_le by lia. by rewrite Nat.sub_diag.
Qed.

Lemma wire_mod_fields k d mo : k ∉ m_depMatched mo ->
  let mo' := wire_mod k d mo in
  m_depMaps mo' = <[k := DMap (plain_map d)]> (m_depMaps mo) /\
  m_depExports mo' = set_at (AVal VUndef) k (AVal (value_of d)) (m_depExports mo) /\
  m_depMatched mo' = {[k]} ∪ m_depMatched mo /\
  m_depCount mo' = Z.pred (Z.succ (m_depCount mo)) /\
  (m_enabled mo', m_enabling mo', m_inited mo', m_defining mo', m_defined mo') =
    (m_enabled mo, m_enabling mo, m_inited mo, m_defining mo, m_defined mo) /\
  (m_error mo', m_errback mo', m_skipMap mo', m_pluginMaps mo') =
    (m_error mo, m_errback mo, m_skipMap mo, m_pluginMaps mo) /\
  m_map mo' = m_map mo /\ m_factory mo' = m_factory mo.
Proof.
  intros Hk. unfold wire_mod, deliver, defineDep_mod. rewrite decide_False by exact Hk. by split_and!.
Qed.

Lemma wire_wiring m k d s :
  deps !! k = Some d -> wiring m k s ->
  wiring m (S k) (upd m (wire_mod k d) (s <| cnt := cnt s |>)).1.
Proof.
  intros Hd Hw. pose proof (wire_exec m k d 0 s Hd Hw) as He.
  destruct (safe_enable_dep (exec 2) (safe_exec _) m k s (w_inv _ _ _ Hw)) as [Hi _].
  rewrite He in Hi. destruct Hw. pose proof (lookup_lt_Some _ _ _ Hd) as Hlt.
  set (s' := (upd m (wire_mod k d) (s <| cnt := cnt s |>)).1) in *.
  assert (Hat : mod_at s' m = wire_mod k d (mod_at s m)).
  { subst s'. rewrite mod_at_upd, decide_True by done. by rewrite (mod_at_mods s (s <| cnt := cnt s |>)). }
  destruct (wire_mod_fields k d (mod_at s m)) as (Fd & Fe & Fm & Fc & Ff & Fq & Fr);
    [rewrite w_matched0; lia|].
  rewrite <- Hat in Fd, Fe, Fm, Fc, Ff, Fq, Fr. split; try done.
  - cbn. by rewrite dom_alter_L.
  - rewrite Fd, w_deps0. by apply insert_names.
  - rewrite Fe, w_exports0. replace k with (length (map (fun d => AVal (value_of d)) (take k deps))) at 1
      by (rewrite length_map, length_take_le; lia).
    by rewrite set_at_end, (take_S_r _ _ _ Hd), map_app.
  - intros i. rewrite Fm, elem_of_union, elem_of_singleton, w_matched0. lia.
  - by rewrite Fc, w_count0.
  - injection Ff as -> -> -> -> ->. done.
  - injection Fq as -> -> -> ->. done.
  - by rewrite (proj1 Fr).
  - by rewrite (proj2 Fr).
Qed.

Lemma wire_all m fuel : forall n k s, k + n = length deps -> wiring m k s ->
  exists s', enable_deps (exec (S (S fuel))) m (seq k n) s = (s', inl tt) /\ wiring m (length deps) s'.
Proof.
  induction n as [|n IH]; intros k s Hk Hw; cbn [seq enable_deps].
  - exists s. split; [done|]. by replace (length deps) with k by lia.
  - destruct (lookup_lt_is_Some_2 deps k) as [d Hd]; [lia|].
    rewrite (bind_inl _ _ _ _ _ (wire_exec m k d fuel s Hd Hw)).
    apply (IH (S k)); [lia|]. by apply (wire_wiring m k d).
Qed.

(** ** From the call to the wiring *)

Lemma upd_at m f s : m ∈ dom (mods s) -> mod_at (upd m f s).1 m = f (mod_at s m).
Proof. intros H. by rewrite mod_at_upd, decide_True. Qed.

Lemma upd_dom m m' f s : m' ∈ dom (mods s) -> m' ∈ dom (mods (upd m f s).1).
Proof. cbn. by rewrite dom_alter_L. Qed.

(** The internal module of the call, as [getModule] makes it. *)
Definition call_mod : nat := S (next s0).
#[local] Opaque call_map.

Lemma getModule_call :
  exists s1, getModule call_map.1 (s0 <| cnt := call_map.2 |>) = (s1, inl call_mod) /\
    inv s1 /\ mod_at s1 call_mod = Loader.blank (next s0) call_map.1 (shims (cfg s0) !! call_id) /\
    events s1 !! next s0 = Some ∅ /\ call_mod ∈ dom (mods s1) /\ waitAry s1 = waitAry s0 /\
    kept s1 /\ runs s1 = runs s0 /\
    registry s1 = registry s0 ++ [(call_id, call_mod)].
Proof.
  set (sc := s0 <| cnt := call_map.2 |>).
  assert (Hic : inv sc) by (apply (same_view_inv s0); [same_view|done]).
  destruct (safe_getModule call_map.1 sc Hic) as [Hi _].
  destruct call_fresh as (Hr & Hu & _).
  assert (He : exists s1, getModule call_map.1 sc = (s1, inl call_mod)).
  { cbv [getModule reg new_Module fresh modify gets mbind M_bind mret M_ret]. cbn -[prop_get]. change (mm_id call_map.1) with call_id.
    rewrite Hr. cbn -[prop_get]. rewrite Hu. cbn -[prop_get]. eauto. }
  destruct He as [s1 He]. exists s1. split; [done|]. rewrite He in Hi. split; [exact Hi|].
  revert He.
  cbv [getModule reg new_Module fresh modify gets mbind M_bind mret M_ret]. cbn -[prop_get]. change (mm_id call_map.1) with call_id.
  rewrite Hr. cbn -[prop_get]. rewrite Hu. cbn. intros [= <-]. unfold RecordSettersUsingExistingGetters.const. cbn.
  rewrite !lookup_insert_eq. unfold mod_at. cbn. rewrite lookup_insert_eq. split_and!; try done.
  rewrite dom_insert_L. set_solver.
Qed.

(** The updates of [init] and [enable] before the first dependency. *)
Definition init_mod (mo : module) : module :=
  mo <| m_depMaps := map DName deps |> <| m_skipMap := false |>
     <| m_errback := None |> <| m_inited := true |> <| m_ignore := false |>.

Lemma init_exec m f s ev :
  inv s -> m ∈ dom (mods s) -> mod_at s m = Loader.blank ev call_map.1 (shims (cfg s0) !! call_id) ->
  events s !! ev = Some ∅ -> kept s ->
  exists s1, init (exec f) m deps false (FFun ar rq cb) None false true s = exec f (CEnable m) s1 /\
    inv s1 /\ m ∈ dom (mods s1) /\
    mod_at s1 m = init_mod ((Loader.blank ev call_map.1 (shims (cfg s0) !! call_id)) <| m_factory := FFun ar rq cb |>) /\
    waitAry s1 = waitAry s /\ kept s1 /\ runs s1 = runs s /\
    registry s1 = registry s.
Proof.
  intros Hs Hm Hat Hev Hk. unfold init.
  rewrite (bind_inl (get m) _ s s (mod_at s m) eq_refl). rewrite Hat. cbn [m_inited Loader.blank].
  set (f1 := fun mo => mo <| m_factory := FFun ar rq cb |>). set (s1 := (upd m f1 s).1).
  rewrite (bind_inl (upd m f1) _ s s1 tt eq_refl).
  assert (Hi1 : inv s1) by (apply (safe_upd_same m f1); [by repeat split|done]).
  assert (Hm1 : m ∈ dom (mods s1)) by by apply upd_dom.
  assert (Hat1 : mod_at s1 m = f1 (mod_at s m)) by by apply upd_at.
  rewrite (bind_inl _ _ s1 s1 None).
  2:{ unfold listeners_of. rewrite (bind_inl _ _ s1 s1 None); [done|]. unfold gets.
      rewrite Hat1, Hat. cbn. by rewrite Hev. }
  set (s2 := (upd m init_mod s1).1). rewrite (bind_inl (upd m init_mod) _ s1 s2 tt eq_refl).
  exists s2. split; [done|].
  assert (Hst : mod_step (mod_at s1 m) (init_mod (mod_at s1 m))).
  { apply init_step; [|by apply inv_mod]. by rewrite Hat1, Hat. }
  split_and!; try done.
  - by apply upd_inv.
  - by apply upd_dom.
  - subst s2. rewrite upd_at by done. by rewrite Hat1, Hat.
Qed.

(** The updates of [enable] before the first dependency. *)
Definition start_enable (m : nat) : M unit :=
  upd m (fun mo => mo <| m_enabled := true |>) ;;
  modify (fun s => s <| waits ::= alter (fun l => l ++ [m]) (waitAry s) |> <| waitCount ::= Z.succ |>) ;;
  upd m (fun mo => mo <| m_waitPushed := true |>) ;;
  upd m (fun mo => mo <| m_enabling := true |>).

Lemma safe_start_enable m : safe (start_enable m).
Proof.
  unfold start_enable. repeat (apply safe_bind; [|intros _]);
    try (apply safe_upd_same; by repeat split). apply safe_modify. intros s. same_view.
Qed.

Lemma start_enable_at m s : m ∈ dom (mods s) ->
  m ∈ dom (mods (start_enable m s).1) /\
  mod_at (start_enable m s).1 m =
    (mod_at s m) <| m_enabled := true |> <| m_waitPushed := true |> <| m_enabling := true |>.
Proof.
  intros Hm. set (s1 := (upd m (fun mo => mo <| m_enabled := true |>) s).1).
  set (s2 := s1 <| waits ::= alter (fun l => l ++ [m]) (waitAry s1) |> <| waitCount ::= Z.succ |>).
  set (s3 := (upd m (fun mo => mo <| m_waitPushed := true |>) s2).1).
  change (start_enable m s).1 with (upd m (fun mo => mo <| m_enabling := true |>) s3).1.
  assert (H1 : m ∈ dom (mods s1)) by by apply upd_dom.
  assert (H2 : m ∈ dom (mods s2)) by done.
  assert (H3 : m ∈ dom (mods s3)) by by apply upd_dom.
  split; [by apply upd_dom|]. rewrite upd_at by done. subst s3. rewrite upd_at by done.
  rewrite (mod_at_mods s1 s2) by done. subst s1. by rewrite upd_at.
Qed.

Lemma enable_eq ex m s : m ∈ dom (mods s) -> m_waitPushed (mod_at s m) = false ->
  enable ex m s =
    (enable_deps ex m (seq 0 (length (m_depMaps (mod_at s m)))) ;;
     mo ← get m;
     enable_plugins ex (m_pluginMaps mo) ;;
     upd m (fun mo => mo <| m_enabling := false |>) ;;
     ex (CCheck m false)) (start_enable m s).1.
Proof.
  intros Hm Hw. unfold enable. set (s1 := (upd m (fun mo => mo <| m_enabled := true |>) s).1).
  rewrite (bind_inl (upd m _) _ s s1 tt eq_refl).
  rewrite (bind_inl (get m) _ s1 s1 (mod_at s1 m) eq_refl).
  assert (Hat : mod_at s1 m = (mod_at s m) <| m_enabled := true |>) by by apply upd_at.
  assert (Hwp : m_waitPushed (mod_at s1 m) = false) by (rewrite Hat; exact Hw).
  assert (Hdm : m_depMaps (mod_at s1 m) = m_depMaps (mod_at s m)) by (by rewrite Hat).
  rewrite Hwp, Hdm. done.
Qed.

Lemma length_deps_names : length (map DName deps) = length deps.
Proof. apply length_map. Qed.

(** The values of the dependencies, the arguments of the callback. *)
Definition values : list arg := map (fun d => AVal (value_of d)) deps.

(** The callback is run from [s1], with the values and with its call recorded, and
    what it records is still there in [s']. *)
Definition runs_callback (s1 s' : state) (f : nat) : Prop :=
  inv s1 /\ kept s1 /\
  (exists r, runs s1 = runs s0 ++ [r] /\ r_args r = values) /\
  exists l, runs s' = runs (run (exec (S f)) (cb values) s1).1 ++ l.

(** [enable] of the internal module: every dependency is delivered, the callback runs. *)
Lemma enable_runs m f s ev :
  inv s -> m ∈ dom (mods s) ->
  mod_at s m = init_mod ((Loader.blank ev call_map.1 (shims (cfg s0) !! call_id)) <| m_factory := FFun ar rq cb |>) ->
  kept s -> runs s = runs s0 ->
  registry s = registry s0 ++ [(call_id, m)] ->
  exists s1, runs_callback s1 (enable (exec (S (S f))) m s).1 f.
Proof.
  intros Hs Hm Hat Hk Hr Hg. rewrite enable_eq by (done || by rewrite Hat).
  destruct (start_enable_at m s Hm) as [Hm1 Hat1]. destruct (safe_start_enable m s Hs) as [Hi1 _].
  set (s1 := (start_enable m s).1) in *. rewrite Hat in *. cbn [m_depMaps init_mod].
  replace (length (m_depMaps _)) with (length deps) by (symmetry; apply length_map).
  destruct (wire_all m f (length deps) 0 s1) as (s2 & He & Hw); [done| |].
  { split; rewrite ?Hat1; cbn; try done. by intros i; split; [intros ?%elem_of_empty|lia]. }
  rewrite (bind_inl _ _ _ _ _ He). rewrite (bind_inl (get m) _ s2 s2 (mod_at s2 m) eq_refl).
  destruct Hw. destruct w_quiet0 as (Herr & _ & _ & Hpl). rewrite Hpl.
  rewrite (bind_inl (enable_plugins _ []) _ s2 s2 tt eq_refl).
  set (s3 := (upd m (fun mo => mo <| m_enabling := false |>) s2).1).
  rewrite (bind_inl (upd m _) _ s2 s3 tt eq_refl).
  assert (Hat3 : mod_at s3 m = (mod_at s2 m) <| m_enabling := false |>) by by apply upd_at.
  destruct w_flags0 as (H1 & H2 & H3 & H4 & H5). destruct w_same0 as (Hk2 & Hr2 & _).
  assert (Hval : m_depExports (mod_at s2 m) = values) by (by rewrite w_exports0, firstn_all).
  destruct (check_runs (exec (S f)) (safe_exec (S f)) m s3 ar rq cb) as [Hi4 [l Hl]]; rewrite ?Hat3; try done.
  - apply (safe_upd_same m (fun mo => mo <| m_enabling := false |>)); [by repeat split|done].
  - by apply upd_dom.
  - cbn. by rewrite w_count0.
  - exists (about_to_run s3 m). split; [done|]. split; [exact Hk2|]. split.
    + exists (module_run s3 m). unfold about_to_run. cbn -[module_run]. rewrite Hr2. split; [done|].
      transitivity (m_depExports (mod_at s3 m)); [done|]. rewrite Hat3. exact Hval.
    + exists l. change (exec (S (S f)) (CCheck m false)) with (check (exec (S f)) m false).
      assert (Hv3 : m_depExports (mod_at s3 m) = values) by (rewrite Hat3; exact Hval).
      by rewrite Hl, Hv3.
Qed.

Lemma runs_bind {A B} (x : M A) (f : A -> M B) s :
  inv (x s).1 -> (forall a, safe (f a)) -> exists l, runs ((x ≫= f) s).1 = runs (x s).1 ++ l.
Proof.
  intros Hi Hf. unfold mbind, M_bind. destruct (x s) as [s1 [a|e]]; [by apply (Hf a s1 Hi)|].
  exists []. by rewrite app_nil_r.
Qed.

Lemma require_all_runs f :
  exists s1, runs_callback s1
    (require_all (exec (S (S (S (S f))))) (S (S (S (S f)))) deps false (FFun ar rq cb) None None s0).1 f.
Proof.
  set (F := S (S (S (S f)))). destruct no_queue as [Hq Hg]. unfold require_all.
  rewrite (bind_inl takeGlobalQueue _ s0 s0 tt) by (unfold takeGlobalQueue, modify; by rewrite Hg).
  rewrite (bind_inl (drain (exec F) F) _ s0 s0 true).
  2:{ subst F. cbn [drain].
      rewrite (bind_inl shift _ s0 s0 None); [done|].
      unfold shift. rewrite (bind_inl (gets defQueue) _ s0 s0 [] ltac:(unfold gets; by rewrite Hq)). done. }
  rewrite (bind_inl (mk_map None None false false) _ s0 (s0 <| cnt := call_map.2 |>) call_map.1).
  2:{ with_strategy transparent [call_map] (unfold call_map). unfold mk_map.
      by destruct (makeModuleMap _ _ _ _ _ _ _ _). }
  destruct getModule_call as (s1 & Hget & Hi1 & Hat1 & Hev1 & Hm1 & _ & Hk1 & Hr1 & Hg1).
  rewrite (bind_inl _ _ _ _ _ Hget).
  destruct (init_exec call_mod (S (S (S f))) s1 (next s0) Hi1 Hm1 Hat1 Hev1 Hk1)
    as (s2 & Hini & Hi2 & Hm2 & Hat2 & _ & Hk2 & Hr2 & Hg2).
  destruct (enable_runs call_mod f s2 (next s0)) as (s3 & Hi3 & Hk3 & Hrec & l & Hl);
    try done; try congruence.
  destruct (runs_bind (exec F (CInit call_mod deps false (FFun ar rq cb) None false true))
              (fun _ => exec F CCheckLoaded) s1) as [l2 Hl2].
  - by apply (safe_exec F (CInit call_mod deps false (FFun ar rq cb) None false true) s1).
  - intros _. apply safe_call; [apply safe_exec|done].
  - exists s3. do 3 (split; [done|]). exists (l ++ l2). rewrite Hl2.
    change (exec F (CInit ?a ?b ?c ?d ?e ?g ?h)) with (init (exec (S (S (S f)))) a b c d e g h).
    rewrite Hini. change (exec (S (S (S f))) (CEnable call_mod)) with (enable (exec (S (S f))) call_mod).
    rewrite Hl, <- app_assoc. done.
Qed.
End Require.

(** C11. [require] of modules that are there calls back at once.  When no [define]
    call waits in the queues, every name in the array stands for itself (no plugin,
    not relative, not mapped, none of [require], [exports], [module]), is defined and
    is not in the registry, and the name of the internal module of the call is not
    in use, then the callback function is run within the call: from a state [s1]
    that differs from the page's only in the bookkeeping of the call, before any
    other factory, with the values of the modules in the order of the array; and
    what it does is recorded at the end of the call.  No script, timer or further
    event is needed. *)
Theorem require_defined_calls_back (E : Env) s deps ar rq cb k fuel :
  inv s -> defQueue s = [] /\ globalDefQueue s = [] ->
  Forall (plain s) deps ->
  Forall (fun d => is_Some (defined s !! d) /\ prop_get d (registry s) = None) deps ->
  prop_get (call_id s) (registry s) = None /\ undefEvents s !! call_id s = None /\ call_id s ∉ deps ->
  let args := map (fun d => AVal (default VUndef (defined s !! d))) deps in
  exists r s1 l,
    (inv s1 /\ cfg s1 = cfg s /\ defined s1 = defined s /\ defQueue s1 = [] /\ globalDefQueue s1 = []) /\
    runs s1 = runs s ++ [r] /\ r_args r = args /\
    runs (page_step (exec (S (S (S (S (S fuel))))))
            (UserCode (RequireAll None deps (FFun ar rq cb) None k)) s).1 =
      runs (run (exec (S fuel)) (cb args) s1).1 ++ l.
Proof.
  intros Hs Hq Hp Hd Hf args.
  destruct (require_all_runs s deps cb ar rq Hs Hq Hp Hd Hf fuel) as (s1 & Hi1 & Hk1 & (r & Hr & Ha) & l & Hl).
  set (F := S (S (S (S (S fuel))))). set (x := exec F (CRequire deps false (FFun ar rq cb) None None)).
  assert (Hx : safe x) by (apply safe_call; [apply safe_exec|done]).
  assert (Htry : (try x s).1 = (x s).1) by (unfold try; by destruct (x s) as [? [[]|[]]]).
  assert (Hk : forall r, safe (run (exec F) (k r))) by (intros ?; apply safe_run, safe_exec).
  destruct (runs_bind (try x) (fun r => run (exec F) (k r)) s) as [l1 Hl1]; [|done|].
  { rewrite Htry. by apply Hx. }
  destruct (runs_bind (try x ≫= fun r => run (exec F) (k r)) (fun _ => skip) s) as [l2 Hl2].
  { apply safe_bind; [by apply safe_try|done|done]. }
  { intros _. apply safe_skip. }
  exists r, s1, (l ++ l1 ++ l2). split; [done|]. split; [done|]. split; [done|].
  change (page_step (exec F) (UserCode (RequireAll None deps (FFun ar rq cb) None k)))
    with ((try x ≫= fun r => run (exec F) (k r)) ;; skip).
  rewrite Hl2, Hl1, Htry. change (x s) with (require_all (exec (S (S (S (S fuel))))) (S (S (S (S fuel))))
    deps false (FFun ar rq cb) None None s). rewrite Hl, <- !app_assoc. done.
Qed.

#[local] Existing Instance sample_env.

(** A callback that itself requires, with a callback in turn. *)
Definition nested (args : list arg) : prog :=
  RequireAll None [js "a"] (FFun 0 [] (fun _ => Return VUndef None)) None ignore.

(** The page after its cycle was resolved: [a] and [b] are there. *)
Lemma require_defined_calls_back_witness :
  let s := play config_init cycle_page in
  exists r s1 l,
    (inv s1 /\ cfg s1 = cfg s /\ defined s1 = defined s /\ defQueue s1 = [] /\ globalDefQueue s1 = []) /\
    runs s1 = runs s ++ [r] /\ r_args r = [AVal (VUser 3); AVal (VUser 2)] /\
    runs (page_step (exec (E := sample_env) 8)
            (UserCode (RequireAll None [js "b"; js "a"] (FFun 0 [] nested) None ignore)) s).1 =
      runs (run (exec 4) (nested [AVal (VUser 3); AVal (VUser 2)]) s1).1 ++ l.
Proof.
  cbv zeta.
  destruct (require_defined_calls_back sample_env (play config_init cycle_page) [js "b"; js "a"] 0 []
    nested ignore 3) as (r & s1 & l & H1 & H2 & H3 & H4).
  - apply (reachable_inv config_init), play_reachable.
  - vm_compute. split; reflexivity.
  - repeat constructor; vm_compute; reflexivity.
  - repeat constructor; vm_compute; eauto.
  - split; [vm_compute; reflexivity|]. split; [vm_compute; reflexivity|].
    apply (bool_decide_unpack _). vm_compute. exact I.
  - exists r, s1, l. split; [exact H1|]. split; [exact H2|]. split.
    + rewrite H3. vm_compute. reflexivity.
    + rewrite H4. reflexivity.
Defined.

End LoaderRequire.
