(* ===== verification/DataSource.v ===== *)
(** DataSource: what a data grid asks of its source of rows, and the static data
    source (fuelux/sample/datasource.js) that answers from an array in memory.

    A grid hands its source the one [options] object it keeps changing, and the
    source reads it when the answer is computed, after [_delay] milliseconds: the
    class [DataSource] therefore has the answer as a function of the options current
    at that moment.  [PagedSource] is the contract the grid's paging relies on;
    DataSourceFacts.v proves that the static source keeps it. *)

From S2P Require Import Prelude Numbers.
From Stdlib Require Import ZArith.

Local Open Scope Z_scope.

(** * Rows *)

(** A value of a row: a string, a finite number, or anything else, of which only
    the text that concatenation gives is kept. *)
Inductive cell := Str (s : jstr) | Num (z : Z) | Other (text : jstr).

(** A row is an object: its properties in order, each name once. *)
Abbreviation item := (list (jstr * cell)).

#[export] Instance cell_eq_dec : EqDecision cell.
Proof. solve_decision. Defined.

(** [item.p]. *)
Fixpoint get (p : jstr) (it : item) : option cell :=
  match it with
  | [] => None
  | (q, c) :: it' => if decide (p = q) then Some c else get p it'
  end.

(** ['' + item.p]. *)
Definition cell_text (c : option cell) : jstr :=
  match c with
  | Some (Str s) => s
  | Some (Num z) => text_of_Z z
  | Some (Other t) => t
  | None => js "undefined"
  end.

Record column := Column { property : jstr; label : jstr; sortable : bool }.

(** * The request and the answer *)

Record options := Options {
  search : option jstr;
  filter : option jstr;          (* the chosen filter's value *)
  sortProperty : option jstr;
  sortDirection : option jstr;
  pageIndex : Z;
  pageSize : option Z            (* None is NaN, from a size that is no number *)
}.

Record answer := Answer {
  data : list item;
  start : option Z;
  end_ : option Z;
  count : Z;
  pages : num;
  page : Z
}.

Class DataSource (S : Type) := {
  columns : S -> list column;
  respond : S -> options -> answer
}.

(** The rows the request selects, whatever the page, and what the source does to the
    rows of a page before it hands them over. *)
Class PagedSource (S : Type) `{DataSource S} := {
  rows : S -> options -> list item;
  dress : S -> list item -> list item;
  rows_page s o i : rows s (Options (search o) (filter o) (sortProperty o)
                              (sortDirection o) i (pageSize o)) = rows s o;
  page_data s o n :
    pageSize o = Some n -> 0 < n -> 0 <= pageIndex o ->
    data (respond s o)
    = dress s (take (Z.to_nat n) (drop (Z.to_nat (pageIndex o * n)) (rows s o)));
  page_count s o : count (respond s o) = Z.of_nat (length (rows s o));
  page_pages s o : pages (respond s o) = ceil_div (count (respond s o)) (pageSize o);
  page_number s o : page (respond s o) = pageIndex o + 1
}.

(** * The static source *)

(** What the static source calls that is not in the repository's own code:
    [toLowerCase] follows the Unicode tables, [_.sortBy] is underscore's, and
    [toNumber] is the conversion that [<] applies to a population that is not a
    number ([None] is NaN). *)
Class Runtime := {
  toLowerCase : jstr -> jstr;
  toNumber : cell -> option Z;
  sortBy : jstr -> list item -> list item
}.

Record StaticDataSource := Static {
  _formatter : option (list item -> list item);
  _columns : list column;
  _delay : N;
  _data : list item
}.

(** [new StaticDataSource(options)]: a delay left out is 0. *)
Definition StaticDataSource_new (formatter : option (list item -> list item))
    (cols : list column) (delay : option N) (rows : list item) : StaticDataSource :=
  Static formatter cols (default 0%N delay) rows.

Section Static.
Context {R : Runtime}.

(** The test applied to each property of an item by the search. *)
Definition prop_matches (needle : jstr) (prop : cell) : bool :=
  match prop with
  | Str s => contains (toLowerCase needle) (toLowerCase s)
  | Num z => contains (toLowerCase needle) (toLowerCase (text_of_Z z))
  | Other _ => false
  end.

(** [_.each] goes on after a match: the flag is only ever set. *)
Fixpoint item_matches (needle : jstr) (it : item) (matched : bool) : bool :=
  match it with
  | [] => matched
  | (_, prop) :: it' =>
      item_matches needle it' (if prop_matches needle prop then true else matched)
  end.

Definition searching (o : options) (l : list item) : list item :=
  if truthy (search o)
  then List.filter (fun it => item_matches (default [] (search o)) it false) l
  else l.

Definition population (it : item) : option Z :=
  match get (js "population") it with
  | Some (Num z) => Some z
  | Some c => toNumber c
  | None => None
  end.

Definition passes (value : jstr) (it : item) : bool :=
  if decide (value = js "lt5m")
  then match population it with Some z => bool_decide (z < 5000000) | None => false end
  else if decide (value = js "gte5m")
  then match population it with Some z => bool_decide (z >= 5000000) | None => false end
  else true.

Definition filtering (o : options) (l : list item) : list item :=
  match filter o with
  | Some value => List.filter (passes value) l
  | None => l
  end.

Definition sorting (o : options) (l : list item) : list item :=
  if truthy (sortProperty o)
  then let l := sortBy (default [] (sortProperty o)) l in
       if decide (sortDirection o = Some (js "desc")) then reverse l else l
  else l.

(** The body of the timer that [data] starts. *)
Definition answer_of (self : StaticDataSource) (o : options) : answer :=
  let l := filtering o (searching o (_data self)) in
  let cnt := Z.of_nat (length l) in
  let l := sorting o l in
  let startIndex := mulN (pageIndex o) (pageSize o) in
  let endIndex := addN startIndex (pageSize o) in
  let stop := match endIndex with
              | Some e => if bool_decide (cnt < e) then Some cnt else Some e
              | None => None
              end in
  let l := slice startIndex endIndex l in
  let l := match _formatter self with Some f => f l | None => l end in
  Answer l (addN startIndex (Some 1)) stop cnt (ceil_div cnt (pageSize o))
    (pageIndex o + 1).

#[export] Instance static_source : DataSource StaticDataSource := {
  columns := _columns;
  respond := answer_of
}.

(** What the request selects, as a specification: the rows that match, in order. *)
Definition static_rows (self : StaticDataSource) (o : options) : list item :=
  sorting o (filtering o (searching o (_data self))).
End Static.
