(* ===== verification/DataSourceFacts.v ===== *)
(** DataSourceFacts: the static data source keeps the paging contract, and what its
    search, filter and sort select. *)

From S2P Require Import Prelude Numbers DataSource.
From Stdlib Require Import ZArith.

Local Open Scope Z_scope.

(** Underscore's documentation: [sortBy] returns a sorted copy of the list. *)
Class SortsCopies `{Runtime} := sortBy_perm p l : Permutation (sortBy p l) l.

Section Facts.
Context {R : Runtime} {RL : SortsCopies}.

Lemma item_matches_spec needle it b :
  item_matches needle it b = b || existsb (fun pc => prop_matches needle pc.2) it.
Proof.
  revert b. induction it as [|[p c] it IH]; intros b; simpl; [by rewrite orb_false_r|].
  rewrite IH. destruct (prop_matches needle c), b; done.
Qed.

Lemma sorting_perm o l : Permutation (sorting o l) l.
Proof.
  unfold sorting. destruct (truthy _); [|done]. case_decide; [|apply sortBy_perm].
  etrans; [apply reverse_Permutation|apply sortBy_perm].
Qed.

Lemma ListFilter_both {A} (f g : A -> bool) l :
  List.filter f (List.filter g l) = List.filter (fun x => g x && f x) l.
Proof.
  induction l as [|x l IH]; simpl; [done|].
  destruct (g x); simpl; [|done]. destruct (f x); by rewrite IH.
Qed.

Lemma ListFilter_all {A} (l : list A) : List.filter (fun _ => true) l = l.
Proof. induction l; simpl; congruence. Qed.

(** The row test that a request amounts to. *)
Definition selected (o : options) (it : item) : bool :=
  (if truthy (search o)
   then existsb (fun pc => prop_matches (default [] (search o)) pc.2) it else true)
  && match filter o with Some v => passes v it | None => true end.

Lemma filtering_searching o l :
  filtering o (searching o l) = List.filter (selected o) l.
Proof.
  transitivity (filtering o (List.filter (fun it => if truthy (search o)
    then existsb (fun pc => prop_matches (default [] (search o)) pc.2) it else true) l)).
  - f_equal. unfold searching. destruct (truthy _); [|by rewrite ListFilter_all].
    apply List.filter_ext. intros it. by rewrite item_matches_spec.
  - unfold filtering, selected. destruct (filter o) as [v|]; [apply ListFilter_both|].
    apply List.filter_ext. intros it. by rewrite andb_true_r.
Qed.

Lemma slice_page {A} (l : list A) i n :
  0 < n -> 0 <= i ->
  slice (mulN i (Some n)) (addN (mulN i (Some n)) (Some n)) l
  = take (Z.to_nat n) (drop (Z.to_nat (i * n)) l).
Proof. intros Hn Hi. simpl. rewrite slice_nonneg by nia. do 2 f_equal. lia. Qed.

Lemma sorting_length o l : length (sorting o l) = length l.
Proof. apply Permutation_length, sorting_perm. Qed.

#[export] Instance static_paged : PagedSource StaticDataSource.
Proof.
  refine {|
    rows := static_rows;
    dress self l := match _formatter self with Some f => f l | None => l end
  |}.
  - done.
  - intros s o n Hn Hpos Hi. simpl. by rewrite Hn, slice_page.
  - intros s o. simpl. unfold static_rows. by rewrite sorting_length.
  - done.
  - done.
Defined.

(** The static source selects exactly the rows the request asks for: whatever
    the sort, its rows are those of its data, each as often as it occurs there, that
    have a string or number containing the search text up to case (when a search
    text is given) and pass the chosen filter (when one is chosen). *)
Theorem static_rows_selected self o :
  Permutation (static_rows self o) (List.filter (selected o) (_data self)).
Proof. unfold static_rows. rewrite sorting_perm. by rewrite filtering_searching. Qed.

(** The two population filters split the rows: a row whose population is a
    number passes exactly one of them, and one whose population is missing or not a
    number passes neither. *)
Theorem filters_split it :
  match population it with
  | Some _ => passes (js "gte5m") it = negb (passes (js "lt5m") it)
  | None => passes (js "lt5m") it = false /\ passes (js "gte5m") it = false
  end.
Proof.
  unfold passes. rewrite (decide_True (P := js "lt5m" = js "lt5m")) by done.
  rewrite (decide_False (P := js "gte5m" = js "lt5m")) by done.
  rewrite decide_True by done.
  destruct (population it); [|done]. repeat case_bool_decide; simpl; lia || done.
Qed.
End Facts.

(** * A concrete runtime, for the examples *)

Definition ascii_lower (s : jstr) : jstr :=
  map (fun c => if bool_decide (65 <= c <= 90)%N then (c + 32)%N else c) s.

Definition sort_key (p : jstr) (it : item) : Z :=
  match get p it with Some (Num z) => z | _ => 0 end.

Fixpoint insert_by (p : jstr) (it : item) (l : list item) : list item :=
  match l with
  | [] => [it]
  | it' :: l' => if bool_decide (sort_key p it <= sort_key p it') then it :: l
                 else it' :: insert_by p it l'
  end.

Definition sample_runtime : Runtime := {|
  toLowerCase := ascii_lower;
  toNumber _ := None;
  sortBy p := foldr (insert_by p) []
|}.

Lemma sample_sorts : @SortsCopies sample_runtime.
Proof.
  intros p l. induction l as [|it l IH]; simpl; [done|].
  transitivity (it :: foldr (insert_by p) [] l); [|by rewrite <- IH at 2].
  clear IH. simpl. generalize (foldr (insert_by p) [] l). clear l. intros l.
  induction l as [|it' l IH]; simpl; [done|]. case_bool_decide; [done|].
  by rewrite IH, Permutation_swap.
Qed.

Definition geo (name : jstr) (pop : Z) : item :=
  [(js "name", Str name); (js "population", Num pop)].

Definition sample_source : StaticDataSource :=
  StaticDataSource_new None
    [Column (js "name") (js "Name") true; Column (js "population") (js "Population") false]
    None [geo (js "Lima") 8000000; geo (js "Bern") 130000; geo (js "Oslo") 600000].

Definition sample_options : options :=
  Options (Some (js "l")) (Some (js "lt5m")) (Some (js "population")) None 0 (Some 2).

Lemma static_rows_selected_witness :
  @static_rows sample_runtime sample_source sample_options = [geo (js "Oslo") 600000]
  /\ Permutation (@static_rows sample_runtime sample_source sample_options)
       (List.filter (@selected sample_runtime sample_options) (_data sample_source)).
Proof.
  split; [vm_compute; reflexivity|].
  apply (@static_rows_selected sample_runtime sample_sorts).
Defined.
