(* ===== verification/Datagrid.v ===== *)
(** Datagrid: the data grid widget (fuelux/dist/datagrid.js).

    The grid's state is the options object it shares with its source, the texts and
    flags of the elements it writes, and the requests whose answers are still to come.
    Every handler ends in [renderData], which shows the loading row and starts a
    request; the answer reads the options as they are when it arrives.  The layout of
    a stretched grid (column widths, heights) is not modelled: it reads and writes
    nothing else. *)

From S2P Require Import Prelude Numbers DataSource.
From Stdlib Require Import ZArith.
From coqutil Require Import Datatypes.RecordSettersUsingExistingGetters.

Local Open Scope Z_scope.

(** The texts the page gives the grid. *)
Record texts := Texts { loadingHTML : jstr; itemsText : jstr; itemText : jstr }.

Definition datagrid_defaults_itemsText : jstr := js "items".

Record grid := Grid {
  g_texts : texts;
  g_options : options;            (* this.options.dataOptions *)
  g_columns : list column;
  colheader : jstr;               (* the header row's HTML *)
  colspan : Z;
  sorted : option (nat * jstr);   (* the header marked sorted, and its icon's class *)
  footer_visible : bool;
  pageinput : option Z;           (* None: what the page's markup holds *)
  pageslabel : num;               (* the number its text reads as *)
  countlabel : jstr;
  startlabel : jstr;
  endlabel : jstr;
  pagedropdown : jstr;
  prev_disabled : bool;
  next_disabled : bool;
  tbody : jstr;
  loaded : nat;                   (* how often 'loaded' was triggered *)
  pending : nat                   (* requests not yet answered *)
}.

(** What a request shown in full is, field by field: what [renderData]'s callback
    writes. *)
Definition num_text (o : option Z) : jstr :=
  match o with Some z => text_of_Z z | None => js "NaN" end.

Definition header_cell (c : column) : jstr :=
  js "<th data-property=" ++ [dquote] ++ property c ++ [dquote]
    ++ (if sortable c then js " class=" ++ [dquote] ++ js "sortable" ++ [dquote] else [])
    ++ js ">" ++ label c ++ js "</th>".

Definition renderColumns (g : grid) : grid :=
  g <| colspan := Z.of_nat (length (g_columns g)) |>
    <| colheader ::= fun html => html ++ concat (map header_cell (g_columns g)) |>.

Definition _updateColumns (th : nat) (direction : jstr) (g : grid) : grid :=
  let className := if decide (direction = js "asc") then js "icon-chevron-up"
                   else js "icon-chevron-down" in
  g <| sorted := Some (th, className) |>.

(** The loop of [updatePageDropdown]; [None] when it has not ended after [fuel] turns. *)
Fixpoint dropdown_loop (fuel : nat) (i : Z) (last : num) (pageHTML : jstr) : option jstr :=
  if Z_le_num i last
  then match fuel with
       | O => None
       | S fuel => dropdown_loop fuel (i + 1) last
                     (pageHTML ++ js "<li><a>" ++ text_of_Z i ++ js "</a></li>")
       end
  else Some pageHTML.

(** As many turns as there are pages. *)
Definition dropdown_fuel (n : num) : nat :=
  match n with Fin z => Z.to_nat z | _ => O end.

Definition updatePageDropdown (a : answer) (g : grid) : option grid :=
  html ← dropdown_loop (dropdown_fuel (pages a)) 1 (pages a) [];
  Some (g <| pagedropdown := html |>).

Definition updatePageButtons (a : answer) (g : grid) : grid :=
  g <| prev_disabled := bool_decide (page a = 1) |>
    <| next_disabled := bool_decide (Fin (page a) = pages a) |>.

Definition placeholderRowHTML (columns : Z) (content : jstr) : jstr :=
  js "<tr><td style=" ++ [dquote] ++ js "text-align:center;padding:20px;border-bottom:none;"
    ++ [dquote] ++ js " colspan=" ++ [dquote] ++ text_of_Z columns ++ [dquote] ++ js ">"
    ++ content ++ js "</td></tr>".

Definition cell_html (row : item) (c : column) : jstr :=
  js "<td>" ++ cell_text (get (property c) row) ++ js "</td>".

Definition row_html (cols : list column) (row : item) : jstr :=
  js "<tr>" ++ concat (map (cell_html row) cols) ++ js "</tr>".

Section Grid.
Context {S : Type} {DSrc : DataSource S}.
Variable source : S.

(** The first half of [renderData]: the loading row, and the request. *)
Definition renderData (g : grid) : grid :=
  g <| tbody := placeholderRowHTML (Z.of_nat (length (g_columns g)))
                  (loadingHTML (g_texts g)) |>
    <| pending ::= Nat.succ |>.

(** The callback [renderData] gives the source; [None] when it never ends. *)
Definition render_answer (a : answer) (g : grid) : option grid :=
  let itemdesc := if decide (count a = 1) then itemText (g_texts g)
                  else itemsText (g_texts g) in
  let g := g <| footer_visible := bool_decide (0 < count a) |>
             <| pageinput := Some (page a) |>
             <| pageslabel := pages a |>
             <| countlabel := text_of_Z (count a) ++ js " " ++ itemdesc |>
             <| startlabel := num_text (start a) |>
             <| endlabel := num_text (end_ a) |> in
  g ← updatePageDropdown a g;
  let g := updatePageButtons a g in
  let rowHTML := concat (map (row_html (g_columns g)) (data a)) in
  let rowHTML := if truthy rowHTML then rowHTML
                 else placeholderRowHTML (Z.of_nat (length (g_columns g)))
                        (js "0 " ++ itemsText (g_texts g)) in
  Some (g <| tbody := rowHTML |> <| loaded ::= Nat.succ |>).

(** A request is answered: the source reads the shared options now. *)
Definition answered (g : grid) : option grid :=
  match pending g with
  | O => Some g
  | Datatypes.S n => render_answer (respond source (g_options g)) (g <| pending := n |>)
  end.

(** The handlers, in the source's order. *)
Inductive target := Th (i : nat) | Inside.

Definition headerClicked (t : target) (g : grid) : grid :=
  match t with
  | Inside => g
  | Th i =>
      match g_columns g !! i with
      | Some c =>
          if sortable c
          then
            let o := g_options g in
            let o :=
              if decide (sortProperty o = Some (property c))
              then o <| sortDirection :=
                          Some (if decide (sortDirection o = Some (js "asc"))
                                then js "desc" else js "asc") |>
              else o <| sortDirection := Some (js "asc") |>
                     <| sortProperty := Some (property c) |> in
            let o := o <| pageIndex := 0 |> in
            let g := g <| g_options := o |> in
            let g := _updateColumns i (default [] (sortDirection o)) g in
            renderData g
          else g
      | None => g
      end
  end.

Definition pagesizeChanged (text : jstr) (g : grid) : grid :=
  renderData (g <| g_options ::= fun o => o <| pageSize := parseInt text |>
                                            <| pageIndex := 0 |> |>).

Definition pageChanged (text : jstr) (g : grid) : grid :=
  let pageRequested := match parseInt text with Some n => n | None => 1 end in
  let maxPages := pageslabel g in
  let index := match maxPages with
               | Fin m => if Z_gt_num pageRequested maxPages then m - 1
                          else pageRequested - 1
               | _ => pageRequested - 1
               end in
  renderData (g <| g_options ::= fun o => o <| pageIndex := index |> |>).

Definition searchChanged (s : option jstr) (g : grid) : grid :=
  renderData (g <| g_options ::= fun o => o <| search := s |> <| pageIndex := 0 |> |>).

Definition filterChanged (f : option jstr) (g : grid) : grid :=
  renderData (g <| g_options ::= fun o => o <| filter := f |> <| pageIndex := 0 |> |>).

Definition previous (g : grid) : grid :=
  renderData (g <| g_options ::= fun o => o <| pageIndex ::= Z.pred |> |>).

Definition next (g : grid) : grid :=
  renderData (g <| g_options ::= fun o => o <| pageIndex ::= Z.succ |> |>).

Definition reload (g : grid) : grid :=
  renderData (g <| g_options ::= fun o => o <| pageIndex := 0 |> |>).

(** [new Datagrid(element, options)], on a page whose markup is [markup]. *)
Definition Datagrid (markup : grid) (o : options) (size : jstr) : grid :=
  let g := markup <| g_options := o <| pageSize := parseInt size |> |> in
  let g := g <| footer_visible := false |> in
  let g := g <| g_columns := columns source |> in
  renderData (renderColumns g).

(** What can happen to a grid. A disabled button receives no click. *)
Inductive event :=
  | ClickHeader (t : target) | ChangePageSize (text : jstr) | ChangePage (text : jstr)
  | Search (s : option jstr) | Filter (f : option jstr)
  | ClickPrevious | ClickNext | Reload | Answered.

Definition handle (e : event) (g : grid) : option grid :=
  match e with
  | ClickHeader t => Some (headerClicked t g)
  | ChangePageSize s => Some (pagesizeChanged s g)
  | ChangePage s => Some (pageChanged s g)
  | Search s => Some (searchChanged s g)
  | Filter f => Some (filterChanged f g)
  | ClickPrevious => Some (if prev_disabled g then g else previous g)
  | ClickNext => Some (if next_disabled g then g else next g)
  | Reload => Some (reload g)
  | Answered => answered g
  end.

Fixpoint handle_all (es : list event) (g : grid) : option grid :=
  match es with
  | [] => Some g
  | e :: es => g ← handle e g; handle_all es g
  end.
End Grid.
