(* ===== verification/DatagridFacts.v ===== *)
(** DatagridFacts: what the data grid shows, against any source that keeps the
    paging contract. *)

From S2P Require Import Prelude Numbers DataSource DataSourceFacts Datagrid.
From Stdlib Require Import ZArith.
From coqutil Require Import Datatypes.RecordSettersUsingExistingGetters.

Local Open Scope Z_scope.

(** * The page dropdown *)

Definition page_entry (i : Z) : jstr := js "<li><a>" ++ text_of_Z i ++ js "</a></li>".

Definition page_entries (n : num) : jstr :=
  match n with Fin z => concat (map page_entry (seqZ 1 z)) | _ => [] end.

Lemma dropdown_loop_fin k i html :
  dropdown_loop k i (Fin (i + Z.of_nat k - 1)) html
  = Some (html ++ concat (map page_entry (seqZ i (Z.of_nat k)))).
Proof.
  revert i html. induction k as [|k IH]; intros i html.
  - cbn [dropdown_loop Z_le_num]. rewrite bool_decide_false by lia. by rewrite app_nil_r.
  - cbn [dropdown_loop Z_le_num]. rewrite bool_decide_true by lia.
    replace (i + Z.of_nat (S k) - 1) with ((i + 1) + Z.of_nat k - 1) by lia.
    rewrite IH. rewrite (seqZ_cons i) by lia. cbn [map concat].
    replace (Z.pred (Z.of_nat (S k))) with (Z.of_nat k) by lia.
    replace (Z.succ i) with (i + 1) by lia. unfold page_entry at 2.
    by rewrite <- !app_assoc.
Qed.

(** Infinitely many pages are never all listed. *)
Lemma dropdown_loop_infinite k i html : dropdown_loop k i Infinity html = None.
Proof. revert i html. induction k as [|k IH]; intros i html; simpl; [done|apply IH]. Qed.

(** The fuel is enough whenever any is. *)
Lemma dropdown_loop_enough n :
  n ≠ Infinity -> dropdown_loop (dropdown_fuel n) 1 n [] = Some (page_entries n).
Proof.
  destruct n as [z| |]; [|done|done]. intros _. unfold dropdown_fuel.
  destruct (decide (0 <= z)).
  - pose proof (dropdown_loop_fin (Z.to_nat z) 1 []) as H. cbn [app] in H.
    rewrite Z2Nat.id in H by done. replace (1 + z - 1) with z in H by lia. exact H.
  - replace (Z.to_nat z) with O by lia. cbn [dropdown_loop Z_le_num].
    rewrite bool_decide_false by lia. unfold page_entries.
    by rewrite seqZ_nil by lia.
Qed.

(** * What an answer leaves on the page *)

(** The grid shows answer [a]: what a reader of the page sees. *)
Record shows (a : answer) (g : grid) : Prop := {
  shows_page : pageinput g = Some (page a);
  shows_pages : pageslabel g = pages a;
  shows_start : startlabel g = num_text (start a);
  shows_end : endlabel g = num_text (end_ a);
  shows_count : countlabel g = text_of_Z (count a) ++ js " "
    ++ (if decide (count a = 1) then itemText (g_texts g) else itemsText (g_texts g));
  shows_footer : footer_visible g = bool_decide (0 < count a);
  shows_dropdown : pagedropdown g = page_entries (pages a);
  shows_prev : prev_disabled g = bool_decide (page a = 1);
  shows_next : next_disabled g = bool_decide (Fin (page a) = pages a);
  shows_rows : tbody g =
    match data a with
    | [] => placeholderRowHTML (Z.of_nat (length (g_columns g)))
              (js "0 " ++ itemsText (g_texts g))
    | l => concat (map (row_html (g_columns g)) l)
    end
}.

Lemma rows_html_truthy cols l :
  truthy (concat (map (row_html cols) l)) = match l with [] => false | _ => true end.
Proof. by destruct l. Qed.

(** An answer with finitely many pages is rendered in full, and changes nothing of
    what the next request reads. *)
Lemma render_answer_shows a g :
  pages a ≠ Infinity ->
  exists g', render_answer a g = Some g' /\ shows a g' /\ g_options g' = g_options g
    /\ g_columns g' = g_columns g /\ g_texts g' = g_texts g /\ pending g' = pending g.
Proof.
  intros Hp. unfold render_answer, updatePageDropdown.
  rewrite dropdown_loop_enough by done. cbn [mbind option_bind].
  eexists. split; [reflexivity|]. split; [|done]. split; cbn; try done.
  destruct (data a) as [|r l]; done.
Qed.

Lemma render_answer_hangs a g : pages a = Infinity -> render_answer a g = None.
Proof.
  intros Hp. unfold render_answer, updatePageDropdown. rewrite Hp.
  by rewrite dropdown_loop_infinite.
Qed.

Lemma render_answer_inv a g g' :
  render_answer a g = Some g' ->
  shows a g' /\ g_options g' = g_options g
    /\ g_columns g' = g_columns g /\ g_texts g' = g_texts g /\ pending g' = pending g.
Proof.
  intros H. destruct (decide (pages a = Infinity)) as [E|E].
  - by rewrite render_answer_hangs in H.
  - destruct (render_answer_shows a g E) as (g2 & H2 & ?). by simplify_eq.
Qed.

(** * The grid and its options *)

Section Grid.
Context {S : Type} {DSrc : DataSource S}.
Variable source : S.

(** Every handler either leaves the grid alone or starts a request. *)
Definition up_to_date (g : grid) : Prop :=
  pending g = 0%nat -> shows (respond source (g_options g)) g.

Lemma renderData_up_to_date g : up_to_date (renderData g).
Proof. by intros H. Qed.

Lemma handle_up_to_date e g g' :
  up_to_date g -> handle source e g = Some g' -> up_to_date g'.
Proof.
  intros Hg He. destruct e as [[i|]| | | | | | | |]; cbn in He;
    try (injection He as <-; first [done|apply renderData_up_to_date]).
  - injection He as <-. destruct (g_columns g !! i) as [c|]; [|done].
    destruct (sortable c); [apply renderData_up_to_date|done].
  - injection He as <-. destruct (prev_disabled g); [done|apply renderData_up_to_date].
  - injection He as <-. destruct (next_disabled g); [done|apply renderData_up_to_date].
  - unfold answered in He. destruct (pending g) as [|n] eqn:Hn; [by injection He as <-|].
    apply render_answer_inv in He as (Hs & Ho & _). intros _. rewrite Ho. exact Hs.
Qed.

Lemma handle_all_up_to_date es g g' :
  up_to_date g -> handle_all source es g = Some g' -> up_to_date g'.
Proof.
  revert g. induction es as [|e es IH]; intros g Hg; cbn [handle_all].
  - by intros [= <-].
  - destruct (handle source e g) as [g1|] eqn:E; cbn [mbind option_bind]; [|done].
    apply IH. by eapply handle_up_to_date.
Qed.

(** C13. However clicks, changes, searches, filters and late answers interleave, a
    grid with no request pending shows the answer to its current options: rows,
    labels, page dropdown and buttons. Requests overlap freely because every answer
    is computed from the options current when it arrives. *)
Theorem settled_grid_shows_options markup o size es g :
  handle_all source es (Datagrid source markup o size) = Some g ->
  pending g = 0%nat -> shows (respond source (g_options g)) g.
Proof. apply handle_all_up_to_date, renderData_up_to_date. Qed.

(** * Paging *)

(** One page at a time: a click on Next and its answer. *)
Fixpoint tour (clicks : nat) (g : grid) : option (list jstr * grid) :=
  match clicks with
  | O => Some ([tbody g], g)
  | Datatypes.S k =>
      if next_disabled g then None
      else g1 ← handle_all source [ClickNext; Answered] g;
           r ← tour k g1; Some (tbody g :: r.1, r.2)
  end.

Context `{PS : !PagedSource S}.

(** A settled grid on a page of positive size, between the first page and the last. *)
Record on_page (n : Z) (g : grid) : Prop := {
  on_settled : pending g = 0%nat;
  on_shows : shows (respond source (g_options g)) g;
  on_size : pageSize (g_options g) = Some n;
  on_size_pos : 0 < n;
  on_first : 0 <= pageIndex (g_options g);
  on_last : pageIndex (g_options g) * n < Z.of_nat (length (rows source (g_options g)))
}.

Lemma on_page_pages n g :
  on_page n g -> pages (respond source (g_options g))
    = Fin (- ((- Z.of_nat (length (rows source (g_options g)))) / n)).
Proof.
  intros H. rewrite page_pages, page_count, (on_size n g H).
  apply ceil_div_pos, (on_size_pos n g H).
Qed.

Lemma rows_index o f : rows source (o <| pageIndex ::= f |>) = rows source o.
Proof. exact (rows_page source o (f (pageIndex o))). Qed.

(** The Next button is enabled exactly while the page is not the last one. *)
Lemma on_page_next n g :
  on_page n g ->
  next_disabled g = false <->
  (pageIndex (g_options g) + 1) * n < Z.of_nat (length (rows source (g_options g))).
Proof.
  intros H. pose proof (ceil_bounds (Z.of_nat (length (rows source (g_options g)))) n
    (on_size_pos n g H)) as B. pose proof (on_size_pos n g H). pose proof (on_last n g H).
  rewrite (shows_next _ _ (on_shows n g H)), bool_decide_eq_false, page_number.
  rewrite (on_page_pages n g H). set (q := - _) in *. cbn beta zeta in B.
  split; intros Hx; [|intros [= Heq]; nia].
  assert (pageIndex (g_options g) + 1 ≠ q) by congruence. nia.
Qed.

Lemma answered_pending g m :
  pending g = Datatypes.S m ->
  answered source g = render_answer (respond source (g_options g)) (g <| pending := m |>).
Proof. intros H. unfold answered. by rewrite H. Qed.

(** A request for a page that exists is answered, and the grid settles on it. *)
Lemma answered_on_page n g :
  pending g = 1%nat -> pageSize (g_options g) = Some n -> 0 < n ->
  0 <= pageIndex (g_options g) ->
  pageIndex (g_options g) * n < Z.of_nat (length (rows source (g_options g))) ->
  exists g', answered source g = Some g' /\ on_page n g'
    /\ g_options g' = g_options g /\ g_columns g' = g_columns g.
Proof.
  intros Hp Hs Hn H0 Hl. unfold answered. rewrite Hp.
  destruct (render_answer_shows (respond source (g_options g)) (g <| pending := 0%nat |>))
    as (g' & Hr & Hsh & Ho & Hc & _ & Hp').
  { rewrite page_pages, Hs, ceil_div_pos by done. done. }
  change (g_options (g <| pending := 0%nat |>)) with (g_options g) in *.
  change (g_columns (g <| pending := 0%nat |>)) with (g_columns g) in *.
  exists g'. split; [done|]. split; [|done]. split; rewrite ?Ho; done.
Qed.

Lemma turn_forward n g :
  on_page n g -> next_disabled g = false ->
  exists g', handle_all source [ClickNext; Answered] g = Some g' /\ on_page n g'
    /\ g_options g' = (g_options g) <| pageIndex := pageIndex (g_options g) + 1 |>
    /\ g_columns g' = g_columns g.
Proof.
  intros H Hd. pose proof (proj1 (on_page_next n g H) Hd) as Hl.
  destruct (answered_on_page n (next g)) as (g' & Ha & Hon & Ho & Hc); cbn.
  - by rewrite (on_settled n g H).
  - exact (on_size n g H).
  - exact (on_size_pos n g H).
  - pose proof (on_first n g H). lia.
  - rewrite rows_index, <- Z.add_1_r. exact Hl.
  - exists g'. cbn [handle_all handle]. rewrite Hd. cbn [mbind option_bind handle].
    rewrite Ha. done.
Qed.

Lemma turn_back n g :
  on_page n g -> prev_disabled g = false ->
  exists g', handle_all source [ClickPrevious; Answered] g = Some g' /\ on_page n g'
    /\ g_options g' = (g_options g) <| pageIndex := pageIndex (g_options g) - 1 |>
    /\ g_columns g' = g_columns g.
Proof.
  intros H Hd. pose proof (on_first n g H) as H0. pose proof (on_last n g H).
  pose proof (on_size_pos n g H).
  assert (pageIndex (g_options g) ≠ 0).
  { rewrite (shows_prev _ _ (on_shows n g H)), bool_decide_eq_false, page_number in Hd. lia. }
  destruct (answered_on_page n (previous g)) as (g' & Ha & Hon & Ho & Hc); cbn.
  - by rewrite (on_settled n g H).
  - exact (on_size n g H).
  - done.
  - lia.
  - rewrite rows_index, <- Z.sub_1_r. nia.
  - exists g'. cbn [handle_all handle]. rewrite Hd. cbn [mbind option_bind handle].
    rewrite Ha. done.
Qed.

Lemma page_rows_nonempty {A} n i (l : list A) :
  0 < n -> 0 <= i -> i * n < Z.of_nat (length l) ->
  take (Z.to_nat n) (drop (Z.to_nat (i * n)) l) ≠ [].
Proof.
  intros Hn Hi Hl H. apply (f_equal length) in H.
  rewrite length_take, length_drop in H. cbn in H. nia.
Qed.

(** The page shown, when the source hands rows over one by one. *)
Lemma on_page_rows f n g :
  (forall l, dress source l = map f l) -> on_page n g ->
  tbody g = concat (map (row_html (g_columns g)) (map f
    (take (Z.to_nat n) (drop (Z.to_nat (pageIndex (g_options g) * n))
       (rows source (g_options g)))))).
Proof.
  intros Hf H. rewrite (shows_rows _ _ (on_shows n g H)).
  rewrite (page_data source (g_options g) n) by (apply H). rewrite Hf.
  pose proof (page_rows_nonempty n (pageIndex (g_options g)) (rows source (g_options g))
    (on_size_pos n g H) (on_first n g H) (on_last n g H)).
  by destruct (take _ _).
Qed.

Lemma tour_reads_rest f n g k :
  (forall l, dress source l = map f l) -> on_page n g ->
  pages (respond source (g_options g))
    = Fin (pageIndex (g_options g) + 1 + Z.of_nat k) ->
  exists ts g', tour k g = Some (ts, g') /\ next_disabled g' = true
    /\ concat ts = concat (map (row_html (g_columns g)) (map f
         (drop (Z.to_nat (pageIndex (g_options g) * n)) (rows source (g_options g))))).
Proof.
  intros Hf. revert g. induction k as [|k IH]; intros g H Hk.
  - exists [tbody g], g. split; [done|]. split.
    + rewrite (shows_next _ _ (on_shows n g H)), Hk, page_number.
      apply bool_decide_true. f_equal. lia.
    + cbn [concat]. rewrite app_nil_r, (on_page_rows f n g Hf H). do 3 f_equal.
      apply take_ge. rewrite length_drop. rewrite (on_page_pages n g H) in Hk.
      injection Hk as Hk. pose proof (ceil_bounds
        (Z.of_nat (length (rows source (g_options g)))) n (on_size_pos n g H)) as B.
      cbn beta zeta in B. rewrite Hk in B. pose proof (on_size_pos n g H).
      pose proof (on_first n g H). nia.
  - assert (Hd : next_disabled g = false).
    { rewrite (shows_next _ _ (on_shows n g H)), Hk, page_number.
      apply bool_decide_false. intros [= E]. lia. }
    destruct (turn_forward n g H Hd) as (g1 & Ht & H1 & Ho & Hc).
    assert (Hr : rows source (g_options g1) = rows source (g_options g))
      by (rewrite Ho; exact (rows_index (g_options g) (fun _ => _))).
    assert (Hi : pageIndex (g_options g1) = pageIndex (g_options g) + 1) by by rewrite Ho.
    destruct (IH g1 H1) as (ts & g' & Htour & Hn & Hts).
    { rewrite (on_page_pages n g1 H1), Hr, Hi, <- (on_page_pages n g H), Hk. f_equal. lia. }
    exists (tbody g :: ts), g'. cbn [tour]. rewrite Hd, Ht. cbn [mbind option_bind].
    rewrite Htour. split; [done|]. split; [done|]. cbn [concat].
    rewrite Hts, (on_page_rows f n g Hf H), Hr, Hi, Hc, <- concat_app, <- map_app, <- map_app.
    do 3 f_equal.
    pose proof (on_size_pos n g H). pose proof (on_first n g H).
    replace (Z.to_nat ((pageIndex (g_options g) + 1) * n))
      with (Z.to_nat (pageIndex (g_options g) * n) + Z.to_nat n)%nat by nia.
    rewrite <- drop_drop. apply take_drop.
Qed.

(** Reading a grid from its first page to its last shows every row once, in the
    source's order: clicking Next as often as there are further pages, each click
    possible and each page answered, the pages' table bodies put end to end are the
    rows the request selects, and Next is then disabled. Holds for every source that
    keeps the paging contract. *)
Theorem next_reads_every_row f n g k :
  (forall l, dress source l = map f l) -> on_page n g ->
  pageIndex (g_options g) = 0 ->
  pages (respond source (g_options g)) = Fin (1 + Z.of_nat k) ->
  exists ts g', tour k g = Some (ts, g') /\ next_disabled g' = true
    /\ concat ts = concat (map (row_html (g_columns g)) (map f (rows source (g_options g)))).
Proof.
  intros Hf H H0 Hk. destruct (tour_reads_rest f n g k Hf H) as (ts & g' & Ht & Hd & Hts).
  - by rewrite H0.
  - exists ts, g'. rewrite Hts, H0. done.
Qed.

(** C14. Paging by the buttons alone stays inside the table: on a settled page that
    has rows, a click on Next or Previous whose answer is awaited leads, when the
    button is enabled, to the neighbouring page, which has rows too, and a disabled
    button changes nothing. *)
Theorem buttons_stay_on_pages n g (forward : bool) :
  on_page n g ->
  exists g', handle_all source [if forward then ClickNext else ClickPrevious; Answered] g
      = Some g'
    /\ on_page n g'
    /\ pageIndex (g_options g')
       = pageIndex (g_options g)
         + (if forward then if next_disabled g then 0 else 1
            else if prev_disabled g then 0 else -1).
Proof.
  intros H. assert (Hq : answered source g = Some g)
    by (unfold answered; by rewrite (on_settled n g H)).
  destruct forward.
  - destruct (next_disabled g) eqn:Hd.
    + exists g. cbn [handle_all handle]. rewrite Hd. cbn [mbind option_bind]. rewrite Hq.
      split; [done|]. split; [done|lia].
    + destruct (turn_forward n g H Hd) as (g' & ? & ? & Ho & _).
      exists g'. by rewrite Ho.
  - destruct (prev_disabled g) eqn:Hd.
    + exists g. cbn [handle_all handle]. rewrite Hd. cbn [mbind option_bind]. rewrite Hq.
      split; [done|]. split; [done|lia].
    + destruct (turn_back n g H Hd) as (g' & ? & ? & Ho & _).
      exists g'. by rewrite Ho.
Qed.

(** Two clicks on Next before the first answer: both requests are answered for the
    options after both clicks. *)
Lemma two_clicks m g :
  pending g = 0%nat -> next_disabled g = false ->
  pages (respond source (g_options (next (next g)))) = Fin m ->
  exists g', handle_all source [ClickNext; ClickNext; Answered; Answered] g = Some g'
    /\ shows (respond source (g_options (next (next g)))) g'
    /\ g_options g' = g_options (next (next g)).
Proof.
  intros Hq Hd Hp. set (g2 := next (next g)) in *.
  destruct (render_answer_shows (respond source (g_options g2)) (g2 <| pending := 1%nat |>))
    as (g3 & H3 & _ & Ho3 & _ & _ & P3); [by rewrite Hp|].
  change (g_options (g2 <| pending := 1%nat |>)) with (g_options g2) in Ho3.
  destruct (render_answer_shows (respond source (g_options g3)) (g3 <| pending := 0%nat |>))
    as (g4 & H4 & S4 & Ho4 & _ & _ & P4); [by rewrite Ho3, Hp|].
  change (g_options (g3 <| pending := 0%nat |>)) with (g_options g3) in Ho4.
  exists g4. rewrite Ho4, Ho3. rewrite Ho3 in S4. split; [|done].
  cbn [handle_all handle]. rewrite Hd. cbn [mbind option_bind].
  replace (next_disabled (next g)) with false by done. cbn [mbind option_bind].
  fold g2. rewrite (answered_pending g2 1) by (cbn; by rewrite Hq).
  rewrite H3. cbn [mbind option_bind]. rewrite (answered_pending g3 0) by (by rewrite P3).
  by rewrite H4.
Qed.

(** Clicks that do not wait for their answer leave the table: on the last page
    but one, two clicks on Next before the first is answered ask for a page after
    the last, which comes back with no rows and with Next enabled again, so the
    reader can go on for ever. *)
Theorem impatient_next_overruns f n g :
  (forall l, dress source l = map f l) -> on_page n g ->
  pages (respond source (g_options g)) = Fin (pageIndex (g_options g) + 2) ->
  exists g', handle_all source [ClickNext; ClickNext; Answered; Answered] g = Some g'
    /\ pageinput g' = Some (pageIndex (g_options g) + 3)
    /\ pageslabel g' = Fin (pageIndex (g_options g) + 2)
    /\ next_disabled g' = false
    /\ data (respond source (g_options g')) = [].
Proof.
  intros Hf H Hp. pose proof (on_page_pages n g H) as Hp'. rewrite Hp in Hp'.
  injection Hp' as Hq. pose proof (on_size_pos n g H). pose proof (on_first n g H).
  pose proof (ceil_bounds (Z.of_nat (length (rows source (g_options g)))) n
    (on_size_pos n g H)) as B. cbn beta zeta in B. rewrite <- Hq in B.
  assert (Hd : next_disabled g = false).
  { rewrite (shows_next _ _ (on_shows n g H)), Hp, page_number.
    apply bool_decide_false. intros [= E]. lia. }
  set (g2 := next (next g)).
  assert (Hr : rows source (g_options g2) = rows source (g_options g))
    by exact (rows_index (g_options g) (fun i => Z.succ (Z.succ i))).
  assert (Hi : pageIndex (g_options g2) = pageIndex (g_options g) + 2)
    by (change (pageIndex (g_options g2)) with (Z.succ (Z.succ (pageIndex (g_options g)))); lia).
  assert (Hs : pageSize (g_options g2) = pageSize (g_options g)) by done.
  assert (Hp2 : pages (respond source (g_options g2)) = Fin (pageIndex (g_options g) + 2))
    by (rewrite page_pages, page_count, Hr, Hs, <- page_count, <- page_pages; exact Hp).
  destruct (two_clicks _ g (on_settled n g H) Hd Hp2) as (g4 & H4 & S4 & Ho4). fold g2 in S4, Ho4.
  exists g4. split; [done|]. split; [|split; [|split]].
  - rewrite (shows_page _ _ S4), page_number, Hi. f_equal. lia.
  - by rewrite (shows_pages _ _ S4).
  - rewrite (shows_next _ _ S4), page_number, Hp2, Hi. apply bool_decide_false.
    intros E. injection E as E. lia.
  - rewrite Ho4, (page_data source (g_options g2) n), Hf; [|exact (on_size n g H)|done|lia].
    rewrite Hr, Hi, drop_ge by nia. by rewrite take_nil.
Qed.
End Grid.

(** * Page sizes and page numbers typed by the reader *)

Section Typed.
Context {S : Type} {DSrc : DataSource S} {PS : PagedSource S}.
Variable source : S.

(** A page size of zero stops the page: when the table has rows and the size
    chosen reads as 0, the number of pages is infinite, the loop that lists them never
    ends whatever number of turns it is given, and so the answer to the size change is
    never rendered. *)
Theorem page_size_zero_hangs g text :
  parseInt text = Some 0 -> pending g = 0%nat ->
  rows source (g_options (pagesizeChanged text g)) ≠ [] ->
  let a := respond source (g_options (pagesizeChanged text g)) in
  (forall turns, dropdown_loop turns 1 (pages a) [] = None)
  /\ handle_all source [ChangePageSize text; Answered] g = None.
Proof.
  intros Ht Hp Hr a. assert (Ha : pages a = Infinity).
  { unfold a. rewrite page_pages, page_count.
    change (pageSize (g_options (pagesizeChanged text g))) with (parseInt text).
    rewrite Ht. unfold ceil_div. rewrite bool_decide_false; [done|].
    by destruct (rows source _). }
  split; [intros k; rewrite Ha; apply dropdown_loop_infinite|].
  cbn [handle_all handle mbind option_bind].
  rewrite (answered_pending source _ 0) by (cbn; by rewrite Hp).
  by rewrite render_answer_hangs.
Qed.

(** Typing a page number: text that is no number asks for page 1; a number past
    the last page known asks for the last page; any other number, zero and negative
    ones included, is taken as it is, so there is no lower bound. *)
Theorem typed_page g text m :
  pageslabel g = Fin m ->
  pageIndex (g_options (pageChanged text g)) + 1
  = Z.min m (match parseInt text with Some p => p | None => 1 end).
Proof.
  intros Hm. unfold pageChanged. rewrite Hm. unfold Z_gt_num.
  set (p := match parseInt text with Some n => n | None => 1 end).
  case_bool_decide.
  - change (m - 1 + 1 = Z.min m p). lia.
  - change (p - 1 + 1 = Z.min m p). lia.
Qed.

(** Asking for a page by its number shows it, when there is such a page. *)
Theorem typed_page_shown n g p :
  on_page source n g -> 1 <= p ->
  (p - 1) * n < Z.of_nat (length (rows source (g_options g))) ->
  exists g', handle_all source [ChangePage (text_of_Z p); Answered] g = Some g'
    /\ on_page source n g' /\ pageinput g' = Some p.
Proof.
  intros H Hp Hl. pose proof (on_page_pages source n g H) as Hq.
  pose proof (ceil_bounds (Z.of_nat (length (rows source (g_options g)))) n
    (on_size_pos source n g H)) as B. pose proof (on_size_pos source n g H).
  set (m := - _) in *. cbn beta zeta in B.
  assert (Hm : pageslabel g = Fin m)
    by (rewrite (shows_pages _ _ (on_shows source n g H)); done).
  pose proof (typed_page g (text_of_Z p) m Hm) as Ht. rewrite parseInt_text in Ht.
  set (g1 := pageChanged (text_of_Z p) g) in *.
  assert (Hi : pageIndex (g_options g1) = p - 1) by nia.
  assert (Hr : rows source (g_options g1) = rows source (g_options g)).
  { unfold g1, pageChanged. exact (rows_index source (g_options g) (fun _ => _)). }
  destruct (answered_on_page source n g1) as (g' & Ha & Hon & Ho & _).
  - cbn. by rewrite (on_settled source n g H).
  - exact (on_size source n g H).
  - done.
  - lia.
  - by rewrite Hi, Hr.
  - exists g'. cbn [handle_all handle mbind option_bind]. fold g1. rewrite Ha.
    split; [done|]. split; [done|].
    rewrite (shows_page _ _ (on_shows source n g' Hon)), page_number, Ho, Hi.
    f_equal. lia.
Qed.
End Typed.

(** * Examples on a small table *)

#[local] Existing Instance sample_runtime.
#[local] Instance sample_sorts_instance : SortsCopies := sample_sorts.

Definition sample_markup : grid :=
  Grid (Texts (js "loading") (js "items") (js "item"))
    (Options None None None None 0 None) [] [] 0 None true None (Fin 0) [] [] [] [] false
    false [] 0 0.

Definition sample_new : grid :=
  Datagrid sample_source sample_markup (Options None None None None 0 None) (js "2").

Definition sample_open : option grid := handle_all sample_source [Answered] sample_new.

Definition sample_grid : grid := default sample_markup sample_open.

Lemma sample_on_page : on_page sample_source 2 sample_grid.
Proof.
  split; [reflexivity| |reflexivity|lia|vm_compute; discriminate|vm_compute; reflexivity].
  apply (handle_all_up_to_date sample_source [Answered] sample_new sample_grid
    (renderData_up_to_date sample_source _)); vm_compute; reflexivity.
Qed.

Lemma settled_grid_shows_options_witness :
  exists g, handle_all sample_source
      [Answered; ClickNext; Search (Some (js "o")); Answered; Answered]
      (Datagrid sample_source sample_markup (Options None None None None 0 None) (js "2"))
    = Some g /\ shows (respond sample_source (g_options g)) g.
Proof.
  eexists. split; [vm_compute; reflexivity|].
  eapply (settled_grid_shows_options sample_source sample_markup
    (Options None None None None 0 None) (js "2")
    [Answered; ClickNext; Search (Some (js "o")); Answered; Answered]).
  - vm_compute; reflexivity.
  - vm_compute; reflexivity.
Defined.

Lemma next_reads_every_row_witness :
  exists ts g', tour sample_source 1 sample_grid = Some (ts, g') /\ next_disabled g' = true
    /\ concat ts = concat (map (row_html (g_columns sample_grid))
         (map id (rows sample_source (g_options sample_grid)))).
Proof.
  apply (next_reads_every_row sample_source id 2 sample_grid 1).
  - intros l. symmetry. apply map_id.
  - exact sample_on_page.
  - reflexivity.
  - vm_compute. reflexivity.
Defined.

Lemma buttons_stay_on_pages_witness :
  exists g', handle_all sample_source [ClickNext; Answered] sample_grid = Some g'
    /\ on_page sample_source 2 g' /\ pageIndex (g_options g') = 0 + 1.
Proof. exact (buttons_stay_on_pages sample_source 2 sample_grid true sample_on_page). Defined.

Lemma impatient_next_overruns_witness :
  exists g', handle_all sample_source [ClickNext; ClickNext; Answered; Answered] sample_grid
      = Some g' /\ pageinput g' = Some 3 /\ pageslabel g' = Fin 2
    /\ next_disabled g' = false /\ data (respond sample_source (g_options g')) = [].
Proof.
  apply (impatient_next_overruns sample_source id 2 sample_grid).
  - intros l. symmetry. apply map_id.
  - exact sample_on_page.
  - vm_compute. reflexivity.
Defined.

Lemma page_size_zero_hangs_witness :
  let a := respond sample_source (g_options (pagesizeChanged (js "0") sample_grid)) in
  (forall turns, dropdown_loop turns 1 (pages a) [] = None)
  /\ handle_all sample_source [ChangePageSize (js "0"); Answered] sample_grid = None.
Proof.
  apply (page_size_zero_hangs sample_source sample_grid (js "0")).
  - reflexivity.
  - reflexivity.
  - vm_compute. discriminate.
Defined.

(** A negative page number shows rows all the same, counted from the end. *)
Lemma typed_page_witness :
  (pageslabel sample_grid = Fin 2
   /\ pageIndex (g_options (pageChanged (js "-1") sample_grid)) + 1 = Z.min 2 (-1))
  /\ option_map (fun g => (startlabel g, tbody g))
       (handle_all sample_source [ChangePageSize (js "1"); Answered; ChangePage (js "-1"); Answered]
          sample_grid)
     = Some (js "-1", row_html (columns sample_source) (geo (js "Bern") 130000)).
Proof.
  split; [|vm_compute; reflexivity]. split; [reflexivity|].
  apply (typed_page sample_grid (js "-1") 2). reflexivity.
Defined.
