(* ===== verification/SearchBox.v ===== *)
(** SearchBox: the search control (fuelux/dist/search.js), and the data grid it is
    wired to by the grid's constructor ([searched] and [cleared] call
    [searchChanged]). *)

From S2P Require Import Prelude Numbers DataSource Datagrid.
From coqutil Require Import Datatypes.RecordSettersUsingExistingGetters.

Inductive icon := IconSearch | IconRemove.

#[export] Instance icon_eq_dec : EqDecision icon.
Proof. solve_decision. Defined.

(** What the control tells its listeners. *)
Inductive notice := Searched (s : jstr) | Cleared.

Record box := Box {
  b_input : jstr;             (* the text in the input *)
  b_icon : icon;
  activeSearch : jstr;
  input_disabled : bool;
  button_disabled : bool;     (* the class on the button *)
  notices : list notice       (* triggered so far, the latest last *)
}.

(** [new Search(element)] on a page where the input holds [text]. *)
Definition Search_new (text : jstr) : box := Box text IconSearch [] false false [].

Definition trigger (n : notice) (b : box) : box := b <| notices ::= fun l => l ++ [n] |>.

Definition search_ (searchText : jstr) (b : box) : box :=
  trigger (Searched searchText)
    (b <| b_icon := IconRemove |> <| activeSearch := searchText |>).

Definition clear (b : box) : box :=
  trigger Cleared
    (b <| b_icon := IconSearch |> <| activeSearch := [] |> <| b_input := [] |>).

Definition action (b : box) : box :=
  let val := b_input b in
  let inputEmptyOrUnchanged := bool_decide (val = []) || bool_decide (val = activeSearch b) in
  if truthy (activeSearch b) && inputEmptyOrUnchanged then clear b
  else if truthy val then search_ val b
  else b.

Definition buttonclicked (b : box) : box := if button_disabled b then b else action b.

(** [keydown] only keeps Enter from submitting a form. *)
Definition keypress (which : N) (b : box) : box := b.

Definition keypressed (which : N) (b : box) : box :=
  if decide (which = 13%N) then action b
  else
    let val := b_input b in
    let inputPresentAndUnchanged := truthy val && bool_decide (val = activeSearch b) in
    b <| b_icon := if inputPresentAndUnchanged then IconRemove else IconSearch |>.

Definition disable (b : box) : box := b <| input_disabled := true |> <| button_disabled := true |>.
Definition enable (b : box) : box := b <| input_disabled := false |> <| button_disabled := false |>.

(** What a user and a script do to the control: typing leaves a new text in the input
    and ends in a [keyup] of a key other than Enter; a disabled input takes no keys. *)
Inductive event := Type_ (text : jstr) (key : N) | Enter | Click | Disable | Enable.

Definition handle (e : event) (b : box) : box :=
  match e with
  | Type_ s k => if input_disabled b then b
                 else keypressed k (keypress k (b <| b_input := s |>))
  | Enter => if input_disabled b then b else keypressed 13 (keypress 13 b)
  | Click => buttonclicked b
  | Disable => disable b
  | Enable => enable b
  end.

(** * The control wired to a data grid *)

Section Wired.
Context {S : Type} {DSrc : DataSource S}.

(** jQuery passes the text of a [searched] event on, and nothing for [cleared]. *)
Definition notify (n : notice) (g : grid) : grid :=
  match n with
  | Searched s => searchChanged (Some s) g
  | Cleared => searchChanged None g
  end.

(** A control and its grid: an event is handled, then what it triggered is. *)
Definition wired_handle (e : event) (bg : box * grid) : box * grid :=
  let b := handle e bg.1 in
  (b, foldl (fun g n => notify n g) bg.2 (drop (length (notices bg.1)) (notices b))).

Definition wired_handle_all (es : list event) (bg : box * grid) : box * grid :=
  foldl (fun bg e => wired_handle e bg) bg es.
End Wired.

(** * Properties *)

(** The icon offers to remove exactly when the text shown is the text searched for. *)
Definition icon_right (b : box) : Prop :=
  b_icon b = IconRemove <-> b_input b ≠ [] /\ b_input b = activeSearch b.

Lemma truthy_nonempty (s : jstr) : truthy s = true <-> s ≠ [].
Proof. by destruct s. Qed.

Lemma action_cases b :
  (activeSearch b ≠ [] /\ (b_input b = [] \/ b_input b = activeSearch b) /\ action b = clear b)
  \/ (b_input b ≠ [] /\ b_input b ≠ activeSearch b /\ action b = search_ (b_input b) b)
  \/ (b_input b = [] /\ activeSearch b = [] /\ action b = b).
Proof.
  unfold action. destruct (decide (activeSearch b = [])) as [Ha|Ha].
  - rewrite Ha. cbn [truthy truthy_str andb].
    destruct (b_input b) as [|c s] eqn:E; [auto|]. right; left. by split_and!.
  - rewrite (proj2 (truthy_nonempty (activeSearch b)) Ha). cbn [andb].
    case_bool_decide as H1; cbn [orb]; [left; auto|]. case_bool_decide as H2; [left; auto|].
    right; left. rewrite (proj2 (truthy_nonempty (b_input b)) H1). auto.
Qed.

Lemma action_icon b : icon_right b -> icon_right (action b).
Proof.
  intros H. destruct (action_cases b) as [(?&?&->)|[(?&?&->)|(?&?&->)]];
    unfold icon_right in *; cbn; [|done..]. split; [done|]. by intros [? _].
Qed.

Lemma handle_icon e b : icon_right b -> icon_right (handle e b).
Proof.
  intros H. destruct e as [s k| | | |]; cbn [handle].
  - destruct (input_disabled b); [done|]. unfold keypressed, keypress.
    case_decide as Hk.
    + unfold action. (* Enter is its own event; with key 13 typing is an Enter *)
      set (b' := b <| b_input := s |>).
      destruct (action_cases b') as [(?&?&E)|[(?&?&E)|(E1&E2&E)]]; unfold action in E;
        rewrite E; unfold icon_right; cbn; [split; [done|by intros [? _]]|done|].
      cbn in E1, E2. rewrite E1. unfold icon_right in H. rewrite E2 in *.
      split; [|by intros [? _]]. intros Hi. apply H in Hi as [? ?]. done.
    + unfold icon_right; cbn. destruct s as [|c s]; cbn; [split; [done|by intros [? _]]|].
      case_bool_decide; split; try done. by intros [_ ?].
  - destruct (input_disabled b); [done|]. cbn. by apply action_icon.
  - cbn. unfold buttonclicked. destruct (button_disabled b); [done|]. by apply action_icon.
  - done.
  - done.
Qed.

(** From notices [ns] and active search [a], a box that triggered at most one notice,
    which names its new active search. *)
Definition announces (ns : list notice) (a : jstr) (b : box) : Prop :=
  (notices b = ns /\ activeSearch b = a)
  \/ exists n, notices b = ns ++ [n]
       /\ activeSearch b = match n with Searched s => s | Cleared => [] end.

Lemma action_announces b : announces (notices b) (activeSearch b) (action b).
Proof.
  destruct (action_cases b) as [(?&?&->)|[(?&?&->)|(?&?&->)]]; unfold announces; cbn; eauto.
Qed.

Lemma handle_announces e b : announces (notices b) (activeSearch b) (handle e b).
Proof.
  destruct e as [s k| | | |]; cbn [handle]; try (by left).
  - destruct (input_disabled b); [by left|]. unfold keypressed, keypress.
    case_decide; [|by left].
    pose proof (action_announces (b <| b_input := s |>)) as Ha. exact Ha.
  - destruct (input_disabled b); [by left|]. apply action_announces.
  - unfold buttonclicked. destruct (button_disabled b); [by left|]. apply action_announces.
Qed.

(** The grid filters by what the control says is being searched for. *)
Definition in_step (bg : box * grid) : Prop :=
  default [] (search (g_options bg.2)) = activeSearch bg.1.

Lemma wired_in_step e bg : in_step bg -> in_step (wired_handle e bg).
Proof.
  destruct bg as [b g]. unfold in_step, wired_handle. cbn [fst snd]. intros H.
  destruct (handle_announces e b) as [[Hn Ha]|(n & Hn & Ha)]; rewrite Hn, Ha.
  - by rewrite drop_all.
  - rewrite drop_app_length. by destruct n.
Qed.

Lemma wired_all es bg :
  in_step bg -> icon_right bg.1 ->
  in_step (wired_handle_all es bg) /\ icon_right (wired_handle_all es bg).1.
Proof.
  unfold wired_handle_all. revert bg. induction es as [|e es IH]; intros bg Hs Hi; [done|].
  cbn [foldl]. apply IH; [by apply wired_in_step|]. by apply handle_icon.
Qed.

(** The search control and its grid agree: whatever a user types, clicks and clears,
    and whether the control is enabled or not, the text the control shows as the active
    search is the one the grid asks its source for, and its icon offers to remove the
    search exactly when the text in the input is that search. *)
Theorem search_control_in_step es text g :
  search (g_options g) = None ->
  let bg := wired_handle_all es (Search_new text, g) in
  default [] (search (g_options bg.2)) = activeSearch bg.1 /\ icon_right bg.1.
Proof.
  intros Hg. apply wired_all.
  - unfold in_step. cbn. by rewrite Hg.
  - unfold icon_right. cbn. split; [done|]. by intros [? ?].
Qed.

Lemma search_control_in_step_witness :
  let source := StaticDataSource_new None [] None [] in
  let g := @Datagrid _ (@static_source (Build_Runtime id (fun _ => None) (fun _ l => l))) source (Grid (Texts [] [] []) (Options None None None None 0 None) [] []
    0 None false None NaN [] [] [] [] false false [] 0 0) (Options None None None None 0 None)
    (js "10") in
  let bg := wired_handle_all [Type_ (js "oslo") 79; Enter; Type_ (js "osl") 8; Click; Click]
    (Search_new [], g) in
  notices bg.1 = [Searched (js "oslo"); Searched (js "osl"); Cleared]
  /\ default [] (search (g_options bg.2)) = activeSearch bg.1 /\ icon_right bg.1.
Proof.
  intros source g bg. split; [reflexivity|].
  exact (search_control_in_step [Type_ (js "oslo") 79; Enter; Type_ (js "osl") 8; Click; Click]
    [] g eq_refl).
Defined.
