(* ===== verification/Spinner.v ===== *)
(** Spinner: the number spinner (fuelux/dist/spinner.js) with whole-number options:
    stepping, the repetition while a button is held, the timers it runs, and what is
    typed in its input.

    The values are whole numbers below 2^53: [change] has no result for a text that is a
    fraction or a larger number. *)

From S2P Require Import Prelude Numbers.
From Stdlib Require Import ZArith.
From coqutil Require Import Datatypes.RecordSettersUsingExistingGetters.

Local Open Scope Z_scope.

(** A timer that is running: its number, its direction, and its delay in milliseconds
    as a fraction. *)
Record timer := Timer { tid : nat; up : bool; delay : Z * Z }.

Record spinner := Spinner {
  value : Z;                    (* this.options *)
  min : Z;
  max : Z;
  step_by : Z;
  disabled : bool;
  hold : bool;
  speed : Z;                    (* this.switches *)
  count : nat;
  timeout : option nat;         (* the timer stopSpin clears *)
  lastValue : option Z;
  input : jstr;                 (* the text in the input *)
  maxlength : nat;              (* the length it may have *)
  timers : list timer;          (* the running timers *)
  next_tid : nat;
  announced : list Z            (* the values of the 'changed' events, the latest last *)
}.

Inductive pace := Medium | Fast | OtherPace.

Definition ms (p : pace) : Z :=
  match p with Medium => 300 | Fast => 100 | OtherPace => 500 end.

Definition disable (s : spinner) : spinner := s <| disabled := true |>.
Definition enable (s : spinner) : spinner := s <| disabled := false |>.

Definition render (s : spinner) : spinner :=
  s <| input := text_of_Z (value s) |> <| maxlength := length (text_of_Z (max s)) |>.

(** [new Spinner(element, options)]. *)
Definition Spinner_new (value min max step : Z) (dis hold : bool) (p : pace) : spinner :=
  let s := render (Spinner value min max step false hold (ms p) 1 None None [] 0 [] 0 []) in
  if dis then disable s else s.

(** [value(v)] for a number. *)
Definition set_value (v : Z) (s : spinner) : spinner := s <| value := v |> <| input := text_of_Z v |>.

Definition step (dir : bool) (s : spinner) : spinner :=
  let curValue := value s in
  let limValue := if dir then max s else min s in
  if (if dir then bool_decide (curValue < limValue) else bool_decide (limValue < curValue))
  then
    let newVal := curValue + (if dir then 1 else -1) * step_by s in
    if (if dir then bool_decide (limValue < newVal) else bool_decide (newVal < limValue))
    then set_value limValue s
    else set_value newVal s
  else s.

Definition triggerChangedEvent (s : spinner) : spinner :=
  let currentValue := value s in
  if decide (lastValue s = Some currentValue) then s
  else s <| lastValue := Some currentValue |> <| announced ::= fun l => l ++ [currentValue] |>.

(** Twice the divisor of the delay, from the number of repetitions so far. *)
Definition double_divisor (count : nat) : Z :=
  if decide (count = 1)%nat then 2
  else if decide (count < 3)%nat then 3
  else if decide (count < 8)%nat then 5
  else 8.

Definition setTimeout (dir : bool) (d : Z * Z) (s : spinner) : spinner :=
  s <| timeout := Some (next_tid s) |>
    <| timers ::= fun l => l ++ [Timer (next_tid s) dir d] |>
    <| next_tid ::= S |>.

Definition clearTimeout (t : option nat) (s : spinner) : spinner :=
  s <| timers ::= List.filter (fun x => negb (bool_decide (Some (tid x) = t))) |>.

Definition startSpin (type : bool) (s : spinner) : spinner :=
  if disabled s then s
  else
    let divisor := count s in
    let s := if decide (divisor = 1)%nat then step type s else s in
    let s := setTimeout type (2 * speed s, double_divisor divisor) s in
    s <| count ::= S |>.

Definition iterator (type : bool) (s : spinner) : spinner := startSpin type (step type s).

Definition stopSpin (s : spinner) : spinner :=
  let s := clearTimeout (timeout s) s in
  triggerChangedEvent (s <| count := 1%nat |>).

(** The mouse on a button, and a timer that runs out; with [hold] off the buttons are
    clicked instead of held. *)
Inductive event :=
  | Press (dir : bool) | Release | Click (dir : bool) | Fire (t : nat)
  | Disable | Enable.

Definition handle (e : event) (s : spinner) : spinner :=
  match e with
  | Press dir => if hold s then startSpin dir s else s
  | Release => if hold s then stopSpin s else s
  | Click dir => if hold s then s else step dir s
  | Fire t =>
      match list_find (fun x => tid x = t) (timers s) with
      | Some (i, x) => iterator (up x) (s <| timers := delete i (timers s) |>)
      | None => s
      end
  | Disable => disable s
  | Enable => enable s
  end.

Definition handle_all (es : list event) (s : spinner) : spinner :=
  foldl (fun s e => handle e s) s es.

(** [newVal.replace(/[^0-9]/g, '')]. *)
Definition only_digits (s : jstr) : jstr := List.filter is_digit s.

(** [change], for the text that is in the input. *)
Definition change (newVal : jstr) (s : spinner) : option spinner :=
  let taken newVal v := Some (triggerChangedEvent (s <| input := newVal |> <| value := v |>)) in
  match to_number newVal with
  | Whole ((Zpos _ | Zneg _) as v) => taken newVal v
  | Whole 0 | NotNumber =>
      let newVal := only_digits newVal in
      match to_number newVal with Whole v => taken newVal v | _ => None end
  | Other => None
  end.

(** A key that leaves a text in the input: [change] is the handler of its end. *)
Inductive act := Button (e : event) | Keyup (text : jstr).

Definition perform (a : act) (s : spinner) : option spinner :=
  match a with Button e => Some (handle e s) | Keyup text => change text s end.

Definition session (acts : list act) (s : spinner) : option spinner :=
  foldl (fun s a => s ≫= perform a) (Some s) acts.

(** A character typed at the end of the text. *)
Definition type_key (c : N) (s : spinner) : option spinner := change (input s ++ [c]) s.

Definition type_text (t : jstr) (s : spinner) : option spinner :=
  foldl (fun s c => s ≫= type_key c) (Some s) t.

(** * Stepping *)

(** Everything but the value, the input and the announcements of a step. *)
Lemma step_frame dir s :
  min (step dir s) = min s /\ max (step dir s) = max s /\ step_by (step dir s) = step_by s
  /\ disabled (step dir s) = disabled s /\ hold (step dir s) = hold s
  /\ speed (step dir s) = speed s /\ count (step dir s) = count s
  /\ timeout (step dir s) = timeout s /\ lastValue (step dir s) = lastValue s
  /\ timers (step dir s) = timers s /\ next_tid (step dir s) = next_tid s
  /\ announced (step dir s) = announced s.
Proof. unfold step. destruct dir; cbn; repeat case_bool_decide; cbn; done. Qed.

Definition in_range (s : spinner) : Prop := min s <= value s <= max s.

Lemma step_value dir s :
  in_range s -> 0 <= step_by s ->
  value (step dir s)
  = if dir then Z.min (max s) (value s + step_by s) else Z.max (min s) (value s - step_by s).
Proof.
  unfold in_range, step, set_value. intros H Hs. destruct dir; repeat case_bool_decide; cbn;
    unfold RecordSettersUsingExistingGetters.const; lia.
Qed.

Lemma step_in_range dir s : in_range s -> 0 <= step_by s -> in_range (step dir s).
Proof.
  intros H Hs. unfold in_range. rewrite step_value by done.
  destruct (step_frame dir s) as (-> & -> & _). unfold in_range in H. destruct dir; lia.
Qed.

(** A spinner stays within its limits: from a value between [min] and [max], with a
    step that is not negative, no sequence of presses, releases, clicks, timers running
    out in any order, and enabling or disabling leads outside them. *)
Theorem spinner_in_range es s :
  in_range s -> 0 <= step_by s -> in_range (handle_all es s).
Proof.
  intros H Hs. enough (in_range (handle_all es s) /\ 0 <= step_by (handle_all es s)) by tauto.
  revert s H Hs. unfold handle_all. induction es as [|e es IH]; intros s H Hs; [done|].
  cbn [foldl].
  assert (Hstep : forall d s, in_range s -> 0 <= step_by s ->
    in_range (step d s) /\ 0 <= step_by (step d s)).
  { clear. intros d s H Hs. split; [by apply step_in_range|].
    by destruct (step_frame d s) as (_ & _ & -> & _). }
  assert (Hspin : forall d s, in_range s -> 0 <= step_by s ->
    in_range (startSpin d s) /\ 0 <= step_by (startSpin d s)).
  { clear -Hstep. intros d s H Hs. unfold startSpin. destruct (disabled s); [done|].
    case_decide; [|done]. destruct (Hstep d s H Hs). done. }
  enough (in_range (handle e s) /\ 0 <= step_by (handle e s)) by (apply IH; tauto).
  destruct e as [d| |d|t| |]; cbn [handle]; try done.
  - destruct (hold s); [by apply Hspin|done].
  - destruct (hold s); [|done]. unfold stopSpin, triggerChangedEvent. by case_decide.
  - destruct (hold s); [done|by apply Hstep].
  - destruct (list_find _ _) as [[i x]|]; [|done]. unfold iterator.
    destruct (Hstep (up x) (s <| timers := delete i (timers s) |>)); [done|done|].
    by apply Hspin.
Qed.

Lemma spinner_in_range_witness :
  let s := Spinner_new 1 1 4 2 false true Medium in
  let es := [Press true; Fire 0; Fire 1; Press false; Fire 3; Release; Fire 2] in
  value (handle_all es s) = 4 /\ in_range (handle_all es s).
Proof.
  intros s es. split; [vm_compute; reflexivity|].
  apply (spinner_in_range es s); [unfold in_range; cbn; lia|cbn; lia].
Defined.

(** * Holding a button *)

(** The value after [n] steps. *)
Definition stepped (dir : bool) (n : nat) (s : spinner) : Z :=
  if dir then Z.min (max s) (value s + Z.of_nat n * step_by s)
  else Z.max (min s) (value s - Z.of_nat n * step_by s).

(** Nothing running, and the buttons work. *)
Record at_rest (s : spinner) : Prop := {
  rest_timers : timers s = [];
  rest_count : count s = 1%nat;
  rest_enabled : disabled s = false;
  rest_hold : hold s = true;
  rest_range : in_range s;
  rest_step : 0 <= step_by s
}.

(** [s'] is [s] with the button [dir] held for [k] repetitions: one timer is running,
    and it is the one a release clears. *)
Record holding (dir : bool) (k : nat) (s s' : spinner) : Prop := {
  hold_value : value s' = stepped dir (S k) s;
  hold_timers : timers s' = [Timer (next_tid s + k) dir (2 * speed s, double_divisor (S k))];
  hold_timeout : timeout s' = Some (next_tid s + k)%nat;
  hold_next : next_tid s' = (next_tid s + S k)%nat;
  hold_count : count s' = S (S k);
  hold_frame : min s' = min s /\ max s' = max s /\ step_by s' = step_by s
    /\ disabled s' = false /\ hold s' = true /\ speed s' = speed s
    /\ lastValue s' = lastValue s /\ announced s' = announced s
}.

Lemma press_holds dir s : at_rest s -> holding dir 0 s (handle (Press dir) s).
Proof.
  intros [Ht Hc He Hh Hr Hs]. cbn [handle]. rewrite Hh. unfold startSpin. rewrite He, Hc.
  rewrite decide_True by done.
  pose proof (step_value dir s Hr Hs) as Hv.
  destruct (step_frame dir s) as (F1&F2&F3&F4&F5&F6&F7&F8&F9&F10&F11&F12).
  set (s1 := step dir s) in *.
  unfold setTimeout. split; cbn; unfold RecordSettersUsingExistingGetters.const.
  - rewrite Hv. unfold stepped. destruct dir; lia.
  - rewrite F10, F11, Ht, F6, Nat.add_0_r. done.
  - by rewrite F11, Nat.add_0_r.
  - rewrite F11. lia.
  - by rewrite F7, Hc.
  - split_and!; congruence.
Qed.

Lemma fire_holds dir k s s' :
  at_rest s -> holding dir k s s' ->
  holding dir (S k) s (handle (Fire (next_tid s + k)) s').
Proof.
  intros [_ _ _ _ Hr Hs] [Hv Ht Hto Hn Hc (F1&F2&F3&F4&F5&F6&F7&F8)].
  cbn [handle]. rewrite Ht. cbn [list_find tid]. rewrite decide_True by done.
  cbn [fmap option_fmap option_map up]. unfold iterator.
  change (delete 0%nat _) with (@nil timer). set (s0 := s' <| timers := [] |>).
  assert (Hr0 : in_range s0).
  { unfold in_range. change (value s0) with (value s'). change (min s0) with (min s').
    change (max s0) with (max s'). rewrite Hv, F1, F2. unfold in_range in Hr.
    unfold stepped. destruct dir; nia. }
  assert (Hs0 : 0 <= step_by s0) by (change (step_by s0) with (step_by s'); by rewrite F3).
  pose proof (step_value dir s0 Hr0 Hs0) as Hv1.
  destruct (step_frame dir s0) as (G1&G2&G3&G4&G5&G6&G7&G8&G9&G10&G11&G12).
  set (s1 := step dir s0) in *.
  change (value s0) with (value s') in *. change (min s0) with (min s') in *.
  change (max s0) with (max s') in *. change (step_by s0) with (step_by s') in *.
  change (disabled s0) with (disabled s') in *. change (count s0) with (count s') in *.
  change (hold s0) with (hold s') in *. change (speed s0) with (speed s') in *.
  change (lastValue s0) with (lastValue s') in *. change (announced s0) with (announced s') in *.
  change (next_tid s0) with (next_tid s') in *. change (timers s0) with (@nil timer) in *.
  unfold startSpin. rewrite G4, F4, G7, Hc. rewrite decide_False by lia.
  unfold setTimeout. split; cbn; unfold RecordSettersUsingExistingGetters.const.
  - rewrite Hv1, Hv, F1, F2, F3. unfold in_range in Hr. unfold stepped.
    destruct dir; nia.
  - rewrite G10, G11, Hn, G6, F6. done.
  - by rewrite G11, Hn.
  - rewrite G11, Hn. lia.
  - by rewrite G7, Hc.
  - split_and!; congruence.
Qed.

Lemma fires_hold dir k s :
  at_rest s ->
  holding dir k s (handle_all (Press dir :: map Fire (seq (next_tid s) k)) s).
Proof.
  intros H. induction k as [|k IH].
  - cbn. by apply press_holds.
  - rewrite seq_S, map_app. unfold handle_all in *. cbn [foldl] in *.
    rewrite foldl_app. cbn [map foldl]. by apply fire_holds.
Qed.

Lemma clear_only s t :
  timers s = [t] -> clearTimeout (Some (tid t)) s = s <| timers := [] |>.
Proof.
  intros H. unfold clearTimeout.
  assert (E : forall f, f (timers s) = [] -> s <| timers ::= f |> = s <| timers := [] |>).
  { intros f Hf. destruct s. cbn in Hf.
    unfold RecordSettersUsingExistingGetters.set. cbn. by rewrite Hf. }
  apply E. rewrite H. cbn. by rewrite bool_decide_true.
Qed.

(** Holding a button and letting it go: a spinner at rest whose button is pressed,
    whose timer runs out [k] times and whose button is then released has stepped [k + 1]
    times in that direction, stopping at the limit; while it is held exactly one timer
    runs, with a delay that the number of repetitions divides by 1, 1.5, 2.5 and then 4;
    when it is released none runs and the value is announced once, if it is not the
    value announced last. *)
Theorem hold_and_release dir k s :
  at_rest s ->
  let held := handle_all (Press dir :: map Fire (seq (next_tid s) k)) s in
  let s' := handle Release held in
  map delay (timers held) = [(2 * speed s, double_divisor (S k))]
  /\ value s' = stepped dir (S k) s /\ timers s' = [] /\ count s' = 1%nat
  /\ announced s' = announced s
       ++ (if decide (lastValue s = Some (value s')) then [] else [value s']).
Proof.
  intros H held s'. destruct (fires_hold dir k s H) as [Hv Ht Hto Hn Hc (F1&F2&F3&F4&F5&F6&F7&F8)].
  fold held in Hv, Ht, Hto, Hn, Hc, F1, F2, F3, F4, F5, F6, F7, F8.
  split; [by rewrite Ht|].
  assert (Hs' : s' = triggerChangedEvent (held <| timers := [] |> <| count := 1%nat |>)).
  { unfold s'. cbn [handle]. rewrite F5. unfold stopSpin. rewrite Hto.
    pose proof (clear_only held _ Ht) as E. cbn [tid] in E. by rewrite E. }
  clearbody s'. subst s'. set (h0 := _ <| count := _ |>).
  assert (E : value h0 = value held /\ lastValue h0 = lastValue held
    /\ announced h0 = announced held /\ timers h0 = [] /\ count h0 = 1%nat) by done.
  destruct E as (E1 & E2 & E3 & E4 & E5). clearbody h0. clearbody held.
  unfold triggerChangedEvent.
  rewrite E1, E2, F7, <- Hv. case_decide as Hd.
  - rewrite E1. rewrite decide_True by done. rewrite app_nil_r. split_and!; congruence.
  - cbn. rewrite E1. rewrite decide_False by done. split_and!; congruence.
Qed.

Lemma hold_and_release_witness :
  let s := Spinner_new 1 1 999 1 false true Medium in
  let held := handle_all (Press true :: map Fire (seq 0 9)) s in
  let s' := handle Release held in
  map delay (timers held) = [(600, 8)]
  /\ value s' = 11 /\ timers s' = [] /\ count s' = 1%nat
  /\ announced s' = [] ++ (if decide (None = Some (value s')) then [] else [value s']).
Proof.
  apply (hold_and_release true 9 (Spinner_new 1 1 999 1 false true Medium)).
  split; try reflexivity; [unfold in_range; cbn; lia|cbn; lia].
Defined.

(** A single timer, number [i], is running, and the next one will be number [n]. *)
Definition alone (dir : bool) (i n : nat) (s : spinner) : Prop :=
  (exists d, timers s = [Timer i dir d]) /\ next_tid s = n /\ disabled s = false /\ hold s = true.

Lemma setTimeout_alone dir d c s :
  timers s = [] -> disabled s = false -> hold s = true ->
  alone dir (next_tid s) (S (next_tid s)) ((setTimeout dir d s) <| count ::= c |>).
Proof.
  intros Ht Hd Hh. unfold alone, setTimeout. cbn. rewrite Ht. split_and!; try done.
  by eexists.
Qed.

(** A timer that runs out starts another. *)
Lemma fire_alone dir i n s : alone dir i n s -> alone dir n (S n) (handle (Fire i) s).
Proof.
  intros ((d & Ht) & <- & Hd & Hh).
  cbn [handle]. rewrite Ht. cbn [list_find tid]. rewrite decide_True by done.
  cbn [fmap option_fmap option_map up]. unfold iterator, startSpin.
  change (delete 0%nat _) with (@nil timer). set (s0 := s <| timers := [] |>).
  destruct (step_frame dir s0) as (_&_&_&G4&G5&_&_&_&_&G10&G11&_).
  assert (timers s0 = [] /\ disabled s0 = false /\ hold s0 = true) as (E1 & E2 & E3) by done.
  rewrite G4, E2. set (s1 := step dir s0) in *.
  change (next_tid s) with (next_tid s0). rewrite <- G11.
  destruct (decide (count s1 = 1)%nat); [|apply setTimeout_alone; congruence].
  destruct (step_frame dir s1) as (_&_&_&K4&K5&_&_&_&_&K10&K11&_). cbv zeta. rewrite <- K11.
  apply setTimeout_alone; congruence.
Qed.

(** After two presses and a release the timer of the first press is running. *)
Lemma two_presses_alone dir dir' s :
  at_rest s ->
  alone dir (next_tid s) (S (S (next_tid s))) (handle_all [Press dir; Press dir'; Release] s).
Proof.
  intros H. unfold handle_all. cbn [foldl].
  destruct (press_holds dir s H) as [Hv Ht Hto Hn Hc (F1&F2&F3&F4&F5&F6&F7&F8)].
  set (s1 := handle (Press dir) s) in *. clearbody s1.
  assert (H2 : handle (Press dir') s1
    = (setTimeout dir' (2 * speed s1, double_divisor 2) s1) <| count ::= S |>).
  { cbn [handle]. rewrite F5. unfold startSpin. rewrite F4, Hc. by rewrite decide_False. }
  rewrite H2. set (s2 := (setTimeout _ _ _) <| count ::= S |>).
  cbn [handle]. change (hold s2) with (hold s1). rewrite F5.
  unfold stopSpin, triggerChangedEvent, clearTimeout.
  change (timeout s2) with (Some (next_tid s1)).
  set (s3 := (s2 <| timers ::= _ |>) <| count := 1%nat |>).
  assert (H3 : timers s3 = [Timer (next_tid s) dir (2 * speed s, double_divisor 1)]).
  { unfold s3, s2, setTimeout. cbn. rewrite Ht. cbn. rewrite Hn, Nat.add_0_r.
    rewrite bool_decide_false by (intros [=]; lia). rewrite bool_decide_true by done. done. }
  assert (H4 : next_tid s3 = S (S (next_tid s)))
    by (change (next_tid s3) with (S (next_tid s1)); lia).
  cbv zeta. unfold alone.
  destruct (decide (lastValue s3 = Some (value s3))); split_and!; eauto.
Qed.

(** A second press before the release is never undone by it: the release clears the
    second timer only, so the first goes on, and however often it then runs out one
    timer is running: the spinner does not come to rest until something else stops it. *)
Theorem second_press_spins_on dir dir' k s :
  at_rest s ->
  let fires := map (fun i => Fire (if decide (i = 0)%nat then next_tid s
                                   else next_tid s + S i)) (seq 0 k) in
  let s' := handle_all ([Press dir; Press dir'; Release] ++ fires) s in
  exists t, timers s' = [t] /\ up t = dir.
Proof.
  intros H fires s'.
  enough (Hk : alone dir (if decide (k = 0)%nat then next_tid s else next_tid s + S k)
                 (next_tid s + S (S k)) s').
  { destruct Hk as ((d & Hd) & _). rewrite Hd. by eexists. }
  unfold s', fires, handle_all. clear s' fires. rewrite foldl_app.
  pose proof (two_presses_alone dir dir' s H) as H0. unfold handle_all in H0.
  generalize dependent (foldl (fun s e => handle e s) s [Press dir; Press dir'; Release]).
  intros s0 H0. induction k as [|k IH].
  - cbn [seq map foldl]. by replace (next_tid s + 2)%nat with (S (S (next_tid s))) by lia.
  - rewrite seq_S, map_app, foldl_app. cbn [map foldl Nat.add].
    apply fire_alone in IH. rewrite decide_False by done.
    by replace (next_tid s + S (S (S k)))%nat with (S (next_tid s + S (S k))) by lia.
Qed.

Lemma second_press_spins_on_witness :
  let s := Spinner_new 1 1 999 1 false true Medium in
  exists t, timers (handle_all [Press true; Press true; Release; Fire 0; Fire 2; Fire 3] s) = [t]
    /\ up t = true.
Proof.
  apply (second_press_spins_on true true 3 (Spinner_new 1 1 999 1 false true Medium)).
  split; try reflexivity; [unfold in_range; cbn; lia|cbn; lia].
Defined.

(** With [hold] off a click changes the value and announces nothing. *)
Example click_not_announced :
  let s := handle (Click true) (Spinner_new 1 1 999 1 false false Medium) in
  value s = 2 /\ announced s = [].
Proof. done. Qed.

(** * Typing *)

(** The fields that typing and stepping change, and those they go by. *)
Definition core (s : spinner) : Z * Z * Z * Z * jstr := (value s, min s, max s, step_by s, input s).

(** What the input shows reads as the value; everything is below 2^53. *)
Definition reads (s : spinner) : Prop :=
  to_number (input s) = Whole (value s) /\ Z.abs (value s) < 2 ^ 53
  /\ Z.abs (min s) < 2 ^ 53 /\ Z.abs (max s) < 2 ^ 53 /\ 0 <= step_by s.

Lemma reads_core s s' : core s' = core s -> reads s -> reads s'.
Proof. unfold core, reads. by intros [= -> -> -> -> ->]. Qed.

Lemma trigger_core s : core (triggerChangedEvent s) = core s.
Proof. unfold triggerChangedEvent. by case_decide. Qed.

Lemma set_value_reads v s : reads s -> Z.abs v < 2 ^ 53 -> reads (set_value v s).
Proof.
  intros (_ & _ & H) Hv. split; [|split; [exact Hv|exact H]].
  change (to_number (text_of_Z v) = Whole v). by apply to_number_text.
Qed.

Lemma step_reads d s : reads s -> reads (step d s).
Proof.
  intros H. pose proof H as (_ & Hv & Hmin & Hmax & Hs). unfold step.
  destruct d; repeat case_bool_decide; try done; apply set_value_reads; done || lia.
Qed.

Lemma startSpin_reads d s : reads s -> reads (startSpin d s).
Proof.
  intros H. unfold startSpin. destruct (disabled s); [done|].
  case_decide; [|done]. apply (reads_core (step d s)); [done|]. by apply step_reads.
Qed.

Lemma handle_reads e s : reads s -> reads (handle e s).
Proof.
  intros H. destruct e as [d| |d|t| |]; cbn [handle]; try done.
  - destruct (hold s); [by apply startSpin_reads|done].
  - destruct (hold s); [|done]. eapply reads_core; [apply trigger_core|]. done.
  - destruct (hold s); [done|by apply step_reads].
  - destruct (list_find _ _) as [[i x]|]; [|done]. unfold iterator.
    apply startSpin_reads, step_reads. done.
Qed.

Lemma change_reads t s s' : reads s -> change t s = Some s' -> reads s'.
Proof.
  intros (_ & _ & H) Hc.
  assert (exists t' v, to_number t' = Whole v
    /\ s' = triggerChangedEvent (s <| input := t' |> <| value := v |>)) as (t' & v & Hv & ->).
  { unfold change in Hc. destruct (to_number t) as [[|v|v]| |] eqn:E; try done;
      first [injection Hc as <-; by eauto
            |destruct (to_number (only_digits t)) eqn:E'; try done; injection Hc as <-; by eauto]. }
  eapply reads_core; [apply trigger_core|].
  split; [exact Hv|split; [by eapply to_number_bound|exact H]].
Qed.

(** The input always shows a text that reads as the spinner's value, after any
    sequence of presses, releases, clicks, timers and texts typed. *)
Theorem input_reads_value acts s s' :
  reads s -> session acts s = Some s' -> to_number (input s') = Whole (value s').
Proof.
  intros H Hs. enough (reads s') as [? _] by done. revert s' Hs. unfold session.
  induction acts as [|a acts IH] using rev_ind; intros s' Hs; [by injection Hs as <-|].
  rewrite foldl_snoc in Hs. destruct (foldl _ _ acts) as [s1|]; [|done]. specialize (IH s1 eq_refl).
  destruct a as [e|t]; cbn in Hs; [injection Hs as <-; by apply handle_reads|].
  by eapply change_reads.
Qed.

Lemma input_reads_value_witness :
  let s := Spinner_new 1 1 999 1 false true Medium in
  let acts := [Keyup (js "1x2"); Button (Press true); Button Release; Keyup (js "0x20"); Button (Fire 0)] in
  exists s', session acts s = Some s' /\ value s' = 32 /\ to_number (input s') = Whole (value s').
Proof.
  eexists. split; [vm_compute; reflexivity|]. split; [reflexivity|].
  apply (input_reads_value
    [Keyup (js "1x2"); Button (Press true); Button Release; Keyup (js "0x20"); Button (Fire 0)]
    (Spinner_new 1 1 999 1 false true Medium)).
  - repeat split; vm_compute; congruence.
  - vm_compute. reflexivity.
Defined.

Lemma only_digits_digits t : forallb is_digit (only_digits t) = true.
Proof. apply forallb_forall. intros c Hc. by apply filter_In in Hc as [_ ?]. Qed.

Lemma only_digits_id t : forallb is_digit t = true -> only_digits t = t.
Proof. unfold only_digits. induction t as [|c t IH]; [done|]. cbn. intros [-> H]%andb_true_iff. by rewrite IH. Qed.

(** Few digits are a number that is kept. *)
Lemma short_digits t :
  forallb is_digit t = true -> (length t <= 15)%nat -> to_number t = Whole (digits_from 0 t).
Proof.
  intros H Hl. destruct (decide (t = [])) as [->|Ht]; [done|]. rewrite to_number_digits by done.
  case_bool_decide as H0; [by rewrite H0|]. unfold whole. rewrite bool_decide_true; [done|].
  pose proof (digits_from_bound 0 t ltac:(lia)) as Hb.
  pose proof (Z.pow_le_mono_r 10 (Z.of_nat (length t)) 15 ltac:(lia) ltac:(lia)). lia.
Qed.

(** [change] has a result for every text of a few digits that is no fraction. *)
Lemma change_returns t s :
  to_number t <> Other -> (length (only_digits t) <= 15)%nat -> exists s', change t s = Some s'.
Proof.
  intros H Hl. pose proof (short_digits _ (only_digits_digits t) Hl) as Hd. unfold change.
  destruct (to_number t) as [[|v|v]| |]; try done; rewrite ?Hd; by eexists.
Qed.

Lemma change_digits t s :
  forallb is_digit t = true -> (length t <= 15)%nat ->
  change t s = Some (triggerChangedEvent (s <| input := t |> <| value := digits_from 0 t |>)).
Proof.
  intros H Hl. unfold change. pose proof (short_digits t H Hl) as Hd. rewrite Hd.
  rewrite only_digits_id by done. destruct (digits_from 0 t); by rewrite ?Hd.
Qed.

(** A number typed digit by digit. *)
Lemma type_digits t s :
  input s = [] -> t <> [] -> forallb is_digit t = true -> (length t <= 15)%nat ->
  exists s', type_text t s = Some s' /\ input s' = t /\ value s' = digits_from 0 t.
Proof.
  intros Hi Ht Hd Hl. unfold type_text.
  induction t as [|c t IH] using rev_ind; [done|]. rewrite foldl_snoc.
  rewrite forallb_app in Hd. apply andb_true_iff in Hd as [Hd Hc]. rewrite length_app in Hl. cbn in Hl.
  assert (exists s1, foldl (fun s c => s ≫= type_key c) (Some s) t = Some s1 /\ input s1 = t)
    as (s1 & -> & H1).
  { destruct t as [|c' t]; [by eexists|]. destruct IH as (s1 & ? & ? & _); [done|done|lia|]. by eexists. }
  cbn. unfold type_key. rewrite H1, change_digits.
  - eexists. split; [done|]. unfold triggerChangedEvent. by case_decide.
  - rewrite forallb_app. by apply andb_true_iff.
  - rewrite length_app. cbn. lia.
Qed.

(** A whole number typed key by key in an empty input is taken without its sign: the
    sign alone is no number, so that [change] erases it before the first digit comes. *)
Theorem typed_number_unsigned z s :
  input s = [] -> (length (text_of_Z z) <= 15)%nat ->
  exists s', type_text (text_of_Z z) s = Some s'
    /\ value s' = Z.abs z /\ input s' = text_of_Z (Z.abs z).
Proof.
  intros Hi Hl. unfold text_of_Z in *. rewrite (bool_decide_false (Z.abs z < 0)) by lia.
  case_bool_decide as Hz.
  - replace (Z.abs z) with (- z) by lia.
    destruct (js_of_N_digits (Z.to_N (- z))) as (c & p & E & Hd & Hv). rewrite E in Hl |- *.
    destruct (type_digits (c :: p) (triggerChangedEvent (s <| input := [] |> <| value := 0 |>)))
      as (s' & Hs & H1 & H2); [|done|done|cbn in *; lia|].
    { unfold triggerChangedEvent. by case_decide. }
    exists s'. split.
    { change (foldl (fun s c => s ≫= type_key c) (type_key 45%N s) (c :: p) = Some s').
      assert (type_key 45%N s = change [45%N] s) as -> by (unfold type_key; by rewrite Hi).
      exact Hs. }
    split; [rewrite H2, Hv; lia|done].
  - replace (Z.abs z) with z by lia.
    destruct (js_of_N_digits (Z.to_N z)) as (c & p & E & Hd & Hv). rewrite E in Hl |- *.
    destruct (type_digits (c :: p) s) as (s' & Hs & H1 & H2); [done|done|done|done|].
    exists s'. split; [exact Hs|]. split; [rewrite H2, Hv; lia|done].
Qed.

Lemma typed_number_unsigned_witness :
  let s := (Spinner_new 1 (-10) 10 1 false true Medium) <| input := [] |> in
  exists s', type_text (text_of_Z (-5)) s = Some s'
    /\ value s' = Z.abs (-5) /\ input s' = text_of_Z (Z.abs (-5)).
Proof.
  apply (typed_number_unsigned (-5) ((Spinner_new 1 (-10) 10 1 false true Medium) <| input := [] |>)).
  - reflexivity.
  - vm_compute. lia.
Defined.

(** The limits hold for the buttons only: a number that is typed is taken as it is. *)
Example typed_beyond_limit :
  (fun s => (value s, announced s)) <$> change (js "700") (Spinner_new 1 1 500 1 false true Medium)
  = Some (700, [700]).
Proof. vm_compute. reflexivity. Qed.

(** The point of a fraction below one is erased as well. *)
Example typed_point_erased :
  input <$> type_text (js "0.") ((Spinner_new 1 1 500 1 false true Medium) <| input := [] |>) = Some (js "0").
Proof. vm_compute. reflexivity. Qed.
