(* ===== verification/Wizard.v ===== *)
(** Wizard: the step-by-step wizard (fuelux/dist/wizard.js).

    The wizard's steps are its list items; the page may hold list items of other
    wizards before them ([offset] of them), which only [stepclicked] sees.  Listeners
    may prevent a change: [allowed] says what they answer. *)

From S2P Require Import Prelude.
From coqutil Require Import Datatypes.RecordSettersUsingExistingGetters.

Inductive mark := Unmarked | Complete | Active.

#[export] Instance mark_eq_dec : EqDecision mark.
Proof. solve_decision. Defined.

Inductive notice :=
  | Change (step : nat) (forward : bool)
  | StepClick (step : nat)
  | Changed
  | Finished.

Record wizard := Wizard {
  currentStep : nat;
  numSteps : nat;
  offset : nat;                        (* list items of other wizards before this one's *)
  targets : list (option jstr);        (* the list items' data-target *)
  marks : list mark;                   (* and their class *)
  nextText : jstr;                     (* the Next button's own text *)
  dataLast : option jstr;              (* its data-last *)
  buttonText : jstr;                   (* what it shows *)
  prevDisabled : bool;
  pane : option jstr;                  (* the pane shown, None before the first change *)
  notices : list notice                (* triggered so far, the latest last *)
}.

(** A handler ends normally or with a TypeError; the wizard keeps what was done. *)
Inductive result := Done (w : wizard) | TypeError (w : wizard).

Definition wizard_of (r : result) : wizard := match r with Done w | TypeError w => w end.

(** [new Wizard(element)]: the classes are those of the markup. *)
Definition Wizard_new (offset : nat) (targets : list (option jstr)) (marks : list mark)
    (text : jstr) (last : option jstr) : wizard :=
  Wizard 1 (length targets) offset targets marks text last text false None [].

Definition trigger (n : notice) (w : wizard) : wizard := w <| notices ::= fun l => l ++ [n] |>.

(** The classes after [setState]: the steps before the current one, and that one. *)
Definition mark_steps (current : nat) (num : nat) : list mark :=
  map (fun i => if decide (i < current - 1) then Complete
                else if decide (i = current - 1) then Active else Unmarked) (seq 0 num).

Definition setState (w : wizard) : result :=
  let canMovePrev := bool_decide (1 < currentStep w) in
  let firstStep := bool_decide (currentStep w = 1) in
  let lastStep := bool_decide (currentStep w = numSteps w) in
  let w := w <| prevDisabled := firstStep || negb canMovePrev |> in
  let w := if truthy (dataLast w)
           then w <| buttonText := if lastStep then default [] (dataLast w) else nextText w |>
           else w in
  let w := w <| marks := mark_steps (currentStep w) (length (targets w)) |> in
  match targets w !! (currentStep w - 1) with
  | None => TypeError w                (* no such item: its data() is undefined *)
  | Some target => Done (trigger Changed (w <| pane := target |>))
  end.

Section Handlers.
Context (allowed : notice -> bool).

(** A click on the wizard's [i]-th list item; only completed ones take clicks. *)
Definition stepclicked (i : nat) (w : wizard) : result :=
  let index := offset w + i in
  let evt := StepClick (index + 1) in
  let w := trigger evt w in
  if negb (allowed evt) then Done w
  else setState (w <| currentStep := index + 1 |>).

Definition previous (w : wizard) : result :=
  let canMovePrev := bool_decide (1 < currentStep w) in
  if canMovePrev
  then
    let e := Change (currentStep w) false in
    let w := trigger e w in
    if negb (allowed e) then Done w
    else setState (w <| currentStep ::= Nat.pred |>)
  else Done w.

Definition next (w : wizard) : result :=
  let canMoveNext := bool_decide (currentStep w + 1 <= numSteps w) in
  let lastStep := bool_decide (currentStep w = numSteps w) in
  if canMoveNext
  then
    let e := Change (currentStep w) true in
    let w := trigger e w in
    if negb (allowed e) then Done w
    else setState (w <| currentStep ::= S |>)
  else if lastStep then Done (trigger Finished w)
  else Done w.

Inductive event := ClickStep (i : nat) | ClickPrevious | ClickNext.

Definition handle (e : event) (w : wizard) : result :=
  match e with
  | ClickStep i => if decide (marks w !! i = Some Complete) then stepclicked i w else Done w
  | ClickPrevious => previous w
  | ClickNext => next w
  end.

(** A TypeError ends the handler, not the page: the next event is handled. *)
Definition handle_all (es : list event) (w : wizard) : wizard :=
  foldl (fun w e => wizard_of (handle e w)) w es.
End Handlers.

(** * Properties *)

Lemma mark_steps_lookup current num i :
  i < num ->
  mark_steps current num !! i
  = Some (if decide (i < current - 1) then Complete
          else if decide (i = current - 1) then Active else Unmarked).
Proof.
  intros H. unfold mark_steps. rewrite list_lookup_fmap, lookup_seq_lt by done. done.
Qed.

(** The wizard's well-formedness on a page where it is the only one: a current step,
    shown as the only active one, the steps before it complete. *)
Record well (w : wizard) : Prop := {
  well_alone : offset w = 0;
  well_num : numSteps w = length (targets w);
  well_low : 1 <= currentStep w;
  well_high : currentStep w <= numSteps w;
  well_marks : marks w = mark_steps (currentStep w) (length (targets w))
}.

Lemma setState_well w :
  offset w = 0 -> numSteps w = length (targets w) ->
  1 <= currentStep w -> currentStep w <= numSteps w ->
  exists w', setState w = Done w' /\ well w'
    /\ currentStep w' = currentStep w /\ numSteps w' = numSteps w
    /\ targets w' = targets w /\ Some (pane w') = targets w !! (currentStep w - 1)
    /\ notices w' = notices w ++ [Changed].
Proof.
  intros Ho Hn Hl Hh. unfold setState.
  set (w1 := w <| prevDisabled := _ |>).
  set (w2 := if truthy (dataLast w1) then _ else w1).
  assert (H2 : offset w2 = 0 /\ numSteps w2 = numSteps w /\ targets w2 = targets w
    /\ currentStep w2 = currentStep w /\ notices w2 = notices w)
    by (unfold w2; destruct (truthy _); done).
  destruct H2 as (O2 & N2 & T2 & C2 & E2).
  set (w3 := w2 <| marks := mark_steps (currentStep w2) (length (targets w2)) |>).
  change (targets w3) with (targets w2). change (currentStep w3) with (currentStep w2).
  rewrite T2, C2. destruct (targets w !! (currentStep w - 1)) as [t|] eqn:Ht.
  - eexists. split; [reflexivity|]. split; [|cbn; by rewrite E2].
    split; cbn; rewrite ?N2, ?T2, ?C2; done.
  - exfalso. apply lookup_ge_None in Ht. lia.
Qed.

(** Every handler of a well-formed wizard ends normally and leaves it well-formed. *)
Lemma handle_well allowed e w :
  well w -> exists w', handle allowed e w = Done w' /\ well w' /\ targets w' = targets w.
Proof.
  intros H. destruct (H) as [Ho Hn Hl Hh Hm].
  assert (Htr : forall n, well (trigger n w)) by (intros n; by split).
  destruct e as [i| |]; cbn [handle].
  - case_decide as Hi; [|by exists w].
    assert (Hlt : i < currentStep w - 1).
    { destruct (decide (i < length (targets w))) as [Hb|Hb].
      - rewrite Hm, mark_steps_lookup in Hi by done. repeat case_decide; simplify_eq. done.
      - rewrite Hm, lookup_ge_None_2 in Hi; [done|].
        unfold mark_steps. rewrite length_map, length_seq. lia. }
    unfold stepclicked. destruct (allowed _); cbn [negb]; [|eauto].
    destruct (setState_well ((trigger (StepClick (offset w + i + 1)) w)
      <| currentStep := offset w + i + 1 |>)) as (w' & -> & Hw & _ & _ & Ht & _);
      cbn; unfold RecordSettersUsingExistingGetters.const; try done; try lia; eauto.
  - unfold previous. case_bool_decide as Hc; [|by exists w].
    destruct (allowed _); cbn [negb]; [|eauto].
    destruct (setState_well ((trigger (Change (currentStep w) false) w)
      <| currentStep ::= Nat.pred |>)) as (w' & -> & Hw & _ & _ & Ht & _);
      cbn; unfold RecordSettersUsingExistingGetters.const; try done; try lia; eauto.
  - unfold next. case_bool_decide as Hc.
    + destruct (allowed _); cbn [negb]; [|eauto].
      destruct (setState_well ((trigger (Change (currentStep w) true) w)
        <| currentStep ::= S |>)) as (w' & -> & Hw & _ & _ & Ht & _);
        cbn; unfold RecordSettersUsingExistingGetters.const; try done; try lia; eauto.
    + case_bool_decide; eauto.
Qed.

(** A wizard that is the only one of its page never leaves its steps: whatever the
    user clicks and whatever the listeners prevent, no handler fails, the current step
    is one of the wizard's, it is the only one marked active, and the steps before it,
    no others, are marked complete. *)
Theorem wizard_stays_on_steps allowed es steps text last :
  steps ≠ [] ->
  let w0 := Wizard_new 0 steps (mark_steps 1 (length steps)) text last in
  let w := handle_all allowed es w0 in
  (forall e, exists w', handle allowed e w = Done w')
  /\ 1 <= currentStep w <= length steps
  /\ forall i, i < length steps ->
       (marks w !! i = Some Active <-> S i = currentStep w)
       /\ (marks w !! i = Some Complete <-> S i < currentStep w).
Proof.
  intros Hne w0 w.
  assert (H : well w /\ targets w = steps).
  { assert (H0 : well w0 /\ targets w0 = steps).
    { split; [|done]. split; cbn; try done. destruct steps; [done|]. cbn. lia. }
    clearbody w0. unfold w, handle_all. revert w0 w H0.
    induction es as [|e es IH]; intros w0 w [H0 Ht]; [done|]. cbn [foldl].
    destruct (handle_well allowed e w0 H0) as (w1 & -> & H1 & Ht1). apply IH.
    split; [done|]. cbn. congruence. }
  destruct H as [H Ht]. split.
  - intros e. destruct (handle_well allowed e w H) as (w' & ? & _). eauto.
  - destruct H as [_ Hn Hl Hh Hm]. rewrite Ht in *. split; [lia|]. intros i Hi.
    rewrite Hm, mark_steps_lookup by done.
    split; split; repeat case_decide; intros; simplify_eq; lia || done.
Qed.

Lemma wizard_stays_on_steps_witness :
  let w := handle_all (fun _ => true) [ClickNext; ClickNext; ClickStep 0; ClickNext]
    (Wizard_new 0 [None; Some (js "b"); None] (mark_steps 1 3) (js "Next") (Some (js "Done"))) in
  (forall e, exists w', handle (fun _ => true) e w = Done w')
  /\ 1 <= currentStep w <= 3
  /\ forall i, i < 3 -> (marks w !! i = Some Active <-> S i = currentStep w)
       /\ (marks w !! i = Some Complete <-> S i < currentStep w).
Proof.
  apply (wizard_stays_on_steps (fun _ => true) [ClickNext; ClickNext; ClickStep 0; ClickNext]
    [None; Some (js "b"); None]). discriminate.
Defined.

(** On a page with wizards before it, a wizard goes to the wrong step: the index of
    the clicked item is taken among the list items of all of them, so a click on
    completed step [i + 1] that nobody prevents makes the current step that many
    further, and when the wizard has no such step the handler ends in a TypeError with
    no step marked active. *)
Theorem second_wizard_misjumps allowed i w :
  marks w !! i = Some Complete -> 0 < offset w ->
  numSteps w = length (targets w) -> allowed (StepClick (offset w + i + 1)) = true ->
  let r := handle allowed (ClickStep i) w in
  currentStep (wizard_of r) = offset w + (i + 1)
  /\ (numSteps w <= offset w + i ->
      (exists w', r = TypeError w') /\ (Active ∉ marks (wizard_of r))).
Proof.
  intros Hi Ho Hn Ha. cbn zeta. unfold handle. rewrite decide_True by done.
  unfold stepclicked. rewrite Ha. cbn [negb]. unfold setState.
  set (w1 := _ <| prevDisabled := _ |>).
  set (w2 := if truthy (dataLast w1) then _ else w1).
  assert (H2 : targets w2 = targets w /\ currentStep w2 = offset w + i + 1)
    by (unfold w2; destruct (truthy _); done). clearbody w2. clear w1.
  destruct H2 as [T2 C2].
  set (w3 := w2 <| marks := mark_steps (currentStep w2) (length (targets w2)) |>).
  change (targets w3) with (targets w2). change (currentStep w3) with (currentStep w2).
  split.
  - destruct (targets w2 !! _); cbn; lia.
  - intros Hge. rewrite lookup_ge_None_2; [|rewrite T2; lia]. split; [by eexists|].
    cbn [wizard_of]. change (marks w3) with (mark_steps (currentStep w2) (length (targets w2))).
    rewrite list_elem_of_lookup. intros [j Hj].
    pose proof (lookup_lt_Some _ _ _ Hj) as Hlt. unfold mark_steps in Hlt.
    rewrite length_map, length_seq in Hlt. rewrite mark_steps_lookup in Hj by done.
    repeat case_decide; simplify_eq. rewrite T2 in *. lia.
Qed.

Lemma second_wizard_misjumps_witness :
  let w := handle_all (fun _ => true) [ClickNext]
    (Wizard_new 3 [None; None] (mark_steps 1 2) (js "Next") None) in
  let r := handle (fun _ => true) (ClickStep 0) w in
  currentStep (wizard_of r) = 3 + 1
  /\ (2 <= 3 + 0 -> (exists w', r = TypeError w') /\ (Active ∉ marks (wizard_of r))).
Proof.
  apply (second_wizard_misjumps (fun _ => true) 0 (handle_all (fun _ => true) [ClickNext]
    (Wizard_new 3 [None; None] (mark_steps 1 2) (js "Next") None))); [reflexivity|vm_compute; lia|reflexivity..].
Defined.
