(* ===== verification/Choosers.v ===== *)
(** Choosers: the select and combobox widgets (fuelux/dist/select.js, combobox.js)
    and the text selector they share (fuelux/dist/util.js).

    A widget's list holds [li] elements, each with an [a] of the same text inside; the
    data attributes are on the [li].  What jQuery's selector engine accepts as the
    argument of a pseudo-class and as a quoted attribute value, and [toLowerCase], are
    not in the repository: they are the class [Selectors].  A selector that the engine
    does not accept is an exception.  The width that [resize] computes is left out. *)

From S2P Require Import Prelude.
From coqutil Require Import Datatypes.RecordSettersUsingExistingGetters.

Class Selectors := {
  toLowerCase : jstr -> jstr;
  pseudo_argument : jstr -> bool;
  attribute_value : jstr -> bool
}.

Section Choosers.
Context {Sel : Selectors} {D : Type}.

Record li := Li {
  li_text : jstr;
  data_value : option jstr;       (* the attribute, as it is written *)
  li_data : D;                    (* all its data attributes *)
  data_selected : bool            (* data-selected=true *)
}.

(** An element of a jQuery set: the [i]-th [li], or the [a] inside it. *)
Inductive element := ALi (i : nat) | AnA (i : nat).

(** What [selectedItem] gives: the text, and the data if the element has any. *)
Abbreviation chosen := (jstr * option D)%type.

Definition element_text (l : list li) (e : element) : jstr :=
  match e with ALi i | AnA i => match l !! i with Some x => li_text x | None => [] end end.

Definition element_data (l : list li) (e : element) : option D :=
  match e with ALi i => li_data <$> l !! i | AnA _ => None end.

(** [$set.text()] and [$set.data()]: the texts of all, the data of the first. *)
Definition set_text (l : list li) (s : list element) : jstr := concat (map (element_text l) s).
Definition set_data (l : list li) (s : list element) : option D :=
  e ← head s; element_data l e.

Definition fuelTextExactCI (elem_text text : jstr) : bool :=
  bool_decide (toLowerCase elem_text = toLowerCase text).

(** The indices of the list items that satisfy [p], in order, counted from [k]. *)
Fixpoint indices (p : li -> bool) (k : nat) (l : list li) : list nat :=
  match l with
  | [] => []
  | x :: l => if p x then k :: indices p (S k) l else indices p (S k) l
  end.

Inductive selector :=
  | LiText (text : jstr)           (* 'li:fuelTextExactCI(text)' *)
  | LiAText (text : jstr)          (* 'li a:fuelTextExactCI(text)' *)
  | LiValue (value : jstr)         (* 'li[data-value="value"]' *)
  | LiEq (index : nat)             (* 'li:eq(index)' *)
  | LiSelectedFirst.               (* 'li[data-selected=true]:first' *)

(** [$element.find(selector)]; [None] is the engine's syntax error. *)
Definition find_ (s : selector) (l : list li) : option (list element) :=
  match s with
  | LiText t =>
      if pseudo_argument t
      then Some (map ALi (indices (fun x => fuelTextExactCI (li_text x) t) 0 l)) else None
  | LiAText t =>
      if pseudo_argument t
      then Some (map AnA (indices (fun x => fuelTextExactCI (li_text x) t) 0 l)) else None
  | LiValue v =>
      if attribute_value v
      then Some (map ALi (indices (fun x => bool_decide (data_value x = Some v)) 0 l)) else None
  | LiEq i => Some (if decide (i < length l) then [ALi i] else [])
  | LiSelectedFirst => Some (take 1 (map ALi (indices data_selected 0 l)))
  end.

(** [item.removeData('selected'); item.removeAttr('data-selected')]. *)
Definition unmark (s : list element) (l : list li) : list li :=
  match s with
  | ALi i :: _ => alter (fun x => x <| data_selected := false |>) i l
  | _ => l
  end.

(** * Select *)

Record select := Select {
  s_items : list li;
  s_label : jstr;
  s_selected : list element;       (* this.$selectedItem *)
  s_disabled : bool;
  s_changed : list chosen          (* the data of the 'changed' events, the latest last *)
}.

Definition selectedItem (s : select) : chosen :=
  (set_text (s_items s) (s_selected s), set_data (s_items s) (s_selected s)).

Definition selectBySelector (q : selector) (s : select) : option select :=
  item ← find_ q (s_items s);
  Some (s <| s_selected := item |> <| s_label := set_text (s_items s) item |>).

Definition selectByText (t : jstr) (s : select) : option select := selectBySelector (LiAText t) s.
Definition selectByValue (v : jstr) (s : select) : option select := selectBySelector (LiValue v) s.
Definition selectByIndex (i : nat) (s : select) : option select := selectBySelector (LiEq i) s.

Definition setDefaultSelection (s : select) : option select :=
  item ← find_ LiSelectedFirst (s_items s);
  match item with
  | [] => selectByIndex 0 s
  | _ =>
      s ← selectBySelector LiSelectedFirst s;
      Some (s <| s_items ::= unmark item |>)
  end.

(** [new Select(element)]. *)
Definition Select_new (l : list li) : option select :=
  setDefaultSelection (Select l [] [] false []).

(** A click on the [a] of the [i]-th item. *)
Definition itemclicked (i : nat) (s : select) : select :=
  let s := s <| s_selected := [ALi i] |> in
  let s := s <| s_label := set_text (s_items s) (s_selected s) |> in
  let data := selectedItem s in
  s <| s_changed ::= fun l => l ++ [data] |>.

Definition s_enable (s : select) : select := s <| s_disabled := false |>.
Definition s_disable (s : select) : select := s <| s_disabled := true |>.

(** * Combobox *)

Record combobox := Combobox {
  c_items : list li;
  c_input : jstr;
  c_selected : option (list element);   (* None: undefined, or null after a miss *)
  c_disabled : bool;
  c_changed : list chosen
}.

Definition c_selectedItem (c : combobox) : chosen :=
  match c_selected c with
  | Some item => (set_text (c_items c) item, set_data (c_items c) item)
  | None => (c_input c, None)
  end.

Definition c_selectBySelector (q : selector) (c : combobox) : option combobox :=
  item ← find_ q (c_items c);
  match item with
  | _ :: _ => Some (c <| c_selected := Some item |> <| c_input := set_text (c_items c) item |>)
  | [] => Some (c <| c_selected := None |>)
  end.

Definition c_selectByText (t : jstr) (c : combobox) : option combobox :=
  c_selectBySelector (LiText t) c.
Definition c_selectByValue (v : jstr) (c : combobox) : option combobox :=
  c_selectBySelector (LiValue v) c.
Definition c_selectByIndex (i : nat) (c : combobox) : option combobox :=
  c_selectBySelector (LiEq i) c.

Definition c_setDefaultSelection (c : combobox) : option combobox :=
  item ← find_ LiSelectedFirst (c_items c);
  match item with
  | [] => Some c
  | _ =>
      c ← c_selectBySelector LiSelectedFirst c;
      Some (c <| c_items ::= unmark item |>)
  end.

Definition Combobox_new (l : list li) (input : jstr) : option combobox :=
  c_setDefaultSelection (Combobox l input None false []).

(** The text in the input was changed; [synthetic] marks the widget's own event. *)
Definition inputchanged (synthetic : bool) (c : combobox) : option combobox :=
  if synthetic then Some c
  else
    let val := c_input c in
    c ← c_selectByText val c;
    let data := c_selectedItem c in
    let data := if decide (length data.1 = 0) then (val, None) else data in
    Some (c <| c_changed ::= fun l => l ++ [data] |>).

(** A click on the [a] of the [i]-th item sets the input, which triggers the marked
    change event, and then announces the item. *)
Definition c_itemclicked (i : nat) (c : combobox) : option combobox :=
  let c := c <| c_selected := Some [ALi i] |> in
  let c := c <| c_input := set_text (c_items c) [ALi i] |> in
  c ← inputchanged true c;
  let data := c_selectedItem c in
  Some (c <| c_changed ::= fun l => l ++ [data] |>).

(** The user types [text] and leaves the input. *)
Definition typed (text : jstr) (c : combobox) : option combobox :=
  inputchanged false (c <| c_input := text |>).

Definition c_enable (c : combobox) : combobox := c <| c_disabled := false |>.
Definition c_disable (c : combobox) : combobox := c <| c_disabled := true |>.

(** * Properties *)

Lemma indices_none p k l : (forall i x, l !! i = Some x -> p x = false) -> indices p k l = [].
Proof.
  revert k. induction l as [|x l IH]; intros k H; [done|]. cbn [indices].
  rewrite (H 0 x eq_refl). apply IH. intros i y Hy. by apply (H (S i)).
Qed.

(** The only item that satisfies [p]. *)
Lemma indices_unique p k l i x :
  l !! i = Some x -> p x = true -> (forall j y, l !! j = Some y -> p y = true -> j = i) ->
  indices p k l = [k + i].
Proof.
  revert k i. induction l as [|y l IH]; intros k i Hi Hp Hu; [done|]. cbn [indices].
  destruct i as [|i]; cbn in Hi.
  - injection Hi as ->. rewrite Hp, indices_none; [by rewrite Nat.add_0_r|].
    intros j z Hz. destruct (p z) eqn:E; [|done]. by specialize (Hu (S j) z Hz E).
  - destruct (p y) eqn:E; [by specialize (Hu 0 y eq_refl E)|].
    rewrite (IH (S k) i Hi Hp); [f_equal; lia|].
    intros j z Hz Ez. specialize (Hu (S j) z Hz Ez). lia.
Qed.

(** A select's item can be chosen by a click, by its place or by its value (when no
    other item has that value): each shows the item's text in the label and makes
    [selectedItem] that text with the item's data. Chosen by its text (when no other
    item has it up to case) the label is right too, but the data is lost: the selector
    finds the link inside the item, which has none. *)
Theorem select_ways s i x v :
  s_items s !! i = Some x ->
  data_value x = Some v -> attribute_value v = true ->
  (forall j y, s_items s !! j = Some y -> data_value y = Some v -> j = i) ->
  pseudo_argument (li_text x) = true ->
  (forall j y, s_items s !! j = Some y -> fuelTextExactCI (li_text y) (li_text x) = true -> j = i) ->
  let shows s' d := s_label s' = li_text x /\ selectedItem s' = (li_text x, d) in
  shows (itemclicked i s) (Some (li_data x))
  /\ (exists s', selectByIndex i s = Some s' /\ shows s' (Some (li_data x)))
  /\ (exists s', selectByValue v s = Some s' /\ shows s' (Some (li_data x)))
  /\ (exists s', selectByText (li_text x) s = Some s' /\ shows s' None).
Proof.
  intros Hi Hv Hav Huv Hpt Hut shows.
  assert (Hshows : forall s', s_items s' = s_items s -> s_selected s' = [ALi i] ->
    s_label s' = set_text (s_items s) [ALi i] -> shows s' (Some (li_data x))).
  { intros s' Hl Hsel Hlab. unfold shows, selectedItem. rewrite Hlab, Hl, Hsel.
    unfold set_text, set_data, element_text, element_data. cbn. rewrite Hi, app_nil_r. done. }
  split_and!.
  - by apply Hshows.
  - unfold selectByIndex, selectBySelector. cbn [find_].
    rewrite decide_True by (by eapply lookup_lt_Some). cbn [mbind option_bind].
    eexists. split; [reflexivity|]. by apply Hshows.
  - unfold selectByValue, selectBySelector. cbn [find_]. rewrite Hav.
    rewrite (indices_unique _ 0 _ i x Hi); [|by rewrite bool_decide_true|].
    + cbn [mbind option_bind map]. eexists. split; [reflexivity|]. by apply Hshows.
    + intros j y Hj Hy. apply bool_decide_eq_true in Hy. by eapply Huv.
  - unfold selectByText, selectBySelector. cbn [find_]. rewrite Hpt.
    rewrite (indices_unique _ 0 _ i x Hi); [| |done].
    + cbn [mbind option_bind map]. eexists. split; [reflexivity|]. unfold shows, selectedItem.
      unfold set_text, set_data, element_text, element_data. cbn. by rewrite Hi, app_nil_r.
    + unfold fuelTextExactCI. by rewrite bool_decide_true.
Qed.

(** Text typed into a combobox stands for the item it names up to case: the input
    then holds the item's own text and listeners get that text with the item's data; a
    text that names no item is passed on as it was typed, and nothing is selected. *)
Theorem combobox_typed c text :
  pseudo_argument text = true -> text ≠ [] ->
  (forall j y, c_items c !! j = Some y -> li_text y ≠ []) ->
  match indices (fun y => fuelTextExactCI (li_text y) text) 0 (c_items c) with
  | [] => exists c', typed text c = Some c' /\ c_input c' = text
            /\ c_selectedItem c' = (text, None)
            /\ c_changed c' = c_changed c ++ [(text, None)]
  | [i] => forall x, c_items c !! i = Some x ->
            exists c', typed text c = Some c' /\ c_input c' = li_text x
            /\ c_selectedItem c' = (li_text x, Some (li_data x))
            /\ c_changed c' = c_changed c ++ [(li_text x, Some (li_data x))]
  | _ => True
  end.
Proof.
  intros Hp Hne Hall.
  assert (Hf : c_selectByText text (c <| c_input := text |>)
    = let item := map ALi (indices (fun y => fuelTextExactCI (li_text y) text) 0 (c_items c)) in
      match item with
      | _ :: _ => Some (c <| c_input := text |> <| c_selected := Some item |>
                          <| c_input := set_text (c_items c) item |>)
      | [] => Some (c <| c_input := text |> <| c_selected := None |>)
      end).
  { unfold c_selectByText, c_selectBySelector. cbn [find_]. by rewrite Hp. }
  destruct (indices _ 0 (c_items c)) as [|i [|j l]]; [| |done].
  - unfold typed, inputchanged. change (c_input (c <| c_input := text |>)) with text.
    rewrite Hf. cbn [map mbind option_bind]. unfold c_selectedItem at 1.
    eexists. split; [reflexivity|]. split; [done|]. split; [done|].
    cbn. rewrite decide_False; [done|]. by destruct text.
  - intros x Hx. unfold typed, inputchanged.
    change (c_input (c <| c_input := text |>)) with text.
    rewrite Hf. cbn [map mbind option_bind].
    assert (Ht : set_text (c_items c) [ALi i] = li_text x)
      by (unfold set_text, element_text; cbn; by rewrite Hx, app_nil_r).
    assert (Hd : set_data (c_items c) [ALi i] = Some (li_data x))
      by (unfold set_data, element_data; cbn; by rewrite Hx).
    rewrite Ht. set (c1 := c <| c_input := text |> <| c_selected := _ |> <| c_input := _ |>).
    assert (Hsel : c_selectedItem c1 = (li_text x, Some (li_data x)))
      by (rewrite <- Ht, <- Hd; reflexivity).
    rewrite Hsel. cbn [fst]. rewrite decide_False.
    + eexists. split; [reflexivity|]. split; [done|]. split; [exact Hsel|done].
    + specialize (Hall i x Hx). by destruct (li_text x).
Qed.
End Choosers.

(** * Examples *)

#[local] Instance sample_selectors : Selectors := {|
  toLowerCase := map (fun c => if bool_decide (65 <= c <= 90)%N then (c + 32)%N else c);
  pseudo_argument s := forallb (fun c => bool_decide (97 <= c <= 122)%N || bool_decide (65 <= c <= 90)%N) s;
  attribute_value s := negb (has_char dquote s)
|}.

Definition sample_items : list (@li nat) :=
  [Li (js "One") (Some (js "1")) 1 false; Li (js "Two") (Some (js "2")) 2 true].

Lemma select_ways_witness :
  let s := Select sample_items [] [] false [] in
  let shows s' d := s_label s' = js "Two" /\ selectedItem s' = (js "Two", d) in
  shows (itemclicked 1 s) (Some 2)
  /\ (exists s', selectByIndex 1 s = Some s' /\ shows s' (Some 2))
  /\ (exists s', selectByValue (js "2") s = Some s' /\ shows s' (Some 2))
  /\ (exists s', selectByText (js "Two") s = Some s' /\ shows s' None).
Proof.
  apply (select_ways (Select sample_items [] [] false []) 1
    (Li (js "Two") (Some (js "2")) 2 true) (js "2")).
  - reflexivity.
  - reflexivity.
  - reflexivity.
  - intros [|[|j]] y; cbn; [by intros [= <-]|done|by destruct j].
  - reflexivity.
  - intros [|[|j]] y; cbn; [by intros [= <-]|done|by destruct j].
Defined.

Lemma combobox_typed_witness :
  exists c', typed (js "tWO") (Combobox sample_items [] None false []) = Some c'
    /\ c_input c' = js "Two" /\ c_selectedItem c' = (js "Two", Some 2)
    /\ c_changed c' = [] ++ [(js "Two", Some 2)].
Proof.
  refine (combobox_typed (Combobox sample_items [] None false []) (js "tWO") eq_refl _ _
    (Li (js "Two") (Some (js "2")) 2 true) eq_refl).
  - discriminate.
  - intros [|[|j]] y; cbn; [by intros [= <-]|by intros [= <-]|by destruct j].
Defined.
