(* ===== verification/Checks.v ===== *)
(** Checks: the checkbox and radio widgets (fuelux/dist/checkbox.js, radio.js), which
    mirror an input in the classes of an icon next to it; and the pill box (pillbox.js).

    The browser checks and unchecks the inputs and then triggers [change]; the radio
    inputs of one name in one form exclude each other.  Radio inputs are taken to have
    a name.  In the widgets' markup the icon is the element after the input. *)

From S2P Require Import Prelude.
From coqutil Require Import Datatypes.RecordSettersUsingExistingGetters.

(** * Checkbox *)

Record checkbox := Checkbox {
  chk_checked : bool;       (* the input *)
  chk_disabled : bool;
  chk_icon_checked : bool;  (* the icon's classes *)
  chk_icon_disabled : bool
}.

Definition chk_setState (c : checkbox) : checkbox :=
  let checked := chk_checked c in
  let disabled := chk_disabled c in
  let c := c <| chk_icon_checked := false |> <| chk_icon_disabled := false |> in
  let c := if checked then c <| chk_icon_checked := true |> else c in
  if disabled then c <| chk_icon_disabled := true |> else c.

(** [new Checkbox(element)] on an input, whatever classes the icon has. *)
Definition Checkbox_new (checked disabled icon_checked icon_disabled : bool) : checkbox :=
  chk_setState (Checkbox checked disabled icon_checked icon_disabled).

Definition chk_enable (c : checkbox) : checkbox :=
  c <| chk_disabled := false |> <| chk_icon_disabled := false |>.
Definition chk_disable (c : checkbox) : checkbox :=
  c <| chk_disabled := true |> <| chk_icon_disabled := true |>.

Definition chk_itemchecked (c : checkbox) : checkbox := chk_setState c.

(** A click on the input: the browser changes it and triggers [change], unless it is
    disabled.  [toggle] is such a click. *)
Definition chk_click (c : checkbox) : checkbox :=
  if chk_disabled c then c
  else chk_itemchecked (c <| chk_checked ::= negb |>).
Definition toggle (c : checkbox) : checkbox := chk_click c.

Inductive chk_event := ChkClick | ChkToggle | ChkEnable | ChkDisable.

Definition chk_handle (e : chk_event) (c : checkbox) : checkbox :=
  match e with
  | ChkClick => chk_click c
  | ChkToggle => toggle c
  | ChkEnable => chk_enable c
  | ChkDisable => chk_disable c
  end.

(** * Radio *)

Record radio := Radio {
  r_form : nat;             (* the form the input is in *)
  r_name : jstr;
  r_checked : bool;
  r_disabled : bool;
  r_icon_checked : bool;
  r_icon_disabled : bool
}.

(** The radio inputs of the page, with their icons. *)
Abbreviation radios := (list radio).

(** [setState] only adds classes. *)
Definition r_setState (r : radio) : radio :=
  let checked := r_checked r in
  let disabled := r_disabled r in
  let r := if checked then r <| r_icon_checked := true |> else r in
  if disabled then r <| r_icon_disabled := true |> else r.

(** [new Radio(element)] for the [i]-th input. *)
Definition Radio_new (i : nat) (rs : radios) : radios := alter r_setState i rs.

(** The page is loaded: the inputs are set up in turn. *)
Definition load_radios (rs : radios) : radios := foldr Radio_new rs (seq 0 (length rs)).

(** [resetGroup] looks for the name in the whole page. *)
Definition resetGroup (groupName : jstr) (rs : radios) : radios :=
  map (fun r => if decide (r_name r = groupName) then r <| r_icon_checked := false |> else r) rs.

Definition r_enable (i : nat) (rs : radios) : radios :=
  alter (fun r => r <| r_disabled := false |> <| r_icon_disabled := false |>) i rs.
Definition r_disable (i : nat) (rs : radios) : radios :=
  alter (fun r => r <| r_disabled := true |> <| r_icon_disabled := true |>) i rs.

Definition r_itemchecked (i : nat) (rs : radios) : radios :=
  match rs !! i with
  | Some r => alter r_setState i (resetGroup (r_name r) rs)
  | None => rs
  end.

(** One group of the browser: the inputs of one name in one form. *)
Definition same_group (r r' : radio) : bool :=
  bool_decide (r_form r = r_form r' /\ r_name r = r_name r').

(** A click on the [i]-th input: the browser checks it, unchecks the others of its
    group, and triggers [change] when it was not checked before. *)
Definition r_click (i : nat) (rs : radios) : radios :=
  match rs !! i with
  | Some r =>
      if r_disabled r || r_checked r then rs
      else
        r_itemchecked i
          (imap (fun j r' => if same_group r' r
                             then r' <| r_checked := bool_decide (j = i) |> else r') rs)
  | None => rs
  end.

Inductive r_event := RClick (i : nat) | REnable (i : nat) | RDisable (i : nat).

Definition r_handle (e : r_event) (rs : radios) : radios :=
  match e with
  | RClick i => r_click i rs
  | REnable i => r_enable i rs
  | RDisable i => r_disable i rs
  end.

(** * Properties *)

Definition chk_mirrors (c : checkbox) : Prop :=
  chk_icon_checked c = chk_checked c /\ chk_icon_disabled c = chk_disabled c.

Definition r_mirrors (r : radio) : Prop :=
  r_icon_checked r = r_checked r /\ r_icon_disabled r = r_disabled r.

(** At most one input of each group is checked. *)
Definition exclusive (rs : radios) : Prop :=
  forall i j r r', rs !! i = Some r -> rs !! j = Some r' ->
    same_group r r' = true -> r_checked r = true -> r_checked r' = true -> i = j.

(** No name is used in two forms. *)
Definition one_form (rs : radios) : Prop :=
  forall i j r r', rs !! i = Some r -> rs !! j = Some r' ->
    r_name r = r_name r' -> r_form r = r_form r'.

(** The markup before the scripts: icons without classes, and in each group at
    most one input checked, as browsers have it. *)
Definition radio_markup (rs : radios) : Prop :=
  Forall (fun r => r_icon_checked r = false /\ r_icon_disabled r = false) rs /\
  exclusive rs /\ one_form rs.

Lemma chk_setState_mirrors c : chk_mirrors (chk_setState c).
Proof. by destruct c as [[] [] ? ?]. Qed.

Lemma chk_handle_mirrors e c : chk_mirrors c -> chk_mirrors (chk_handle e c).
Proof.
  intros [H1 H2]. destruct e; cbn [chk_handle]; unfold toggle, chk_click.
  - destruct (chk_disabled c) eqn:E; [split; congruence|apply chk_setState_mirrors].
  - destruct (chk_disabled c) eqn:E; [split; congruence|apply chk_setState_mirrors].
  - by split.
  - by split.
Qed.

Lemma r_setState_mirrors r :
  r_icon_checked r = false \/ r_icon_checked r = r_checked r ->
  r_icon_disabled r = r_disabled r \/ r_icon_disabled r = false -> r_mirrors (r_setState r).
Proof.
  unfold r_mirrors, r_setState. destruct r as [n [] [] [] []]; cbn; intuition congruence.
Qed.

Lemma r_itemchecked_lookup i rs j r r' :
  rs !! i = Some r' -> rs !! j = Some r ->
  r_itemchecked i rs !! j
  = Some ((if decide (i = j) then r_setState else id)
            (if decide (r_name r = r_name r') then r <| r_icon_checked := false |> else r)).
Proof.
  intros Hi Hj. unfold r_itemchecked. rewrite Hi. unfold resetGroup.
  destruct (decide (i = j)) as [->|Hij].
  - rewrite list_lookup_alter_eq, list_lookup_fmap, Hj. done.
  - rewrite list_lookup_alter_ne by done. rewrite list_lookup_fmap, Hj. done.
Qed.

Lemma r_click_lookup i rs r' j r :
  rs !! i = Some r' -> r_disabled r' = false -> r_checked r' = false -> rs !! j = Some r ->
  (r_name r = r_name r' -> r_form r = r_form r') ->
  r_mirrors r -> exists r2, r_click i rs !! j = Some r2 /\ r_mirrors r2
    /\ r_name r2 = r_name r /\ r_form r2 = r_form r
    /\ r_checked r2 = (if decide (r_name r = r_name r') then bool_decide (j = i) else r_checked r).
Proof.
  intros Hi Hd Hc Hj Hform [M1 M2]. unfold r_click. rewrite Hi, Hd, Hc. cbn [orb].
  set (g := fun (j : nat) (x : radio) => _).
  assert (Hg : forall k x, rs !! k = Some x -> imap g rs !! k = Some (g k x))
    by (intros k x Hk; by rewrite list_lookup_imap, Hk).
  erewrite r_itemchecked_lookup; [|by apply Hg|by apply Hg].
  eexists. split; [reflexivity|].
  assert (Hname : forall k x, r_name (g k x) = r_name x)
    by (intros k x; unfold g; by destruct (same_group x r')).
  assert (Hgf : r_form (g j r) = r_form r) by (unfold g; by destruct (same_group r r')).
  rewrite !Hname. destruct (decide (r_name r = r_name r')) as [En|En].
  - assert (Hgj : g j r = r <| r_checked := bool_decide (j = i) |>)
      by (unfold g, same_group; rewrite bool_decide_true; [done|by split; [apply Hform|]]).
    rewrite Hgj. destruct (decide (i = j)) as [->|Hij].
    + split; [apply r_setState_mirrors; cbn; auto|].
      unfold r_setState. cbn. rewrite bool_decide_true by done. cbn. by destruct (r_disabled r).
    + rewrite bool_decide_false by done. done.
  - assert (Hgj : g j r = r)
      by (unfold g, same_group; rewrite bool_decide_false; [done|by intros [_ ?]]).
    rewrite Hgj. rewrite decide_False; [done|]. intros ->. simplify_eq.
Qed.

Lemma alter_lookup (f : radio -> radio) (i : nat) (rs : radios) (j : nat) r2 :
  alter f i rs !! j = Some r2 ->
  exists r, rs !! j = Some r /\ (r2 = r \/ r2 = f r).
Proof.
  destruct (decide (i = j)) as [->|H].
  - rewrite list_lookup_alter_eq. intros (r & Hr & ->)%fmap_Some. eauto.
  - rewrite list_lookup_alter_ne by done. eauto.
Qed.

(** What the invariant is about: the icons, and the groups of the inputs. *)
Definition radios_ok (rs : radios) : Prop :=
  Forall r_mirrors rs /\ exclusive rs /\ one_form rs.

(** The names and forms stay, so the groups do. *)
Lemma same_group_fields r r' r2 r2' :
  r_name r2 = r_name r -> r_form r2 = r_form r -> r_name r2' = r_name r' -> r_form r2' = r_form r' ->
  same_group r2 r2' = same_group r r'.
Proof. intros H1 H2 H3 H4. unfold same_group. by rewrite H1, H2, H3, H4. Qed.

Lemma radios_alter f i rs :
  (forall r, r_mirrors r -> r_mirrors (f r)) ->
  (forall r, r_name (f r) = r_name r /\ r_form (f r) = r_form r /\ r_checked (f r) = r_checked r) ->
  radios_ok rs -> radios_ok (alter f i rs).
Proof.
  intros Hf Hn (HM & HE & HF). rewrite Forall_lookup in HM.
  assert (Hold : forall j r2, alter f i rs !! j = Some r2 -> exists r, rs !! j = Some r /\
    r_name r2 = r_name r /\ r_form r2 = r_form r /\ r_checked r2 = r_checked r /\ r_mirrors r2).
  { intros j r2 H2. destruct (alter_lookup f i rs j r2 H2) as (r & Hr & [->| ->]);
      exists r; split; try done; [by repeat split; eapply HM|].
    destruct (Hn r) as (? & ? & ?). repeat split; try done; by apply Hf; eapply HM. }
  split; [|split].
  - rewrite Forall_lookup. intros j r2 H2. by destruct (Hold j r2 H2) as (r & _ & _ & _ & _ & H).
  - intros j k r2 r3 H2 H3. destruct (Hold j r2 H2) as (r & Hr & N2 & F2 & C2 & _).
    destruct (Hold k r3 H3) as (r' & Hr' & N3 & F3 & C3 & _).
    rewrite (same_group_fields r r'), C2, C3 by done. by apply HE.
  - intros j k r2 r3 H2 H3. destruct (Hold j r2 H2) as (r & Hr & N2 & F2 & _).
    destruct (Hold k r3 H3) as (r' & Hr' & N3 & F3 & _).
    rewrite N2, N3, F2, F3. by apply (HF j k).
Qed.

Lemma r_click_old i rs j r2 : r_click i rs !! j = Some r2 -> exists r, rs !! j = Some r.
Proof.
  intros H2. apply lookup_lt_is_Some. apply lookup_lt_Some in H2. revert H2.
  unfold r_click. destruct (rs !! i) as [r'|] eqn:Hi; [|done].
  destruct (r_disabled r' || r_checked r'); [done|].
  unfold r_itemchecked. rewrite list_lookup_imap, Hi. cbn [fmap option_fmap option_map].
  unfold resetGroup. by rewrite length_alter, length_map, length_imap.
Qed.

Lemma r_click_ok i rs : radios_ok rs -> radios_ok (r_click i rs).
Proof.
  intros (HM & HE & HF). pose proof HM as HM'. rewrite Forall_lookup in HM'.
  destruct (rs !! i) as [r'|] eqn:Hi; [|unfold r_click; by rewrite Hi].
  destruct (r_disabled r' || r_checked r') eqn:E; [unfold r_click; by rewrite Hi, E|].
  apply orb_false_iff in E as [Ed Ec].
  assert (Hold : forall j r2, r_click i rs !! j = Some r2 -> exists r, rs !! j = Some r /\
    r_mirrors r2 /\ r_name r2 = r_name r /\ r_form r2 = r_form r /\
    r_checked r2 = (if decide (r_name r = r_name r') then bool_decide (j = i) else r_checked r)).
  { intros j r2 H2. destruct (r_click_old i rs j r2 H2) as [r Hr]. exists r. split; [done|].
    destruct (r_click_lookup i rs r' j r Hi Ed Ec Hr) as (r3 & H3 & H); [by apply (HF j i)|by eapply HM'|].
    by simplify_eq. }
  split; [|split].
  - rewrite Forall_lookup. intros j r2 H2. by destruct (Hold j r2 H2) as (r & _ & H & _).
  - intros j k r2 r3 H2 H3. destruct (Hold j r2 H2) as (r & Hr & _ & N2 & F2 & C2).
    destruct (Hold k r3 H3) as (r1 & Hr1 & _ & N3 & F3 & C3).
    rewrite (same_group_fields r r1), C2, C3 by done. intros Hg Hj Hk.
    pose proof Hg as Hg'. unfold same_group in Hg'. apply bool_decide_eq_true in Hg' as [_ Hn].
    rewrite <- Hn in Hk. case_decide; [|by eapply HE]. apply bool_decide_eq_true in Hj, Hk. congruence.
  - intros j k r2 r3 H2 H3. destruct (Hold j r2 H2) as (r & Hr & _ & N2 & F2 & _).
    destruct (Hold k r3 H3) as (r1 & Hr1 & _ & N3 & F3 & _). rewrite N2, N3, F2, F3. by apply (HF j k).
Qed.

Lemma r_handle_ok e rs : radios_ok rs -> radios_ok (r_handle e rs).
Proof.
  destruct e as [i|i|i]; cbn [r_handle]; [apply r_click_ok|apply radios_alter..]; try done;
    by intros r [? ?].
Qed.

(** Setting the inputs up marks each icon as its input is. *)
Lemma setup_lookup rs n j :
  foldr Radio_new rs (seq 0 n) !! j = (if decide (j < n) then r_setState else id) <$> rs !! j.
Proof.
  assert (H : forall k, foldr Radio_new rs (seq k n) !! j
    = (if decide (k <= j < k + n) then r_setState else id) <$> rs !! j).
  { induction n as [|n IH]; intros k; cbn [seq foldr].
    - rewrite decide_False by lia. by destruct (rs !! j).
    - unfold Radio_new. destruct (decide (k = j)) as [->|Hne].
      + rewrite list_lookup_alter_eq, IH. rewrite decide_False by lia. rewrite decide_True by lia.
        by destruct (rs !! j).
      + rewrite list_lookup_alter_ne, IH by done. f_equal.
        destruct (decide (S k <= j < S k + n)); [rewrite decide_True by lia|rewrite decide_False by lia]; done. }
  rewrite (H 0). f_equal. destruct (decide (j < n)); [rewrite decide_True by lia|rewrite decide_False by lia]; done.
Qed.

Lemma load_radios_ok rs : radio_markup rs -> radios_ok (load_radios rs).
Proof.
  intros (HB & HE & HF). rewrite Forall_lookup in HB.
  assert (Hold : forall j r2, load_radios rs !! j = Some r2 -> exists r, rs !! j = Some r /\
    r_mirrors r2 /\ r_name r2 = r_name r /\ r_form r2 = r_form r /\ r_checked r2 = r_checked r).
  { intros j r2. unfold load_radios. rewrite setup_lookup. intros (r & Hr & ->)%fmap_Some.
    exists r. split; [done|]. pose proof (lookup_lt_Some _ _ _ Hr) as Hlt. rewrite decide_True by done.
    destruct (HB j r Hr) as [B1 B2]. split; [by apply r_setState_mirrors; auto|].
    unfold r_setState. by destruct (r_checked r) eqn:?, (r_disabled r). }
  split; [|split].
  - rewrite Forall_lookup. intros j r2 H2. by destruct (Hold j r2 H2) as (r & _ & H & _).
  - intros j k r2 r3 H2 H3. destruct (Hold j r2 H2) as (r & Hr & _ & N2 & F2 & C2).
    destruct (Hold k r3 H3) as (r1 & Hr1 & _ & N3 & F3 & C3).
    rewrite (same_group_fields r r1), C2, C3 by done. by apply HE.
  - intros j k r2 r3 H2 H3. destruct (Hold j r2 H2) as (r & Hr & _ & N2 & F2 & _).
    destruct (Hold k r3 H3) as (r1 & Hr1 & _ & N3 & F3 & _). rewrite N2, N3, F2, F3. by apply (HF j k).
Qed.

(** C16. From the set-up of the widgets on the icons show the inputs.  A checkbox's
    icon has the classes of its input's state after any clicks, toggles, enabling and
    disabling, whatever classes it had in the markup; and on a page whose radio icons
    have no classes in the markup, and where no name is used in two forms, so has the
    icon of every radio input, of which no two of one group are ever checked. *)
Theorem icons_mirror_inputs ces checked disabled ic idis res rs :
  radio_markup rs ->
  chk_mirrors (foldl (fun c e => chk_handle e c) (Checkbox_new checked disabled ic idis) ces)
  /\ Forall r_mirrors (foldl (fun rs e => r_handle e rs) (load_radios rs) res)
  /\ exclusive (foldl (fun rs e => r_handle e rs) (load_radios rs) res).
Proof.
  intros HM. split.
  - assert (H : chk_mirrors (Checkbox_new checked disabled ic idis)) by apply chk_setState_mirrors.
    revert H. generalize (Checkbox_new checked disabled ic idis).
    induction ces as [|e es IH]; intros c H; [done|]. cbn [foldl].
    by apply IH, chk_handle_mirrors.
  - apply load_radios_ok in HM. revert HM. generalize (load_radios rs).
    induction res as [|e es IH]; intros rs1 HM; [by destruct HM as (? & ? & _)|]. cbn [foldl].
    by apply IH, r_handle_ok.
Qed.

Definition sample_radios : radios :=
  [Radio 0 (js "g") true false false false; Radio 0 (js "g") false false false false;
   Radio 1 (js "h") false true false false].

Lemma sample_markup : radio_markup sample_radios.
Proof.
  split; [by repeat constructor|]. split.
  - intros [|[|[|i]]] [|[|[|j]]] r r'; cbn; try done; intros [= <-] [= <-]; done.
  - intros [|[|[|i]]] [|[|[|j]]] r r'; cbn; try done; intros [= <-] [= <-]; done.
Qed.

Lemma icons_mirror_inputs_witness :
  let rs' := foldl (fun rs e => r_handle e rs) (load_radios sample_radios)
               [RClick 1; REnable 2; RClick 2] in
  map r_icon_checked rs' = [false; true; true]
  /\ chk_mirrors (foldl (fun c e => chk_handle e c) (Checkbox_new true false false true)
       [ChkClick; ChkDisable; ChkToggle])
  /\ Forall r_mirrors rs' /\ exclusive rs'.
Proof.
  intros rs'. split; [reflexivity|].
  apply (icons_mirror_inputs [ChkClick; ChkDisable; ChkToggle] true false false true
    [RClick 1; REnable 2; RClick 2] sample_radios). exact sample_markup.
Defined.

(** A name used in two forms: [resetGroup] takes the mark from the icon of the other
    form's input, which stays checked. *)
Example other_form_unmarked :
  let rs := load_radios [Radio 0 (js "g") true false false false;
                         Radio 1 (js "g") false false false false] in
  map (fun r => (r_checked r, r_icon_checked r)) (r_handle (RClick 1) rs) = [(true, false); (true, true)].
Proof. reflexivity. Qed.

(** * Pill box *)

(** An element of the list: its text and its data. *)
Record pill := Pill { text : jstr; data : gmap jstr jstr }.

Definition text_key : jstr := js "text".

(** [items]: the data go over the text. *)
Definition items (l : list pill) : list (gmap jstr jstr) :=
  map (fun p => data p ∪ {[text_key := text p]}) l.

(** [itemclicked]. *)
Definition itemclicked (i : nat) (l : list pill) : list pill := delete i l.

Definition clicks (gone : list nat) (l : list pill) : list pill := foldl (fun l i => itemclicked i l) l gone.

(** Clicks only take pills away, and those left keep their order and what they say. *)
Lemma clicks_sublist gone l : items (clicks gone l) `sublist_of` items l.
Proof.
  revert l. induction gone as [|i gone IH]; intros l; [done|]. etransitivity; [apply IH|].
  apply (fmap_sublist (fun p => data p ∪ {[text_key := text p]})), sublist_delete.
Qed.

Lemma item_text p : data p !! text_key = None -> items [p] = [<[text_key := text p]> (data p)].
Proof.
  intros H. unfold items. cbn [map]. f_equal. rewrite insert_union_singleton_r by done.
  done.
Qed.
