(* ===== verification/Tree.v ===== *)
(** Tree: the tree widget (fuelux/dist/tree.js) and its static source
    (fuelux/sample/datasourceTree.js).

    The elements of the tree are a list of nodes: an item, or a folder with its header
    and content.  A request for the content of a folder (or of the root) is pending
    until its answer comes; answers may come in any order.  [selectItem] and
    [selectFolder] look for elements below the one clicked only, so that an element is
    found by its number, given when it is created. *)

From S2P Require Import Prelude.
From coqutil Require Import Datatypes.RecordSettersUsingExistingGetters.

(** What a source delivers; [Other] is any other type, of which nothing is made. *)
Inductive kind := FolderType | ItemType | OtherType.
Record entity (V : Type) := Entity { type : kind; name : jstr; value : V }.
Arguments Entity {V}.
Arguments type {V}.
Arguments name {V}.
Arguments value {V}.

Section Tree.
Context {V : Type}.

Inductive node :=
  | Item (id : nat) (item_name : jstr) (data : V) (selected : bool)
  | Folder (id : nat) (folder_name : jstr) (data : V)
      (opened : bool)             (* its icon is the open folder *)
      (shown : bool)              (* its content is shown *)
      (loading : bool)
      (content : list node).

(** What the tree triggers. *)
Inductive notice :=
  | Loaded
  | Selected (info : list V)
  | Opened (data : V)
  | Closed (data : V).

Record options := Options { multiSelect : bool; cacheItems : bool }.

Record tree := Tree {
  t_options : options;
  nodes : list node;
  root_loading : bool;
  pending : list (option nat * option V);   (* whose content (None: the root's), and its data *)
  next_id : nat;
  notices : list notice                     (* triggered so far, the latest last *)
}.

Definition trigger (n : notice) (t : tree) : tree := t <| notices ::= fun l => l ++ [n] |>.

(** Every folder numbered [i] replaced by [f] of it. *)
Fixpoint update_folder (i : nat) (f : node -> node) (n : node) : node :=
  match n with
  | Item _ _ _ _ => n
  | Folder j nm d o s l content =>
      if decide (i = j) then f n
      else Folder j nm d o s l (map (update_folder i f) content)
  end.

(** Folder number [i], wherever it is. *)
Fixpoint find_folder (i : nat) (n : node) : option node :=
  match n with
  | Item _ _ _ _ => None
  | Folder j nm d o s l content =>
      if decide (i = j) then Some n
      else
        (fix find_in (ns : list node) : option node :=
           match ns with
           | [] => None
           | n :: ns => match find_folder i n with Some m => Some m | None => find_in ns end
           end) content
  end.

Fixpoint find_in (i : nat) (ns : list node) : option node :=
  match ns with
  | [] => None
  | n :: ns => match find_folder i n with Some m => Some m | None => find_in i ns end
  end.

(** The items below a node, in document order. *)
Fixpoint items (n : node) : list node :=
  match n with
  | Item _ _ _ _ => [n]
  | Folder _ _ _ _ _ _ content => concat (map items content)
  end.

(** Every item changed by [f]. *)
Fixpoint map_items (f : node -> node) (n : node) : node :=
  match n with
  | Item _ _ _ _ => f n
  | Folder i nm d o s l content => Folder i nm d o s l (map (map_items f) content)
  end.

Definition all_items (ns : list node) : list node := concat (map items ns).

Definition is_selected (n : node) : bool :=
  match n with Item _ _ _ s => s | _ => false end.
Definition node_id (n : node) : nat :=
  match n with Item i _ _ _ => i | Folder i _ _ _ _ _ _ => i end.
Definition node_data (n : node) : V :=
  match n with Item _ _ d _ => d | Folder _ _ d _ _ _ _ => d end.

Definition set_selected (b : bool) (n : node) : node :=
  match n with Item i nm d _ => Item i nm d b | _ => n end.

(** The elements [populate] makes of the entities, numbered from [i]: copies of the
    page's two templates, of which an item is not selected and a folder is closed, its
    empty content not hidden. *)
Fixpoint make_nodes (i : nat) (es : list (entity V)) : list node :=
  match es with
  | [] => []
  | e :: es =>
      match type e with
      | FolderType => Folder i (name e) (value e) false true false [] :: make_nodes (S i) es
      | ItemType => Item i (name e) (value e) false :: make_nodes (S i) es
      | OtherType => make_nodes (S i) es
      end
  end.

(** [populate($el)]: the loader is shown and the source asked. *)
Definition populate (target : option (nat * V)) (t : tree) : tree :=
  match target with
  | None => t <| root_loading := true |> <| pending ::= fun l => l ++ [(None, None)] |>
  | Some (i, d) =>
      t <| nodes ::= map (update_folder i (fun n =>
             match n with
             | Folder j nm d o s _ c => Folder j nm d o s true c
             | Item _ _ _ _ => n
             end)) |>
        <| pending ::= fun l => l ++ [(Some i, Some d)] |>
  end.

(** The callback [populate] gives the source. *)
Definition populated (target : option nat) (es : list (entity V)) (t : tree) : tree :=
  let ns := make_nodes (next_id t) es in
  let t := t <| next_id ::= fun i => i + length es |> in
  let t :=
    match target with
    | None => t <| root_loading := false |> <| nodes ::= fun l => l ++ ns |>
    | Some i =>
        t <| nodes ::= map (update_folder i (fun n =>
               match n with
               | Folder j nm d o s _ c => Folder j nm d o s false (c ++ ns)
               | Item _ _ _ _ => n
               end)) |>
    end in
  trigger Loaded t.

(** [new Tree(element, options)]. *)
Definition Tree_new (o : options) : tree := populate None (Tree o [] false [] 0 []).

Definition unselect (i : option nat) (n : node) : node :=
  if decide (i = None \/ i = Some (node_id n)) then set_selected false n else n.

(** [selectItem(el)] for the item numbered [i]. *)
Definition selectItem (i : nat) (t : tree) : tree :=
  match List.find (fun n => bool_decide (node_id n = i)) (all_items (nodes t)) with
  | None => t
  | Some el =>
      let all := List.filter is_selected (all_items (nodes t)) in
      let '(data, t) :=
        if multiSelect (t_options t)
        then (map node_data (List.filter (fun n => negb (bool_decide (node_id n = i))) all), t)
        else if decide (node_id <$> head all = Some i) then ([], t)
        else ([node_data el], t <| nodes ::= map (map_items (set_selected false)) |>) in
      (* single selection has just taken the class off every item, this one included *)
      let selected_now := is_selected el
        && (multiSelect (t_options t) || bool_decide (node_id <$> head all = Some i)) in
      let t := t <| nodes ::= map (map_items (fun n =>
                 if decide (node_id n = i) then set_selected (negb selected_now) n else n)) |> in
      let data := if negb selected_now && multiSelect (t_options t)
                  then data ++ [node_data el] else data in
      match data with
      | [] => t
      | _ => trigger (Selected data) t
      end
  end.

(** [selectFolder(el)] for the header of folder [i]. *)
Definition selectFolder (i : nat) (t : tree) : tree :=
  match find_in i (nodes t) with
  | Some (Folder _ _ d false _ _ content) =>
      let t :=
        match content with
        | _ :: _ =>
            t <| nodes ::= map (update_folder i (fun n =>
                   match n with
                   | Folder j nm d o _ l c => Folder j nm d o true l c
                   | Item _ _ _ _ => n
                   end)) |>
        | [] => populate (Some (i, d)) t
        end in
      trigger (Opened d)
        (t <| nodes ::= map (update_folder i (fun n =>
                match n with
                | Folder j nm d _ s l c => Folder j nm d true s l c
                | Item _ _ _ _ => n
                end)) |>)
  | Some (Folder _ _ d true _ _ _) =>
      let cache := cacheItems (t_options t) in
      trigger (Closed d)
        (t <| nodes ::= map (update_folder i (fun n =>
                match n with
                | Folder j nm d _ s l c =>
                    if cache then Folder j nm d false false l c else Folder j nm d false s l []
                | Item _ _ _ _ => n
                end)) |>)
  | _ => t
  end.

Definition selectedItems (t : tree) : list V :=
  map node_data (List.filter is_selected (all_items (nodes t))).

(** A source answers from the data of the element it was asked for. *)
Context (source : option V -> list (entity V)).

(** [DataSourceTree] answers every request with its array. *)
Definition DataSourceTree (es : list (entity V)) (_ : option V) : list (entity V) := es.

Inductive event := ClickItem (i : nat) | ClickFolder (i : nat) | Answer (k : nat).

Definition handle (e : event) (t : tree) : tree :=
  match e with
  | ClickItem i => selectItem i t
  | ClickFolder i => selectFolder i t
  | Answer k =>
      match pending t !! k with
      | Some (target, d) => populated target (source d) (t <| pending := delete k (pending t) |>)
      | None => t
      end
  end.

Definition handle_all (es : list event) (t : tree) : tree :=
  foldl (fun t e => handle e t) t es.
End Tree.
