(* ===== verification/TreeFacts.v ===== *)
(** TreeFacts: selection and loading in the tree widget. *)

From S2P Require Import Prelude Tree.
From Stdlib Require Import Lia.
From coqutil Require Import Datatypes.RecordSettersUsingExistingGetters.

Section Facts.
Context {V : Type}.
Implicit Types (n : @node V) (ns : list (@node V)) (t : @tree V).

(** Induction on a node, with the hypothesis for every node of its content. *)
Lemma node_nested_ind (P : @node V -> Prop) :
  (forall i nm d s, P (Item i nm d s)) ->
  (forall i nm d o s l c, Forall P c -> P (Folder i nm d o s l c)) ->
  forall n, P n.
Proof.
  intros HI HF. fix IH 1. intros [i nm d s|i nm d o s l c]; [apply HI|].
  apply HF. induction c as [|m c IHc]; constructor; [apply IH|exact IHc].
Qed.

(** * Counting nodes *)

(** [w] summed over a node and everything below it. *)
Fixpoint total (w : @node V -> nat) (n : @node V) : nat :=
  w n + match n with
        | Item _ _ _ _ => 0
        | Folder _ _ _ _ _ _ c => sum_list (map (total w) c)
        end.

Definition totals (w : @node V -> nat) (ns : list (@node V)) : nat := sum_list (map (total w) ns).

Lemma totals_cons w n ns : totals w (n :: ns) = total w n + totals w ns.
Proof. done. Qed.

Lemma totals_app w ns ms : totals w (ns ++ ms) = totals w ns + totals w ms.
Proof. unfold totals. induction ns as [|n ns IH]; cbn in *; lia. Qed.

Lemma total_folder w i nm d o s l c :
  total w (Folder i nm d o s l c) = w (Folder i nm d o s l c) + totals w c.
Proof. done. Qed.

Definition flat (w : @node V -> nat) : Prop :=
  forall i nm d o s l c o' s' l' c',
    w (Folder i nm d o s l c) = w (Folder i nm d o' s' l' c').

Definition folder_with (i : nat) n : nat :=
  match n with Folder j _ _ _ _ _ _ => if decide (i = j) then 1 else 0 | _ => 0 end.
Definition with_id (i : nat) n : nat := if decide (i = node_id n) then 1 else 0.
Definition selected_weight n : nat := if is_selected n then 1 else 0.

Lemma flat_with_id i : flat (with_id i).
Proof. by intros ?. Qed.
Lemma flat_selected : flat selected_weight.
Proof. by intros ?. Qed.

Lemma totals_le w w' ns : (forall n, w n <= w' n) -> totals w ns <= totals w' ns.
Proof.
  intros H. enough (Hn : forall n, total w n <= total w' n).
  { unfold totals. induction ns as [|n ns IH]; cbn; [lia|]. specialize (Hn n). lia. }
  intros n. induction n as [i nm d s|i nm d o s l c IH] using node_nested_ind.
  - cbn. specialize (H (Item i nm d s)). lia.
  - rewrite !total_folder. pose proof (H (Folder i nm d o s l c)).
    enough (totals w c <= totals w' c) by lia.
    clear -IH. unfold totals. induction IH as [|m c Hm _ IHc]; cbn in *; lia.
Qed.

(** Changing folder [i] adds at most [delta] for each folder of that number. *)
Lemma totals_update w i f delta ns :
  flat w ->
  (forall nm d o s l c, total w (f (Folder i nm d o s l c))
     <= total w (Folder i nm d o s l c) + delta) ->
  totals w (map (update_folder i f) ns) <= totals w ns + delta * totals (folder_with i) ns.
Proof.
  intros Hw Hf.
  assert (Hall : forall c, Forall (fun n => total w (update_folder i f n)
      <= total w n + delta * total (folder_with i) n) c ->
    totals w (map (update_folder i f) c) <= totals w c + delta * totals (folder_with i) c).
  { intros c Hc. unfold totals. induction Hc; cbn; lia. }
  apply Hall. apply Forall_forall. intros n _.
  induction n as [j nm d s|j nm d o s l c IH] using node_nested_ind.
  - cbn. lia.
  - cbn [update_folder]. case_decide as Hij; subst.
    + specialize (Hf nm d o s l c). rewrite (total_folder (folder_with _)).
      unfold folder_with at 1. rewrite decide_True by done. lia.
    + rewrite !total_folder. specialize (Hall c IH).
      rewrite (Hw _ _ _ _ _ _ _ o s l c). unfold folder_with at 1.
      rewrite decide_False by done. lia.
Qed.

(** Changing items changes the sum item by item. *)
Lemma totals_map_items w w' f ns :
  (forall i nm d s, total w (f (Item i nm d s)) = w' (Item i nm d s)) ->
  (forall i nm d o s l c c', w (Folder i nm d o s l c) = w' (Folder i nm d o s l c')) ->
  totals w (map (map_items f) ns) = totals w' ns.
Proof.
  intros Hf Hw.
  assert (Hall : forall c, Forall (fun n => total w (map_items f n) = total w' n) c ->
    totals w (map (map_items f) c) = totals w' c).
  { intros c Hc. unfold totals. induction Hc; cbn; lia. }
  apply Hall. apply Forall_forall. intros n _.
  induction n as [j nm d s|j nm d o s l c IH] using node_nested_ind.
  - cbn [map_items]. rewrite Hf. cbn. lia.
  - cbn [map_items]. rewrite !total_folder, (Hall c IH). f_equal. apply Hw.
Qed.

(** * The invariant *)

Record fine (t : @tree V) : Prop := {
  fine_unique i : totals (with_id i) (nodes t) <= 1;
  fine_fresh i : next_id t <= i -> totals (with_id i) (nodes t) = 0;
  fine_single : multiSelect (t_options t) = false -> totals selected_weight (nodes t) <= 1
}.

Lemma folder_with_id i n : folder_with i n <= with_id i n.
Proof. destruct n; cbn; unfold with_id; cbn; repeat case_decide; lia || done. Qed.

Lemma fine_folder t i : fine t -> totals (folder_with i) (nodes t) <= 1.
Proof.
  intros H. pose proof (totals_le _ _ (nodes t) (folder_with_id i)).
  pose proof (fine_unique t H i). lia.
Qed.

Lemma make_nodes_ids i es j :
  totals (with_id j) (make_nodes i es) <= 1
  /\ (j < i \/ i + length es <= j -> totals (with_id j) (make_nodes i es) = 0).
Proof.
  revert i. induction es as [|e es IH]; intros i; [cbn; lia|]. cbn [make_nodes length].
  destruct (IH (S i)) as [I1 I2].
  destruct (type e); [| |split; [done|intros H; apply I2; lia]]; rewrite totals_cons;
    (replace (total _ _) with (if decide (j = i) then 1 else 0)
       by (cbn; unfold with_id; cbn; case_decide; lia));
    case_decide; subst; (split; [|intros Hj]); try lia; rewrite I2; lia.
Qed.

Lemma make_nodes_selected i es : totals selected_weight (make_nodes i es) = 0.
Proof.
  revert i. induction es as [|e es IH]; intros i; [done|]. cbn [make_nodes].
  destruct (type e); [| |done]; rewrite totals_cons, IH; done.
Qed.

(** A change of folder [i] that adds no more than [new] nodes keeps the invariant. *)
Lemma fine_update t t' i f new :
  fine t ->
  nodes t' = map (update_folder i f) (nodes t) ->
  t_options t' = t_options t -> next_id t <= next_id t' ->
  (forall w, flat w -> forall nm d o s l c,
     total w (f (Folder i nm d o s l c)) <= total w (Folder i nm d o s l c) + totals w new) ->
  (forall j, totals (with_id j) new <= 1
     /\ (j < next_id t \/ next_id t' <= j -> totals (with_id j) new = 0)) ->
  totals selected_weight new = 0 ->
  fine t'.
Proof.
  intros H Hn Ho Hid Hf Hnew Hsel. pose proof (fine_folder t i H) as H1.
  assert (Hle : forall w, flat w -> totals w (nodes t') <= totals w (nodes t) + totals w new).
  { intros w Hw. rewrite Hn. etrans; [by apply totals_update, Hf|].
    apply Nat.add_le_mono_l. destruct (totals (folder_with i) (nodes t)) as [|[|?]]; lia. }
  split.
  - intros j. specialize (Hle _ (flat_with_id j)). destruct (Hnew j) as [N1 N2].
    pose proof (fine_unique t H j). destruct (decide (j < next_id t)).
    + rewrite N2 in Hle by lia. lia.
    + rewrite (fine_fresh t H j) in Hle by lia. lia.
  - intros j Hj. specialize (Hle _ (flat_with_id j)). destruct (Hnew j) as [N1 N2].
    rewrite N2 in Hle by lia. rewrite (fine_fresh t H j) in Hle by lia. lia.
  - rewrite Ho. intros Hm. specialize (Hle _ flat_selected). rewrite Hsel in Hle.
    pose proof (fine_single t H Hm). lia.
Qed.

(** A change of folder [i]'s marks, or the loss of its content, keeps the invariant. *)
Lemma fine_mark t t' i f :
  fine t -> nodes t' = map (update_folder i f) (nodes t) ->
  t_options t' = t_options t -> next_id t' = next_id t ->
  (forall w, flat w -> forall nm d o s l c,
     total w (f (Folder i nm d o s l c)) <= total w (Folder i nm d o s l c)) ->
  fine t'.
Proof.
  intros H Hn Ho Hid Hf. apply (fine_update t t' i f []); try done; [lia| |].
  - intros w Hw nm d o s l c. specialize (Hf w Hw nm d o s l c). lia.
  - intros j. cbn. lia.
Qed.

Lemma fine_same t t' :
  fine t -> nodes t' = nodes t -> t_options t' = t_options t -> next_id t' = next_id t ->
  fine t'.
Proof. intros [H1 H2 H3] E1 E2 E3. split; rewrite ?E1, ?E2, ?E3; done. Qed.

Lemma populate_fine target t : fine t -> fine (populate target t).
Proof.
  intros H. destruct target as [[i d]|]; [|by eapply fine_same].
  eapply fine_mark; [exact H|reflexivity|done|done|].
  intros w Hw nm d' o s l c. rewrite !total_folder. by rewrite (Hw _ _ _ _ _ _ _ o s l c).
Qed.

Lemma populated_fine target es t : fine t -> fine (populated target es t).
Proof.
  intros H. destruct target as [i|].
  - eapply (fine_update t _ i _ (make_nodes (next_id t) es));
      [exact H|reflexivity|done|cbn; lia| |intros j; apply make_nodes_ids|apply make_nodes_selected].
    intros w Hw nm d o s l c. rewrite !total_folder, totals_app.
    rewrite (Hw _ _ _ _ _ _ _ o s l c). lia.
  - pose proof (make_nodes_ids (next_id t) es) as Hids.
    split; cbn [populated trigger nodes next_id t_options].
    + intros j. change (totals (with_id j) (nodes t ++ make_nodes (next_id t) es) <= 1).
      rewrite totals_app. destruct (Hids j) as [N1 N2]. pose proof (fine_unique t H j).
      destruct (decide (j < next_id t)); [rewrite N2 by lia; lia|].
      rewrite (fine_fresh t H j) by lia. lia.
    + intros j Hj. change (next_id t + length es <= j) in Hj.
      change (totals (with_id j) (nodes t ++ make_nodes (next_id t) es) = 0).
      rewrite totals_app, (fine_fresh t H j) by lia. destruct (Hids j) as [N1 N2]. apply N2. lia.
    + intros Hm. change (totals selected_weight (nodes t ++ make_nodes (next_id t) es) <= 1).
      rewrite totals_app, make_nodes_selected. pose proof (fine_single t H Hm). lia.
Qed.

Lemma selectFolder_fine i t : fine t -> fine (selectFolder i t).
Proof.
  intros H. unfold selectFolder.
  destruct (find_in i (nodes t)) as [[|j nm d [] s l c]|]; try done.
  - eapply fine_mark; [exact H|reflexivity|done|done|].
    intros w Hw nm' d' o' s' l' c'. destruct (cacheItems (t_options t)); rewrite !total_folder;
      [|cbn]; rewrite (Hw _ _ _ _ _ _ _ o' s' l' c'); lia.
  - set (t1 := match c with [] => _ | _ => _ end).
    assert (H1 : fine t1).
    { unfold t1. destruct c; [by apply populate_fine|].
      eapply fine_mark; [exact H|reflexivity|done|done|].
      intros w Hw nm' d' o' s' l' c'. rewrite !total_folder.
      by rewrite (Hw _ _ _ _ _ _ _ o' s' l' c'). }
    eapply fine_mark; [exact H1|reflexivity|done|done|].
    intros w Hw nm' d' o' s' l' c'. rewrite !total_folder.
    by rewrite (Hw _ _ _ _ _ _ _ o' s' l' c').
Qed.

(** * Selecting *)

Lemma selected_length ns :
  length (List.filter is_selected (all_items ns)) = totals selected_weight ns.
Proof.
  assert (Hall : forall c, Forall (fun n =>
      length (List.filter is_selected (items n)) = total selected_weight n) c ->
    length (List.filter is_selected (concat (map items c))) = totals selected_weight c).
  { unfold totals. induction 1 as [|m c Hm _ IH]; [done|]. cbn [map concat].
    rewrite List.filter_app, length_app, Hm, IH. done. }
  apply Hall, Forall_forall. intros n _.
  induction n as [j nm d []|j nm d o s l c IH] using node_nested_ind; [done|done|].
  cbn [items]. rewrite (Hall c IH). rewrite total_folder. done.
Qed.

Lemma with_id_length i ns :
  length (List.filter (fun n => bool_decide (node_id n = i)) (all_items ns))
  <= totals (with_id i) ns.
Proof.
  set (p := fun n => bool_decide (node_id n = i)).
  assert (Hall : forall c, Forall (fun n =>
      length (List.filter p (items n)) <= total (with_id i) n) c ->
    length (List.filter p (concat (map items c))) <= totals (with_id i) c).
  { unfold totals. induction 1 as [|m c Hm _ IH]; [done|]. cbn [map concat].
    rewrite List.filter_app, length_app. cbn. lia. }
  apply Hall, Forall_forall. intros n _.
  induction n as [j nm d s|j nm d o s l c IH] using node_nested_ind.
  - cbn. unfold p, with_id. cbn. case_bool_decide; case_decide; cbn; lia || congruence.
  - cbn [items]. rewrite total_folder. specialize (Hall c IH). lia.
Qed.

Lemma items_map_items f ns :
  (forall i nm d s, exists j nm' d' s', f (Item i nm d s) = Item j nm' d' s') ->
  all_items (map (map_items f) ns) = map f (all_items ns).
Proof.
  intros Hf. unfold all_items.
  assert (Hall : forall c, Forall (fun n => items (map_items f n) = map f (items n)) c ->
    concat (map items (map (map_items f) c)) = map f (concat (map items c))).
  { induction 1 as [|m c Hm _ IH]; [done|]. cbn [map concat]. by rewrite map_app, Hm, IH. }
  apply Hall, Forall_forall. intros n _.
  induction n as [j nm d s|j nm d o s l c IH] using node_nested_ind.
  - cbn. destruct (Hf j nm d s) as (j' & nm' & d' & s' & ->). done.
  - cbn [map_items items]. by apply Hall.
Qed.

Lemma find_item i ns el :
  List.find (fun n => bool_decide (node_id n = i)) (all_items ns) = Some el ->
  node_id el = i /\ el ∈ all_items ns.
Proof.
  intros H. apply find_some in H as [H1 H2]. apply bool_decide_eq_true in H2.
  split; [done|]. by apply list_elem_of_In.
Qed.

Lemma map_map_items f g ns :
  (forall i nm d s, exists j nm' d' s', g (Item i nm d s) = Item j nm' d' s') ->
  map (map_items f) (map (map_items g) ns) = map (map_items (fun n => f (g n))) ns.
Proof.
  intros Hg. rewrite map_map. apply map_ext. intros n.
  induction n as [j nm d s|j nm d o s l c IH] using node_nested_ind.
  - cbn. destruct (Hg j nm d s) as (j' & nm' & d' & s' & ->). done.
  - cbn. f_equal. rewrite map_map. induction IH as [|m c Hm _ IHc]; cbn; congruence.
Qed.

Lemma map_items_ext f g ns :
  (forall i nm d s, f (Item i nm d s) = g (Item i nm d s)) ->
  map (map_items f) ns = map (map_items g) ns.
Proof.
  intros Hfg. apply map_ext. intros n.
  induction n as [j nm d s|j nm d o s l c IH] using node_nested_ind; [apply Hfg|].
  cbn. f_equal. induction IH as [|m c Hm _ IHc]; cbn; congruence.
Qed.

(** Deselecting [ns], then giving class [b] to item [i]. *)
Lemma totals_only i b ns :
  totals selected_weight (map (map_items (fun n =>
    if decide (node_id n = i) then set_selected b n else set_selected false n)) ns)
  <= totals (with_id i) ns.
Proof.
  rewrite (totals_map_items _ (fun n => match n with
    | Item j _ _ _ => if decide (j = i) then if b then 1 else 0 else 0 | _ => 0 end)).
  - apply totals_le. intros [j nm d s|]; cbn; unfold with_id; cbn; repeat case_decide;
      destruct b; try lia; congruence.
  - intros j nm d s. cbn. case_decide; cbn; by destruct b.
  - done.
Qed.

(** Items are found by their number, which is theirs alone. *)
Lemma item_unique i ns n m :
  totals (with_id i) ns <= 1 -> n ∈ all_items ns -> m ∈ all_items ns ->
  node_id n = i -> node_id m = i -> n = m.
Proof.
  intros Hu Hn Hm Ei Ej. pose proof (with_id_length i ns) as Hl.
  set (l := List.filter _ _) in Hl.
  assert (In n l /\ In m l) as [H1 H2].
  { unfold l. rewrite !filter_In, <- !list_elem_of_In.
    split; (split; [done|by apply bool_decide_eq_true]). }
  destruct l as [|x [|y l]]; [done| |cbn in Hl; lia].
  destruct H1 as [<-|[]], H2 as [<-|[]]. done.
Qed.

Definition same_item (f : @node V -> @node V) : Prop :=
  forall i nm d s, exists s', f (Item i nm d s) = Item i nm d s'.

Lemma same_item_ids f ns j :
  same_item f -> totals (with_id j) (map (map_items f) ns) = totals (with_id j) ns.
Proof.
  intros Hf. apply totals_map_items; [|done]. intros i nm d s.
  by destruct (Hf i nm d s) as [s' ->].
Qed.

(** The class given to the items by a click on item [i]. *)
Definition give_class (i : nat) (b : bool) (others : bool) n : @node V :=
  if decide (node_id n = i) then set_selected b n
  else if others then n else set_selected false n.

Lemma give_class_same i b others : same_item (give_class i b others).
Proof.
  intros j nm d s. unfold give_class. case_decide; [by eexists|].
  destruct others; by eexists.
Qed.

(** [selectItem], read as one change of the nodes and the data of the event. *)
Lemma selectItem_nodes i t el :
  List.find (fun n => bool_decide (node_id n = i)) (all_items (nodes t)) = Some el ->
  let all := List.filter is_selected (all_items (nodes t)) in
  let multi := multiSelect (t_options t) in
  let first := bool_decide (node_id <$> head all = Some i) in
  let now := is_selected el && (multi || first) in
  nodes (selectItem i t)
    = map (map_items (give_class i (negb now) (multi || first))) (nodes t)
  /\ t_options (selectItem i t) = t_options t /\ next_id (selectItem i t) = next_id t
  /\ pending (selectItem i t) = pending t
  /\ notices (selectItem i t) = notices t ++
       let data := if multi
         then map node_data (List.filter (fun n => negb (bool_decide (node_id n = i))) all)
              ++ (if now then [] else [node_data el])
         else if first then [] else [node_data el] in
       match data with [] => [] | _ => [Selected data] end.
Proof.
  intros Hel. cbv zeta. unfold selectItem. rewrite Hel.
  set (all := List.filter is_selected (all_items (nodes t))).
  set (first := bool_decide (node_id <$> head all = Some i)).
  assert (Hmark : forall now, nodes (t <| nodes ::= map (map_items (fun n =>
        if decide (node_id n = i) then set_selected (negb now) n else n)) |>)
      = map (map_items (give_class i (negb now) true)) (nodes t)).
  { intros now. apply map_items_ext. intros j nm d s. unfold give_class. by case_decide. }
  assert (Hm : forall f, multiSelect (t_options (t <| nodes ::= f |>)) = multiSelect (t_options t))
    by done.
  destruct (multiSelect (t_options t)) eqn:E.
  - rewrite E, Hm. cbn [orb]. rewrite !andb_true_r. set (now := is_selected el) in *.
    replace (if negb now then _ else _)
      with (map node_data (List.filter (fun n => negb (bool_decide (node_id n = i))) all)
              ++ (if now then [] else [node_data el]))
      by (destruct now; cbn [negb]; [by rewrite app_nil_r|done]).
    destruct (_ ++ _) as [|x l];
      (split_and!; [exact (Hmark now)|done|done|done|]); [by rewrite app_nil_r|done].
  - unfold first. case_bool_decide as Hf.
    + rewrite decide_True by done. rewrite E, Hm. cbn [orb]. rewrite andb_false_r.
      split_and!; [exact (Hmark _)|done|done|done|by rewrite app_nil_r].
    + rewrite decide_False by done.
      change (multiSelect (t_options (t <| nodes ::= ?f |>))) with (multiSelect (t_options t)).
      rewrite E. cbn [orb]. rewrite andb_false_r.
      replace (negb false && multiSelect _) with false by exact (eq_sym E).
      split_and!; try done.
      transitivity (map (map_items (fun n => if decide (node_id n = i)
        then set_selected (negb false) n else n))
        (map (map_items (set_selected false)) (nodes t))); [reflexivity|].
      rewrite map_map_items by (intros j nm d s; by repeat eexists).
      apply map_items_ext. intros j nm d s. unfold give_class. cbn. by case_decide.
Qed.

Lemma selectItem_fine i t : fine t -> fine (selectItem i t).
Proof.
  intros H. destruct (List.find (fun n => bool_decide (node_id n = i)) (all_items (nodes t)))
    as [el|] eqn:Hel; [|unfold selectItem; by rewrite Hel].
  destruct (selectItem_nodes i t el Hel) as (Hn & Ho & Hid & _ & _).
  apply find_item in Hel as [Ei Hin].
  set (all := List.filter is_selected _) in Hn. set (first := bool_decide _) in Hn.
  split.
  - intros j. rewrite Hn, same_item_ids by apply give_class_same. apply H.
  - intros j Hj. rewrite Hid in Hj. rewrite Hn, same_item_ids by apply give_class_same.
    by apply H.
  - rewrite Ho. intros Hm. rewrite Hm in Hn. cbn [orb] in Hn. rewrite Hn.
    destruct first eqn:Hf.
    + assert (is_selected el = true) as ->.
      { apply bool_decide_eq_true in Hf. destruct all as [|n l] eqn:Hall; [done|].
        cbn in Hf. injection Hf as Hf.
        assert (Hinn : In n (n :: l)) by by left.
        rewrite <- Hall in Hinn. apply filter_In in Hinn as [H1 H2].
        apply list_elem_of_In in H1.
        by rewrite (item_unique i (nodes t) el n (fine_unique t H i) Hin H1 Ei Hf). }
      etrans; [|exact (fine_single t H Hm)].
      rewrite (totals_map_items _ (fun n => match n with
        | Item j _ _ s => if decide (j = i) then 0 else if s then 1 else 0 | _ => 0 end)).
      * apply totals_le. intros [j nm d []|]; cbn; unfold selected_weight; cbn; try case_decide; lia.
      * intros j nm d s. unfold give_class. cbn. case_decide; cbn; by try destruct s.
      * done.
    + rewrite andb_false_r. cbn [negb]. etrans; [|exact (fine_unique t H i)].
      apply totals_only.
Qed.

Lemma filter_empty {A} (p : A -> bool) (l : list A) :
  List.filter p l = [] <-> forall x, In x l -> p x = false.
Proof.
  induction l as [|y l IH]; cbn; [done|]. destruct (p y) eqn:E; split.
  - done.
  - intros H. rewrite (H y) in E by by left. done.
  - intros H x [<-|Hx]; [done|]. by apply IH.
  - intros H. apply IH. intros x Hx. apply H. by right.
Qed.

(** The only item numbered [i] splits the items in two. *)
Lemma item_split t i el :
  fine t -> List.find (fun n => bool_decide (node_id n = i)) (all_items (nodes t)) = Some el ->
  exists l1 l2, all_items (nodes t) = l1 ++ el :: l2 /\ node_id el = i
    /\ (forall n, In n l1 \/ In n l2 -> node_id n ≠ i).
Proof.
  intros H Hel. destruct (find_item _ _ _ Hel) as [Hid Hin].
  apply list_elem_of_split in Hin as (l1 & l2 & Hl). exists l1, l2. split; [done|].
  split; [done|]. pose proof (with_id_length i (nodes t)) as Hlen.
  pose proof (fine_unique t H i). rewrite Hl, List.filter_app, length_app in Hlen.
  cbn [List.filter] in Hlen. rewrite bool_decide_true in Hlen by done. cbn [length] in Hlen.
  intros n Hn Hi. assert (E : length (List.filter (fun n => bool_decide (node_id n = i)) l1) = 0
    /\ length (List.filter (fun n => bool_decide (node_id n = i)) l2) = 0) by lia.
  destruct E as [E1 E2]. apply nil_length_inv in E1, E2.
  destruct Hn as [Hn|Hn]; [pose proof (proj1 (filter_empty _ _) E1 n Hn) as E
                          |pose proof (proj1 (filter_empty _ _) E2 n Hn) as E];
    cbn in E; by rewrite bool_decide_true in E.
Qed.

Lemma filter_others i l :
  (forall n, In n l -> node_id n ≠ i) ->
  List.filter (fun n => negb (bool_decide (node_id n = i))) (List.filter is_selected l)
    = List.filter is_selected l
  /\ forall b, map (give_class i b true) l = l.
Proof.
  induction l as [|n l IH]; intros H; [done|]. destruct IH as [IH1 IH2].
  { intros m Hm. apply H. by right. }
  assert (Hn : node_id n ≠ i) by (apply H; by left). split.
  - cbn [List.filter]. destruct (is_selected n); [|done]. cbn [List.filter].
    rewrite bool_decide_false by done. cbn [negb]. by rewrite IH1.
  - intros b. cbn [map]. rewrite IH2. unfold give_class. by rewrite decide_False.
Qed.

(** The items are items. *)
Lemma all_items_item ns n : n ∈ all_items ns -> exists nm d s, n = Item (node_id n) nm d s.
Proof.
  rewrite list_elem_of_In. unfold all_items. rewrite in_concat. intros (x & Hx & Hin).
  apply in_map_iff in Hx as (m & <- & _). revert Hin.
  induction m as [j nm d s|j nm d o s l c IH] using node_nested_ind.
  - intros [<-|[]]. by repeat eexists.
  - cbn [items]. rewrite in_concat. intros (x & Hx & Hin).
    apply in_map_iff in Hx as (m & <- & Hm). rewrite Forall_forall in IH.
    apply (IH m); [by apply list_elem_of_In|done].
Qed.

(** What a click on an item announces with multiple selection. *)
Lemma multi_select_announces i t el :
  fine t -> multiSelect (t_options t) = true ->
  List.find (fun n => bool_decide (node_id n = i)) (all_items (nodes t)) = Some el ->
  exists info, Permutation info (selectedItems (selectItem i t))
    /\ notices (selectItem i t) = notices t ++ match info with [] => [] | _ => [Selected info] end.
Proof.
  intros H Hm Hel.
  destruct (selectItem_nodes i t el Hel) as (Hn & _ & _ & _ & Hnot).
  rewrite Hm in Hn, Hnot. cbn [orb] in Hn, Hnot. rewrite andb_true_r in Hn, Hnot.
  destruct (item_split t i el H Hel) as (l1 & l2 & Hl & Hi & Ho).
  destruct (filter_others i l1) as [F1 M1]; [naive_solver|].
  destruct (filter_others i l2) as [F2 M2]; [naive_solver|].
  destruct (all_items_item (nodes t) el) as (nm & d & s & Hel').
  { rewrite Hl. set_solver. }
  rewrite Hi in Hel'. subst el.
  set (info := map node_data _ ++ _) in Hnot. exists info. split; [|exact Hnot].
  unfold selectedItems. rewrite Hn, items_map_items.
  2: { intros j nm1 d1 s1. unfold give_class. case_decide; by repeat eexists. }
  unfold info. rewrite Hl, (map_app (give_class i _ true)). cbn [map]. rewrite M1, M2.
  unfold give_class. cbn [node_id]. rewrite decide_True by done.
  cbn [is_selected node_data set_selected].
  rewrite !List.filter_app, F1. destruct s; cbn [List.filter is_selected negb app];
    rewrite ?List.filter_app; cbn [List.filter node_id];
    rewrite ?bool_decide_true by done; cbn [negb]; rewrite F2, ?app_nil_r; [done|].
  rewrite !map_app, <- app_assoc. apply Permutation_app_head. cbn [map node_data].
  by rewrite Permutation_app_comm.
Qed.

Lemma handle_fine source e t : fine t -> fine (handle source e t).
Proof.
  intros H. destruct e as [i|i|k]; cbn [handle].
  - by apply selectItem_fine.
  - by apply selectFolder_fine.
  - destruct (pending t !! k) as [[target d]|]; [|done].
    apply populated_fine. by eapply fine_same.
Qed.

Lemma fine_new o : fine (@Tree_new V o).
Proof. split; intros; cbn; lia. Qed.

Lemma handle_all_fine source es t : fine t -> fine (handle_all source es t).
Proof.
  unfold handle_all. revert t. induction es as [|e es IH]; intros t H; [done|].
  cbn [foldl]. by apply IH, handle_fine.
Qed.

Lemma handle_options source e (t : @tree V) :
  t_options (handle source e t) = t_options t.
Proof.
  destruct e as [i|i|k]; cbn [handle].
  - destruct (List.find (fun n => bool_decide (node_id n = i)) (all_items (nodes t)))
      as [el|] eqn:Hel; [|unfold selectItem; by rewrite Hel].
    by destruct (selectItem_nodes i t el Hel) as (_ & -> & _).
  - unfold selectFolder. destruct (find_in i (nodes t)) as [[|j nm d [] s l [|]]|]; done.
  - destruct (pending t !! k) as [[[i|] d]|]; done.
Qed.
Lemma handle_all_options source es t : t_options (handle_all source es t) = t_options t.
Proof.
  unfold handle_all. revert t. induction es as [|e es IH]; intros t; [done|].
  cbn [foldl]. by rewrite IH, handle_options.
Qed.

(** * Loading *)

Lemma find_folder_unfold i j nm d o s l c :
  find_folder i (@Folder V j nm d o s l c)
  = if decide (i = j) then Some (Folder j nm d o s l c) else find_in i c.
Proof.
  cbn [find_folder]. case_decide; [done|]. induction c as [|m c IH]; [done|].
  cbn [find_in]. by destruct (find_folder i m).
Qed.

Lemma find_in_update i f ns :
  (forall nm d o s l c, exists nm' d' o' s' l' c',
     f (Folder i nm d o s l c) = Folder i nm' d' o' s' l' c') ->
  find_in i (map (update_folder i f) ns) = f <$> find_in i ns.
Proof.
  intros Hf.
  assert (Hall : forall c, Forall (fun n => find_folder i (update_folder i f n) = f <$> find_folder i n) c ->
    find_in i (map (update_folder i f) c) = f <$> find_in i c).
  { induction 1 as [|m c Hm _ IH]; [done|]. cbn [map find_in]. rewrite Hm.
    by destruct (find_folder i m). }
  apply Hall, Forall_forall. intros n _.
  induction n as [j nm d s|j nm d o s l c IH] using node_nested_ind; [done|].
  cbn [update_folder]. rewrite find_folder_unfold. case_decide; subst.
  - change (f <$> Some ?x) with (Some (f x)).
    destruct (Hf nm d o s l c) as (nm' & d' & o' & s' & l' & c' & ->).
    rewrite find_folder_unfold. by rewrite decide_True.
  - rewrite find_folder_unfold, decide_False by done. by apply Hall.
Qed.

Ltac folder_shape := intros; by repeat eexists.

(** What the two clicks and the answer do to folder [i]. *)
Lemma open_empty i nm d s l t :
  find_in i (nodes t) = Some (Folder i nm d false s l []) ->
  find_in i (nodes (selectFolder i t)) = Some (Folder i nm d true s true [])
  /\ pending (selectFolder i t) = pending t ++ [(Some i, Some d)]
  /\ t_options (selectFolder i t) = t_options t /\ next_id (selectFolder i t) = next_id t.
Proof.
  intros H. unfold selectFolder. rewrite H. split; [|done].
  cbn [trigger populate].
  match goal with |- find_in i (nodes (trigger _ (set nodes (map (update_folder i ?g)) ?x))) = _ =>
    change (find_in i (map (update_folder i g) (nodes x)) = Some (Folder i nm d true s true [])) end.
  rewrite find_in_update by folder_shape.
  match goal with |- _ <$> find_in i (nodes (set pending _ (set nodes (map (update_folder i ?g)) t))) = _ =>
    change (find_in i (nodes (set pending _ (set nodes _ t))))
      with (find_in i (map (update_folder i g) (nodes t))) end.
  rewrite find_in_update by folder_shape. by rewrite H.
Qed.

Lemma close_cached i nm d s l c t :
  cacheItems (t_options t) = true ->
  find_in i (nodes t) = Some (Folder i nm d true s l c) ->
  find_in i (nodes (selectFolder i t)) = Some (Folder i nm d false false l c)
  /\ pending (selectFolder i t) = pending t
  /\ t_options (selectFolder i t) = t_options t /\ next_id (selectFolder i t) = next_id t.
Proof.
  intros Hc H. unfold selectFolder. rewrite H, Hc. split; [|done].
  match goal with |- find_in i (nodes (trigger _ (set nodes (map (update_folder i ?g)) ?x))) = _ =>
    change (find_in i (map (update_folder i g) (nodes x)) = Some (Folder i nm d false false l c)) end.
  rewrite find_in_update by folder_shape. by rewrite H.
Qed.

Lemma populated_folder i nm d o s l c es t :
  find_in i (nodes t) = Some (Folder i nm d o s l c) ->
  find_in i (nodes (populated (Some i) es t))
  = Some (Folder i nm d o s false (c ++ make_nodes (next_id t) es))
  /\ next_id (populated (Some i) es t) = next_id t + length es.
Proof.
  intros H. split; [|done]. unfold populated.
  match goal with |- find_in i (nodes (trigger _ (set nodes (map (update_folder i ?g)) ?x))) = _ =>
    change (find_in i (nodes (trigger _ (set nodes _ x))))
      with (find_in i (map (update_folder i g) (nodes t))) end.
  rewrite find_in_update by folder_shape. by rewrite H.
Qed.
End Facts.

(** A folder opened twice before its content has come is filled twice: on an empty
    closed folder, a click, a second click and a third send two requests, and when both
    are answered every entry of the source is in the folder twice. *)
Theorem impatient_folder_filled_twice {V} (source : option V -> list (entity V)) t i nm d s l :
  find_in i (nodes t) = Some (Folder i nm d false s l []) ->
  cacheItems (t_options t) = true -> pending t = [] ->
  let t' := handle_all source [ClickFolder i; ClickFolder i; ClickFolder i; Answer 0; Answer 0] t in
  let es := source (Some d) in
  find_in i (nodes t') = Some (Folder i nm d true false false
    (make_nodes (next_id t) es ++ make_nodes (next_id t + length es) es))
  /\ pending t' = [].
Proof.
  intros H Hc Hp. cbn zeta. unfold handle_all. cbn [foldl handle].
  destruct (open_empty i nm d s l t H) as (F1 & P1 & O1 & N1).
  set (t1 := selectFolder i t) in *.
  destruct (close_cached i nm d s true [] t1) as (F2 & P2 & O2 & N2); [by rewrite O1|done|].
  set (t2 := selectFolder i t1) in *.
  destruct (open_empty i nm d false true t2 F2) as (F3 & P3 & O3 & N3).
  set (t3 := selectFolder i t2) in *.
  rewrite P2, P1, Hp in P3. cbn [app] in P3. rewrite P3. cbn [lookup list_lookup].
  set (t4 := t3 <| pending := _ |>).
  destruct (populated_folder i nm d true false true [] (source (Some d)) t4 F3) as (F5 & N5).
  set (t5 := populated (Some i) (source (Some d)) t4) in *.
  change (pending t5) with [(Some i, Some d)]. cbn [lookup list_lookup].
  set (t6 := t5 <| pending := _ |>).
  destruct (populated_folder i nm d true false false _ (source (Some d)) t6 F5) as (F7 & _).
  split; [|done]. rewrite F7. cbn [app]. change (next_id t6) with (next_id t5).
  change (next_id t4) with (next_id t3) in *. by rewrite N5, N3, N2, N1.
Qed.

(** A tree with single selection never has two items selected: whatever is clicked,
    whatever the source answers and in whatever order the answers come, [selectedItems]
    has at most one element. *)
Theorem single_selection {V} (source : option V -> list (entity V)) o es :
  multiSelect o = false -> length (selectedItems (handle_all source es (Tree_new o))) <= 1.
Proof.
  intros Ho. unfold selectedItems. rewrite length_map, selected_length.
  apply fine_single; [apply handle_all_fine, fine_new|]. by rewrite handle_all_options.
Qed.

(** With multiple selection, a click on an item announces exactly what is selected
    afterwards: in every reachable state the data of the [selected] event is, up to
    order, that of [selectedItems] after the click; when nothing is selected any more
    no event is triggered. *)
Theorem multi_selection_announced {V} (source : option V -> list (entity V)) o es i :
  multiSelect o = true ->
  let t := handle_all source es (Tree_new o) in
  i ∈ map node_id (all_items (nodes t)) ->
  exists info, Permutation info (selectedItems (handle source (ClickItem i) t))
    /\ notices (handle source (ClickItem i) t)
       = notices t ++ match info with [] => [] | _ => [Selected info] end.
Proof.
  intros Ho t Hi. assert (H : fine t) by apply handle_all_fine, fine_new.
  apply list_elem_of_In, in_map_iff in Hi as (el & Hid & Hin).
  destruct (List.find (fun n => bool_decide (node_id n = i)) (all_items (nodes t)))
    as [el'|] eqn:Hf.
  - apply (multi_select_announces i t el'); [done| |done]. unfold t.
    by rewrite handle_all_options.
  - pose proof (find_none _ _ Hf el Hin) as E. cbn in E. by rewrite bool_decide_true in E.
Qed.

(** * Examples *)

Definition sample_source : option nat -> list (entity nat) :=
  DataSourceTree [Entity FolderType (js "docs") 1; Entity ItemType (js "readme") 2;
                  Entity ItemType (js "licence") 3].

Lemma single_selection_witness :
  length (selectedItems (handle_all sample_source [Answer 0; ClickItem 1; ClickItem 2]
    (Tree_new (Options false true)))) <= 1.
Proof.
  apply (single_selection sample_source (Options false true) [Answer 0; ClickItem 1; ClickItem 2]).
  reflexivity.
Defined.

Lemma multi_selection_announced_witness :
  let t := handle_all sample_source [Answer 0; ClickItem 2] (Tree_new (Options true true)) in
  exists info, Permutation info (selectedItems (handle sample_source (ClickItem 1) t))
    /\ notices (handle sample_source (ClickItem 1) t)
       = notices t ++ match info with [] => [] | _ => [Selected info] end.
Proof.
  apply (multi_selection_announced sample_source (Options true true) [Answer 0; ClickItem 2] 1).
  - reflexivity.
  - apply (bool_decide_unpack _). vm_compute. exact I.
Defined.

Lemma impatient_folder_filled_twice_witness :
  let t := handle_all sample_source [Answer 0] (Tree_new (Options false true)) in
  let t' := handle_all sample_source [ClickFolder 0; ClickFolder 0; ClickFolder 0; Answer 0; Answer 0] t in
  find_in 0 (nodes t') = Some (Folder 0 (js "docs") 1 true false false
    (make_nodes 3 (sample_source (Some 1)) ++ make_nodes (3 + 3) (sample_source (Some 1))))
  /\ pending t' = [].
Proof.
  apply (impatient_folder_filled_twice sample_source
    (handle_all sample_source [Answer 0] (Tree_new (Options false true))) 0 (js "docs") 1 true false);
    vm_compute; reflexivity.
Defined.
