(* ===== verification/LogSocket.v ===== *)
(** LogSocket: the live log viewer (js/LogWebSocket.js): a web socket whose messages
    are appended to an element of the page.

    What the browser makes of a text assigned to [innerHTML] is not in the repository:
    [reserialized] is what reading it back gives.  Scrolling is left out. *)

From S2P Require Import Prelude.
From Stdlib Require Import ZArith.
From coqutil Require Import Datatypes.RecordSettersUsingExistingGetters.

Local Open Scope Z_scope.

Record options := Options {
  protocol : jstr;
  uri : jstr;
  server_name : jstr;
  log_type : jstr;
  max_line : Z
}.

(** What the browser offers, and what a handler may end in. *)
Inductive browser := Mozilla | Standard | NoWebSocket.
Inductive outcome (A : Type) := Returned (a : A) | Throws (a : A).
Arguments Returned {A}.
Arguments Throws {A}.

Definition after {A} (o : outcome A) : A := match o with Returned a | Throws a => a end.

Record viewer := Viewer {
  opts : options;
  socket : option jstr;        (* the URL it is connected to *)
  open : bool;
  current_line_count : Z;
  innerHTML : jstr;            (* of the target element, as last assigned *)
  alerted : bool
}.

Definition url (o : options) : jstr :=
  protocol o ++ js "://" ++ uri o ++ js "?serverName=" ++ server_name o
    ++ js "&log_type=" ++ log_type o.

(** [new LogWebSocket(options)] on a page whose element holds [html]. *)
Definition LogWebSocket (b : browser) (o : options) (html : jstr) : viewer :=
  match b with
  | NoWebSocket => Viewer o None false 0 html true
  | Mozilla | Standard => Viewer o (Some (url o)) true 0 html false
  end.

Section Viewer.
Context (reserialized : jstr -> jstr).

(** [el] is declared after its first use: past the limit it is undefined there. *)
Definition appendTextArea (newData : jstr) (v : viewer) : outcome viewer :=
  if bool_decide (current_line_count v > max_line (opts v))
  then Throws v
  else
    let html := reserialized (innerHTML v) ++ js "<br>" ++ newData in
    Returned (v <| innerHTML := html |> <| current_line_count ::= Z.succ |>).

Definition onopen (v : viewer) : outcome viewer :=
  Returned (v <| innerHTML := js "connect to the " ++ server_name (opts v) ++ js "."
                                ++ log_type (opts v) |>).

Definition onmessage (data : jstr) (v : viewer) : outcome viewer := appendTextArea data v.

Definition onclose (v : viewer) : outcome viewer := appendTextArea (js "Web Socket closed") v.

(** [close()] without a socket is a TypeError. *)
Definition close (v : viewer) : outcome viewer :=
  match socket v with
  | Some _ => Returned (v <| open := false |>)
  | None => Throws v
  end.

Inductive event := Opened | Message (data : jstr) | Closed | Close.

Definition handle (e : event) (v : viewer) : outcome viewer :=
  match e with
  | Opened => onopen v
  | Message data => onmessage data v
  | Closed => onclose v
  | Close => close v
  end.

(** An exception in a handler is reported by the browser, and the page goes on. *)
Definition handle_all (es : list event) (v : viewer) : viewer :=
  foldl (fun v e => after (handle e v)) v es.

(** * Properties *)

(** The element after the texts [l] were appended to it. *)
Definition appended (html : jstr) (l : list jstr) : jstr :=
  foldl (fun html d => reserialized html ++ js "<br>" ++ d) html l.

Lemma messages_appended l v :
  current_line_count v + Z.of_nat (length l) <= max_line (opts v) + 1 ->
  innerHTML (handle_all (map Message l) v) = appended (innerHTML v) l
  /\ current_line_count (handle_all (map Message l) v)
     = current_line_count v + Z.of_nat (length l)
  /\ opts (handle_all (map Message l) v) = opts v.
Proof.
  revert v. induction l as [|d l IH]; intros v H; cbn [map length] in *.
  - cbn. split_and!; try done. lia.
  - unfold handle_all in *. cbn [foldl handle]. unfold onmessage, appendTextArea.
    rewrite bool_decide_false by lia. cbn [after].
    set (v1 := v <| innerHTML := _ |> <| current_line_count ::= Z.succ |>).
    destruct (IH v1) as (H1 & H2 & H3).
    { change (current_line_count v1) with (Z.succ (current_line_count v)).
      change (opts v1) with (opts v). lia. }
    rewrite H1, H2, H3. split; [done|]. split; [|done].
    change (current_line_count v1) with (Z.succ (current_line_count v)). lia.
Qed.

Lemma full_viewer_frozen es v :
  current_line_count v > max_line (opts v) ->
  Forall (fun e => e ≠ Opened) es ->
  innerHTML (handle_all es v) = innerHTML v
  /\ current_line_count (handle_all es v) = current_line_count v
  /\ opts (handle_all es v) = opts v.
Proof.
  intros H Hes. revert v H. unfold handle_all.
  induction Hes as [|e es He Hes IH]; intros v H; [done|]. cbn [foldl].
  assert (Hsame : innerHTML (after (handle e v)) = innerHTML v
    /\ current_line_count (after (handle e v)) = current_line_count v
    /\ opts (after (handle e v)) = opts v).
  { destruct e as [|d| |]; [done| | |].
    - cbn [handle]. unfold onmessage, appendTextArea. by rewrite bool_decide_true.
    - cbn [handle]. unfold onclose, appendTextArea. by rewrite bool_decide_true.
    - cbn [handle]. unfold close. by destruct (socket v). }
  destruct Hsame as (H1 & H2 & H3). destruct (IH (after (handle e v))) as (I1 & I2 & I3).
  { by rewrite H2, H3. }
  by rewrite I1, I2, I3.
Qed.
End Viewer.

(** The log stops at its limit instead of starting over: the first [max_line + 1]
    messages are appended one below the other, and from then on every message, and the
    notice that the socket was closed, ends in an exception and leaves the page as it
    is, however many come. *)
Theorem log_stops_at_limit reserialized b o html l es :
  b ≠ NoWebSocket -> 0 <= max_line o -> Z.of_nat (length l) = max_line o + 1 ->
  Forall (fun e => e ≠ Opened) es ->
  let v := handle_all reserialized (Opened :: map Message l) (LogWebSocket b o html) in
  innerHTML v = appended reserialized
    (js "connect to the " ++ server_name o ++ js "." ++ log_type o) l
  /\ (forall d, handle reserialized (Message d) v = Throws v)
  /\ innerHTML (handle_all reserialized es v) = innerHTML v.
Proof.
  intros Hb Hm Hl Hes v. set (v0 := after (onopen (LogWebSocket b o html))).
  assert (H0 : current_line_count v0 = 0 /\ opts v0 = o
    /\ innerHTML v0 = js "connect to the " ++ server_name o ++ js "." ++ log_type o)
    by (by destruct b).
  destruct H0 as (C0 & O0 & I0).
  destruct (messages_appended reserialized l v0) as (H1 & H2 & H3); [rewrite C0, O0; lia|].
  assert (Hv : v = handle_all reserialized (map Message l) v0) by done.
  rewrite <- Hv in H1, H2, H3. clear Hv. clearbody v.
  assert (Hfull : current_line_count v > max_line (opts v)) by (rewrite H2, H3, C0, O0; lia).
  split; [by rewrite H1, I0|]. split.
  - intros d. cbn [handle]. unfold onmessage, appendTextArea. by rewrite bool_decide_true.
  - by apply full_viewer_frozen.
Qed.

Lemma log_stops_at_limit_witness :
  let o := Options (js "ws") (js "host/log") (js "api") (js "info") 1 in
  let v := handle_all id (Opened :: map Message [js "a"; js "b"]) (LogWebSocket Standard o []) in
  innerHTML v = appended id (js "connect to the " ++ js "api" ++ js "." ++ js "info")
    [js "a"; js "b"]
  /\ (forall d, handle id (Message d) v = Throws v)
  /\ innerHTML (handle_all id [Message (js "c"); Closed] v) = innerHTML v.
Proof.
  apply (log_stops_at_limit id Standard (Options (js "ws") (js "host/log") (js "api") (js "info") 1)
    [] [js "a"; js "b"] [Message (js "c"); Closed]).
  - discriminate.
  - cbn. lia.
  - reflexivity.
  - repeat constructor; discriminate.
Defined.
