(* ===== verification/Cookie.v ===== *)
(** Cookie: the cookie plugin (js/jquery.cookie.js) - reading, writing and removing
    cookies through [document.cookie].

    The browser behind [document.cookie], its clock and the [JSON] object are not in
    the repository: they are the class [Browser], and [CookieJar] states what the
    plugin relies on of a page whose cookies all have the page's own path and domain
    (RFC 6265: setting replaces by name, an expiry date in the past removes, reading
    lists the pairs separated by a semicolon and a space). *)

From S2P Require Import Prelude Uri.
From coqutil Require Import Datatypes.RecordSettersUsingExistingGetters.

Class Browser := {
  jar : Type;
  date : Type;
  document_cookie : jar -> jstr;
  set_document_cookie : jstr -> jar -> jar;
  days_from_now : jar -> Z -> date;
  toUTCString : date -> jstr;
  value : Type;                         (* the language's values *)
  text : jstr -> value;                 (* a string as a value *)
  String_of : value -> jstr;
  JSON_stringify : value -> jstr;
  JSON_parse : jstr -> option value     (* None: it throws *)
}.

Section Cookie.
Context {B : Browser}.

Inductive expiry := Days (n : Z) | At (d : date).

(** The options of a write: absent is [None]. *)
Record attributes := Attributes {
  expires : option expiry;
  path : option jstr;
  domain : option jstr;
  secure : option bool
}.

Definition no_attributes : attributes := Attributes None None None None.

Record config := Config { raw_mode : bool; json_mode : bool; defaults : attributes }.

(** What a read gives back. *)
Inductive outcome := Throws | Undefined | Found (v : value).

Definition raw (s : jstr) : option jstr := Some s.

(** [s.replace(/\+/g, ' ')]. *)
Definition pluses (s : jstr) : jstr := map (fun c => if decide (c = 43%N) then 32%N else c) s.

Definition decoded (s : jstr) : option jstr := decodeURIComponent (pluses s).

(** [.replace(/\\Q/g, r)] for an escaped character [q], replacing [\q] by [q]. *)
Fixpoint unescape (q : N) (s : jstr) : jstr :=
  match s with
  | c :: s' =>
      match s' with
      | d :: s'' => if decide (c = backslash /\ d = q) then q :: unescape q s''
                    else c :: unescape q s'
      | [] => [c]
      end
  | [] => []
  end.

(** [s.slice(1, -1)]. *)
Definition inner (s : jstr) : jstr := drop 1 (but_last s).

Definition unquoted (s : jstr) : jstr :=
  if first_is dquote s then unescape backslash (unescape dquote (inner s)) else s.

Definition converted (c : config) (s : jstr) : outcome :=
  let s := unquoted s in
  if json_mode c
  then match JSON_parse s with Some v => Found v | None => Undefined end
  else Found (text s).

(** [$.extend({}, config.defaults, options)]. *)
Definition extend (d o : attributes) : attributes :=
  let pick {A} (f : attributes -> option A) := match f o with Some x => Some x | None => f d end in
  Attributes (pick expires) (pick path) (pick domain) (pick secure).

(** A number of days becomes the date that many days from now. *)
Definition expiry_date (j : jar) (e : expiry) : date :=
  match e with Days n => days_from_now j n | At d => d end.

Definition serialized (c : config) (v : value) : jstr :=
  if json_mode c then JSON_stringify v else String_of v.

Definition attribute_text (j : jar) (o : attributes) : jstr :=
  (match expires o with
   | Some e => js "; expires=" ++ toUTCString (expiry_date j e) | None => [] end)
  ++ (if truthy (path o) then js "; path=" ++ default [] (path o) else [])
  ++ (if truthy (domain o) then js "; domain=" ++ default [] (domain o) else [])
  ++ (if truthy (secure o) then js "; secure" else []).

Definition encode (c : config) (s : jstr) : option jstr :=
  if raw_mode c then Some s else encodeURIComponent s.

(** [$.cookie(key, value, options)] with a value: [None] when encoding throws. *)
Definition write (c : config) (key : jstr) (v : value) (o : attributes) (j : jar)
  : option jar :=
  let o := extend (defaults c) o in
  k ← encode c key;
  w ← encode c (serialized c v);
  Some (set_document_cookie (k ++ js "=" ++ w ++ attribute_text j o) j).

(** [document.cookie.split('; ')]. *)
Fixpoint split_pairs (s : jstr) : list jstr :=
  match s with
  | [] => [[]]
  | c :: s' =>
      match s' with
      | d :: s'' =>
          if decide (c = 59%N /\ d = 32%N) then [] :: split_pairs s''
          else match split_pairs s' with
               | p :: ps => (c :: p) :: ps
               | [] => [[c]]
               end
      | [] => [[c]]
      end
  end.

Definition decode (c : config) (s : jstr) : option jstr :=
  if raw_mode c then raw s else decoded s.

(** The name and the value of one pair: everything after the first equals sign. *)
Definition name_and_value (c : config) (cookie : jstr) : option (jstr * jstr) :=
  let parts := split 61%N cookie in
  name ← decode c (default [] (head parts));
  value ← decode c (join (js "=") (tail parts));
  Some (name, value).

(** The loop of a read with a key. *)
Fixpoint read_loop (c : config) (key : jstr) (cookies : list jstr) : outcome :=
  match cookies with
  | [] => Undefined
  | cookie :: cookies =>
      match name_and_value c cookie with
      | None => Throws
      | Some (name, v) =>
          if decide (key = name) then converted c v else read_loop c key cookies
      end
  end.

(** [$.cookie(key)] for a key that is not empty. *)
Definition read (c : config) (key : jstr) (j : jar) : outcome :=
  read_loop c key (split_pairs (document_cookie j)).

(** [$.cookie()]: an object with every cookie, a later pair overriding an earlier
    one of the same name; [None] when it throws. *)
Fixpoint read_all_loop (c : config) (cookies : list jstr) (result : gmap jstr outcome)
  : option (gmap jstr outcome) :=
  match cookies with
  | [] => Some result
  | cookie :: cookies =>
      nv ← name_and_value c cookie;
      read_all_loop c cookies (<[nv.1 := converted c nv.2]> result)
  end.

Definition read_all (c : config) (j : jar) : option (gmap jstr outcome) :=
  read_all_loop c (split_pairs (document_cookie j)) ∅.

(** [$.removeCookie(key, options)] for a key that is not empty: the result, and the
    jar; [None] when it throws. *)
Definition removeCookie (c : config) (key : jstr) (o : attributes) (j : jar)
  : option (bool * jar) :=
  match read c key j with
  | Throws => None
  | Undefined => Some (false, j)
  | Found _ =>
      j' ← write c key (text []) (o <| expires := Some (Days (-1)) |>) j;
      Some (true, j')
  end.
End Cookie.

(** What a page's cookies are, for a page whose cookies have its own path and domain. *)
Definition pair_text (p : jstr * jstr) : jstr := p.1 ++ js "=" ++ p.2.

(** A name or value as the plugin writes it. *)
Definition plain_text (s : jstr) : bool := forallb uri_char s.

Fixpoint upsert (k v : jstr) (l : list (jstr * jstr)) : list (jstr * jstr) :=
  match l with
  | [] => [(k, v)]
  | (k', v') :: l => if decide (k = k') then (k, v) :: l else (k', v') :: upsert k v l
  end.

Class CookieJar (B : Browser) := {
  pairs : jar -> list (jstr * jstr);
  document_cookie_pairs j : document_cookie j = join (js "; ") (map pair_text (pairs j));
  pairs_clean j : Forall (fun p => (61%N ∉ p.1) /\ (59%N ∉ p.1) /\ (59%N ∉ p.2)) (pairs j);
  set_pair j k v :
    plain_text k = true -> k ≠ [] -> plain_text v = true ->
    pairs (set_document_cookie (k ++ js "=" ++ v) j) = upsert k v (pairs j);
  set_past j k v :
    plain_text k = true -> k ≠ [] -> plain_text v = true ->
    pairs (set_document_cookie
      (k ++ js "=" ++ v ++ js "; expires=" ++ toUTCString (days_from_now j (-1))) j)
    = List.filter (fun p => negb (bool_decide (p.1 = k))) (pairs j)
}.
