(* ===== verification/CookieFacts.v ===== *)
(** CookieFacts: a cookie reads back as it was written, is removed when asked, and
    the texts for which neither holds. *)

From S2P Require Import Prelude Uri Cookie.
From coqutil Require Import Datatypes.RecordSettersUsingExistingGetters.

(** * Splitting [document.cookie] *)

Lemma split_pairs_not_nil s : split_pairs s ≠ [].
Proof.
  remember (length s) as n eqn:Hn. revert s Hn.
  induction n as [n IH] using lt_wf_ind. intros [|c [|d s]] Hn; try done.
  cbn [split_pairs]. case_decide; [done|].
  change (match split_pairs (d :: s) with p :: ps => (c :: p) :: ps | [] => [[c]] end ≠ []).
  by destruct (split_pairs (d :: s)).
Qed.

Lemma split_pairs_cons c s :
  c ≠ 59%N -> split_pairs (c :: s)
    = match split_pairs s with p :: ps => (c :: p) :: ps | [] => [[c]] end.
Proof. intros Hc. destruct s as [|d s]; [done|]. cbn [split_pairs]. by rewrite decide_False by tauto. Qed.

Lemma split_pairs_clean s : 59%N ∉ s -> split_pairs s = [s].
Proof.
  induction s as [|c s IH]; intros H; [done|]. apply not_elem_of_cons in H as [Hc Hs].
  rewrite split_pairs_cons by done. by rewrite IH.
Qed.

Lemma split_pairs_app p s :
  59%N ∉ p -> split_pairs (p ++ js "; " ++ s) = p :: split_pairs s.
Proof.
  induction p as [|c p IH]; intros H; [done|]. apply not_elem_of_cons in H as [Hc Hs].
  cbn [app]. rewrite split_pairs_cons by done. by rewrite IH.
Qed.

Lemma split_pairs_join l :
  Forall (fun p => 59%N ∉ p) l -> l ≠ [] -> split_pairs (join (js "; ") l) = l.
Proof.
  induction 1 as [|p l Hp Hl IH]; intros Hne; [done|]. destruct l as [|q l].
  - by apply split_pairs_clean.
  - rewrite join_cons by done. rewrite split_pairs_app by done. by rewrite IH.
Qed.

(** * Texts as the plugin writes them *)

Lemma uri_char_not c : uri_char c = true -> c ≠ 59%N /\ c ≠ 61%N /\ c ≠ 43%N.
Proof. intros H. repeat split; intros ->; done. Qed.

Lemma plain_text_clean s :
  plain_text s = true -> (59%N ∉ s) /\ (61%N ∉ s) /\ pluses s = s.
Proof.
  unfold plain_text. induction s as [|c s IH]; cbn [forallb]; [intros _; split_and!; set_solver|].
  intros [Hc Hs]%andb_true_iff. destruct (uri_char_not c Hc) as (H1 & H2 & H3).
  destruct (IH Hs) as (I1 & I2 & I3). split; [set_solver|]. split; [set_solver|].
  unfold pluses in *. cbn [map]. rewrite decide_False by done. by rewrite I3.
Qed.

Lemma encoded_not_empty key k :
  well_formed key = true -> key ≠ [] -> encodeURIComponent key = Some k -> k ≠ [].
Proof.
  intros Hw Hne Hk ->. destruct (encode_decode key Hw) as (e & He & Hd & _).
  rewrite Hk in He. injection He as <-. change (Some [] = Some key) in Hd. congruence.
Qed.

Section Facts.
Context {B : Browser} {J : CookieJar B}.

Definition plain_mode (c : config) : Prop := raw_mode c = false /\ defaults c = no_attributes.

Lemma name_and_value_pair c k v :
  raw_mode c = false -> 61%N ∉ k ->
  name_and_value c (pair_text (k, v))
  = (name ← decoded k; value ← decoded v; Some (name, value)).
Proof.
  intros Hr Hk. unfold name_and_value, pair_text, decode. rewrite Hr.
  change (js "=") with [61%N]. cbn [fst snd app].
  rewrite split_app_sep by done. cbn [head tail default]. by rewrite join_split.
Qed.

Lemma name_and_value_written c key s k w :
  raw_mode c = false -> encodeURIComponent key = Some k -> encodeURIComponent s = Some w ->
  well_formed key = true -> well_formed s = true ->
  plain_text k = true /\ plain_text w = true
  /\ name_and_value c (pair_text (k, w)) = Some (key, s).
Proof.
  intros Hr Hk Hw Hwk Hws.
  destruct (encode_decode key Hwk) as (k' & Hk' & Hdk & Hck).
  destruct (encode_decode s Hws) as (w' & Hw' & Hdw & Hcw). simplify_eq.
  split; [done|]. split; [done|].
  destruct (plain_text_clean k Hck) as (_ & H61 & Hpk).
  destruct (plain_text_clean w Hcw) as (_ & _ & Hpw).
  rewrite name_and_value_pair by done. unfold decoded. rewrite Hpk, Hpw, Hdk, Hdw. done.
Qed.

Lemma pair_text_clean j : Forall (fun p => 59%N ∉ p) (map pair_text (pairs j)).
Proof.
  apply List.Forall_map. eapply Forall_impl; [apply pairs_clean|].
  intros [k v] (_ & H1 & H2). unfold pair_text; cbn in *. set_solver.
Qed.

(** A read goes through the pairs of the jar; a jar without any shows one empty pair. *)
Lemma read_pairs c key j :
  pairs j ≠ [] -> read c key j = read_loop c key (map pair_text (pairs j)).
Proof.
  intros H. unfold read. rewrite document_cookie_pairs, split_pairs_join; [done| |].
  - apply pair_text_clean.
  - by destruct (pairs j).
Qed.

Lemma read_no_pairs c key j : pairs j = [] -> key ≠ [] -> read c key j = Undefined.
Proof.
  intros H Hk. unfold read. rewrite document_cookie_pairs, H. cbn.
  unfold name_and_value, decode, raw. destruct (raw_mode c); cbn; by rewrite decide_False.
Qed.

Lemma read_loop_pairs c key j :
  key ≠ [] -> read c key j = read_loop c key (map pair_text (pairs j)).
Proof.
  intros Hk. destruct (decide (pairs j = [])) as [E|E]; [|by apply read_pairs].
  rewrite read_no_pairs by done. by rewrite E.
Qed.

(** Every pair can be decoded, and only the name [key] is written as spells [key]. *)
Definition readable (c : config) (key : jstr) (p : jstr * jstr) : Prop :=
  exists name v, name_and_value c (pair_text p) = Some (name, v)
    /\ (name = key -> encodeURIComponent key = Some p.1).

Lemma read_upsert c key k w s l :
  encodeURIComponent key = Some k ->
  name_and_value c (pair_text (k, w)) = Some (key, s) ->
  Forall (readable c key) l ->
  read_loop c key (map pair_text (upsert k w l)) = converted c s.
Proof.
  intros Hk Hn. induction 1 as [|[k' v'] l (name & v & Hp & Hcan) Hl IH].
  - cbn [upsert map read_loop]. rewrite Hn. by rewrite decide_True.
  - cbn [upsert]. case_decide as Hkk; subst; cbn [map read_loop].
    + rewrite Hn. by rewrite decide_True.
    + rewrite Hp. rewrite decide_False; [done|]. intros <-.
      rewrite Hcan in Hk by done. by simplify_eq.
Qed.

Lemma read_upsert_other c key k w s l key' :
  name_and_value c (pair_text (k, w)) = Some (key, s) -> key' ≠ key ->
  (forall v, (k, v) ∈ l -> exists s', name_and_value c (pair_text (k, v)) = Some (key, s')) ->
  read_loop c key' (map pair_text (upsert k w l)) = read_loop c key' (map pair_text l).
Proof.
  intros Hn Hne. induction l as [|[k' v'] l IH]; intros Hl.
  - cbn [upsert map read_loop]. rewrite Hn. by rewrite decide_False.
  - cbn [upsert]. case_decide as Hkk; subst; cbn [map read_loop].
    + destruct (Hl v' (list_elem_of_here _ _)) as [s' Hs']. rewrite Hn, Hs'. by rewrite !decide_False.
    + destruct (name_and_value c (pair_text (k', v'))) as [[name v]|]; [|done].
      case_decide; [done|]. apply IH. intros v2 H2. apply Hl. by apply list_elem_of_further.
Qed.

Lemma write_plain c key v j k w :
  plain_mode c -> encodeURIComponent key = Some k ->
  encodeURIComponent (serialized c v) = Some w ->
  write c key v no_attributes j = Some (set_document_cookie (k ++ js "=" ++ w) j).
Proof.
  intros [Hr Hd] Hk Hw. unfold write, encode. rewrite Hr, Hd, Hk, Hw. cbn.
  by rewrite app_nil_r.
Qed.

(** C15. A cookie reads back as it was written.  In plain mode (not raw, no default
    attributes, none given), for a non-empty key and a value whose texts are
    well-formed, where the value's text does not start with a quotation mark and
    determines the value (by [JSON.parse] in JSON mode; the texts of strings do
    start with one there, and are lost), in a jar all of whose cookies decode and
    that holds the key only under its encoded name: whatever characters key and
    value are made of, the write succeeds, a read of the key gives the value back,
    and every other key reads as before. *)
Theorem written_cookie_reads_back c key v j :
  plain_mode c -> key ≠ [] -> well_formed key = true ->
  well_formed (serialized c v) = true -> first_is dquote (serialized c v) = false ->
  (if json_mode c then JSON_parse (serialized c v) = Some v else text (serialized c v) = v) ->
  Forall (readable c key) (pairs j) ->
  exists j', write c key v no_attributes j = Some j' /\ read c key j' = Found v
    /\ forall key', key' ≠ key -> key' ≠ [] ->
         (forall k s, encodeURIComponent key = Some k -> (k, s) ∈ pairs j ->
            exists s', name_and_value c (pair_text (k, s)) = Some (key, s')) ->
         read c key' j' = read c key' j.
Proof.
  intros Hc Hne Hwk Hws Hq Hback Hall.
  destruct (encode_decode key Hwk) as (k & Hk & _ & _).
  destruct (encode_decode (serialized c v) Hws) as (w & Hw & _ & _).
  destruct (name_and_value_written c key _ k w (proj1 Hc) Hk Hw Hwk Hws) as (Pk & Pw & Hn).
  pose proof (encoded_not_empty key k Hwk Hne Hk).
  exists (set_document_cookie (k ++ js "=" ++ w) j). split; [by apply write_plain|].
  split.
  - rewrite read_loop_pairs, set_pair by done.
    rewrite (read_upsert c key k w (serialized c v)) by done.
    unfold converted, unquoted. rewrite Hq. destruct (json_mode c); by rewrite Hback.
  - intros key' Hk' Hne' Hl. rewrite !read_loop_pairs, set_pair by done.
    apply (read_upsert_other c key k w (serialized c v)); [done|done|].
    intros s Hs. by apply (Hl k s).
Qed.

Lemma unescape_plain q s : backslash ∉ s -> unescape q s = s.
Proof.
  remember (length s) as n eqn:Hn. revert s Hn.
  induction n as [n IH] using lt_wf_ind. intros [|c [|d s]] Hn H; [done|done|].
  cbn [unescape]. rewrite decide_False; [|intros [-> _]; set_solver].
  change (c :: unescape q (d :: s) = c :: d :: s). f_equal.
  eapply (IH (length (d :: s))); [cbn in *; lia|done|set_solver].
Qed.

(** In JSON mode a string cannot be stored: its JSON text is quoted, the reader
    takes the quotation marks off as if they were a quoted cookie's before it parses,
    and what is left is no JSON text; so a read of the key just written gives
    undefined, and removing the cookie does nothing and answers false. *)
Theorem json_string_lost c key s j :
  plain_mode c -> json_mode c = true -> key ≠ [] -> well_formed key = true ->
  well_formed s = true -> (backslash ∉ s) ->
  JSON_stringify (text s) = [dquote] ++ s ++ [dquote] -> JSON_parse s = None ->
  Forall (readable c key) (pairs j) ->
  exists j', write c key (text s) no_attributes j = Some j'
    /\ read c key j' = Undefined
    /\ removeCookie c key no_attributes j' = Some (false, j').
Proof.
  intros Hc Hj Hne Hwk Hs Hb Hst Hp Hall.
  set (q := [dquote] ++ s ++ [dquote]) in *.
  assert (Hser : serialized c (text s) = q) by (unfold serialized; by rewrite Hj).
  assert (Hwq : well_formed q = true).
  { unfold q. clear -Hs. cbn. revert Hs. remember (length s) as n eqn:Hn. revert s Hn.
    induction n as [n IH] using lt_wf_ind. intros [|x s] Hn; [done|]. cbn [well_formed app].
    destruct (is_low x); [done|]. destruct (is_high x).
    - destruct s as [|d s]; [done|]. cbn [app]. intros [-> Hs]%andb_true_iff.
      eapply (IH (length s)); [cbn in *; lia|done|done].
    - intros [-> Hs]%andb_true_iff. eapply (IH (length s)); [cbn in *; lia|done|done]. }
  destruct (encode_decode key Hwk) as (k & Hk & Hdk & _).
  destruct (encode_decode q Hwq) as (w & Hw & _ & _).
  destruct (name_and_value_written c key q k w (proj1 Hc) Hk Hw Hwk Hwq) as (Pk & Pw & Hn).
  pose proof (encoded_not_empty key k Hwk Hne Hk).
  assert (Hread : read c key (set_document_cookie (k ++ js "=" ++ w) j) = Undefined).
  { rewrite read_loop_pairs, set_pair by done. rewrite (read_upsert c key k w q) by done.
    unfold converted. rewrite Hj. replace (unquoted q) with s; [by rewrite Hp|].
    unfold unquoted, q, inner. cbn [app first_is]. rewrite bool_decide_true by done.
    change (dquote :: s ++ [dquote]) with ((dquote :: s) ++ [dquote]).
    rewrite but_last_snoc. cbn [drop]. by rewrite drop_0, !unescape_plain by
      (rewrite ?unescape_plain by done; done). }
  eexists. split; [apply write_plain; [done|done|by rewrite Hser]|].
  split; [exact Hread|]. unfold removeCookie. by rewrite Hread.
Qed.

Lemma read_removed c key l k :
  encodeURIComponent key = Some k -> Forall (readable c key) l ->
  read_loop c key (map pair_text (List.filter (fun p => negb (bool_decide (p.1 = k))) l))
  = Undefined.
Proof.
  intros Hk. induction 1 as [|[k' v'] l (name & v & Hp & Hcan) Hl IH]; [done|].
  cbn [List.filter fst]. case_bool_decide as Hkk; [done|]. cbn [negb map read_loop].
  rewrite Hp. rewrite decide_False; [done|]. intros <-. rewrite Hcan in Hk by done.
  by simplify_eq.
Qed.

(** Removing a cookie that can be read answers true and leaves the key undefined;
    removing one that is undefined answers false and leaves the jar alone. *)
Theorem removeCookie_removes c key j :
  plain_mode c -> key ≠ [] -> well_formed key = true ->
  well_formed (serialized c (text [])) = true ->
  Forall (readable c key) (pairs j) ->
  match read c key j with
  | Found _ => exists j', removeCookie c key no_attributes j = Some (true, j')
                 /\ read c key j' = Undefined
  | Undefined => removeCookie c key no_attributes j = Some (false, j)
  | Throws => False
  end.
Proof.
  intros [Hr Hd] Hne Hwk Hwe Hall.
  destruct (read c key j) eqn:Hread.
  - rewrite read_loop_pairs in Hread by done. clear -Hread Hall.
    induction Hall as [|p l (name & v & Hp & _) Hl IH]; [done|].
    cbn [map read_loop] in Hread. rewrite Hp in Hread. case_decide; [|by apply IH].
    unfold converted in Hread. destruct (json_mode c); [|done]. by destruct (JSON_parse _).
  - unfold removeCookie. by rewrite Hread.
  - destruct (encode_decode key Hwk) as (k & Hk & Hdk & Pk).
    destruct (encode_decode _ Hwe) as (w & Hw & _ & Pw).
    pose proof (encoded_not_empty key k Hwk Hne Hk).
    unfold removeCookie. rewrite Hread. unfold write, encode. rewrite Hr, Hd, Hk, Hw.
    cbn [mbind option_bind]. eexists. split; [reflexivity|].
    change (attribute_text j _) with (js "; expires=" ++ toUTCString (days_from_now j (-1)) ++ []).
    rewrite app_nil_r, read_loop_pairs, set_past by done. by apply read_removed.
Qed.
End Facts.

(** * A concrete browser, for the examples *)

Definition clean_pair (p : jstr * jstr) : bool :=
  negb (has_char 61 p.1) && negb (has_char 59 p.1) && negb (has_char 59 p.2).

(** Name, value and attributes of a cookie string. *)
Definition parse_cookie (s : jstr) : (jstr * jstr) * jstr :=
  let cut c s := match index_of c s with
                 | Some i => (take i s, drop (S i) s)
                 | None => (s, [])
                 end in
  let (nv, attrs) := cut 59%N s in (cut 61%N nv, attrs).

Definition toy_set (s : jstr) (l : list (jstr * jstr)) : list (jstr * jstr) :=
  let l := List.filter clean_pair l in
  let '((k, v), attrs) := parse_cookie s in
  if contains (js "=past") attrs then List.filter (fun p => negb (bool_decide (p.1 = k))) l
  else upsert k v l.

(** Dates are only past or not; a JSON value is a string or a number. *)
#[local] Instance toy_browser : Browser := {|
  jar := list (jstr * jstr);
  date := bool;
  document_cookie l := join (js "; ") (map pair_text (List.filter clean_pair l));
  set_document_cookie := toy_set;
  days_from_now _ n := bool_decide (n < 0)%Z;
  toUTCString past := js (if past : bool then "past" else "future");
  value := jstr;
  text s := s;
  String_of s := s;
  JSON_stringify s := [dquote] ++ s ++ [dquote];
  JSON_parse s := if first_is dquote s then Some (inner s) else None
|}.

Lemma clean_pair_spec p :
  clean_pair p = true <-> (61%N ∉ p.1) /\ (59%N ∉ p.1) /\ (59%N ∉ p.2).
Proof.
  unfold clean_pair, has_char. rewrite !andb_true_iff, !negb_true_iff, !bool_decide_eq_false.
  tauto.
Qed.

Lemma filter_clean_upsert k v l :
  clean_pair (k, v) = true -> forallb clean_pair l = true ->
  List.filter clean_pair (upsert k v l) = upsert k v l.
Proof.
  intros Hk. induction l as [|[k' v'] l IH]; cbn [upsert forallb List.filter].
  - by rewrite Hk.
  - intros [Hc Hl]%andb_true_iff. case_decide; cbn [List.filter].
    + rewrite Hk. f_equal. clear -Hl. induction l as [|p l IH]; [done|].
      cbn in *. apply andb_true_iff in Hl as [-> Hl]. f_equal. by apply IH.
    + rewrite Hc. f_equal. by apply IH.
Qed.

Lemma forallb_filter {A} (f : A -> bool) l : forallb f (List.filter f l) = true.
Proof. induction l as [|x l IH]; cbn; [done|]. destruct (f x) eqn:E; cbn; rewrite ?E; done. Qed.

Lemma filter_forallb {A} (f : A -> bool) l : forallb f l = true -> List.filter f l = l.
Proof.
  induction l as [|x l IH]; cbn; [done|]. intros [-> H]%andb_true_iff. f_equal. by apply IH.
Qed.

Lemma forallb_subfilter {A} (f g : A -> bool) l :
  forallb f l = true -> forallb f (List.filter g l) = true.
Proof.
  induction l as [|x l IH]; cbn; [done|]. intros [Hx H]%andb_true_iff.
  destruct (g x); cbn; rewrite ?Hx; auto.
Qed.

Lemma drop_past_char (k : jstr) c v : drop (S (length k)) (k ++ c :: v) = v.
Proof. induction k as [|x k IH]; [done|exact IH]. Qed.

Lemma parse_cookie_pair k v attrs :
  plain_text k = true -> plain_text v = true -> (attrs = [] \/ first_is 59 attrs = true) ->
  parse_cookie (k ++ js "=" ++ v ++ attrs) = ((k, v), drop 1 attrs).
Proof.
  intros Hk Hv Ha. destruct (plain_text_clean k Hk) as (K1 & K2 & _).
  destruct (plain_text_clean v Hv) as (V1 & V2 & _).
  assert (H59 : 59%N ∉ k ++ js "=" ++ v) by (cbn; set_solver).
  assert (Hcut : forall t, index_of 61 (k ++ js "=" ++ t) = Some (length k))
    by (intros t; by apply index_of_app).
  destruct attrs as [|a attrs].
  - rewrite app_nil_r. unfold parse_cookie.
    rewrite (proj2 (index_of_None _ _) H59), Hcut, take_app_length.
    change (js "=" ++ v) with (61%N :: v). by rewrite drop_past_char.
  - destruct Ha as [Ha|Ha]; [done|]. cbn in Ha. apply bool_decide_eq_true in Ha as ->.
    unfold parse_cookie. replace (k ++ js "=" ++ v ++ 59%N :: attrs)
      with ((k ++ js "=" ++ v) ++ 59%N :: attrs) by by rewrite <- !app_assoc.
    rewrite index_of_app by done. rewrite take_app_length, Hcut, take_app_length.
    rewrite drop_past_char.
    change (js "=" ++ v) with (61%N :: v). by rewrite drop_past_char.
Qed.

#[local] Instance toy_jar : CookieJar toy_browser.
Proof.
  refine {| pairs := List.filter clean_pair : jar -> _ |}.
  - done.
  - intros j. apply Forall_forall. intros p Hp. apply clean_pair_spec.
    apply list_elem_of_In, filter_In in Hp. tauto.
  - intros j k v Hk Hne Hv. cbn [set_document_cookie toy_browser]. unfold toy_set.
    pose proof (parse_cookie_pair k v [] Hk Hv (or_introl eq_refl)) as Hp.
    rewrite app_nil_r in Hp. rewrite Hp. cbn [drop contains starts_with js orb].
    apply filter_clean_upsert; [|apply forallb_filter]. apply clean_pair_spec.
    pose proof (plain_text_clean k Hk). pose proof (plain_text_clean v Hv). tauto.
  - intros j k v Hk Hne Hv. cbn [set_document_cookie toy_browser]. unfold toy_set.
    change (js "; expires=" ++ _) with (js "; expires=past").
    rewrite (parse_cookie_pair k v (js "; expires=past") Hk Hv (or_intror eq_refl)).
    change (contains _ _) with true.
    apply filter_forallb, forallb_subfilter, forallb_filter.
Defined.

Definition toy_config (json : bool) : config := Config false json no_attributes.

Definition toy_pairs : jar := [(js "theme", js "dark"); (js "a%20b", js "1")].

Lemma toy_readable json key :
  forallb (fun p => match name_and_value (toy_config json) (pair_text p) with
                    | Some (name, _) => bool_decide (name ≠ key)
                                        || bool_decide (encodeURIComponent key = Some p.1)
                    | None => false
                    end) (pairs toy_pairs) = true ->
  Forall (readable (toy_config json) key) (pairs toy_pairs).
Proof.
  intros H. apply Forall_forall. intros p Hp.
  rewrite forallb_forall in H. specialize (H p (proj1 (list_elem_of_In _ _) Hp)). cbn beta in H.
  unfold readable. destruct (name_and_value _ _) as [[name v]|]; [|done].
  exists name, v. split; [done|]. intros ->.
  apply orb_true_iff in H as [H|H]; apply bool_decide_eq_true in H; done.
Qed.

(** Euro and semicolon in the value, a space in the key. *)
Lemma written_cookie_reads_back_witness :
  exists j', write (toy_config false) (js "a b") (text (8364%N :: js ";1=2")) no_attributes
               toy_pairs = Some j'
    /\ read (toy_config false) (js "a b") j' = Found (text (8364%N :: js ";1=2"))
    /\ forall key', key' ≠ js "a b" -> key' ≠ [] ->
         (forall k s, encodeURIComponent (js "a b") = Some k -> (k, s) ∈ pairs toy_pairs ->
            exists s', name_and_value (toy_config false) (pair_text (k, s)) = Some (js "a b", s')) ->
         read (toy_config false) key' j' = read (toy_config false) key' toy_pairs.
Proof.
  apply (written_cookie_reads_back (toy_config false) (js "a b") (text (8364%N :: js ";1=2"))
    toy_pairs).
  - split; reflexivity.
  - discriminate.
  - vm_compute; reflexivity.
  - vm_compute; reflexivity.
  - vm_compute; reflexivity.
  - reflexivity.
  - apply toy_readable. vm_compute. reflexivity.
Defined.

Lemma json_string_lost_witness :
  exists j', write (toy_config true) (js "k") (text (js "abc")) no_attributes toy_pairs = Some j'
    /\ read (toy_config true) (js "k") j' = Undefined
    /\ removeCookie (toy_config true) (js "k") no_attributes j' = Some (false, j').
Proof.
  apply (json_string_lost (toy_config true) (js "k") (js "abc") toy_pairs).
  - split; reflexivity.
  - reflexivity.
  - discriminate.
  - vm_compute; reflexivity.
  - vm_compute; reflexivity.
  - apply (bool_decide_unpack _). vm_compute. exact I.
  - reflexivity.
  - reflexivity.
  - apply toy_readable. vm_compute. reflexivity.
Defined.

Lemma removeCookie_removes_witness :
  exists j', removeCookie (toy_config false) (js "theme") no_attributes toy_pairs = Some (true, j')
    /\ read (toy_config false) (js "theme") j' = Undefined.
Proof.
  apply (removeCookie_removes (toy_config false) (js "theme") toy_pairs).
  - split; reflexivity.
  - discriminate.
  - vm_compute; reflexivity.
  - vm_compute; reflexivity.
  - apply toy_readable. vm_compute. reflexivity.
Defined.

(** Without any cookie, reading them all gives one of the empty name. *)
Example empty_jar_reads_one : read_all (toy_config false) [] = Some {[ [] := Found [] ]}.
Proof. reflexivity. Qed.

(** One cookie of another script that does not decode makes every read of a key after
    it throw. *)
Example undecodable_cookie_throws :
  read (toy_config false) (js "theme") [(js "x", js "100%"); (js "theme", js "dark")] = Throws.
Proof. reflexivity. Qed.
