(* ===== verification/Typeahead.v ===== *)
(** Typeahead: Bootstrap's typeahead as the Fuel UX bundle carries it
    (fuelux/dist/all.js, bootstrap-typeahead.js): an input whose text is looked up in a
    source, and a menu of suggestions moved through with keys and mouse.

    [toLowerCase] and the folding of characters by which a case-insensitive regular
    expression compares are parameters (Unicode tables).  A source that is a function
    either returns the items at once or passes them later to [process].  The position of
    the menu is layout. *)

From S2P Require Import Prelude.
From coqutil Require Import Datatypes.RecordSettersUsingExistingGetters.

Class Folding := { toLowerCase : jstr -> jstr; fold_char : N -> N }.

Inductive source_kind :=
  | SourceArray (l : list jstr)
  | SourceFunction (now : jstr -> option (list jstr)).  (* None: the items come later *)

Record options := Options { source : source_kind; items : nat; minLength : nat }.

Record typeahead := Typeahead {
  opts : options;
  element_val : jstr;              (* the text in the input *)
  query : jstr;
  menu : list (jstr * bool);       (* the list items: data-value, and whether active *)
  shown : bool;
  focused : bool;
  mousedover : bool;
  suppressKeyPressRepeat : bool;
  changes : list jstr              (* the texts at the 'change' events, the latest last *)
}.

Section Typeahead.
Context {F : Folding}.

(** [new Typeahead(element, options)]. *)
Definition Typeahead_new (o : options) (text : jstr) : typeahead :=
  Typeahead o text [] [] false false false false [].

Definition updater (item : jstr) : jstr := item.

Definition show (t : typeahead) : typeahead := t <| shown := true |>.
Definition hide (t : typeahead) : typeahead := t <| shown := false |>.

(** The data-value of the first active list item. *)
Definition active_value (l : list (jstr * bool)) : option jstr :=
  fst <$> List.find snd l.

Definition select (t : typeahead) : typeahead :=
  let val := active_value (menu t) in
  let text := default [] (updater <$> val) in
  hide (t <| element_val := text |> <| changes ::= fun l => l ++ [text] |>).

Definition matcher (q item : jstr) : bool := contains (toLowerCase q) (toLowerCase item).

(** The loop of [sorter] ends at the first item that is not truthy. *)
Fixpoint sorter_loop (q : jstr) (its beginswith caseSensitive caseInsensitive : list jstr)
    : list jstr :=
  match its with
  | [] => beginswith ++ caseSensitive ++ caseInsensitive
  | item :: its =>
      if negb (truthy item) then beginswith ++ caseSensitive ++ caseInsensitive
      else if starts_with (toLowerCase q) (toLowerCase item)
      then sorter_loop q its (beginswith ++ [item]) caseSensitive caseInsensitive
      else if contains q item
      then sorter_loop q its beginswith (caseSensitive ++ [item]) caseInsensitive
      else sorter_loop q its beginswith caseSensitive (caseInsensitive ++ [item])
  end.

Definition sorter (q : jstr) (its : list jstr) : list jstr := sorter_loop q its [] [] [].

Definition render (its : list jstr) (t : typeahead) : typeahead :=
  t <| menu := imap (fun i item => (item, bool_decide (i = 0))) its |>.

Definition process (its : list jstr) (t : typeahead) : typeahead :=
  let its := List.filter (matcher (query t)) its in
  let its := sorter (query t) its in
  match its with
  | [] => if shown t then hide t else t
  | _ => show (render (take (items (opts t)) its) t)
  end.

Definition lookup_ (t : typeahead) : typeahead :=
  let t := t <| query := element_val t |> in
  if negb (truthy (query t)) || bool_decide (length (query t) < minLength (opts t))
  then if shown t then hide t else t
  else
    match source (opts t) with
    | SourceArray l => process l t
    | SourceFunction now =>
        match now (query t) with Some l => process l t | None => t end
    end.

(** Does a regular expression of the (escaped) query, ignoring case, match at the start? *)
Fixpoint matches_here (q s : jstr) : bool :=
  match q, s with
  | [], _ => true
  | c :: q', d :: s' => bool_decide (fold_char c = fold_char d) && matches_here q' s'
  | _, [] => false
  end.

(** [item.replace(new RegExp('(' + query + ')', 'ig'), ...)] for a query that is not
    empty: [skip] characters belong to the match just written. *)
Fixpoint highlight_from (q : jstr) (skip : nat) (s : jstr) : jstr :=
  match s with
  | [] => []
  | c :: s' =>
      match skip with
      | S k => c :: (if decide (k = 0) then js "</strong>" else []) ++ highlight_from q k s'
      | O =>
          if matches_here q s
          then js "<strong>" ++ c :: (if decide (length q = 1) then js "</strong>" else [])
                 ++ highlight_from q (length q - 1) s'
          else c :: highlight_from q 0 s'
      end
  end.

Definition highlighter (q item : jstr) : jstr := highlight_from q 0 item.

(** [$set.next()] and [$set.prev()] of the active ones, made active instead of them. *)
Definition shift_right (l : list bool) : list bool := take (length l) (false :: l).
Definition shift_left (l : list bool) : list bool := drop 1 (l ++ [false]).

Definition set_active (l : list (jstr * bool)) (a : list bool) : list (jstr * bool) :=
  zip (map fst l) a.

Definition only (i n : nat) : list bool := map (fun j => bool_decide (j = i)) (seq 0 n).

Definition next (t : typeahead) : typeahead :=
  let active := map snd (menu t) in
  let nxt := shift_right active in
  let nxt := if existsb id nxt then nxt else only 0 (length active) in
  t <| menu := set_active (menu t) nxt |>.

Definition prev (t : typeahead) : typeahead :=
  let active := map snd (menu t) in
  let prv := shift_left active in
  let prv := if existsb id prv then prv else only (length active - 1) (length active) in
  t <| menu := set_active (menu t) prv |>.

Definition move (keyCode : N) (t : typeahead) : typeahead :=
  if negb (shown t) then t
  else if decide (keyCode = 38%N) then prev t
  else if decide (keyCode = 40%N) then next t
  else t.

Definition keydown (keyCode : N) (t : typeahead) : typeahead :=
  move keyCode
    (t <| suppressKeyPressRepeat := bool_decide (keyCode ∈ [40; 38; 9; 13; 27]%N) |>).

Definition keypress (keyCode : N) (t : typeahead) : typeahead :=
  if suppressKeyPressRepeat t then t else move keyCode t.

Definition keyup (keyCode : N) (t : typeahead) : typeahead :=
  if decide (keyCode ∈ [40; 38; 16; 17; 18]%N) then t
  else if decide (keyCode ∈ [9; 13]%N) then if shown t then select t else t
  else if decide (keyCode = 27%N) then if shown t then hide t else t
  else lookup_ t.

Definition focus (t : typeahead) : typeahead := t <| focused := true |>.
Definition blur (t : typeahead) : typeahead :=
  let t := t <| focused := false |> in
  if negb (mousedover t) && shown t then hide t else t.
Definition click (t : typeahead) : typeahead := focus (select t).
Definition mouseenter (i : nat) (t : typeahead) : typeahead :=
  t <| mousedover := true |> <| menu := set_active (menu t) (only i (length (menu t))) |>.
Definition mouseleave (t : typeahead) : typeahead :=
  let t := t <| mousedover := false |> in
  if negb (focused t) && shown t then hide t else t.

(** What the user and a late source do; the text changes between a key's two events,
    and the mouse reaches list items of the menu that is there. *)
Inductive event :=
  | KeyDown (k : N) | KeyPress (k : N) | KeyUp (k : N) | SetText (s : jstr)
  | Focus | Blur | Click | MouseEnter (i : nat) | MouseLeave
  | Arrived (its : list jstr).

Definition handle (e : event) (t : typeahead) : typeahead :=
  match e with
  | KeyDown k => keydown k t
  | KeyPress k => keypress k t
  | KeyUp k => keyup k t
  | SetText s => t <| element_val := s |>
  | Focus => focus t
  | Blur => blur t
  | Click => if shown t then click t else t
  | MouseEnter i => if decide (i < length (menu t)) then mouseenter i t else t
  | MouseLeave => mouseleave t
  | Arrived its => process its t
  end.

Definition handle_all (es : list event) (t : typeahead) : typeahead :=
  foldl (fun t e => handle e t) t es.

(** * The order of the suggestions *)

(** The class of an item: where the query occurs in it. *)
Definition rank (q item : jstr) : nat :=
  if starts_with (toLowerCase q) (toLowerCase item) then 0
  else if contains q item then 1 else 2.

Definition ranked (q : jstr) (r : nat) (its : list jstr) : list jstr :=
  List.filter (fun item => Nat.eqb (rank q item) r) its.

Lemma ranked_cons q r item its :
  ranked q r (item :: its) = (if Nat.eqb (rank q item) r then [item] else []) ++ ranked q r its.
Proof. unfold ranked. cbn [List.filter]. by destruct (Nat.eqb _ _). Qed.

Lemma sorter_loop_cons q item its b cs ci :
  item <> [] ->
  sorter_loop q (item :: its) b cs ci
  = sorter_loop q its (b ++ if Nat.eqb (rank q item) 0 then [item] else [])
      (cs ++ if Nat.eqb (rank q item) 1 then [item] else [])
      (ci ++ if Nat.eqb (rank q item) 2 then [item] else []).
Proof.
  intros H. cbn [sorter_loop]. assert (truthy item = true) as -> by by destruct item.
  unfold rank. destruct (starts_with _ _); [|destruct (contains q item)];
    cbn; by rewrite ?app_nil_r.
Qed.

Lemma sorter_loop_ranked q its b cs ci :
  Forall (fun item => item <> []) its ->
  sorter_loop q its b cs ci
  = (b ++ ranked q 0 its) ++ (cs ++ ranked q 1 its) ++ (ci ++ ranked q 2 its).
Proof.
  intros H. revert b cs ci. induction H as [|item its Hi H IH]; intros b cs ci.
  - cbn. by rewrite !app_nil_r.
  - rewrite sorter_loop_cons by done. rewrite IH, !ranked_cons. by rewrite <- !app_assoc.
Qed.

Lemma rank_cases q item : rank q item = 0 \/ rank q item = 1 \/ rank q item = 2.
Proof. unfold rank. destruct (starts_with _ _); [|destruct (contains _ _)]; auto. Qed.

Lemma ranked_perm q its :
  Permutation (ranked q 0 its ++ ranked q 1 its ++ ranked q 2 its) its.
Proof.
  induction its as [|item its IH]; [done|]. rewrite !ranked_cons.
  destruct (rank_cases q item) as [->|[->| ->]]; cbn.
  - by rewrite IH.
  - rewrite <- Permutation_middle. by rewrite IH.
  - rewrite (app_assoc _ _ (item :: _)), <- Permutation_middle, <- app_assoc. by rewrite IH.
Qed.

(** * The menu *)

(** The menu of the values [vals] with the item number [i] active. *)
Definition with_active (i : nat) (vals : list jstr) : list (jstr * bool) :=
  imap (fun j item => (item, bool_decide (j = i))) vals.

(** Exactly one item of a menu that is not empty is active. *)
Definition one_active (l : list (jstr * bool)) : Prop :=
  l = [] \/ exists i vals, i < length vals /\ l = with_active i vals.

Definition sound (t : typeahead) : Prop :=
  one_active (menu t) /\ (shown t = true -> menu t <> []) /\ 0 < items (opts t).

Lemma with_active_length i vals : length (with_active i vals) = length vals.
Proof. unfold with_active. by rewrite length_imap. Qed.

Lemma with_active_fst i vals : map fst (with_active i vals) = vals.
Proof.
  apply list_eq. intros j. unfold with_active.
  rewrite list_lookup_fmap, list_lookup_imap. by destruct (vals !! j).
Qed.

Lemma only_length i n : length (only i n) = n.
Proof. unfold only. by rewrite length_map, length_seq. Qed.

Lemma only_lookup i n j : j < n -> only i n !! j = Some (bool_decide (j = i)).
Proof. intros H. unfold only. by rewrite list_lookup_fmap, lookup_seq_lt. Qed.

Lemma with_active_snd i vals : map snd (with_active i vals) = only i (length vals).
Proof.
  apply list_eq. intros j. unfold with_active. rewrite list_lookup_fmap, list_lookup_imap.
  destruct (decide (j < length vals)) as [H|H].
  - rewrite only_lookup by done. by destruct (lookup_lt_is_Some_2 vals j H) as [x ->].
  - rewrite (lookup_ge_None_2 vals j), (lookup_ge_None_2 (only _ _) j); [done| |lia].
    rewrite only_length. lia.
Qed.

Lemma set_active_only i l :
  set_active l (only i (length l)) = with_active i (map fst l).
Proof.
  apply list_eq. intros j. unfold set_active, with_active.
  rewrite lookup_zip_with, list_lookup_imap.
  destruct (map fst l !! j) as [v|] eqn:E; [|done]. cbn.
  apply lookup_lt_Some in E. rewrite length_map in E. by rewrite only_lookup.
Qed.

Lemma active_value_with_active i vals :
  active_value (with_active i vals) = vals !! i.
Proof.
  unfold active_value, with_active. revert i.
  induction vals as [|v vals IH]; intros i; [done|]. rewrite imap_cons. cbn.
  destruct i as [|i]; [by rewrite bool_decide_true|]. rewrite bool_decide_false by done.
  change ((v :: vals) !! S i) with (vals !! i).
  rewrite <- IH. do 2 f_equal. apply imap_ext. intros j x _. cbn. f_equal.
  apply bool_decide_ext. lia.
Qed.

Lemma existsb_only i n : existsb id (only i n) = bool_decide (i < n).
Proof.
  case_bool_decide as H.
  - apply existsb_exists. exists true. split; [|done]. apply list_elem_of_In.
    apply list_elem_of_lookup. exists i. rewrite only_lookup by done. by rewrite bool_decide_true.
  - destruct (existsb id (only i n)) eqn:E; [|done]. apply existsb_exists in E as (b & Hb & Eb).
    apply list_elem_of_In, list_elem_of_lookup in Hb as [j Hj].
    pose proof (lookup_lt_Some _ _ _ Hj) as Hlt. rewrite only_length in Hlt.
    rewrite only_lookup in Hj by done. injection Hj as <-. cbn in Eb.
    apply bool_decide_eq_true in Eb. lia.
Qed.

(** Moving the mark one place on, or back to the other end. *)
Lemma shift_right_only i n : i < n -> shift_right (only i n) = only (S i) n.
Proof.
  intros H. apply list_eq_same_length with n; [by rewrite only_length| |].
  { unfold shift_right. rewrite length_take, only_length. cbn. rewrite only_length. lia. }
  intros j x y Hj Hx Hy. rewrite only_lookup in Hy by done. injection Hy as <-.
  unfold shift_right in Hx. rewrite only_length, lookup_take_lt in Hx by done.
  destruct j as [|j]; cbn in Hx; [injection Hx as <-; by rewrite bool_decide_false|].
  rewrite only_lookup in Hx by lia. injection Hx as <-.
  apply bool_decide_ext. lia.
Qed.

Lemma shift_left_only i n : S i < n -> shift_left (only (S i) n) = only i n.
Proof.
  intros H. apply list_eq_same_length with n; [by rewrite only_length| |].
  { unfold shift_left. rewrite length_drop, length_app, only_length. cbn. lia. }
  intros j x y Hj Hx Hy. rewrite only_lookup in Hy by done. injection Hy as <-.
  unfold shift_left in Hx. rewrite lookup_drop in Hx. cbn [Nat.add] in Hx.
  destruct (decide (S j < n)).
  - rewrite lookup_app_l in Hx by (by rewrite only_length).
    rewrite only_lookup in Hx by done. injection Hx as <-. apply bool_decide_ext. lia.
  - rewrite lookup_app_r in Hx by (rewrite only_length; lia). rewrite only_length in Hx.
    replace (S j - n) with 0 in Hx by lia. injection Hx as <-.
    symmetry. apply bool_decide_false. lia.
Qed.

Lemma shift_left_first n : 0 < n -> existsb id (shift_left (only 0 n)) = false.
Proof.
  intros H. destruct n as [|n]; [lia|]. 
  change (shift_left (only 0 (S n)))
    with (map (fun j => bool_decide (j = 0)) (seq 1 n) ++ [false]).
  rewrite existsb_app. cbn [existsb id]. rewrite orb_false_r.
  destruct (existsb id _) eqn:E; [|done]. apply existsb_exists in E as (b & Hb & Eb).
  apply in_map_iff in Hb as (j & <- & Hj). apply in_seq in Hj.
  cbn in Eb. apply bool_decide_eq_true in Eb. lia.
Qed.

Lemma reactivate i k vals :
  set_active (with_active i vals) (only k (length vals)) = with_active k vals.
Proof.
  rewrite <- (with_active_length i vals), set_active_only. by rewrite with_active_fst.
Qed.

Lemma next_menu t i vals :
  i < length vals -> menu t = with_active i vals ->
  menu (next t) = with_active (if decide (S i < length vals) then S i else 0) vals.
Proof.
  intros Hi Ha. unfold next. cbn zeta. rewrite Ha.
  rewrite with_active_snd, only_length, shift_right_only, existsb_only by done.
  case_bool_decide; case_decide; try lia; apply reactivate.
Qed.

Lemma prev_menu t i vals :
  i < length vals -> menu t = with_active i vals ->
  menu (prev t) = with_active (if decide (i = 0) then length vals - 1 else i - 1) vals.
Proof.
  intros Hi Ha. unfold prev. cbn zeta. rewrite Ha, with_active_snd, only_length.
  destruct i as [|i].
  - rewrite shift_left_first by done. apply reactivate.
  - rewrite shift_left_only, existsb_only, bool_decide_true by lia.
    rewrite decide_False by done. replace (S i - 1) with i by lia. apply reactivate.
Qed.

(** * Every event keeps the menu sound *)

Lemma hide_sound t : sound t -> sound (hide t).
Proof. by intros (H1 & _ & H3). Qed.

Lemma select_sound t : sound t -> sound (select t).
Proof. by intros (H1 & _ & H3). Qed.

Lemma show_render_sound its t :
  0 < items (opts t) -> its <> [] -> sound (show (render (take (items (opts t)) its) t)).
Proof.
  intros Hi Hne. destruct (items (opts t)) as [|n] eqn:En; [lia|].
  destruct its as [|x its]; [done|]. split; [|split; [done|cbn; lia]].
  right. exists 0, (take (S n) (x :: its)). split; [cbn; lia|done].
Qed.

Lemma process_sound its t : sound t -> sound (process its t).
Proof.
  intros H. unfold process. cbn zeta. destruct (sorter _ _) as [|x l] eqn:E.
  - destruct (shown t); [by apply hide_sound|done].
  - by apply show_render_sound; [apply H|].
Qed.

Lemma lookup_sound t : sound t -> sound (lookup_ t).
Proof.
  intros H. unfold lookup_. cbn zeta. set (t' := t <| query := _ |>).
  assert (sound t') as H' by exact H. clearbody t'.
  destruct (_ || _); [destruct (shown t'); [by apply hide_sound|done]|].
  destruct (source _); [by apply process_sound|].
  destruct (now _); [by apply process_sound|done].
Qed.

Lemma sound_menu t m :
  sound t -> one_active m -> (menu t <> [] -> m <> []) -> sound (t <| menu := m |>).
Proof. intros (H1 & H2 & H3) Hm Hne. split; [done|]. split; [|done]. intros H. auto. Qed.

Lemma with_active_ne i k vals : with_active i vals <> [] -> with_active k vals <> [].
Proof. by destruct vals. Qed.

Lemma menu_set t m : menu (t <| menu := m |>) = m.
Proof. done. Qed.

Lemma next_sound t : sound t -> sound (next t).
Proof.
  intros H. change (next t) with (t <| menu := menu (next t) |>).
  pose proof H as ([E|(i & vals & Hi & E)] & _).
  - apply sound_menu; [done| |by rewrite E]. left. unfold next. cbn zeta. by rewrite E.
  - rewrite (next_menu t i vals) by done. apply sound_menu; [done| |].
    + right. eexists _, _; split; [|done]. case_decide; lia.
    + rewrite E. apply with_active_ne.
Qed.

Lemma prev_sound t : sound t -> sound (prev t).
Proof.
  intros H. change (prev t) with (t <| menu := menu (prev t) |>).
  pose proof H as ([E|(i & vals & Hi & E)] & _).
  - apply sound_menu; [done| |by rewrite E]. left. unfold prev. cbn zeta. by rewrite E.
  - rewrite (prev_menu t i vals) by done. apply sound_menu; [done| |].
    + right. eexists _, _; split; [|done]. case_decide; lia.
    + rewrite E. apply with_active_ne.
Qed.

Lemma move_sound k t : sound t -> sound (move k t).
Proof.
  intros H. unfold move. destruct (negb _); [done|].
  case_decide; [by apply prev_sound|]. case_decide; [by apply next_sound|done].
Qed.

Lemma mouseenter_sound i t : sound t -> i < length (menu t) -> sound (mouseenter i t).
Proof.
  intros H Hi. unfold mouseenter. rewrite set_active_only.
  apply (sound_menu (t <| mousedover := true |>)); [done| |].
  - right. exists i, (map fst (menu t)). by rewrite length_map.
  - intros _ E. apply (f_equal length) in E. rewrite with_active_length, length_map in E.
    cbn in E. lia.
Qed.

Lemma handle_sound e t : sound t -> sound (handle e t).
Proof.
  intros H. destruct e; cbn [handle].
  - by apply move_sound.
  - unfold keypress. destruct (suppressKeyPressRepeat t); [done|by apply move_sound].
  - unfold keyup. repeat case_decide; try destruct (shown t); try done;
      by first [apply select_sound | apply hide_sound | apply lookup_sound].
  - exact H.
  - exact H.
  - unfold blur. cbn zeta. destruct (_ && _); [by apply (hide_sound (t <| focused := false |>))|].
    exact H.
  - destruct (shown t); [|done]. by apply (select_sound t).
  - case_decide; [by apply mouseenter_sound|done].
  - unfold mouseleave. cbn zeta.
    destruct (_ && _); [by apply (hide_sound (t <| mousedover := false |>))|]. exact H.
  - by apply process_sound.
Qed.

Lemma handle_all_sound es t : sound t -> sound (handle_all es t).
Proof.
  revert t. induction es as [|e es IH]; intros t H; [done|]. by apply IH, handle_sound.
Qed.

Lemma sound_new o text : 0 < items o -> sound (Typeahead_new o text).
Proof. intros H. split; [by left|]. by split. Qed.

(** * What the typeahead promises *)

(** C17. Whatever the user, the mouse and a slow source do, exactly one suggestion of a
    menu that has any is active, and while the menu is shown Enter puts that suggestion
    in the input, announces the change once and hides the menu. *)
Theorem enter_takes_active o text es :
  0 < items o ->
  let t := handle_all es (Typeahead_new o text) in
  one_active (menu t) /\
  (shown t = true ->
   exists i vals item,
     menu t = with_active i vals /\ vals !! i = Some item /\
     handle (KeyUp 13) t
     = t <| element_val := item |> <| changes ::= fun l => l ++ [item] |> <| shown := false |>).
Proof.
  intros Ho t. destruct (handle_all_sound es _ (sound_new o text Ho)) as (H1 & H2 & _).
  fold t in H1, H2. split; [done|]. intros Hs.
  destruct H1 as [E|(i & vals & Hi & E)]; [by destruct (H2 Hs)|].
  destruct (lookup_lt_is_Some_2 _ _ Hi) as [item Hv]. exists i, vals, item.
  split; [done|]. split; [done|]. change (handle (KeyUp 13) t) with (if shown t then select t else t).
  rewrite Hs. unfold select. cbn zeta. by rewrite E, active_value_with_active, Hv.
Qed.

(** The three events of an arrow key, and how far a series of arrows goes. *)
Definition arrow (down : bool) : list event :=
  let k := if down then 40%N else 38%N in [KeyDown k; KeyPress k; KeyUp k].

Definition distance (ds : list bool) : Z :=
  foldr (fun (d : bool) z => (if d then 1 else -1) + z)%Z 0%Z ds.

Definition step_mod (n i : nat) (down : bool) : nat :=
  if down then if decide (S i < n) then S i else 0
  else if decide (i = 0) then n - 1 else i - 1.

Lemma step_mod_Z n i d :
  i < n -> Z.of_nat (step_mod n i d) = ((Z.of_nat i + if d then 1 else -1) mod Z.of_nat n)%Z.
Proof.
  intros H. unfold step_mod. destruct d; case_decide.
  - rewrite Z.mod_small; lia.
  - replace (Z.of_nat i + 1)%Z with (0 + 1 * Z.of_nat n)%Z by lia.
    rewrite Z_mod_plus_full. by rewrite Z.mod_0_l by lia.
  - subst. replace (Z.of_nat 0 + -1)%Z with ((Z.of_nat n - 1) + (-1) * Z.of_nat n)%Z by lia.
    rewrite Z_mod_plus_full, Z.mod_small; lia.
  - rewrite Z.mod_small; lia.
Qed.

(** What an arrow leaves alone. *)
Definition frame (t : typeahead) :=
  (opts t, element_val t, query t, shown t, (focused t, mousedover t), changes t).

Lemma move_shown k t :
  shown t = true ->
  keydown k t
  = (if decide (k = 38%N) then prev else if decide (k = 40%N) then next else id)
      (t <| suppressKeyPressRepeat := bool_decide (k ∈ [40; 38; 9; 13; 27]%N) |>).
Proof.
  intros Hs. unfold keydown, move. change (shown (t <| suppressKeyPressRepeat := _ |>)) with (shown t).
  rewrite Hs. cbn [negb]. by repeat case_decide.
Qed.

Lemma arrow_step d t i vals :
  shown t = true -> i < length vals -> menu t = with_active i vals ->
  let t' := handle_all (arrow d) t in
  frame t' = frame t /\ menu t' = with_active (step_mod (length vals) i d) vals.
Proof.
  intros Hs Hi E. set (t0 := t <| suppressKeyPressRepeat := true |>).
  assert (handle_all (arrow d) t = if d then next t0 else prev t0) as ->.
  { destruct d; cbn [arrow handle_all foldl handle].
    - rewrite (move_shown 40 t Hs). done.
    - rewrite (move_shown 38 t Hs). done. }
  destruct d; (split; [done|]); [by apply (next_menu t0)|by apply (prev_menu t0)].
Qed.

(** Typing an opening parenthesis while the menu is shown moves it as the down arrow does:
    the code of that character is the key code of the arrow, and its keydown (57) does not
    suppress the keypress. *)
Theorem parenthesis_moves t i vals :
  shown t = true -> i < length vals -> menu t = with_active i vals ->
  menu (handle_all [KeyDown 57; KeyPress 40] t) = with_active (step_mod (length vals) i true) vals.
Proof.
  intros Hs Hi E. cbn [handle_all foldl handle]. rewrite (move_shown 57 t Hs).
  set (t0 := t <| suppressKeyPressRepeat := _ |>).
  change (keypress 40 _) with (if negb (shown t) then t0 else next t0). rewrite Hs.
  by apply (next_menu t0).
Qed.

(** The arrow keys turn the active suggestion round the menu: after any series of
    them it has moved by the downs less the ups, modulo the number of suggestions, and
    nothing else has changed; the pair of the arrow's keydown and keypress counts once. *)
Theorem arrows_cycle t i vals ds :
  shown t = true -> i < length vals -> menu t = with_active i vals ->
  let t' := handle_all (concat (map arrow ds)) t in
  frame t' = frame t /\
  menu t' = with_active
    (Z.to_nat ((Z.of_nat i + distance ds) mod Z.of_nat (length vals))) vals.
Proof.
  revert t i. induction ds as [|d ds IH]; intros t i Hs Hi E; cbn [map concat distance foldr].
  - split; [done|]. cbn. rewrite E, Z.add_0_r, Z.mod_small by lia. by rewrite Nat2Z.id.
  - cbn zeta. unfold handle_all. rewrite foldl_app.
    destruct (arrow_step d t i vals Hs Hi E) as [Hf Hm]. cbn zeta in Hf, Hm.
    assert (Hs' : shown (handle_all (arrow d) t) = true) 
      by (rewrite <- Hs; exact (f_equal (fun f => f.1.1.2) Hf)).
    assert (Hk : step_mod (length vals) i d < length vals)
      by (unfold step_mod; destruct d; case_decide; lia).
    destruct (IH _ _ Hs' Hk Hm) as [Hf2 Hm2]. split; [by rewrite <- Hf, <- Hf2|].
    etransitivity; [exact Hm2|]. do 2 f_equal. rewrite step_mod_Z by done.
    rewrite Zplus_mod_idemp_l. f_equal. unfold distance. cbn. lia.
Qed.

(** The suggestions of [q] in their order. *)
Definition best (q : jstr) (found : list jstr) : list jstr :=
  ranked q 0 found ++ ranked q 1 found ++ ranked q 2 found.

Lemma sorter_best q found :
  Forall (fun item => item <> []) found -> sorter q found = best q found.
Proof. intros H. unfold sorter. by rewrite sorter_loop_ranked. Qed.

Lemma best_nil q found : best q found = [] <-> found = [].
Proof.
  split; [|by intros ->]. intros E. apply Permutation_nil. rewrite <- E. apply ranked_perm.
Qed.

Lemma hide_if_shown t : (if shown t then hide t else t) = t <| shown := false |>.
Proof. by destruct t as [? ? ? ? [] ? ? ? ?]. Qed.

Lemma process_spec its t :
  let found := List.filter (matcher (query t)) its in
  Forall (fun item => item <> []) found ->
  process its t = if bool_decide (found = []) then t <| shown := false |>
                  else show (render (take (items (opts t)) (best (query t) found)) t).
Proof.
  intros found Hne. unfold process. fold found. cbn zeta. rewrite sorter_best by done.
  case_bool_decide as H.
  - rewrite (proj2 (best_nil (query t) found) H). apply hide_if_shown.
  - destruct (best (query t) found) eqn:E; [|done]. by apply best_nil in E.
Qed.

Lemma Forall_filter_ne q its :
  Forall (fun item => item <> []) its ->
  Forall (fun item => item <> []) (List.filter (matcher q) its).
Proof.
  intros Hne. apply Forall_forall. intros x Hx.
  apply list_elem_of_In, filter_In in Hx as [Hx _]. apply list_elem_of_In in Hx.
  by eapply Forall_forall in Hne.
Qed.

(** What a lookup in an array offers: nothing for a text too short; otherwise the
    items that contain the text in either case, none lost and none repeated, those that
    begin with it first, then those that contain it as typed, then the rest, each group
    in the order of the array; the menu is shown exactly when there is one, holds the
    first [items] of them, and the first is active. *)
Theorem lookup_suggests t l :
  source (opts t) = SourceArray l -> Forall (fun item => item <> []) l ->
  let q := element_val t in
  let found := if truthy q && bool_decide (minLength (opts t) <= length q)
               then List.filter (matcher q) l else [] in
  Permutation (best q found) found /\
  shown (lookup_ t) = negb (bool_decide (found = [])) /\
  (found <> [] ->
   menu (lookup_ t) = with_active 0 (take (items (opts t)) (best q found))) /\
  element_val (lookup_ t) = q.
Proof.
  intros Hl Hne q found. split; [apply ranked_perm|].
  assert (E : lookup_ t
    = if bool_decide (found = []) then t <| query := q |> <| shown := false |>
      else show (render (take (items (opts t)) (best q found)) (t <| query := q |>))).
  { unfold lookup_. cbn zeta. fold q. change (query (t <| query := q |>)) with q.
    change (opts (t <| query := q |>)) with (opts t). rewrite Hl.
    assert (negb (truthy q) || bool_decide (length q < minLength (opts t))
            = negb (truthy q && bool_decide (minLength (opts t) <= length q))) as ->.
    { rewrite negb_andb. f_equal. rewrite <- bool_decide_not. apply bool_decide_ext. lia. }
    unfold found. destruct (_ && _); cbn [negb].
    - exact (process_spec l (t <| query := q |>) (Forall_filter_ne q l Hne)).
    - apply hide_if_shown. }
  rewrite E. case_bool_decide as H; done.
Qed.

Lemma sorter_loop_head q its x b cs ci :
  exists l, sorter_loop q its (x :: b) cs ci = x :: l.
Proof.
  revert b cs ci. induction its as [|item its IH]; intros b cs ci; cbn; [by eexists|].
  destruct (negb _); [by eexists|].
  destruct (starts_with _ _); [apply (IH (b ++ [item]))|].
  destruct (contains _ _); apply IH.
Qed.

Lemma process_empty_query x its t :
  toLowerCase [] = [] -> x <> [] -> query t = [] ->
  exists l, process (x :: its) t = show (render (take (items (opts t)) (x :: l)) t).
Proof.
  intros Hlow Hx Hq. unfold process. rewrite Hq.
  assert (Hm : matcher [] x = true).
  { unfold matcher. rewrite Hlow. by destruct (toLowerCase x). }
  cbn [List.filter]. rewrite Hm. unfold sorter. cbn [sorter_loop].
  assert (truthy x = true) as -> by by destruct x. rewrite Hlow. cbn [negb starts_with app].
  destruct (sorter_loop_head [] (List.filter (matcher []) its) x [] [] []) as [l ->].
  by exists l.
Qed.

(** An answer that arrives late is shown whatever became of the question: when the
    input has been emptied and left since, and the menu was hidden, the list of all the
    items opens below it, its first item active, and Enter takes that. *)
Theorem late_answer_opens t x its :
  toLowerCase [] = [] -> x <> [] -> 0 < items (opts t) ->
  let t0 := handle_all [SetText []; KeyUp 8; Blur] t in
  let t' := handle (Arrived (x :: its)) t0 in
  (shown t0 = false /\ element_val t' = [] /\ focused t' = false) /\
  shown t' = true /\ active_value (menu t') = Some x /\
  element_val (handle (KeyUp 13) t') = x.
Proof.
  intros Hlow Hx Hn t0 t'.
  assert (E : t0 = t <| element_val := [] |> <| query := [] |> <| shown := false |>
                     <| focused := false |>).
  { unfold t0. cbn [handle_all foldl handle].
    change (keyup 8 ?u) with (if shown u then hide (u <| query := element_val u |>)
                              else u <| query := element_val u |>).
    destruct t as [? ? ? ? [] ? [] ? ?]; done. }
  destruct (process_empty_query x its t0 Hlow Hx) as [l El]; [by rewrite E|].
  unfold t'. cbn [handle]. rewrite El, E.
  change (items (opts (?u <| focused := false |>))) with (items (opts t)).
  destruct (items (opts t)) as [|n]; [lia|]. cbn [take]. done.
Qed.
End Typeahead.

(** * Witnesses: a source of four names *)

Definition ascii_folding : Folding := {|
  toLowerCase := map (fun c => if bool_decide (65 <= c <= 90)%N then (c + 32)%N else c);
  fold_char := fun c => if bool_decide (65 <= c <= 90)%N then (c + 32)%N else c
|}.

Definition towns : list jstr := [js "Wuxi"; js "Beijing"; js "Nanjing"; js "Jinan"; js "AJIN"].

Definition asked (q : string) : @typeahead :=
  Typeahead_new (Options (SourceArray towns) 3 1) (js q).

Example suggestions_of_jin :
  menu (@lookup_ ascii_folding (asked "jin"))
  = [(js "Jinan", true); (js "Beijing", false); (js "Nanjing", false)].
Proof. vm_compute. reflexivity. Qed.

Example highlight_jin :
  @highlighter ascii_folding (js "jin") (js "Beijing JIN")
  = js "Bei<strong>jin</strong>g <strong>JIN</strong>".
Proof. vm_compute. reflexivity. Qed.

Lemma enter_takes_active_witness :
  exists i vals item,
    let t := handle_all (F := ascii_folding) [KeyUp 78; MouseEnter 1; KeyDown 40] (asked "jin") in
    menu t = with_active i vals /\ vals !! i = Some item /\
    handle (F := ascii_folding) (KeyUp 13) t
    = t <| element_val := item |> <| changes ::= fun l => l ++ [item] |> <| shown := false |>.
Proof.
  apply (enter_takes_active (F := ascii_folding) (Options (SourceArray towns) 3 1) (js "jin")
    [KeyUp 78; MouseEnter 1; KeyDown 40]); [cbn; lia|reflexivity].
Defined.

Lemma arrows_cycle_witness :
  let t := lookup_ (F := ascii_folding) (asked "jin") in
  menu (handle_all (F := ascii_folding) (concat (map arrow [false; false; true; false])) t)
  = with_active 1 [js "Jinan"; js "Beijing"; js "Nanjing"].
Proof.
  refine (proj2 (arrows_cycle (F := ascii_folding) _ 0 [js "Jinan"; js "Beijing"; js "Nanjing"]
    [false; false; true; false] _ _ _)); [reflexivity|cbn; lia|reflexivity].
Defined.

Lemma lookup_suggests_witness :
  shown (lookup_ (F := ascii_folding) (asked "jin")) = true.
Proof.
  destruct (lookup_suggests (F := ascii_folding) (asked "jin") towns eq_refl) as (_ & H & _).
  - repeat constructor; discriminate.
  - rewrite H. reflexivity.
Defined.

Lemma late_answer_opens_witness :
  let t := Typeahead_new (Options (SourceFunction (fun _ => None)) 8 1) (js "jin") in
  shown (handle (F := ascii_folding) (Arrived towns)
           (handle_all (F := ascii_folding) [SetText []; KeyUp 8; Blur] t)) = true.
Proof.
  apply (late_answer_opens (F := ascii_folding)); [reflexivity|discriminate|cbn; lia].
Defined.
