(* ===== verification/Modal.v ===== *)
(** Modal: Bootstrap's modal dialogue as the Fuel UX bundle carries it
    (fuelux/dist/all.js, bootstrap-modal.js).

    With the class fade and a browser that has transitions, showing and hiding go on
    in the background: the handlers waiting for a transition's end, the timers and the
    overlays in the page are part of the state, and the browser's reports are events
    that may come in any order.  A listener may prevent a command: every command says
    whether one does.  The dialogue is the only one of its page; its remote content and
    the focus itself are left out. *)

From S2P Require Import Prelude.
From coqutil Require Import Datatypes.RecordSettersUsingExistingGetters.

Inductive backdrop_option := NoBackdrop | StaticBackdrop | ClickBackdrop.

Inductive notice := NShow | NShown | NHide | NHidden.

(** The functions passed to [backdrop]: by [show] and by [hideModal]. *)
Inductive callback := OnShow | OnHidden.

(** The functions waiting on the element for the end of its transition: by [show] and,
    with the number of its timer, by [hideWithTransition]. *)
Inductive end_handler := EndShown | EndHide (timer : nat).

(** An overlay in the page, with the functions waiting for its transition's end. *)
Record overlay := Overlay { o_id : nat; o_in : bool; o_ends : list callback }.

Record modal := Modal {
  fade : bool;                     (* the class fade, and transitions supported *)
  opt_backdrop : backdrop_option;
  keyboard : bool;
  isShown : bool;
  display : bool;
  in_ : bool;                      (* the class in *)
  ariaHidden : bool;
  focusTraps : nat;                (* focusin handlers on the document *)
  keyups : nat;                    (* keyup.dismiss handlers on the element *)
  ends : list end_handler;
  timers : list nat;
  fresh : nat;                     (* the next number for a timer or an overlay *)
  overlays : list overlay;         (* in the page, the oldest first *)
  backdrop_ : option nat;          (* this.$backdrop *)
  notices : list notice            (* triggered so far, the latest last *)
}.

Definition has_backdrop (m : modal) : bool :=
  match opt_backdrop m with NoBackdrop => false | _ => true end.

(** [new Modal(element, options)] on a hidden element. *)
Definition Modal_new (f : bool) (b : backdrop_option) (k : bool) : modal :=
  Modal f b k false false false false 0 0 [] [] 0 [] None [].

Definition trigger (n : notice) (m : modal) : modal := m <| notices ::= fun l => l ++ [n] |>.

Definition enforceFocus (m : modal) : modal := m <| focusTraps ::= S |>.

Definition escape (m : modal) : modal :=
  if isShown m && keyboard m then m <| keyups ::= S |>
  else if negb (isShown m) then m <| keyups := 0 |> else m.

Definition removeBackdrop (m : modal) : modal :=
  match backdrop_ m with
  | Some id => m <| overlays ::= List.filter (fun o => negb (Nat.eqb (o_id o) id)) |>
                 <| backdrop_ := None |>
  | None => m
  end.

(** What the functions passed to [backdrop] do. *)
Definition call (cb : callback) (m : modal) : modal :=
  match cb with
  | OnShow =>
      let m := enforceFocus (m <| display := true |> <| in_ := true |> <| ariaHidden := false |>) in
      if fade m then m <| ends ::= fun l => l ++ [EndShown] |> else trigger NShown m
  | OnHidden => trigger NHidden (removeBackdrop m)
  end.

Definition update_overlay (id : nat) (f : overlay -> overlay) (m : modal) : modal :=
  m <| overlays ::= map (fun o => if Nat.eqb (o_id o) id then f o else o) |>.

Definition backdrop (cb : callback) (m : modal) : modal :=
  if isShown m && has_backdrop m then
    let id := fresh m in
    let m := m <| fresh ::= S |> <| backdrop_ := Some id |> in
    if fade m then m <| overlays ::= fun l => l ++ [Overlay id true [cb]] |>
    else call cb (m <| overlays ::= fun l => l ++ [Overlay id true []] |>)
  else
    match isShown m, backdrop_ m with
    | false, Some id =>
        let m := update_overlay id (fun o => o <| o_in := false |>) m in
        if fade m then update_overlay id (fun o => o <| o_ends ::= fun l => l ++ [cb] |>) m
        else call cb m
    | _, _ => call cb m
    end.

Definition hideModal (m : modal) : modal := backdrop OnHidden (m <| display := false |>).

Definition hideWithTransition (m : modal) : modal :=
  let timer := fresh m in
  m <| fresh ::= S |> <| timers ::= fun l => l ++ [timer] |>
    <| ends ::= fun l => l ++ [EndHide timer] |>.

Definition show (prevented : bool) (m : modal) : modal :=
  let m := trigger NShow m in
  if isShown m || prevented then m
  else backdrop OnShow (escape (m <| isShown := true |>)).

Definition hide (prevented : bool) (m : modal) : modal :=
  let m := trigger NHide m in
  if negb (isShown m) || prevented then m
  else
    let m := escape (m <| isShown := false |>) in
    let m := m <| focusTraps := 0 |> <| in_ := false |> <| ariaHidden := true |> in
    if fade m then hideWithTransition m else hideModal m.

Definition toggle (prevented : bool) (m : modal) : modal :=
  if negb (isShown m) then show prevented m else hide prevented m.

(** The function [hideWithTransition] gives to its timer. *)
Definition timeout (timer : nat) (m : modal) : modal :=
  hideModal (m <| timers ::= List.filter (fun t => negb (Nat.eqb t timer)) |> <| ends := [] |>).

Definition end_of_transition (h : end_handler) (m : modal) : modal :=
  match h with
  | EndShown => trigger NShown m
  | EndHide timer =>
      hideModal (m <| timers ::= List.filter (fun t => negb (Nat.eqb t timer)) |>)
  end.

(** Commands of the page and the user, and reports of the browser: the element's
    transition has ended, that of an overlay, a timer has run out. *)
Inductive event :=
  | Show (prevented : bool) | Hide (prevented : bool) | Toggle (prevented : bool)
  | Escape (prevented : bool) | OverlayClick (n : nat) (prevented : bool)
  | TransitionEnd | OverlayEnd (n : nat) | Timeout (n : nat).

Definition handle (e : event) (m : modal) : modal :=
  match e with
  | Show p => show p m
  | Hide p => hide p m
  | Toggle p => toggle p m
  | Escape p => Nat.iter (keyups m) (hide p) m
  | OverlayClick n p =>
      match overlays m !! n, opt_backdrop m with
      | Some _, ClickBackdrop => hide p m
      | _, _ => m
      end
  | TransitionEnd =>
      foldl (fun m h => end_of_transition h m) (m <| ends := [] |>) (ends m)
  | OverlayEnd n =>
      match overlays m !! n with
      | Some o =>
          foldl (fun m cb => call cb m)
            (update_overlay (o_id o) (fun o => o <| o_ends := [] |>) m) (o_ends o)
      | None => m
      end
  | Timeout n =>
      match timers m !! n with Some timer => timeout timer m | None => m end
  end.

Definition handle_all (es : list event) (m : modal) : modal :=
  foldl (fun m e => handle e m) m es.

(** * The dialogue as its users see it *)

Inductive phase := Hidden | Dimming | Rising | Shown | Sinking | Clearing.

Section Spec.
Variables (f : bool) (b : backdrop_option) (k : bool).

Definition dims : bool := match b with NoBackdrop => false | _ => true end.

(** Hiding while the dialogue is still coming, and showing while it is still going, are
    impatient: [None]. *)
Definition spec_show (p : bool) (ph : phase) : option (phase * list notice) :=
  match ph with
  | Hidden =>
      Some (if p then (Hidden, [NShow])
            else if f then (if dims then Dimming else Rising, [NShow])
            else (Shown, [NShow; NShown]))
  | Dimming | Rising | Shown => Some (ph, [NShow])
  | Sinking | Clearing => if p then Some (ph, [NShow]) else None
  end.

Definition spec_hide (p : bool) (ph : phase) : option (phase * list notice) :=
  match ph with
  | Shown =>
      Some (if p then (Shown, [NHide])
            else if f then (Sinking, [NHide]) else (Hidden, [NHide; NHidden]))
  | Hidden | Sinking | Clearing => Some (ph, [NHide])
  | Dimming | Rising => if p then Some (ph, [NHide]) else None
  end.

Definition spec_sunk : phase * list notice := if dims then (Clearing, []) else (Hidden, [NHidden]).

Definition open_phase (ph : phase) : bool :=
  match ph with Dimming | Rising | Shown => true | _ => false end.

Definition spec_step (e : event) (ph : phase) : option (phase * list notice) :=
  match e with
  | Show p => spec_show p ph
  | Hide p => spec_hide p ph
  | Toggle p => if open_phase ph then spec_hide p ph else spec_show p ph
  | Escape p => if k && open_phase ph then spec_hide p ph else Some (ph, [])
  | OverlayClick n p =>
      match b, ph, n with
      | ClickBackdrop, Hidden, _ => Some (ph, [])
      | ClickBackdrop, _, 0 => spec_hide p ph
      | _, _, _ => Some (ph, [])
      end
  | TransitionEnd =>
      Some (match ph with Rising => (Shown, [NShown]) | Sinking => spec_sunk | _ => (ph, []) end)
  | Timeout n =>
      Some (match ph, n with Sinking, 0 => spec_sunk | _, _ => (ph, []) end)
  | OverlayEnd n =>
      Some (match ph, n with
            | Dimming, 0 => (Rising, [])
            | Clearing, 0 => (Hidden, [NHidden])
            | _, _ => (ph, [])
            end)
  end.

Fixpoint spec_run (es : list event) (ph : phase) : option (phase * list notice) :=
  match es with
  | [] => Some (ph, [])
  | e :: es =>
      match spec_step e ph with
      | Some (ph, ns) =>
          match spec_run es ph with Some (ph', ns') => Some (ph', ns ++ ns') | None => None end
      | None => None
      end
  end.
End Spec.

(** What the page looks like in each phase. *)
Definition looks (ph : phase) (m : modal) : Prop :=
  exists id t,
    let kb := if keyboard m then 1 else 0 in
    let over i cbs := if has_backdrop m then [Overlay id i cbs] else [] in
    let ref := if has_backdrop m then Some id else None in
    (isShown m, (display m, in_ m), (focusTraps m, keyups m), (ends m, timers m),
     (overlays m, backdrop_ m))
    = match ph with
      | Hidden => (false, (false, false), (0, 0), ([], []), ([], None))
      | Dimming => (true, (false, false), (0, kb), ([], []), (over true [OnShow], ref))
      | Rising => (true, (true, true), (1, kb), ([EndShown], []), (over true [], ref))
      | Shown => (true, (true, true), (1, kb), ([], []), (over true [], ref))
      | Sinking => (false, (true, false), (0, 0), ([EndHide t], [t]), (over true [], ref))
      | Clearing => (false, (false, false), (0, 0), ([], []), (over false [OnHidden], ref))
      end /\
    match ph with
    | Hidden | Shown => True
    | Rising | Sinking => fade m = true
    | Dimming | Clearing => fade m = true /\ has_backdrop m = true
    end.

Lemma looks_new f b k : looks Hidden (Modal_new f b k).
Proof. by exists 0, 0. Qed.

(** Evaluates a step from a phase whose page is known, and names the page it reaches. *)
Ltac eval_step Hs fr id t :=
  cbv -[Nat.eqb app] in Hs; try discriminate Hs; injection Hs as <- <-;
  cbv -[Nat.eqb app looks]; rewrite ?Nat.eqb_refl; cbv -[Nat.eqb app looks];
  (split; [first [by exists id, t | by exists fr, t | by exists id, fr]
          |by rewrite ?app_nil_r, <- ?app_assoc]).

Lemma step_refines e ph m ph' ns :
  looks ph m -> spec_step (fade m) (opt_backdrop m) (keyboard m) e ph = Some (ph', ns) ->
  looks ph' (handle e m) /\ notices (handle e m) = notices m ++ ns.
Proof.
  destruct m as [f b k sh d i ah ft ku en ti fr ov bd no].
  intros (id & t & Hv & Hw) Hs. cbn in Hv, Hw, Hs. unfold has_backdrop in *. cbn in *.
  destruct ph; injection Hv as -> -> -> -> -> -> -> -> ->;
    try match goal with H : _ /\ _ |- _ => destruct H as [Hw Hd] end; subst; destruct e;
    destruct b; try discriminate.
  all: repeat match goal with p : bool |- _ => destruct p end.
  all: try destruct n as [|n].
  all: eval_step Hs fr id t.
Qed.

(** * What every event preserves *)

Definition options_of (m : modal) := (fade m, opt_backdrop m, keyboard m).

(** A property of the options, the overlays and [this.$backdrop] that the four ways of
    touching the overlays preserve is preserved by every event. *)
Section Invariant.
Variable P : modal -> Prop.
Hypothesis P_frame : forall m m',
  options_of m' = options_of m -> overlays m' = overlays m -> backdrop_ m' = backdrop_ m ->
  fresh m <= fresh m' -> P m -> P m'.
Hypothesis P_update : forall id f m,
  (forall o, o_id (f o) = o_id o) -> P m -> P (update_overlay id f m).
Hypothesis P_new : forall cbs m,
  P m -> P (m <| fresh ::= S |> <| backdrop_ := Some (fresh m) |>
              <| overlays ::= fun l => l ++ [Overlay (fresh m) true cbs] |>).
Hypothesis P_remove : forall m, P m -> P (removeBackdrop m).

Ltac frame u := apply (P_frame u); [done|done|done|cbn; lia|].

Lemma P_call cb m : P m -> P (call cb m).
Proof.
  intros H. destruct cb; cbn [call]; cbn zeta; [destruct (fade _); by frame m|].
  frame (removeBackdrop m). by apply P_remove.
Qed.

Lemma P_backdrop cb m : P m -> P (backdrop cb m).
Proof.
  intros H. unfold backdrop. cbn zeta. destruct (_ && _).
  - destruct (fade _); [by apply (P_new [cb])|]. by apply P_call, (P_new []).
  - destruct (isShown m), (backdrop_ m) as [j|]; try by apply P_call.
    destruct (fade _); [apply P_update; [done|]|apply P_call]; by apply P_update.
Qed.

Lemma P_hideModal m : P m -> P (hideModal m).
Proof. intros H. apply P_backdrop. by frame m. Qed.

Lemma P_escape m : P m -> P (escape m).
Proof. intros H. unfold escape. destruct (_ && _); [|destruct (negb _)]; by frame m. Qed.

Lemma P_show p m : P m -> P (show p m).
Proof.
  intros H. unfold show. cbn zeta. destruct (_ || _); [by frame m|].
  apply P_backdrop, P_escape. by frame m.
Qed.

Lemma P_hide p m : P m -> P (hide p m).
Proof.
  intros H. unfold hide. cbn zeta. destruct (_ || _); [by frame m|].
  set (u := escape _). assert (Hu : P u) by (apply P_escape; by frame m). clearbody u.
  destruct (fade _); [by frame u|]. apply P_hideModal. by frame u.
Qed.

Lemma P_handle e m : P m -> P (handle e m).
Proof.
  intros H. destruct e; cbn [handle].
  - by apply P_show.
  - by apply P_hide.
  - unfold toggle. destruct (negb _); [by apply P_show|by apply P_hide].
  - induction (keyups m) as [|j IH]; [done|]. by apply P_hide.
  - destruct (overlays m !! n), (opt_backdrop m); try done. by apply P_hide.
  - assert (Hu : P (m <| ends := [] |>)) by by frame m. revert Hu.
    generalize (m <| ends := [] |>). induction (ends m) as [|h l IH]; intros u Hu; [done|].
    apply IH. destruct h; [by frame u|]. apply P_hideModal. by frame u.
  - destruct (overlays m !! n) as [o|]; [|done].
    assert (Hu : P (update_overlay (o_id o) (fun o => o <| o_ends := [] |>) m)) by by apply P_update.
    revert Hu. generalize (update_overlay (o_id o) (fun o => o <| o_ends := [] |>) m).
    induction (o_ends o) as [|c l IH]; intros u Hu; [done|]. by apply IH, P_call.
  - destruct (timers m !! n); [|done]. apply P_hideModal. by frame m.
Qed.

Lemma P_handle_all es m : P m -> P (handle_all es m).
Proof. revert m. induction es as [|e es IH]; intros m H; [done|]. by apply IH, P_handle. Qed.
End Invariant.

(** The options are never written. *)
Lemma modal_options e m : options_of (handle e m) = options_of m.
Proof.
  apply (P_handle (fun u => options_of u = options_of m)); [congruence|done|done| |done].
  intros u Hu. unfold removeBackdrop. by destruct (backdrop_ u).
Qed.

(** C18. For a patient user, who neither hides the dialogue while it is still coming nor
    shows it while it is still going, the dialogue is the six-phase machine of the
    specification: after any commands and reports of the browser, in any order, the page
    looks as the phase reached says (shown with one overlay, one focus trap and one
    Escape handler, or hidden with none of them), and the events triggered are exactly
    those of the machine, [shown] and [hidden] once for each completed change. *)
Theorem patient_modal_refines es ph m ph' ns :
  looks ph m ->
  spec_run (fade m) (opt_backdrop m) (keyboard m) es ph = Some (ph', ns) ->
  looks ph' (handle_all es m) /\ notices (handle_all es m) = notices m ++ ns.
Proof.
  revert ph m ns. induction es as [|e es IH]; intros ph m ns Hl Hr; cbn in Hr.
  - injection Hr as <- <-. by rewrite app_nil_r.
  - destruct (spec_step _ _ _ _ _) as [[ph1 ns1]|] eqn:Es; [|done].
    destruct (step_refines _ _ _ _ _ Hl Es) as [Hl1 Hn1].
    pose proof (modal_options e m) as Eo. unfold options_of in Eo. injection Eo as E1 E2 E3.
    rewrite <- E1, <- E2, <- E3 in Hr.
    destruct (spec_run _ _ _ _ _) as [[ph2 ns2]|] eqn:Er; [|done]. injection Hr as -> <-.
    destruct (IH _ _ _ Hl1 Er) as [Hl2 Hn2]. split; [done|].
    change (handle_all (e :: es) m) with (handle_all es (handle e m)).
    by rewrite Hn2, Hn1, app_assoc.
Qed.

(** * Impatience *)

(** An overlay that is no longer [this.$backdrop] stays in the page. *)
Definition orphan (id : nat) (m : modal) : Prop :=
  id ∈ map o_id (overlays m) /\ backdrop_ m <> Some id /\ id < fresh m.

Lemma orphan_stays id es m : orphan id m -> orphan id (handle_all es m).
Proof.
  apply P_handle_all; clear.
  - intros m m' _ E1 E2 E3 (H1 & H2 & H3). unfold orphan. rewrite E1, E2.
    split; [done|]. split; [done|lia].
  - intros j f m Hf (H1 & H2 & H3). split; [|done]. cbn. rewrite map_map.
    rewrite (map_ext _ o_id); [exact H1|].
    intros o. cbn. destruct (Nat.eqb _ _); [apply Hf|done].
  - intros cbs m (H1 & H2 & H3). split; [|split]; cbn.
    + rewrite map_app. apply elem_of_app. by left.
    + intros E. injection E as E. lia.
    + lia.
  - intros m H. unfold removeBackdrop.
    destruct (backdrop_ m) as [j|] eqn:E; [|exact H]. destruct H as (H1 & H2 & H3).
    split; [|split; [discriminate|exact H3]].
    cbn. apply list_elem_of_In, in_map_iff in H1 as (o & <- & Ho).
    apply list_elem_of_In, in_map_iff. exists o. split; [done|]. apply filter_In. split; [done|].
    apply negb_true_iff, Nat.eqb_neq. intros Eo. by subst.
Qed.

(** Evaluates a schedule from a known page, one event at a time; [eqs] decides which
    numbers of overlays and timers are equal. *)
Ltac eval_event eqs :=
  match goal with
  | |- context [handle ?e (Modal ?a ?b ?c ?d ?f ?g ?h ?i ?j ?k ?l ?n ?o ?p ?q)] =>
      let m := constr:(Modal a b c d f g h i j k l n o p q) in
      let r := eval cbv -[Nat.eqb app] in (handle e m) in
      change (handle e m) with r; cbn [app]; eqs; cbv beta iota zeta fix match
  end.

Ltac eval_schedule m' m eqs :=
  unfold m', m, handle_all; cbn [foldl]; repeat eval_event eqs; cbn; by rewrite <- ?app_assoc.

(** Showing the dialogue again while it is still fading out breaks it for good: when
    the transitions end it counts as shown but its element is hidden, two overlays
    cover the page that are no longer [this.$backdrop], and whatever is done afterwards,
    both stay. *)
Theorem reshown_modal_blocks_page m :
  looks Shown m -> fade m = true -> has_backdrop m = true ->
  Forall (fun o => o_id o < fresh m) (overlays m) ->
  let m' := handle_all [Hide false; Show false; OverlayEnd 1; TransitionEnd; OverlayEnd 2] m in
  isShown m' = true /\ display m' = false /\ backdrop_ m' = None /\
  exists a b, a <> b /\ map o_id (overlays m') = [a; b] /\
    forall es, a ∈ map o_id (overlays (handle_all es m')) /\
               b ∈ map o_id (overlays (handle_all es m')).
Proof.
  destruct m as [f b k sh d i ah ft ku en ti fr ov bd no].
  intros (id & t & Hv & _) Hf Hb Hfr. cbn in Hf. subst f. rewrite Hb in Hv. cbn in Hv.
  injection Hv as -> -> -> -> -> -> -> -> ->. inversion_clear Hfr as [|? ? Hlt _]. cbn in Hlt.
  unfold has_backdrop in Hb. cbn in Hb. set (m := Modal _ _ _ _ _ _ _ _ _ _ _ _ _ _ _).
  intros m'.
  assert (N1 : Nat.eqb id (S fr) = false) by (apply Nat.eqb_neq; lia).
  assert (N2 : Nat.eqb id (S (S fr)) = false) by (apply Nat.eqb_neq; lia).
  assert (N3 : Nat.eqb (S fr) (S (S fr)) = false) by (apply Nat.eqb_neq; lia).
  assert (E : (isShown m', display m', backdrop_ m', map o_id (overlays m'), fresh m')
              = (true, false, None, [id; S fr], S (S (S fr))))
    by (destruct b; [done| |]; destruct k; eval_schedule m' m ltac:(rewrite ?N1, ?N2, ?N3, ?Nat.eqb_refl)).
  injection E as E1 E2 E3 E4 E5. do 3 (split; [done|]).
  exists id, (S fr). split; [lia|]. split; [done|]. intros es.
  split; apply orphan_stays; (split; [rewrite E4; set_solver|rewrite E3, E5; split; [done|lia]]).
Qed.

(** Hiding the dialogue before its overlay has come leaves traces: once the
    transitions have ended the dialogue is hidden, but it has announced [shown] after
    [hide], its class is [in], and its focus trap still pulls the focus from every
    element of the page. *)
Theorem hasty_hide_leaves_trap m :
  looks Hidden m -> fade m = true -> has_backdrop m = true ->
  let m' := handle_all [Show false; Hide false; OverlayEnd 0; TransitionEnd; OverlayEnd 0] m in
  (isShown m' = false /\ display m' = false /\ overlays m' = []) /\
  in_ m' = true /\ focusTraps m' = 1 /\
  notices m' = notices m ++ [NShow; NHide; NShown; NHidden].
Proof.
  destruct m as [f b k sh d i ah ft ku en ti fr ov bd no].
  intros (id & t & Hv & _) Hf Hb. cbn in Hf, Hv. subst f.
  injection Hv as -> -> -> -> -> -> -> -> ->.
  unfold has_backdrop in Hb. cbn in Hb. set (m := Modal _ _ _ _ _ _ _ _ _ _ _ _ _ _ _).
  intros m'.
  assert (E : (isShown m', display m', overlays m', in_ m', focusTraps m', notices m')
              = (false, false, [], true, 1, notices m ++ [NShow; NHide; NShown; NHidden]))
    by (destruct b; [done| |]; destruct k; eval_schedule m' m ltac:(rewrite ?Nat.eqb_refl)).
  injection E as E1 E2 E3 E4 E5 E6. by rewrite E1, E2, E3, E4, E5, E6.
Qed.

(** * Witnesses *)

Definition dialogue : modal := Modal_new true ClickBackdrop true.

(** Shown by a patient user: the overlay, then the dialogue have come. *)
Definition dialogue_shown : modal :=
  handle_all [Show false; OverlayEnd 0; TransitionEnd] dialogue.

Lemma patient_modal_refines_witness :
  let m := handle_all [Toggle false; OverlayEnd 0; TransitionEnd; Escape false; Timeout 0;
                       TransitionEnd; OverlayEnd 0; Show true] dialogue in
  looks Hidden m /\ notices m = [NShow; NShown; NHide; NHidden; NShow].
Proof.
  exact (patient_modal_refines
    [Toggle false; OverlayEnd 0; TransitionEnd; Escape false; Timeout 0;
     TransitionEnd; OverlayEnd 0; Show true] Hidden dialogue Hidden
    [NShow; NShown; NHide; NHidden; NShow] (looks_new _ _ _) eq_refl).
Defined.

Lemma looks_shown : looks Shown dialogue_shown.
Proof. by exists 0, 0. Qed.

Lemma reshown_modal_blocks_page_witness :
  let m' := handle_all [Hide false; Show false; OverlayEnd 1; TransitionEnd; OverlayEnd 2]
              dialogue_shown in
  isShown m' = true /\ display m' = false /\ map o_id (overlays m') = [0; 2].
Proof.
  destruct (reshown_modal_blocks_page dialogue_shown looks_shown eq_refl eq_refl)
    as (H1 & H2 & _); [repeat constructor|].
  split; [exact H1|]. split; [exact H2|]. reflexivity.
Defined.

Lemma hasty_hide_leaves_trap_witness :
  focusTraps (handle_all [Show false; Hide false; OverlayEnd 0; TransitionEnd; OverlayEnd 0]
                dialogue) = 1.
Proof.
  destruct (hasty_hide_leaves_trap dialogue (looks_new _ _ _) eq_refl eq_refl) as (_ & _ & H & _).
  exact H.
Defined.
