(* ===== verification/Marathon.v ===== *)
(** Marathon: the console that starts, scales and stops applications
    (marathon/js/marathon.js, with the form of marathon/index.html).

    Models are shared objects: the collections, the views and the form refer to an [Item]
    by its cid, and [store] holds its attributes.  What Backbone 1.0 does with them (set,
    add, create, destroy, reset, get) is written out here for the calls the console makes.
    Requests are recorded when they are sent; their answers are events.  A handler that
    throws ends there and leaves what it has done. *)

From S2P Require Import Prelude.
From coqutil Require Import Datatypes.RecordSettersUsingExistingGetters.

(** The browser: case tables, the words of a class attribute, the text of markup, and
    the product of two attributes. *)
Class Browser := {
  toLowerCase : jstr -> jstr;
  class_words : jstr -> list jstr;
  text_of_html : jstr -> jstr
}.

(** An attribute: a number by its decimal text, a string, an array of strings or null. *)
Inductive value := VNum (text : jstr) | VStr (s : jstr) | VList (l : list jstr) | VNull.

#[export] Instance value_eq_dec : EqDecision value.
Proof. solve_decision. Defined.

Abbreviation attrs := (gmap jstr value).

(** What a template writes for a value. *)
Definition to_text (v : value) : jstr :=
  match v with VNum s | VStr s => s | VList l => join (js ",") l | VNull => [] end.

(** * Requests *)

Inductive request :=
  | Start (body : attrs)      (* PUT, by override, /v1/apps/start.do *)
  | Stop (body : attrs)       (* DELETE, by override, /v1/apps/stop.do *)
  | Scale (body : attrs).     (* POST /v1/apps/scale.do *)

(** The [method]s [Item.sync] is called with. *)
Inductive sync_method := MUpdate | MDelete | MScale.

(** * Views *)

(** The places of an [AppItemView]'s template. *)
Record rendered := Rendered {
  h_id : jstr; h_cmd : jstr; h_uriCount : nat; h_uris : jstr; h_mem : jstr;
  h_cpus : jstr; h_instances : jstr
}.

Record app_view := AppItemView {
  v_model : nat;
  classes : list jstr;
  html : option rendered;
  v_display : jstr;                (* style.display *)
  attached : bool
}.

(** * The lightbox *)

Record lightbox := Lightbox {
  lb_open : bool;
  lb_lock : bool;
  lb_visible : bool;               (* the element *)
  lb_content : option nat;         (* the model of the form shown *)
  lb_closed : nat                  (* 'close' events triggered *)
}.

Definition lb_new : lightbox := Lightbox false false false None 0.
Definition lb_toggle (b : lightbox) : lightbox := b <| lb_visible := lb_open b |>.

(** [this.set('open', v)]: the change, if it is one, toggles the element. *)
Definition set_open (v : bool) (b : lightbox) : lightbox :=
  if Bool.eqb (lb_open b) v then b else lb_toggle (b <| lb_open := v |>).

Definition open_ (b : lightbox) : lightbox := set_open true b.
Definition close (b : lightbox) : lightbox := set_open false (b <| lb_closed ::= S |>).
Definition dismiss (b : lightbox) : lightbox := if negb (lb_lock b) then close b else b.
Definition lock (b : lightbox) : lightbox := b <| lb_lock := true |>.
Definition unlock (b : lightbox) : lightbox := b <| lb_lock := false |>.
Definition setContent (form : nat) (b : lightbox) : lightbox := b <| lb_content := Some form |>.

(** A click on the element: where it falls decides which handlers see it, from the
    inside out; [noop] stops it at the content. *)
Inductive click_target := OnBackground | OnContent | OnCloser (inside_content : bool).

Definition lb_click (t : click_target) (b : lightbox) : lightbox :=
  match t with
  | OnBackground => dismiss b
  | OnContent => b
  | OnCloser true => close b
  | OnCloser false => dismiss (close b)
  end.

(** * The page *)

Record page := Page {
  counter : nat;                   (* underscore's uniqueId *)
  store : gmap nat attrs;          (* the models' attributes, by cid *)
  apps : list nat;                 (* the collection of the applications *)
  all : option (list nat);         (* window.all, once the applications have arrived *)
  views : list app_view;           (* in the order of their creation and of the page *)
  lis : list nat;                  (* the elements fastLiveFilter caches *)
  oldDisplay : jstr;
  input : jstr;
  systemText : jstr;
  keyTimeout : bool;
  box : lightbox;
  requests : list request;         (* sent so far, the latest last *)
  filtered : list (nat * list (option nat))   (* the calls of the filter's callback *)
}.

(** A handler ends normally or throws; the page keeps what was done. *)
Inductive outcome := Ok (p : page) | Throw (p : page).

Definition page_of (o : outcome) : page := match o with Ok p | Throw p => p end.

Definition bind (o : outcome) (f : page -> outcome) : outcome :=
  match o with Ok p => f p | Throw p => Throw p end.
Notation "'let!' p := o 'in' e" := (bind o (fun p => e))
  (at level 10, p name, o at level 200, e at level 200).

Definition Page_new : page :=
  Page 0 ∅ [] None [] [] [] [] [] false lb_new [] [].

Section Marathon.
Context {B : Browser}.

Definition attr (k : string) (a : attrs) : value := default VNull (a !! js k).

Definition attrs_of (c : nat) (p : page) : attrs := default ∅ (store p !! c).

(** [_.uniqueId(prefix)]: the number it has used is the new counter. *)
Definition uniqueId (p : page) : page := p <| counter ::= S |>.

(** ** Item *)

Definition defaults (n : nat) : attrs :=
  list_to_map [(js "id", VStr (js "app_" ++ js_of_N (N.of_nat n)));
               (js "cmd", VStr (js "sleep 10")); (js "mem", VNum (js "10"));
               (js "cpus", VNum (js "0.1")); (js "instances", VNum (js "1"));
               (js "uris", VList [])].

(** [new Item(data)]: the attributes missing from [data] are the defaults; the cid is
    the counter before the default id's. *)
Definition new_Item (data : attrs) (p : page) : nat * page :=
  let p := uniqueId p in
  let cid := counter p in
  let p := uniqueId p in
  (cid, p <| store ::= insert cid (data ∪ defaults (counter p)) |>).

Definition send (r : request) (p : page) : page := p <| requests ::= fun l => l ++ [r] |>.

Definition sync (m : sync_method) (c : nat) (p : page) : page :=
  let body := attrs_of c p in
  match m with
  | MDelete => send (Stop body) p
  | MScale => send (Scale body) p
  | MUpdate => send (Start body) p
  end.

(** ** AppItemView *)

(** [data()] in the template: [uris] must be an array. *)
Definition render_data (a : attrs) : option rendered :=
  match attr "uris" a with
  | VList uris =>
      Some (Rendered (to_text (attr "id" a)) (to_text (attr "cmd" a)) (length uris)
              (join (js "<li>") uris) (to_text (attr "mem" a)) (to_text (attr "cpus" a))
              (to_text (attr "instances" a)))
  | _ => None
  end.

(** [$el.addClass(id)]: the words of a string that the element does not have yet. *)
Definition add_classes (id : value) (cs : list jstr) : list jstr :=
  match id with
  | VStr s => foldl (fun cs w => if decide (w ∈ cs) then cs else cs ++ [w]) cs (class_words s)
  | _ => cs
  end.

Definition new_AppItemView (c : nat) (p : page) : app_view :=
  AppItemView c (add_classes (attr "id" (attrs_of c p)) [js "app-list-item"]) None [] false.

(** The [i]th view's [render]. *)
Definition render_view (i : nat) (p : page) : outcome :=
  match views p !! i with
  | Some v =>
      match render_data (attrs_of (v_model v) p) with
      | Some h => Ok (p <| views ::= alter (fun v => v <| html := Some h |>) i |>)
      | None => Throw p
      end
  | None => Ok p
  end.

(** The views of a model render in the order they were made. *)
Fixpoint render_views (idxs : list nat) (p : page) : outcome :=
  match idxs with
  | [] => Ok p
  | i :: idxs => (let! p := render_view i p in render_views idxs p)
  end.

Definition views_of (c : nat) (p : page) : list nat :=
  omap (fun iv => if Nat.eqb (v_model (snd iv)) c then Some (fst iv) else None)
       (imap pair (views p)).

(** [model.set(changes)]: everything is written, then change:instances is triggered. *)
Definition set_attrs (c : nat) (changes : attrs) (p : page) : outcome :=
  let old := attrs_of c p in
  let p := p <| store ::= insert c (changes ∪ old) |> in
  match changes !! js "instances" with
  | Some v => if decide (old !! js "instances" = Some v) then Ok p
              else render_views (views_of c p) p
  | None => Ok p
  end.

Definition scale (c : nat) (num : value) (p : page) : outcome :=
  let! p := set_attrs c {[js "instances" := num]} p in Ok (sync MScale c p).

(** [model.destroy()]: the request, if the model has an id, then the 'destroy' event: the
    collections drop the model, its views leave the page. *)
Definition remove_views (c : nat) (p : page) : page :=
  p <| views ::= map (fun v => if Nat.eqb (v_model v) c then v <| attached := false |> else v) |>.

Definition destroy_model (c : nat) (p : page) : page :=
  let p := if decide (attr "id" (attrs_of c p) = VNull) then p else sync MDelete c p in
  let without := List.filter (fun d => negb (Nat.eqb d c)) in
  remove_views c (p <| apps ::= without |> <| all ::= fmap without |>).

(** ** Buttons of a view in the page; the answers of [confirm] and [prompt] are given. *)
Definition view_in_page (i : nat) (p : page) : option nat :=
  match views p !! i with
  | Some v => if attached v then Some (v_model v) else None
  | None => None
  end.

Definition suspend (c : nat) (confirmed : bool) (p : page) : outcome :=
  if confirmed then scale c (VNum (js "0")) p else Ok p.

Definition destroy (c : nat) (confirmed : bool) (p : page) : outcome :=
  if confirmed then Ok (destroy_model c p) else Ok p.

Definition scale_prompt (c : nat) (instances : option jstr) (p : page) : outcome :=
  if truthy instances then scale c (VStr (default [] instances)) p else Ok p.

(** ** HomeView *)

(** [add]: a view of the model before the add button; it is in the page once rendered. *)
Definition add (c : nat) (p : page) : outcome :=
  let p := uniqueId p in
  let i := length (views p) in
  let p := p <| views ::= fun l => l ++ [new_AppItemView c p] |> in
  let! p := render_view i p in
  Ok (p <| views ::= alter (fun v => v <| attached := true |>) i |>).

Fixpoint add_each (cs : list nat) (p : page) : outcome :=
  match cs with
  | [] => Ok p
  | c :: cs => (let! p := add c p in add_each cs p)
  end.

Definition render (p : page) : outcome := add_each (apps p) p.

(** [collection.get(model)]: the model of the collection with the same id, as a key. *)
Definition key_of (c : nat) (p : page) : option jstr :=
  match attr "id" (attrs_of c p) with VNull => None | v => Some (to_text v) end.

Definition get_app (key : option jstr) (cs : list nat) (p : page) : option nat :=
  match key with
  | Some k => List.find (fun c => bool_decide (key_of c p = Some k)) cs
  | None => None
  end.

(** [collection.create(data)]: the new model joins the collection unless one with its id
    is there; it is saved in either case. *)
Definition create (data : attrs) (p : page) : outcome :=
  let (c, p) := new_Item data p in
  let! p := match get_app (key_of c p) (apps p) p with
            | Some _ => Ok p
            | None => add c (p <| apps ::= fun l => l ++ [c] |>)
            end in
  Ok (sync MUpdate c p).

(** The texts in the form's inputs. *)
Record form := Form {
  f_id : jstr; f_cmd : jstr; f_mem : jstr; f_cpus : jstr; f_instances : jstr; f_uris : jstr
}.

Definition space : N := 32.
Definition comma : N := 44.

Definition parse_uris (val : jstr) : list jstr :=
  List.filter (fun s => negb (bool_decide (s = [])))
    (map (List.filter (fun c => negb (N.eqb c space))) (split comma val)).

Definition form_data (f : form) : attrs :=
  list_to_map [(js "id", VStr (f_id f)); (js "cmd", VStr (f_cmd f)); (js "mem", VStr (f_mem f));
               (js "cpus", VStr (f_cpus f)); (js "instances", VStr (f_instances f));
               (js "uris", VList (parse_uris (f_uris f)))].

Definition save (f : form) (p : page) : outcome :=
  let! p := create (form_data f) p in Ok (p <| box ::= close |>).

(** [addNew]: a fresh model only for the form's texts, the form's view, the lightbox. *)
Definition addNew (p : page) : page :=
  let (c, p) := new_Item ∅ p in
  uniqueId p <| box ::= fun b => open_ (setContent c b) |>.

(** A click in the lightbox.  The form's buttons have no type or the type submit: after the
    click's handlers the browser submits the form. *)
Inductive form_click := Cancel | Submit.

Definition click_button (b : form_click) (f : form) (p : page) : outcome :=
  let p := match b with
           | Cancel => p <| box ::= lb_click (OnCloser true) |>
           | Submit => p <| box ::= lb_click OnContent |>
           end in
  save f p.

(** ** The applications arrive: [collection.reset], [render], then [fastLiveFilter]. *)
Fixpoint add_models (items : list attrs) (p : page) : page :=
  match items with
  | [] => p
  | data :: items =>
      let (c, p) := new_Item data p in
      add_models items
        match get_app (key_of c p) (apps p) p with
        | Some _ => p
        | None => p <| apps ::= fun l => l ++ [c] |>
        end
  end.

Definition attached_views (p : page) : list nat :=
  omap (fun iv => if attached (snd iv) then Some (fst iv) else None) (imap pair (views p)).

Definition fastLiveFilter (p : page) : page :=
  let lis' := attached_views p in
  let old := match lis' with
             | i :: _ => default [] (v_display <$> views p !! i)
             | [] => js "block"
             end in
  p <| lis := lis' |> <| oldDisplay := old |> <| filtered ::= fun l => l ++ [(length lis', [])] |>.

Definition loaded (items : list attrs) (p : page) : outcome :=
  let p := add_models items (p <| apps := [] |>) in
  let! p := render p in Ok (fastLiveFilter (p <| all := Some (apps p) |>)).

(** ** The filter *)

Definition title (v : app_view) : jstr :=
  match html v with Some h => text_of_html (h_id h) | None => [] end.

Definition matches (filter : jstr) (v : app_view) : bool :=
  contains filter (toLowerCase (title v)).

Definition filter_view (filter old : jstr) (v : app_view) : app_view :=
  if matches filter v
  then if decide (v_display v = js "none") then v <| v_display := old |> else v
  else v <| v_display := js "none" |>.

(** [window.all.get(oli.classList[1])]. *)
Definition model_of_view (p : page) (v : app_view) : option nat :=
  match classes v !! 1, all p with
  | Some key, Some cs => get_app (Some key) cs p
  | _, _ => None
  end.

Definition run_filter (p : page) : page :=
  let filter := toLowerCase (input p) in
  let shown := List.filter (matches filter) (omap (fun i => views p !! i) (lis p)) in
  let results := map (model_of_view p) shown in
  p <| views ::= imap (fun i v => if decide (i ∈ lis p) then filter_view filter (oldDisplay p) v
                                  else v) |>
    <| filtered ::= fun l => l ++ [(length results, results)] |>.

(** A key in the input: the texts, and the timer once the filter is there. *)
Definition typed (text : jstr) (p : page) : page :=
  p <| input := text |> <| systemText := text |>
    <| keyTimeout := present (all p) || keyTimeout p |>.

(** ** Events *)
Inductive event :=
  | Loaded (items : list attrs)
  | AddNew
  | Button (b : form_click) (f : form)
  | LightboxClick (t : click_target)
  | ScaleClick (i : nat) (answer : option jstr)
  | SuspendClick (i : nat) (confirmed : bool)
  | DestroyClick (i : nat) (confirmed : bool)
  | Saved (c : nat) (answer : attrs)
  | Typed (text : jstr)
  | KeyTimeout
  | Change.

Definition handle (e : event) (p : page) : outcome :=
  match e with
  | Loaded items => loaded items p
  | AddNew => Ok (addNew p)
  | Button b f => if lb_visible (box p) && present (lb_content (box p))
                  then click_button b f p else Ok p
  | LightboxClick t => if lb_visible (box p) then Ok (p <| box ::= lb_click t |>) else Ok p
  | ScaleClick i a => match view_in_page i p with Some c => scale_prompt c a p | None => Ok p end
  | SuspendClick i b => match view_in_page i p with Some c => suspend c b p | None => Ok p end
  | DestroyClick i b => match view_in_page i p with Some c => destroy c b p | None => Ok p end
  | Saved c a => if present (store p !! c) then set_attrs c a p else Ok p
  | Typed t => Ok (typed t p)
  | KeyTimeout => if keyTimeout p then Ok (run_filter (p <| keyTimeout := false |>)) else Ok p
  | Change => if present (all p) then Ok (run_filter p) else Ok p
  end.

Definition handle_all (es : list event) (p : page) : page :=
  foldl (fun p e => page_of (handle e p)) p es.
End Marathon.
