(* ===== verification/MarathonFacts.v ===== *)
(** Facts about the Marathon console: its page mirrors the collection of applications
    whatever the users and the server do, and what each action sends. *)

From S2P Require Import Prelude Marathon.
From coqutil Require Import Datatypes.RecordSettersUsingExistingGetters.

Section Facts.
Context {B : Browser}.

(** * Attributes whose uris are an array *)

Definition lists (a : attrs) : Prop := exists l, attr "uris" a = VList l.

Definition good_attrs (a : attrs) : Prop :=
  match a !! js "uris" with None | Some (VList _) => True | _ => False end.

Lemma lists_union a b : good_attrs a -> lists b -> lists (a ∪ b).
Proof.
  unfold good_attrs, lists, attr. intros H [l Hl]. rewrite lookup_union.
  destruct (a !! js "uris") as [[| |l'|]|]; try done.
  - exists l'. by destruct (b !! js "uris").
  - exists l. by destruct (b !! js "uris").
Qed.

Lemma lists_defaults n : lists (defaults n).
Proof. by exists []. Qed.

Lemma render_data_lists a :
  lists a -> exists h, render_data a = Some h /\ h_instances h = to_text (attr "instances" a).
Proof. intros [l Hl]. unfold render_data. rewrite Hl. by eexists. Qed.

(** * The invariant of the page *)

Definition page_apps (p : page) : list nat :=
  omap (fun v => if attached v then Some (v_model v) else None) (views p).

(** What a view in the page shows of its model. *)
Definition up_to_date (p : page) (v : app_view) : Prop :=
  attached v = true ->
  exists h, html v = Some h /\
    h_instances h = to_text (attr "instances" (attrs_of (v_model v) p)).

Definition distinct_keys (p : page) : Prop :=
  forall c d k, c ∈ apps p -> d ∈ apps p ->
    key_of c p = Some k -> key_of d p = Some k -> c = d.

Record core (p : page) : Prop := {
  s_nodup : NoDup (apps p);
  s_known : Forall (fun v => is_Some (store p !! v_model v)) (views p);
  s_store : forall c a, store p !! c = Some a -> lists a /\ c <= counter p;
  s_apps : Forall (fun c => is_Some (store p !! c)) (apps p);
  s_keys : distinct_keys p
}.

Definition sound (p : page) : Prop :=
  page_apps p = apps p /\ core p /\ Forall (up_to_date p) (views p).

Lemma core_lists p c : core p -> is_Some (store p !! c) -> lists (attrs_of c p).
Proof.
  intros H [a Ha]. unfold attrs_of. rewrite Ha. by apply (s_store p H c).
Qed.

(** * Rendering never throws *)

(** [f] at the places [idxs]. *)
Definition at_places (f : app_view -> app_view) (idxs : list nat) (vs : list app_view) :=
  imap (fun i v => if decide (i ∈ idxs) then f v else v) vs.

Lemma at_places_nil f vs : at_places f [] vs = vs.
Proof.
  apply list_eq. intros j. unfold at_places. rewrite list_lookup_imap.
  destruct (vs !! j); [|done]. cbn. by rewrite decide_False by set_solver.
Qed.

Lemma at_places_cons f i idxs vs :
  (forall v, f (f v) = f v) ->
  at_places f (i :: idxs) vs = at_places f idxs (alter f i vs).
Proof.
  intros Hf. apply list_eq. intros j. unfold at_places. rewrite !list_lookup_imap.
  destruct (decide (i = j)) as [<-|Hij].
  - rewrite list_lookup_alter_eq. destruct (vs !! i) as [v|]; [|done]. cbn.
    rewrite decide_True by set_solver. destruct (decide (i ∈ idxs)); [by rewrite Hf|done].
  - rewrite list_lookup_alter_ne by done. destruct (vs !! j) as [v|]; [|done]. cbn.
    destruct (decide (j ∈ idxs)) as [H|H]; [by rewrite decide_True by set_solver|].
    by rewrite decide_False by set_solver.
Qed.

Definition with_views (p : page) (vs : list app_view) : page := p <| views := vs |>.

Lemma with_views_same p : with_views p (views p) = p.
Proof. by destruct p. Qed.

Definition fresh_html (p : page) (v : app_view) : app_view :=
  v <| html := render_data (attrs_of (v_model v) p) |>.

Lemma alter_Some {A} (f g : A -> A) i (l : list A) x :
  l !! i = Some x -> f x = g x -> alter f i l = alter g i l.
Proof.
  intros Hx E. apply list_eq. intros j. destruct (decide (i = j)) as [<-|Hij].
  - rewrite !list_lookup_alter_eq, Hx. cbn. by rewrite E.
  - by rewrite !list_lookup_alter_ne.
Qed.

Lemma alter_None {A} (f : A -> A) i (l : list A) : l !! i = None -> alter f i l = l.
Proof.
  intros Hx. apply list_eq. intros j. destruct (decide (i = j)) as [<-|Hij].
  - by rewrite list_lookup_alter_eq, Hx.
  - by rewrite list_lookup_alter_ne.
Qed.

Lemma render_view_ok i p :
  Forall (fun v => lists (attrs_of (v_model v) p)) (views p) ->
  render_view i p = Ok (with_views p (alter (fresh_html p) i (views p))).
Proof.
  intros H. unfold render_view. destruct (views p !! i) as [v|] eqn:Ei.
  - assert (Hv : lists (attrs_of (v_model v) p)) by by eapply Forall_lookup in H.
    destruct (render_data_lists _ Hv) as (h & Hh & _). rewrite Hh.
    transitivity (Ok (with_views p (alter (fun v => v <| html := Some h |>) i (views p))));
      [done|]. do 2 f_equal. apply (alter_Some _ _ _ _ v Ei). unfold fresh_html. by rewrite Hh.
  - by rewrite alter_None, with_views_same.
Qed.

Lemma render_views_ok idxs p :
  Forall (fun v => lists (attrs_of (v_model v) p)) (views p) ->
  render_views idxs p = Ok (with_views p (at_places (fresh_html p) idxs (views p))).
Proof.
  revert p. induction idxs as [|i idxs IH]; intros p H.
  - by rewrite at_places_nil, with_views_same.
  - cbn [render_views]. rewrite (render_view_ok i p H). cbn [bind]. rewrite IH.
    + by rewrite at_places_cons.
    + change (Forall (fun v => lists (attrs_of (v_model v) p)) (alter (fresh_html p) i (views p))).
      apply Forall_alter; [done|]. by intros x _ Hx.
Qed.

Lemma elem_views_of c p i v : views p !! i = Some v -> i ∈ views_of c p <-> v_model v = c.
Proof.
  intros Hi. unfold views_of. rewrite list_elem_of_omap. split.
  - intros ([j w] & Hj & E). apply list_elem_of_lookup in Hj as [k Hk].
    rewrite list_lookup_imap in Hk. destruct (views p !! k) as [u|] eqn:Eu; [|done].
    injection Hk as <- <-. cbn in E. destruct (Nat.eqb_spec (v_model u) c); [|done].
    injection E as <-. congruence.
  - intros <-. exists (i, v). split; [|cbn; by rewrite Nat.eqb_refl].
    apply list_elem_of_lookup. exists i. rewrite list_lookup_imap, Hi. done.
Qed.

Lemma at_places_views_of f c p :
  at_places f (views_of c p) (views p)
  = map (fun v => if Nat.eqb (v_model v) c then f v else v) (views p).
Proof.
  apply list_eq. intros j. unfold at_places. rewrite list_lookup_imap, list_lookup_fmap.
  destruct (views p !! j) as [v|] eqn:Ej; [|done]. cbn. f_equal.
  pose proof (elem_views_of c p j v Ej) as H. destruct (Nat.eqb_spec (v_model v) c).
  - by rewrite decide_True by by apply H.
  - rewrite decide_False; [done|]. by intros ?%H.
Qed.

(** * Setting attributes *)

(** The page after [set] has written [a], and with the views of [c] rendered again. *)
Definition written (c : nat) (a : attrs) (p : page) : page := p <| store ::= insert c a |>.

Definition refreshed (c : nat) (p : page) : page :=
  with_views p (map (fun v => if Nat.eqb (v_model v) c then fresh_html p v else v) (views p)).

Lemma attrs_written c a p d :
  attrs_of d (written c a p) = if decide (c = d) then a else attrs_of d p.
Proof. unfold attrs_of, written. cbn. by case_decide; simplify_map_eq. Qed.

Lemma is_Some_written c a p d : is_Some (store p !! d) -> is_Some (store (written c a p) !! d).
Proof.
  intros H. cbn. destruct (decide (c = d)) as [<-|]; [rewrite lookup_insert_eq|
    rewrite lookup_insert_ne by done]; eauto.
Qed.

Lemma written_lists c a p :
  core p -> lists a -> Forall (fun v => lists (attrs_of (v_model v) (written c a p))) (views p).
Proof.
  intros H Ha. eapply Forall_impl; [exact (s_known p H)|].
  intros v Hs. cbn beta. rewrite attrs_written. case_decide; [done|]. by apply core_lists.
Qed.

(** Whether [set] has something to render. *)
Definition renders (changes old : attrs) : bool :=
  match changes !! js "instances" with
  | Some v => negb (bool_decide (old !! js "instances" = Some v))
  | None => false
  end.

Lemma set_attrs_result c changes p :
  core p -> lists (changes ∪ attrs_of c p) ->
  let p1 := written c (changes ∪ attrs_of c p) p in
  set_attrs c changes p = Ok (if renders changes (attrs_of c p) then refreshed c p1 else p1).
Proof.
  intros H Hl p1. unfold set_attrs, renders. cbn zeta.
  fold (written c (changes ∪ attrs_of c p) p). fold p1.
  destruct (changes !! js "instances") as [v|]; [|done].
  case_decide as E; [by rewrite bool_decide_true by done|]. rewrite bool_decide_false by done.
  rewrite (render_views_ok (views_of c p1) p1) by by apply (written_lists c _ p).
  by rewrite at_places_views_of.
Qed.

Lemma page_apps_map f p :
  (forall v, v_model (f v) = v_model v /\ attached (f v) = attached v) ->
  page_apps (with_views p (map f (views p))) = page_apps p.
Proof.
  intros Hf. unfold page_apps.
  change (views (with_views p (map f (views p)))) with (map f (views p)).
  induction (views p) as [|v vs IH]; [done|]. cbn.
  destruct (Hf v) as [-> ->]. by rewrite IH.
Qed.

(** The parts of a page that setting attributes leaves alone. *)
Definition rest (p : page) :=
  (counter p, apps p, all p, (lis p, oldDisplay p, input p, systemText p, keyTimeout p),
   (box p, requests p, filtered p)).

Lemma lookup_union_id (changes old : attrs) :
  changes !! js "id" = None -> attr "id" (changes ∪ old) = attr "id" old.
Proof.
  intros H. unfold attr. rewrite lookup_union, H. by destruct (old !! js "id").
Qed.

Lemma attr_lookup k a v : a !! js k = Some v -> attr k a = v.
Proof. intros H. unfold attr. by rewrite H. Qed.

Lemma key_of_written c a p d :
  attr "id" a = attr "id" (attrs_of c p) -> key_of d (written c a p) = key_of d p.
Proof. intros H. unfold key_of. rewrite attrs_written. case_decide; [subst; by rewrite H|done]. Qed.

Lemma distinct_keys_same p p' :
  apps p' = apps p -> (forall c, key_of c p' = key_of c p) -> distinct_keys p -> distinct_keys p'.
Proof. intros E K H c d k. rewrite E, !K. apply H. Qed.

Lemma written_core c a p :
  core p -> is_Some (store p !! c) -> lists a ->
  attr "id" a = attr "id" (attrs_of c p) -> core (written c a p).
Proof.
  intros H [o Ho] Ha Hid. split.
  - exact (s_nodup p H).
  - eapply Forall_impl; [exact (s_known p H)|]. intros v. apply is_Some_written.
  - intros d b Hd. cbn in Hd. destruct (decide (c = d)) as [<-|Hne].
    + rewrite lookup_insert_eq in Hd. injection Hd as <-.
      split; [done|]. exact (proj2 (s_store p H c o Ho)).
    + rewrite lookup_insert_ne in Hd by done. exact (s_store p H d b Hd).
  - eapply Forall_impl; [exact (s_apps p H)|]. intros d. apply is_Some_written.
  - apply (distinct_keys_same p); [done| |exact (s_keys p H)]. intros d. by apply key_of_written.
Qed.

Lemma map_views_core f p :
  (forall v, v_model (f v) = v_model v /\ attached (f v) = attached v) ->
  core p -> core (with_views p (map f (views p))).
Proof.
  intros Hf H. split.
  - exact (s_nodup p H).
  - change (Forall (fun v => is_Some (store p !! v_model v)) (map f (views p))).
    apply Forall_fmap. eapply Forall_impl; [exact (s_known p H)|].
    intros v Hv. cbn. by rewrite (proj1 (Hf v)).
  - exact (s_store p H).
  - exact (s_apps p H).
  - exact (s_keys p H).
Qed.

Lemma refreshed_core c p : core p -> core (refreshed c p).
Proof. apply map_views_core. intros v. by destruct (Nat.eqb _ _). Qed.

(** What a view shows after its model has been written. *)
Lemma up_to_date_written c a p v :
  up_to_date p v -> (v_model v = c -> attr "instances" a = attr "instances" (attrs_of c p)) ->
  up_to_date (written c a p) v.
Proof.
  intros H He Ht. destruct (H Ht) as (h & Hh & E). exists h. split; [done|].
  rewrite attrs_written. case_decide; [|done]. subst c. by rewrite (He eq_refl).
Qed.

Lemma up_to_date_fresh p v : lists (attrs_of (v_model v) p) -> up_to_date p (fresh_html p v).
Proof.
  intros Hl _. destruct (render_data_lists _ Hl) as (h & Hh & E). by exists h.
Qed.

Lemma set_attrs_sound c changes p :
  sound p -> is_Some (store p !! c) -> good_attrs changes -> changes !! js "id" = None ->
  exists p', set_attrs c changes p = Ok p' /\ sound p' /\ rest p' = rest p /\
    store p' = insert c (changes ∪ attrs_of c p) (store p).
Proof.
  intros (Hm & H & Hu) Hc Hg Hid.
  assert (Hl : lists (changes ∪ attrs_of c p)) by (apply lists_union; [done|by apply core_lists]).
  rewrite set_attrs_result by done. set (a := changes ∪ attrs_of c p) in *.
  assert (H1 : core (written c a p)) by (apply written_core; [done..|by apply lookup_union_id]).
  eexists. split; [done|]. destruct (renders changes (attrs_of c p)) eqn:Er.
  - split; [split; [|split; [by apply refreshed_core|]]|done].
    { unfold refreshed. rewrite page_apps_map; [done|]. intros v. by destruct (Nat.eqb _ _). }
    change (Forall (up_to_date (refreshed c (written c a p)))
      (map (fun v => if Nat.eqb (v_model v) c then fresh_html (written c a p) v else v) (views p))).
    apply Forall_fmap. pose proof (written_lists c a p H Hl) as Hw.
    eapply Forall_impl; [exact (proj2 (Forall_and _ _) (conj Hu Hw))|]. intros v [Hv Hlv].
    change (up_to_date (written c a p)
      (if Nat.eqb (v_model v) c then fresh_html (written c a p) v else v)).
    destruct (Nat.eqb_spec (v_model v) c); [by apply up_to_date_fresh|].
    by apply up_to_date_written.
  - split; [split; [done|split; [done|]]|done]. eapply Forall_impl; [exact Hu|]. intros v Hv.
    apply up_to_date_written; [done|]. intros _. unfold a, attr, renders in *.
    rewrite lookup_union. destruct (changes !! js "instances") as [w|].
    + apply negb_false_iff, bool_decide_eq_true in Er. by rewrite Er.
    + by destruct (attrs_of c p !! js "instances").
Qed.

(** * New models *)

(** The page once [new Item(data)] has run; the cid is the counter's next value. *)
Definition with_item (data : attrs) (p : page) : page :=
  written (S (counter p)) (data ∪ defaults (S (S (counter p)))) (uniqueId (uniqueId p)).

Lemma new_Item_result data p : new_Item data p = (S (counter p), with_item data p).
Proof. done. Qed.

Lemma fresh_cid p : core p -> store p !! S (counter p) = None.
Proof.
  intros H. destruct (store p !! S (counter p)) as [a|] eqn:E; [|done].
  apply (s_store p H) in E. lia.
Qed.

Lemma known_ne p d : core p -> is_Some (store p !! d) -> S (counter p) <> d.
Proof. intros H [a Ha] <-. by rewrite fresh_cid in Ha. Qed.

Lemma attrs_with_item data p d :
  core p -> is_Some (store p !! d) -> attrs_of d (with_item data p) = attrs_of d p.
Proof.
  intros H Hd. unfold with_item. rewrite attrs_written. by rewrite decide_False by by apply known_ne.
Qed.

Lemma with_item_core data p : core p -> good_attrs data -> core (with_item data p).
Proof.
  intros H Hg.
  assert (K : forall d, is_Some (store p !! d) -> is_Some (store (with_item data p) !! d))
    by (intros d Hd; by apply (is_Some_written _ _ (uniqueId (uniqueId p)))).
  split.
  - exact (s_nodup p H).
  - eapply Forall_impl; [exact (s_known p H)|]. intros v. apply K.
  - intros d b Hd. unfold with_item in Hd. cbn in Hd.
    destruct (decide (S (counter p) = d)) as [<-|Hne].
    + rewrite lookup_insert_eq in Hd. injection Hd as <-. split; [|cbn; lia].
      apply lists_union; [done|apply lists_defaults].
    + rewrite lookup_insert_ne in Hd by done.
      destruct (s_store p H d b Hd). split; [done|cbn; lia].
  - eapply Forall_impl; [exact (s_apps p H)|]. intros d. apply K.
  - pose proof (s_apps p H) as Ha. rewrite Forall_forall in Ha.
    intros c d k Hc Hd. unfold key_of. rewrite !attrs_with_item by auto.
    by apply (s_keys p H).
Qed.

Lemma with_item_sound data p : sound p -> good_attrs data -> sound (with_item data p).
Proof.
  intros (Hm & H & Hu) Hg. split; [exact Hm|]. split; [by apply with_item_core|].
  change (Forall (up_to_date (with_item data p)) (views p)).
  pose proof (s_known p H) as Hk. eapply Forall_impl; [exact (proj2 (Forall_and _ _) (conj Hu Hk))|].
  intros v [Hv Hs] Ht. destruct (Hv Ht) as (h & Hh & E). exists h. split; [done|].
  by rewrite attrs_with_item.
Qed.

(** * Adding a view *)

(** The view of [c] as [add] leaves it in the page. *)
Definition shown_view (p : page) (c : nat) : app_view :=
  fresh_html p (new_AppItemView c p) <| attached := true |>.

Definition with_view (c : nat) (p : page) : page :=
  with_views (uniqueId p) (views p ++ [shown_view p c]).

Lemma add_result c p :
  core p -> is_Some (store p !! c) -> add c p = Ok (with_view c p).
Proof.
  intros H Hc. unfold add. cbn zeta. set (p1 := uniqueId p <| views ::= fun l => l ++ [new_AppItemView c (uniqueId p)] |>).
  assert (Hl : Forall (fun v => lists (attrs_of (v_model v) p1)) (views p1)).
  { change (Forall (fun v => lists (attrs_of (v_model v) p)) (views p ++ [new_AppItemView c p])).
    apply Forall_app. split; [|constructor; [by apply core_lists|done]].
    eapply Forall_impl; [exact (s_known p H)|]. intros v. by apply core_lists. }
  rewrite (render_view_ok _ p1 Hl). cbn [bind]. f_equal. unfold with_view.
  change (views (uniqueId p)) with (views p).
  change (with_views (uniqueId p) (alter (fun v => v <| attached := true |>) (length (views p))
    (alter (fresh_html p) (length (views p)) (views p ++ [new_AppItemView c p])))
    = with_views (uniqueId p) (views p ++ [shown_view p c])).
  f_equal. replace (length (views p)) with (length (views p) + 0) by lia.
  by rewrite !alter_app_r.
Qed.

Lemma with_view_core c p : core p -> is_Some (store p !! c) -> core (with_view c p).
Proof.
  intros H Hc. split.
  - exact (s_nodup p H).
  - change (Forall (fun v => is_Some (store p !! v_model v)) (views p ++ [shown_view p c])).
    apply Forall_app. split; [exact (s_known p H)|]. by constructor.
  - intros d b Hd. destruct (s_store p H d b Hd). split; [done|cbn; lia].
  - exact (s_apps p H).
  - exact (s_keys p H).
Qed.

Lemma with_view_up_to_date c p :
  core p -> is_Some (store p !! c) -> Forall (up_to_date p) (views p) ->
  Forall (up_to_date (with_view c p)) (views (with_view c p)).
Proof.
  intros H Hc Hu. change (Forall (up_to_date p) (views p ++ [shown_view p c])).
  apply Forall_app. split; [done|]. constructor; [|done]. intros _.
  destruct (render_data_lists (attrs_of c p)) as (h & Hh & E); [by apply core_lists|]. by exists h.
Qed.

Lemma with_view_page_apps c p : page_apps (with_view c p) = page_apps p ++ [c].
Proof.
  unfold page_apps. change (views (with_view c p)) with (views p ++ [shown_view p c]).
  by rewrite omap_app.
Qed.

(** * Creating *)

Lemma core_frame p p' :
  store p' = store p -> apps p' = apps p -> views p' = views p -> counter p <= counter p' ->
  core p -> core p'.
Proof.
  intros E1 E2 E3 E4 H. split.
  - rewrite E2. exact (s_nodup p H).
  - rewrite E1, E3. exact (s_known p H).
  - intros c a Hc. rewrite E1 in Hc. destruct (s_store p H c a Hc). split; [done|lia].
  - rewrite E1, E2. exact (s_apps p H).
  - intros c d k. unfold key_of, attrs_of. rewrite E1, E2. apply (s_keys p H).
Qed.

Lemma sound_frame p p' :
  store p' = store p -> apps p' = apps p -> views p' = views p -> counter p <= counter p' ->
  sound p -> sound p'.
Proof.
  intros E1 E2 E3 E4 (Hm & H & Hu). split; [|split].
  - unfold page_apps. by rewrite E2, E3.
  - by apply (core_frame p).
  - rewrite E3. eapply Forall_impl; [exact Hu|]. intros v. unfold up_to_date, attrs_of.
    by rewrite E1.
Qed.

Lemma get_app_None k cs p d : get_app (Some k) cs p = None -> d ∈ cs -> key_of d p <> Some k.
Proof.
  intros H Hd E. apply list_elem_of_In in Hd. pose proof (find_none _ _ H d Hd) as F.
  cbn in F. by rewrite bool_decide_true in F.
Qed.

(** The page with [c] in the collection. *)
Definition joined (c : nat) (p : page) : page := p <| apps ::= fun l => l ++ [c] |>.

Lemma joined_core c p :
  core p -> is_Some (store p !! c) -> c ∉ apps p -> get_app (key_of c p) (apps p) p = None ->
  core (joined c p).
Proof.
  intros H Hc Hn Hk. split.
  - apply NoDup_app. split; [exact (s_nodup p H)|]. split; [|apply NoDup_singleton].
    intros x Hx E%list_elem_of_singleton. by subst.
  - exact (s_known p H).
  - exact (s_store p H).
  - apply Forall_app. split; [exact (s_apps p H)|by constructor].
  - assert (N : forall d k, d ∈ apps p -> key_of c p = Some k -> key_of d p <> Some k).
    { intros d k Hd Ek. rewrite Ek in Hk. by apply get_app_None with (apps p). }
    intros a b k Ha Hb. change (apps (joined c p)) with (apps p ++ [c]) in Ha, Hb.
    change (key_of a p = Some k -> key_of b p = Some k -> a = b).
    apply elem_of_app in Ha as [Ha|Ha%list_elem_of_singleton];
      apply elem_of_app in Hb as [Hb|Hb%list_elem_of_singleton]; intros Ka Kb; subst.
    + by apply (s_keys p H a b k).
    + by destruct (N a k Ha Kb).
    + by destruct (N b k Hb Ka).
    + done.
Qed.

(** [create] once the new model is there. *)
Definition created (c : nat) (p : page) : page :=
  match get_app (key_of c p) (apps p) p with
  | Some _ => p
  | None => with_view c (joined c p)
  end.

Lemma create_result data p :
  core p -> good_attrs data ->
  create data p = Ok (sync MUpdate (S (counter p)) (created (S (counter p)) (with_item data p))).
Proof.
  intros H Hg. unfold create. rewrite new_Item_result. unfold created.
  set (c := S (counter p)). set (p1 := with_item data p).
  assert (H1 : core p1) by by apply with_item_core.
  assert (Hc : is_Some (store p1 !! c)) by (unfold p1, with_item; cbn; rewrite lookup_insert_eq; eauto).
  destruct (get_app _ _ _) eqn:Eg; [done|]. fold (joined c p1).
  rewrite (add_result c (joined c p1)); [done| |done].
  apply joined_core; [done..| |done]. intros Hin.
  pose proof (s_apps p H) as Ha. rewrite Forall_forall in Ha. apply (known_ne p c H (Ha c Hin)).
  done.
Qed.

Lemma created_sound c p :
  sound p -> is_Some (store p !! c) -> c ∉ apps p -> sound (created c p).
Proof.
  intros (Hm & H & Hu) Hc Hn. unfold created. destruct (get_app _ _ _) eqn:Eg; [done|].
  split; [|split].
  - rewrite with_view_page_apps. change (page_apps p ++ [c] = apps p ++ [c]). by rewrite Hm.
  - apply with_view_core; [by apply joined_core|done].
  - apply with_view_up_to_date; [by apply joined_core|done|done].
Qed.

Lemma item_known data p : is_Some (store (with_item data p) !! S (counter p)).
Proof. unfold with_item. cbn. rewrite lookup_insert_eq. eauto. Qed.

Lemma item_not_app data p : core p -> S (counter p) ∉ apps (with_item data p).
Proof.
  intros H Hin. pose proof (s_apps p H) as Ha. rewrite Forall_forall in Ha.
  by apply (known_ne p (S (counter p)) H (Ha _ Hin)).
Qed.

Lemma create_sound data p :
  sound p -> good_attrs data -> exists p', create data p = Ok p' /\ sound p'.
Proof.
  intros Hs Hg. pose proof Hs as (_ & H & _). rewrite create_result by done.
  eexists. split; [done|].
  assert (Hs' : sound (created (S (counter p)) (with_item data p))).
  { apply created_sound; [by apply with_item_sound|apply item_known|by apply item_not_app]. }
  revert Hs'. apply sound_frame; done.
Qed.

(** * Destroying *)

Definition drop_model (c : nat) (l : list nat) : list nat :=
  List.filter (fun d => negb (Nat.eqb d c)) l.

Definition detach (c : nat) (v : app_view) : app_view :=
  if Nat.eqb (v_model v) c then v <| attached := false |> else v.

Lemma elem_drop_model c d l : d ∈ drop_model c l -> d ∈ l.
Proof. intros H. apply list_elem_of_In, filter_In in H as [H _]. by apply list_elem_of_In. Qed.

Lemma page_apps_detach c vs :
  omap (fun v => if attached v then Some (v_model v) else None) (map (detach c) vs)
  = drop_model c (omap (fun v => if attached v then Some (v_model v) else None) vs).
Proof.
  induction vs as [|v vs IH]; [done|]. cbn. rewrite IH. unfold detach.
  destruct (Nat.eqb (v_model v) c) eqn:E; cbn; destruct (attached v); cbn; by rewrite ?E.
Qed.

Lemma drop_sound c p :
  sound p -> sound (remove_views c (p <| apps ::= drop_model c |> <| all ::= fmap (drop_model c) |>)).
Proof.
  intros (Hm & H & Hu). set (p' := remove_views c _).
  assert (Ev : views p' = map (detach c) (views p)) by done. split; [|split].
  - unfold page_apps. rewrite Ev, page_apps_detach. change (apps p') with (drop_model c (apps p)).
    by rewrite <- Hm.
  - split.
    + apply NoDup_ListNoDup, List.NoDup_filter, NoDup_ListNoDup. exact (s_nodup p H).
    + rewrite Ev. apply Forall_fmap. eapply Forall_impl; [exact (s_known p H)|].
      intros v Hv. cbn. unfold detach. by destruct (Nat.eqb _ _).
    + exact (s_store p H).
    + pose proof (s_apps p H) as Ha. rewrite Forall_forall in *. intros d Hd%elem_drop_model.
      by apply Ha.
    + intros a b k Ha%elem_drop_model Hb%elem_drop_model. by apply (s_keys p H).
  - rewrite Ev. apply Forall_fmap. eapply Forall_impl; [exact Hu|].
    intros v Hv. cbn. unfold detach. destruct (Nat.eqb _ _); [by intros ?|exact Hv].
Qed.

Lemma destroy_sound c p : sound p -> sound (destroy_model c p).
Proof.
  intros H. unfold destroy_model. cbn zeta.
  set (p1 := if decide _ then p else _).
  assert (H1 : sound p1) by (unfold p1; case_decide; [done|]; by apply (sound_frame p)).
  by apply (drop_sound c p1).
Qed.

(** * The applications arrive *)

Definition with_model (data : attrs) (p : page) : page :=
  let p' := with_item data p in
  match get_app (key_of (S (counter p)) p') (apps p') p' with
  | Some _ => p'
  | None => joined (S (counter p)) p'
  end.

Lemma with_model_core data p : core p -> good_attrs data -> core (with_model data p).
Proof.
  intros H Hg. unfold with_model. cbn zeta. destruct (get_app _ _ _) eqn:Eg.
  - by apply with_item_core.
  - apply joined_core; [by apply with_item_core|apply item_known|by apply item_not_app|done].
Qed.

Lemma with_model_views data p : views (with_model data p) = views p.
Proof. unfold with_model. cbn zeta. by destruct (get_app _ _ _). Qed.

Lemma add_models_core items p :
  Forall good_attrs items -> core p ->
  core (add_models items p) /\ views (add_models items p) = views p.
Proof.
  intros Hi. revert p. induction Hi as [|data items Hd Hi IH]; intros p H; [done|].
  change (add_models (data :: items) p) with (add_models items (with_model data p)).
  destruct (IH (with_model data p)) as [IH1 IH2]; [by apply with_model_core|].
  split; [done|]. by rewrite IH2, with_model_views.
Qed.

Lemma add_each_ok cs p :
  core p -> Forall (fun c => is_Some (store p !! c)) cs -> Forall (up_to_date p) (views p) ->
  exists p', add_each cs p = Ok p' /\ core p' /\ Forall (up_to_date p') (views p') /\
    page_apps p' = page_apps p ++ cs /\ apps p' = apps p /\ store p' = store p.
Proof.
  revert p. induction cs as [|c cs IH]; intros p H Hc Hu.
  - exists p. by rewrite app_nil_r.
  - inversion_clear Hc as [|? ? Hc1 Hc2]. cbn [add_each]. rewrite add_result by done. cbn [bind].
    destruct (IH (with_view c p)) as (p' & E1 & E2 & E3 & E4 & E5 & E6);
      [by apply with_view_core|done|by apply with_view_up_to_date|].
    exists p'. do 3 (split; [done|]). split; [|done].
    by rewrite E4, with_view_page_apps, <- app_assoc.
Qed.

Lemma page_new_core : core Page_new.
Proof.
  split; [constructor|constructor| |constructor|].
  - intros c a Hc. change (store Page_new) with (∅ : gmap nat attrs) in Hc.
    by rewrite lookup_empty in Hc.
  - intros c d k Hc. by apply elem_of_nil in Hc.
Qed.

Lemma loaded_sound items :
  Forall good_attrs items -> exists p, loaded items Page_new = Ok p /\ sound p.
Proof.
  intros Hi. unfold loaded. change (Page_new <| apps := [] |>) with Page_new. cbn zeta.
  destruct (add_models_core items Page_new Hi page_new_core) as [H Hv].
  set (p := add_models items Page_new) in *.
  destruct (add_each_ok (apps p) p H (s_apps p H)) as (p' & E1 & E2 & E3 & E4 & E5 & _);
    [by rewrite Hv|].
  unfold render. rewrite E1. cbn [bind]. eexists. split; [done|].
  assert (Hs : sound p').
  { split; [|done]. rewrite E4, E5. unfold page_apps. by rewrite Hv. }
  revert Hs. by apply sound_frame.
Qed.
End Facts.
