(* ===== verification/MarathonProps.v ===== *)
(** What the Marathon console does and does not promise: the page mirrors the
    collection, what each button sends, the form's uris, the filter, and three ways the
    console surprises (Cancel, duplicate ids, applications created early or late). *)

From S2P Require Import Prelude Marathon MarathonFacts.
From coqutil Require Import Datatypes.RecordSettersUsingExistingGetters.

Section Props.
Context {B : Browser}.

(** * Every handler keeps the page sound and ends *)

(** Answers of the server leave the id alone and keep the uris an array; the
    applications arrive once. *)
Definition good_event (e : event) : Prop :=
  match e with
  | Loaded _ => False
  | Saved _ a => good_attrs a /\ a !! js "id" = None
  | _ => True
  end.

(** Two views that differ at most in what is displayed. *)
Definition same_view (v w : app_view) : Prop :=
  v_model w = v_model v /\ attached w = attached v /\ html w = html v.

Lemma same_views_apps vs ws :
  Forall2 same_view vs ws ->
  omap (fun v => if attached v then Some (v_model v) else None) ws
  = omap (fun v => if attached v then Some (v_model v) else None) vs.
Proof.
  induction 1 as [|v w vs ws (E1 & E2 & _) _ IH]; [done|]. cbn. by rewrite E1, E2, IH.
Qed.

Lemma same_views_Forall (P : app_view -> Prop) vs ws :
  (forall v w, same_view v w -> P v -> P w) -> Forall2 same_view vs ws -> Forall P vs ->
  Forall P ws.
Proof.
  intros HP. induction 1 as [|v w vs ws E _ IH]; intros HF; [done|].
  inversion_clear HF. constructor; [by apply (HP v)|by apply IH].
Qed.

Lemma sound_views p vs :
  Forall2 same_view (views p) vs -> sound p -> sound (with_views p vs).
Proof.
  intros H2 (Hm & H & Hu). split; [|split].
  - transitivity (page_apps p); [|exact Hm]. exact (same_views_apps _ _ H2).
  - split; [exact (s_nodup p H)| |exact (s_store p H)|exact (s_apps p H)|exact (s_keys p H)].
    apply (same_views_Forall (fun v => is_Some (store p !! v_model v)) (views p) vs);
      [|done|exact (s_known p H)]. by intros v w [-> _].
  - apply (same_views_Forall (up_to_date p) (views p) vs); [|done|done].
    intros v w (E1 & E2 & E3) Hv. unfold up_to_date. by rewrite E1, E2, E3.
Qed.

Lemma filter_views_sound (f : app_view -> app_view) (l : list nat) p :
  (forall v, same_view v (f v)) ->
  sound p ->
  sound (with_views p (imap (fun i v => if decide (i ∈ l) then f v else v) (views p))).
Proof.
  intros Hf. apply sound_views. apply Forall2_same_length_lookup_2; [by rewrite length_imap|].
  intros i v w Hv Hw. rewrite list_lookup_imap, Hv in Hw. injection Hw as <-.
  case_decide; [apply Hf|done].
Qed.

Lemma run_filter_sound p : sound p -> sound (run_filter p).
Proof.
  intros H. apply (sound_frame (with_views p (imap (fun i v => if decide (i ∈ lis p)
      then filter_view (toLowerCase (input p)) (oldDisplay p) v else v) (views p)))); try done.
  apply (filter_views_sound (filter_view (toLowerCase (input p)) (oldDisplay p)) (lis p) p);
    [|done]. intros v. unfold filter_view.
  destruct (matches _ v); [by case_decide|done].
Qed.

Lemma view_in_page_known i c p : sound p -> view_in_page i p = Some c -> is_Some (store p !! c).
Proof.
  intros (_ & H & _) Hi. unfold view_in_page in Hi.
  destruct (views p !! i) as [v|] eqn:Ev; [|done]. destruct (attached v); [|done].
  injection Hi as <-. pose proof (s_known p H) as Hk. by eapply Forall_lookup in Hk.
Qed.

Lemma good_instances num : good_attrs {[js "instances" := num]}.
Proof. unfold good_attrs. by rewrite lookup_singleton_ne. Qed.

Lemma scale_sound c num p :
  sound p -> is_Some (store p !! c) ->
  exists p', scale c num p = Ok p' /\ sound p' /\ apps p' = apps p /\
    requests p' = requests p ++ [Scale (<[js "instances" := num]> (attrs_of c p))].
Proof.
  intros H Hc.
  destruct (set_attrs_sound c {[js "instances" := num]} p H Hc (good_instances num))
    as (p' & E & Hs & Hr & Hst); [by rewrite lookup_singleton_ne|].
  unfold scale. rewrite E. cbn [bind]. eexists. split; [done|].
  split; [by apply (sound_frame p')|]. injection Hr as _ E2 _ _ _ _ _ _ _ E9 _.
  split; [done|].
  change (requests (sync MScale c p')) with (requests p' ++ [Scale (attrs_of c p')]).
  rewrite E9. do 3 f_equal. unfold attrs_of at 1. rewrite Hst, lookup_insert_eq.
  symmetry. apply insert_union_singleton_l.
Qed.

Lemma good_form f : good_attrs (form_data f).
Proof. done. Qed.

Lemma save_sound f p : sound p -> exists p', save f p = Ok p' /\ sound p'.
Proof.
  intros H. destruct (create_sound (form_data f) p H (good_form f)) as (p' & E & Hs).
  unfold save. rewrite E. cbn [bind]. eexists. split; [done|]. by apply (sound_frame p').
Qed.

Lemma good_empty : good_attrs ∅.
Proof. done. Qed.

Lemma page_handle_sound e p :
  sound p -> good_event e -> exists p', handle e p = Ok p' /\ sound p'.
Proof.
  intros H He. destruct e; cbn [handle].
  - done.
  - eexists. split; [done|]. unfold addNew. rewrite new_Item_result.
    apply (sound_frame (with_item ∅ p)); try done; [cbn; lia|].
    apply with_item_sound; [done|apply good_empty].
  - destruct (_ && _); [|by exists p]. unfold click_button. cbn zeta.
    destruct b; apply save_sound; by apply (sound_frame p).
  - destruct (lb_visible _); [|by exists p]. eexists. split; [done|]. by apply (sound_frame p).
  - destruct (view_in_page i p) as [c|] eqn:Ei; [|by exists p]. unfold scale_prompt.
    destruct (truthy answer); [|by exists p].
    destruct (scale_sound c (VStr (default [] answer)) p H) as (p' & E & Hs & _); [|by exists p'].
    by apply (view_in_page_known i).
  - destruct (view_in_page i p) as [c|] eqn:Ei; [|by exists p]. unfold suspend.
    destruct confirmed; [|by exists p].
    destruct (scale_sound c (VNum (js "0")) p H) as (p' & E & Hs & _); [|by exists p'].
    by apply (view_in_page_known i).
  - destruct (view_in_page i p) as [c|] eqn:Ei; [|by exists p]. unfold destroy.
    destruct confirmed; [|by exists p]. eexists. split; [done|]. by apply destroy_sound.
  - destruct (store p !! c) as [a|] eqn:Ec; [|by exists p]. cbn [present]. destruct He as [Hg Hid].
    destruct (set_attrs_sound c answer p H) as (p' & E & Hs & _); [by eexists|done|done|].
    by exists p'.
  - eexists. split; [done|]. by apply (sound_frame p).
  - destruct (keyTimeout p); [|by exists p]. eexists. split; [done|].
    apply run_filter_sound. by apply (sound_frame p).
  - destruct (present (all p)); [|by exists p]. eexists. split; [done|]. by apply run_filter_sound.
Qed.

Lemma page_handle_all_sound es p : sound p -> Forall good_event es -> sound (handle_all es p).
Proof.
  intros H He. revert p H. induction He as [|e es He Hes IH]; intros p H; [done|].
  destruct (page_handle_sound e p H He) as (p' & E & Hs).
  change (handle_all (e :: es) p) with (handle_all es (page_of (handle e p))). rewrite E.
  by apply IH.
Qed.

(** * The properties *)

(** C19. From the arrival of the applications on, when it finds the page as it was made
    (nothing created before) and comes once: whatever the users do, and whatever the
    server answers as long as uris are arrays and ids stay, no handler throws, the page
    shows exactly the applications of the collection, in its order, each once, no two
    with the same id, and each with its current number of instances.  An application
    created before the arrival can be shown twice ([early_app_shown_twice]). *)
Theorem page_mirrors_apps items es :
  Forall good_attrs items -> Forall good_event es ->
  let p := handle_all es (page_of (loaded items Page_new)) in
  page_apps p = apps p /\ NoDup (apps p) /\ distinct_keys p /\
  Forall (up_to_date p) (views p) /\
  (forall e, good_event e -> exists p', handle e p = Ok p').
Proof.
  intros Hi He p. destruct (loaded_sound items Hi) as (p0 & E & H0).
  assert (H : sound p) by (unfold p; rewrite E; by apply page_handle_all_sound).
  pose proof H as (Hm & Hc & Hu). split; [done|]. split; [exact (s_nodup p Hc)|].
  split; [exact (s_keys p Hc)|]. split; [done|]. intros e Hg.
  destruct (page_handle_sound e p H Hg) as (p' & E' & _). by exists p'.
Qed.

(** What the buttons of an application send: a confirmed number, taken as it was
    typed, sends one scale request whose body has that number for the instances; a
    confirmed suspension the same with 0; a confirmed destruction one stop request with
    the attributes, and the application is dropped at once, whatever the server will
    say; a dismissed dialogue or an empty answer does nothing. *)
Theorem buttons_send i c p :
  sound p -> view_in_page i p = Some c -> key_of c p <> None ->
  let body num := <[js "instances" := num]> (attrs_of c p) in
  (forall s, s <> [] -> exists p', handle (ScaleClick i (Some s)) p = Ok p' /\
     requests p' = requests p ++ [Scale (body (VStr s))] /\ apps p' = apps p) /\
  (exists p', handle (SuspendClick i true) p = Ok p' /\
     requests p' = requests p ++ [Scale (body (VNum (js "0")))] /\ apps p' = apps p) /\
  (exists p', handle (DestroyClick i true) p = Ok p' /\
     requests p' = requests p ++ [Stop (attrs_of c p)] /\ apps p' = drop_model c (apps p)) /\
  Forall (fun e => handle e p = Ok p)
    [ScaleClick i None; ScaleClick i (Some []); SuspendClick i false; DestroyClick i false].
Proof.
  intros H Hi Hk body. pose proof (view_in_page_known i c p H Hi) as Hc. cbn [handle].
  rewrite Hi. split; [|split; [|split]].
  - intros s Hs. unfold scale_prompt. assert (truthy (Some s) = true) as -> by by destruct s.
    destruct (scale_sound c (VStr s) p H Hc) as (p' & E & _ & Ea & Er). by exists p'.
  - destruct (scale_sound c (VNum (js "0")) p H Hc) as (p' & E & _ & Ea & Er). by exists p'.
  - eexists. split; [done|]. unfold destroy_model. cbn zeta. rewrite decide_False; [done|].
    intros E. apply Hk. unfold key_of. by rewrite E.
  - repeat (apply Forall_cons_2; [cbn [handle]; by rewrite Hi|]). constructor.
Qed.

Lemma strip_spaces a u b :
  space ∉ u ->
  List.filter (fun c => negb (N.eqb c space)) (repeat space a ++ u ++ repeat space b) = u.
Proof.
  assert (Hr : forall n, List.filter (fun c => negb (N.eqb c space)) (repeat space n) = [])
    by (induction n as [|n IH]; done).
  intros Hu. rewrite !List.filter_app, !Hr, app_nil_r. cbn.
  induction u as [|x u IH]; [done|]. apply not_elem_of_cons in Hu as [Hx Hu]. cbn.
  rewrite (proj2 (N.eqb_neq x space)) by done. cbn. by rewrite IH.
Qed.

(** The uris typed in the form are read back whatever spaces surround them: a list
    of uris without commas or spaces, joined by commas with any spaces around each,
    gives those uris. *)
Theorem uris_roundtrip (us : list (nat * jstr * nat)) :
  Forall (fun u => snd (fst u) <> [] /\ (comma ∉ snd (fst u)) /\ (space ∉ snd (fst u))) us ->
  parse_uris (join [comma] (map (fun '(a, u, b) => (repeat space a ++ u ++ repeat space b)) us))
  = map (fun u => snd (fst u)) us.
Proof.
  intros H. unfold parse_uris. destruct us as [|u0 us0]; [done|]. set (us := u0 :: us0) in *.
  rewrite split_join.
  - rewrite map_map. induction H as [|[[a u] b] l (H1 & H2 & H3) _ IH]; [done|]. cbn in H1, H2, H3.
    cbn [map List.filter fst snd]. rewrite strip_spaces by done.
    rewrite bool_decide_false by done. cbn. by rewrite IH.
  - done.
  - apply Forall_fmap. eapply Forall_impl; [exact H|]. intros [[a u] b] (_ & H2 & _). cbn in *.
    intros [Hin|[Hin|Hin]%elem_of_app]%elem_of_app; [|done|];
      apply list_elem_of_In, repeat_spec in Hin; done.
Qed.

(** A new item's creation does not touch the lightbox. *)
Lemma created_box g data p :
  created (S (counter p)) (with_item data (p <| box ::= g |>))
  = (created (S (counter p)) (with_item data p)) <| box ::= g |>.
Proof.
  unfold created.
  change (get_app _ _ (with_item data (p <| box ::= g |>)))
    with (get_app (key_of (S (counter p)) (with_item data p)) (apps p) (with_item data p)).
  change (get_app _ _ (with_item data p))
    with (get_app (key_of (S (counter p)) (with_item data p)) (apps p) (with_item data p)).
  by destruct (get_app _ _ _).
Qed.

Lemma created_requests c p : requests (created c p) = requests p.
Proof. unfold created. by destruct (get_app _ _ _). Qed.

Lemma attrs_created data p :
  attrs_of (S (counter p)) (created (S (counter p)) (with_item data p))
  = data ∪ defaults (S (S (counter p))).
Proof.
  transitivity (attrs_of (S (counter p)) (with_item data p)).
  - unfold created. by destruct (get_app _ _ _).
  - unfold with_item. rewrite attrs_written. by rewrite decide_True.
Qed.

Lemma close_close b : close (close b) = (close b) <| lb_closed ::= S |>.
Proof. by destruct b as [[] l v c n]. Qed.

Lemma close_twice r q :
  (send r (q <| box ::= lb_click (OnCloser true) |>)) <| box ::= close |>
  = (send r (q <| box ::= lb_click OnContent |>)) <| box ::= close |>
      <| box ::= fun b => b <| lb_closed ::= S |> |>.
Proof.
  destruct q as [a1 a2 a3 a4 a5 a6 a7 a8 a9 a10 b a12 a13].
  exact (f_equal (fun b => Page a1 a2 a3 a4 a5 a6 a7 a8 a9 a10 b (a12 ++ [r]) a13) (close_close b)).
Qed.

(** Cancel starts the application: the button has no type, so after closing the
    lightbox the browser submits the form, and the page ends as after Start, the same
    request sent, up to one more close event. *)
Theorem cancel_starts_app f p :
  sound p -> lb_visible (box p) = true -> present (lb_content (box p)) = true ->
  exists p1 p2,
    handle (Button Cancel f) p = Ok p1 /\ handle (Button Submit f) p = Ok p2 /\
    (exists n, requests p1 = requests p ++ [Start (form_data f ∪ defaults n)]) /\
    p1 = p2 <| box ::= fun b => b <| lb_closed ::= S |> |>.
Proof.
  intros (_ & H & _) Hv Hl. cbn [handle]. rewrite Hv, Hl. cbn [andb]. unfold click_button, save.
  cbn zeta.
  assert (Hc : forall g, core (p <| box ::= g |>)) by (intros g; by apply (core_frame p)).
  rewrite (create_result _ _ (Hc _) (good_form f)), (create_result _ _ (Hc _) (good_form f)).
  cbn [bind]. eexists _, _. split; [done|]. split; [done|].
  change (counter (p <| box ::= ?g |>)) with (counter p). rewrite !created_box.
  set (q := created _ _). split.
  - exists (S (S (counter p))). cbn [sync].
    change (requests q ++ [Start (attrs_of (S (counter p)) q)]
            = requests p ++ [Start (form_data f ∪ defaults (S (S (counter p))))]).
    unfold q. by rewrite created_requests, attrs_created.
  - exact (close_twice (Start (attrs_of (S (counter p)) q)) q).
Qed.

(** An application created with the id of one that is there does not join the page,
    but a start request with its data is sent all the same, over the first one's id. *)
Theorem duplicate_create_still_starts f d p :
  sound p -> lb_visible (box p) = true -> present (lb_content (box p)) = true ->
  d ∈ apps p -> key_of d p = Some (f_id f) ->
  exists p' n, handle (Button Submit f) p = Ok p' /\
    apps p' = apps p /\ views p' = views p /\
    requests p' = requests p ++ [Start (form_data f ∪ defaults n)].
Proof.
  intros (_ & H & _) Hv Hl Hd Hk. cbn [handle]. rewrite Hv, Hl. cbn [andb].
  unfold click_button, save. cbn zeta.
  assert (Hc : core (p <| box ::= lb_click OnContent |>)) by by apply (core_frame p).
  rewrite (create_result _ _ Hc (good_form f)). cbn [bind].
  change (counter (p <| box ::= ?g |>)) with (counter p). rewrite created_box.
  assert (Hg : created (S (counter p)) (with_item (form_data f) p) = with_item (form_data f) p).
  { unfold created. destruct (get_app _ _ _) eqn:Eg; [done|].
    assert (Ek : key_of (S (counter p)) (with_item (form_data f) p) = Some (f_id f))
      by (unfold key_of, with_item; rewrite attrs_written, decide_True by done; done).
    rewrite Ek in Eg. pose proof (get_app_None _ _ _ d Eg Hd) as Hn.
    pose proof (s_apps p H) as Ha. rewrite Forall_forall in Ha.
    unfold key_of in Hn. rewrite attrs_with_item in Hn by auto. by destruct Hn. }
  eexists _, (S (S (counter p))). split; [done|]. rewrite Hg. split; [done|]. split; [done|].
  cbn [sync].
  change (requests p ++ [Start (attrs_of (S (counter p)) (with_item (form_data f) p))]
          = requests p ++ [Start (form_data f ∪ defaults (S (S (counter p))))]).
  unfold with_item. by rewrite attrs_written, decide_True by done.
Qed.

(** * The filter *)

(** The views there when the filter was set up are its elements; later ones have never
    been touched. *)
Record filter_inv (n : nat) (p : page) : Prop := {
  f_lis : forall i, i ∈ lis p <-> i < n;
  f_old : oldDisplay p <> js "none";
  f_len : n <= length (views p);
  f_late : forall i v, n <= i -> views p !! i = Some v -> v_display v = []
}.

Lemma filter_frame n p p' :
  lis p' = lis p -> oldDisplay p' = oldDisplay p -> views p' = views p ->
  filter_inv n p -> filter_inv n p'.
Proof. intros E1 E2 E3 [H1 H2 H3 H4]. split; by rewrite ?E1, ?E2, ?E3. Qed.

Lemma filter_map n f p :
  (forall v, v_display (f v) = v_display v) ->
  filter_inv n p -> filter_inv n (with_views p (map f (views p))).
Proof.
  intros Hf [H1 H2 H3 H4]. split; [done|done| |].
  - change (n <= length (map f (views p))). by rewrite length_map.
  - intros i v Hi Hv. change (map f (views p) !! i = Some v) in Hv.
    apply list_lookup_fmap_Some in Hv as (w & -> & Hw). rewrite Hf. by apply (H4 i).
Qed.

Lemma filter_with_view n c p : filter_inv n p -> filter_inv n (with_view c p).
Proof.
  intros [H1 H2 H3 H4]. split; [done|done| |].
  - change (n <= length (views p ++ [shown_view p c])). rewrite length_app. lia.
  - intros i v Hi Hv. change ((views p ++ [shown_view p c]) !! i = Some v) in Hv.
    apply lookup_app_Some in Hv as [Hv|[_ Hv]]; [by apply (H4 i)|].
    apply list_elem_of_lookup_2, list_elem_of_singleton in Hv. subst v. reflexivity.
Qed.

Lemma filter_created n c p : filter_inv n p -> filter_inv n (created c p).
Proof.
  intros H. unfold created. destruct (get_app _ _ _); [done|].
  apply filter_with_view. by apply (filter_frame n p).
Qed.

Lemma filter_set_attrs n c a p :
  core p -> is_Some (store p !! c) -> good_attrs a -> filter_inv n p ->
  filter_inv n (page_of (set_attrs c a p)).
Proof.
  intros H Hc Hg Hf. rewrite set_attrs_result; [|done|apply lists_union; [done|by apply core_lists]].
  cbn [page_of]. set (p1 := written _ _ p). assert (H1 : filter_inv n p1) by by apply (filter_frame n p).
  destruct (renders _ _); [|done]. apply filter_map; [|done]. intros v. by destruct (Nat.eqb _ _).
Qed.

Lemma filter_scale n c num p :
  sound p -> is_Some (store p !! c) -> filter_inv n p -> filter_inv n (page_of (scale c num p)).
Proof.
  intros H Hc Hf. pose proof H as (_ & Hcore & _).
  pose proof (filter_set_attrs n c _ p Hcore Hc (good_instances num) Hf) as Hn. unfold scale.
  destruct (set_attrs c _ p) as [p1|p1]; [|done]. by apply (filter_frame n p1).
Qed.

Lemma filter_save n f p : core p -> filter_inv n p -> filter_inv n (page_of (save f p)).
Proof.
  intros H Hf. unfold save. rewrite (create_result _ _ H (good_form f)). cbn [bind page_of].
  apply (filter_frame n (created (S (counter p)) (with_item (form_data f) p))); [done..|].
  apply filter_created. by apply (filter_frame n p).
Qed.

Lemma filter_run n p : filter_inv n p -> filter_inv n (run_filter p).
Proof.
  intros [H1 H2 H3 H4]. split; [done|done| |].
  - unfold run_filter. cbn zeta. change (n <= length (imap (fun i v => if decide (i ∈ lis p)
      then filter_view (toLowerCase (input p)) (oldDisplay p) v else v) (views p))).
    by rewrite length_imap.
  - intros i v Hi Hv. change (imap (fun i v => if decide (i ∈ lis p)
      then filter_view (toLowerCase (input p)) (oldDisplay p) v else v) (views p) !! i = Some v) in Hv.
    rewrite list_lookup_imap in Hv. destruct (views p !! i) as [w|] eqn:Ew; [|done].
    injection Hv as <-. rewrite decide_False; [by apply (H4 i)|]. rewrite H1. lia.
Qed.

Lemma filter_handle n e p :
  sound p -> good_event e -> filter_inv n p -> filter_inv n (page_of (handle e p)).
Proof.
  intros H He Hf. pose proof H as (_ & Hc & _). destruct e; cbn [handle].
  - done.
  - by apply (filter_frame n p).
  - destruct (_ && _); [|done]. unfold click_button. cbn zeta.
    destruct b; apply filter_save; by first [apply (core_frame p) | apply (filter_frame n p)].
  - destruct (lb_visible _); [by apply (filter_frame n p)|done].
  - destruct (view_in_page i p) as [c|] eqn:Ei; [|done]. unfold scale_prompt.
    destruct (truthy answer); [|done]. apply filter_scale; [done| |done].
    by apply (view_in_page_known i).
  - destruct (view_in_page i p) as [c|] eqn:Ei; [|done]. unfold suspend.
    destruct confirmed; [|done]. apply filter_scale; [done| |done]. by apply (view_in_page_known i).
  - destruct (view_in_page i p) as [c|] eqn:Ei; [|done]. unfold destroy, destroy_model, remove_views.
    destruct confirmed; [|done]. cbn zeta. set (p1 := if decide _ then p else _).
    assert (H1 : filter_inv n p1) by (unfold p1; case_decide; [done|by apply (filter_frame n p)]).
    apply (filter_frame n (with_views p1 (map (detach c) (views p1)))); [done..|].
    apply filter_map; [|done]. intros v. unfold detach. by destruct (Nat.eqb _ _).
  - destruct (store p !! c) eqn:Ec; [|done]. cbn [present]. apply filter_set_attrs; try done.
    by apply He.
  - by apply (filter_frame n p).
  - destruct (keyTimeout p); [|done]. apply filter_run. by apply (filter_frame n p).
  - destruct (present (all p)); [by apply filter_run|done].
Qed.

(** A view just added. *)
Definition new_view (v : app_view) : Prop := attached v = true /\ v_display v = [].

Lemma add_each_views cs p :
  core p -> Forall (fun c => is_Some (store p !! c)) cs ->
  exists vs, views (page_of (add_each cs p)) = views p ++ vs /\ Forall new_view vs.
Proof.
  revert p. induction cs as [|c cs IH]; intros p H Hc; [exists []; by rewrite app_nil_r|].
  inversion_clear Hc as [|? ? Hc1 Hc2]. cbn [add_each]. rewrite add_result by done. cbn [bind].
  destruct (IH (with_view c p)) as (vs & E & Hv); [by apply with_view_core|done|].
  exists (shown_view p c :: vs). split; [|by constructor].
  rewrite E. change (views (with_view c p)) with (views p ++ [shown_view p c]).
  by rewrite <- app_assoc.
Qed.

Lemma attached_views_all p :
  Forall new_view (views p) -> forall i, i ∈ attached_views p <-> i < length (views p).
Proof.
  intros Hv i. unfold attached_views. rewrite list_elem_of_omap. split.
  - intros ([j w] & Hj & E). apply list_elem_of_lookup in Hj as [k Hk].
    rewrite list_lookup_imap in Hk. destruct (views p !! k) as [u|] eqn:Eu; [|done].
    injection Hk as <- <-. cbn in E. destruct (attached u); [|done]. injection E as <-.
    by apply lookup_lt_Some in Eu.
  - intros Hi. destruct (lookup_lt_is_Some_2 _ _ Hi) as [v Ev]. exists (i, v).
    split; [|cbn; by rewrite (proj1 (Forall_lookup_1 _ _ _ _ Hv Ev))].
    apply list_elem_of_lookup. exists i. by rewrite list_lookup_imap, Ev.
Qed.

Lemma fastLiveFilter_inv p :
  Forall new_view (views p) -> filter_inv (length (views p)) (fastLiveFilter p).
Proof.
  intros Hv. split.
  - exact (attached_views_all p Hv).
  - unfold fastLiveFilter. cbn. destruct (attached_views p) as [|i l] eqn:E; [done|].
    destruct (views p !! i) as [v|] eqn:Ev; [|done]. cbn.
    by rewrite (proj2 (Forall_lookup_1 _ _ _ _ Hv Ev)).
  - done.
  - intros i v Hi E. by apply lookup_lt_Some in E; cbn in E; lia.
Qed.

Lemma loaded_filter items :
  Forall good_attrs items ->
  let p0 := page_of (loaded items Page_new) in filter_inv (length (views p0)) p0.
Proof.
  intros Hi. unfold loaded. change (Page_new <| apps := [] |>) with Page_new. cbn zeta.
  destruct (add_models_core items Page_new Hi page_new_core) as [H Hv].
  set (p := add_models items Page_new) in *.
  destruct (add_each_views (apps p) p H (s_apps p H)) as (vs & E & Hn).
  destruct (add_each_ok (apps p) p H (s_apps p H)) as (p' & E1 & _); [by rewrite Hv|].
  unfold render. rewrite E1 in *. cbn [bind page_of] in *.
  apply (fastLiveFilter_inv (p' <| all := Some (apps p') |>)).
  change (Forall new_view (views p')). by rewrite E, Hv.
Qed.

Lemma filter_handle_all n es p :
  sound p -> Forall good_event es -> filter_inv n p -> filter_inv n (handle_all es p).
Proof.
  intros H He. revert p H. induction He as [|e es He Hes IH]; intros p H Hf; [done|].
  change (handle_all (e :: es) p) with (handle_all es (page_of (handle e p))).
  pose proof (filter_handle n e p H He Hf) as H1.
  destruct (page_handle_sound e p H He) as (p' & E & Hs). rewrite E in *. by apply IH.
Qed.

(** The filter covers the applications that were there when the page was loaded and
    no others: when its timer runs out, a view of those is displayed exactly if its
    title contains the text in either case, and every view added since is displayed,
    whatever its title. *)
Theorem filter_covers_loaded_only items es :
  Forall good_attrs items -> Forall good_event es ->
  let p0 := page_of (loaded items Page_new) in
  let p := handle_all es p0 in
  keyTimeout p = true ->
  exists p', handle KeyTimeout p = Ok p' /\
    forall i v, views p' !! i = Some v ->
      (i < length (views p0) ->
       v_display v <> js "none" <->
       contains (toLowerCase (input p)) (toLowerCase (title v)) = true) /\
      (length (views p0) <= i -> v_display v = []).
Proof.
  intros Hi He p0 p Hk. destruct (loaded_sound items Hi) as (q & E & Hq).
  pose proof (loaded_filter items Hi) as Hf. cbn zeta in Hf. fold p0 in Hf.
  assert (H0 : sound p0) by (unfold p0; by rewrite E).
  pose proof (filter_handle_all _ es p0 H0 He Hf) as Hp. fold p in Hp.
  cbn [handle]. rewrite Hk. eexists. split; [done|]. set (pt := p <| keyTimeout := false |>).
  assert (Ht : filter_inv (length (views p0)) pt) by by apply (filter_frame _ p).
  intros i v Hv. split; [|intros Hle; exact (f_late _ _ (filter_run _ _ Ht) i v Hle Hv)].
  intros Hlt. change (imap (fun i v => if decide (i ∈ lis p)
      then filter_view (toLowerCase (input p)) (oldDisplay p) v else v) (views p) !! i = Some v) in Hv.
  rewrite list_lookup_imap in Hv. destruct (views p !! i) as [w|]; [|done]. injection Hv as <-.
  rewrite decide_True by by apply (f_lis _ _ Hp). pose proof (f_old _ _ Hp) as Ho.
  unfold filter_view, matches.
  destruct (contains _ (toLowerCase (title w))) eqn:Em.
  - split; [intros _|].
    + case_decide; exact Em.
    + intros _. by case_decide.
  - split; [by intros Hn; destruct Hn|].
    change (title (w <| v_display := js "none" |>)) with (title w). by rewrite Em.
Qed.

(** * Before the applications arrive *)

(** What the arrival does to the models already there: nothing. *)
Record arrived (p p' : page) : Prop := {
  a_known : forall d, is_Some (store p !! d) -> is_Some (store p' !! d);
  a_attrs : forall d, is_Some (store p !! d) -> attrs_of d p' = attrs_of d p;
  a_keep : forall d, d ∈ apps p -> d ∈ apps p';
  a_fresh : forall d, d ∈ apps p' -> d ∈ apps p \/ store p !! d = None;
  a_views : views p' = views p
}.

Lemma arrived_trans p q r : arrived p q -> arrived q r -> arrived p r.
Proof.
  intros [K1 A1 P1 F1 V1] [K2 A2 P2 F2 V2]. split; auto.
  - intros d Hd. rewrite A2 by auto. auto.
  - intros d Hd. destruct (F2 d Hd) as [Hd'|Hn]; [auto|]. right.
    destruct (store p !! d) eqn:E; [|done]. destruct (K1 d) as [x Hx]; [by eexists|].
    by rewrite Hx in Hn.
  - by rewrite V2.
Qed.

Lemma arrived_model data p : core p -> arrived p (with_model data p).
Proof.
  intros H.
  assert (Hs : store (with_model data p) = store (with_item data p))
    by (unfold with_model; cbn zeta; by destruct (get_app _ _ _)).
  assert (Ha : forall d, d ∈ apps (with_model data p) -> d ∈ apps p \/ d = S (counter p)).
  { intros d. unfold with_model. cbn zeta. destruct (get_app _ _ _); [by left|].
    change (d ∈ apps p ++ [S (counter p)] -> d ∈ apps p \/ d = S (counter p)). set_solver. }
  split.
  - intros d Hd. rewrite Hs. by apply (is_Some_written _ _ (uniqueId (uniqueId p))).
  - intros d Hd. unfold attrs_of at 1. rewrite Hs. by apply (attrs_with_item data p d H).
  - intros d Hd. unfold with_model. cbn zeta. destruct (get_app _ _ _); [done|].
    change (d ∈ apps p ++ [S (counter p)]). set_solver.
  - intros d Hd. destruct (Ha d Hd) as [?| ->]; [by left|]. right. by apply fresh_cid.
  - apply with_model_views.
Qed.

Lemma arrived_models items p :
  Forall good_attrs items -> core p -> arrived p (add_models items p).
Proof.
  intros Hi. revert p. induction Hi as [|data items Hd Hi IH]; intros p H; [by split; auto|].
  change (add_models (data :: items) p) with (add_models items (with_model data p)).
  eapply arrived_trans; [by apply arrived_model|]. by apply IH, with_model_core.
Qed.

(** Each item that arrives is in the collection, under its id. *)
Lemma with_model_key data s p :
  core p -> good_attrs data -> data !! js "id" = Some (VStr s) ->
  exists d, d ∈ apps (with_model data p) /\ key_of d (with_model data p) = Some s.
Proof.
  intros H Hg Hs. set (c := S (counter p)).
  assert (Ek : key_of c (with_item data p) = Some s).
  { unfold key_of, with_item. rewrite attrs_written, decide_True by done.
    unfold attr. rewrite lookup_union, Hs. by destruct (defaults _ !! js "id"). }
  unfold with_model. cbn zeta. fold c. rewrite Ek.
  destruct (get_app (Some s) _ _) as [d|] eqn:Eg.
  - apply List.find_some in Eg as [Hd Ed]. exists d. split; [by apply list_elem_of_In|].
    by apply bool_decide_eq_true in Ed.
  - exists c. split; [|exact Ek]. change (c ∈ apps p ++ [c]). set_solver.
Qed.

Lemma add_models_key items data s p :
  Forall good_attrs items -> core p -> data ∈ items -> data !! js "id" = Some (VStr s) ->
  exists d, d ∈ apps (add_models items p) /\ key_of d (add_models items p) = Some s.
Proof.
  intros Hi. revert p. induction Hi as [|a items Ha Hi IH]; intros p H Hd Hs;
    [by apply elem_of_nil in Hd|].
  change (add_models (a :: items) p) with (add_models items (with_model a p)).
  assert (Hc : core (with_model a p)) by by apply with_model_core.
  apply elem_of_cons in Hd as [<-|Hd]; [|by apply IH].
  destruct (with_model_key data s p H Ha Hs) as (d & Hd & Ed).
  pose proof (arrived_models items (with_model data p) Hi Hc) as [K A P _ _].
  exists d. split; [by apply P|]. unfold key_of. rewrite A; [exact Ed|].
  pose proof (s_apps _ Hc) as HF. rewrite Forall_forall in HF. by apply HF.
Qed.

(** The collection emptied, as [reset] does first. *)
Lemma emptied_core p : core p -> core (p <| apps := [] |>).
Proof.
  intros H. split; [constructor|exact (s_known p H)|exact (s_store p H)|constructor|].
  intros c d k Hc. by apply elem_of_nil in Hc.
Qed.

Lemma loaded_later items p :
  Forall good_attrs items -> sound p ->
  exists p', loaded items p = Ok p' /\ page_apps p' = page_apps p ++ apps p' /\
    apps p' = apps (add_models items (p <| apps := [] |>)) /\
    store p' = store (add_models items (p <| apps := [] |>)).
Proof.
  intros Hi (_ & H & Hu). unfold loaded. cbn zeta. set (q := p <| apps := [] |>).
  assert (Hq : core q) by by apply emptied_core.
  destruct (add_models_core items q Hi Hq) as [H1 Hv].
  pose proof (arrived_models items q Hi Hq) as [K A _ _ _].
  set (r := add_models items q) in *.
  assert (Hr : Forall (up_to_date r) (views r)).
  { rewrite Hv. pose proof (s_known p H) as Hk.
    eapply Forall_impl; [exact (proj2 (Forall_and _ _) (conj Hu Hk))|].
    intros v [Hv1 Hv2] Ht. destruct (Hv1 Ht) as (h & Hh & E). exists h. split; [done|].
    by rewrite A. }
  destruct (add_each_ok (apps r) r H1 (s_apps r H1) Hr) as (p' & E1 & _ & _ & E4 & E5 & E6).
  unfold render. rewrite E1. cbn [bind]. eexists. split; [done|].
  change (page_apps p' = page_apps p ++ apps p' /\ apps p' = apps r /\ store p' = store r).
  rewrite E4, E5. split; [|done]. f_equal. unfold page_apps. by rewrite Hv.
Qed.

Definition early_page (f : form) : page := handle_all [AddNew; Button Submit f] Page_new.

Lemma early_page_app f :
  (page_apps (early_page f), key_of 4 (early_page f), present (store (early_page f) !! 4))
  = ([4], Some (f_id f), true).
Proof. vm_compute. reflexivity. Qed.

Lemma early_page_sound f : sound (early_page f).
Proof.
  apply (page_handle_all_sound [AddNew; Button Submit f] Page_new); [|by repeat constructor].
  split; [done|]. split; [apply page_new_core|constructor].
Qed.

Lemma arrival_twice p c s items data :
  sound p -> page_apps p = [c] -> key_of c p = Some s -> is_Some (store p !! c) ->
  Forall good_attrs items -> data ∈ items -> data !! js "id" = Some (VStr s) ->
  exists d p', handle (Loaded items) p = Ok p' /\
    page_apps p' = c :: apps p' /\ (c ∉ apps p') /\ d ∈ apps p' /\
    key_of c p' = Some s /\ key_of d p' = Some s.
Proof.
  intros Hs Hp1 Hp2 Hp3 Hi Hin Hid.
  destruct (loaded_later items p Hi Hs) as (p' & E1 & E2 & E3 & E4).
  set (q := p <| apps := [] |>) in *.
  assert (Hq : core q) by by apply emptied_core, Hs.
  pose proof (arrived_models items q Hi Hq) as [K A P F _].
  destruct (add_models_key items data s q Hi Hq Hin Hid) as (d & Hd & Ek).
  exists d, p'. split; [exact E1|]. split; [by rewrite E2, Hp1|]. rewrite E3.
  split; [|split; [done|]].
  - intros Hc. destruct (F c Hc) as [Hn|Hn]; [by apply elem_of_nil in Hn|].
    change (store p !! c = None) in Hn. by rewrite Hn in Hp3; destruct Hp3.
  - unfold key_of, attrs_of in *. rewrite E4. split; [|exact Ek].
    pose proof (A c Hp3) as Ac. unfold attrs_of in Ac. rewrite Ac. exact Hp2.
Qed.

(** An application created before the others have arrived stays on the page outside
    the collection; when the answer names it too, it is there twice, and one of the two
    is none of the collection's. *)
Theorem early_app_shown_twice f items data :
  Forall good_attrs items -> data ∈ items -> data !! js "id" = Some (VStr (f_id f)) ->
  exists c d p', handle (Loaded items) (early_page f) = Ok p' /\
    page_apps p' = c :: apps p' /\ (c ∉ apps p') /\ d ∈ apps p' /\
    key_of c p' = Some (f_id f) /\ key_of d p' = Some (f_id f).
Proof.
  intros Hi Hin Hid. exists 4. pose proof (early_page_app f) as E.
  pose proof (early_page_sound f) as Hs. revert Hs E. generalize (early_page f). intros p Hs E.
  injection E as Hp1 Hp2 Hp4. apply (arrival_twice p 4 (f_id f) items data); try done.
  destruct (store p !! 4); [by eexists|done].
Qed.
End Props.

(** * Witnesses: a page of two applications *)

Definition ascii_browser : Browser := {|
  toLowerCase := map (fun c => if bool_decide (65 <= c <= 90)%N then (c + 32)%N else c);
  class_words := fun s => List.filter (fun w => negb (bool_decide (w = []))) (split 32 s);
  text_of_html := fun s => s
|}.

Definition two_apps : list attrs :=
  [list_to_map [(js "id", VStr (js "sinatra")); (js "instances", VNum (js "5"))];
   list_to_map [(js "id", VStr (js "Monorail")); (js "uris", VList [js "http://a/b.tgz"])]].

Lemma two_apps_good : Forall good_attrs two_apps.
Proof. by repeat constructor. Qed.

Definition rails_form : form :=
  Form (js "rails") (js "run") (js "10") (js "0.1") (js "2") (js " http://c/d.tgz ,http://e").

Definition session : list event :=
  [AddNew; Button Submit rails_form; ScaleClick 0 (Some (js "7")); DestroyClick 1 true;
   Typed (js "SIN")].

Lemma session_good : Forall good_event session.
Proof. by repeat constructor. Qed.

Definition ready : page := page_of (loaded (B := ascii_browser) two_apps Page_new).

Lemma page_mirrors_apps_witness :
  let p := handle_all (B := ascii_browser) session ready in
  page_apps p = apps p /\ NoDup (apps p).
Proof.
  destruct (page_mirrors_apps (B := ascii_browser) two_apps session two_apps_good session_good)
    as (H1 & H2 & _).
  split; [exact H1|exact H2].
Defined.

Lemma ready_sound : sound ready.
Proof.
  destruct (loaded_sound (B := ascii_browser) two_apps two_apps_good) as (p & E & H).
  unfold ready. by rewrite E.
Qed.

Lemma buttons_send_witness :
  exists p', handle (B := ascii_browser) (DestroyClick 1 true) ready = Ok p' /\
    apps p' = drop_model 3 (apps ready).
Proof.
  assert (Hv : view_in_page 1 ready = Some 3) by (vm_compute; reflexivity).
  assert (Hk : key_of 3 ready = Some (js "Monorail")) by (vm_compute; reflexivity).
  destruct (buttons_send (B := ascii_browser) 1 3 ready ready_sound Hv)
    as (_ & _ & (p' & H1 & _ & H2) & _); [by rewrite Hk|].
  exists p'. split; [exact H1|exact H2].
Defined.

Lemma uris_roundtrip_witness :
  parse_uris (js " http://a,http://b  ") = [js "http://a"; js "http://b"].
Proof.
  refine (uris_roundtrip [(1, js "http://a", 0); (0, js "http://b", 2)] _).
  repeat constructor; try discriminate; by apply (bool_decide_unpack (_ ∉ _)).
Defined.

(** The page with the form open. *)
Definition asking : page := page_of (handle (B := ascii_browser) AddNew ready).

Lemma asking_sound : sound asking.
Proof.
  destruct (page_handle_sound (B := ascii_browser) AddNew ready ready_sound I) as (p & E & H).
  unfold asking. by rewrite E.
Qed.

Lemma cancel_starts_app_witness :
  exists p1 n, handle (B := ascii_browser) (Button Cancel rails_form) asking = Ok p1 /\
    requests p1 = requests asking ++ [Start (form_data rails_form ∪ defaults n)].
Proof.
  destruct (cancel_starts_app (B := ascii_browser) rails_form asking asking_sound)
    as (p1 & p2 & H1 & _ & (n & H2) & _); [vm_compute; reflexivity..|].
  exists p1, n. split; [exact H1|exact H2].
Defined.

Definition same_name : form :=
  Form (js "sinatra") (js "other") (js "1") (js "1") (js "1") [].

Lemma duplicate_create_still_starts_witness :
  exists p', handle (B := ascii_browser) (Button Submit same_name) asking = Ok p' /\
    apps p' = apps asking.
Proof.
  destruct (duplicate_create_still_starts (B := ascii_browser) same_name 1 asking asking_sound)
    as (p' & n & H1 & H2 & _).
  - vm_compute; reflexivity.
  - vm_compute; reflexivity.
  - apply (bool_decide_unpack (_ ∈ _)). vm_compute. exact I.
  - vm_compute; reflexivity.
  - exists p'. split; [exact H1|exact H2].
Defined.

Lemma filter_covers_loaded_only_witness :
  exists p', handle (B := ascii_browser) KeyTimeout (handle_all (B := ascii_browser) session ready)
             = Ok p'.
Proof.
  destruct (filter_covers_loaded_only (B := ascii_browser) two_apps session two_apps_good
    session_good) as (p' & H & _); [vm_compute; reflexivity|].
  exists p'. exact H.
Defined.

Lemma early_app_shown_twice_witness :
  exists c d p', handle (B := ascii_browser) (Loaded two_apps)
      (early_page (B := ascii_browser) same_name) = Ok p' /\
    page_apps p' = c :: apps p' /\ d ∈ apps p'.
Proof.
  destruct (early_app_shown_twice (B := ascii_browser) same_name two_apps
    (list_to_map [(js "id", VStr (js "sinatra")); (js "instances", VNum (js "5"))])
    two_apps_good) as (c & d & p' & H1 & H2 & _ & H3 & _).
  - apply list_elem_of_In. left. reflexivity.
  - vm_compute. reflexivity.
  - exists c, d, p'. split; [exact H1|]. split; [exact H2|exact H3].
Defined.
