(* ===== verification/Carousel.v ===== *)
(** Carousel: Bootstrap's carousel as the Fuel UX bundle carries it (fuelux/dist/all.js,
    bootstrap-carousel.js): items of which one is active, a timer, indicators, and slides
    that take a transition when the element has the class slide.

    Positions name the items.  A listener may prevent a slide: [veto] says whether the
    listeners of the [n]th 'slide' event do.  The pixels of the transition are layout. *)

From S2P Require Import Prelude.
From coqutil Require Import Datatypes.RecordSettersUsingExistingGetters.

Inductive type := Next | Prev.

#[export] Instance type_eq_dec : EqDecision type.
Proof. solve_decision. Defined.

(** The classes of an item: active, next or prev ([i_type]), and left or right, which is
    the direction of the slide it takes part in. *)
Record item := Item { i_active : bool; i_type : option type; i_direction : option type }.

(** The functions waiting for the transition's end: those of [slide], with its sets. *)
Record end_handler := EndSlide { e_active : list nat; e_next : list nat }.

(** The functions waiting for the 'slid' event: of [slide] and of [to]. *)
Inductive slid_handler := MarkIndicator | GoTo (pos : Z).

Record carousel := Carousel {
  transitions : bool;              (* supported, and the class slide *)
  opt_interval : bool;             (* options.interval is truthy *)
  hover : bool;                    (* options.pause == 'hover' *)
  veto : nat -> bool;
  items : list item;
  indicators : option (list bool); (* the active ones, if there are any *)
  paused : bool;
  sliding : bool;
  interval : option nat;           (* this.interval *)
  timers : list nat;               (* the intervals that are running *)
  fresh : nat;
  ends : list end_handler;
  slid_queue : list (nat * slid_handler);
  slid_timers : nat;               (* setTimeout(... trigger 'slid', 0) *)
  slides : nat                     (* 'slide' events so far *)
}.

Definition Carousel_new (t o h : bool) (v : nat -> bool) (l : list item)
    (ind : option (list bool)) : carousel :=
  Carousel t o h v l ind false false None [] 0 [] [] 0 0.

(** [this.$element.find('.item.active')]. *)
Definition actives (l : list item) : list nat := places i_active l.

(** [clearInterval]. *)
Definition clearInterval (id : option nat) (c : carousel) : carousel :=
  match id with
  | Some t => c <| timers ::= List.filter (fun u => negb (Nat.eqb u t)) |>
  | None => c
  end.

(** [cycle(e)]: [e] tells whether there is an event. *)
Definition cycle (e : bool) (c : carousel) : carousel :=
  let c := if e then c else c <| paused := false |> in
  let c := clearInterval (interval c) c in
  if opt_interval c && negb (paused c)
  then c <| interval := Some (fresh c) |> <| timers ::= fun l => l ++ [fresh c] |>
         <| fresh ::= S |>
  else c.

Definition end_slide (h : end_handler) (c : carousel) : carousel :=
  c <| items ::= map_at (fun x => x <| i_type := None |> <| i_direction := None |>
                                    <| i_active := true |>) (e_next h) |>
    <| items ::= map_at (fun x => x <| i_active := false |> <| i_direction := None |>)
                   (e_active h) |>
    <| sliding := false |> <| slid_timers ::= S |>.

Definition transition_end (c : carousel) : carousel :=
  foldl (fun c h => end_slide h c) (c <| ends := [] |>) (ends c).

(** [pause(e)]: a slide under way is brought to its end. *)
Definition pause (e : bool) (c : carousel) : carousel :=
  let c := if e then c else c <| paused := true |> in
  let c := if existsb (fun x => present (i_type x)) (items c)
           then cycle true (transition_end c) else c in
  (clearInterval (interval c) c) <| interval := None |>.

(** [$active[type]()] for the items at [act]. *)
Definition neighbours (t : type) (act : list nat) (n : nat) : list nat :=
  match t with
  | Next => List.filter (fun i => Nat.ltb i n) (map S act)
  | Prev => map pred (List.filter (fun i => Nat.ltb 0 i) act)
  end.

(** [find('.item')[fallback]()]. *)
Definition fallback (t : type) (n : nat) : list nat :=
  match n with O => [] | S k => match t with Next => [0] | Prev => [k] end end.

Definition has_active (l : list item) (idxs : list nat) : bool :=
  existsb (fun i => match l !! i with Some x => i_active x | None => false end) idxs.

(** [slide(type, next)]; [slid] triggers the 'slid' event. *)
Definition slide (slid : carousel -> carousel) (t : type) (next : option nat) (c : carousel)
    : carousel :=
  let act := actives (items c) in
  let nxt := match next with
             | Some i => [i]
             | None => neighbours t act (length (items c))
             end in
  let isCycling := present (interval c) in
  let c := c <| sliding := true |> in
  let c := if isCycling then pause false c else c in
  let nxt := match nxt with [] => fallback t (length (items c)) | _ => nxt end in
  if has_active (items c) nxt then c
  else
    let c := match indicators c with
             | Some ind => c <| indicators := Some (map (fun _ => false) ind) |>
                             <| slid_queue ::= fun l => l ++ [(fresh c, MarkIndicator)] |>
                             <| fresh ::= S |>
             | None => c
             end in
    let prevented := veto c (slides c) in
    let c := c <| slides ::= S |> in
    if prevented then c
    else
      let c :=
        if transitions c
        then c <| items ::= map_at (fun x => x <| i_type := Some t |>) nxt |>
               <| items ::= map_at (fun x => x <| i_direction := Some t |>) act |>
               <| items ::= map_at (fun x => x <| i_direction := Some t |>) nxt |>
               <| ends ::= fun l => l ++ [EndSlide act nxt] |>
        else slid (c <| items ::= map_at (fun x => x <| i_active := false |>) act |>
                     <| items ::= map_at (fun x => x <| i_active := true |>) nxt |>
                     <| sliding := false |>) in
      if isCycling then cycle false c else c.

Definition to (slid : carousel -> carousel) (pos : Z) (c : carousel) : carousel :=
  match actives (items c) with
  | [] => c
  | activeIndex :: _ =>
      if bool_decide (pos > Z.of_nat (length (items c)) - 1)%Z || bool_decide (pos < 0)%Z then c
      else if sliding c
      then c <| slid_queue ::= fun l => l ++ [(fresh c, GoTo pos)] |> <| fresh ::= S |>
      else if decide (Z.of_nat activeIndex = pos) then cycle false (pause false c)
      else slide slid (if bool_decide (pos > Z.of_nat activeIndex)%Z then Next else Prev)
             (Some (Z.to_nat pos)) c
  end.

Definition mark_indicator (c : carousel) : carousel :=
  match actives (items c) with
  | i :: _ => c <| indicators ::= fmap (map_at (fun _ => true) [i]) |>
  | [] => c
  end.

(** The 'slid' event: the handlers waiting now, each taken off as it is called.  A handler
    that slides without a transition triggers the event again, [fuel] deep. *)
Definition slid_call (go : Z -> carousel -> carousel) (c : carousel) (h : nat * slid_handler)
    : carousel :=
  let c := c <| slid_queue ::= List.filter (fun g => negb (Nat.eqb (fst g) (fst h))) |> in
  match snd h with
  | MarkIndicator => mark_indicator c
  | GoTo pos => go pos c
  end.

Fixpoint slid (fuel : nat) (c : carousel) : carousel :=
  match fuel with
  | O => c
  | S fuel => foldl (slid_call (to (slid fuel))) c (slid_queue c)
  end.

(** A depth for the 'slid' event; [slid_depth] of CarouselFacts.v shows that it
    is enough. *)
Definition depth : nat := 2.

Definition next (c : carousel) : carousel :=
  if sliding c then c else slide (slid depth) Next None c.

Definition prev (c : carousel) : carousel :=
  if sliding c then c else slide (slid depth) Prev None c.

Inductive event :=
  | Cycle | Pause | DoNext | DoPrev | To (pos : Z) | MouseEnter | MouseLeave
  | Tick (n : nat) | TransitionEnd | SlidTimeout.

Definition handle (e : event) (c : carousel) : carousel :=
  match e with
  | Cycle => cycle false c
  | Pause => pause false c
  | DoNext => next c
  | DoPrev => prev c
  | To pos => to (slid depth) pos c
  | MouseEnter => if hover c then pause true c else c
  | MouseLeave => if hover c then cycle true c else c
  | Tick n => match timers c !! n with Some _ => next c | None => c end
  | TransitionEnd => transition_end c
  | SlidTimeout =>
      match slid_timers c with
      | O => c
      | S k => slid depth (c <| slid_timers := k |>)
      end
  end.

Definition handle_all (es : list event) (c : carousel) : carousel :=
  foldl (fun c e => handle e c) c es.
