(* ===== verification/CarouselFacts.v ===== *)
(** Facts about the carousel: one active item and one timer whatever happens, the slides
    of a patient user, and the slide that freezes it. *)

From S2P Require Import Prelude Carousel.
From coqutil Require Import Datatypes.RecordSettersUsingExistingGetters.

(** * Items described by their position *)

Definition gen (n : nat) (f : nat -> item) : list item := map f (seq 0 n).

Lemma gen_length n f : length (gen n f) = n.
Proof. unfold gen. by rewrite length_map, length_seq. Qed.

Lemma gen_lookup n f j : gen n f !! j = if decide (j < n) then Some (f j) else None.
Proof.
  unfold gen. case_decide as H; [by rewrite list_lookup_fmap, lookup_seq_lt|].
  apply lookup_ge_None. rewrite length_map, length_seq. lia.
Qed.

Lemma gen_ext n f g : (forall j, j < n -> f j = g j) -> gen n f = gen n g.
Proof.
  intros H. apply list_eq. intros j. rewrite !gen_lookup. case_decide; [by rewrite H|done].
Qed.

Lemma map_at_gen g idxs n f :
  map_at g idxs (gen n f) = gen n (fun j => if decide (j ∈ idxs) then g (f j) else f j).
Proof.
  apply list_eq. intros j. unfold map_at. rewrite list_lookup_imap, !gen_lookup.
  by destruct (decide (j < n)).
Qed.

(** At rest: the item at [a] is active and nothing moves. *)
Definition rest_items (n a : nat) : list item :=
  gen n (fun j => Item (bool_decide (j = a)) None None).

(** On the way from [a] to [b]. *)
Definition move_items (n a b : nat) (t : type) : list item :=
  gen n (fun j => Item (bool_decide (j = a)) (if decide (j = b) then Some t else None)
                    (if decide (j = a \/ j = b) then Some t else None)).

Lemma actives_one n a f :
  a < n -> (forall j, j < n -> i_active (f j) = bool_decide (j = a)) -> actives (gen n f) = [a].
Proof.
  intros Ha Hf. apply places_one; [by rewrite gen_length|]. intros i x Hi.
  rewrite gen_lookup in Hi. case_decide; [|done]. injection Hi as <-. by apply Hf.
Qed.

Lemma actives_rest n a : a < n -> actives (rest_items n a) = [a].
Proof. intros H. by apply actives_one. Qed.

Lemma actives_move n a b t : a < n -> actives (move_items n a b t) = [a].
Proof. intros H. by apply actives_one. Qed.

Lemma rest_not_moving n a : existsb (fun x => present (i_type x)) (rest_items n a) = false.
Proof.
  unfold rest_items, gen. induction (seq 0 n) as [|j l IH]; [done|]. exact IH.
Qed.

Lemma has_active_rest n a b : b < n -> has_active (rest_items n a) [b] = bool_decide (b = a).
Proof.
  intros H. unfold has_active, rest_items. cbn [existsb]. rewrite gen_lookup, decide_True by done.
  cbn. by rewrite orb_false_r.
Qed.

(** What a slide without a transition, its start and its end do to the items. *)
Lemma jump_items n a b :
  map_at (fun x => x <| i_active := true |>) [b]
    (map_at (fun x => x <| i_active := false |>) [a] (rest_items n a)) = rest_items n b.
Proof.
  unfold rest_items. rewrite !map_at_gen. apply gen_ext. intros j _.
  repeat case_decide; cbn; repeat case_bool_decide; set_solver.
Qed.

Lemma start_items n a b t :
  map_at (fun x => x <| i_direction := Some t |>) [b]
    (map_at (fun x => x <| i_direction := Some t |>) [a]
       (map_at (fun x => x <| i_type := Some t |>) [b] (rest_items n a))) = move_items n a b t.
Proof.
  unfold rest_items, move_items. rewrite !map_at_gen. apply gen_ext. intros j _.
  repeat case_decide; cbn; repeat case_bool_decide; set_solver.
Qed.

Lemma end_items n a b t :
  a <> b ->
  map_at (fun x => x <| i_active := false |> <| i_direction := None |>) [a]
    (map_at (fun x => x <| i_type := None |> <| i_direction := None |> <| i_active := true |>) [b]
       (move_items n a b t)) = rest_items n b.
Proof.
  intros Hab. unfold rest_items, move_items. rewrite !map_at_gen. apply gen_ext. intros j _.
  repeat case_decide; cbn; repeat case_bool_decide; set_solver.
Qed.

(** * The invariant *)

(** Exactly one item is active; the others move only with a slide under way. *)
Inductive shape (n : nat) (c : carousel) : nat -> Prop :=
  | AtRest a : a < n -> items c = rest_items n a -> ends c = [] -> shape n c a
  | Moving a b t : a < n -> b < n -> a <> b -> items c = move_items n a b t ->
      ends c = [EndSlide [a] [b]] -> sliding c = true -> transitions c = true -> shape n c a.

(** At most one interval runs, and [this.interval] knows it. *)
Definition one_timer (c : carousel) : Prop :=
  timers c = [] \/ exists t, interval c = Some t /\ timers c = [t].

Definition no_goto (c : carousel) : Prop := Forall (fun h => snd h = MarkIndicator) (slid_queue c).

(** Without transitions nothing waits for the next slide. *)
Definition synchronous (c : carousel) : Prop :=
  transitions c = false -> slid_timers c = 0 /\ (sliding c = false -> no_goto c).

Record sound (n : nat) (c : carousel) : Prop := {
  c_shape : exists a, shape n c a;
  c_timer : one_timer c;
  c_sync : synchronous c
}.

Lemma clearInterval_timers c : one_timer c -> timers (clearInterval (interval c) c) = [].
Proof.
  intros [E|(t & Ei & Et)]; unfold clearInterval.
  - destruct (interval c); [cbn; by rewrite E|done].
  - rewrite Ei. cbn. rewrite Et. cbn. by rewrite Nat.eqb_refl.
Qed.

(** What [cycle] and [pause] leave alone. *)
Definition still (c : carousel) :=
  (transitions c, veto c, items c, ends c, (indicators c, sliding c),
   (slid_queue c, slid_timers c, slides c), (opt_interval c, hover c)).

Lemma clearInterval_still i c : still (clearInterval i c) = still c.
Proof. by destruct i. Qed.

Lemma cycle_still e c : still (cycle e c) = still c.
Proof.
  unfold cycle. cbn zeta. set (c0 := if e then c else _).
  transitivity (still c0); [|by destruct e].
  rewrite <- (clearInterval_still (interval c0) c0).
  generalize (clearInterval (interval c0) c0). intros c1. by destruct (_ && _).
Qed.

Lemma cycle_timer e c : one_timer c -> one_timer (cycle e c).
Proof.
  intros H. unfold cycle. cbn zeta. set (c0 := if e then c else _).
  assert (H0 : one_timer c0) by by destruct e. pose proof (clearInterval_timers c0 H0) as Ht.
  revert Ht. generalize (clearInterval (interval c0) c0). intros c1 Ht.
  destruct (_ && _); [|by left]. right. exists (fresh c1). split; [done|]. cbn. by rewrite Ht.
Qed.

Lemma shape_still n c c' a : still c' = still c -> shape n c a -> shape n c' a.
Proof.
  unfold still. intros E H. injection E as E1 E2 E3 E4 E5 E6 E7 E8 E9 E10 E11.
  destruct H as [a Ha Ei Ee|a b t Ha Hb Hab Ei Ee Es Et].
  - apply AtRest; congruence.
  - apply (Moving n c' a b t); congruence.
Qed.

Lemma synchronous_still c c' : still c' = still c -> synchronous c -> synchronous c'.
Proof.
  unfold still. intros E H. injection E as E1 E2 E3 E4 E5 E6 E7 E8 E9 E10 E11.
  unfold synchronous, no_goto. by rewrite E1, E6, E7, E8.
Qed.

Lemma sound_still n c c' : still c' = still c -> one_timer c' -> sound n c -> sound n c'.
Proof.
  intros E Ht [[a H1] _ H3]. split; [exists a; by apply (shape_still n c)|done|].
  by apply (synchronous_still c).
Qed.

Lemma cycle_sound n e c : sound n c -> sound n (cycle e c).
Proof.
  intros H. apply (sound_still n c); [apply cycle_still|apply cycle_timer, H|done].
Qed.

Lemma transition_end_rest n c a :
  items c = rest_items n a -> ends c = [] -> transition_end c = c.
Proof. intros _ E. unfold transition_end. rewrite E. cbn. by destruct c; cbn in E; subst. Qed.

(** The page after a slide under way has ended. *)
Lemma transition_end_moving n c a b t :
  a <> b -> items c = move_items n a b t -> ends c = [EndSlide [a] [b]] ->
  transition_end c
  = c <| items := rest_items n b |> <| ends := [] |> <| sliding := false |>
      <| slid_timers := S (slid_timers c) |>.
Proof.
  intros Hab Ei Ee. unfold transition_end. rewrite Ee. cbn [foldl]. rewrite <- (end_items n a b t Hab).
  rewrite <- Ei. done.
Qed.

Lemma transition_end_sound n c : sound n c -> sound n (transition_end c).
Proof.
  intros [[a H] H2 H3]. destruct H as [a Ha Ei Ee|a b t Ha Hb Hab Ei Ee Es Et].
  - rewrite (transition_end_rest n c a) by done. split; [|done|done]. exists a. by apply AtRest.
  - rewrite (transition_end_moving n c a b t) by done. split; [|done|].
    + exists b. by apply AtRest.
    + intros Hf. change (transitions c = false) in Hf. by rewrite Et in Hf.
Qed.

Lemma unpaused_sound n c (e : bool) : sound n c -> sound n (if e then c else c <| paused := true |>).
Proof. intros H. destruct e; [done|]. apply (sound_still n c); [done| |done]. apply H. Qed.

Lemma no_interval_sound n c : sound n c -> sound n ((clearInterval (interval c) c) <| interval := None |>).
Proof.
  intros H. apply (sound_still n c); [|left|done].
  - transitivity (still (clearInterval (interval c) c)); [done|apply clearInterval_still].
  - change (timers (clearInterval (interval c) c) = []). apply clearInterval_timers, H.
Qed.

Lemma pause_sound n e c : sound n c -> sound n (pause e c).
Proof.
  intros H. unfold pause. cbn zeta. pose proof (unpaused_sound n c e H) as H1.
  generalize dependent (if e then c else c <| paused := true |>). intros c1 H1.
  apply no_interval_sound. destruct (existsb _ _); [|done].
  by apply cycle_sound, transition_end_sound.
Qed.

(** At rest, [pause] only stops the interval. *)
Lemma pause_rest n a e c : items c = rest_items n a -> still (pause e c) = still c.
Proof.
  intros Ei. unfold pause. cbn zeta. set (c1 := if e then c else _).
  assert (E1 : still c1 = still c) by by destruct e.
  assert (Ei1 : items c1 = rest_items n a) by by destruct e.
  rewrite Ei1, rest_not_moving.
  transitivity (still (clearInterval (interval c1) c1)); [done|]. by rewrite clearInterval_still.
Qed.

(** * Sliding *)

(** A trigger of 'slid' that meets only indicators marks them and does nothing else. *)
Definition marks_only (k : carousel -> carousel) : Prop :=
  forall c, no_goto c -> exists ind q, k c = c <| indicators := ind |> <| slid_queue := q |> /\
                                 Forall (fun h => snd h = MarkIndicator) q.

Lemma mark_indicator_eq c : exists ind, mark_indicator c = c <| indicators := ind |>.
Proof.
  unfold mark_indicator. destruct (actives (items c)); [|by eexists].
  exists (indicators c). by destruct c.
Qed.

Lemma slid_marks fuel : marks_only (slid (S fuel)).
Proof.
  intros c H. cbn [slid]. unfold no_goto in H.
  assert (G : forall l d, Forall (fun h => snd h = MarkIndicator) l -> no_goto d ->
    exists ind q, foldl (slid_call (to (slid fuel))) d l = d <| indicators := ind |> <| slid_queue := q |> /\
      Forall (fun h => snd h = MarkIndicator) q).
  { intros l. induction l as [|h l IH]; intros d Hl Hd.
    - exists (indicators d), (slid_queue d). split; [by destruct d|exact Hd].
    - inversion_clear Hl as [|? ? Hh Hl']. cbn [foldl]. unfold slid_call at 2. rewrite Hh. cbn zeta.
      set (d1 := d <| slid_queue ::= _ |>).
      destruct (mark_indicator_eq d1) as [ind1 E1]. rewrite E1.
      destruct (IH (d1 <| indicators := ind1 |>) Hl') as (ind & q & E & Hq).
      + unfold no_goto. change (Forall (fun g => snd g = MarkIndicator)
          (List.filter (fun g => negb (Nat.eqb (fst g) (fst h))) (slid_queue d))).
        apply Forall_forall. intros x Hx. apply list_elem_of_In, filter_In in Hx as [Hx _].
        apply list_elem_of_In in Hx. unfold no_goto in Hd. rewrite Forall_forall in Hd. by apply Hd.
      + exists ind, q. split; [|done]. by rewrite E. }
  by apply G.
Qed.

(** The state in which [slide] has chosen [b] to follow [a]. *)
Definition chosen (t : type) (nxt : option nat) (n a b : nat) : Prop :=
  match nxt with
  | Some i => b = i
  | None => b = match t with
                | Next => if decide (S a < n) then S a else 0
                | Prev => if decide (a = 0) then n - 1 else a - 1
                end
  end.

Lemma next_set t nxt n a b :
  a < n -> chosen t nxt n a b ->
  let l := match nxt with Some i => [i] | None => neighbours t [a] n end in
  match l with [] => fallback t n | _ => l end = [b].
Proof.
  intros Ha Hb. destruct nxt as [i|]; cbn in Hb; subst; [done|].
  destruct t; cbn [neighbours map List.filter].
  - destruct (Nat.ltb_spec (S a) n); case_decide; try lia; [done|]. by destruct n; [lia|].
  - destruct (Nat.ltb_spec 0 a); case_decide; try lia; cbn [map].
    + by replace (pred a) with (a - 1) by lia.
    + destruct n; [lia|]. cbn. by rewrite Nat.sub_0_r.
Qed.

(** [slide] before the transition or the jump: the timer stopped, the indicators off. *)
Definition prepared (c : carousel) : carousel :=
  let c1 := c <| sliding := true |> in
  if present (interval c) then pause false c1 else c1.

Definition unmarked (c : carousel) : carousel :=
  match indicators c with
  | Some ind => c <| indicators := Some (map (fun _ => false) ind) |>
                  <| slid_queue ::= fun l => l ++ [(fresh c, MarkIndicator)] |>
                  <| fresh ::= S |>
  | None => c
  end.

Definition launched (t : type) (n a b : nat) (c : carousel) : carousel :=
  c <| items := move_items n a b t |> <| ends ::= fun l => l ++ [EndSlide [a] [b]] |>.

Definition jumped (n b : nat) (c : carousel) : carousel :=
  c <| items := rest_items n b |> <| sliding := false |>.

Lemma slide_result k t nxt n a b c :
  a < n -> b < n -> items c = rest_items n a -> chosen t nxt n a b ->
  slide k t nxt c
  = let c1 := prepared c in
    if decide (b = a) then c1
    else
      let c2 := (unmarked c1) <| slides ::= S |> in
      if veto c (slides c) then c2
      else
        let c3 := if transitions c then launched t n a b c2 else k (jumped n b c2) in
        if present (interval c) then cycle false c3 else c3.
Proof.
  intros Ha Hb Ei Hc. unfold slide. cbn zeta. rewrite Ei, actives_rest by done.
  fold (prepared c). set (c1 := prepared c).
  assert (E1 : still c1 = still (c <| sliding := true |>)).
  { unfold c1, prepared. cbn zeta. destruct (present _); [|done]. by apply (pause_rest n a). }
  unfold still in E1. injection E1 as F1 F2 F3 F4 F5 F6 F7 F8 F9 F10 F11.
  change (items (c <| sliding := true |>)) with (items c) in F3. rewrite Ei in F3.
  rewrite F3. replace (length (rest_items n a)) with n by by (symmetry; apply gen_length).
  pose proof (next_set t nxt n a b Ha Hc) as Hn. cbn zeta in Hn. rewrite Hn, has_active_rest by done.
  fold (unmarked c1). assert (U : veto (unmarked c1) = veto c /\ slides (unmarked c1) = slides c /\
    transitions (unmarked c1) = transitions c /\ items (unmarked c1) = rest_items n a)
    by (unfold unmarked; by destruct (indicators c1)).
  destruct U as (U1 & U2 & U3 & U4). rewrite U1, U2.
  change (transitions ((unmarked c1) <| slides ::= S |>)) with (transitions (unmarked c1)).
  rewrite U3. case_bool_decide as Eb; [by rewrite decide_True|]. rewrite decide_False by done.
  destruct (veto c (slides c)); [done|].
  set (c2 := (unmarked c1) <| slides ::= S |>).
  assert (U5 : items c2 = rest_items n a) by exact U4.
  assert (L : c2 <| items ::= map_at (fun x => x <| i_type := Some t |>) [b] |>
               <| items ::= map_at (fun x => x <| i_direction := Some t |>) [a] |>
               <| items ::= map_at (fun x => x <| i_direction := Some t |>) [b] |>
               <| ends ::= fun l => l ++ [EndSlide [a] [b]] |> = launched t n a b c2).
  { unfold launched. rewrite <- start_items, <- U5. done. }
  assert (M : c2 <| items ::= map_at (fun x => x <| i_active := false |>) [a] |>
                 <| items ::= map_at (fun x => x <| i_active := true |>) [b] |>
                 <| sliding := false |> = jumped n b c2).
  { unfold jumped. rewrite <- (jump_items n a b), <- U5. done. }
  by rewrite L, M.
Qed.

Lemma sound_rest n c a :
  a < n -> items c = rest_items n a -> ends c = [] -> one_timer c -> synchronous c -> sound n c.
Proof. intros Ha Ei Ee Ht Hs. split; [exists a; by apply AtRest|done|done]. Qed.

Lemma prepared_still n a c :
  items c = rest_items n a -> still (prepared c) = still (c <| sliding := true |>).
Proof.
  intros Ei. unfold prepared. cbn zeta. destruct (present _); [|done]. by apply (pause_rest n a).
Qed.

Lemma prepared_timer n c : sound n c -> sliding c = false -> one_timer (prepared c).
Proof.
  intros H Hf. pose proof H as [[a Hs] Ht Hy]. unfold prepared. cbn zeta.
  destruct (present _); [|done].
  apply (pause_sound n). destruct Hs as [a Ha Ei Ee|a b t Ha Hb Hab Ei Ee Es Et]; [|by rewrite Es in Hf].
  apply (sound_rest n _ a); try done. intros Htr. split; [by apply Hy|done].
Qed.

(** The state after the indicators and the 'slide' event, with what it has of [c]. *)
Definition announced (c : carousel) : carousel := (unmarked (prepared c)) <| slides ::= S |>.

Record announced_spec (n a : nat) (c c2 : carousel) : Prop := {
  p_items : items c2 = rest_items n a;
  p_ends : ends c2 = [];
  p_sliding : sliding c2 = true;
  p_trans : transitions c2 = transitions c;
  p_slid : slid_timers c2 = slid_timers c;
  p_queue : no_goto c -> no_goto c2;
  p_timer : one_timer c2;
  p_veto : veto c2 = veto c /\ slides c2 = S (slides c)
}.

Lemma announced_ok n a c :
  sound n c -> sliding c = false -> items c = rest_items n a -> announced_spec n a c (announced c).
Proof.
  intros H Hf Ei. pose proof (prepared_still n a c Ei) as E.
  pose proof (prepared_timer n c H Hf) as Ht. unfold announced. set (c1 := prepared c) in *.
  clearbody c1. unfold still in E. injection E as F1 F2 F3 F4 F5 F6 F7 F8 F9 F10 F11.
  pose proof H as [[a' Hs] _ _].
  assert (Ee : ends c = []) by (destruct Hs as [? ? ? ?|? ? ? ? ? ? ? ? Es ?]; [done|by rewrite Es in Hf]).
  change (items (c <| sliding := true |>)) with (items c) in F3.
  change (ends (c <| sliding := true |>)) with (ends c) in F4.
  change (sliding (c <| sliding := true |>)) with true in F6.
  assert (Hq : no_goto c -> Forall (fun h => snd h = MarkIndicator) (slid_queue c1))
    by (rewrite F7; done).
  unfold unmarked. destruct (indicators c1) as [ind|]; split; try done.
  all: try (etransitivity; [|eassumption]; done).
  all: try (by etransitivity; [eassumption|]).
  - intros Hc. apply Forall_app. split; [by apply Hq|by constructor].
  - split; [exact F2|]. exact (f_equal S F9).
  - split; [exact F2|]. exact (f_equal S F9).
Qed.

Lemma announced_sound n a c :
  a < n -> sound n c -> sliding c = false -> items c = rest_items n a -> sound n (announced c).
Proof.
  intros Ha H Hf Ei. destruct (announced_ok n a c H Hf Ei) as [P1 P2 P3 P4 P5 P6 P7 P8].
  apply (sound_rest n _ a); try done. intros Htr. rewrite P4 in Htr. rewrite P5, P3.
  split; [by apply (c_sync n c H)|done].
Qed.

Lemma prepared_sound n a c :
  a < n -> sound n c -> sliding c = false -> items c = rest_items n a -> sound n (prepared c).
Proof.
  intros Ha H Hf Ei. pose proof (prepared_still n a c Ei) as E.
  assert (Hs : sound n (c <| sliding := true |>)).
  { pose proof H as [[a' Hs] Ht Hy]. apply (sound_rest n _ a); try done.
    - destruct Hs as [? ? ? ?|? ? ? ? ? ? ? ? Es ?]; [done|by rewrite Es in Hf].
    - intros Htr. split; [by apply Hy|done]. }
  apply (sound_still n (c <| sliding := true |>)); [done| |done]. by apply (prepared_timer n).
Qed.

(** Where [slide] leads: [a] again when there is nothing to do or a listener objects. *)
Lemma slide_sound k t nxt n a b c :
  sound n c -> sliding c = false -> a < n -> b < n -> items c = rest_items n a ->
  chosen t nxt n a b -> (transitions c = false -> marks_only k) ->
  sound n (slide k t nxt c).
Proof.
  intros H Hf Ha Hb Ei Hc Hk. rewrite (slide_result k t nxt n a b c Ha Hb Ei Hc). cbn zeta.
  case_decide as Eb; [by apply (prepared_sound n a)|]. fold (announced c).
  pose proof (announced_sound n a c Ha H Hf Ei) as Hs.
  destruct (announced_ok n a c H Hf Ei) as [P1 P2 P3 P4 P5 P6 P7 P8].
  destruct (veto c (slides c)); [done|].
  assert (H3 : sound n (if transitions c then launched t n a b (announced c)
                        else k (jumped n b (announced c)))).
  { destruct (transitions c) eqn:Et.
    - split; [|done|].
      + exists a. apply (Moving n _ a b t); try done.
        unfold launched. change (ends (announced c) ++ [EndSlide [a] [b]] = [EndSlide [a] [b]]).
        by rewrite P2.
      + intros Htr. change (transitions (announced c) = false) in Htr. by rewrite P4 in Htr.
    - destruct (c_sync n c H Et) as [Z1 Z2].
      destruct (Hk eq_refl (jumped n b (announced c))) as (ind & q & E & Hq); [by apply P6, Z2|].
      rewrite E. apply (sound_rest n _ b); try done. intros _. split; [|done].
      change (slid_timers (announced c) = 0). by rewrite P5. }
  destruct (present (interval c)); [by apply cycle_sound|done].
Qed.

Lemma rest_position n c : sound n c -> sliding c = false -> exists a, a < n /\ items c = rest_items n a /\ ends c = [].
Proof.
  intros [[a H] _ _] Hf. destruct H as [a Ha Ei Ee|? ? ? ? ? ? ? ? Es ?]; [by exists a|by rewrite Es in Hf].
Qed.

Lemma chosen_bound t n a : a < n ->
  exists b, b < n /\ chosen t None n a b.
Proof.
  intros Ha. destruct t; cbn; eexists; (split; [|done]); case_decide; lia.
Qed.

Lemma step_sound t n c :
  sound n c -> sound n (if sliding c then c else slide (slid depth) t None c).
Proof.
  intros H. destruct (sliding c) eqn:Hf; [done|].
  destruct (rest_position n c H Hf) as (a & Ha & Ei & _). destruct (chosen_bound t n a Ha) as (b & Hb & Hc).
  apply (slide_sound _ _ _ n a b); try done. intros _. apply slid_marks.
Qed.

Lemma shape_items_length n c a : shape n c a -> length (items c) = n /\ a < n /\ actives (items c) = [a].
Proof.
  intros [a' Ha Ei Ee|a' b t Ha Hb Hab Ei Ee Es Et]; rewrite Ei.
  - split; [apply gen_length|]. split; [done|by apply actives_rest].
  - split; [apply gen_length|]. split; [done|by apply actives_move].
Qed.

Lemma to_sound k pos n c :
  sound n c -> (transitions c = false -> marks_only k) -> sound n (to k pos c).
Proof.
  intros H Hk. pose proof H as [[a Hs] Ht Hy].
  destruct (shape_items_length n c a Hs) as (El & Ha & Ea).
  unfold to. rewrite Ea, El. destruct (_ || _) eqn:Eb; [done|].
  apply orb_false_iff in Eb as [E1%bool_decide_eq_false E2%bool_decide_eq_false].
  destruct (sliding c) eqn:Hf.
  - split; [|done|].
    + exists a. destruct Hs as [a Ha' Ei Ee|a b t Ha' Hb Hab Ei Ee Es Et]; [by apply AtRest|].
      by apply (Moving n _ a b t).
    + intros Htr. split; [by apply Hy|]. intros Hf'. change (sliding c = false) in Hf'. congruence.
  - case_decide; [by apply cycle_sound, pause_sound|].
    destruct (rest_position n c H Hf) as (a' & Ha' & Ei & _).
    apply (slide_sound _ _ _ n a' (Z.to_nat pos)); try done. lia.
Qed.

Lemma mark_sound n c : sound n c -> sound n (mark_indicator c).
Proof.
  intros [[a Hs] Ht Hy]. destruct (mark_indicator_eq c) as [ind ->]. split; [|done|done].
  exists a. destruct Hs as [a Ha Ei Ee|a b t Ha Hb Hab Ei Ee Es Et]; [by apply AtRest|].
  by apply (Moving n _ a b t).
Qed.

Lemma slid_call_queue_sound n c (h : nat * slid_handler) :
  sound n c ->
  sound n (c <| slid_queue ::= List.filter (fun g => negb (Nat.eqb (fst g) (fst h))) |>).
Proof.
  intros [[a Hs] Ht Hy]. split; [|done|].
  - exists a. destruct Hs as [a Ha Ei Ee|a b t Ha Hb Hab Ei Ee Es Et]; [by apply AtRest|].
    by apply (Moving n _ a b t).
  - intros Htr. destruct (Hy Htr) as [Z1 Z2]. split; [done|]. intros Hf.
    specialize (Z2 Hf). unfold no_goto in *. rewrite Forall_forall in Z2.
    apply Forall_forall. intros x Hx.
    change (x ∈ List.filter (fun g => negb (Nat.eqb (fst g) (fst h))) (slid_queue c)) in Hx.
    apply list_elem_of_In, filter_In in Hx as [Hx _]. by apply Z2, list_elem_of_In.
Qed.

Lemma slid_call_sound k n c h :
  sound n c -> marks_only k -> sound n (slid_call (to k) c h).
Proof.
  intros H Hk. pose proof (slid_call_queue_sound n c h H) as H1. unfold slid_call. cbn zeta.
  destruct (snd h); [by apply mark_sound|]. by apply to_sound.
Qed.

Lemma slid_sound fuel n c : sound n c -> sound n (slid (S (S fuel)) c).
Proof.
  intros H. change (sound n (foldl (slid_call (to (slid (S fuel)))) c (slid_queue c))).
  generalize (slid_queue c). intros l. revert c H. induction l as [|h l IH]; intros c H; [done|].
  apply IH, slid_call_sound; [done|apply slid_marks].
Qed.

Lemma handle_carousel_sound n e c : sound n c -> sound n (handle e c).
Proof.
  intros H. destruct e; cbn [handle].
  - by apply cycle_sound.
  - by apply pause_sound.
  - by apply step_sound.
  - by apply step_sound.
  - apply to_sound; [done|]. intros _. apply slid_marks.
  - destruct (hover c); [by apply pause_sound|done].
  - destruct (hover c); [by apply cycle_sound|done].
  - destruct (timers c !! n0); [by apply step_sound|done].
  - by apply transition_end_sound.
  - destruct (slid_timers c) as [|k] eqn:Ek; [done|]. apply slid_sound.
    pose proof H as [[a Hs] Ht Hy]. split; [|done|].
    + exists a. destruct Hs as [a Ha Ei Ee|a b t Ha Hb Hab Ei Ee Es Et]; [by apply AtRest|].
      by apply (Moving n _ a b t).
    + intros Htr. destruct (Hy Htr) as [Z _]. by rewrite Ek in Z.
Qed.

Lemma handle_all_carousel_sound n es c : sound n c -> sound n (handle_all es c).
Proof.
  revert c. induction es as [|e es IH]; intros c H; [done|]. by apply IH, handle_carousel_sound.
Qed.

Lemma sound_new_carousel n a t o h v ind :
  a < n -> sound n (Carousel_new t o h v (rest_items n a) ind).
Proof.
  intros Ha. apply (sound_rest n _ a); try done; [by left|].
  intros _. split; [done|]. intros _. constructor.
Qed.

(** Whatever the user, the timers and the browser do, exactly one item of the carousel
    is active, classes of a slide are only on the items of the slide under way and are
    gone when nothing is awaited, and at most one interval runs. *)
Theorem carousel_one_active n a t o h v ind es :
  a < n ->
  let c := handle_all es (Carousel_new t o h v (rest_items n a) ind) in
  (exists i, actives (items c) = [i] /\ i < n) /\
  (ends c = [] -> exists i, items c = rest_items n i) /\
  length (timers c) <= 1.
Proof.
  intros Ha c. assert (H : sound n c) by (by apply handle_all_carousel_sound, sound_new_carousel).
  destruct H as [[i Hs] Ht _]. destruct (shape_items_length n c i Hs) as (_ & Hi & Ea).
  split; [by exists i|]. split.
  - intros Ee. destruct Hs as [i Hi' Ei _|? ? ? ? ? ? ? Ee' ? ?]; [by exists i|]. by rewrite Ee in Ee'.
  - destruct Ht as [->|(u & _ & ->)]; cbn; lia.
Qed.

(** * A slide that does not take place *)

Definition frozen (c : carousel) : Prop := sliding c = true /\ ends c = [].

Lemma frozen_step t n a c :
  sound n c -> sliding c = false -> items c = rest_items n a -> a < n ->
  n = 1 \/ veto c (slides c) = true ->
  let c' := slide (slid depth) t None c in frozen c' /\ items c' = items c.
Proof.
  intros H Hf Ei Ha Hv. cbn zeta.
  destruct (chosen_bound t n a Ha) as (b & Hb & Hc).
  rewrite (slide_result _ t None n a b c Ha Hb Ei Hc). cbn zeta. fold (announced c).
  destruct (announced_ok n a c H Hf Ei) as [P1 P2 P3 P4 P5 P6 P7 P8].
  case_decide as Eb.
  - pose proof (prepared_still n a c Ei) as E. unfold still in E.
    injection E as F1 F2 F3 F4 F5 F6 F7 F8 F9 F10 F11.
    destruct (rest_position n c H Hf) as (_ & _ & _ & Ee).
    split; [split; [exact F6|by rewrite F4]|exact F3].
  - destruct Hv as [->|Hv]; [lia|]. rewrite Hv. split; [done|by rewrite P1, Ei].
Qed.

Lemma frozen_still c c' : still c' = still c -> frozen c -> frozen c' /\ items c' = items c.
Proof.
  unfold still. intros E [F1 F2]. injection E as E1 E2 E3 E4 E5 E6 E7 E8 E9 E10 E11.
  split; [split; congruence|done].
Qed.

Lemma to_frozen k pos c :
  frozen c -> frozen (to k pos c) /\ items (to k pos c) = items c.
Proof.
  intros [F1 F2]. unfold to. destruct (actives (items c)); [done|].
  destruct (_ || _); [done|]. rewrite F1. done.
Qed.

Lemma slid_frozen fuel c : frozen c -> frozen (slid fuel c) /\ items (slid fuel c) = items c.
Proof.
  destruct fuel as [|fuel]; [done|]. cbn [slid]. generalize (slid_queue c). intros l. revert c.
  induction l as [|h l IH]; intros c H; [done|]. cbn [foldl].
  assert (H1 : frozen (slid_call (to (slid fuel)) c h) /\
               items (slid_call (to (slid fuel)) c h) = items c).
  { unfold slid_call. cbn zeta. set (c1 := c <| slid_queue ::= _ |>).
    change (items c) with (items c1). assert (frozen c1) as H1 by exact H. clearbody c1.
    destruct (snd h); [|by apply to_frozen].
    by destruct (mark_indicator_eq c1) as [ind ->]. }
  destruct H1 as [H1 E1]. destruct (IH _ H1) as [H2 E2]. split; [done|]. by rewrite E2.
Qed.

Lemma handle_frozen n a e c :
  items c = rest_items n a -> frozen c -> frozen (handle e c) /\ items (handle e c) = items c.
Proof.
  intros Ei H. pose proof H as [F1 F2]. destruct e; cbn [handle].
  - apply frozen_still; [apply cycle_still|done].
  - apply frozen_still; [by apply (pause_rest n a)|done].
  - unfold next. by rewrite F1.
  - unfold prev. by rewrite F1.
  - by apply to_frozen.
  - destruct (hover c); [|done]. apply frozen_still; [by apply (pause_rest n a)|done].
  - destruct (hover c); [|done]. apply frozen_still; [apply cycle_still|done].
  - destruct (timers c !! n0); [|done]. unfold next. by rewrite F1.
  - by rewrite (transition_end_rest n c a).
  - destruct (slid_timers c) as [|k]; [done|].
    destruct (slid_frozen depth (c <| slid_timers := k |>)) as [G1 G2]; [exact H|].
    split; [exact G1|]. by rewrite G2.
Qed.

(** A slide that does not take place, because a listener prevents it or because the
    carousel has one item, freezes the carousel: it counts as sliding from then on, and
    whatever is done later its items stay as they are. *)
Theorem missed_slide_freezes n c es :
  sound n c -> sliding c = false -> n = 1 \/ veto c (slides c) = true ->
  items (handle_all (DoNext :: es) c) = items c /\ sliding (handle_all (DoNext :: es) c) = true.
Proof.
  intros H Hf Hv. destruct (rest_position n c H Hf) as (a & Ha & Ei & _).
  change (handle_all (DoNext :: es) c) with (handle_all es (next c)).
  unfold next. rewrite Hf. destruct (frozen_step Next n a c H Hf Ei Ha Hv) as [F E].
  cbn zeta in F, E. revert F E. generalize (slide (slid depth) Next None c). intros c' F E.
  rewrite Ei in E. rewrite Ei. clear H Hf Hv Ei c. revert c' F E.
  induction es as [|e es IH]; intros c F E; [split; [done|apply F]|].
  destruct (handle_frozen n a e c E F) as [F' E'].
  change (handle_all (e :: es) c) with (handle_all es (handle e c)). apply IH; [done|congruence].
Qed.

(** * Slides that take place *)

(** A slide and its end. *)
Lemma slide_ends t nxt n a b c :
  sound n c -> sliding c = false -> a < n -> b < n -> b <> a -> items c = rest_items n a ->
  chosen t nxt n a b -> veto c (slides c) = false ->
  let c' := transition_end (slide (slid depth) t nxt c) in
  items c' = rest_items n b /\ sliding c' = false /\ veto c' = veto c.
Proof.
  intros H Hf Ha Hb Hab Ei Hc Hv. cbn zeta.
  rewrite (slide_result _ t nxt n a b c Ha Hb Ei Hc). cbn zeta. fold (announced c).
  rewrite decide_False, Hv by done.
  destruct (announced_ok n a c H Hf Ei) as [P1 P2 P3 P4 P5 P6 P7 [P8 _]].
  set (c3 := if transitions c then _ else _).
  assert (S3 : still (if present (interval c) then cycle false c3 else c3) = still c3)
    by (destruct (present _); [apply cycle_still|done]).
  revert S3. generalize (if present (interval c) then cycle false c3 else c3). intros c4 S4.
  assert (H3 : veto c3 = veto c /\
    ((items c3 = move_items n a b t /\ ends c3 = [EndSlide [a] [b]]) \/
     (items c3 = rest_items n b /\ ends c3 = [] /\ sliding c3 = false))).
  { unfold c3. destruct (transitions c) eqn:Et.
    - split; [done|]. left. split; [done|]. unfold launched.
      change (ends (announced c) ++ [EndSlide [a] [b]] = [EndSlide [a] [b]]). by rewrite P2.
    - destruct (slid_marks 1 (jumped n b (announced c))) as (ind & q & E & _).
      { apply P6. by apply (c_sync n c H Et). }
      unfold depth. rewrite E. split; [done|]. by right. }
  unfold still in S4. injection S4 as E1 E2 E3 E4 E5 E6 E7 E8 E9 E10 E11.
  destruct H3 as [Hw [[H3 H4]|(H3 & H4 & H5)]].
  - rewrite (transition_end_moving n c4 a b t) by congruence. split; [done|]. split; [done|].
    change (veto c4 = veto c). congruence.
  - rewrite (transition_end_rest n c4 b) by congruence.
    split; [congruence|]. split; congruence.
Qed.

(** Moves of a user who waits for each slide to end. *)
Inductive turn := TNext | TPrev | TTo (pos : nat).

Definition turn_events (m : turn) : list event :=
  [match m with TNext => DoNext | TPrev => DoPrev | TTo pos => To (Z.of_nat pos) end; TransitionEnd].

Definition turned (n a : nat) (m : turn) : nat :=
  match m with
  | TNext => if decide (S a < n) then S a else 0
  | TPrev => if decide (a = 0) then n - 1 else a - 1
  | TTo pos => if decide (pos < n) then pos else a
  end.

Lemma turned_bound n a m : a < n -> turned n a m < n.
Proof. intros H. unfold turned. destruct m; case_decide; lia. Qed.

Definition settled (n a : nat) (c : carousel) : Prop :=
  sound n c /\ sliding c = false /\ items c = rest_items n a /\ (forall i, veto c i = false).

Lemma transition_end_settled n a c : settled n a c -> transition_end c = c.
Proof.
  intros (H & Hf & Ei & _). destruct (rest_position n c H Hf) as (a' & _ & _ & Ee).
  by apply (transition_end_rest n c a).
Qed.

Lemma to_result k n a pos c :
  a < n -> items c = rest_items n a -> sliding c = false ->
  to k (Z.of_nat pos) c
  = if decide (pos < n)
    then if decide (a = pos) then cycle false (pause false c)
         else slide k (if bool_decide (Z.of_nat pos > Z.of_nat a)%Z then Next else Prev) (Some pos) c
    else c.
Proof.
  intros Ha Ei Hf. unfold to. rewrite Ei, actives_rest by done.
  replace (length (rest_items n a)) with n by by (symmetry; apply gen_length).
  destruct (decide (pos < n)) as [Hp|Hp].
  - rewrite bool_decide_false by lia. rewrite bool_decide_false by lia. cbn [orb].
    rewrite Hf, Nat2Z.id. destruct (decide (a = pos)) as [->|Hne].
    + by rewrite decide_True.
    + by rewrite decide_False by lia.
  - by rewrite bool_decide_true by lia.
Qed.

Lemma slide_settled n a b t nxt c :
  settled n a c -> a < n -> b < n -> b <> a -> chosen t nxt n a b ->
  settled n b (transition_end (slide (slid depth) t nxt c)).
Proof.
  intros (H & Hf & Ei & Hv) Ha Hb Hab Hc.
  destruct (slide_ends t nxt n a b c H Hf Ha Hb Hab Ei Hc (Hv _)) as (E1 & E2 & E3).
  split; [|split; [done|split; [done|]]].
  - apply transition_end_sound, (slide_sound _ _ _ n a b); try done. intros _. apply slid_marks.
  - intros i. by rewrite E3.
Qed.

Lemma one_turn n a m c :
  2 <= n -> a < n -> settled n a c -> settled n (turned n a m) (handle_all (turn_events m) c).
Proof.
  intros Hn Ha H. pose proof H as (Hs & Hf & Ei & Hv).
  pose proof (turned_bound n a m Ha) as Hb. destruct m as [| |pos].
  - change (settled n (turned n a TNext) (transition_end (next c))). unfold next. rewrite Hf.
    apply (slide_settled n a); try done. cbn. case_decide; lia.
  - change (settled n (turned n a TPrev) (transition_end (prev c))). unfold prev. rewrite Hf.
    apply (slide_settled n a); try done. cbn. case_decide; lia.
  - change (settled n (turned n a (TTo pos)) (transition_end (to (slid depth) (Z.of_nat pos) c))).
    rewrite (to_result _ n a) by done. cbn [turned] in *.
    destruct (decide (pos < n)) as [Hp|Hp]; [|by rewrite (transition_end_settled n a)].
    destruct (decide (a = pos)) as [<-|Hne]; [|by apply (slide_settled n a)].
    assert (Hc : settled n a (cycle false (pause false c))).
    { split; [by apply cycle_sound, pause_sound|].
      assert (E : still (cycle false (pause false c)) = still c)
        by (rewrite cycle_still; by apply (pause_rest n a)).
      unfold still in E. injection E as E1 E2 E3 E4 E5 E6 E7 E8 E9 E10 E11.
      split; [congruence|]. split; [congruence|]. intros i. by rewrite E2. }
    by rewrite (transition_end_settled n a).
Qed.

(** For a user who waits for each slide to end, and listeners that prevent none, a
    carousel of two or more items goes round: next and prev lead to the neighbour, from
    either end to the other, and going to a position leads there, or nowhere when there
    is none; with and without transitions. *)
Theorem patient_turns n a c ms :
  2 <= n -> a < n -> settled n a c ->
  let c' := handle_all (concat (map turn_events ms)) c in
  items c' = rest_items n (foldl (turned n) a ms) /\ sliding c' = false.
Proof.
  intros Hn Ha H. cbn zeta.
  assert (G : settled n (foldl (turned n) a ms) (handle_all (concat (map turn_events ms)) c)).
  { revert a c Ha H. induction ms as [|m ms IH]; intros a c Ha H; [done|].
    cbn [map concat foldl]. unfold handle_all. rewrite foldl_app.
    apply IH; [by apply turned_bound|]. by apply one_turn. }
  destruct G as (_ & Hf & Ei & _). by split.
Qed.

(** * One nested event is enough *)

Lemma marks_same k k' l c :
  Forall (fun h => snd h = MarkIndicator) l ->
  foldl (slid_call k) c l = foldl (slid_call k') c l.
Proof.
  intros H. revert c. induction H as [|h l Hh _ IH]; intros c; [done|]. cbn [foldl].
  replace (slid_call k c h) with (slid_call k' c h); [apply IH|]. unfold slid_call. by rewrite Hh.
Qed.

Lemma to_depth f pos n c : sound n c -> to (slid (S f)) pos c = to (slid 1) pos c.
Proof.
  intros H. pose proof H as [[a Hs] _ _]. destruct (shape_items_length n c a Hs) as (El & Ha & Ea).
  unfold to. rewrite Ea, El. destruct (_ || _) eqn:Eb; [done|].
  apply orb_false_iff in Eb as [E1%bool_decide_eq_false E2%bool_decide_eq_false].
  destruct (sliding c) eqn:Hf; [done|]. case_decide; [done|].
  destruct (rest_position n c H Hf) as (a' & Ha' & Ei & _).
  rewrite !(slide_result _ _ (Some (Z.to_nat pos)) n a' (Z.to_nat pos) c) by (done || lia). cbn zeta.
  case_decide; [done|]. fold (announced c). destruct (veto c (slides c)); [done|].
  destruct (transitions c) eqn:Et; [done|].
  destruct (announced_ok n a' c H Hf Ei) as [P1 P2 P3 P4 P5 P6 P7 P8].
  assert (Hq : no_goto (jumped n (Z.to_nat pos) (announced c)))
    by (apply P6; by apply (c_sync n c H Et)).
  cbn [slid]. by rewrite (marks_same (to (slid f)) (to (slid 0)) _ _ Hq).
Qed.

(** The depth of the 'slid' event does not matter from two on. *)
Lemma slid_depth f n c : sound n c -> slid (S (S f)) c = slid depth c.
Proof.
  intros H.
  change (foldl (slid_call (to (slid (S f)))) c (slid_queue c)
          = foldl (slid_call (to (slid 1))) c (slid_queue c)).
  generalize (slid_queue c). intros l. revert c H. induction l as [|h l IH]; intros c H; [done|].
  cbn [foldl]. assert (E : slid_call (to (slid (S f))) c h = slid_call (to (slid 1)) c h).
  { pose proof (slid_call_queue_sound n c h H) as H1. unfold slid_call. cbn zeta.
    destruct (snd h); [done|]. by apply (to_depth f pos n). }
  rewrite E. apply IH. apply slid_call_sound; [done|apply slid_marks].
Qed.

(** * Witnesses: three pictures *)

Definition pictures (v : nat -> bool) : carousel :=
  Carousel_new true true true v (rest_items 3 0) (Some [true; false; false]).

Lemma carousel_one_active_witness :
  let c := handle_all [Pause; Cycle; Tick 0; MouseEnter; SlidTimeout; To 1; TransitionEnd]
             (pictures (fun _ => false)) in
  length (timers c) <= 1.
Proof.
  apply (carousel_one_active 3 0 true true true (fun _ => false) (Some [true; false; false])
           [Pause; Cycle; Tick 0; MouseEnter; SlidTimeout; To 1; TransitionEnd]).
  lia.
Defined.

Lemma pictures_sound v : sound 3 (pictures v).
Proof. apply sound_new_carousel. lia. Qed.

Lemma missed_slide_freezes_witness :
  items (handle_all [DoNext; SlidTimeout; DoNext; TransitionEnd; To 2] (pictures (Nat.eqb 0)))
  = rest_items 3 0.
Proof.
  apply (missed_slide_freezes 3 (pictures (Nat.eqb 0)) [SlidTimeout; DoNext; TransitionEnd; To 2]
    (pictures_sound _) eq_refl).
  right. reflexivity.
Defined.

Lemma patient_turns_witness :
  items (handle_all (concat (map turn_events [TNext; TTo 2; TNext; TPrev]))
           (pictures (fun _ => false))) = rest_items 3 2.
Proof.
  apply (patient_turns 3 0 (pictures (fun _ => false)) [TNext; TTo 2; TNext; TPrev]);
    [lia|lia|].
  split; [apply pictures_sound|]. split; [reflexivity|]. split; reflexivity.
Defined.
