(* ===== verification/Placement.v ===== *)
(** Placement: where Bootstrap's tooltips and popovers put themselves (fuelux/dist/all.js,
    bootstrap-tooltip.js: the switch of [show], [applyPlacement], [replaceArrow]).

    Lengths are rational numbers of pixels; what the browser measures (the element, the
    tip before it has its classes, with them, and moved) is an argument. *)

From S2P Require Import Prelude.
From Stdlib Require Import QArith Lqa.
Local Open Scope Q_scope.

(** The [placement] option; any other text is not one of the switch's cases. *)
Inductive placement := Bottom | Top | Left | Right | OtherPlace (s : jstr).

#[export] Instance placement_eq_dec : EqDecision placement.
Proof. solve_decision. Defined.

(** What [getPosition] returns. *)
Record rect := Rect { r_top : Q; r_left : Q; r_width : Q; r_height : Q }.

Record size := Size { width : Q; height : Q }.

Record offset := Offset { top : Q; left : Q }.

(** [offsetWidth] and [offsetHeight] of the tip: when it has just been put into the page,
    after its first offset and classes, and after it has been moved back into the page. *)
Record layout := Layout { target : rect; before : size; after : size; corrected : size }.

(** A layout in which nothing has a size. *)
Definition nowhere : layout := Layout (Rect 0 0 0 0) (Size 0 0) (Size 0 0) (Size 0 0).

(** The switch of [show]: [tp] stays undefined for another placement. *)
Definition position (p : placement) (pos : rect) (actual : size) : option offset :=
  match p with
  | Bottom => Some (Offset (r_top pos + r_height pos)
                           (r_left pos + r_width pos / 2 - width actual / 2))
  | Top => Some (Offset (r_top pos - height actual)
                        (r_left pos + r_width pos / 2 - width actual / 2))
  | Left => Some (Offset (r_top pos + r_height pos / 2 - height actual / 2)
                         (r_left pos - width actual))
  | Right => Some (Offset (r_top pos + r_height pos / 2 - height actual / 2)
                          (r_left pos + r_width pos))
  | OtherPlace _ => None
  end.

Inductive side := FromLeft | FromTop.

(** The percentage set on the arrow; [None] leaves it to the style sheet, the middle. *)
Definition replaceArrow (delta dimension : Q) : option Q :=
  if Qeq_bool delta 0 then None else Some (50 * (1 - delta / dimension)).

(** Where the tip ends, the size it has there, and its arrow. *)
Record outcome := Outcome {
  placed : option offset;          (* None: at the origin, where show has put it *)
  final : size;
  arrow : side * option Q
}.

Definition is_top (p : placement) : bool := match p with Top => true | _ => false end.

Definition is_vertical (p : placement) : bool :=
  match p with Top | Bottom => true | _ => false end.

Definition Qlt_bool (x y : Q) : bool := negb (Qle_bool y x).

(** [applyPlacement]. *)
Definition applyPlacement (offset : option offset) (p : placement) (l : layout) : outcome :=
  match offset with
  | Some o =>
      let replace := is_top p && negb (Qeq_bool (height (after l)) (height (before l))) in
      let moved := if replace
                   then Offset (top o + height (before l) - height (after l)) (left o) else o in
      if is_vertical p then
        if Qlt_bool (left moved) 0 then
          Outcome (Some (Offset (top moved) 0)) (corrected l)
            (FromLeft, replaceArrow (left moved * -2 - width (before l) + width (corrected l))
                         (width (corrected l)))
        else
          Outcome (Some moved) (after l)
            (FromLeft, replaceArrow (0 - width (before l) + width (after l)) (width (after l)))
      else Outcome (Some o) (after l)
             (FromTop, replaceArrow (height (after l) - height (before l)) (height (after l)))
  | None =>
      Outcome None (after l)
        (FromTop, replaceArrow (height (after l) - height (before l)) (height (after l)))
  end.

(** The switch and [applyPlacement], as [show] calls them. *)
Definition place (p : placement) (l : layout) : outcome :=
  applyPlacement (position p (target l) (before l)) p l.

(** Where the arrow's tip is along its side. *)
Definition arrow_at (dimension : Q) (a : option Q) : Q :=
  match a with Some percent => dimension * percent / 100 | None => dimension / 2 end.

(** * The arrow *)

Lemma arrow_at_replaced (delta dimension : Q) :
  ~ dimension == 0 -> arrow_at dimension (replaceArrow delta dimension) == (dimension - delta) / 2.
Proof.
  intros H. unfold replaceArrow. destruct (Qeq_bool delta 0) eqn:E.
  - apply Qeq_bool_eq in E. cbn. rewrite E. field.
  - cbn. field. exact H.
Qed.

Lemma Qlt_bool_false x y : Qlt_bool x y = false -> y <= x.
Proof. unfold Qlt_bool. intros H. apply negb_false_iff in H. by apply Qle_bool_iff. Qed.

Lemma Qlt_bool_true x y : Qlt_bool x y = true -> x < y.
Proof.
  unfold Qlt_bool. intros H. apply negb_true_iff in H. apply Qnot_le_lt. intros Hle.
  apply Qle_bool_iff in Hle. congruence.
Qed.

(** A vertical placement keeps the arrow at the middle of the place first asked for, and
    the tip there too, unless that is left of the page. *)
Lemma vertical_arrow o p l r :
  is_vertical p = true -> ~ width (after l) == 0 -> ~ width (corrected l) == 0 ->
  applyPlacement (Some o) p l = r ->
  exists o', placed r = Some o' /\ fst (arrow r) = FromLeft /\
    left o' + arrow_at (width (final r)) (snd (arrow r)) == left o + width (before l) / 2 /\
    (0 <= left o -> left o' = left o /\ final r = after l) /\
    (left o < 0 -> left o' = 0 /\ final r = corrected l).
Proof.
  intros Hv Ha Hc <-. unfold applyPlacement. rewrite Hv. cbn zeta.
  set (moved := if is_top p && _ then _ else o). assert (E : left moved = left o) by (unfold moved; by destruct (_ && _)).
  destruct (Qlt_bool (left moved) 0) eqn:Hl; cbn; rewrite ?E; rewrite E in Hl.
  - apply Qlt_bool_true in Hl. eexists. do 2 (split; [done|]).
    split; [rewrite arrow_at_replaced by done; cbn; field|].
    split; [|done]. intros H. by apply Qle_not_lt in H.
  - apply Qlt_bool_false in Hl. eexists. do 2 (split; [done|]).
    split; [rewrite arrow_at_replaced by done; rewrite ?E; field|].
    split; [done|]. intros H. by apply Qlt_not_le in H.
Qed.

(** C33. For the four placements, with a size that is not zero: above or below its element a
    tip is centred over it by the width it had before its classes, but not left of the page;
    beside it it is centred by that height.  The arrow points at the element's middle,
    whatever the browser makes of the tip's size.  Below, the tip starts at the element's
    lower edge and on the right at its right edge; above it ends at the upper edge, by the
    height it had before it was moved into the page, and on the left at the left edge, by
    the width it had before its classes: a later change of size is a gap or an overlap.
    A tip on the left may lie outside the page. *)
Theorem arrow_points_at_target p l r :
  ~ width (after l) == 0 -> ~ width (corrected l) == 0 -> ~ height (after l) == 0 ->
  (forall s, p ≠ OtherPlace s) -> place p l = r ->
  let t := target l in
  exists o, placed r = Some o /\
    match p with
    | Top | Bottom =>
        let m := r_left t + r_width t / 2 - width (before l) / 2 in
        fst (arrow r) = FromLeft /\
        left o + arrow_at (width (final r)) (snd (arrow r)) == r_left t + r_width t / 2 /\
        (0 <= m -> left o == m /\ final r = after l) /\
        (m < 0 -> left o == 0 /\ final r = corrected l) /\
        match p with
        | Top => top o + height (final r) == r_top t + (height (final r) - height (after l))
        | _ => top o == r_top t + r_height t
        end
    | _ =>
        fst (arrow r) = FromTop /\ final r = after l /\
        top o + arrow_at (height (final r)) (snd (arrow r)) == r_top t + r_height t / 2 /\
        top o == r_top t + r_height t / 2 - height (before l) / 2 /\
        match p with
        | Left => left o + width (final r) == r_left t + (width (final r) - width (before l))
        | _ => left o == r_left t + r_width t
        end
    end.
Proof.
  intros Ha Hc Hh Hp Hr. cbn zeta. destruct p as [| | | |s]; [| | | |by destruct (Hp s)].
  - destruct (vertical_arrow _ Bottom l r eq_refl Ha Hc Hr) as (o & Ho & Hf & E & H1 & H2).
    exists o. do 2 (split; [done|]). split; [rewrite E; cbn; field|].
    split; [intros H; destruct (H1 H) as [-> ->]; by split|].
    split; [intros H; destruct (H2 H) as [-> ->]; by split|].
    revert Ho. rewrite <- Hr. cbn. destruct (Qlt_bool _ _); cbn; intros [= <-]; by cbn.
  - destruct (vertical_arrow _ Top l r eq_refl Ha Hc Hr) as (o & Ho & Hf & E & H1 & H2).
    exists o. do 2 (split; [done|]). split; [rewrite E; cbn; field|].
    split; [intros H; destruct (H1 H) as [-> ->]; by split|].
    split; [intros H; destruct (H2 H) as [-> ->]; by split|].
    enough (top o == r_top (target l) - height (after l)) as -> by ring.
    revert Ho. rewrite <- Hr. cbn.
    destruct (Qeq_bool (height (after l)) (height (before l))) eqn:Eh; cbn;
      (destruct (Qlt_bool _ _); cbn; intros [= <-]; cbn; [|]).
    3,4: ring.
    all: apply Qeq_bool_eq in Eh; rewrite Eh; ring.
  - subst r. eexists. do 3 (split; [done|]). cbn. split; [|split; ring].
    rewrite arrow_at_replaced by done. field.
  - subst r. eexists. do 3 (split; [done|]). cbn. split; [|split; ring].
    rewrite arrow_at_replaced by done. field.
Qed.

(** An element at the left edge: the tip above it is pushed into the page, shrinks, and
    its arrow leaves the middle. *)
Definition edge : layout :=
  Layout (Rect 200 4 20 10) (Size 100 30) (Size 96 36) (Size 90 36).

Lemma arrow_points_at_target_witness :
  exists o, placed (place Top edge) = Some o /\ left o == 0 /\ top o + 36 == 200 /\
    left o + arrow_at 90 (snd (arrow (place Top edge))) == 14.
Proof.
  destruct (arrow_points_at_target Top edge _ ltac:(easy) ltac:(easy) ltac:(easy)
              ltac:(discriminate) eq_refl) as (o & H1 & _ & H2 & _ & H3 & H4).
  exists o. split; [exact H1|]. split; [apply H3; reflexivity|].
  split; [etransitivity; [exact H4|reflexivity]|]. etransitivity; [exact H2|reflexivity].
Defined.
