(* ===== verification/Tooltip.v ===== *)
(** Tooltip: Bootstrap's tooltips and popovers as the Fuel UX bundle carries them
    (fuelux/dist/all.js, bootstrap-tooltip.js and bootstrap-popover.js).

    A page has elements, each with its attributes and, once the plugin has been called on
    it, the number of its object; the objects, the timers and the handlers waiting for a
    transition's end are part of the state.  A container may carry the handlers for the
    elements inside it that match its selector.  Every event brings the browser's answers:
    whether a listener prevents 'show' or 'hide', and the measures of the layout.  A page
    holds plugins of one kind only; the template option and the event's listeners are
    left out. *)

From S2P Require Import Prelude.
From S2P Require Import Placement.
From coqutil Require Import Datatypes.RecordSettersUsingExistingGetters.

Inductive kind := Tooltip | Popover.

(** The [title] and [content] options: a text, or a function of the element. *)
Inductive source := Text (s : jstr) | Calls (f : nat -> jstr).

(** The [placement] option. *)
Inductive placing := Fixed (p : placement) | Chooses (f : nat -> placement).

(** The [delay] option. *)
Inductive delay := Millis (n : nat) | Delays (show hide : nat).

Record options := Options {
  animation : bool;
  placement_ : placing;
  selector : jstr;                 (* [] for false *)
  trigger : jstr;
  title : source;
  delay_ : delay;
  html : bool;
  container : option jstr;         (* None for false *)
  content : source
}.

(** An object with some of the options: the argument of the plugin, the data attributes. *)
Record partial := Partial {
  p_animation : option bool;
  p_placement : option placing;
  p_selector : option jstr;
  p_trigger : option jstr;
  p_title : option source;
  p_delay : option delay;
  p_html : option bool;
  p_container : option (option jstr);
  p_content : option source
}.

Definition nothing : partial := Partial None None None None None None None None None.

(** [$.fn.tooltip.defaults] and [$.fn.popover.defaults]; a tooltip has no [content]. *)
Definition defaults (k : kind) : options :=
  match k with
  | Tooltip => Options true (Fixed Top) [] (js "hover focus") (Text []) (Millis 0) false None (Text [])
  | Popover => Options true (Fixed Right) [] (js "click") (Text []) (Millis 0) false None (Text [])
  end.

(** [$.extend]: what the second object has wins. *)
Definition extend (o : options) (p : partial) : options :=
  Options (default (animation o) (p_animation p)) (default (placement_ o) (p_placement p))
    (default (selector o) (p_selector p)) (default (trigger o) (p_trigger p))
    (default (title o) (p_title p)) (default (delay_ o) (p_delay p))
    (default (html o) (p_html p)) (default (container o) (p_container p))
    (default (content o) (p_content p)).

(** All the options as an object. *)
Definition whole (o : options) : partial :=
  Partial (Some (animation o)) (Some (placement_ o)) (Some (selector o)) (Some (trigger o))
    (Some (title o)) (Some (delay_ o)) (Some (html o)) (Some (container o)) (Some (content o)).

(** [defaults[key] != value]: an object or a function is never the default. *)
Definition same_source (a b : source) : bool :=
  match a, b with Text s, Text t => bool_decide (s = t) | _, _ => false end.

Definition same_placing (a b : placing) : bool :=
  match a, b with Fixed p, Fixed q => bool_decide (p = q) | _, _ => false end.

Definition same_delay (a b : delay) : bool :=
  match a, b with Millis n, Millis m => Nat.eqb n m | _, _ => false end.

Definition unless {A} (same : bool) (x : A) : option A := if same then None else Some x.

(** The loop of [enter]: the options that are not the defaults. *)
Definition but_defaults (d o : options) : partial :=
  Partial (unless (Bool.eqb (animation d) (animation o)) (animation o))
    (unless (same_placing (placement_ d) (placement_ o)) (placement_ o))
    (unless (bool_decide (selector d = selector o)) (selector o))
    (unless (bool_decide (trigger d = trigger o)) (trigger o))
    (unless (same_source (title d) (title o)) (title o))
    (unless (same_delay (delay_ d) (delay_ o)) (delay_ o))
    (unless (Bool.eqb (html d) (html o)) (html o))
    (unless (bool_decide (container d = container o)) (container o))
    (unless (same_source (content d) (content o)) (content o)).

(** [getOptions]. *)
Definition getOptions (k : kind) (data given : partial) : options :=
  let o := extend (extend (defaults k) data) given in
  match delay_ o with
  | Millis (S n) => o <| delay_ := Delays (S n) (S n) |>
  | _ => o
  end.

Definition delay_show (o : options) : nat :=
  match delay_ o with Millis n => n | Delays s _ => s end.

Definition delay_hide (o : options) : nat :=
  match delay_ o with Millis n => n | Delays _ h => h end.

Inductive dom_event := OnClick | MouseEnter | MouseLeave | OnFocus | OnBlur.

#[export] Instance dom_event_eq_dec : EqDecision dom_event.
Proof. solve_decision. Defined.

Inductive method := MToggle | MEnter | MLeave.

(** A handler bound by [init]: for the elements inside that match, or the element itself;
    [self] is the object the method runs on. *)
Record handler := Handler { h_event : dom_event; h_inside : bool; h_self : nat; h_method : method }.

Record element := Element {
  title_attr : option jstr;
  original : option jstr;          (* data-original-title *)
  data_content : option jstr;
  attributes : partial;            (* the options among the data attributes *)
  inside : list nat;               (* the containers whose selector it matches *)
  handlers : list handler;
  data : option nat                (* its object *)
}.

Inductive spot := AfterElement | AppendedTo (s : jstr).

(** The element made from the template; whether a text is set as markup. *)
Record bubble := Bubble {
  at_ : option spot;               (* where in the page *)
  in_ : bool;
  fade : bool;
  sides : list placement;          (* the placement classes *)
  heading : bool * jstr;
  body : bool * jstr;
  outcome_ : option outcome;
  ends : list nat                  (* the removals waiting for a transition's end *)
}.

(** The template before any text is set. *)
Definition template : bubble := Bubble None false false [] (false, []) (false, []) None [].

Record tip := Tip {
  el : nat;
  opts : options;
  _options : option options;
  enabled : bool;
  live : bool;                     (* $element and options are not null *)
  timeout : option nat;
  hoverState : option bool;        (* 'in' *)
  made : option bubble             (* this.$tip *)
}.

(** The functions given to [setTimeout]; the numbers are objects. *)
Inductive task := HoverShow (o : nat) | HoverHide (o : nat) | Remove (o : nat).

Inductive notice := NShow | NShown | NHide | NHidden | NTypeError.

Record page := Page {
  the_kind : kind;
  transitions : bool;              (* $.support.transition *)
  elements : list element;
  objects : list tip;
  timers : list (nat * task);
  fresh : nat;
  notices : list (nat * notice)    (* by object, the latest last *)
}.

(** What the browser and the listeners answer during an event. *)
Record answers := Answers { no_show : bool; no_hide : bool; measured : layout }.

Definition on_object (o : nat) (f : tip -> tip) (w : page) : page := w <| objects ::= alter f o |>.

Definition on_element (i : nat) (f : element -> element) (w : page) : page :=
  w <| elements ::= alter f i |>.

Definition on_bubble (o : nat) (f : bubble -> bubble) (w : page) : page :=
  on_object o (fun t => t <| made ::= option_map f |>) w.

Definition notify (o : nat) (n : notice) (w : page) : page :=
  w <| notices ::= fun l => l ++ [(o, n)] |>.

Definition setTimeout (t : task) (w : page) : page :=
  w <| timers ::= fun l => l ++ [(fresh w, t)] |> <| fresh ::= S |>.

Definition clearTimeout (id : nat) (w : page) : page :=
  w <| timers ::= List.filter (fun x => negb (Nat.eqb (fst x) id)) |>.

Definition clear_hover (self : nat) (w : page) : page :=
  match objects w !! self with
  | Some t => match timeout t with Some id => clearTimeout id w | None => w end
  | None => w
  end.

(** * The object's methods *)

(** [init]: the handlers of one trigger, and of them all, from the last to the first. *)
Definition trigger_handlers (inside : bool) (self : nat) (t : jstr) : list handler :=
  if bool_decide (t = js "click") then [Handler OnClick inside self MToggle]
  else if bool_decide (t = js "manual") then []
  else if bool_decide (t = js "hover") then
    [Handler MouseEnter inside self MEnter; Handler MouseLeave inside self MLeave]
  else [Handler OnFocus inside self MEnter; Handler OnBlur inside self MLeave].

Definition triggers (self : nat) (o : options) : list handler :=
  concat (map (trigger_handlers (truthy (selector o)) self) (reverse (split 32 (trigger o)))).

Definition fixTitle (e : element) : element :=
  if truthy (title_attr e) || negb (present (original e)) then
    e <| original := Some (default [] (title_attr e)) |> <| title_attr := Some [] |>
  else e.

(** [new Tooltip(element, options)], stored as the element's data. *)
Definition init (i : nat) (given : partial) (w : page) : page * nat :=
  let self := length (objects w) in
  let o := getOptions (the_kind w)
             match elements w !! i with Some e => attributes e | None => nothing end given in
  let delegates := truthy (selector o) in
  let t := Tip i o
    (if delegates then Some (o <| trigger := js "manual" |> <| selector := [] |>) else None)
    true true None None None in
  let w := w <| objects ::= fun l => l ++ [t] |> in
  let w := on_element i (fun e => e <| handlers ::= fun l => l ++ triggers self o |>) w in
  let w := if delegates then w else on_element i fixTitle w in
  (on_element i (fun e => e <| data := Some self |>) w, self).

(** [$(element)[type](options).data(type)]. *)
Definition plugin (i : nat) (given : partial) (w : page) : page * nat :=
  match elements w !! i with
  | Some e => match data e with Some o => (w, o) | None => init i given w end
  | None => init i given w
  end.

Definition value_of (s : source) (i : nat) : jstr :=
  match s with Text s => s | Calls f => f i end.

Definition getTitle (t : tip) (w : page) : jstr :=
  let own := match elements w !! el t with Some e => default [] (original e) | None => [] end in
  if truthy own then own else value_of (title (opts t)) (el t).

(** [getContent]: undefined when neither the option nor the attribute says anything. *)
Definition getContent (t : tip) (w : page) : option jstr :=
  let own := value_of (content (opts t)) (el t) in
  if truthy own then Some own
  else match elements w !! el t with Some e => data_content e | None => None end.

Definition Popover_hasContent (t : tip) (w : page) : bool :=
  truthy (getTitle t w) || truthy (getContent t w).

Definition hasContent (t : tip) (w : page) : bool :=
  match the_kind w with
  | Tooltip => truthy (getTitle t w)
  | Popover => Popover_hasContent t w
  end.

Definition tip_ (o : nat) : page -> page :=
  on_object o (fun t => match made t with Some _ => t | None => t <| made := Some template |> end).

Definition is_side (p : placement) : bool := match p with OtherPlace _ => false | _ => true end.

(** [removeClass('fade in top bottom left right')]. *)
Definition remove_classes (b : bubble) : bubble :=
  b <| in_ := false |> <| fade := false |> <| sides ::= List.filter (fun p => negb (is_side p)) |>.

(** jQuery's text and html with undefined change nothing. *)
Definition Popover_setContent (t : tip) (w : page) (b : bubble) : bubble :=
  let h := html (opts t) in
  let b := b <| heading := (h, getTitle t w) |> in
  let b := match getContent t w with Some c => b <| body := (h, c) |> | None => b end in
  remove_classes b.

Definition Tooltip_setContent (t : tip) (w : page) (b : bubble) : bubble :=
  remove_classes (b <| heading := (html (opts t), getTitle t w) |>).

Definition setContent (o : nat) (t : tip) (w : page) : page :=
  on_bubble o (match the_kind w with
               | Tooltip => Tooltip_setContent t w
               | Popover => Popover_setContent t w
               end) w.

Definition add_side (p : placement) (l : list placement) : list placement :=
  if decide (p ∈ l) then l else l ++ [p].

Definition placement_of (t : tip) : placement :=
  match placement_ (opts t) with Fixed p => p | Chooses f => f (el t) end.

Definition spot_of (t : tip) : spot :=
  match container (opts t) with Some s => AppendedTo s | None => AfterElement end.

Definition show (a : answers) (o : nat) (w : page) : page :=
  match objects w !! o with
  | None => w
  | Some t =>
      if negb (live t) then notify o NTypeError w
      else if hasContent t w && enabled t then
        let w := notify o NShow w in
        if no_show a then w
        else
          let w := setContent o t (tip_ o w) in
          let w := if animation (opts t) then on_bubble o (fun b => b <| fade := true |>) w else w in
          let p := placement_of t in
          let w := on_bubble o (fun b =>
            b <| at_ := Some (spot_of t) |> <| outcome_ := Some (place p (measured a)) |>
              <| sides ::= add_side p |> <| in_ := true |>) w in
          notify o NShown w
      else w
  end.

Definition detach (o : nat) : page -> page := on_bubble o (fun b => b <| at_ := None |>).

Definition fades (o : nat) (w : page) : bool :=
  match objects w !! o with
  | Some t => match made t with Some b => fade b | None => false end
  | None => false
  end.

Definition is_in (o : nat) (w : page) : bool :=
  match objects w !! o with
  | Some t => match made t with Some b => in_ b | None => false end
  | None => false
  end.

Definition removeWithAnimation (o : nat) (w : page) : page :=
  let id := fresh w in
  on_bubble o (fun b => b <| ends ::= fun l => l ++ [id] |>) (setTimeout (Remove o) w).

(** [hide], and whether it returns the object: it returns nothing when it is prevented,
    and throws when there is no element. *)
Definition hide (a : answers) (o : nat) (w : page) : page * bool :=
  match objects w !! o with
  | None => (w, false)
  | Some t =>
      if negb (live t) then (notify o NTypeError w, false)
      else
        let w := notify o NHide (tip_ o w) in
        if no_hide a then (w, false)
        else
          let w := on_bubble o (fun b => b <| in_ := false |>) w in
          let w := if transitions w && fades o w then removeWithAnimation o w else detach o w in
          (notify o NHidden w, true)
  end.

Definition toggle (a : answers) (o : nat) (w : page) : page :=
  let w := tip_ o w in if is_in o w then fst (hide a o w) else show a o w.

(** [enter] of the object [self] for the element [i]. *)
Definition enter (a : answers) (self i : nat) (w : page) : page :=
  match objects w !! self with
  | None => w
  | Some h =>
      let given := match _options h with
                   | Some p => but_defaults (defaults (the_kind w)) p
                   | None => nothing
                   end in
      let '(w, o) := plugin i given w in
      match objects w !! o with
      | None => w
      | Some t =>
          if negb (live t) then notify o NTypeError w
          else if Nat.eqb (delay_show (opts t)) 0 then show a o w
          else
            let w := on_object o (fun t => t <| hoverState := Some true |>) (clear_hover self w) in
            let id := fresh w in
            on_object self (fun h => h <| timeout := Some id |>) (setTimeout (HoverShow o) w)
      end
  end.

Definition leave (a : answers) (self i : nat) (w : page) : page :=
  match objects w !! self with
  | None => w
  | Some h =>
      let given := match _options h with Some p => whole p | None => nothing end in
      let '(w, o) := plugin i given w in
      let w := clear_hover self w in
      match objects w !! o with
      | None => w
      | Some t =>
          if negb (live t) then notify o NTypeError w
          else if Nat.eqb (delay_hide (opts t)) 0 then fst (hide a o w)
          else
            let w := on_object o (fun t => t <| hoverState := Some false |>) w in
            let id := fresh w in
            on_object self (fun h => h <| timeout := Some id |>) (setTimeout (HoverHide o) w)
      end
  end.

(** [toggle] as a handler. *)
Definition toggle_for (a : answers) (self i : nat) (w : page) : page :=
  match objects w !! self with
  | None => w
  | Some h =>
      let given := match _options h with Some p => whole p | None => nothing end in
      let '(w, o) := plugin i given w in toggle a o w
  end.

(** [destroy]: when [hide] returns nothing, reading its [$element] throws. *)
Definition destroy (a : answers) (o : nat) (w : page) : page :=
  match objects w !! o with
  | None => w
  | Some t =>
      let '(w, returned) := hide a o w in
      if returned then on_element (el t) (fun e => e <| handlers := [] |> <| data := None |>) w
      else if live t then notify o NTypeError w else w
  end.

(** [validate], when the element is out of the page. *)
Definition validate (a : answers) (o : nat) (w : page) : page :=
  match objects w !! o with
  | None => w
  | Some t =>
      if live t then on_object o (fun t => t <| live := false |>) (fst (hide a o w))
      else notify o NTypeError w
  end.

(** * Events *)

Inductive command :=
  | CShow | CHide | CToggle | CEnable | CDisable | CToggleEnabled | CFixTitle | CValidate | CDestroy.

(** [$(element).tooltip('...')]. *)
Definition run (a : answers) (c : command) (o : nat) (w : page) : page :=
  match c with
  | CShow => show a o w
  | CHide => fst (hide a o w)
  | CToggle => toggle a o w
  | CEnable => on_object o (fun t => t <| enabled := true |>) w
  | CDisable => on_object o (fun t => t <| enabled := false |>) w
  | CToggleEnabled => on_object o (fun t => t <| enabled ::= negb |>) w
  | CFixTitle =>
      match objects w !! o with
      | Some t => if live t then on_element (el t) fixTitle w else notify o NTypeError w
      | None => w
      end
  | CValidate => validate a o w
  | CDestroy => destroy a o w
  end.

Definition invoke (a : answers) (m : method) (self i : nat) (w : page) : page :=
  match m with
  | MToggle => toggle_for a self i w
  | MEnter => enter a self i w
  | MLeave => leave a self i w
  end.

(** The handlers bound at the element [c] run for an event at the element [i]. *)
Definition dispatch (a : answers) (ev : dom_event) (i c : nat) (w : page) : page :=
  match elements w !! c with
  | None => w
  | Some e =>
      foldl (fun w h => invoke a (h_method h) (h_self h) i w) w
        (List.filter (fun h => bool_decide (h_event h = ev) && Bool.eqb (h_inside h) (negb (Nat.eqb c i)))
           (handlers e))
  end.

Inductive event :=
  | Plugin (i : nat) (given : partial) | Command (i : nat) (c : command)
  | Dom (ev : dom_event) (i : nat) | Timer (n : nat) | TransitionEnd (o : nat).

(** A function given to [setTimeout] runs. *)
Definition perform (a : answers) (t : task) (w : page) : page :=
  match t with
  | HoverShow o =>
      match objects w !! o with
      | Some t => if decide (hoverState t = Some true) then show a o w else w
      | None => w
      end
  | HoverHide o =>
      match objects w !! o with
      | Some t => if decide (hoverState t = Some false) then fst (hide a o w) else w
      | None => w
      end
  | Remove o => detach o (on_bubble o (fun b => b <| ends := [] |>) w)
  end.

Definition handle (ea : event * answers) (w : page) : page :=
  let '(e, a) := ea in
  match e with
  | Plugin i given => fst (plugin i given w)
  | Command i c => let '(w, o) := plugin i nothing w in run a c o w
  | Dom ev i =>
      foldl (fun w c => dispatch a ev i c w) w
        (i :: match elements w !! i with Some e => inside e | None => [] end)
  | Timer n =>
      match timers w !! n with
      | Some (id, t) => perform a t (clearTimeout id w)
      | None => w
      end
  | TransitionEnd o =>
      match objects w !! o with
      | Some t =>
          match made t with
          | Some b =>
              let w := on_bubble o (fun b => b <| ends := [] |>) w in
              foldl (fun w id => detach o (clearTimeout id w)) w (ends b)
          | None => w
          end
      | None => w
      end
  end.

Definition handle_all (es : list (event * answers)) (w : page) : page :=
  foldl (fun w e => handle e w) w es.

(** A page of elements without plugins. *)
Definition page_of (k : kind) (tr : bool) (es : list element) : page := Page k tr es [] [] 0 [].
