(* ===== verification/TooltipFacts.v ===== *)
(** TooltipFacts: what a tooltip with its default handlers shows in the end, and where its
    timers go wrong. *)

From S2P Require Import Prelude.
From S2P Require Import Placement.
From S2P Require Import Tooltip.
From coqutil Require Import Datatypes.RecordSettersUsingExistingGetters.

(** * One element, one object *)

Definition is_hover (t : task) : bool := match t with Remove _ => false | _ => true end.

(** The timers of [enter] and [leave] that have not run. *)
Definition hovers (l : list (nat * task)) : list (nat * task) :=
  List.filter (fun x => is_hover (snd x)) l.

Definition showing (mb : option bubble) : bool :=
  match mb with Some b => in_ b | None => false end.

Definition in_page (mb : option bubble) : bool :=
  match mb with Some b => present (at_ b) | None => false end.

Definition waiting (mb : option bubble) : list nat :=
  match mb with Some b => ends b | None => [] end.

Definition without (id : nat) (l : list (nat * task)) : list (nat * task) :=
  List.filter (fun x => negb (Nat.eqb (fst x) id)) l.

Section Single.
Variables (k : kind) (tr : bool) (e : element) (o : options).
Hypothesis data_e : data e = Some 0.
Hypothesis inside_e : inside e = [].
Hypothesis handlers_e : handlers e = triggers 0 o.
Hypothesis direct : selector o = [].
Hypothesis content_e : hasContent (Tip 0 o None true true None None None) (page_of k tr [e]) = true.

(** The page with its object in some state: the pending timeout, the hover state, the
    bubble, and the page's timers and notices. *)
Definition single (to : option nat) (hs : option bool) (mb : option bubble)
    (ti : list (nat * task)) (fr : nat) (no : list (nat * notice)) : page :=
  Page k tr [e] [Tip 0 o None true true to hs mb] ti fr no.

Lemma show_single a to hs mb ti fr no :
  no_show a = false ->
  exists b, show a 0 (single to hs mb ti fr no)
            = single to hs (Some b) ti fr (no ++ [(0, NShow); (0, NShown)]) /\
            in_ b = true /\ present (at_ b) = true /\ ends b = waiting mb.
Proof.
  intros Ha. unfold show, single. cbn [objects lookup list_lookup live negb enabled].
  match goal with |- context [hasContent ?t ?w] => change (hasContent t w)
    with (hasContent (Tip 0 o None true true None None None) (page_of k tr [e])) end.
  rewrite content_e. cbn [andb]. cbn zeta. rewrite Ha.
  change (no ++ [(0, NShow); (0, NShown)]) with (no ++ ([(0, NShow)] ++ [(0, NShown)])).
  rewrite (assoc_L app). destruct mb as [b|]; cbn [opts].
  all: destruct k, (animation o); eexists; (split; [reflexivity|]); unfold Popover_setContent; cbn;
    by repeat case_match.
Qed.

Lemma hide_single a to hs mb ti fr no :
  no_hide a = false ->
  exists b, in_ b = false /\
    ((tr = true /\ ends b = waiting mb ++ [fr] /\
      hide a 0 (single to hs mb ti fr no)
      = (single to hs (Some b) (ti ++ [(fr, Remove 0)]) (S fr) (no ++ [(0, NHide); (0, NHidden)]), true)) \/
     (at_ b = None /\ ends b = waiting mb /\
      hide a 0 (single to hs mb ti fr no)
      = (single to hs (Some b) ti fr (no ++ [(0, NHide); (0, NHidden)]), true))).
Proof.
  intros Ha. unfold hide, single. cbn [objects lookup list_lookup live negb]. cbn zeta. rewrite Ha.
  change (no ++ [(0, NHide); (0, NHidden)]) with (no ++ ([(0, NHide)] ++ [(0, NHidden)])).
  rewrite (assoc_L app). cbn [transitions tip_].
  destruct mb as [b|]; [destruct tr, (fade b) eqn:Ef|destruct tr].
  all: eexists; split; [|first [left; split; [reflexivity|]; split; [|cbn; rewrite ?Ef; reflexivity]
                               |right; split; [|split; [|cbn; rewrite ?Ef; reflexivity]]]];
    try reflexivity.
Qed.

(** What is true of the timers, [now] being whether the last call was of [enter]. *)
Definition hover_timer (now : bool) (to : option nat) (hs : option bool) (mb : option bubble)
    (ti : list (nat * task)) : Prop :=
  match hovers ti with
  | [] => showing mb = now
  | [(id, t)] =>
      to = Some id /\ hs = Some now /\ t = (if now then HoverShow 0 else HoverHide 0) /\
      delay_show o ≠ 0 /\ id ∉ waiting mb
  | _ => False
  end.

Record tidy (now : bool) (to : option nat) (hs : option bool) (mb : option bubble)
    (ti : list (nat * task)) (fr : nat) : Prop := Tidy {
  tidy_ids : NoDup (map fst ti);
  tidy_fresh : Forall (fun x => fst x < fr) ti;
  tidy_waiting : Forall (fun id => id < fr) (waiting mb);
  tidy_hover : hover_timer now to hs mb ti;
  tidy_plain : tr = false ->
    Forall (fun x => is_hover (snd x)) ti /\ waiting mb = [] /\ in_page mb = showing mb
}.

Definition hovering (now : bool) (w : page) : Prop :=
  exists to hs mb ti fr no, w = single to hs mb ti fr no /\ tidy now to hs mb ti fr.

Lemma without_ids id ti x : x ∈ without id ti <-> x ∈ ti /\ fst x ≠ id.
Proof.
  unfold without. rewrite !list_elem_of_In, filter_In. by rewrite negb_true_iff, Nat.eqb_neq.
Qed.

Lemma without_NoDup id ti : NoDup (map fst ti) -> NoDup (map fst (without id ti)).
Proof.
  induction ti as [|x ti IH]; [done|]. cbn. rewrite NoDup_cons. intros [H1 H2].
  destruct (negb _); [|by apply IH]. cbn. rewrite NoDup_cons. split; [|by apply IH].
  intros (y & E & Hy)%list_elem_of_fmap. apply without_ids in Hy as [Hy _].
  apply H1, list_elem_of_fmap. by exists y.
Qed.

Lemma without_Forall (P : nat * task -> Prop) id ti : Forall P ti -> Forall P (without id ti).
Proof. rewrite !Forall_forall. intros H x [Hx _]%without_ids. by apply H. Qed.

Lemma hovers_without id ti : hovers (without id ti) = without id (hovers ti).
Proof.
  unfold hovers, without. induction ti as [|x ti IH]; [done|]. cbn.
  destruct (is_hover (snd x)) eqn:E, (negb _) eqn:E'; cbn; rewrite ?E, ?E'; cbn; by rewrite IH.
Qed.

Lemma without_other id ti : Forall (fun x => fst x ≠ id) ti -> without id ti = ti.
Proof.
  induction 1 as [|x ti H _ IH]; [done|]. unfold without in *. cbn.
  apply Nat.eqb_neq in H. rewrite H. cbn. by rewrite IH.
Qed.

Lemma hovers_snoc ti id t :
  hovers (ti ++ [(id, t)]) = hovers ti ++ (if is_hover t then [(id, t)] else []).
Proof. unfold hovers. rewrite List.filter_app. cbn. by destruct (is_hover t). Qed.

(** Clearing the timeout leaves no timer of the pointer. *)
Lemma clear_hover_single to hs mb ti fr no now :
  tidy now to hs mb ti fr ->
  exists ti', clear_hover 0 (single to hs mb ti fr no) = single to hs mb ti' fr no /\
    hovers ti' = [] /\ (forall P, Forall P ti -> Forall P ti') /\ NoDup (map fst ti').
Proof.
  intros [H1 H2 H3 H4 H5]. unfold clear_hover, single. cbn [objects lookup list_lookup timeout].
  unfold hover_timer in H4. destruct to as [id|].
  - exists (without id ti). split; [done|]. rewrite hovers_without. split.
    + destruct (hovers ti) as [|[j t] [|]]; [done| |done]. destruct H4 as ([= ->] & _).
      unfold without. cbn. by rewrite Nat.eqb_refl.
    + split; [intros P; apply without_Forall|by apply without_NoDup].
  - exists ti. split; [done|]. destruct (hovers ti) as [|[j t] [|]]; try done; by destruct H4 as [? _].
Qed.

Lemma NoDup_snoc_fresh (ti : list (nat * task)) fr t :
  NoDup (map fst ti) -> Forall (fun x => fst x < fr) ti -> NoDup (map fst (ti ++ [(fr, t)])).
Proof.
  intros H1 H2. rewrite map_app. apply NoDup_app. split; [done|]. split; [|apply NoDup_singleton].
  intros x (y & -> & Hy)%list_elem_of_fmap Hx. rewrite Forall_forall in H2.
  apply H2 in Hy. cbn in Hx. apply list_elem_of_singleton in Hx. lia.
Qed.

Lemma Forall_fresh_S (ti : list (nat * task)) fr t :
  Forall (fun x => fst x < fr) ti -> Forall (fun x => fst x < S fr) (ti ++ [(fr, t)]).
Proof.
  intros H. apply Forall_app. split; [|by constructor; [cbn; lia|]].
  eapply Forall_impl; [exact H|]. cbn. lia.
Qed.

(** Showing and hiding when no timer of the pointer is pending. *)
Lemma show_tidy a now to hs mb ti fr no :
  no_show a = false -> hovers ti = [] ->
  NoDup (map fst ti) -> Forall (fun x => fst x < fr) ti -> Forall (fun id => id < fr) (waiting mb) ->
  (tr = false -> Forall (fun x => is_hover (snd x)) ti /\ waiting mb = []) ->
  now = true -> hovering now (show a 0 (single to hs mb ti fr no)).
Proof.
  intros Ha Hh H1 H2 H3 H5 ->.
  destruct (show_single a to hs mb ti fr no Ha) as (b & -> & Hi & Hp & He).
  eexists to, hs, (Some b), ti, fr, _. split; [done|].
  assert (waiting (Some b) = waiting mb) as Ew by done.
  split; [done|done|by rewrite Ew| |].
  - unfold hover_timer. by rewrite Hh.
  - intros H. destruct (H5 H) as [H6 H7]. split; [done|]. rewrite Ew. split; [done|].
    cbn. by rewrite Hi, Hp.
Qed.

Lemma hide_tidy a now to hs mb ti fr no :
  no_hide a = false -> hovers ti = [] ->
  NoDup (map fst ti) -> Forall (fun x => fst x < fr) ti -> Forall (fun id => id < fr) (waiting mb) ->
  (tr = false -> Forall (fun x => is_hover (snd x)) ti /\ waiting mb = []) ->
  now = false -> hovering now (fst (hide a 0 (single to hs mb ti fr no))).
Proof.
  intros Ha Hh H1 H2 H3 H5 ->.
  destruct (hide_single a to hs mb ti fr no Ha) as (b & Hi & [(Ht & He & ->)|(Hp & He & ->)]); cbn [fst].
  - eexists to, hs, (Some b), _, (S fr), _. split; [done|]. split.
    + by apply NoDup_snoc_fresh.
    + by apply Forall_fresh_S.
    + cbn. rewrite He. apply Forall_app. split; [|by constructor; [lia|]].
      eapply Forall_impl; [exact H3|]. cbn. lia.
    + unfold hover_timer. by rewrite hovers_snoc, Hh.
    + intros H. congruence.
  - eexists to, hs, (Some b), ti, fr, _. split; [done|].
    assert (waiting (Some b) = waiting mb) as Ew by done.
    split; [done|done|by rewrite Ew| |].
    + unfold hover_timer. by rewrite Hh.
    + intros H. destruct (H5 H) as [H6 H7]. split; [done|]. rewrite Ew. split; [done|].
      cbn. by rewrite Hi, Hp.
Qed.

(** A new timer of the pointer. *)
Lemma later_tidy (now : bool) to hs mb ti fr no :
  hovers ti = [] -> NoDup (map fst ti) -> Forall (fun x => fst x < fr) ti ->
  Forall (fun id => id < fr) (waiting mb) ->
  (tr = false -> Forall (fun x => is_hover (snd x)) ti /\ waiting mb = [] /\ in_page mb = showing mb) ->
  delay_show o ≠ 0 -> to = Some fr -> hs = Some now ->
  hovering now
    (single to hs mb (ti ++ [(fr, if now then HoverShow 0 else HoverHide 0)]) (S fr) no).
Proof.
  intros Hh H1 H2 H3 H5 Hd -> ->. eexists _, _, mb, _, (S fr), _. split; [done|]. split.
  - by apply NoDup_snoc_fresh.
  - by apply Forall_fresh_S.
  - eapply Forall_impl; [exact H3|]. cbn. lia.
  - unfold hover_timer. rewrite hovers_snoc, Hh.
    assert (is_hover (if now then HoverShow 0 else HoverHide 0) = true) as -> by by destruct now.
    cbn. do 4 (split; [done|]). intros Hw. rewrite Forall_forall in H3. apply H3 in Hw. lia.
  - intros H. destruct (H5 H) as (H6 & H7 & H8). split; [|done]. apply Forall_app.
    split; [done|]. constructor; [by destruct now|done].
Qed.

Hypothesis patient : delay_show o = 0 -> delay_hide o = 0.

Lemma enter_tidy a now w :
  no_show a = false -> hovering now w -> hovering true (enter a 0 0 w).
Proof.
  intros Ha (to & hs & mb & ti & fr & no & -> & Ht).
  assert (E : enter a 0 0 (single to hs mb ti fr no) =
    if Nat.eqb (delay_show o) 0 then show a 0 (single to hs mb ti fr no)
    else
      let w := on_object 0 (fun t => t <| hoverState := Some true |>)
                 (clear_hover 0 (single to hs mb ti fr no)) in
      on_object 0 (fun h => h <| timeout := Some (fresh w) |>) (setTimeout (HoverShow 0) w)).
  { unfold enter, plugin, single. cbn [objects lookup list_lookup _options elements].
    rewrite data_e. cbn [objects lookup list_lookup live negb opts]. done. }
  rewrite E. destruct (Nat.eqb_spec (delay_show o) 0) as [E0|E0].
  - destruct Ht as [H1 H2 H3 H4 H5]. apply show_tidy; try done.
    + unfold hover_timer in H4. destruct (hovers ti) as [|[j t] [|]]; try done.
      by destruct H4 as (_ & _ & _ & ? & _).
    + intros H. by destruct (H5 H) as (? & ? & _).
  - destruct (clear_hover_single to hs mb ti fr no now Ht) as (ti' & -> & Hh & HP & HN).
    destruct Ht as [H1 H2 H3 H4 H5].
    apply (later_tidy true (Some fr) (Some true) mb ti' fr no); try done; [by apply HP|].
    intros H. destruct (H5 H) as (H6 & H7). split; [by apply HP|done].
Qed.

Lemma leave_tidy a now w :
  no_hide a = false -> hovering now w -> hovering false (leave a 0 0 w).
Proof.
  intros Ha (to & hs & mb & ti & fr & no & -> & Ht).
  assert (E : leave a 0 0 (single to hs mb ti fr no) =
    let w := clear_hover 0 (single to hs mb ti fr no) in
    match objects w !! 0 with
    | None => w
    | Some t =>
        if negb (live t) then notify 0 NTypeError w
        else if Nat.eqb (delay_hide (opts t)) 0 then fst (hide a 0 w)
        else
          let w := on_object 0 (fun t => t <| hoverState := Some false |>) w in
          on_object 0 (fun h => h <| timeout := Some (fresh w) |>) (setTimeout (HoverHide 0) w)
    end).
  { unfold leave, plugin, single. cbn [objects lookup list_lookup _options elements].
    by rewrite data_e. }
  rewrite E. cbn zeta.
  destruct (clear_hover_single to hs mb ti fr no now Ht) as (ti' & -> & Hh & HP & HN).
  destruct Ht as [H1 H2 H3 H4 H5]. cbn [objects single lookup list_lookup live negb opts].
  destruct (Nat.eqb_spec (delay_hide o) 0) as [E0|E0].
  - apply hide_tidy; try done; [by apply HP|]. intros H. destruct (H5 H) as (? & ? & _).
    split; [by apply HP|done].
  - apply (later_tidy false (Some fr) (Some false) mb ti' fr no); try done; [by apply HP| |].
    + intros H. destruct (H5 H) as (H6 & H7). split; [by apply HP|done].
    + intros Hs. by apply E0, patient.
Qed.

Lemma hovers_elem x ti : x ∈ hovers ti <-> x ∈ ti /\ is_hover (snd x) = true.
Proof. unfold hovers. by rewrite !list_elem_of_In, filter_In. Qed.

Lemma without_same_id id t (ti : list (nat * task)) x :
  NoDup (map fst ti) -> (id, t) ∈ ti -> x ∈ ti -> fst x = id -> x = (id, t).
Proof.
  intros Hn Ht Hx E. apply list_elem_of_lookup in Ht as [i Hi], Hx as [j Hj].
  assert (i = j) as ->; [|congruence]. eapply NoDup_lookup; [exact Hn| |].
  - by rewrite list_lookup_fmap, Hi.
  - by rewrite list_lookup_fmap, Hj; cbn; rewrite E.
Qed.

(** A bubble whose removal is over: out of the page, nothing waiting. *)
Lemma removed_tidy now to hs b ti ti' fr no :
  tr = true -> hovers ti' = hovers ti -> NoDup (map fst ti') ->
  Forall (fun x => fst x < fr) ti' -> tidy now to hs (Some b) ti fr ->
  hovering now (single to hs (Some (b <| ends := [] |> <| at_ := None |>)) ti' fr no).
Proof.
  intros Ht Eh H1 H2 [_ _ H3 H4 H5]. eexists _, _, _, ti', fr, _. split; [done|]. split.
  - done.
  - done.
  - constructor.
  - unfold hover_timer in *. rewrite Eh. destruct (hovers ti) as [|[j t] [|]]; [done| |done].
    destruct H4 as (? & ? & ? & ? & _). do 4 (split; [done|]). apply not_elem_of_nil.
  - congruence.
Qed.

Lemma remove_timer_tidy a now to hs mb ti fr no id j :
  (id, Remove j) ∈ ti -> tidy now to hs mb ti fr ->
  hovering now (perform a (Remove j) (single to hs mb (without id ti) fr no)).
Proof.
  intros Hx Ht. pose proof Ht as [H1 H2 H3 H4 H5].
  assert (Hr : tr = true).
  { destruct tr; [done|]. destruct (H5 eq_refl) as [H _]. rewrite Forall_forall in H.
    by specialize (H _ Hx). }
  assert (Eh : hovers (without id ti) = hovers ti).
  { rewrite hovers_without. apply without_other, Forall_forall. intros y [Hy Hyh]%hovers_elem E.
    by rewrite (without_same_id id (Remove j) ti y) in Hyh. }
  destruct j as [|j]; [destruct mb as [b|]|].
  - apply (removed_tidy now to hs b ti); [done|done|by apply without_NoDup|by apply without_Forall|done].
  - exists to, hs, None, (without id ti), fr, no. split; [done|].
    split; [by apply without_NoDup|by apply without_Forall|done| |congruence].
    unfold hover_timer. by rewrite Eh.
  - exists to, hs, mb, (without id ti), fr, no. split; [done|].
    split; [by apply without_NoDup|by apply without_Forall|done| |congruence].
    unfold hover_timer. by rewrite Eh.
Qed.

Lemma hover_timer_runs a now to hs mb ti fr no id t :
  no_show a = false -> no_hide a = false -> (id, t) ∈ ti -> is_hover t = true ->
  tidy now to hs mb ti fr ->
  let w := perform a t (single to hs mb (without id ti) fr no) in
  hovering now w /\ is_in 0 w = now.
Proof.
  intros Hs Hi Hx Ht Hw. pose proof Hw as [H1 H2 H3 H4 H5]. cbn zeta.
  assert (Hh : (id, t) ∈ hovers ti) by by apply hovers_elem.
  unfold hover_timer in H4. destruct (hovers ti) as [|[j t'] [|]] eqn:Eh; try done.
  { by apply elem_of_nil in Hh. }
  apply list_elem_of_singleton in Hh as [= <- <-]. destruct H4 as (-> & -> & -> & H6 & H7).
  assert (E0 : hovers (without id ti) = []).
  { rewrite hovers_without, Eh. unfold without. cbn. by rewrite Nat.eqb_refl. }
  assert (HP : tr = false -> Forall (fun x => is_hover (snd x)) (without id ti) /\ waiting mb = []).
  { intros H. destruct (H5 H) as (? & ? & _). split; [by apply without_Forall|done]. }
  assert (Hw' : hovering now
    (perform a (if now then HoverShow 0 else HoverHide 0)
       (single (Some id) (Some now) mb (without id ti) fr no))).
  { destruct now; [apply show_tidy|apply hide_tidy]; try done;
      first [by apply without_NoDup|by apply without_Forall]. }
  split; [exact Hw'|]. destruct now.
  - change (is_in 0 (show a 0 (single (Some id) (Some true) mb (without id ti) fr no)) = true).
    by destruct (show_single a (Some id) (Some true) mb (without id ti) fr no Hs) as (b & -> & Hb & _).
  - change (is_in 0 (fst (hide a 0 (single (Some id) (Some false) mb (without id ti) fr no))) = false).
    by destruct (hide_single a (Some id) (Some false) mb (without id ti) fr no Hi)
      as (b & Hb & [(_ & _ & ->)|(_ & _ & ->)]).
Qed.

Lemma ends_run l b to hs ti fr no :
  foldl (fun w id => detach 0 (clearTimeout id w)) (single to hs (Some b) ti fr no) l
  = single to hs (Some (match l with [] => b | _ => b <| at_ := None |> end))
      (foldl (fun ti id => without id ti) ti l) fr no.
Proof.
  revert b ti. induction l as [|id l IH]; intros b ti; [done|]. cbn [foldl].
  change (detach 0 (clearTimeout id (single to hs (Some b) ti fr no)))
    with (single to hs (Some (b <| at_ := None |>)) (without id ti) fr no).
  rewrite IH. by destruct l.
Qed.

Lemma without_all (l : list nat) (ti : list (nat * task)) :
  (forall id, id ∈ l -> Forall (fun x => fst x ≠ id) (hovers ti)) ->
  let ti' := foldl (fun ti id => without id ti) ti l in
  hovers ti' = hovers ti /\ (forall P, Forall P ti -> Forall P ti') /\
  (NoDup (map fst ti) -> NoDup (map fst ti')).
Proof.
  revert ti. induction l as [|id l IH]; intros ti H; [done|]. cbn [foldl]. cbn zeta.
  assert (E : hovers (without id ti) = hovers ti).
  { rewrite hovers_without. apply without_other, H. set_solver. }
  destruct (IH (without id ti)) as (E1 & E2 & E3).
  { intros i Hi. rewrite E. apply H. set_solver. }
  split; [by rewrite E1|]. split; [intros P HP; by apply E2, without_Forall|].
  intros HN. by apply E3, without_NoDup.
Qed.

Lemma transition_end_tidy a now w :
  hovering now w -> hovering now (handle (TransitionEnd 0, a) w).
Proof.
  intros (to & hs & mb & ti & fr & no & -> & Ht). destruct mb as [b|].
  2: { by exists to, hs, None, ti, fr, no. }
  assert (E : handle (TransitionEnd 0, a) (single to hs (Some b) ti fr no) =
    foldl (fun w id => detach 0 (clearTimeout id w))
      (single to hs (Some (b <| ends := [] |>)) ti fr no) (ends b)) by done.
  rewrite E, ends_run. pose proof Ht as [H1 H2 H3 H4 H5].
  destruct (without_all (ends b) ti) as (E1 & E2 & E3).
  { intros id Hid. unfold hover_timer in H4. destruct (hovers ti) as [|[j t] [|]]; [done| |done].
    destruct H4 as (_ & _ & _ & _ & Hj). constructor; [|done]. cbn. intros ->. by apply Hj. }
  destruct (ends b) as [|id l] eqn:El.
  - eexists to, hs, _, ti, fr, _. split; [reflexivity|]. split; try done.
    + unfold hover_timer in *. destruct (hovers ti) as [|[j t] [|]]; [done| |done].
      destruct H4 as (? & ? & ? & ? & _). do 4 (split; [done|]). apply not_elem_of_nil.
    + intros H. destruct (H5 H) as (H6 & H7 & H8). done.
  - assert (Hr : tr = true).
    { destruct tr; [done|]. destruct (H5 eq_refl) as (_ & H & _). cbn in H. congruence. }
    apply (removed_tidy now to hs b ti); [done|exact E1|by apply E3|by apply E2|done].
Qed.

Lemma timer_tidy a now w n :
  no_show a = false -> no_hide a = false -> hovering now w ->
  hovering now (handle (Timer n, a) w) /\
  (forall x, timers w !! n = Some x -> is_hover (snd x) = true -> is_in 0 (handle (Timer n, a) w) = now).
Proof.
  intros Hs Hi (to & hs & mb & ti & fr & no & -> & Ht).
  cbn [handle single timers]. destruct (ti !! n) as [[id t]|] eqn:En.
  2: { split; [|done]. by exists to, hs, mb, ti, fr, no. }
  apply list_elem_of_lookup_2 in En.
  change (clearTimeout id (Page k tr [e] [Tip 0 o None true true to hs mb] ti fr no))
    with (single to hs mb (without id ti) fr no).
  destruct (is_hover t) eqn:Eh.
  - destruct (hover_timer_runs a now to hs mb ti fr no id t Hs Hi En Eh Ht) as [H1 H2]. done.
  - split; [|intros x [= <-]; cbn; congruence]. destruct t as [| |j]; try done.
    by apply remove_timer_tidy.
Qed.

(** The last call of [enter] or [leave] that an event makes. *)
Definition pointed (ev : dom_event) (now : bool) : bool :=
  foldl (fun now h => match h_method h with MEnter => true | MLeave => false | MToggle => now end)
    now (List.filter (fun h => bool_decide (h_event h = ev)) (triggers 0 o)).

Definition calm (a : answers) : Prop := no_show a = false /\ no_hide a = false.

(** What the pointer and the focus, the timers and the transitions do. *)
Definition passive (x : event * answers) : Prop :=
  calm (snd x) /\
  match fst x with Dom _ 0 | Timer _ | TransitionEnd 0 => True | _ => False end.

Definition now_after (es : list (event * answers)) (now : bool) : bool :=
  foldl (fun now x => match fst x with Dom ev _ => pointed ev now | _ => now end) now es.

Lemma triggers_plain h :
  js "click" ∉ split 32 (trigger o) -> h ∈ triggers 0 o ->
  h_inside h = false /\ h_self h = 0 /\ h_method h ≠ MToggle.
Proof.
  intros Hc. unfold triggers. rewrite direct. rewrite list_elem_of_In, in_concat.
  intros (l & Hl & Hh). apply in_map_iff in Hl as (t & <- & Ht).
  apply list_elem_of_In in Hh, Ht.  rewrite elem_of_reverse in Ht.
  unfold trigger_handlers in Hh. rewrite bool_decide_false in Hh by (intros ->; by apply Hc).
  repeat case_bool_decide; cbn in Hh; set_solver.
Qed.

Lemma passive_tidy now w x :
  js "click" ∉ split 32 (trigger o) -> passive x -> hovering now w ->
  hovering (now_after [x] now) (handle x w).
Proof.
  intros Hc [[Hs Hi] He] Hw. destruct x as [ev a]. cbn [fst snd] in *.
  destruct ev as [| |ev [|]|n|[|]]; try done.
  - assert (E : handle (Dom ev 0, a) w =
      foldl (fun w h => invoke a (h_method h) (h_self h) 0 w) w
        (List.filter (fun h => bool_decide (h_event h = ev) && Bool.eqb (h_inside h) false) (triggers 0 o))).
    { destruct Hw as (to & hs & mb & ti & fr & no & -> & Ht).
      rewrite <- handlers_e. set (w := single to hs mb ti fr no).
      change (handle (Dom ev 0, a) w)
        with (foldl (fun w c => dispatch a ev 0 c w) w (0 :: inside e)).
      by rewrite inside_e. }
    rewrite E. cbn [now_after foldl fst]. unfold pointed. clear E.
    assert (Hp : Forall (fun h => h_inside h = false /\ h_self h = 0 /\ h_method h ≠ MToggle) (triggers 0 o))
      by (apply Forall_forall; intros h; by apply triggers_plain).
    clear handlers_e. revert now w Hw.
    induction Hp as [|h l (P1 & P2 & P3) _ IH]; intros now w Hw; [done|]. cbn [List.filter]. rewrite P1. cbn [Bool.eqb]. rewrite andb_true_r.
    case_bool_decide; [|by apply IH]. cbn [foldl]. apply IH. rewrite P2.
    destruct (h_method h); [done| |]; cbn [invoke].
    + by apply (enter_tidy a now).
    + by apply (leave_tidy a now).
  - by apply timer_tidy.
  - by apply transition_end_tidy.
Qed.

Lemma run_tidy es now w :
  js "click" ∉ split 32 (trigger o) -> Forall passive es -> hovering now w ->
  hovering (now_after es now) (handle_all es w).
Proof.
  intros Hc H. revert now w. induction H as [|x es Hx _ IH]; intros now w Hw; [done|].
  cbn [handle_all now_after foldl]. apply IH.
  by apply (passive_tidy now w x).
Qed.

Lemma hovering_new : hovering false (single None None None [] 0 []).
Proof. exists None, None, None, [], 0, []. by repeat split; try constructor. Qed.

(** What a run leaves. *)
Lemma hovering_shows now w :
  hovering now w ->
  length (hovers (timers w)) <= 1 /\
  (hovers (timers w) = [] -> is_in 0 w = now) /\
  (forall n a x, calm a -> timers w !! n = Some x -> is_hover (snd x) = true ->
     is_in 0 (handle (Timer n, a) w) = now).
Proof.
  intros Hw. split; [|split].
  - destruct Hw as (to & hs & mb & ti & fr & no & -> & [_ _ _ H4 _]). unfold hover_timer in H4.
    cbn [single timers]. destruct (hovers ti) as [|[? ?] [|]]; cbn; [lia|lia|done].
  - destruct Hw as (to & hs & mb & ti & fr & no & -> & [_ _ _ H4 _]). unfold hover_timer in H4.
    cbn [single timers]. intros E. by rewrite E in H4.
  - intros n a x [Hs Hi] Hn Hx. by apply (timer_tidy a now w n Hs Hi Hw) with x.
Qed.

(** Without transitions the tip is in the page exactly when it is shown. *)
Lemma hovering_place now w :
  hovering now w -> tr = false ->
  match objects w !! 0 with Some t => in_page (made t) = is_in 0 w | None => False end.
Proof. intros (to & hs & mb & ti & fr & no & -> & [_ _ _ _ H5]) H. by apply H5. Qed.
End Single.

(** An element whose tooltip is new. *)
Definition equipped (k : kind) (tr : bool) (e : element) (given : partial) : page :=
  fst (plugin 0 given (page_of k tr [e])).

Lemma fixTitle_frame e :
  attributes (fixTitle e) = attributes e /\ inside (fixTitle e) = inside e /\
  handlers (fixTitle e) = handlers e /\ data (fixTitle e) = data e.
Proof. unfold fixTitle. by destruct (_ || _). Qed.

Lemma equipped_single k tr e given :
  data e = None -> handlers e = [] ->
  let o := getOptions k (attributes e) given in
  selector o = [] ->
  equipped k tr e given
  = single k tr ((fixTitle (e <| handlers := triggers 0 o |>)) <| data := Some 0 |>) o
      None None None [] 0 [].
Proof.
  cbn zeta. intros Hd Hh Hs. unfold equipped, plugin, page_of. cbn [elements lookup list_lookup].
  rewrite Hd. unfold init. cbn [elements lookup list_lookup the_kind].
  set (o := getOptions k (attributes e) given) in *. cbn zeta. rewrite Hs.
  assert (e <| handlers ::= fun l => l ++ triggers 0 o |> = e <| handlers := triggers 0 o |>) as <-.
  { destruct e. cbn in Hh. by subst. }
  reflexivity.
Qed.

(** C32. A new tooltip or popover with a text, on an element of its own - no container, no
    selector, not by clicks - with a delay before showing that is zero only if that before
    hiding is ([reentered_tip_hides] otherwise), and listeners that prevent nothing: after
    any sequence of the pointer's and the focus's moves, of timers and of transitions' ends,
    at most one of the timers the moves set is pending; if none is, the tip has its class in
    exactly when the last call was of [enter], and it does as soon as the pending one has
    run.  Where the browser has no transitions the tip is in the page exactly when it has
    that class; with transitions it may have the class and be out of the page
    ([reshown_tip_vanishes]). *)
Theorem hover_settles k tr e given es :
  let o := getOptions k (attributes e) given in
  let w0 := equipped k tr e given in
  data e = None -> handlers e = [] -> inside e = [] ->
  selector o = [] -> js "click" ∉ split 32 (trigger o) ->
  (delay_show o = 0 -> delay_hide o = 0) ->
  (exists t, objects w0 !! 0 = Some t /\ hasContent t w0 = true) ->
  Forall passive es ->
  let w := handle_all es w0 in
  let now := now_after o es false in
  length (hovers (timers w)) <= 1 /\
  (hovers (timers w) = [] -> is_in 0 w = now) /\
  (forall n a x, calm a -> timers w !! n = Some x -> is_hover (snd x) = true ->
     is_in 0 (handle (Timer n, a) w) = now) /\
  (tr = false ->
     match objects w !! 0 with Some t => in_page (made t) = is_in 0 w | None => False end).
Proof.
  cbn zeta. intros Hd Hh Hi Hs Hc Hp (t & Ht & Hcontent) Hes.
  rewrite equipped_single in * by done.
  set (o := getOptions k (attributes e) given) in *.
  set (e' := (fixTitle (e <| handlers := triggers 0 o |>)) <| data := Some 0 |>) in *.
  destruct (fixTitle_frame (e <| handlers := triggers 0 o |>)) as (_ & F2 & F3 & _).
  assert (G1 : data e' = Some 0) by done.
  assert (G2 : inside e' = []) by (transitivity (inside (fixTitle (e <| handlers := triggers 0 o |>))); [done|by rewrite F2]).
  assert (G3 : handlers e' = triggers 0 o) by by exact F3.
  injection Ht as <-.
  pose proof (run_tidy k tr e' o G1 G2 G3 Hs Hcontent Hp es false _ Hc Hes (hovering_new k tr e' o)) as Hw.
  destruct (hovering_shows k tr e' o Hcontent Hp _ _ Hw) as (R1 & R2 & R3).
  split; [exact R1|]. split; [exact R2|]. split; [exact R3|].
  by apply (hovering_place k tr e' o (now_after o es false)).
Qed.

(** * Options of the elements inside a container *)

Lemma extend_but_defaults d p : extend d (but_defaults d p) = p.
Proof.
  destruct d as [a1 a2 a3 a4 a5 a6 a7 a8 a9], p as [b1 b2 b3 b4 b5 b6 b7 b8 b9].
  unfold extend, but_defaults, unless. cbn -[js]. f_equal.
  - by destruct a1, b1.
  - destruct a2, b2; cbn; by try case_bool_decide; subst.
  - case_bool_decide; by subst.
  - case_bool_decide; by subst.
  - destruct a5, b5; cbn; by try case_bool_decide; subst.
  - destruct a6 as [n|], b6 as [m|]; cbn; try done. by destruct (Nat.eqb_spec n m); subst.
  - by destruct a7, b7.
  - case_bool_decide; by subst.
  - destruct a9, b9; cbn; by try case_bool_decide; subst.
Qed.

(** For an element without data attributes the object made by [enter] and the one made by
    [leave] or [toggle] have the same options, those of the container. *)
Lemma delegated_options_agree k p :
  getOptions k nothing (but_defaults (defaults k) p) = getOptions k nothing (whole p) /\
  ((forall n, delay_ p ≠ Millis (S n)) -> getOptions k nothing (whole p) = p).
Proof.
  unfold getOptions.
  assert (extend (defaults k) nothing = defaults k) as -> by by destruct k.
  rewrite extend_but_defaults. assert (extend (defaults k) (whole p) = p) as -> by by destruct p.
  split; [done|]. intros H. destruct (delay_ p) as [[|n]|] eqn:E; try done. by destruct (H n).
Qed.

(** * Examples *)

Definition ok : answers :=
  Answers false false nowhere.

Definition refusing : answers := ok <| no_hide := true |>.

Definition button : element :=
  Element (Some (js "Save")) None None nothing [] [] None.

Definition delayed (s h : nat) : partial := nothing <| p_delay := Some (Delays s h) |>.

Definition by_name (ev : dom_event) : event * answers := (Dom ev 0, ok).

(** The pointer comes, goes and comes back while the field is also left. *)
Definition wandering : list (event * answers) :=
  [by_name MouseEnter; (Timer 0, ok); by_name MouseLeave; by_name MouseEnter;
   (TransitionEnd 0, ok); by_name OnFocus; by_name MouseLeave].

Lemma hover_settles_witness :
  let w := handle_all wandering (equipped Tooltip true button (delayed 500 100)) in
  is_in 0 w = true /\ is_in 0 (handle (Timer 0, ok) w) = false.
Proof.
  cbn zeta. split; [vm_compute; reflexivity|].
  refine (proj1 (proj2 (proj2 (hover_settles Tooltip true button (delayed 500 100) wandering
    eq_refl eq_refl eq_refl eq_refl _ _ _ _))) 0 ok (4, HoverHide 0) _ _ _).
  - apply (bool_decide_unpack _). vm_compute. exact I.
  - discriminate.
  - eexists. split; [reflexivity|]. vm_compute. reflexivity.
  - repeat constructor.
  - split; reflexivity.
  - vm_compute. reflexivity.
  - reflexivity.
Defined.

(** With a delay before hiding only, a pointer that comes back in time does not keep the
    tip: [enter] shows at once and leaves the timer of [leave] to hide it. *)
Example reentered_tip_hides :
  let w := handle_all [by_name MouseEnter; by_name MouseLeave; by_name MouseEnter; (Timer 0, ok)]
             (equipped Tooltip false button (delayed 0 100)) in
  is_in 0 w = false /\ map snd (notices w) = [NShow; NShown; NShow; NShown; NHide; NHidden].
Proof. vm_compute. split; reflexivity. Qed.

(** Shown again before it has faded out, the tip leaves the page when the timer of its
    removal, or the transition that shows it, ends: it counts as shown, out of the page. *)
Example reshown_tip_vanishes :
  let shown := handle_all [by_name MouseEnter; by_name MouseLeave; by_name MouseEnter]
                 (equipped Tooltip true button nothing) in
  let look w := match objects w !! 0 with
                | Some t => (is_in 0 w, in_page (made t))
                | None => (false, false)
                end in
  look shown = (true, true) /\ look (handle (Timer 0, ok) shown) = (true, false) /\
  look (handle (TransitionEnd 0, ok) shown) = (true, false).
Proof. vm_compute. repeat split; reflexivity. Qed.

(** Two buttons in a container whose handlers serve them. *)
Definition toolbar (given : partial) : page :=
  handle (Plugin 0 (given <| p_selector := Some (js "button") |>), ok)
    (page_of Tooltip false
       [Element None None None nothing [] [] None;
        Element (Some (js "Save")) None None nothing [0] [] None;
        Element (Some (js "Undo")) None None nothing [0] [] None]).

(** Moving from one button to the next clears the first one's timer, which the container
    holds: the first tip stays, with no timer left to hide it. *)
Example delegated_tip_stays :
  let w := handle_all [(Dom MouseEnter 1, ok); (Timer 0, ok); (Dom MouseLeave 1, ok);
                       (Dom MouseEnter 2, ok); (Timer 0, ok)] (toolbar (delayed 500 100)) in
  (map (fun e => data e) (elements w), is_in 1 w, is_in 2 w, timers w)
  = ([Some 0; Some 1; Some 2], true, true, []).
Proof. vm_compute. reflexivity. Qed.

(** Which event comes first decides whether an element's own data attributes count:
    [enter] leaves out what is the default, [leave] passes everything. *)
Example first_event_decides :
  let own := nothing <| p_animation := Some false |> in
  let o := defaults Tooltip in
  animation (getOptions Tooltip own (but_defaults (defaults Tooltip) o)) = false /\
  animation (getOptions Tooltip own (whole o)) = true.
Proof. split; reflexivity. Qed.

(** A listener that prevents 'hide' makes [destroy] fail: the object and its handlers stay. *)
Example destroy_refused :
  let w := handle_all [by_name MouseEnter; (Command 0 CDestroy, refusing)]
             (equipped Tooltip false button nothing) in
  map snd (notices w) = [NShow; NShown; NHide; NTypeError] /\
  map (fun e => (data e, length (handlers e))) (elements w) = [(Some 0, 4)].
Proof. vm_compute. split; reflexivity. Qed.

(** [destroy] leaves the timers: a tip that waits to be shown appears after it, and nothing
    hides it any more. *)
Example destroyed_tip_appears :
  let w := handle_all [by_name MouseEnter; (Command 0 CDestroy, ok); (Timer 0, ok); by_name MouseLeave]
             (equipped Tooltip false button (delayed 500 0)) in
  is_in 0 w = true /\ map (fun e => (data e, handlers e)) (elements w) = [(None, [])].
Proof. vm_compute. split; reflexivity. Qed.

(** A popover that loses its content keeps showing it beside the title. *)
Example stale_content_stays :
  let e := Element (Some (js "Help")) None (Some (js "old")) nothing [] [] None in
  let w := handle_all [by_name OnClick; by_name OnClick] (equipped Popover false e nothing) in
  let w := handle (by_name OnClick) (on_element 0 (fun e => e <| data_content := None |>) w) in
  match objects w !! 0 with
  | Some t => option_map (fun b => (heading b, body b)) (made t)
  | None => None
  end = Some ((false, js "Help"), (false, js "old")).
Proof. vm_compute. reflexivity. Qed.
