(* ===== verification/Collapse.v ===== *)
(** Collapse: Bootstrap's collapsing panels and accordions as the Fuel UX bundle carries
    them (fuelux/dist/all.js, bootstrap-collapse.js).

    A panel may be inside an accordion; its object, made by the first call of the plugin,
    may know the accordion as its parent.  Links toggle panels.  The functions waiting for
    the end of a panel's transition are part of the state.  Every event brings the
    browser's answers: which listeners prevent 'show' and 'hide', and the sizes measured.
    Sizes are along the panel's dimension, its height or its width, which never changes. *)

From S2P Require Import Prelude.
From coqutil Require Import Datatypes.RecordSettersUsingExistingGetters.

Inductive size := Auto | Px (n : nat).

(** The options a call or an element's data gives. *)
Record given := Given { g_parent : option nat; g_toggle : option bool }.

Record panel := Panel {
  in_ : bool;
  collapse_class : bool;
  size_ : size;                    (* the style of the element *)
  accordion : option nat;          (* it is a child of a child of this element *)
  own : given;                     (* its data attributes *)
  data : option nat;               (* its object *)
  ends : list (nat * bool)         (* waiting: an object and whether it is being shown *)
}.

(** A [Collapse] object: its element, its [$parent]. *)
Record object := Object { o_panel : nat; o_parent : option nat; transitioning : bool }.

(** A link with data-toggle=collapse. *)
Record link := Link { target : nat; l_data : given; collapsed : bool }.

Inductive notice := NShow | NShown | NHide | NHidden.

Record page := Page {
  transitions : bool;              (* $.support.transition *)
  panels : list panel;
  objects : list object;
  links : list link;
  notices : list (nat * notice)    (* by panel, the latest last *)
}.

(** What the listeners and the layout answer, by panel. *)
Record answers := Answers {
  no_show : nat -> bool;
  no_hide : nat -> bool;
  scroll : nat -> nat;             (* scrollHeight or scrollWidth *)
  current : nat -> nat             (* height() or width() *)
}.

Definition on_panel (i : nat) (f : panel -> panel) (w : page) : page := w <| panels ::= alter f i |>.

Definition on_object (o : nat) (f : object -> object) (w : page) : page :=
  w <| objects ::= alter f o |>.

Definition notify (i : nat) (n : notice) (w : page) : page :=
  w <| notices ::= fun l => l ++ [(i, n)] |>.

Definition set_size (i : nat) (s : size) : page -> page := on_panel i (fun p => p <| size_ := s |>).

Definition is_in (i : nat) (w : page) : bool :=
  match panels w !! i with Some p => in_ p | None => false end.

Definition data_of (i : nat) (w : page) : option nat :=
  match panels w !! i with Some p => data p | None => None end.

(** [reset]: no size, or 0, is 'auto'; the size is never null, so the class is back. *)
Definition reset (i : nat) (s : option nat) (w : page) : page :=
  let s := match s with Some (S n) => Px (S n) | _ => Auto end in
  on_panel i (fun p => p <| size_ := s |> <| collapse_class := true |>) w.

(** The inner [complete]. *)
Definition complete (o : nat) (showing : bool) (w : page) : page :=
  match objects w !! o with
  | None => w
  | Some ob =>
      let i := o_panel ob in
      let w := if showing then reset i None w else w in
      let w := on_object o (fun ob => ob <| transitioning := false |>) w in
      notify i (if showing then NShown else NHidden) w
  end.

Definition transition (a : answers) (o : nat) (showing : bool) (w : page) : page :=
  match objects w !! o with
  | None => w
  | Some ob =>
      let i := o_panel ob in
      let w := notify i (if showing then NShow else NHide) w in
      if (if showing then no_show a i else no_hide a i) then w
      else
        let w := on_object o (fun ob => ob <| transitioning := true |>) w in
        let w := on_panel i (fun p => p <| in_ := showing |>) w in
        let waits := match panels w !! i with Some p => collapse_class p | None => false end in
        if transitions w && waits then on_panel i (fun p => p <| ends ::= fun l => l ++ [(o, showing)] |>) w
        else complete o showing w
  end.

Definition hide (a : answers) (o : nat) (w : page) : page :=
  match objects w !! o with
  | None => w
  | Some ob =>
      let i := o_panel ob in
      if transitioning ob || negb (is_in i w) then w
      else set_size i (Px 0) (transition a o false (reset i (Some (current a i)) w))
  end.

(** The options of a new object: the defaults, the panel's data, those given. *)
Definition options (p : panel) (g : given) : given :=
  Given (match g_parent g with Some x => Some x | None => g_parent (own p) end)
        (Some (match g_toggle g with Some b => b | None => default true (g_toggle (own p)) end)).

(** [new Collapse(element, options)], [toggle] being its method; the element's data is
    set when the constructor has returned. *)
Definition create (toggle : nat -> page -> page) (i : nat) (g : given) (w : page) : page * nat :=
  match panels w !! i with
  | None => (w, length (objects w))
  | Some p =>
      let o := length (objects w) in
      let opts := options p g in
      let w := w <| objects ::= fun l => l ++ [Object i (g_parent opts) false] |> in
      let w := if default true (g_toggle opts) then toggle o w else w in
      (on_panel i (fun p => p <| data := Some o |>) w, o)
  end.

(** [$(element).collapse('hide')] for a panel that has the class in: the [toggle] of a new
    object is [hide] too. *)
Definition hide_active (a : answers) (i : nat) (w : page) : page :=
  let '(w, o) := match data_of i w with
                 | Some o => (w, o)
                 | None => create (hide a) i (Given None None) w
                 end in
  hide a o w.

(** [$parent.find('> .accordion-group > .in')]. *)
Definition actives (parent : option nat) (w : page) : list nat :=
  match parent with
  | Some g => places (fun p => bool_decide (accordion p = Some g) && in_ p) (panels w)
  | None => []
  end.

(** The last three lines of [show]. *)
Definition open_ (a : answers) (o i : nat) (w : page) : page :=
  let w := transition a o true (set_size i (Px 0) w) in
  if transitions w then set_size i (Px (scroll a i)) w else w.

Definition show (a : answers) (o : nat) (w : page) : page :=
  match objects w !! o with
  | None => w
  | Some ob =>
      let i := o_panel ob in
      if transitioning ob || is_in i w then w
      else
        let others := actives (o_parent ob) w in
        match others with
        | [] => open_ a o i w
        | first :: _ =>
            let hasData := data_of first w in
            let busy := match hasData with
                        | Some o' => match objects w !! o' with
                                     | Some ob' => transitioning ob' | None => false
                                     end
                        | None => false
                        end in
            if busy then w
            else
              let w := foldl (fun w j => hide_active a j w) w others in
              let w := if present hasData then w
                       else foldl (fun w j => on_panel j (fun p => p <| data := None |>) w) w others in
              open_ a o i w
        end
  end.

Definition toggle (a : answers) (o : nat) (w : page) : page :=
  match objects w !! o with
  | None => w
  | Some ob => if is_in (o_panel ob) w then hide a o w else show a o w
  end.

Inductive command := CShow | CHide | CToggle.

Definition run (a : answers) (c : command) (o : nat) (w : page) : page :=
  match c with CShow => show a o w | CHide => hide a o w | CToggle => toggle a o w end.

(** [$(element).collapse(option)] with an object, and with the name of a method. *)
Definition with_options (a : answers) (i : nat) (g : given) (w : page) : page :=
  match data_of i w with Some _ => w | None => fst (create (toggle a) i g w) end.

Definition with_command (a : answers) (i : nat) (c : command) (w : page) : page :=
  let '(w, o) := match data_of i w with
                 | Some o => (w, o)
                 | None => create (toggle a) i (Given None None) w
                 end in
  run a c o w.

(** The click on a link: its class says what the panel was. *)
Definition click (a : answers) (k : nat) (w : page) : page :=
  match links w !! k with
  | None => w
  | Some l =>
      let i := target l in
      let has := present (data_of i w) in
      let w := w <| links ::= alter (fun l => l <| collapsed := is_in i w |>) k |> in
      if has then with_command a i CToggle w else with_options a i (l_data l) w
  end.

Inductive event :=
  | Click (k : nat) | Command (i : nat) (c : command) | Options (i : nat) (g : given)
  | TransitionEnd (i : nat).

Definition handle (ea : event * answers) (w : page) : page :=
  let '(e, a) := ea in
  match e with
  | Click k => click a k w
  | Command i c => with_command a i c w
  | Options i g => with_options a i g w
  | TransitionEnd i =>
      match panels w !! i with
      | Some p => foldl (fun w os => complete (fst os) (snd os) w)
                    (on_panel i (fun p => p <| ends := [] |>) w) (ends p)
      | None => w
      end
  end.

Definition handle_all (es : list (event * answers)) (w : page) : page :=
  foldl (fun w e => handle e w) w es.
