(* ===== verification/CollapseFacts.v ===== *)
(** CollapseFacts: one panel goes through its phases, an accordion has at most one panel
    open, and what the code gets wrong. *)

From S2P Require Import Prelude.
From S2P Require Import Collapse.
From coqutil Require Import Datatypes.RecordSettersUsingExistingGetters.

(** * One panel *)

(** An opening panel goes to the size measured when it was shown. *)
Inductive phase := Closed | Opening (size : nat) | Open | Closing.

Section Spec.
Variable tr : bool.

(** [n] is the size the browser measures. *)
Definition spec_show (n : nat) (ph : phase) : phase * list notice :=
  match ph with
  | Closed => if tr then (Opening n, [NShow]) else (Open, [NShow; NShown])
  | _ => (ph, [])
  end.

Definition spec_hide (ph : phase) : phase * list notice :=
  match ph with
  | Open => if tr then (Closing, [NHide]) else (Closed, [NHide; NHidden])
  | _ => (ph, [])
  end.

Definition spec_step (x : event * answers) (ph : phase) : phase * list notice :=
  let n := scroll (snd x) 0 in
  match fst x with
  | Command _ CShow => spec_show n ph
  | Command _ CHide => spec_hide ph
  | Command _ CToggle | Click _ =>
      match ph with Closed | Closing => spec_show n ph | Open | Opening _ => spec_hide ph end
  | Options _ _ => (ph, [])
  | TransitionEnd _ =>
      match ph with Opening _ => (Open, [NShown]) | Closing => (Closed, [NHidden]) | _ => (ph, []) end
  end.

Fixpoint spec_run (es : list (event * answers)) (ph : phase) : phase * list notice :=
  match es with
  | [] => (ph, [])
  | x :: es =>
      let '(ph, ns) := spec_step x ph in
      let '(ph, ns') := spec_run es ph in (ph, ns ++ ns')
  end.
End Spec.

(** What a page with one panel, its object and a link looks like in each phase. *)
Definition looks (ph : phase) (w : page) : Prop :=
  exists p ob l,
    panels w = [p] /\ objects w = [ob] /\ links w = [l] /\ target l = 0 /\
    o_panel ob = 0 /\ o_parent ob = None /\ data p = Some 0 /\ collapse_class p = true /\
    (in_ p, transitioning ob, ends p)
    = match ph with
      | Closed => (false, false, [])
      | Opening _ => (true, true, [(0, true)])
      | Open => (true, false, [])
      | Closing => (false, true, [(0, false)])
      end /\
    match ph with
    | Closed | Closing => size_ p = Px 0
    | Open => size_ p = Auto
    | Opening n => size_ p = Px n
    end /\
    (match ph with Opening _ | Closing => transitions w = true | _ => True end).

(** An event about the only panel, which no listener prevents. *)
Definition lone (x : event * answers) : Prop :=
  no_show (snd x) 0 = false /\ no_hide (snd x) 0 = false /\
  match fst x with Click k => k = 0 | Command i _ | Options i _ | TransitionEnd i => i = 0 end.

Lemma panel_step_refines x ph w :
  lone x -> looks ph w ->
  let '(ph', ns) := spec_step (transitions w) x ph in
  looks ph' (handle x w) /\ notices (handle x w) = notices w ++ map (pair 0) ns /\
  transitions (handle x w) = transitions w.
Proof.
  destruct x as [e a], w as [tr ps os ls no]. intros (Ha & Hb & He) (p & ob & l & Hl). cbn in *.
  destruct p as [i c s ac ow d en], ob as [op pa ts], l as [ta ld co]. cbn in Hl.
  destruct Hl as (-> & -> & -> & -> & -> & -> & -> & -> & Hv & Hs & Ht).
  destruct ph; injection Hv as -> -> ->; try subst tr; destruct e as [k|k [] |k g|k]; subst k;
    try destruct tr; cbn; unfold handle, with_command, with_options, click, show, hide, toggle, open_, transition; cbn;
    rewrite ?Ha, ?Hb; cbn; (split; [|split; [by rewrite ?app_nil_r, <- ?app_assoc|done]]).
  all: by do 3 eexists; repeat (split; [done|]).
Qed.

(** C34. A panel alone on its page, with its object and one link, in no accordion and with
    listeners that prevent nothing, goes through its four phases: from any of them every
    sequence of commands, clicks on its link and ends of its transition leaves it in the
    phase the machine says, with the size of that phase - zero while it is closed or
    closing, the size the browser measured while it opens, none of its own once it is open -
    and triggers exactly the machine's notices; a command during a transition does nothing.
    (A prevented show opens the panel all the same, [prevented_show_opens].) *)
Theorem collapse_refines es ph w :
  looks ph w -> Forall lone es ->
  let '(ph', ns) := spec_run (transitions w) es ph in
  looks ph' (handle_all es w) /\ notices (handle_all es w) = notices w ++ map (pair 0) ns.
Proof.
  intros Hl Hes. revert ph w Hl. induction Hes as [|x es Hx _ IH]; intros ph w Hl.
  - cbn. by rewrite app_nil_r.
  - cbn [spec_run handle_all foldl]. pose proof (panel_step_refines x ph w Hx Hl) as Hs.
    destruct (spec_step _ _ _) as [ph1 ns1]. destruct Hs as (H1 & H2 & H3).
    specialize (IH ph1 (handle x w) H1). rewrite H3 in IH.
    destruct (spec_run _ _ _) as [ph2 ns2]. destruct IH as [I1 I2].
    split; [exact I1|]. unfold handle_all in I2. by rewrite I2, H2, map_app, (assoc_L app).
Qed.

(** * The accordion *)

(** What never changes in a page, and its objects but for their transitions. *)
Definition places_of (w : page) := map (fun p => (accordion p, own p)) (panels w).
Definition links_of (w : page) := map (fun l => (target l, l_data l)) (links w).
Definition owners (w : page) := map (fun ob => (o_panel ob, o_parent ob)) (objects w).

(** A step that keeps what never changes, and makes objects at most. *)
Definition grows (w w' : page) : Prop :=
  places_of w' = places_of w /\ links_of w' = links_of w /\ owners w `prefix_of` owners w'.

#[export] Instance grows_preorder : PreOrder grows.
Proof.
  split; [by intros w|]. intros u v w (A1 & B1 & C1) (A2 & B2 & C2).
  repeat split; [congruence|congruence|exact (transitivity C1 C2)].
Qed.

Lemma grows_panel i f w :
  (forall p, accordion (f p) = accordion p /\ own (f p) = own p) -> grows w (on_panel i f w).
Proof.
  intros H. split; [|by split]. apply (map_alter_same (fun p => (accordion p, own p))).
  intros p. by destruct (H p) as [-> ->].
Qed.

Lemma grows_object o f w :
  (forall ob, o_panel (f ob) = o_panel ob /\ o_parent (f ob) = o_parent ob) ->
  grows w (on_object o f w).
Proof.
  intros H. split; [done|]. split; [done|].
  assert (owners (on_object o f w) = owners w) as ->; [|done].
  apply (map_alter_same (fun ob => (o_panel ob, o_parent ob))). intros p. by destruct (H p) as [-> ->].
Qed.

Lemma grows_notify i n w : grows w (notify i n w).
Proof. done. Qed.

#[local] Hint Resolve grows_panel grows_object grows_notify : core.

(** Chains of the elementary steps. *)
Ltac grow :=
  repeat first
    [ reflexivity
    | match goal with
      | |- grows _ (if ?b then _ else _) => destruct b
      | |- grows _ (match ?x with _ => _ end) => destruct x
      | |- grows _ (on_panel _ _ _) => etransitivity; [|apply grows_panel; done]
      | |- grows _ (on_object _ _ _) => etransitivity; [|apply grows_object; done]
      | |- grows _ (notify _ _ _) => etransitivity; [|apply grows_notify]
      end ].

Lemma grows_complete o b w : grows w (complete o b w).
Proof. unfold complete, reset. cbn zeta. grow. Qed.

Lemma grows_transition a o b w : grows w (transition a o b w).
Proof.
  unfold transition. destruct (objects w !! o); [|done]. cbn zeta.
  destruct (if b then _ else _); [done|]. destruct (_ && _); [grow|].
  etransitivity; [|apply grows_complete]. grow.
Qed.

Lemma grows_hide a o w : grows w (hide a o w).
Proof.
  unfold hide, set_size. destruct (objects w !! o); [|done]. cbn zeta.
  destruct (_ || _); [done|]. etransitivity; [|by apply grows_panel].
  etransitivity; [|apply grows_transition]. by apply grows_panel.
Qed.

Definition opens (w : page) : list bool := map in_ (panels w).
Definition datas (w : page) : list (option nat) := map data (panels w).

Lemma is_in_opens i w : is_in i w = true <-> opens w !! i = Some true.
Proof.
  unfold is_in, opens. rewrite list_lookup_fmap. destruct (panels w !! i) as [p|]; cbn; [|done].
  destruct (in_ p); by split.
Qed.

Lemma data_of_datas i w o : data_of i w = Some o <-> datas w !! i = Some (Some o).
Proof.
  unfold data_of, datas. rewrite list_lookup_fmap. destruct (panels w !! i) as [p|]; cbn; [|done].
  split; congruence.
Qed.

(** What a step leaves: it grows the page, opens no panel, gives no panel an object. *)
Record closes (w w' : page) : Prop := Closes {
  c_grows : grows w w';
  c_opens : forall j, opens w' !! j = Some true -> opens w !! j = Some true;
  c_datas : datas w' = datas w
}.

#[export] Instance closes_preorder : PreOrder closes.
Proof.
  split; [by intros w; split|]. intros u v w [A1 B1 C1] [A2 B2 C2].
  split; [by etransitivity|auto|congruence].
Qed.

Lemma opens_panel i f w :
  (forall p, in_ (f p) = in_ p) -> opens (on_panel i f w) = opens w.
Proof. by apply (map_alter_same in_). Qed.

Lemma datas_panel i f w :
  (forall p, data (f p) = data p) -> datas (on_panel i f w) = datas w.
Proof. by apply (map_alter_same data). Qed.

Lemma set_size_closes i s w : closes w (set_size i s w) /\ opens (set_size i s w) = opens w.
Proof.
  split; [|by apply opens_panel]. split; [by apply grows_panel| |by apply datas_panel].
  intros j. unfold set_size. by rewrite opens_panel.
Qed.

Lemma reset_closes i s w : closes w (reset i s w) /\ opens (reset i s w) = opens w.
Proof.
  unfold reset. cbn zeta. split; [|by apply opens_panel].
  split; [by apply grows_panel| |by apply datas_panel]. intros j. by rewrite opens_panel.
Qed.

Lemma complete_same o b w : opens (complete o b w) = opens w /\ datas (complete o b w) = datas w.
Proof.
  unfold complete. destruct (objects w !! o) as [ob|]; [|done]. cbn zeta. destruct b; [|done].
  split; [exact (proj2 (reset_closes (o_panel ob) None w))|].
  exact (c_datas _ _ (proj1 (reset_closes (o_panel ob) None w))).
Qed.

(** The panel alone changes its class in a transition, if nothing prevents it. *)
Lemma transition_opens a o b w ob :
  objects w !! o = Some ob ->
  datas (transition a o b w) = datas w /\
  opens (transition a o b w) =
    if (if b then no_show a (o_panel ob) else no_hide a (o_panel ob)) then opens w
    else alter (fun _ => b) (o_panel ob) (opens w).
Proof.
  intros Ho. unfold transition. rewrite Ho. cbn zeta.
  destruct (if b then _ else _); [done|].
  set (u := on_panel (o_panel ob) (fun p => p <| in_ := b |>) _).
  assert (Eo : opens u = alter (fun _ => b) (o_panel ob) (opens w)).
  { by apply (map_alter in_ (fun p => p <| in_ := b |>)). }
  assert (Ed : datas u = datas w) by (unfold u; by rewrite datas_panel).
  rewrite <- Eo, <- Ed. destruct (_ && _).
  - split; [by apply datas_panel|by apply opens_panel].
  - by destruct (complete_same o b u).
Qed.

(** [hide] on an object of a panel: unless the object is busy, the panel is closed. *)
Lemma hide_closes a o w :
  closes w (hide a o w) /\
  (forall ob, objects w !! o = Some ob -> no_hide a (o_panel ob) = false ->
     (transitioning ob = true -> is_in (o_panel ob) w = false) ->
     opens (hide a o w) !! o_panel ob ≠ Some true).
Proof.
  unfold hide. destruct (objects w !! o) as [ob|] eqn:Eo; [|by split]. cbn zeta.
  set (i := o_panel ob). destruct (transitioning ob || negb (is_in i w)) eqn:Eb.
  - split; [done|]. intros ? [= <-] _ Ht. fold i. rewrite <- is_in_opens.
    apply not_true_iff_false. apply orb_true_iff in Eb as [Eb|Eb]; [by apply Ht|].
    by apply negb_true_iff in Eb.
  - destruct (reset_closes i (Some (current a i)) w) as [R1 R2].
    set (v := reset i (Some (current a i)) w) in *.
    destruct (transition_opens a o false v ob Eo) as [T1 T2]. fold i in T2.
    set (u := transition a o false v) in *. destruct (set_size_closes i (Px 0) u) as [S1 S2].
    assert (Huv : closes v u).
    { split; [apply grows_transition| |done]. intros j. rewrite T2.
      destruct (no_hide a i); [done|]. rewrite list_lookup_alter.
      case_decide as E; [subst j|done]. by destruct (opens v !! i). }
    split; [by do 2 (etransitivity; [eassumption|])|].
    intros ? [= <-] Hn _. fold i. rewrite S2, T2. fold i in Hn. rewrite Hn, list_lookup_alter_eq.
    by destruct (opens v !! i).
Qed.

(** A new object, before its constructor toggles. *)
Definition with_object (i : nat) (parent : option nat) (w : page) : page :=
  w <| objects ::= fun l => l ++ [Object i parent false] |>.

Lemma with_object_grows i parent w :
  grows w (with_object i parent w) /\
  objects (with_object i parent w) !! length (objects w) = Some (Object i parent false).
Proof.
  split; [|by apply list_lookup_middle]. do 2 (split; [done|]). unfold owners.
  change (objects (with_object i parent w)) with (objects w ++ [Object i parent false]).
  rewrite map_app. by apply prefix_app_r.
Qed.

Lemma owners_lookup o w ob : objects w !! o = Some ob -> owners w !! o = Some (o_panel ob, o_parent ob).
Proof. intros H. unfold owners. by rewrite list_lookup_fmap, H. Qed.

(** [hide_active] closes the panel; only the panel's own object may be new. *)
Lemma hide_active_closes a i w :
  no_hide a i = false ->
  (forall o, data_of i w = Some o ->
     exists ob, objects w !! o = Some ob /\ o_panel ob = i /\
       (transitioning ob = true -> is_in i w = false)) ->
  let w' := hide_active a i w in
  grows w w' /\ (forall j, opens w' !! j = Some true -> opens w !! j = Some true /\ j ≠ i) /\
  (forall j, j ≠ i \/ present (data_of i w) = true -> datas w' !! j = datas w !! j).
Proof.
  intros Hn Hd. cbn zeta. unfold hide_active. destruct (data_of i w) as [o|] eqn:Ed.
  - destruct (Hd o eq_refl) as (ob & Ho & <- & Ht). destruct (hide_closes a o w) as [[G1 G2 G3] H].
    split; [done|]. split; [|by rewrite G3]. intros j Hj. split; [by apply G2|].
    intros ->. by destruct (H ob Ho Hn Ht).
  - unfold create. destruct (panels w !! i) as [p|] eqn:Ep.
    2: { destruct (hide_closes a (length (objects w)) w) as [[G1 G2 G3] _].
         split; [done|]. split; [|by rewrite G3]. intros j Hj%G2. split; [done|]. intros ->.
         unfold opens in Hj. by rewrite list_lookup_fmap, Ep in Hj. }
    cbn zeta. set (o := length (objects w)). set (opt := options p _).
    fold (with_object i (g_parent opt) w). set (u := with_object i (g_parent opt) w).
    destruct (with_object_grows i (g_parent opt) w) as [U1 U2]. fold u o in U1, U2.
    set (v := if default true (g_toggle opt) then hide a o u else u).
    destruct (hide_closes a o u) as [Hc Hu]. specialize (Hu _ U2 Hn ltac:(discriminate)).
    cbn in Hu. assert (Cv : closes u v) by (unfold v; by destruct (default _ _)).
    set (x := on_panel i (fun p => p <| data := Some o |>) v).
    assert (Gx : grows v x) by by apply grows_panel.
    assert (Ox : opens x = opens v) by by apply opens_panel.
    destruct (hide_closes a o x) as [Cx Hx].
    assert (Px : exists ob, objects x !! o = Some ob /\ o_panel ob = i).
    { pose proof (proj2 (proj2 (transitivity (c_grows _ _ Cv) Gx))) as [r Hr].
      pose proof (owners_lookup o u _ U2) as E. apply (lookup_app_l_Some _ r) in E.
      rewrite <- Hr in E. unfold owners in E. rewrite list_lookup_fmap in E.
      destruct (objects x !! o) as [ob|]; [|done]. exists ob. split; [done|]. by injection E. }
    destruct Px as (ob & Po & Pi). rewrite <- Pi in Hn. specialize (Hx ob Po Hn). rewrite Pi in Hx.
    assert (Hf : opens (hide a o x) !! i ≠ Some true).
    { unfold v in *. destruct (default true (g_toggle opt)).
      - intros Hj%(c_opens _ _ Cx). rewrite Ox in Hj. by apply Hu.
      - apply Hx. intros Ht. exfalso. change (objects x) with (objects u) in Po.
        rewrite U2 in Po. by injection Po as <-. }
    split; [|split].
    + transitivity u; [done|]. transitivity v; [apply Cv|]. by transitivity x; [|apply Cx].
    + intros j Hj. split; [|by intros ->]. apply (c_opens _ _ Cx) in Hj. rewrite Ox in Hj.
      by apply (c_opens _ _ Cv) in Hj.
    + intros j [Hj|Hj]; [|done]. rewrite (c_datas _ _ Cx).
      assert (Edx : datas x = alter (fun _ => Some o) i (datas v))
        by by apply (map_alter data (fun p => p <| data := Some o |>)).
      rewrite Edx, list_lookup_alter_ne by done. by rewrite (c_datas _ _ Cv).
Qed.

Section Accordion.
Variable g : nat.

(** Every panel is in the accordion, every link and object knows it, and at most one panel
    is open. *)
Record orderly (w : page) : Prop := Orderly {
  o_places : Forall (fun x => fst x = Some g) (places_of w);
  o_links : Forall (fun x => g_parent (snd x) = Some g) (links_of w);
  o_one : forall i j, opens w !! i = Some true -> opens w !! j = Some true -> i = j;
  o_data : forall i o, datas w !! i = Some (Some o) -> owners w !! o = Some (i, Some g)
}.

Lemma orderly_grows w w' :
  orderly w -> grows w w' ->
  (forall i j, opens w' !! i = Some true -> opens w' !! j = Some true -> i = j) ->
  (forall j o, datas w' !! j = Some (Some o) ->
     datas w !! j = Some (Some o) \/ owners w' !! o = Some (j, Some g)) -> orderly w'.
Proof.
  intros [H1 H2 H3 H4] (G1 & G2 & [r G3]) Ho Hd.
  split; [by rewrite G1|by rewrite G2|done|]. intros i o [H|H]%Hd; [|done].
  rewrite G3. by apply lookup_app_l_Some, H4.
Qed.

Lemma orderly_closes w w' : orderly w -> closes w w' -> orderly w'.
Proof.
  intros H [G1 G2 G3]. apply (orderly_grows w); [done|done| |].
  - intros i j Hi%G2 Hj%G2. by apply (o_one w).
  - intros j o. rewrite G3. by left.
Qed.

Lemma in_accordion w i p : orderly w -> panels w !! i = Some p -> accordion p = Some g.
Proof.
  intros [H _ _ _] Hp. rewrite Forall_forall in H.
  apply (H (accordion p, own p)), list_elem_of_lookup. exists i.
  unfold places_of. by rewrite list_lookup_fmap, Hp.
Qed.

(** The panels to close are the one that is open. *)
Lemma closed_or_one w :
  orderly w ->
  (actives (Some g) w = [] /\ forall j, opens w !! j ≠ Some true) \/
  exists a, actives (Some g) w = [a] /\ opens w !! a = Some true.
Proof.
  intros H. unfold actives. destruct (decide (true ∈ opens w)) as [Ha|Hn].
  - right. apply list_elem_of_lookup in Ha as [a Ha]. exists a. split; [|done].
    apply places_one.
    + apply lookup_lt_Some in Ha. unfold opens in Ha. by rewrite length_map in Ha.
    + intros i p Hp. rewrite (in_accordion w i p H Hp). rewrite bool_decide_true by done. cbn.
      assert (Hi : opens w !! i = Some (in_ p)) by (unfold opens; by rewrite list_lookup_fmap, Hp).
      destruct (in_ p).
      * rewrite (o_one w H i a Hi Ha). by rewrite bool_decide_true.
      * rewrite bool_decide_false; [done|]. intros ->. congruence.
  - left. assert (Hj : forall j, opens w !! j ≠ Some true).
    { intros j Hj. apply Hn, list_elem_of_lookup. by exists j. }
    split; [|done]. set (f := fun p => _). pose proof (places_from f (length (panels w)) 0 (panels w)) as E.
    rewrite decide_False in E by lia. apply E. intros i p Hp. cbn [Nat.add].
    rewrite bool_decide_false by (intros ->; apply lookup_lt_Some in Hp; lia).
    specialize (Hj i). unfold opens in Hj. rewrite list_lookup_fmap, Hp in Hj.
    cbn in Hj. unfold f. destruct (in_ p); [done|apply andb_false_r].
Qed.

Lemma open_orderly a o i w :
  orderly w -> (forall j, opens w !! j ≠ Some true) -> owners w !! o = Some (i, Some g) ->
  grows w (open_ a o i w) /\ orderly (open_ a o i w).
Proof.
  intros H Hn Ho. unfold open_. cbn zeta.
  destruct (set_size_closes i (Px 0) w) as [S1 S2]. set (u := set_size i (Px 0) w) in *.
  assert (Ho' : exists ob, objects u !! o = Some ob /\ o_panel ob = i).
  { unfold owners in Ho. rewrite list_lookup_fmap in Ho. change (objects u) with (objects w).
    destruct (objects w !! o) as [ob|]; [|done]. exists ob. by injection Ho. }
  destruct Ho' as (ob & Ho' & Hi). destruct (transition_opens a o true u ob Ho') as [T1 T2].
  set (v := transition a o true u) in *. rewrite Hi in T2.
  assert (Gv : grows w v) by (transitivity u; [apply S1|apply grows_transition]).
  assert (Ov : forall j, opens v !! j = Some true -> j = i).
  { intros j. rewrite T2, S2. destruct (no_show a i); [by intros ?%Hn|].
    rewrite list_lookup_alter. case_decide; [done|]. by intros ?%Hn. }
  assert (Hv : orderly v).
  { apply (orderly_grows w); [done|done| |].
    - intros j k Hj%Ov Hk%Ov. congruence.
    - intros j o'. rewrite T1, (c_datas _ _ S1). by left. }
  destruct (transitions v); [|done]. destruct (set_size_closes i (Px (scroll a i)) v) as [Z _].
  split; [etransitivity; [exact Gv|apply Z]|by apply (orderly_closes v)].
Qed.

Lemma owner_object o i w :
  owners w !! o = Some (i, Some g) ->
  exists ob, objects w !! o = Some ob /\ o_panel ob = i /\ o_parent ob = Some g.
Proof.
  unfold owners. rewrite list_lookup_fmap. destruct (objects w !! o) as [ob|]; [|done].
  intros [= ? ?]. by exists ob.
Qed.

Definition willing (a : answers) : Prop := forall i, no_hide a i = false.

Lemma show_orderly a o i w :
  willing a -> orderly w -> owners w !! o = Some (i, Some g) ->
  grows w (show a o w) /\ orderly (show a o w).
Proof.
  intros Ha H Ho. destruct (owner_object o i w Ho) as (ob & Eo & Ei & Eg).
  unfold show. rewrite Eo. cbn zeta. rewrite Ei, Eg. destruct (_ || _); [done|].
  destruct (closed_or_one w H) as [[-> Hn]|(b & -> & Hb)]; [by apply open_orderly|].
  destruct (match data_of b w with Some _ => _ | None => _ end) eqn:Eb; [done|].
  cbn [foldl]. destruct (hide_active_closes a b w (Ha b)) as (A1 & A2 & A3).
  { intros o' Hd. pose proof (o_data w H b o' (proj1 (data_of_datas b w o') Hd)) as Hw.
    destruct (owner_object o' b w Hw) as (ob' & E' & Ei' & _). exists ob'. split; [done|].
    split; [done|]. rewrite Hd, E' in Eb. congruence. }
  set (u := hide_active a b w) in *.
  set (v := if present (data_of b w) then u else on_panel b (fun p => p <| data := None |>) u).
  assert (Gv : grows w v).
  { unfold v. destruct (present _); [done|]. transitivity u; [done|by apply grows_panel]. }
  assert (Ov : opens v = opens u) by (unfold v; destruct (present _); [done|by apply opens_panel]).
  assert (Nv : forall j, opens v !! j ≠ Some true).
  { intros j. rewrite Ov. intros Hj. destruct (A2 j Hj) as [Hj' Hne].
    by apply Hne, (o_one w H). }
  assert (Hv : orderly v).
  { apply (orderly_grows w); [done|done|by intros j k Hj; destruct (Nv j)|].
    intros j o' Hj. left. unfold v in Hj. destruct (present (data_of b w)) eqn:Ep.
    - rewrite A3 in Hj by by right. done.
    - assert (Ed : datas (on_panel b (fun p => p <| data := None |>) u)
                   = alter (fun _ => None) b (datas u))
        by by apply (map_alter data (fun p => p <| data := None |>)).
      rewrite Ed, list_lookup_alter in Hj. case_decide as E.
      + by destruct (datas u !! b).
      + rewrite A3 in Hj by (left; congruence). done. }
  assert (Wv : owners v !! o = Some (i, Some g)).
  { destruct Gv as (_ & _ & [r ->]). by apply lookup_app_l_Some. }
  destruct (open_orderly a o i v Hv Nv Wv) as [O1 O2].
  split; [etransitivity; [exact Gv|exact O1]|exact O2].
Qed.

Lemma hide_orderly a o w : orderly w -> grows w (hide a o w) /\ orderly (hide a o w).
Proof.
  intros H. destruct (hide_closes a o w) as [C _]. split; [apply C|by apply (orderly_closes w)].
Qed.

Lemma run_orderly a c o i w :
  willing a -> orderly w -> owners w !! o = Some (i, Some g) ->
  grows w (run a c o w) /\ orderly (run a c o w).
Proof.
  intros Ha H Ho. destruct c; cbn [run].
  - by apply (show_orderly a o i).
  - by apply hide_orderly.
  - unfold toggle. destruct (objects w !! o); [|done].
    destruct (is_in _ _); [by apply hide_orderly|by apply (show_orderly a o i)].
Qed.

(** The constructor on a panel that has no object yet. *)
Lemma create_orderly a i gv w p :
  willing a -> orderly w -> panels w !! i = Some p -> g_parent (options p gv) = Some g ->
  let '(w', o) := create (toggle a) i gv w in
  grows w w' /\ orderly w' /\ owners w' !! o = Some (i, Some g).
Proof.
  intros Ha H Hp Hg. unfold create. rewrite Hp. cbn zeta. set (o := length (objects w)).
  fold (with_object i (g_parent (options p gv)) w). set (u := with_object i _ w).
  destruct (with_object_grows i (g_parent (options p gv)) w) as [U1 U2]. fold u o in U1, U2.
  apply owners_lookup in U2. cbn [o_panel o_parent] in U2. rewrite Hg in U2.
  assert (Hu : orderly u).
  { apply (orderly_grows w); [done|done|apply (o_one w H)|]. intros j o' Hj. by left. }
  set (v := if default true (g_toggle (options p gv)) then toggle a o u else u).
  assert (Hv : grows u v /\ orderly v).
  { unfold v. destruct (default _ _); [|done]. by apply (run_orderly a CToggle o i). }
  destruct Hv as [Gv Hv]. set (x := on_panel i (fun p => p <| data := Some o |>) v).
  assert (Gx : grows v x) by by apply grows_panel.
  assert (Wx : owners x !! o = Some (i, Some g)).
  { destruct (transitivity Gv Gx) as (_ & _ & [r ->]). by apply lookup_app_l_Some. }
  split; [etransitivity; [exact U1|by etransitivity]|]. split; [|done].
  assert (Ex : opens x = opens v) by by apply opens_panel.
  apply (orderly_grows v); [done|done|rewrite Ex; apply (o_one v Hv)|]. intros j o'.
  assert (Ed : datas x = alter (fun _ => Some o) i (datas v))
    by by apply (map_alter data (fun p => p <| data := Some o |>)).
  rewrite Ed, list_lookup_alter. case_decide as E; [subst j|by left].
  destruct (datas v !! i); [|done]. intros [= <-]. by right.
Qed.

(** The calls that name a parent name the accordion; a command alone is for a panel whose
    own data does. *)
Definition suited (ps : list (option nat * given)) (x : event * answers) : Prop :=
  willing (snd x) /\
  match fst x with
  | Options _ gv => g_parent gv = Some g
  | Command i _ => match ps !! i with Some (_, own) => g_parent own = Some g | None => True end
  | Click _ | TransitionEnd _ => True
  end.

Lemma with_command_orderly a i c w :
  willing a -> orderly w ->
  (present (data_of i w) = true \/
   match places_of w !! i with Some (_, own) => g_parent own = Some g | None => True end) ->
  grows w (with_command a i c w) /\ orderly (with_command a i c w).
Proof.
  intros Ha H Hc. unfold with_command. destruct (data_of i w) as [o|] eqn:Ed.
  - apply (run_orderly a c o i); [done|done|]. by apply (o_data w H), data_of_datas.
  - destruct Hc as [|Hc]; [done|]. unfold places_of in Hc. rewrite list_lookup_fmap in Hc.
    destruct (panels w !! i) as [p|] eqn:Ep.
    + pose proof (create_orderly a i (Given None None) w p Ha H Ep Hc) as Hx.
      destruct (create _ _ _ _) as [u o]. destruct Hx as (X1 & X2 & X3).
      destruct (run_orderly a c o i u Ha X2 X3). split; [by etransitivity|done].
    + unfold create. rewrite Ep. assert (E : objects w !! length (objects w) = None)
        by (by apply lookup_ge_None). destruct c; cbn [run]; unfold show, hide, toggle; by rewrite E.
Qed.

Lemma with_options_orderly a i gv w :
  willing a -> orderly w -> g_parent gv = Some g ->
  grows w (with_options a i gv w) /\ orderly (with_options a i gv w).
Proof.
  intros Ha H Hg. unfold with_options. destruct (data_of i w); [done|].
  destruct (panels w !! i) as [p|] eqn:Ep; [|by unfold create; rewrite Ep].
  pose proof (create_orderly a i gv w p Ha H Ep) as Hx. cbn [options g_parent] in Hx. rewrite Hg in Hx.
  specialize (Hx eq_refl). destruct (create _ _ _ _) as [u o]. by destruct Hx as (X1 & X2 & _).
Qed.

Lemma completes_closes l w : closes w (foldl (fun w os => complete (fst os) (snd os) w) w l).
Proof.
  revert w. induction l as [|[o b] l IH]; intros w; [done|]. cbn [foldl].
  etransitivity; [|apply IH]. destruct (complete_same o b w) as [E1 E2].
  split; [apply grows_complete| |done]. intros j. cbn [fst snd]. by rewrite E1.
Qed.

Lemma handle_orderly x w :
  orderly w -> suited (places_of w) x -> grows w (handle x w) /\ orderly (handle x w).
Proof.
  intros H [Ha He]. destruct x as [[k|i c|i gv|i] a]; cbn [fst snd handle] in *.
  - unfold click. destruct (links w !! k) as [l|] eqn:El; [|done]. cbn zeta.
    set (u := w <| links ::= _ |>).
    assert (Lu : links_of u = links_of w) by by apply (map_alter_same (fun l => (target l, l_data l))).
    assert (Gu : grows w u) by done.
    assert (Hu : orderly u).
    { apply (orderly_grows w); [done|done|apply (o_one w H)|]. intros j o Hj. by left. }
    change (data_of (target l) w) with (data_of (target l) u).
    destruct (present (data_of (target l) u)) eqn:Ep.
    + destruct (with_command_orderly a (target l) CToggle u Ha Hu) as [R1 R2]; [by left|].
      split; [by etransitivity|done].
    + assert (Hg : g_parent (l_data l) = Some g).
      { pose proof (o_links w H) as Hl. rewrite Forall_forall in Hl.
        apply (Hl (target l, l_data l)), list_elem_of_lookup. exists k.
        unfold links_of. by rewrite list_lookup_fmap, El. }
      destruct (with_options_orderly a (target l) (l_data l) u Ha Hu Hg) as [R1 R2].
      split; [by etransitivity|done].
  - apply with_command_orderly; [done|done|by right].
  - by apply with_options_orderly.
  - destruct (panels w !! i) as [p|]; [|done].
    set (u := on_panel i (fun p => p <| ends := [] |>) w).
    assert (Cu : closes w u).
    { split; [by apply grows_panel| |by apply datas_panel]. intros j. unfold u. by rewrite opens_panel. }
    pose proof (transitivity Cu (completes_closes (ends p) u)) as C.
    split; [apply C|by apply (orderly_closes w)].
Qed.
End Accordion.

(** In an accordion whose links, calls and panels name it as the parent, as long as no
    listener prevents 'hide', at most one panel is open after any sequence of clicks,
    commands and ends of transitions. *)
Theorem accordion_one_open g w es :
  orderly g w -> Forall (suited g (places_of w)) es ->
  forall i j, is_in i (handle_all es w) = true -> is_in j (handle_all es w) = true -> i = j.
Proof.
  intros H Hes i j. rewrite !is_in_opens. revert i j. apply (o_one g).
  remember (places_of w) as ps eqn:Eps. revert w H Eps.
  induction Hes as [|x es Hx _ IH]; intros w H ->; [done|].
  destruct (handle_orderly g x w H Hx) as [G Hw]. cbn [handle_all foldl].
  apply IH; [exact Hw|]. symmetry. apply G.
Qed.

(** * Examples *)

Definition ok : answers :=
  Answers (fun _ => false) (fun _ => false) (fun _ => 120) (fun _ => 120).

Definition no_shows : answers := Answers (fun _ => true) (fun _ => false) (fun _ => 120) (fun _ => 120).
Definition no_hides : answers := Answers (fun _ => false) (fun _ => true) (fun _ => 120) (fun _ => 120).

Definition folded (acc : option nat) (d : option nat) : panel :=
  Panel false true (Px 0) acc (Given None None) d [].

(** A panel, its object and its link. *)
Definition lone_page (tr : bool) : page :=
  Page tr [folded None (Some 0)] [Object 0 None false] [Link 0 (Given None (Some true)) true] [].

Lemma lone_page_looks tr : looks Closed (lone_page tr).
Proof. by do 3 eexists; repeat (split; [reflexivity|]). Qed.

(** Half way the panel has the measured size; at the end it is closed again. *)
Lemma collapse_refines_witness :
  let es := [(Click 0, ok); (Command 0 CHide, ok)] in
  let fs := [(TransitionEnd 0, ok); (Command 0 CToggle, ok); (TransitionEnd 0, ok)] in
  looks (Opening 120) (handle_all es (lone_page true)) /\
  notices (handle_all (es ++ fs) (lone_page true))
  = [(0, NShow); (0, NShown); (0, NHide); (0, NHidden)].
Proof.
  intros es fs. split.
  - exact (proj1 (collapse_refines es Closed (lone_page true) (lone_page_looks true)
                    (ltac:(repeat constructor)))).
  - exact (proj2 (collapse_refines (es ++ fs) Closed (lone_page true) (lone_page_looks true)
                    (ltac:(repeat constructor)))).
Defined.

(** Three panels of the accordion 7, the first one open, and their links. *)
Definition faq : page :=
  let l i := Link i (Given (Some 7) (Some true)) (negb (Nat.eqb i 0)) in
  Page true [(folded (Some 7) None) <| in_ := true |> <| size_ := Auto |>; folded (Some 7) None; folded (Some 7) None]
    [] [l 0; l 1; l 2] [].

Definition reader : list (event * answers) :=
  [(Click 1, ok); (Click 2, ok); (TransitionEnd 0, ok); (TransitionEnd 1, no_shows); (Click 2, ok);
   (Options 0 (Given (Some 7) None), ok)].

Lemma accordion_one_open_witness :
  let w := handle_all reader faq in
  map in_ (panels w) = [false; false; true] /\
  forall i j, is_in i w = true -> is_in j w = true -> i = j.
Proof.
  split; [vm_compute; reflexivity|]. apply (accordion_one_open 7).
  - split.
    + apply (bool_decide_unpack _). vm_compute. exact I.
    + apply (bool_decide_unpack _). vm_compute. exact I.
    + intros [|[|[|i]]] [|[|[|j]]]; vm_compute; intros; congruence.
    + intros [|[|[|i]]] o; discriminate.
  - repeat constructor.
Defined.

(** A listener that prevents 'show' does not keep the panel shut where there are
    transitions: it gets its full height, without the class in. *)
Example prevented_show_opens :
  let w := handle (Click 0, no_shows) (lone_page true) in
  map (fun p => (in_ p, size_ p)) (panels w) = [(false, Px 120)].
Proof. vm_compute. reflexivity. Qed.

(** One that prevents 'hide' does not keep it open: it loses its height, with the class in. *)
Example prevented_hide_closes :
  let w := handle_all [(Click 0, ok); (TransitionEnd 0, ok); (Click 0, no_hides)] (lone_page true) in
  map (fun p => (in_ p, size_ p)) (panels w) = [(true, Px 0)].
Proof. vm_compute. reflexivity. Qed.

(** A second click during the transition does nothing to the panel but marks the link as
    that of a closed panel... *)
Example hasty_link_lies :
  let w := handle_all [(Click 0, ok); (Click 0, ok); (TransitionEnd 0, ok)] (lone_page true) in
  (map in_ (panels w), map collapsed (links w)) = ([true], [true]).
Proof. vm_compute. reflexivity. Qed.

(** ... and the link of a panel that the accordion closes keeps the mark of an open one. *)
Example closed_panel_link :
  let w := handle_all [(Click 1, ok); (TransitionEnd 0, ok); (TransitionEnd 1, ok)] faq in
  (map in_ (panels w), map collapsed (links w)) = ([false; true; false], [false; false; true]).
Proof. vm_compute. reflexivity. Qed.

(** A panel that never had an object loses the one made to close it while it closes: shown
    again before it has finished, it is announced as hidden, though it is open. *)
Example forgotten_object :
  let w := handle_all [(Click 1, ok); (TransitionEnd 1, ok); (Click 0, ok); (TransitionEnd 0, ok)] faq in
  (map in_ (panels w), List.filter (fun x => Nat.eqb (fst x) 0) (notices w))
  = ([true; false; false], [(0, NHide); (0, NShow); (0, NHidden); (0, NShown)]).
Proof. vm_compute. reflexivity. Qed.
