(* ===== verification/Selectors.v ===== *)
(** Selectors: what Bootstrap's plugins make of a link's address to find the element it is
    about (fuelux/dist/all.js: the replacement "strip for ie7" of bootstrap-alert.js and
    bootstrap-dropdown.js). *)

From S2P Require Import Prelude.
From S2P Require Import Numbers.

(** What [.] does not match. *)
Definition line_end (c : N) : bool := bool_decide (c ∈ [10; 13; 8232; 8233]%N).

(** Up to and with the last end of a line. *)
Definition whole_lines (s : jstr) : jstr :=
  foldr (fun c r => if line_end c || truthy r then c :: r else []) [] s.

Definition hash : N := 35.

(** [selector.replace(/.*(?=#[^\s]*$)/, '')]: the last # decides, if no white space
    follows it. *)
Definition strip (s : jstr) : jstr :=
  match last_index_of hash s with
  | Some i => if existsb js_space (drop i s) then s else whole_lines (take i s) ++ drop i s
  | None => s
  end.

(** * Lemmas *)

Lemma whole_lines_none s : Forall (fun c => line_end c = false) s -> whole_lines s = [].
Proof.
  induction 1 as [|c s Hc _ IH]; [done|]. unfold whole_lines in *. cbn. by rewrite IH, Hc.
Qed.

(** The address of a place in any page selects the element of that name: everything before
    the # is dropped, unless white space follows it. *)
Theorem strip_address address id :
  Forall (fun c => line_end c = false) address -> hash ∉ id ->
  strip (address ++ hash :: id)
  = if existsb js_space id then address ++ hash :: id else hash :: id.
Proof.
  intros Ha Hi. unfold strip. rewrite last_index_of_app by done. rewrite drop_app_length.
  cbn [existsb]. change (js_space hash) with false. cbn [orb].
  destruct (existsb js_space id); [done|]. by rewrite take_app_length, whole_lines_none.
Qed.

Lemma strip_address_witness :
  strip (js "http://host/page.html#menu") = js "#menu" /\
  strip (js "page#a menu") = js "page#a menu".
Proof.
  split.
  - apply (strip_address (js "http://host/page.html") (js "menu")).
    + apply (bool_decide_unpack _). vm_compute. exact I.
    + apply (bool_decide_unpack _). vm_compute. exact I.
  - apply (strip_address (js "page") (js "a menu")).
    + apply (bool_decide_unpack _). vm_compute. exact I.
    + apply (bool_decide_unpack _). vm_compute. exact I.
Defined.
