(* ===== verification/Dropdown.v ===== *)
(** Dropdown: Bootstrap's dropdown menus as the Fuel UX bundle carries them
    (fuelux/dist/all.js, bootstrap-dropdown.js).

    Elements have numbers.  The page knows its toggles, which elements have the class open,
    the visible items of an open menu, the backdrops and where the focus is; what a
    selector finds in the document is an argument of the page. *)

From S2P Require Import Prelude.
From S2P Require Import Selectors.
From coqutil Require Import Datatypes.RecordSettersUsingExistingGetters.

Record toggle_el := Toggle {
  disabled : bool;
  data_target : option jstr;
  href : option jstr;
  parent : nat;
  made : bool                      (* the plugin has been called on it *)
}.

Inductive focus_on := FToggle (t : nat) | FItem (x : nat) | FMenu (p : nat) | Elsewhere.

Record page := Page {
  find : jstr -> list nat;         (* $(selector) *)
  items : nat -> list nat;         (* the links of the open menus inside an element *)
  touch : bool;                    (* 'ontouchstart' in document.documentElement *)
  toggles : list toggle_el;
  opened : gset nat;               (* the elements with the class open *)
  backdrops : nat;
  focused : focus_on
}.

(** [getParent] of an element with these attributes and this parent. *)
Definition getParent (w : page) (target link : option jstr) (up : nat) : list nat :=
  let target := default [] target in
  let selector :=
    if truthy target then target
    else let link := default [] link in if has_char hash link then strip link else [] in
  if truthy selector then
    match find w selector with [] => [up] | l => l end
  else [up].

Definition parents (w : page) (t : toggle_el) : list nat :=
  getParent w (data_target t) (href t) (parent t).

(** The elements [clearMenus] closes. *)
Definition owned (w : page) : gset nat := list_to_set (concat (map (parents w) (toggles w))).

Definition clearMenus (w : page) : page :=
  w <| backdrops := 0 |> <| opened := opened w ∖ owned w |>.

Definition is_open (l : list nat) (w : page) : bool := existsb (fun p => bool_decide (p ∈ opened w)) l.

(** [toggleClass('open')] on each element. *)
Definition flip (w : page) (l : list nat) : page :=
  foldl (fun w p => w <| opened ::= fun s => if decide (p ∈ s) then s ∖ {[p]} else {[p]} ∪ s |>) w l.

(** [Dropdown.prototype.toggle], and whether it returns false. *)
Definition toggle (i : nat) (t : toggle_el) (w : page) : page * bool :=
  if disabled t then (w, false)
  else
    let ps := parents w t in
    let isActive := is_open ps w in
    let w := clearMenus w in
    let w := if isActive then w
             else flip (if touch w then w <| backdrops ::= S |> else w) ps in
    (w <| focused := FToggle i |>, true).

(** The handlers on the root element that the constructors have bound. *)
Definition close_made (w : page) : page :=
  foldl (fun w t => if made t then w <| opened ::= fun s => s ∖ {[parent t]} |> else w) w (toggles w).

(** A click outside, or one that nobody stops. *)
Definition click_elsewhere (w : page) : page := clearMenus (close_made w).

Definition click (i : nat) (w : page) : page :=
  match toggles w !! i with
  | None => w
  | Some t =>
      (* the element's own handler, else the document's *)
      if made t then
        let '(w, stopped) := toggle i t w in
        if stopped then w
        else
          let '(w, stopped) := toggle i t (close_made w) in if stopped then w else clearMenus w
      else
        let '(w, stopped) := toggle i t (close_made w) in if stopped then w else clearMenus w
  end.

(** Where a key goes: a toggle, or the menu of an element. *)
Inductive key_target := KToggle (i : nat) | KMenu (p : nat).

(** [/(38|40|27)/.test(e.keyCode)]: anywhere in the number. *)
Definition handled (keyCode : N) : bool :=
  let s := js_of_N keyCode in
  contains (js "38") s || contains (js "40") s || contains (js "27") s.

(** The place of the focused item, -1 for none. *)
Definition index_in (l : list nat) (f : focus_on) : Z :=
  match f with
  | FItem x => match list_find (eq x) l with Some (i, _) => Z.of_nat i | None => -1 end
  | _ => -1
  end.

(** The three lines that move the index. *)
Definition next_index (keyCode : N) (n : nat) (index : Z) : Z :=
  (let index := if bool_decide (keyCode = 38)%N && (0 <? index) then index - 1 else index in
   let index := if bool_decide (keyCode = 40)%N && (index <? Z.of_nat n - 1) then index + 1 else index in
   if index =? -1 then 0 else index)%Z.

(** [$parent.find(toggle).focus()]: the last one keeps the focus. *)
Definition focus_toggle (ps : list nat) (w : page) : page :=
  foldl (fun w i => w <| focused := FToggle i |>) w
    (places (fun t => bool_decide (parent t ∈ ps)) (toggles w)).

Definition keydown (at_ : key_target) (keyCode : N) (w : page) : page :=
  if negb (handled keyCode) then w
  else
    let t := match at_ with KToggle i => toggles w !! i | KMenu _ => None end in
    if match t with Some t => disabled t | None => false end then w
    else
      let ps := match at_, t with
                | KToggle _, Some t => parents w t
                | KToggle _, None => []
                | KMenu p, _ => [p]
                end in
      let isActive := is_open ps w in
      if negb isActive || bool_decide (keyCode = 27)%N then
        let w := if bool_decide (keyCode = 27)%N then focus_toggle ps w else w in
        match at_ with KToggle i => click i w | KMenu _ => click_elsewhere w end
      else
        let l := concat (map (items w) ps) in
        if bool_decide (l = []) then w
        else
          let index := next_index keyCode (length l) (index_in l (focused w)) in
          match l !! Z.to_nat index with
          | Some x => w <| focused := FItem x |>
          | None => w
          end.

Inductive command := CNew | CToggle.

Inductive event :=
  | Click (i : nat) | Elsewhere_ | InForm | Backdrop | Key (at_ : key_target) (keyCode : N)
  | Plugin (i : nat) (c : command).

Definition set_made (i : nat) (w : page) : page :=
  w <| toggles ::= alter (fun t => t <| made := true |>) i |>.

Definition handle (e : event) (w : page) : page :=
  match e with
  | Click i => click i w
  | Elsewhere_ => click_elsewhere w
  | InForm => close_made w
  | Backdrop => if Nat.eqb (backdrops w) 0 then w else click_elsewhere (clearMenus w)
  | Key k c => keydown k c w
  | Plugin i CNew => set_made i w
  | Plugin i CToggle =>
      let w := set_made i w in
      match toggles w !! i with Some t => fst (toggle i t w) | None => w end
  end.

Definition handle_all (es : list event) (w : page) : page := foldl (fun w e => handle e w) w es.
