(* ===== verification/DropdownFacts.v ===== *)
(** DropdownFacts: one menu at a time, and the keys that walk through it. *)

From S2P Require Import Prelude.
From S2P Require Import Selectors.
From S2P Require Import Dropdown.
From coqutil Require Import Datatypes.RecordSettersUsingExistingGetters.

(** * One menu at a time *)

(** What a toggle's attributes say; nothing changes them. *)
Definition look (t : toggle_el) := (data_target t, href t, parent t).

Definition same_page (w w' : page) : Prop :=
  find w' = find w /\ touch w' = touch w /\ items w' = items w /\
  map look (toggles w') = map look (toggles w).

#[export] Instance same_page_preorder : PreOrder same_page.
Proof. split; [done|]. intros u v w (A & B & C & D) (A' & B' & C' & D'). repeat split; congruence. Qed.

(** The elements of one toggle, as its attributes give them. *)
Definition parents_of (f : jstr -> list nat) (x : option jstr * option jstr * nat) : list nat :=
  getParent (Page f (fun _ => []) false [] ∅ 0 Elsewhere) x.1.1 x.1.2 x.2.

Lemma parents_look w t : parents w t = parents_of (find w) (look t).
Proof. done. Qed.

Lemma owned_look w : owned w = list_to_set (concat (map (parents_of (find w)) (map look (toggles w)))).
Proof.
  unfold owned. rewrite map_map. do 2 f_equal.
Qed.

Lemma same_page_owned w w' : same_page w w' -> owned w' = owned w.
Proof. intros (A & _ & _ & D). by rewrite !owned_look, A, D. Qed.

(** Open elements that toggles own all belong to one toggle. *)
Definition one_menu (w : page) : Prop :=
  forall x y, x ∈ opened w ∩ owned w -> y ∈ opened w ∩ owned w ->
    exists a, a ∈ map look (toggles w) /\ x ∈ parents_of (find w) a /\ y ∈ parents_of (find w) a.

(** At most one backdrop, and only where there is touch. *)
Definition backdrops_fit (w : page) : Prop :=
  backdrops w <= (if touch w then 1 else 0).

Definition fine (w : page) : Prop := one_menu w /\ backdrops_fit w.

(** A step in the same page that opens no menu and adds no backdrop. *)
Definition calms (w w' : page) : Prop :=
  same_page w w' /\ opened w' ⊆ opened w /\ backdrops w' <= backdrops w.

#[export] Instance calms_preorder : PreOrder calms.
Proof.
  split; [done|]. intros u v w (A & B & C) (A' & B' & C').
  split; [by etransitivity|]. split; [set_solver|lia].
Qed.

Lemma calms_fine w w' : calms w w' -> fine w -> fine w'.
Proof.
  intros (A & B & C) [H1 H2]. pose proof (same_page_owned w w' A) as E.
  destruct A as (A1 & A2 & A3 & A4). split.
  - intros x y Hx Hy. rewrite E in Hx, Hy. rewrite A1, A4. apply H1; set_solver.
  - unfold backdrops_fit in *. rewrite A2. lia.
Qed.

Lemma calms_clear w : calms w (clearMenus w).
Proof.
  split; [done|]. split; [cbn; set_solver|]. change (0 <= backdrops w). lia.
Qed.

Lemma clear_none w : opened (clearMenus w) ∩ owned (clearMenus w) = ∅.
Proof.
  rewrite (same_page_owned w) by apply calms_clear. cbn. set_solver.
Qed.

Lemma calms_close_made w : calms w (close_made w).
Proof.
  unfold close_made. generalize (toggles w). intros l. revert w.
  induction l as [|t l IH]; intros w; [done|]. cbn [foldl]. destruct (made t); [|apply IH].
  etransitivity; [|apply IH]. split; [done|]. split; [cbn; set_solver|cbn; lia].
Qed.

Lemma flip_opened l w :
  let w' := flip w l in
  same_page w w' /\ backdrops w' = backdrops w /\ opened w' ⊆ opened w ∪ list_to_set l.
Proof.
  revert w. induction l as [|p l IH]; intros w; [cbn; repeat split; set_solver|].
  cbn [flip foldl]. set (u := w <| opened ::= _ |>). destruct (IH u) as (A & B & C).
  split; [by transitivity u|]. split; [done|]. cbn in C. case_decide; cbn; set_solver.
Qed.

Lemma toggle_fine i t w :
  t ∈ toggles w -> fine w -> same_page w (fst (toggle i t w)) /\ fine (fst (toggle i t w)).
Proof.
  intros Ht Hw. unfold toggle. destruct (disabled t); [done|]. cbn zeta.
  set (ps := parents w t). set (w1 := clearMenus w).
  assert (H1 : calms w w1) by apply calms_clear. pose proof (clear_none w) as Hn. fold w1 in Hn.
  destruct (is_open ps w); cbn [fst].
  - assert (Hc : calms w (w1 <| focused := FToggle i |>)) by exact H1.
    split; [apply Hc|by apply (calms_fine w)].
  - set (w2 := if touch w1 then w1 <| backdrops ::= S |> else w1).
    assert (S2 : same_page w w2) by (unfold w2; by destruct (touch w1)).
    assert (O2 : opened w2 = opened w1) by (unfold w2; by destruct (touch w1)).
    assert (B2 : backdrops w2 <= (if touch w then 1 else 0)).
    { unfold w2. change (touch w1) with (touch w).
      destruct (touch w); [change (1 <= 1)|change (0 <= 0)]; lia. }
    destruct (flip_opened ps w2) as (A & B & C).
    set (w3 := (flip w2 ps) <| focused := FToggle i |>).
    assert (S3 : same_page w w3) by (transitivity w2; [done|exact A]).
    split; [exact S3|]. split.
    + assert (Hin : forall x, x ∈ opened w3 ∩ owned w3 -> x ∈ ps).
      { intros x Hx. rewrite (same_page_owned w) in Hx by done.
        rewrite (same_page_owned w) in Hn by apply H1. change (opened w3) with (opened (flip w2 ps)) in Hx.
        rewrite O2 in C. set_solver. }
      intros x y Hx%Hin Hy%Hin. exists (look t). destruct S3 as (E1 & _ & _ & E4).
      rewrite E1, E4. split; [|done]. apply list_elem_of_fmap. by exists t.
    + unfold backdrops_fit. change (backdrops w3) with (backdrops (flip w2 ps)).
      destruct S3 as (_ & E & _). by rewrite B, E.
Qed.

Lemma elsewhere_calms w : calms w (click_elsewhere w).
Proof. unfold click_elsewhere. etransitivity; [apply calms_close_made|apply calms_clear]. Qed.

(** Looking up the toggle of a page that has only changed its classes. *)
Lemma close_made_toggles w : toggles (close_made w) = toggles w.
Proof.
  unfold close_made. generalize (toggles w) at 1. intros l. revert w.
  induction l as [|t l IH]; intros w; [done|]. cbn [foldl]. destruct (made t); [|apply IH].
  by rewrite IH.
Qed.

(** A step in the same page that keeps one menu. *)
Definition keeps (w w' : page) : Prop := same_page w w' /\ (fine w -> fine w').

#[export] Instance keeps_preorder : PreOrder keeps.
Proof.
  split; [done|]. intros u v w [A B] [A' B']. split; [by etransitivity|auto].
Qed.

Lemma calms_keeps w w' : calms w w' -> keeps w w'.
Proof. intros H. split; [apply H|by apply calms_fine]. Qed.

Lemma flip_page l w : same_page w (flip w l).
Proof. apply (flip_opened l w). Qed.

Lemma toggle_page i t w : same_page w (fst (toggle i t w)).
Proof.
  unfold toggle. destruct (disabled t); [done|]. cbn zeta. set (w1 := clearMenus w).
  assert (H1 : same_page w w1) by done. destruct (is_open _ _); [done|]. cbn [fst].
  set (w2 := if touch w1 then _ else _). assert (H2 : same_page w w2) by (unfold w2; by destruct (touch w1)).
  transitivity w2; [done|]. apply (flip_page (parents w t) w2).
Qed.

Lemma toggle_keeps i t w : t ∈ toggles w -> keeps w (fst (toggle i t w)).
Proof. intros Ht. split; [apply toggle_page|]. intros H. by apply toggle_fine. Qed.

Lemma document_click_keeps i t w :
  t ∈ toggles w ->
  keeps w (let '(w, stopped) := toggle i t (close_made w) in if stopped then w else clearMenus w).
Proof.
  intros Ht. transitivity (close_made w); [apply calms_keeps, calms_close_made|].
  rewrite <- close_made_toggles in Ht. pose proof (toggle_keeps i t _ Ht) as H.
  destruct (toggle i t (close_made w)) as [u []]; [exact H|].
  etransitivity; [exact H|]. apply calms_keeps, calms_clear.
Qed.

Lemma click_keeps i w : keeps w (click i w).
Proof.
  unfold click. destruct (toggles w !! i) as [t|] eqn:Et; [|done].
  apply list_elem_of_lookup_2 in Et. destruct (made t); [|by apply document_click_keeps].
  pose proof (toggle_keeps i t w Et) as H. destruct (toggle i t w) as [u stopped] eqn:Eu.
  destruct stopped; [exact H|]. cbn [fst] in H. assert (u = w) as ->.
  { unfold toggle in Eu. destruct (disabled t); [by injection Eu|]. cbn zeta in Eu. by destruct (is_open _ _). }
  by apply document_click_keeps.
Qed.

Lemma focus_toggle_calms ps w : calms w (focus_toggle ps w).
Proof.
  unfold focus_toggle. generalize (places (fun t => bool_decide (parent t ∈ ps)) (toggles w)).
  intros l. revert w. induction l as [|i l IH]; intros w; [done|]. cbn [foldl].
  etransitivity; [|apply IH]. done.
Qed.

Lemma keydown_keeps k c w : keeps w (keydown k c w).
Proof.
  unfold keydown. destruct (negb (handled c)); [done|]. cbn zeta.
  destruct (match _ with Some t => disabled t | None => false end); [done|].
  set (ps := match k with KToggle _ => _ | KMenu p => [p] end).
  destruct (negb (is_open ps w) || _).
  - set (u := if bool_decide (c = 27)%N then focus_toggle ps w else w).
    transitivity u.
    { apply calms_keeps. unfold u. destruct (bool_decide _); [apply focus_toggle_calms|done]. }
    destruct k; [apply click_keeps|]. apply calms_keeps, elsewhere_calms.
  - destruct (bool_decide _); [done|]. by destruct (_ !! _).
Qed.

Lemma set_made_page i w : same_page w (set_made i w).
Proof.
  split; [done|]. split; [done|]. split; [done|].
  by apply (map_alter_same look (fun t => t <| made := true |>)).
Qed.

Lemma set_made_keeps i w : keeps w (set_made i w).
Proof. apply calms_keeps. split; [apply set_made_page|done]. Qed.

Lemma handle_keeps e w : keeps w (handle e w).
Proof.
  destruct e as [i| | | |k c|i []]; cbn [handle].
  - apply click_keeps.
  - apply calms_keeps, elsewhere_calms.
  - apply calms_keeps, calms_close_made.
  - destruct (Nat.eqb _ _); [done|]. apply calms_keeps.
    etransitivity; [apply calms_clear|apply elsewhere_calms].
  - apply keydown_keeps.
  - apply set_made_keeps.
  - etransitivity; [apply set_made_keeps|].
    destruct (toggles (set_made i w) !! i) as [t|] eqn:Et; [|done].
    apply toggle_keeps. by apply list_elem_of_lookup_2 in Et.
Qed.

Lemma events_keep es w : keeps w (handle_all es w).
Proof.
  revert w. induction es as [|e es IH]; intros w; [done|]. etransitivity; [apply handle_keeps|apply IH].
Qed.

(** Among the elements that the toggles of a page open, those open at a time belong to
    one toggle, whatever is clicked, typed or called in whatever order; there is at most
    one backdrop, none without touch; and a click elsewhere leaves no menu open and no
    backdrop. *)
Theorem one_menu_at_a_time es w :
  opened w ∩ owned w = ∅ -> backdrops w = 0 ->
  let w' := handle_all es w in
  (forall x y, x ∈ opened w' ∩ owned w -> y ∈ opened w' ∩ owned w ->
     exists t, t ∈ toggles w /\ x ∈ parents w t /\ y ∈ parents w t) /\
  backdrops w' <= (if touch w then 1 else 0) /\
  let w'' := handle Elsewhere_ w' in opened w'' ∩ owned w = ∅ /\ backdrops w'' = 0.
Proof.
  intros Ho Hb. cbn zeta. destruct (events_keep es w) as [Hs Hk].
  destruct Hk as [K1 K2].
  { split; [intros x y Hx; set_solver|]. unfold backdrops_fit. rewrite Hb. lia. }
  set (w' := handle_all es w) in *. pose proof (same_page_owned w w' Hs) as Eo.
  destruct Hs as (E1 & E2 & E3 & E4). split; [|split].
  - intros x y Hx Hy. rewrite <- Eo in Hx, Hy. destruct (K1 x y Hx Hy) as (a & Ha & Hx' & Hy').
    rewrite E4 in Ha. apply list_elem_of_fmap in Ha as (t & -> & Ht). exists t.
    rewrite !parents_look, <- E1. done.
  - unfold backdrops_fit in K2. by rewrite E2 in K2.
  - split; [|done]. rewrite <- Eo. cbn [handle]. unfold click_elsewhere.
    pose proof (clear_none (close_made w')) as Hn. rewrite (same_page_owned w') in Hn; [done|].
    etransitivity; [apply calms_close_made|apply calms_clear].
Qed.

(** * The keys *)

Inductive arrow := Up | Down.

Definition code (k : arrow) : N := match k with Up => 38 | Down => 40 end.

(** The item the keys reach: the first key the first item, then one step at a time,
    stopping at the ends. *)
Definition walk (n : nat) (at_ : option nat) (k : arrow) : option nat :=
  Some (match at_, k with
        | None, _ => 0
        | Some i, Up => i - 1
        | Some i, Down => if decide (S i < n) then S i else i
        end).

Definition focus_at (l : list nat) (at_ : option nat) (f : focus_on) : Prop :=
  match at_ with
  | Some i => exists x, l !! i = Some x /\ f = FItem x
  | None => forall x, f = FItem x -> x ∉ l
  end.

Lemma index_in_at l at_ f :
  NoDup l -> focus_at l at_ f ->
  index_in l f = match at_ with Some i => Z.of_nat i | None => -1 end%Z.
Proof.
  intros Hl. destruct at_ as [i|]; cbn [focus_at].
  - intros (x & Hx & ->). cbn [index_in].
    assert (list_find (eq x) l = Some (i, x)) as ->; [|done].
    apply list_find_Some. split; [done|]. split; [done|]. intros j y Hy Hj ->.
    assert (j = i) by by eapply NoDup_lookup. lia.
  - intros H. destruct f as [|x| |]; try done. cbn [index_in].
    assert (list_find (eq x) l = None) as ->; [|done].
    apply list_find_None, Forall_forall. intros y Hy <-. by apply (H x).
Qed.

Lemma next_index_walk n at_ k :
  0 < n -> (forall i, at_ = Some i -> i < n) ->
  next_index (code k) n (match at_ with Some i => Z.of_nat i | None => -1 end)
  = match walk n at_ k with Some i => Z.of_nat i | None => -1 end%Z.
Proof.
  intros Hn Hi. unfold next_index, walk. destruct k; cbn [code].
  - change (bool_decide (38 = 38)%N) with true. change (bool_decide (38 = 40)%N) with false.
    cbn [andb]. destruct at_ as [i|]; [|done]. destruct (Z.ltb_spec 0 (Z.of_nat i)).
    + rewrite (proj2 (Z.eqb_neq _ _)) by lia. lia.
    + rewrite (proj2 (Z.eqb_neq _ _)) by lia. lia.
  - change (bool_decide (40 = 38)%N) with false. change (bool_decide (40 = 40)%N) with true.
    cbn [andb]. destruct at_ as [i|].
    + specialize (Hi i eq_refl). destruct (Z.ltb_spec (Z.of_nat i) (Z.of_nat n - 1));
        rewrite (proj2 (Z.eqb_neq _ _)) by lia; case_decide; lia.
    + destruct (Z.ltb_spec (-1) (Z.of_nat n - 1)); [done|lia].
Qed.

Lemma walk_bound n at_ k i : 0 < n -> (forall j, at_ = Some j -> j < n) -> walk n at_ k = Some i -> i < n.
Proof.
  intros Hn H. unfold walk. intros [= <-]. destruct at_ as [j|]; [|done].
  specialize (H j eq_refl). destruct k; [lia|]. case_decide; lia.
Qed.

(** With its menu open, the arrow keys of a menu only move the focus: from the item with
    the place [at_], if one has it, to the one that [walk] says, so that the focus stays
    in the menu from the first key on. *)
Theorem arrows_walk p ks at_ w :
  p ∈ opened w -> NoDup (items w p) -> items w p ≠ [] ->
  focus_at (items w p) at_ (focused w) ->
  let w' := handle_all (map (fun k => Key (KMenu p) (code k)) ks) w in
  focus_at (items w p) (foldl (walk (length (items w p))) at_ ks) (focused w') /\
  opened w' = opened w /\ backdrops w' = backdrops w.
Proof.
  cbn zeta. revert at_ w. induction ks as [|k ks IH]; intros at_ w Hp Hl Hn Hf; [done|].
  set (l := items w p) in *. assert (H0 : 0 < length l) by (destruct l; [done|cbn; lia]).
  assert (Hb : forall i, at_ = Some i -> i < length l).
  { intros i ->. destruct Hf as (x & Hx & _). by apply lookup_lt_Some in Hx. }
  assert (Hw : is_Some (walk (length l) at_ k)) by by eexists.
  destruct Hw as [i Hi]. pose proof (walk_bound _ _ _ _ H0 Hb Hi) as Hlt.
  destruct (lookup_lt_is_Some_2 l i Hlt) as [x Hx].
  assert (E : keydown (KMenu p) (code k) w = w <| focused := FItem x |>).
  { unfold keydown. assert (handled (code k) = true) as -> by by destruct k. cbn [negb].
    cbn zeta. unfold is_open. cbn [existsb]. rewrite bool_decide_true by done. cbn [negb orb].
    rewrite bool_decide_false by by destruct k. cbn [map concat]. rewrite app_nil_r. fold l.
    rewrite bool_decide_false by done. rewrite (index_in_at l at_) by done.
    rewrite next_index_walk by done. rewrite Hi, Nat2Z.id, Hx. done. }
  cbn [map handle_all foldl handle]. rewrite E, Hi.
  destruct (IH (Some i) (w <| focused := FItem x |>)) as (I1 & I2 & I3); try done.
  by exists x.
Qed.

(** * Examples *)

(** A bar with two toggles, the second one disabled, and a third that names its menu's
    element. *)
Definition bar (t : bool) : page :=
  Page (fun s => if decide (s = js "#help") then [30] else []) (fun p => if decide (p = 10) then [11; 12; 13] else [])
    t
    [Toggle false None (Some (js "#")) 10 false; Toggle true None None 20 true;
     Toggle false None (Some (js "/page#help")) 29 true] ∅ 0 Elsewhere.

Lemma one_menu_at_a_time_witness :
  let w := handle_all [Click 0; Click 2; Key (KToggle 0) 40] (bar true) in
  elements (opened w) = [10] /\ backdrops w = 1 /\ opened (handle Elsewhere_ w) ∩ owned (bar true) = ∅.
Proof.
  destruct (one_menu_at_a_time [Click 0; Click 2; Key (KToggle 0) 40] (bar true)) as (_ & _ & H & _).
  - apply (bool_decide_unpack _). vm_compute. exact I.
  - reflexivity.
  - split; [vm_compute; reflexivity|]. split; [vm_compute; reflexivity|exact H].
Defined.

Lemma arrows_walk_witness :
  let w := click 0 (bar false) in
  focus_at [11; 12; 13] (Some 2)
    (focused (handle_all (map (fun k => Key (KMenu 10) (code k)) [Down; Down; Down; Down]) w)).
Proof.
  refine (proj1 (arrows_walk 10 [Down; Down; Down; Down] None (click 0 (bar false)) _ _ _ _)).
  - apply (bool_decide_unpack _). vm_compute. exact I.
  - apply (bool_decide_unpack _). vm_compute. exact I.
  - discriminate.
  - intros x H. discriminate H.
Defined.

(** A click on a disabled toggle closes the open menu. *)
Example disabled_toggle_closes :
  elements (opened (handle_all [Click 0; Click 1] (bar false))) = [].
Proof. vm_compute. reflexivity. Qed.

(** The test of the key code looks for the digits anywhere: the key 240 is taken for an
    arrow, and opens the menu. *)
Example other_key_opens :
  handled 240 = true /\ elements (opened (handle_all [Key (KToggle 0) 240] (bar false))) = [10].
Proof. vm_compute. split; reflexivity. Qed.
