(* ===== verification/Button.v ===== *)
(** Button: Bootstrap's buttons as the Fuel UX bundle carries them (fuelux/dist/all.js,
    bootstrap-button.js): their states, and the groups they are in. *)

From S2P Require Import Prelude.
From coqutil Require Import Datatypes.RecordSettersUsingExistingGetters.

(** A button: an input has its text as its value.  [texts] are its data attributes that
    name texts and [options] the texts of the options given; [resetText] is apart, since
    [setState] writes it. *)
Record button := Button {
  is_input : bool;
  text : jstr;
  resetText : option jstr;
  texts : jstr -> option jstr;
  options : jstr -> option jstr;
  made : bool;
  active : bool;
  disabled : bool;
  pending : list bool              (* the timers of setState: is it loading *)
}.

(** [$.fn.button.defaults] under the options given. *)
Definition option_text (b : button) (state : jstr) : option jstr :=
  match options b state with
  | Some t => Some t
  | None => if bool_decide (state = js "loadingText") then Some (js "loading...") else None
  end.

(** [data[state]]. *)
Definition data_text (b : button) (state : jstr) : option jstr :=
  if bool_decide (state = js "resetText") then resetText b else texts b state.

(** [$el[val](x)]: undefined leaves an element's markup and empties an input. *)
Definition set_text (x : option jstr) (b : button) : button :=
  match x with
  | Some t => b <| text := t |>
  | None => if is_input b then b <| text := [] |> else b
  end.

Definition setState (state : jstr) (b : button) : button :=
  let state := state ++ js "Text" in
  let b := if truthy (resetText b) then b else b <| resetText := Some (text b) |> in
  let own := data_text b state in
  let b := set_text (if truthy own then own else option_text b state) b in
  b <| pending ::= fun l => l ++ [bool_decide (state = js "loadingText")] |>.

(** The function given to [setTimeout]. *)
Definition later (loading : bool) (b : button) : button := b <| disabled := loading |>.

(** The timers run in the order they were set. *)
Definition run_timers (b : button) : button :=
  foldl (fun b l => later l b) (b <| pending := [] |>) (pending b).

(** The argument of the plugin: an object of options counts as a state of that name. *)
Inductive argument := NoArgument | Given (o : jstr -> option jstr) | Named (s : jstr).

(** The buttons of a page; [radio] gives the group of those inside one. *)
Record page := Page { buttons : list button; radio : nat -> option nat }.

(** [toggle]: [find('.active')] is about the whole group. *)
Definition toggle (i : nat) (w : page) : page :=
  let w := match radio w i with
           | Some g => w <| buttons ::= imap (fun j b =>
                          if bool_decide (radio w j = Some g) then b <| active := false |> else b) |>
           | None => w
           end in
  w <| buttons ::= alter (fun b => b <| active ::= negb |>) i |>.

Definition make (o : jstr -> option jstr) (b : button) : button :=
  if made b then b else b <| made := true |> <| options := o |>.

Definition plugin (i : nat) (a : argument) (w : page) : page :=
  let given := match a with Given o => o | _ => fun _ => None end in
  let w := w <| buttons ::= alter (make given) i |> in
  match a with
  | NoArgument => w
  | Given _ => w <| buttons ::= alter (setState (js "[object Object]")) i |>
  | Named s =>
      if bool_decide (s = js "toggle") then toggle i w
      else if truthy s then w <| buttons ::= alter (setState s) i |> else w
  end.

(** A click on a button whose data-toggle starts with button. *)
Definition click (i : nat) (w : page) : page := plugin i (Named (js "toggle")) w.

(** * The text comes back *)

Lemma state_text s t : s ++ js "Text" = t ++ js "Text" -> s = t.
Proof. apply app_inv_tail. Qed.

Lemma set_text_frame x b :
  resetText (set_text x b) = resetText b /\ texts (set_text x b) = texts b /\
  options (set_text x b) = options b /\ disabled (set_text x b) = disabled b.
Proof. unfold set_text. destruct x; [done|]. by destruct (is_input b). Qed.

Lemma setState_keeps s b :
  truthy (resetText b) = true ->
  resetText (setState s b) = resetText b /\ texts (setState s b) = texts b /\
  options (setState s b) = options b /\ disabled (setState s b) = disabled b.
Proof.
  intros H. unfold setState. rewrite H. cbn zeta. apply set_text_frame.
Qed.

Lemma setState_first s b :
  text b ≠ [] ->
  let r := if truthy (resetText b) then default [] (resetText b) else text b in
  resetText (setState s b) = Some r /\ r ≠ [].
Proof.
  intros H. cbn zeta. set (u := if truthy (resetText b) then b else b <| resetText := Some (text b) |>).
  assert (E : resetText (setState s b) = resetText u).
  { apply (set_text_frame _ u). }
  rewrite E. unfold u. by destruct (resetText b) as [[|c t]|] eqn:Er; cbn.
Qed.

Lemma states_keep ss b r :
  resetText b = Some r -> r ≠ [] -> resetText (foldl (fun b s => setState s b) b ss) = Some r.
Proof.
  revert b. induction ss as [|s ss IH]; intros b Hr Hn; [done|]. cbn [foldl]. apply IH; [|done].
  rewrite (proj1 (setState_keeps s b ltac:(rewrite Hr; by destruct r))). done.
Qed.

Lemma run_timers_last l x b :
  pending b = l ++ [x] -> disabled (run_timers b) = x /\ text (run_timers b) = text b.
Proof.
  intros H. unfold run_timers. rewrite H, foldl_app. cbn [foldl later].
  set (u := foldl _ _ l). change (x = x /\ text u = text b). split; [done|].
  subst u. assert (E : text (b <| pending := [] |>) = text b) by done. revert E.
  generalize (b <| pending := [] |>). clear H. induction l as [|y l IH]; intros v E; [done|]. by apply IH.
Qed.

(** A button with a text gets it back, and is enabled once the timers have run, when it is
    reset, whatever states it has been given before; the text is the one its data attribute
    data-reset-text says, or the one it had. *)
Theorem reset_restores_text ss b :
  text b ≠ [] ->
  let b' := run_timers (setState (js "reset") (foldl (fun b s => setState s b) b ss)) in
  text b' = (if truthy (resetText b) then default [] (resetText b) else text b) /\
  disabled b' = false.
Proof.
  intros Hb. cbn zeta. set (r := if truthy (resetText b) then _ else _).
  set (u := foldl (fun b s => setState s b) b ss).
  assert (Hu : (truthy (resetText u) = true /\ resetText u = Some r) \/ u = b).
  { destruct ss as [|s ss]; [by right|left]. destruct (setState_first s b Hb) as [H1 H2]. fold r in H1, H2.
    unfold u. cbn [foldl]. rewrite (states_keep ss _ r H1 H2). split; [by destruct r|done]. }
  assert (Hr : r ≠ [] /\ exists v, setState (js "reset") u =
    (v <| text := r |> <| pending ::= fun l => l ++ [false] |>)).
  { assert (Hx : r ≠ []) by apply (setState_first [] b Hb). split; [done|].
    set (v := if truthy (resetText u) then u else u <| resetText := Some (text u) |>).
    assert (Hv : resetText v = Some r).
    { unfold v. destruct Hu as [[-> ?]| ->]; [done|]. unfold r. by destruct (resetText b) as [[|]|] eqn:Er; cbn. }
    exists v. unfold setState. fold v. cbn zeta.
    change (js "reset" ++ js "Text") with (js "resetText").
    unfold data_text. rewrite (bool_decide_true (js "resetText" = js "resetText")) by done. rewrite Hv.
    assert (truthy (Some r) = true) as -> by by destruct r.
    by rewrite (bool_decide_false (js "resetText" = js "loadingText")) by done. }
  destruct Hr as (_ & v & ->).
  destruct (run_timers_last (pending v) false (v <| text := r |> <| pending ::= fun l => l ++ [false] |>))
    as [E1 E2]; [done|]. by rewrite E1, E2.
Qed.

Definition save : button := Button false (js "Save") None (fun _ => None) (fun _ => None) true false false [].

Lemma reset_restores_text_witness :
  text (run_timers (setState (js "reset") (foldl (fun b s => setState s b) save [js "loading"; js "done"])))
  = js "Save".
Proof.
  exact (proj1 (reset_restores_text [js "loading"; js "done"] save
    ltac:(vm_compute; discriminate))).
Defined.

(** A button without a text, one with an icon drawn by its class, keeps 'loading...'. *)
Example empty_button_keeps_loading :
  let b := save <| text := [] |> in
  text (setState (js "reset") (setState (js "loading") b)) = js "loading...".
Proof. vm_compute. reflexivity. Qed.

(** Options given as an object empty an input button. *)
Example options_empty_input :
  let w := Page [save <| is_input := true |> <| made := false |>] (fun _ => None) in
  map text (buttons (plugin 0 (Given (fun _ => None)) w)) = [[]].
Proof. vm_compute. reflexivity. Qed.

(** * Groups *)

Lemma toggle_active i w j b :
  buttons w !! j = Some b ->
  exists b', buttons (toggle i w) !! j = Some b' /\
    active b' = (if bool_decide (i = j) then present (radio w i) || negb (active b)
                 else active b && negb (present (radio w i) && bool_decide (radio w j = radio w i))).
Proof.
  intros Hb. unfold toggle. destruct (radio w i) as [g|] eqn:Eg; cbn zeta.
  - set (u := w <| buttons ::= imap _ |>).
    assert (Hu : buttons u !! j = Some (if bool_decide (radio w j = Some g) then b <| active := false |> else b)).
    { change (buttons u) with (imap (fun j b =>
        if bool_decide (radio w j = Some g) then b <| active := false |> else b) (buttons w)).
      by rewrite list_lookup_imap, Hb. }
    change (buttons (u <| buttons ::= alter (fun b => b <| active ::= negb |>) i |>))
      with (alter (fun b => b <| active ::= negb |>) i (buttons u)).
    rewrite list_lookup_alter. destruct (decide (i = j)) as [->|Hij].
    + rewrite Hu, Eg, bool_decide_true by done. eexists. split; [done|]. by rewrite bool_decide_true.
    + rewrite Hu. eexists. split; [done|]. rewrite (bool_decide_false (i = j)) by done.
      destruct (bool_decide (radio w j = Some g)); cbn; by destruct (active b).
  - change (buttons (w <| buttons ::= alter (fun b => b <| active ::= negb |>) i |>))
      with (alter (fun b => b <| active ::= negb |>) i (buttons w)).
    rewrite list_lookup_alter. destruct (decide (i = j)) as [->|Hij]; rewrite Hb.
    + eexists. split; [done|]. by rewrite bool_decide_true.
    + eexists. split; [done|]. rewrite bool_decide_false by done. by rewrite andb_true_r.
Qed.

(** In a group of radio buttons the one toggled is the active one, and the only one. *)
Lemma radio_group i g w :
  radio w i = Some g ->
  forall j b, radio w j = Some g -> buttons (toggle i w) !! j = Some b -> active b = bool_decide (i = j).
Proof.
  intros Hi j b Hj Hb. destruct (buttons w !! j) as [b0|] eqn:E0.
  - destruct (toggle_active i w j b0 E0) as (b' & E' & Ha). rewrite E' in Hb. injection Hb as <-.
    rewrite Ha, Hi, Hj. case_bool_decide; [done|]. rewrite bool_decide_true by done. apply andb_false_r.
  - exfalso. apply lookup_ge_None in E0. apply lookup_lt_Some in Hb.
    assert (El : length (buttons (toggle i w)) = length (buttons w)); [|lia].
    unfold toggle. cbn zeta. rewrite Hi. cbn. by rewrite length_alter, length_imap.
Qed.
