(* ===== verification/Alert.v ===== *)
(** Alert: Bootstrap's alerts as the Fuel UX bundle carries them (fuelux/dist/all.js,
    bootstrap-alert.js): what a cross closes, and when it leaves the page. *)

From S2P Require Import Prelude.
From S2P Require Import Selectors.
From coqutil Require Import Datatypes.RecordSettersUsingExistingGetters.

(** An element: what it shows of an alert, its parent, the attributes that name another;
    [waiting] holds what each function bound to the end of its transition removes. *)
Record element := Element {
  data_target : option jstr;
  href : option jstr;
  is_alert : bool;
  parent : nat;
  in_ : bool;
  fade : bool;
  removed : bool;
  waiting : list (list nat)
}.

Inductive notice := NClose | NClosed.

Record page := Page {
  find : jstr -> list nat;         (* $(selector) *)
  transitions : bool;
  elements : list element;
  notices : list (nat * notice)
}.

Definition on_element (i : nat) (f : element -> element) (w : page) : page :=
  w <| elements ::= alter f i |>.

(** [removeElement], about all the elements closed. *)
Definition removeElement (l : list nat) (w : page) : page :=
  foldl (fun w i => on_element i (fun e => e <| removed := true |> <| waiting := [] |>) w)
    (w <| notices ::= fun n => n ++ map (fun i => (i, NClosed)) l |>) l.

(** What the element that is clicked closes. *)
Definition closing (i : nat) (e : element) (w : page) : list nat :=
  let target := default [] (data_target e) in
  let selector := if truthy target then target else strip (default [] (href e)) in
  match (if truthy selector then find w selector else []) with
  | [] => [if is_alert e then i else parent e]
  | l => l
  end.

(** [close], a listener preventing it or not. *)
Definition close (prevented : bool) (i : nat) (w : page) : page :=
  match elements w !! i with
  | None => w
  | Some e =>
      let l := closing i e w in
      let w := w <| notices ::= fun n => n ++ map (fun i => (i, NClose)) l |> in
      if prevented then w
      else
        let w := foldl (fun w j => on_element j (fun e => e <| in_ := false |>) w) w l in
        let fades := existsb (fun j => match elements w !! j with Some e => fade e | None => false end) l in
        if transitions w && fades
        then foldl (fun w j => on_element j (fun e => e <| waiting ::= fun q => q ++ [l] |>) w) w l
        else removeElement l w
  end.

(** The transition of one element ends. *)
Definition transition_end (i : nat) (w : page) : page :=
  match elements w !! i with
  | Some e => foldl (fun w l => removeElement l w) w (waiting e)
  | None => w
  end.

(** A cross in an alert that fades takes it away when the transition has ended, and an
    address that is only a # is not taken for a target. *)
Example cross_closes :
  let w := Page (fun _ => []) true
    [Element None None true 9 true true false []; Element None (Some (js "#")) false 0 false false false []] [] in
  let u := close false 1 w in
  map (fun e => (in_ e, removed e)) (elements u) = [(false, false); (false, false)] /\
  map removed (elements (transition_end 0 u)) = [true; false] /\
  notices (transition_end 0 u) = [(0, NClose); (0, NClosed)].
Proof. vm_compute. repeat split; reflexivity. Qed.

Lemma removeElement_removed l w i e :
  elements (removeElement l w) !! i = Some e -> i ∈ l -> removed e = true.
Proof.
  unfold removeElement. set (u := w <| notices ::= _ |>). clearbody u. revert u i e.
  induction l as [|j l IH]; intros u i e He Hi; [by apply elem_of_nil in Hi|]. cbn [foldl] in He.
  destruct (decide (i ∈ l)) as [Hl|Hl]; [by eapply IH|].
  apply elem_of_cons in Hi as [->|?]; [|done]. clear IH. set (v := on_element j _ u) in He.
  assert (Hv : forall e, elements v !! j = Some e -> removed e = true).
  { intros x Hx. change (elements v) with (alter (fun e => e <| removed := true |> <| waiting := [] |>) j (elements u)) in Hx.
    rewrite list_lookup_alter_eq in Hx. destruct (elements u !! j); [|done]. by injection Hx as <-. }
  clearbody v. revert v He Hv. induction l as [|k l IH]; intros v He Hv; [by apply Hv|].
  cbn [foldl] in He. apply (IH ltac:(set_solver) _ He). intros x Hx.
  change (elements (on_element k (fun e => e <| removed := true |> <| waiting := [] |>) v))
    with (alter (fun e => e <| removed := true |> <| waiting := [] |>) k (elements v)) in Hx.
  rewrite list_lookup_alter_ne in Hx by set_solver. by apply Hv.
Qed.

(** Without a transition what is closed is gone at once. *)
Lemma close_at_once i w e j x :
  transitions w = false -> elements w !! i = Some e -> j ∈ closing i e w ->
  elements (close false i w) !! j = Some x -> removed x = true.
Proof.
  intros Ht He Hj. unfold close. rewrite He. cbn zeta.
  set (u := foldl _ _ (closing i e w)).
  assert (Hu : transitions u = false).
  { unfold u. set (v := w <| notices ::= _ |>). assert (Hv : transitions v = false) by done.
    clearbody v. clear u. revert v Hv. generalize (closing i e w). intros l.
    induction l as [|k l IH]; intros v Hv; [done|]. by apply IH. }
  rewrite Hu. cbn [andb]. intros Hx. by apply (removeElement_removed _ _ _ _ Hx).
Qed.
