(* ===== verification/Affix.v ===== *)
(** Affix: Bootstrap's affixed elements as the Fuel UX bundle carries them
    (fuelux/dist/all.js, bootstrap-affix.js): where an element sticks. *)

From S2P Require Import Prelude.
From coqutil Require Import Datatypes.RecordSettersUsingExistingGetters.

Local Open Scope Z_scope.

Inductive state := Top | Bottom | NoState.

(** The [offset] option: a number, or an object whose parts may be missing or functions,
    here by what they return; a function is no object. *)
Inductive offset := Number (n : Z) | Parts (bottom top : option Z) | Function_.

Record affix := Affix {
  option_offset : offset;
  affixed : option state;          (* undefined at first *)
  unpin : option Z;
  class : option state             (* which of its classes the element has *)
}.

(** What the browser measures. *)
Record view := View {
  visible : bool;
  scrollHeight : Z;
  scrollTop : Z;
  position_top : Z;
  height : Z
}.

Definition wanted (v : view) (offsetBottom offsetTop : option Z) (a : affix) : state :=
  if match unpin a with Some u => scrollTop v + u <=? position_top v | None => false end then NoState
  else if match offsetBottom with
          | Some b => scrollHeight v - b <=? position_top v + height v
          | None => false
          end then Bottom
  else if match offsetTop with Some t => scrollTop v <=? t | None => false end then Top
  else NoState.

(** [checkPosition]; [None]: it throws, calling a part that a function has not. *)
Definition checkPosition (v : view) (a : affix) : option affix :=
  if negb (visible v) then Some a
  else
    match option_offset a with
    | Function_ => None
    | o =>
        let '(b, t) := match o with Number n => (Some n, Some n) | Parts b t => (b, t) | Function_ => (None, None) end in
        let s := wanted v b t a in
        match affixed a, s with
        | Some Top, Top | Some Bottom, Bottom | Some NoState, NoState => Some a
        | _, _ =>
            Some (a <| affixed := Some s |>
                    <| unpin := match s with Bottom => Some (position_top v - scrollTop v) | _ => None end |>
                    <| class := Some s |>)
        end
    end.

(** [new Affix(element, options)]. *)
Definition Affix_new (o : offset) (v : view) : option affix := checkPosition v (Affix o None None None).

Definition checks (vs : list view) (a : affix) : option affix :=
  foldl (fun r v => a ← r; checkPosition v a) (Some a) vs.

(** The class of the element is that of its state, and it remembers where it was unpinned
    exactly when it is at the bottom. *)
Definition sound (a : affix) : Prop :=
  class a = affixed a /\ (present (unpin a) = true <-> affixed a = Some Bottom).

Lemma check_sound v a b : sound a -> checkPosition v a = Some b -> sound b.
Proof.
  intros Ha. unfold checkPosition. destruct (negb (visible v)); [by intros [= <-]|].
  assert (H : forall s, sound (a <| affixed := Some s |>
      <| unpin := match s with Bottom => Some (position_top v - scrollTop v) | _ => None end |>
      <| class := Some s |>)).
  { intros s. split; [done|]. by destruct s. }
  destruct (option_offset a) as [n|b' t'|]; cbn zeta; try done;
    match goal with |- context [wanted ?v ?b ?t ?a] => generalize (wanted v b t a) end;
    intros s; specialize (H s); destruct (affixed a) as [[]|], s; intros [= <-]; done.
Qed.

Lemma checks_sound vs a b : sound a -> checks vs a = Some b -> sound b.
Proof.
  unfold checks. revert a. induction vs as [|v vs IH]; intros a Ha; [by intros [= <-]|].
  cbn [foldl mbind option_bind]. destruct (checkPosition v a) as [c|] eqn:Ec.
  - apply IH. by apply (check_sound v a).
  - intros H. exfalso. revert H. clear. induction vs; [done|]. done.
Qed.

(** A function as the offset makes every check fail. *)
Example function_offset_fails :
  Affix_new Function_ (View true 1000 0 50 20) = None.
Proof. reflexivity. Qed.

(** Down to the foot of the page and back up. *)
Example there_and_back :
  option_map affixed (checks [View true 1000 300 300 20; View true 1000 800 890 20; View true 1000 700 890 20;
                              View true 1000 0 50 20]
    (Affix (Parts (Some 100) (Some 10)) None None None)) = Some (Some Top).
Proof. vm_compute. reflexivity. Qed.
