(* ===== verification/Nano.v ===== *)
(** Nano: the template function of js/nano.js.

    The data are values as JSON gives them; what objects and numbers inherit from their
    prototypes is left out.  Reading a property of undefined or null throws. *)

From S2P Require Import Prelude.

Inductive value :=
  | Undefined | Null | Bool (b : bool) | Num (n : Z) | Str (s : jstr) | Obj (l : list (jstr * value)).

Definition length_name : jstr := js "length".

(** [v[key]]; [None]: it throws.  The last of two members of one name counts. *)
Definition get (v : value) (key : jstr) : option value :=
  match v with
  | Undefined | Null => None
  | Bool _ | Num _ => Some Undefined
  | Str s =>
      if bool_decide (key = length_name) then Some (Num (Z.of_nat (length s)))
      else match list_find (fun i => js_of_N (N.of_nat i) = key) (seq 0 (length s)) with
           | Some (i, _) => Some (Str (take 1 (drop i s)))
           | None => Some Undefined
           end
  | Obj l =>
      match list_find (fun m => m.1 = key) (reverse l) with
      | Some (_, (_, v)) => Some v
      | None => Some Undefined
      end
  end.

(** [for (...) v = v[keys[i]]]. *)
Fixpoint walk (v : value) (keys : list jstr) : option value :=
  match keys with
  | [] => Some v
  | k :: keys => v ← get v k; walk v keys
  end.

(** What [replace] makes of the value the function returns; an object is shown by its
    kind. *)
Definition shown (v : value) : jstr :=
  match v with
  | Undefined | Null => []
  | Bool b => if b then js "true" else js "false"
  | Num n => if decide (n < 0)%Z then js "-" ++ js_of_N (Z.to_N (- n)) else js_of_N (Z.to_N n)
  | Str s => s
  | Obj _ => js "[object Object]"
  end.

(** The function given to [replace], for one key. *)
Definition lookup_ (data : value) (key : jstr) : option jstr :=
  option_map shown (walk data (split dot key)).

(** [\w] or a dot. *)
Definition key_char (c : N) : bool :=
  bool_decide (48 <= c <= 57)%N || bool_decide (65 <= c <= 90)%N || bool_decide (97 <= c <= 122)%N
  || bool_decide (c = 95)%N || bool_decide (c = dot).

Definition open_brace : N := 123.
Definition close_brace : N := 125.

(** The longest key at the start of a text, and the rest. *)
Fixpoint span_key (s : jstr) : jstr * jstr :=
  match s with
  | c :: s' => if key_char c then let '(k, r) := span_key s' in (c :: k, r) else ([], s)
  | [] => ([], [])
  end.

(** [template.replace]: at a brace, the longest key and the closing brace after it; the
    fuel is the length of the text. *)
Fixpoint replace (fuel : nat) (data : value) (s : jstr) : option jstr :=
  match fuel, s with
  | _, [] => Some []
  | 0, _ => None
  | S fuel, c :: s' =>
      if decide (c = open_brace) then
        let '(key, r) := span_key s' in
        match r with
        | d :: r' =>
            if decide (d = close_brace) then
              v ← lookup_ data key; t ← replace fuel data r'; Some (v ++ t)
            else t ← replace fuel data s'; Some (c :: t)
        | [] => t ← replace fuel data s'; Some (c :: t)
        end
      else t ← replace fuel data s'; Some (c :: t)
  end.

(** [nano(template, data)]; [None]: it throws. *)
Definition nano (template : jstr) (data : value) : option jstr :=
  replace (length template) data template.

(** * Templates as pieces *)

Inductive piece := Lit (s : jstr) | Hole (key : jstr).

Definition well_formed (p : piece) : Prop :=
  match p with
  | Lit s => open_brace ∉ s
  | Hole k => Forall (fun c => key_char c = true) k
  end.

#[export] Instance well_formed_dec p : Decision (well_formed p).
Proof. destruct p; cbn; apply _. Defined.

Definition print (p : piece) : jstr :=
  match p with Lit s => s | Hole k => open_brace :: k ++ [close_brace] end.

Fixpoint render (data : value) (ps : list piece) : option jstr :=
  match ps with
  | [] => Some []
  | Lit s :: ps => t ← render data ps; Some (s ++ t)
  | Hole k :: ps => v ← lookup_ data k; t ← render data ps; Some (v ++ t)
  end.

Lemma span_key_app k r :
  Forall (fun c => key_char c = true) k -> match r with c :: _ => key_char c = false | [] => True end ->
  span_key (k ++ r) = (k, r).
Proof.
  intros Hk Hr. induction Hk as [|c k Hc _ IH]; cbn [app span_key].
  - destruct r as [|c r]; [done|]. cbn. by rewrite Hr.
  - by rewrite Hc, IH.
Qed.

Lemma replace_lit fuel data s t :
  open_brace ∉ s -> replace (length s + fuel) data (s ++ t) = (r ← replace fuel data t; Some (s ++ r)).
Proof.
  induction s as [|c s IH]; intros Hs.
  { cbn [length Nat.add app]. by destruct (replace fuel data t). }
  rewrite not_elem_of_cons in Hs. destruct Hs as [Hc Hs]. cbn [length Nat.add app replace].
  rewrite decide_False by congruence. rewrite IH by done. by destruct (replace fuel data t).
Qed.

Lemma replace_hole fuel data k t :
  Forall (fun c => key_char c = true) k ->
  replace (S fuel) data (open_brace :: k ++ close_brace :: t)
  = (v ← lookup_ data k; r ← replace fuel data t; Some (v ++ r)).
Proof.
  intros Hk. cbn [replace]. rewrite decide_True by done. rewrite span_key_app by done.
  by rewrite decide_True.
Qed.

Lemma replace_print ps data fuel :
  Forall well_formed ps -> length (concat (map print ps)) <= fuel ->
  replace fuel data (concat (map print ps)) = render data ps.
Proof.
  intros H. revert fuel. induction H as [|[s|k] ps Hp _ IH]; intros fuel Hf.
  - by destruct fuel.
  - cbn [map concat print render] in *. rewrite length_app in Hf.
    replace fuel with (length s + (fuel - length s)) by lia. rewrite replace_lit by done.
    rewrite IH by lia. done.
  - cbn [map concat print render] in *. rewrite length_app in Hf. cbn [length] in Hf.
    rewrite length_app in Hf. cbn [length] in Hf. destruct fuel as [|fuel]; [lia|].
    rewrite <- app_comm_cons, <- (assoc_L app). cbn [app]. rewrite replace_hole by done.
    rewrite IH by lia. done.
Qed.

(** A template made of texts without { and of keys between braces is filled in place by
    place, each key by what the data hold there, none for undefined and null; what is
    filled in is not read again, and the whole fails exactly when one of the keys goes
    through undefined or null. *)
Theorem nano_renders ps data :
  Forall well_formed ps -> nano (concat (map print ps)) data = render data ps.
Proof. intros H. by apply replace_print. Qed.

Definition person : value :=
  Obj [(js "name", Obj [(js "first", Str (js "{age}"))]); (js "age", Num 30); (js "none", Null)].

Lemma nano_renders_witness :
  nano (js "Hello {name.first}, {age}{none}!") person = Some (js "Hello {age}, 30!") /\
  nano (js "{none.x}") person = None.
Proof.
  split.
  - exact (nano_renders [Lit (js "Hello "); Hole (js "name.first"); Lit (js ", "); Hole (js "age");
      Hole (js "none"); Lit (js "!")] person
      ltac:(apply (bool_decide_unpack _); vm_compute; exact I)).
  - exact (nano_renders [Hole (js "none.x")] person ltac:(apply (bool_decide_unpack _); vm_compute; exact I)).
Defined.

(** Braces around anything else stay, and so does the text before a key inside them. *)
Example other_braces : nano (js "a { b } {{age}") person = Some (js "a { b } {30").
Proof. vm_compute. reflexivity. Qed.
