(* ===== verification/PanelLoading.v ===== *)
(** PanelLoading: the loading cover of a panel (js/panelLoading.plugin.js).

    The cover is an overlay and a panel with a bar, put into a container that the call
    wraps around the contents; taking it away fades both out, and the end of an overlay's
    fading takes the container away.  What the cover looks like is left out, and the
    panel has contents of its own. *)

From S2P Require Import Prelude.
From coqutil Require Import Datatypes.RecordSettersUsingExistingGetters.

(** A cover's part in the panel: whether its fading out has been asked for. *)
Record part := Part { id : nat; going : bool }.

Record panel := Panel {
  base_class : bool;               (* panel-loading-base-element *)
  containers : nat;                (* panel-loading-container, one in the other *)
  overlays : list part;
  infos : list part;               (* panel-loading-info-panel *)
  fresh : nat
}.

Definition bare : panel := Panel false 0 [] [] 0.

Definition removeLoadStuff (p : panel) : panel :=
  p <| base_class := false |> <| containers ::= pred |>.

(** [setLoad] true. *)
Definition cover (p : panel) : panel :=
  p <| base_class := true |> <| containers ::= S |>
    <| overlays ::= fun l => l ++ [Part (fresh p) false] |>
    <| infos ::= fun l => l ++ [Part (fresh p) false] |> <| fresh ::= S |>.

Definition going_all : list part -> list part := map (fun x => x <| going := true |>).

(** [setLoad] false. *)
Definition uncover (p : panel) : panel :=
  let p' := if bool_decide (overlays p = []) then removeLoadStuff p else p in
  p' <| infos ::= going_all |> <| overlays ::= going_all |>.

(** [$(panel).panelLoading({setLoading: ...})]; null asks the class. *)
Definition panelLoading (setLoading : option bool) (p : panel) : panel :=
  if default (negb (base_class p)) setLoading then cover p else uncover p.

Inductive event :=
  | Call (setLoading : option bool)
  | InfoGone (n : nat)             (* the fading of the nth info panel ends *)
  | OverlayGone (n : nat).

Definition handle (e : event) (p : panel) : panel :=
  match e with
  | Call s => panelLoading s p
  | InfoGone n =>
      match infos p !! n with
      | Some (Part _ true) => p <| infos ::= delete n |>
      | _ => p
      end
  | OverlayGone n =>
      match overlays p !! n with
      | Some (Part _ true) => removeLoadStuff (p <| overlays ::= delete n |>)
      | _ => p
      end
  end.

Definition handle_all (es : list event) (p : panel) : panel := foldl (fun p e => handle e p) p es.

(** * Lemmas *)

(** A container for each overlay, and the class while there is one. *)
Definition covered (n : nat) (p : panel) : Prop :=
  containers p = n /\ length (overlays p) = n /\ length (infos p) = n /\
  base_class p = negb (Nat.eqb n 0) /\ Forall (fun x => going x = false) (overlays p ++ infos p).

Lemma cover_covered n p : covered n p -> covered (S n) (cover p).
Proof.
  intros (H1 & H2 & H3 & H4 & H5). repeat split.
  - cbn. by rewrite H1.
  - change (length (overlays p ++ [Part (fresh p) false]) = S n). rewrite length_app, H2. cbn. lia.
  - change (length (infos p ++ [Part (fresh p) false]) = S n). rewrite length_app, H3. cbn. lia.
  - change (Forall (fun x => going x = false)
      ((overlays p ++ [Part (fresh p) false]) ++ (infos p ++ [Part (fresh p) false]))).
    rewrite Forall_app in H5. rewrite !Forall_app. repeat split; try apply H5; by constructor.
Qed.

Lemma covers n : covered n (Nat.iter n (handle (Call (Some true))) bare).
Proof.
  induction n as [|n IH]; [by repeat constructor|]. cbn [Nat.iter]. by apply cover_covered.
Qed.

(** The ends of all the fadings, the ones of the info panels or of the overlays, in any
    order that names each of them once. *)
Inductive fadings : nat -> nat -> list event -> Prop :=
  | fadings_nil : fadings 0 0 []
  | fadings_info i n o es : i <= n -> fadings n o es -> fadings (S n) o (InfoGone i :: es)
  | fadings_overlay i n o es : i <= o -> fadings n o es -> fadings n (S o) (OverlayGone i :: es).

Lemma all_going_lookup l i :
  Forall (fun x => going x = true) l -> i < length l -> exists k, l !! i = Some (Part k true).
Proof.
  intros H Hi. destruct (lookup_lt_is_Some_2 l i Hi) as [[k b] Hk]. exists k.
  rewrite Forall_lookup in H. specialize (H i _ Hk). cbn in H. by subst.
Qed.

Lemma fadings_run n o es p :
  fadings n o es -> length (infos p) = n -> length (overlays p) = o -> containers p = o ->
  (o = 0 -> base_class p = false) ->
  Forall (fun x => going x = true) (infos p) -> Forall (fun x => going x = true) (overlays p) ->
  let p' := handle_all es p in
  base_class p' = false /\ containers p' = 0 /\ overlays p' = [] /\ infos p' = [].
Proof.
  intros H. revert p. induction H as [|i n o es Hi _ IH|i n o es Hi _ IH];
    intros p Hn Ho Hc Hb Fi Fo; cbn [handle_all foldl].
  - split; [by apply Hb|]. split; [done|]. split; by apply nil_length_inv.
  - destruct (all_going_lookup (infos p) i Fi) as [k Hk]; [lia|]. cbn [handle]. rewrite Hk.
    apply IH; try done.
    + change (length (delete i (infos p)) = n). rewrite length_delete; [lia|by eexists].
    + change (Forall (fun x => going x = true) (delete i (infos p))). by apply Forall_delete.
  - destruct (all_going_lookup (overlays p) i Fo) as [k Hk]; [lia|]. cbn [handle]. rewrite Hk.
    apply IH; try done.
    + change (length (delete i (overlays p)) = o). rewrite length_delete; [lia|by eexists].
    + change (pred (containers p) = o). lia.
    + change (Forall (fun x => going x = true) (delete i (overlays p))). by apply Forall_delete.
Qed.

(** However often the cover has been put on a panel in a row, one call that takes it away
    leaves, when everything has faded out, in whatever order, the panel as it was: no
    class, no container, no part of a cover. *)
Theorem panel_uncovered n es :
  0 < n -> fadings n n es ->
  let p := handle_all es (handle (Call (Some false)) (Nat.iter n (handle (Call (Some true))) bare)) in
  base_class p = false /\ containers p = 0 /\ overlays p = [] /\ infos p = [].
Proof.
  intros Hn H. cbn zeta. destruct (covers n) as (H1 & H2 & H3 & H4 & H5).
  set (q := Nat.iter n (handle (Call (Some true))) bare) in *.
  assert (E : handle (Call (Some false)) q = q <| infos ::= going_all |> <| overlays ::= going_all |>).
  { cbn [handle panelLoading default]. unfold panelLoading, uncover. cbn [default].
    rewrite bool_decide_false; [done|]. intros Eq. rewrite Eq in H2. cbn in H2. lia. }
  rewrite E. apply (fadings_run n n); [done| | |done|lia| |].
  - change (length (going_all (infos q)) = n). unfold going_all. by rewrite length_map.
  - change (length (going_all (overlays q)) = n). unfold going_all. by rewrite length_map.
  - change (Forall (fun x => going x = true) (going_all (infos q))). apply Forall_map, Forall_true. done.
  - change (Forall (fun x => going x = true) (going_all (overlays q))). apply Forall_map, Forall_true. done.
Qed.

Lemma panel_uncovered_witness :
  let p := handle_all [OverlayGone 0; InfoGone 1; InfoGone 0; OverlayGone 0]
    (handle (Call (Some false)) (Nat.iter 2 (handle (Call (Some true))) bare)) in
  containers p = 0 /\ base_class p = false.
Proof.
  destruct (panel_uncovered 2 [OverlayGone 0; InfoGone 1; InfoGone 0; OverlayGone 0]) as (H1 & H2 & _).
  - lia.
  - repeat constructor.
  - split; [exact H2|exact H1].
Defined.

(** A cover put on while the last one fades out loses its container and the class when
    that one has gone; it stays in the panel, and the next call puts another one on. *)
Example cover_during_fading :
  let p := handle_all [Call None; Call None; Call (Some true); InfoGone 0; OverlayGone 0] bare in
  (base_class p, containers p, length (overlays p)) = (false, 1, 1) /\
  length (overlays (handle (Call None) p)) = 2.
Proof. vm_compute. split; reflexivity. Qed.
