(* ===== verification/Tabs.v ===== *)
(** Tabs: Bootstrap's tabs as the Fuel UX bundle carries them (fuelux/dist/all.js,
    bootstrap-tab.js): a list of links, some in dropdown menus, and the panes they show,
    which may fade.

    A link names its list item: the [i]th of the list, or the [j]th of its dropdown menu.
    A listener may prevent a 'show'; the browser reports the ends of the panes'
    transitions.  The reflow and the related targets of the events are left out. *)

From S2P Require Import Prelude.
From coqutil Require Import Datatypes.RecordSettersUsingExistingGetters.

Record link := Link { l_item : nat; l_sub : option nat; l_pane : nat }.

(** A list item: active or not, and which items of its dropdown menu are. *)
Record entry := Entry { e_active : bool; e_menu : list bool }.

Record pane := Pane { p_active : bool; p_in : bool; p_fade : bool }.

Inductive notice := NShow (l : link) | NShown (l : link).

(** A [next] waiting for the transitions of the panes that were active. *)
Record waiting := Waiting { w_active : list nat; w_link : link }.

Record tabs := Tabs {
  transitions : bool;              (* $.support.transition *)
  entries : list entry;
  panes : list pane;
  pending : list (nat * waiting);  (* by the pane they are bound to *)
  notices : list notice            (* triggered so far, the latest last *)
}.

Definition trigger (n : notice) (t : tabs) : tabs := t <| notices ::= fun l => l ++ [n] |>.

Definition item_active (l : link) (t : tabs) : bool :=
  match entries t !! l_item l with
  | Some e => match l_sub l with
              | None => e_active e
              | Some j => default false (e_menu e !! j)
              end
  | None => false
  end.

(** [activate(li, ul)]: the active items of the list are those of
    [container.find('> .active')]; without a callback there is no transition. *)
Definition activate_item (l : link) (t : tabs) : tabs :=
  let active := places e_active (entries t) in
  t <| entries ::= map_at (fun e => Entry false (map (fun _ => false) (e_menu e))) active |>
    <| entries ::= map_at (fun e => match l_sub l with
                                    | None => e <| e_active := true |>
                                    | Some j => Entry true (map_at (fun _ => true) [j] (e_menu e))
                                    end) [l_item l] |>.

(** The inner [next] for a pane. *)
Definition next (transition : bool) (w : waiting) (t : tabs) : tabs :=
  trigger (NShown (w_link w))
    (t <| panes ::= map_at (fun p => p <| p_active := false |>) (w_active w) |>
       <| panes ::= map_at (fun p => if transition then p <| p_active := true |> <| p_in := true |>
                                     else p <| p_active := true |> <| p_fade := false |>)
                      [l_pane (w_link w)] |>).

(** [activate(pane, container, callback)]. *)
Definition activate_pane (l : link) (t : tabs) : tabs :=
  let active := places p_active (panes t) in
  let transition := transitions t &&
    existsb (fun i => match panes t !! i with Some p => p_fade p | None => false end) active in
  let w := Waiting active l in
  let t := if transition then t <| pending ::= fun q => q ++ map (fun i => (i, w)) active |>
           else next false w t in
  t <| panes ::= map_at (fun p => p <| p_in := false |>) active |>.

Definition show (l : link) (prevented : bool) (t : tabs) : tabs :=
  if item_active l t then t
  else
    let t := trigger (NShow l) t in
    if prevented then t else activate_pane l (activate_item l t).

Inductive event := Click (l : link) (prevented : bool) | PaneEnd (i : nat).

(** The end of a pane's transition calls the functions bound to it, each once. *)
Definition handle (e : event) (t : tabs) : tabs :=
  match e with
  | Click l p => show l p t
  | PaneEnd i =>
      let mine := List.filter (fun iw => Nat.eqb (fst iw) i) (pending t) in
      foldl (fun t iw => next true (snd iw) t)
        (t <| pending ::= List.filter (fun iw => negb (Nat.eqb (fst iw) i)) |>) mine
  end.

Definition handle_all (es : list event) (t : tabs) : tabs :=
  foldl (fun t e => handle e t) t es.
