(* ===== verification/TabsFacts.v ===== *)
(** Facts about the tabs: the marked link is the last one clicked, the pane shown is its
    pane for a patient user, and two hasty clicks show two panes. *)

From S2P Require Import Prelude Tabs.
From coqutil Require Import Datatypes.RecordSettersUsingExistingGetters.

(** Exactly the item of [l] is marked, in the list and in the menus. *)
Definition marked (l : link) (t : tabs) : Prop :=
  forall i e, entries t !! i = Some e ->
    e_active e = bool_decide (i = l_item l) /\
    forall j b, e_menu e !! j = Some b -> b = bool_decide (i = l_item l /\ l_sub l = Some j).

(** The places of the links in the page: an item is a link or has a menu of links. *)
Definition layout (t : tabs) : list nat := map (fun e => length (e_menu e)) (entries t).

Definition valid (lay : list nat) (n : nat) (l : link) : Prop :=
  l_pane l < n /\
  match l_sub l with
  | None => lay !! l_item l = Some 0
  | Some j => exists m, lay !! l_item l = Some m /\ j < m
  end.

Lemma layout_lookup t i m :
  layout t !! i = Some m -> exists e, entries t !! i = Some e /\ length (e_menu e) = m.
Proof.
  unfold layout. intros H. apply list_lookup_fmap_Some in H as (e & -> & He). by exists e.
Qed.

Lemma valid_entry t n l :
  valid (layout t) n l -> exists e, entries t !! l_item l = Some e /\
    match l_sub l with None => e_menu e = [] | Some j => j < length (e_menu e) end.
Proof.
  intros [_ H]. destruct (l_sub l) as [j|].
  - destruct H as (m & Hm & Hj). destruct (layout_lookup t _ m Hm) as (e & He & <-). by exists e.
  - destruct (layout_lookup t _ 0 H) as (e & He & Hl). exists e. split; [done|].
    by apply nil_length_inv.
Qed.

Lemma item_active_marked n l0 l t :
  marked l0 t -> valid (layout t) n l0 -> valid (layout t) n l -> item_active l t = true ->
  l_item l = l_item l0 /\ l_sub l = l_sub l0.
Proof.
  intros Hm H0 Hl Ha. destruct (valid_entry t n l Hl) as (e & He & Hs).
  destruct (valid_entry t n l0 H0) as (e0 & He0 & Hs0).
  destruct (Hm _ _ He) as [M1 M2]. unfold item_active in Ha. rewrite He in Ha.
  destruct (l_sub l) as [j|].
  - destruct (e_menu e !! j) as [b|] eqn:Eb; [|done]. cbn in Ha. subst b.
    pose proof (M2 j true Eb) as M. symmetry in M. apply bool_decide_eq_true in M as [M3 M4].
    by rewrite M4.
  - rewrite M1 in Ha. apply bool_decide_eq_true in Ha. split; [done|].
    rewrite Ha in He. rewrite He in He0. injection He0 as <-.
    destruct (l_sub l0); [|done]. rewrite Hs in Hs0. cbn in Hs0. lia.
Qed.

Lemma entries_places n l t :
  marked l t -> valid (layout t) n l -> places e_active (entries t) = [l_item l].
Proof.
  intros Hm Hv. apply places_one.
  - destruct (valid_entry t n l Hv) as (e & He & _). by apply lookup_lt_Some in He.
  - intros i e He. by apply (Hm i e He).
Qed.

Lemma activate_item_entries l t :
  entries (activate_item l t)
  = map_at (fun e => match l_sub l with
                     | None => e <| e_active := true |>
                     | Some j => Entry true (map_at (fun _ => true) [j] (e_menu e))
                     end) [l_item l]
      (map_at (fun e => Entry false (map (fun _ => false) (e_menu e)))
         (places e_active (entries t)) (entries t)).
Proof. done. Qed.

Lemma map_false_lookup (l : list bool) j b : map (fun _ => false) l !! j = Some b -> b = false.
Proof. intros H. by apply list_lookup_fmap_Some in H as (x & -> & _). Qed.

Lemma activate_item_marked n l0 l t :
  marked l0 t -> valid (layout t) n l0 -> valid (layout t) n l -> marked l (activate_item l t).
Proof.
  intros Hm H0 Hl i e He. rewrite activate_item_entries, (entries_places n l0) in He by done.
  rewrite !map_at_lookup in He. destruct (entries t !! i) as [d|] eqn:Ed; [|done].
  cbn in He. injection He as <-. destruct (Hm i d Ed) as [M1 M2].
  (* the entry once the old mark is gone *)
  set (d1 := if decide (i ∈ [l_item l0]) then _ else d).
  assert (D1 : e_active d1 = false /\ forall j b, e_menu d1 !! j = Some b -> b = false).
  { unfold d1. destruct (decide (i ∈ [l_item l0])) as [Hi|Hi].
    - split; [done|]. intros j b. apply map_false_lookup.
    - assert (i <> l_item l0) by set_solver. split; [by rewrite M1, bool_decide_false|].
      intros j b Hb. rewrite (M2 j b Hb). apply bool_decide_false. tauto. }
  destruct D1 as [D1 D2]. clearbody d1.
  destruct (decide (i ∈ [l_item l])) as [Hi|Hi].
  - assert (i = l_item l) as -> by set_solver. destruct (l_sub l) as [k|] eqn:Ek; cbn.
    + split; [by rewrite bool_decide_true|]. intros j b Hb. rewrite map_at_lookup in Hb.
      destruct (e_menu d1 !! j) as [c|] eqn:Ec; [|done]. cbn in Hb. injection Hb as <-.
      destruct (decide (j ∈ [k])) as [Hj|Hj].
      * assert (j = k) as -> by set_solver. by rewrite bool_decide_true.
      * rewrite (D2 j c Ec), bool_decide_false; [done|]. intros [_ E]. injection E as ->. set_solver.
    + split; [by rewrite bool_decide_true|]. intros j b Hb. rewrite (D2 j b Hb).
      rewrite bool_decide_false; [done|]. by intros [_ ?].
  - assert (i <> l_item l) by set_solver. split; [by rewrite D1, bool_decide_false|].
    intros j b Hb. rewrite (D2 j b Hb), bool_decide_false; [done|tauto].
Qed.

Lemma activate_item_layout l t : layout (activate_item l t) = layout t.
Proof.
  apply list_eq. intros i. unfold layout. rewrite !list_lookup_fmap, activate_item_entries.
  rewrite !map_at_lookup. destruct (entries t !! i) as [e|]; [|done]. cbn. f_equal.
  set (e1 := if decide (i ∈ places _ _) then _ else e).
  assert (E : length (e_menu e1) = length (e_menu e))
    by (unfold e1; destruct (decide _); [apply length_map|done]).
  clearbody e1. destruct (decide (i ∈ [l_item l])), (l_sub l); cbn; by rewrite ?map_at_length.
Qed.

(** * The marked link *)

Definition clicked (l : link) (e : event) : link :=
  match e with Click l' false => l' | _ => l end.

Definition good_click (lay : list nat) (n : nat) (e : event) : Prop :=
  match e with Click l _ => valid lay n l | PaneEnd _ => True end.

Lemma next_entries b w t : entries (next b w t) = entries t.
Proof. done. Qed.

Lemma activate_pane_entries l t : entries (activate_pane l t) = entries t.
Proof. unfold activate_pane. cbn zeta. by destruct (_ && _). Qed.

Lemma pane_end_entries (q : list (nat * waiting)) t :
  entries (foldl (fun t iw => next true (snd iw) t) t q) = entries t.
Proof. revert t. induction q as [|iw q IH]; intros t; [done|]. cbn. by rewrite IH. Qed.

Lemma marked_entries l t t' : entries t' = entries t -> marked l t -> marked l t'.
Proof. intros E H i e. rewrite E. apply H. Qed.

Lemma layout_entries t t' : entries t' = entries t -> layout t' = layout t.
Proof. intros E. unfold layout. by rewrite E. Qed.

(** The same place in the list. *)
Definition same_place (l l' : link) : Prop := l_item l = l_item l' /\ l_sub l = l_sub l'.

Lemma marked_same l l' t : same_place l l' -> marked l t -> marked l' t.
Proof. intros [E1 E2] H i e He. rewrite <- E1, <- E2. by apply H. Qed.

Lemma handle_marked n e l t :
  marked l t -> valid (layout t) n l -> good_click (layout t) n e ->
  marked (clicked l e) (handle e t) /\ layout (handle e t) = layout t.
Proof.
  intros Hm Hv Hg. destruct e as [l' p|i]; cbn [handle clicked good_click] in *.
  - unfold show. destruct (item_active l' t) eqn:Ea.
    + split; [|done]. destruct p; [done|].
      destruct (item_active_marked n l l' t) as [E1 E2]; [done..|].
      apply (marked_same l); [|done]. by split.
    + destruct p; [done|].
      assert (E : entries (activate_pane l' (activate_item l' (trigger (NShow l') t)))
                  = entries (activate_item l' t)) by by rewrite activate_pane_entries.
      split.
      * apply (marked_entries l' (activate_item l' t)); [done|]. by apply (activate_item_marked n l).
      * rewrite (layout_entries (activate_item l' t)) by done. apply activate_item_layout.
  - split.
    + apply (marked_entries l t); [|done]. by rewrite pane_end_entries.
    + apply layout_entries. by rewrite pane_end_entries.
Qed.

(** Whatever is clicked and whenever the transitions end, exactly one link is marked,
    the one last clicked that no listener prevented. *)
Theorem marked_link_is_last_clicked n l t es :
  marked l t -> valid (layout t) n l -> Forall (good_click (layout t) n) es ->
  marked (foldl clicked l es) (handle_all es t).
Proof.
  intros Hm Hv Hg. remember (layout t) as lay eqn:El. revert l t El Hm Hv.
  induction Hg as [|e es He Hes IH]; intros l t El Hm Hv; [done|]. subst lay.
  destruct (handle_marked n e l t Hm Hv He) as [Hm' El'].
  apply (IH (clicked l e) (handle e t)); [done..|].
  destruct e as [l' []|]; done.
Qed.

(** * The panes *)

(** The panes in [act] are active and no others. *)
Definition active_panes (act : nat -> Prop) `{!forall i, Decision (act i)} (t : tabs) : Prop :=
  forall i p, panes t !! i = Some p -> p_active p = bool_decide (act i).

(** Pane [a] is shown and nothing is pending. *)
Definition showing (a : nat) (t : tabs) : Prop :=
  a < length (panes t) /\ active_panes (fun i => i = a) t /\ pending t = [].

Lemma next_panes b (act : list nat) l (t : tabs) i p :
  panes (next b (Waiting act l) t) !! i = Some p ->
  exists q, panes t !! i = Some q /\
    p_active p = bool_decide (i = l_pane l) || (p_active q && negb (bool_decide (i ∈ act))).
Proof.
  intros H. change (panes (next b (Waiting act l) t)) with
    (map_at (fun p => if b then p <| p_active := true |> <| p_in := true |>
                      else p <| p_active := true |> <| p_fade := false |>) [l_pane l]
       (map_at (fun p => p <| p_active := false |>) act (panes t))) in H.
  rewrite !map_at_lookup in H. destruct (panes t !! i) as [q|] eqn:Eq; [|done].
  exists q. split; [done|]. cbn in H. injection H as <-.
  destruct (decide (i ∈ [l_pane l])) as [Hi|Hi].
  - rewrite bool_decide_true by set_solver. by destruct b.
  - rewrite (bool_decide_false (i = l_pane l)) by set_solver. cbn.
    destruct (decide (i ∈ act)) as [Ha|Ha].
    + by rewrite bool_decide_true, andb_false_r.
    + by rewrite bool_decide_false, andb_true_r.
Qed.

Lemma next_length b w t : length (panes (next b w t)) = length (panes t).
Proof.
  transitivity (length (map_at (fun p => if b then p <| p_active := true |> <| p_in := true |>
                      else p <| p_active := true |> <| p_fade := false |>) [l_pane (w_link w)]
       (map_at (fun p => p <| p_active := false |>) (w_active w) (panes t)))); [done|].
  by rewrite !map_at_length.
Qed.

Lemma next_active b a l t :
  active_panes (fun i => i = a) t ->
  active_panes (fun i => i = l_pane l) (next b (Waiting [a] l) t).
Proof.
  intros H i p Hp. destruct (next_panes b [a] l t i p Hp) as (q & Hq & ->).
  rewrite (H i q Hq). destruct (decide (i = l_pane l)) as [E|E].
  - by rewrite (bool_decide_true (i = l_pane l)).
  - rewrite (bool_decide_false (i = l_pane l)) by done. cbn.
    destruct (decide (i = a)) as [Ea|Ea].
    + rewrite (bool_decide_true (i ∈ [a])) by set_solver. by rewrite andb_false_r.
    + by rewrite (bool_decide_false (i = a)).
Qed.

(** Whether the change from pane [a] takes a transition. *)
Definition fades (a : nat) (t : tabs) : bool :=
  transitions t && match panes t !! a with Some p => p_fade p | None => false end.

Definition faded_out (a : nat) (t : tabs) : tabs :=
  t <| panes ::= map_at (fun p => p <| p_in := false |>) [a] |>.

Lemma activate_pane_result a l t :
  a < length (panes t) -> active_panes (fun i => i = a) t ->
  activate_pane l t
  = faded_out a (if fades a t then t <| pending ::= fun q => q ++ [(a, Waiting [a] l)] |>
                 else next false (Waiting [a] l) t).
Proof.
  intros Ha H. unfold activate_pane. cbn zeta.
  assert (places p_active (panes t) = [a]) as -> by (by apply places_one).
  unfold fades. cbn [existsb]. by rewrite orb_false_r.
Qed.

Lemma faded_out_active act `{Hact : !forall i, Decision (act i)} a t :
  active_panes act t -> active_panes act (faded_out a t).
Proof.
  intros H i p Hp. change (map_at (fun p => p <| p_in := false |>) [a] (panes t) !! i = Some p) in Hp.
  rewrite map_at_lookup in Hp. destruct (panes t !! i) as [q|] eqn:Eq; [|done].
  cbn in Hp. injection Hp as <-. rewrite <- (H i q Eq). by destruct (decide _).
Qed.

Lemma faded_out_length a t : length (panes (faded_out a t)) = length (panes t).
Proof.
  change (length (map_at (fun p => p <| p_in := false |>) [a] (panes t)) = length (panes t)).
  apply map_at_length.
Qed.

(** A click on a link that is not marked, and the end of the old pane's transition. *)
Lemma patient_click a l t :
  showing a t -> l_pane l < length (panes t) -> item_active l t = false ->
  let t' := handle_all [Click l false; PaneEnd a] t in
  showing (l_pane l) t' /\ length (panes t') = length (panes t).
Proof.
  intros (Ha & Hs & Hp) Hb Hi. cbn zeta.
  change (handle_all [Click l false; PaneEnd a] t) with (handle (PaneEnd a) (show l false t)).
  unfold show. rewrite Hi. set (t1 := activate_item l (trigger (NShow l) t)).
  rewrite (activate_pane_result a l t1) by done. cbn [handle].
  destruct (fades a t1).
  - set (u := faded_out a _). assert (Eq : pending u = [(a, Waiting [a] l)])
      by (change (pending t ++ [(a, Waiting [a] l)] = [(a, Waiting [a] l)]); by rewrite Hp).
    rewrite Eq. cbn [List.filter fst]. rewrite Nat.eqb_refl. cbn [negb foldl snd].
    set (v := u <| pending ::= _ |>).
    assert (Hv : active_panes (fun i => i = a) v) by (apply (faded_out_active _ a t1); exact Hs).
    assert (Hl : length (panes v) = length (panes t)) by apply (faded_out_length a t1).
    split; [|by rewrite next_length].
    split; [by rewrite next_length, Hl|]. split; [by apply next_active|].
    change (List.filter (fun iw => negb (Nat.eqb (fst iw) a)) (pending u) = []).
    rewrite Eq. cbn. by rewrite Nat.eqb_refl.
  - set (u := faded_out a _). assert (Eq : pending u = []) by exact Hp. rewrite Eq.
    cbn [List.filter foldl].
    assert (Hl : length (panes u) = length (panes t))
      by (unfold u; by rewrite faded_out_length, next_length).
    split; [|done]. split; [by rewrite <- Hl in Hb|]. split.
    + change (active_panes (fun i => i = l_pane l) u). apply faded_out_active, next_active. exact Hs.
    + change (List.filter (fun iw => negb (Nat.eqb (fst iw) a)) (pending u) = []). by rewrite Eq.
Qed.

(** A user who waits for the old pane before the next click. *)
Fixpoint visits (a : nat) (ls : list link) : list event :=
  match ls with
  | [] => []
  | l :: ls => Click l false :: PaneEnd a :: visits (l_pane l) ls
  end.

(** Links at the same place show the same pane. *)
Definition consistent (ls : list link) : Prop :=
  forall l l', l ∈ ls -> l' ∈ ls -> same_place l l' -> l_pane l = l_pane l'.

Lemma pane_end_idle a t : pending t = [] -> handle (PaneEnd a) t = t.
Proof. intros E. cbn [handle]. rewrite E. cbn. destruct t; cbn in E. by subst. Qed.

Lemma last_cons (l l0 : link) ls : List.last (l :: ls) l0 = List.last ls l.
Proof.
  revert l l0. induction ls as [|x ls IH]; intros l l0; [done|].
  change (List.last (x :: ls) l0 = List.last (x :: ls) l). by rewrite !IH.
Qed.

(** For a user who waits for the fade of the pane before the next click, the pane shown
    is that of the marked link, the last one clicked, and no other pane is active; with
    and without transitions. *)
Theorem patient_tabs n l0 ls t :
  marked l0 t -> length (panes t) = n -> Forall (valid (layout t) n) (l0 :: ls) ->
  consistent (l0 :: ls) -> showing (l_pane l0) t ->
  let t' := handle_all (visits (l_pane l0) ls) t in
  let l := List.last ls l0 in
  marked l t' /\ showing (l_pane l) t'.
Proof.
  revert l0 t. induction ls as [|l ls IH]; intros l0 t Hm Hn Hv Hc Hs; [done|].
  inversion_clear Hv as [|? ? Hv0 Hv']. inversion_clear Hv' as [|? ? Hv1 Hv2].
  set (t1 := handle_all [Click l false; PaneEnd (l_pane l0)] t).
  change (handle_all (visits (l_pane l0) (l :: ls)) t)
    with (handle_all (visits (l_pane l) ls) t1).
  assert (Hm1 : marked l t1 /\ layout t1 = layout t).
  { destruct (handle_marked n (Click l false) l0 t Hm Hv0 Hv1) as [M1 M2].
    cbn [clicked] in M1. rewrite <- M2 in Hv1.
    destruct (handle_marked n (PaneEnd (l_pane l0)) l _ M1 Hv1 I) as [M3 M4].
    split; [exact M3|]. by rewrite <- M2, <- M4. }
  destruct Hm1 as [Hm1 El].
  assert (Hs1 : showing (l_pane l) t1 /\ length (panes t1) = n).
  { destruct (item_active l t) eqn:Ea.
    - assert (E : t1 = t).
      { unfold t1. cbn [handle_all foldl]. change (handle (Click l false) t) with (show l false t).
        unfold show. rewrite Ea. by apply pane_end_idle, Hs. }
      rewrite E. split; [|done].
      destruct (item_active_marked n l0 l t Hm Hv0 Hv1 Ea) as [E1 E2].
      rewrite (Hc l l0); [done|set_solver|set_solver|by split].
    - destruct (patient_click (l_pane l0) l t Hs) as [S1 S2]; [|done|].
      + rewrite Hn. apply Hv1.
      + split; [exact S1|]. unfold t1. by rewrite S2. }
  destruct Hs1 as [Hs1 Hn1]. cbn zeta. rewrite last_cons.
  apply IH; try done.
  - rewrite El. by constructor.
  - intros x y Hx Hy. apply Hc; set_solver.
Qed.

(** A click while pane [a] can fade: its change waits. *)
Lemma fading_click a l t :
  a < length (panes t) -> active_panes (fun i => i = a) t -> fades a t = true ->
  item_active l t = false ->
  let t1 := handle (Click l false) t in
  pending t1 = pending t ++ [(a, Waiting [a] l)] /\ active_panes (fun i => i = a) t1 /\
  length (panes t1) = length (panes t) /\ fades a t1 = true.
Proof.
  intros Ha Hs Hf Hi. cbn zeta. cbn [handle]. unfold show. rewrite Hi.
  set (u := activate_item l (trigger (NShow l) t)).
  rewrite (activate_pane_result a l u) by done.
  assert (fades a u = true) as -> by exact Hf. set (v := u <| pending ::= _ |>).
  split; [done|]. split; [by apply (faded_out_active _ a v)|].
  split; [exact (faded_out_length a v)|].
  unfold fades in *. change (transitions (faded_out a v)) with (transitions t).
  change (panes (faded_out a v)) with (map_at (fun p => p <| p_in := false |>) [a] (panes t)).
  rewrite map_at_lookup. destruct (panes t !! a) as [p|]; [|done]. cbn.
  rewrite <- Hf. f_equal. by destruct (decide _).
Qed.

Lemma two_ends a w1 w2 t :
  pending t = [(a, w1); (a, w2)] ->
  handle (PaneEnd a) t = next true w2 (next true w1 (t <| pending := [] |>)).
Proof.
  intros E. cbn [handle]. rewrite E. cbn [List.filter fst]. rewrite Nat.eqb_refl. cbn [foldl snd].
  do 2 f_equal. destruct t as [? ? ? q ?]. cbn in E. subst q.
  transitivity (Tabs transitions entries panes
    (List.filter (fun iw => negb (Nat.eqb (fst iw) a)) [(a, w1); (a, w2)]) notices); [done|].
  cbn. by rewrite Nat.eqb_refl.
Qed.

(** Two clicks before the first pane has faded out show two panes at once: when its
    transition ends, the panes of both links are active, though only the second link is
    marked. *)
Theorem hasty_tabs_show_two n l0 l1 l2 t :
  marked l0 t -> length (panes t) = n -> Forall (valid (layout t) n) [l0; l1; l2] ->
  showing (l_pane l0) t -> fades (l_pane l0) t = true ->
  ~ same_place l1 l0 -> ~ same_place l2 l1 -> NoDup [l_pane l0; l_pane l1; l_pane l2] ->
  let t' := handle_all [Click l1 false; Click l2 false; PaneEnd (l_pane l0)] t in
  marked l2 t' /\ active_panes (fun i => i = l_pane l1 \/ i = l_pane l2) t' /\ pending t' = [].
Proof.
  intros Hm Hn Hv Hs Hf N1 N2 Hd. inversion_clear Hv as [|? ? V0 Hv'].
  inversion_clear Hv' as [|? ? V1 Hv'']. inversion_clear Hv'' as [|? ? V2 _].
  destruct Hs as (Ha & Hact & Hp). set (a := l_pane l0) in *.
  assert (I1 : item_active l1 t = false).
  { destruct (item_active l1 t) eqn:E; [|done]. destruct N1. exact (item_active_marked n l0 l1 t Hm V0 V1 E). }
  destruct (fading_click a l1 t Ha Hact Hf I1) as (P1 & A1 & L1 & F1).
  destruct (handle_marked n (Click l1 false) l0 t Hm V0 V1) as [M1 E1]. cbn [clicked] in M1.
  set (t1 := handle (Click l1 false) t) in *. rewrite <- E1 in V1, V2.
  assert (I2 : item_active l2 t1 = false).
  { destruct (item_active l2 t1) eqn:E; [|done]. destruct N2. exact (item_active_marked n l1 l2 t1 M1 V1 V2 E). }
  rewrite <- L1 in Ha. destruct (fading_click a l2 t1 Ha A1 F1 I2) as (P2 & A2 & L2 & F2).
  destruct (handle_marked n (Click l2 false) l1 t1 M1 V1 V2) as [M2 E2]. cbn [clicked] in M2.
  set (t2 := handle (Click l2 false) t1) in *. rewrite P1, Hp in P2. cbn [app] in P2.
  cbn zeta. change (handle_all _ t) with (handle (PaneEnd a) t2).
  rewrite (two_ends a _ _ t2 P2). split; [exact M2|]. split; [|done].
  intros i p Hi. destruct (next_panes true [a] l2 _ i p Hi) as (q & Hq & ->).
  destruct (next_panes true [a] l1 _ i q Hq) as (r & Hr & ->). rewrite (A2 i r Hr).
  rewrite !NoDup_cons in Hd. destruct Hd as (D0 & D1 & _).
  destruct (decide (i = l_pane l2)) as [->|E'].
  { rewrite (bool_decide_true (l_pane l2 = l_pane l2)) by done. cbn. symmetry. apply bool_decide_true. by right. }
  rewrite (bool_decide_false (i = l_pane l2)) by done. cbn.
  destruct (decide (i = l_pane l1)) as [->|E''].
  - rewrite (bool_decide_true (l_pane l1 = l_pane l1)) by done. cbn.
    rewrite (bool_decide_false (l_pane l1 ∈ [a])) by set_solver. cbn.
    symmetry. apply bool_decide_true. by left.
  - rewrite (bool_decide_false (i = l_pane l1)) by done. cbn.
    rewrite (bool_decide_false (_ \/ _)) by tauto.
    destruct (decide (i = a)) as [->|Ea]; [|by rewrite (bool_decide_false (i = a))].
    rewrite (bool_decide_true (a ∈ [a])) by set_solver. by rewrite andb_false_r.
Qed.

(** * Witnesses: two links and a menu of two *)

Definition home : link := Link 0 None 0.
Definition profile : link := Link 1 None 1.
Definition fat : link := Link 2 (Some 0) 2.
Definition mdo : link := Link 2 (Some 1) 3.

Definition page : tabs :=
  Tabs true [Entry true []; Entry false []; Entry false [false; false]]
    [Pane true true true; Pane false false true; Pane false false true; Pane false false true]
    [] [].

Lemma page_marked : marked home page.
Proof.
  intros i e He. destruct i as [|[|[|i]]]; try discriminate He; injection He as <-;
    (split; [reflexivity|]); intros j b Hj; try discriminate Hj.
  destruct j as [|[|j]]; try discriminate Hj; by injection Hj as <-.
Qed.

Lemma page_valid ls : ls ⊆ [home; profile; fat; mdo] -> Forall (valid (layout page) 4) ls.
Proof.
  intros H. apply Forall_forall. intros l Hl%H.
  assert (A : Forall (valid (layout page) 4) [home; profile; fat; mdo]).
  { repeat constructor; cbn; try lia; try done; exists 2; split; done || lia. }
  rewrite Forall_forall in A. by apply A.
Qed.

Lemma page_showing : showing 0 page.
Proof.
  split; [cbn; lia|]. split; [|done]. intros i p Hp.
  destruct i as [|[|[|[|i]]]]; try discriminate Hp; by injection Hp as <-.
Qed.

Lemma marked_link_is_last_clicked_witness :
  marked mdo (handle_all [Click fat false; Click mdo false; PaneEnd 0; Click profile true] page).
Proof.
  apply (marked_link_is_last_clicked 4 home page
    [Click fat false; Click mdo false; PaneEnd 0; Click profile true] page_marked).
  - exact (Forall_inv (page_valid [home] ltac:(set_solver))).
  - pose proof (page_valid [fat; mdo; profile] ltac:(set_solver)) as H.
    rewrite !Forall_cons in H. destruct H as (H1 & H2 & H3 & _).
    apply Forall_cons_2; [exact H1|]. apply Forall_cons_2; [exact H2|].
    apply Forall_cons_2; [exact I|]. apply Forall_cons_2; [exact H3|constructor].
Defined.

Lemma patient_tabs_witness :
  showing 2 (handle_all (visits 0 [profile; mdo; home; fat]) page).
Proof.
  apply (patient_tabs 4 home [profile; mdo; home; fat] page page_marked eq_refl).
  - apply page_valid. set_solver.
  - intros l l' Hl Hl' [E1 E2].
    repeat (apply elem_of_cons in Hl as [->|Hl]; [|]); try by apply elem_of_nil in Hl.
    all: repeat (apply elem_of_cons in Hl' as [->|Hl']; [try done|]); try by apply elem_of_nil in Hl'.
  - exact page_showing.
Defined.

Lemma hasty_tabs_show_two_witness :
  active_panes (fun i => i = 1 \/ i = 2)
    (handle_all [Click profile false; Click fat false; PaneEnd 0] page).
Proof.
  destruct (hasty_tabs_show_two 4 home profile fat page page_marked eq_refl) as (_ & H & _).
  - apply page_valid. set_solver.
  - exact page_showing.
  - reflexivity.
  - intros [E _]. discriminate E.
  - intros [E _]. discriminate E.
  - apply (bool_decide_unpack (NoDup _)). vm_compute. exact I.
  - exact H.
Defined.
