(* ===== verification/ScrollSpy.v ===== *)
(** ScrollSpy: Bootstrap's scroll spy as the Fuel UX bundle carries it (fuelux/dist/all.js,
    bootstrap-scrollspy.js): the navigation link of the section in view is marked.

    Positions are pixels, integers here; where the page has no element for a link its
    position is [None].  The scroll position and the height at each event are given.  The
    sort of the sections is taken to be stable. *)

From Stdlib Require Import Sorting.Sorted.
From S2P Require Import Prelude.
From coqutil Require Import Datatypes.RecordSettersUsingExistingGetters.

(** A link of the navigation: its target, where that is in the page when there is such an
    element, and the list item of the dropdown it is in. *)
Record nav_link := NavLink { n_href : jstr; n_top : option Z; n_dropdown : option nat }.

Record spy := Spy {
  links : list nav_link;
  offset : Z;                      (* options.offset *)
  offsets : list Z;
  targets : list jstr;
  activeTarget : option jstr;
  marks : list bool;               (* the class active of the links' list items *)
  activated : list jstr            (* 'activate' events, the latest last *)
}.

(** [/^#\w/.test(href)]. *)
Definition word_char (c : N) : bool :=
  bool_decide (48 <= c <= 57)%N || bool_decide (65 <= c <= 90)%N || bool_decide (97 <= c <= 122)%N
  || bool_decide (c = 95)%N.

Definition is_hash (href : jstr) : bool :=
  match href with h :: c :: _ => bool_decide (h = 35)%N && word_char c | _ => false end.

(** [.sort(function (a, b) { return a[0] - b[0] })]. *)
Fixpoint insert_section (s : Z * jstr) (l : list (Z * jstr)) : list (Z * jstr) :=
  match l with
  | [] => [s]
  | r :: l' => if (fst s <? fst r)%Z then s :: l else r :: insert_section s l'
  end.

Definition sort_sections (l : list (Z * jstr)) : list (Z * jstr) :=
  foldl (fun acc s => insert_section s acc) [] l.

(** The sections of the links that lead to one; [scrolled] is the scroll position of an
    element that is not the window, else 0. *)
Definition sections (scrolled : Z) (l : list nav_link) : list (Z * jstr) :=
  omap (fun n => if is_hash (n_href n) then (fun top => ((top + scrolled)%Z, n_href n)) <$> n_top n
                 else None) l.

Definition refresh (scrolled : Z) (s : spy) : spy :=
  let found := sort_sections (sections scrolled (links s)) in
  s <| offsets := map fst found |> <| targets := map snd found |>.

(** The list items marked for a target: those of its links and their dropdowns. *)
Definition marks_of (target : jstr) (l : list nav_link) : list bool :=
  let hit n := bool_decide (n_href n = target) in
  let dropdowns := omap (fun n => if hit n then n_dropdown n else None) l in
  imap (fun i n => hit n || bool_decide (i ∈ dropdowns)) l.

Definition activate (target : jstr) (s : spy) : spy :=
  s <| activeTarget := Some target |> <| marks := marks_of target (links s) |>
    <| activated ::= fun l => l ++ [target] |>.

(** A section, and the offset of the one after it. *)
Definition rows (s : spy) : list (Z * jstr * option Z) :=
  imap (fun i ot => (ot, offsets s !! S i)) (zip (offsets s) (targets s)).

(** The test of the loop; an offset 0 counts as missing. *)
Definition in_section (active : option jstr) (scrollTop : Z) (r : Z * jstr * option Z) : bool :=
  negb (bool_decide (active = Some (snd (fst r)))) && (fst (fst r) <=? scrollTop)%Z &&
  match snd r with
  | Some o => (o =? 0)%Z || (scrollTop <=? o)%Z
  | None => true
  end.

(** [process]: the loop goes from the last section to the first, and compares with the
    target that was active before it. *)
Definition process (scroll maxScroll : Z) (s : spy) : spy :=
  let scrollTop := (scroll + offset s)%Z in
  let active := activeTarget s in
  if (maxScroll <=? scrollTop)%Z then
    match list.last (targets s) with
    | Some t => if bool_decide (active = Some t) then s else activate t s
    | None => s
    end
  else foldr (fun r s => if in_section active scrollTop r then activate (snd (fst r)) s else s) s
         (rows s).

(** [new ScrollSpy(element, options)]: nothing is marked that the markup does not mark. *)
Definition ScrollSpy_new (l : list nav_link) (o : Z) (m : list bool) (scrolled scroll maxScroll : Z)
    : spy :=
  process scroll maxScroll (refresh scrolled (Spy l o [] [] None m [])).

(** * Sorted sections *)

Lemma insert_section_perm s l : Permutation (insert_section s l) (s :: l).
Proof.
  induction l as [|r l IH]; [done|]. cbn. destruct (_ <? _)%Z; [done|].
  rewrite IH. apply Permutation_swap.
Qed.

Lemma sort_sections_perm l : Permutation (sort_sections l) l.
Proof.
  unfold sort_sections.
  assert (G : forall acc, Permutation (foldl (fun acc s => insert_section s acc) acc l) (acc ++ l)).
  { induction l as [|s l IH]; intros acc; cbn; [by rewrite app_nil_r|].
    rewrite IH, insert_section_perm. cbn. apply Permutation_middle. }
  apply (G []).
Qed.

Lemma insert_section_sorted s l :
  StronglySorted (fun a b => (fst a <= fst b)%Z) l ->
  StronglySorted (fun a b => (fst a <= fst b)%Z) (insert_section s l).
Proof.
  induction 1 as [|r l Hl IH Hr]; cbn; [by repeat constructor|].
  destruct (Z.ltb_spec (fst s) (fst r)).
  - constructor; [by constructor|]. constructor; [lia|].
    eapply Forall_impl; [exact Hr|]. cbn. intros; lia.
  - constructor; [done|]. rewrite (insert_section_perm s l). constructor; [lia|done].
Qed.

Lemma sort_sections_sorted l : StronglySorted (fun a b => (fst a <= fst b)%Z) (sort_sections l).
Proof.
  unfold sort_sections.
  assert (G : forall acc, StronglySorted (fun a b => (fst a <= fst b)%Z) acc ->
    StronglySorted (fun a b => (fst a <= fst b)%Z) (foldl (fun acc s => insert_section s acc) acc l)).
  { induction l as [|s l IH]; intros acc H; [done|]. by apply IH, insert_section_sorted. }
  apply G. constructor.
Qed.

(** What [refresh] collects: every link's section once, by position. *)
Lemma refresh_sorted scrolled s :
  let s' := refresh scrolled s in
  Permutation (zip (offsets s') (targets s')) (sections scrolled (links s)) /\
  Sorted Z.le (offsets s').
Proof.
  cbn zeta. set (found := sort_sections (sections scrolled (links s))). split.
  - change (Permutation (zip (map fst found) (map snd found)) (sections scrolled (links s))).
    rewrite zip_fst_snd. apply sort_sections_perm.
  - change (Sorted Z.le (map fst found)). apply StronglySorted_Sorted.
    pose proof (sort_sections_sorted (sections scrolled (links s))) as H. fold found in H.
    induction H as [|x l Hl IH Hx]; [constructor|]. constructor; [done|]. by apply Forall_fmap.
Qed.

(** * The section in view *)

Lemma foldr_none {A B} (test : A -> bool) (f : A -> B -> B) l s :
  (forall i r, l !! i = Some r -> test r = false) ->
  foldr (fun r s => if test r then f r s else s) s l = s.
Proof.
  induction l as [|x l IH]; intros H; [done|]. cbn. rewrite (H 0 x eq_refl).
  apply IH. intros i r Hi. by apply (H (S i)).
Qed.

(** A loop whose test holds at most at [k]. *)
Lemma foldr_one {A B} (test : A -> bool) (f : A -> B -> B) k l s :
  (forall i r, l !! i = Some r -> test r = true -> i = k) ->
  foldr (fun r s => if test r then f r s else s) s l
  = match l !! k with Some r => if test r then f r s else s | None => s end.
Proof.
  revert k. induction l as [|x l IH]; intros k H; [done|]. cbn [foldr].
  destruct k as [|k].
  - rewrite foldr_none; [done|]. intros i r Hi. destruct (test r) eqn:E; [|done].
    by specialize (H (S i) r Hi E).
  - rewrite (IH k) by (intros i r Hi E; specialize (H (S i) r Hi E); lia).
    destruct (test x) eqn:E; [by specialize (H 0 x eq_refl E)|]. done.
Qed.

Lemma rows_lookup s i o t nxt :
  rows s !! i = Some (o, t, nxt) <->
  offsets s !! i = Some o /\ targets s !! i = Some t /\ nxt = offsets s !! S i.
Proof.
  unfold rows. rewrite list_lookup_imap, lookup_zip_with.
  destruct (offsets s !! i) as [o'|], (targets s !! i) as [t'|]; cbn; split;
    try (by intros [=]); try (by intros (? & ? & ?)).
  - intros [= -> -> <-]. done.
  - by intros ([= ->] & [= ->] & ->).
Qed.

(** Sections at different positions, none at 0 but the first. *)
Definition spread (l : list Z) : Prop :=
  (forall i j a b, l !! i = Some a -> l !! j = Some b -> i < j -> (a < b)%Z) /\
  (forall i, l !! S i <> Some 0%Z).

(** The section of number [k] holds the position. *)
Definition inside (l : list Z) (k : nat) (pos : Z) : Prop :=
  (exists o, l !! k = Some o /\ (o < pos)%Z) /\ (forall o, l !! S k = Some o -> (pos < o)%Z).

Lemma in_section_inside active s k pos i o t :
  spread (offsets s) -> inside (offsets s) k pos ->
  offsets s !! i = Some o ->
  in_section active pos (o, t, offsets s !! S i) = true -> i = k.
Proof.
  intros [Hsp Hz] [(ok & Hk & Hlt) Hnext] Hi H. unfold in_section in H. cbn [fst snd] in H.
  apply andb_true_iff in H as [H H3]. apply andb_true_iff in H as [_ H2]. apply Z.leb_le in H2.
  destruct (Nat.lt_trichotomy i k) as [Hlt'|[->|Hgt]]; [|done|].
  - assert (Hs : exists o', offsets s !! S i = Some o' /\ (o' <= ok)%Z).
    { destruct (decide (S i = k)) as [<-|Hne]; [exists ok; split; [done|lia]|].
      destruct (lookup_lt_is_Some_2 (offsets s) (S i)) as [o' Ho'].
      { apply lookup_lt_Some in Hk. lia. }
      exists o'. split; [done|]. specialize (Hsp (S i) k o' ok Ho' Hk ltac:(lia)). lia. }
    destruct Hs as (o' & Ho' & Hle). rewrite Ho' in H3. apply orb_true_iff in H3 as [H3|H3].
    + apply Z.eqb_eq in H3. subst. by destruct (Hz i).
    + apply Z.leb_le in H3. lia.
  - destruct (lookup_lt_is_Some_2 (offsets s) (S k)) as [o' Ho'].
    { apply lookup_lt_Some in Hi. lia. }
    specialize (Hnext o' Ho'). destruct (decide (i = S k)) as [->|Hne].
    + rewrite Hi in Ho'. injection Ho' as ->. lia.
    + specialize (Hsp (S k) i o' o Ho' Hi ltac:(lia)). lia.
Qed.

(** Away from the end of the page and from the edges of the sections, scrolling marks
    the links of the section in view and of no other, and announces it once, when it
    was not marked before. *)
Theorem spy_marks_section scroll maxScroll s k t :
  spread (offsets s) -> (scroll + offset s < maxScroll)%Z ->
  inside (offsets s) k (scroll + offset s) -> targets s !! k = Some t ->
  process scroll maxScroll s
  = if bool_decide (activeTarget s = Some t) then s else activate t s.
Proof.
  intros Hsp Hm Hin Ht. unfold process. cbn zeta. destruct (Z.leb_spec maxScroll (scroll + offset s)); [lia|].
  pose proof Hin as [(o & Ho & Hlt) Hnext].
  rewrite (foldr_one (in_section (activeTarget s) (scroll + offset s)) _ k).
  - assert (Hr : rows s !! k = Some (o, t, offsets s !! S k)) by by apply rows_lookup.
    rewrite Hr. cbn [fst snd]. unfold in_section. cbn [fst snd].
    rewrite (proj2 (Z.leb_le o (scroll + offset s))) by lia.
    destruct (offsets s !! S k) as [o'|].
    + specialize (Hnext o' eq_refl). rewrite (proj2 (Z.leb_le (scroll + offset s) o')) by lia.
      rewrite orb_true_r, !andb_true_r. by destruct (bool_decide _).
    + rewrite !andb_true_r. by destruct (bool_decide _).
  - intros i [[oi ti] nxt] Hi He. apply rows_lookup in Hi as (H1 & H2 & ->).
    by apply (in_section_inside (activeTarget s) s k (scroll + offset s) i oi ti).
Qed.

Lemma in_section_edge active s k pos i o t :
  spread (offsets s) -> offsets s !! S k = Some pos -> offsets s !! i = Some o ->
  in_section active pos (o, t, offsets s !! S i) = true -> i = k \/ i = S k.
Proof.
  intros [Hsp Hz] Hk Hi H. unfold in_section in H. cbn [fst snd] in H.
  apply andb_true_iff in H as [H H3]. apply andb_true_iff in H as [_ H2]. apply Z.leb_le in H2.
  destruct (Nat.lt_trichotomy i k) as [Hlt|[->|Hgt]]; [|by left|].
  - destruct (lookup_lt_is_Some_2 (offsets s) (S i)) as [o' Ho'].
    { apply lookup_lt_Some in Hk. lia. }
    rewrite Ho' in H3. apply orb_true_iff in H3 as [H3|H3].
    + apply Z.eqb_eq in H3. subst. by destruct (Hz i).
    + apply Z.leb_le in H3. specialize (Hsp (S i) (S k) o' pos Ho' Hk ltac:(lia)). lia.
  - destruct (decide (i = S k)) as [->|Hne]; [by right|].
    specialize (Hsp (S k) i pos o Hk Hi ltac:(lia)). lia.
Qed.

(** One event at the edge between the sections [k] and [k + 1]. *)
Lemma edge_step scroll maxScroll s k t1 t2 :
  spread (offsets s) -> (scroll + offset s < maxScroll)%Z ->
  offsets s !! S k = Some (scroll + offset s)%Z ->
  targets s !! k = Some t1 -> targets s !! S k = Some t2 -> t1 <> t2 ->
  (activeTarget s = Some t1 -> process scroll maxScroll s = activate t2 s) /\
  (activeTarget s = Some t2 -> process scroll maxScroll s = activate t1 s).
Proof.
  intros Hsp Hm Hk Ht1 Ht2 Hne. unfold process. cbn zeta.
  destruct (Z.leb_spec maxScroll (scroll + offset s)); [lia|].
  set (pos := (scroll + offset s)%Z) in *.
  destruct (lookup_lt_is_Some_2 (offsets s) k) as [o1 Ho1]; [apply lookup_lt_Some in Hk; lia|].
  pose proof (proj1 Hsp k (S k) o1 pos Ho1 Hk ltac:(lia)) as Hlt.
  assert (R1 : rows s !! k = Some (o1, t1, Some pos)) by by apply rows_lookup.
  assert (R2 : rows s !! S k = Some (pos, t2, offsets s !! S (S k))) by by apply rows_lookup.
  assert (E : forall i oi ti nxt, rows s !! i = Some (oi, ti, nxt) ->
    in_section (activeTarget s) pos (oi, ti, nxt) = true -> i = k \/ i = S k).
  { intros i oi ti nxt Hi He. apply rows_lookup in Hi as (H1 & H2 & ->).
    by apply (in_section_edge (activeTarget s) s k pos i oi ti). }
  assert (N : forall i oi ti nxt, rows s !! i = Some (oi, ti, nxt) ->
    activeTarget s = Some ti -> in_section (activeTarget s) pos (oi, ti, nxt) = false)
    by (intros i oi ti nxt _ Ha; unfold in_section; cbn; by rewrite bool_decide_true).
  split; intros Ha.
  - rewrite (foldr_one (in_section (activeTarget s) pos) _ (S k)), R2.
    + unfold in_section. cbn [fst snd]. rewrite bool_decide_false by congruence.
      rewrite (proj2 (Z.leb_le pos pos)) by lia. cbn [negb andb].
      destruct (offsets s !! S (S k)) as [o3|] eqn:E3; [|done].
      pose proof (proj1 Hsp (S k) (S (S k)) pos o3 Hk E3 ltac:(lia)).
      rewrite (proj2 (Z.leb_le pos o3)) by lia. by rewrite orb_true_r.
    + intros i [[oi ti] nxt] Hi He. destruct (E i oi ti nxt Hi He) as [->| ->]; [|done].
      rewrite R1 in Hi. injection Hi as <- <- <-. by rewrite (N k o1 t1 _ R1 Ha) in He.
  - rewrite (foldr_one (in_section (activeTarget s) pos) _ k), R1.
    + unfold in_section. cbn [fst snd]. rewrite bool_decide_false by congruence.
      rewrite (proj2 (Z.leb_le o1 pos)) by lia. rewrite (proj2 (Z.leb_le pos pos)) by lia.
      by rewrite orb_true_r.
    + intros i [[oi ti] nxt] Hi He. destruct (E i oi ti nxt Hi He) as [->| ->]; [done|].
      rewrite R2 in Hi. injection Hi as <- <- <-. by rewrite (N (S k) pos t2 _ R2 Ha) in He.
Qed.

(** At the very edge of two sections the mark does not settle: as long as the page
    stands there, each scroll event moves it from the one section to the other. *)
Theorem spy_flickers_at_edge scroll maxScroll s k t1 t2 n :
  spread (offsets s) -> (scroll + offset s < maxScroll)%Z ->
  offsets s !! S k = Some (scroll + offset s)%Z ->
  targets s !! k = Some t1 -> targets s !! S k = Some t2 -> t1 <> t2 ->
  activeTarget s = Some t1 ->
  activeTarget (Nat.iter n (process scroll maxScroll) s)
    = Some (if Nat.even n then t1 else t2) /\
  length (activated (Nat.iter n (process scroll maxScroll) s)) = length (activated s) + n.
Proof.
  intros Hsp Hm Hk Ht1 Ht2 Hne Ha.
  assert (G : let u := Nat.iter n (process scroll maxScroll) s in
    offsets u = offsets s /\ targets u = targets s /\ offset u = offset s /\
    activeTarget u = Some (if Nat.even n then t1 else t2) /\
    length (activated u) = length (activated s) + n).
  { induction n as [|n IH]; [by rewrite Nat.add_0_r|].
    cbn zeta in IH. rewrite Nat.iter_succ. set (u := Nat.iter n (process scroll maxScroll) s) in *.
    destruct IH as (E1 & E2 & E3 & E4 & E5). rewrite <- E1 in Hsp, Hk. rewrite <- E2 in Ht1, Ht2.
    rewrite <- E3 in Hm, Hk.
    destruct (edge_step scroll maxScroll u k t1 t2 Hsp Hm Hk Ht1 Ht2 Hne) as [S1 S2].
    rewrite Nat.even_succ, <- Nat.negb_even. destruct (Nat.even n).
    - rewrite (S1 E4). do 3 (split; [done|]). split; [done|]. cbn. rewrite length_app. cbn. lia.
    - rewrite (S2 E4). do 3 (split; [done|]). split; [done|]. cbn. rewrite length_app. cbn. lia. }
  destruct G as (_ & _ & _ & G1 & G2). by split.
Qed.

(** * Witnesses *)

Definition manual : spy :=
  ScrollSpy_new [NavLink (js "#intro") (Some 0%Z) None; NavLink (js "#use") (Some 900%Z) (Some 3);
                 NavLink (js "#install") (Some 400%Z) None; NavLink (js "#") None None]
    10 [false; false; false; false] 0 0 5000.

Example manual_sections : (offsets manual, targets manual, marks manual)
  = ([0; 400; 900]%Z, [js "#intro"; js "#install"; js "#use"], [true; false; false; false]).
Proof. vm_compute. reflexivity. Qed.

Lemma manual_spread : spread (offsets manual).
Proof.
  assert (E : offsets manual = [0; 400; 900]%Z) by (vm_compute; reflexivity). rewrite E. split.
  - intros i j a b Hi Hj Hij.
    destruct i as [|[|[|i]]], j as [|[|[|j]]]; try discriminate; try lia;
      injection Hi as <-; injection Hj as <-; lia.
  - intros [|[|[|i]]] H; discriminate.
Qed.

Lemma spy_marks_section_witness :
  activeTarget (process 500 5000 manual) = Some (js "#install").
Proof.
  rewrite (spy_marks_section 500 5000 manual 1 (js "#install") manual_spread); [reflexivity| | |].
  - vm_compute. reflexivity.
  - split; [exists 400%Z; split; vm_compute; reflexivity|].
    intros o Ho. assert (E : o = 900%Z) by (vm_compute in Ho; congruence). subst. vm_compute. reflexivity.
  - vm_compute. reflexivity.
Defined.

Lemma spy_flickers_at_edge_witness :
  activeTarget (Nat.iter 3 (process 390 5000) manual) = Some (js "#install").
Proof.
  apply (spy_flickers_at_edge 390 5000 manual 0 (js "#intro") (js "#install") 3 manual_spread);
    try (vm_compute; reflexivity); try (intros E; vm_compute in E; discriminate E).
Defined.
