(* ===== verification/Form.v ===== *)
(** Form: the controls of the jQuery Form plugin (jquery/jquery.form.js): what a form
    sends, how it is printed, how it is cleared.

    A form is the list of the elements inside it, in tree order, each with the
    properties the plugin reads; [form.elements] and the descendants that match a
    selector are filters of that list, and an element is referred to by its number.  No
    control is named like a property of the form that the plugin uses (elements, clk),
    but one may be called reset.  What the browser does when a property is set is the
    class [Dom]. *)

From S2P Require Import Prelude Numbers Uri.
From coqutil Require Import Datatypes.RecordSettersUsingExistingGetters.

(** [o_attr] is the attribute value and whether it is [specified]. *)
Record opt := Opt {
  o_value : jstr;
  o_text : jstr;
  o_selected : bool;
  o_disabled : bool;
  o_attr : option bool;
  o_grouped : bool                 (* its parent is an optgroup *)
}.

(** The properties tagName, type, name, id, disabled, checked, value, options, files and
    required, and the attributes type and value; [None] is undefined, or no attribute.
    [owned] says that the property form of the element is this form. *)
Record elt := Elt {
  e_id : nat;
  tagName : jstr;
  ty : option jstr;
  type_attr : option jstr;
  value_attr : option jstr;
  name : option jstr;
  dom_id : option jstr;
  disabled : bool;
  checked : bool;
  value : option jstr;
  opts : list opt;
  files : list nat;
  required : option bool;
  owned : bool
}.

(** [clk], [clk_x] and [clk_y] are the variables the plugin keeps on the form. *)
Record form := Form {
  els : list elt;
  clk : option nat;
  clk_x : option Z;
  clk_y : option Z
}.

Definition ascii_lower (s : jstr) : jstr :=
  map (fun c => if bool_decide (65 <= c <= 90)%N then (c + 32)%N else c) s.

Definition tag (el : elt) : jstr := ascii_lower (tagName el).
Definition is_tag (s : string) (el : elt) : bool := bool_decide (tag el = js s).
Definition is_type (s : string) (el : elt) : bool := bool_decide (ty el = Some (js s)).

(** [selectedIndex], [None] for -1. *)
Definition selectedIndex (el : elt) : option nat :=
  fst <$> list_find (fun o => o_selected o = true) (opts el).

(** jQuery's [val] of an element that is not a select. *)
Definition val (el : elt) : jstr :=
  match value el with
  | Some s => filter (fun c => c ≠ 13%N) s
  | None => []
  end.

(** * [$.fieldValue] *)

Inductive fval := FNull | FStr (s : jstr) | FArr (l : list jstr).

Definition option_value (op : opt) : jstr :=
  let v := o_value op in
  if negb (truthy v)
  then match o_attr op with Some false => o_text op | _ => o_value op end
  else v.

(** The loop over the options; [return v] leaves it for a select-one. *)
Fixpoint option_loop (one : bool) (ops : list opt) (a : list jstr) : fval :=
  match ops with
  | [] => FArr a
  | op :: ops =>
      if o_selected op then
        let v := option_value op in
        if one then FStr v else option_loop one ops (a ++ [v])
      else option_loop one ops a
  end.

(** The condition under which a control that must be successful has no value. *)
Definition unsuccessful (f : form) (el : elt) : bool :=
  negb (truthy (name el)) || disabled el || is_type "reset" el || is_type "button" el
  || (is_type "checkbox" el || is_type "radio" el) && negb (checked el)
  || (is_type "submit" el || is_type "image" el) && owned el
     && bool_decide (clk f ≠ Some (e_id el))
  || is_tag "select" el && negb (present (selectedIndex el)).

Definition fieldValue (f : form) (el : elt) (successful : option bool) : fval :=
  let successful := default true successful in
  if successful && unsuccessful f el then FNull
  else if is_tag "select" el then
    match selectedIndex el with
    | None => FNull
    | Some index =>
        let one := is_type "select-one" el in
        let max := if one then (index + 1)%nat else length (opts el) in
        let i := if one then index else 0%nat in
        option_loop one (take (max - i) (drop i (opts el))) []
    end
  else FStr (val el).

(** [$.fn.fieldValue]: the values of a set of elements. *)
Definition fn_fieldValue (f : form) (set : list elt) (successful : option bool) : list jstr :=
  concat (map (fun el => match fieldValue f el successful with
                         | FNull | FArr [] => []
                         | FArr v => v
                         | FStr v => [v]
                         end) set).

(** * [formToArray] *)

(** A value that is sent: a text, a file, or a coordinate (null after a reset). *)
Inductive evalue := VText (s : jstr) | VFile (n : nat) | VCoord (z : option Z).

Record entry := Entry {
  en_name : jstr;
  en_value : evalue;
  en_type : option jstr;
  en_required : option bool
}.

(** [form.elements]: the listed controls, without the image inputs. *)
Definition listed (el : elt) : bool :=
  owned el
  && bool_decide (tag el ∈ map js ["button"; "fieldset"; "input"; "object"; "output";
                                   "select"; "textarea"; "keygen"])
  && negb (is_tag "input" el && is_type "image" el).

Definition plain_entry (n v : jstr) : entry := Entry n (VText v) None None.

Definition image_coords (f : form) (n : jstr) : list entry :=
  [Entry (n ++ js ".x") (VCoord (clk_x f)) None None;
   Entry (n ++ js ".y") (VCoord (clk_y f)) None None].

(** One pass of the loop: what is pushed on [a] and on [elements].  [fileapi] is
    [feature.fileapi]. *)
Definition gather (fileapi : bool) (f : form) (semantic : bool) (el : elt)
    : list entry * list nat :=
  let n := default [] (name el) in
  if negb (truthy (name el)) || disabled el then ([], [])
  else if semantic && present (clk f) && is_type "image" el then
    (if bool_decide (clk f = Some (e_id el))
     then Entry n (VText (val el)) (ty el) None :: image_coords f n else [], [])
  else match fieldValue f el (Some true) with
       | FArr v => (map (plain_entry n) v, [e_id el])
       | v =>
           if fileapi && is_type "file" el then
             (match files el with
              | [] => [Entry n (VText []) (ty el) None]
              | fs => map (fun x => Entry n (VFile x) (ty el) None) fs
              end, [e_id el])
           else match v with
                | FStr v => ([Entry n (VText v) (ty el) (required el)], [e_id el])
                | _ => ([], [])
                end
       end.

Definition by_id (f : form) (i : nat) : option elt :=
  snd <$> list_find (fun el => e_id el = i) (els f).

(** The image input that was clicked is not in [form.elements] and comes last. *)
Definition image_entries (f : form) : list entry :=
  match clk f ≫= by_id f with
  | Some input =>
      let n := default [] (name input) in
      if truthy (name input) && negb (disabled input) && is_type "image" input
      then plain_entry n (val input) :: image_coords f n else []
  | None => []
  end.

Definition source_elements (f : form) (semantic : bool) : list elt :=
  if semantic then els f else filter (fun el => listed el = true) (els f).

Definition formToArray (fileapi : bool) (this : option form) (semantic : bool)
    : list entry * list nat :=
  match this with
  | None => ([], [])
  | Some f =>
      let rs := map (gather fileapi f semantic) (source_elements f semantic) in
      (concat (map fst rs) ++ (if negb semantic then image_entries f else []),
       concat (map snd rs))
  end.

(** * Printing: [jQuery.param] of an array of entries *)

Definition evalue_text (v : evalue) : jstr :=
  match v with
  | VText s => s
  | VFile _ => js "[object File]"
  | VCoord (Some z) => text_of_Z z
  | VCoord None => []
  end.

Definition entry_text (e : entry) : jstr * jstr := (en_name e, evalue_text (en_value e)).

(** [encodeURIComponent(key) + "=" + encodeURIComponent(value)]. *)
Definition param_pair (p : jstr * jstr) : option jstr :=
  k ← encodeURIComponent p.1; v ← encodeURIComponent p.2; Some (k ++ js "=" ++ v).

(** [s.replace(/%20/g, "+")]. *)
Fixpoint plus (s : jstr) : jstr :=
  match s with
  | [] => []
  | c :: s' =>
      match s' with
      | 50 :: 48 :: s'' => if decide (c = 37) then 43 :: plus s'' else c :: plus s'
      | _ => c :: plus s'
      end
  end%N.

Definition param_pairs (l : list (jstr * jstr)) : option jstr :=
  parts ← mapM param_pair l; Some (plus (join (js "&") parts)).

Definition param (a : list entry) : option jstr := param_pairs (map entry_text a).

Definition formSerialize (fileapi : bool) (this : option form) (semantic : bool)
    : option jstr :=
  param (fst (formToArray fileapi this semantic)).

(** [fieldSerialize] of a set of elements. *)
Definition field_entries (f : form) (successful : option bool) (el : elt) : list entry :=
  if negb (truthy (name el)) then []
  else let n := default [] (name el) in
       match fieldValue f el successful with
       | FArr v => map (plain_entry n) v
       | FStr v => [plain_entry n v]
       | FNull => []
       end.

Definition fieldSerialize (f : form) (set : list elt) (successful : option bool)
    : option jstr :=
  param (concat (map (field_entries f successful) set)).

(** * Reading it back: the loop of [deepSerialize] *)

(** A decoder called on an array's element; a missing one is the text "undefined". *)
Definition decode_arg (o : option jstr) : option jstr :=
  decodeURIComponent (default (js "undefined") o).

(** [serialized[i].replace(/\+/g, ' ')]. *)
Definition unplus (s : jstr) : jstr := map (fun c => if decide (c = 43) then 32 else c)%N s.

Definition read_part (s : jstr) : option (jstr * jstr) :=
  let part := split 61 (unplus s) in
  k ← decode_arg (part !! 0%nat); v ← decode_arg (part !! 1%nat); Some (k, v).

Definition read_serialized (s : jstr) : option (list (jstr * jstr)) :=
  mapM read_part (split 38 s).

(** * Clearing, resetting, enabling, selecting *)

(** What the browser does: assigning value, which it may sanitise, the property selected
    of an option of a select, the method reset of a form, a selector test, and the copy
    jQuery makes of an element; [msie] is the test of its user agent. *)
Class Dom := {
  put_value : jstr -> elt -> elt;
  put_selected : elt -> nat -> bool -> list opt;
  reset : form -> form;
  matches : jstr -> elt -> bool;
  clone_true : elt -> elt;
  msie : bool
}.

(** Assigning value changes value and, for a file input, empties its files. *)
Definition keeps_rest (f : elt -> elt) : Prop :=
  forall el, exists v fs, f el = el <| value := v |> <| files := fs |>.

(** The browser shows the empty text it is given, except that a colour and a range have no
    empty value; a file input is emptied, and so is its copy where the plugin replaces it. *)
Class DomLaws `{Dom} := {
  put_value_keeps s : keeps_rest (put_value s);
  put_value_blank el :
    is_type "color" el = false -> is_type "range" el = false ->
    val (put_value [] el) = [] /\ files (put_value [] el) = [];
  clone_keeps : keeps_rest clone_true;
  clone_blank el : msie = true -> files (clone_true el) = [] /\ val (clone_true el) = [];
  select_one_alone el i :
    is_type "select-one" el = true -> (i < length (opts el))%nat ->
    map o_selected (put_selected el i true)
      = map (fun j => bool_decide (j = i)) (seq 0 (length (opts el)));
  select_keeps el i b :
    map (fun o => o <| o_selected := false |>) (put_selected el i b)
      = map (fun o => o <| o_selected := false |>) (opts el)
}.

(** The types of [re], which ignores case. *)
Definition text_types : list jstr :=
  map js ["color"; "date"; "datetime"; "email"; "month"; "number"; "password"; "range";
          "search"; "tel"; "text"; "time"; "url"; "week"].

(** The text a regular expression is tried on when the type is undefined. *)
Definition type_text (el : elt) : jstr := default (js "undefined") (ty el).

Definition re_test (el : elt) : bool := bool_decide (ascii_lower (type_text el) ∈ text_types).

(** [includeHidden]: undefined or false, true, or a selector. *)
Inductive include_hidden := NoHidden | Hidden | HiddenLike (selector : jstr).

Section Operations.
Context `{Dom}.

Definition clear_field (includeHidden : include_hidden) (el : elt) : elt :=
  if re_test el || is_tag "textarea" el then put_value [] el
  else if is_type "checkbox" el || is_type "radio" el then el <| checked := false |>
  else if is_tag "select" el
       then el <| opts := map (fun o => o <| o_selected := false |>) (opts el) |>
  else if is_type "file" el then (if msie then clone_true el else put_value [] el)
  else match includeHidden with
       | NoHidden => el
       | Hidden => if contains (js "hidden") (type_text el) then put_value [] el else el
       | HiddenLike s => if truthy s && matches s el then put_value [] el else el
       end.

(** [$('input,select,textarea', this).clearFields(includeHidden)]. *)
Definition clearable (el : elt) : bool :=
  is_tag "input" el || is_tag "select" el || is_tag "textarea" el.

Definition clearForm (includeHidden : include_hidden) (f : form) : form :=
  f <| els := map (fun el => if clearable el then clear_field includeHidden el else el)
                  (els f) |>.

(** [this.reset] is the element of that name or id, if there is one. *)
Definition shadows_reset (el : elt) : bool :=
  listed el && (bool_decide (name el = Some (js "reset"))
                || bool_decide (dom_id el = Some (js "reset"))).

Definition resetForm (f : form) : form :=
  if existsb shadows_reset (els f) then f else reset f.

(** [enable(b)] of the elements with these numbers. *)
Definition on_set (set : list nat) (g : elt -> elt) (f : form) : form :=
  f <| els := map (fun el => if bool_decide (e_id el ∈ set) then g el else el) (els f) |>.

Definition enable (b : option bool) (set : list nat) (f : form) : form :=
  let b := default true b in on_set set (fun el => el <| disabled := negb b |>) f.

(** [selected(select)] of an element that is not an option. *)
Definition selected_input (select : bool) (el : elt) : elt :=
  if is_type "checkbox" el || is_type "radio" el then el <| checked := select |> else el.

Definition set_option (i : nat) (b : bool) (el : elt) : elt :=
  el <| opts := put_selected el i b |>.

(** [selected(select)] of the option at place [i] of a select; [parent('select')] finds
    nothing when the option is in a group.  Selecting by the plugin's hand deselects every
    option first. *)
Definition selected_option (select : option bool) (i : nat) (el : elt) : elt :=
  let select := default true select in
  match opts el !! i with
  | None => el
  | Some op =>
      let el :=
        if select && negb (o_grouped op) && is_type "select-one" el
        then fold_left (fun el j => set_option j false el) (seq 0 (length (opts el))) el
        else el in
      set_option i select el
  end.

End Operations.
