(* ===== verification/FormFacts.v ===== *)
(** FormFacts: what a form sends, against the form data set of HTML; that it reads back as
    it was printed; and what clearing leaves to send. *)

From S2P Require Import Prelude Numbers Uri Form.
From coqutil Require Import Datatypes.RecordSettersUsingExistingGetters.

(** * Printing and reading back *)

(** [plus] goes through an encoded text octet by octet. *)
Lemma plus_eq c s' :
  plus (c :: s')
  = match s' with
    | 50 :: 48 :: s'' => if decide (c = 37) then 43 :: plus s'' else c :: plus s'
    | _ => c :: plus s'
    end%N.
Proof. done. Qed.

Lemma plus_cons c s : c ≠ 37%N -> plus (c :: s) = c :: plus s.
Proof. intros Hc. rewrite plus_eq. repeat case_match; done. Qed.

Lemma hex_upper_char d : (d < 16)%N -> hex_upper d ≠ 37%N.
Proof. intros H. unfold hex_upper. case_bool_decide; lia. Qed.

Lemma plus_other x y s :
  ~ (x = 50 /\ y = 48)%N -> plus (37%N :: x :: y :: s) = 37%N :: plus (x :: y :: s).
Proof.
  intros Hn. rewrite plus_eq. generalize (plus (x :: y :: s)). intros r.
  repeat case_match; simplify_eq; try done; exfalso; by apply Hn.
Qed.

Lemma hex_upper_digit d k : (d < 16 -> k < 10 -> hex_upper d = 48 + k -> d = k)%N.
Proof. unfold hex_upper. case_bool_decide; lia. Qed.

Lemma plus_percent b s :
  (b < 256)%N -> plus (percent b ++ s) = if decide (b = 32%N) then 43%N :: plus s
                                        else percent b ++ plus s.
Proof.
  intros Hb. unfold percent. cbn [app].
  assert (b / 16 < 16)%N by (apply N.Div0.div_lt_upper_bound; lia).
  assert (b mod 16 < 16)%N by (apply N.mod_lt; lia).
  destruct (decide (b = 32%N)) as [->|Hne]; [done|].
  rewrite plus_other.
  - by rewrite !plus_cons by (by apply hex_upper_char).
  - intros [E1 E2]. apply Hne. rewrite (N.div_mod' b 16).
    by rewrite (hex_upper_digit (b / 16) 2), (hex_upper_digit (b mod 16) 0).
Qed.

(** What reading undoes: printing and reading one code point. *)
Lemma unplus_app a b : unplus (a ++ b) = unplus a ++ unplus b.
Proof. apply map_app. Qed.

Lemma unplus_id s : forallb uri_char s = true -> unplus s = s.
Proof.
  induction s as [|c s IH]; [done|]. cbn [forallb]. rewrite andb_true_iff. intros [Hc Hs].
  unfold unplus in *. cbn [map]. rewrite IH by done. case_decide as E; [|done]. by subst c.
Qed.

Lemma percents_through bs s :
  Forall (fun b => (b < 256)%N /\ b ≠ 32%N) bs ->
  plus (concat (map percent bs) ++ s) = concat (map percent bs) ++ plus s.
Proof.
  induction 1 as [|b bs [Hb Hn] _ IH]; [done|]. cbn [map concat].
  rewrite <- !app_assoc, plus_percent, IH by done. by rewrite decide_False.
Qed.

Lemma utf8_no_space v : (v < 1114112)%N -> v ≠ 32%N -> Forall (fun b => b < 256 /\ b ≠ 32)%N (utf8 v).
Proof.
  intros Hv Hn. apply Forall_and. split; [by apply utf8_octets|].
  unfold utf8. repeat case_bool_decide; repeat constructor; lia.
Qed.

Lemma escapes_through v s :
  scalar v ->
  decodeURIComponent (unplus (plus (escapes v ++ s)))
    = app (point_units v) <$> decodeURIComponent (unplus (plus s)).
Proof.
  intros Hv. destruct (decide (v = 32%N)) as [->|Hn].
  - unfold escapes. change (concat (map percent (utf8 32))) with (percent 32 ++ []).
    rewrite app_nil_r, plus_percent by done. rewrite decide_True by done.
    unfold unplus at 1. cbn [map]. rewrite decide_True by done.
    rewrite decode_plain by done. done.
  - unfold escapes at 1. rewrite percents_through by (apply utf8_no_space; [apply Hv|done]).
    fold (escapes v).
    rewrite unplus_app, unplus_id by (apply escapes_chars, Hv).
    by rewrite decode_escapes.
Qed.

Lemma plain_through c s :
  unreserved c = true ->
  decodeURIComponent (unplus (plus (c :: s)))
    = cons c <$> decodeURIComponent (unplus (plus s)).
Proof.
  intros Hc. assert (c ≠ 37 /\ c ≠ 43)%N as [H1 H2] by (split; intros ->; done).
  rewrite plus_cons by done. unfold unplus at 1. cbn [map]. rewrite decide_False by done.
  by apply decode_plain.
Qed.

(** The characters of a printed name or value. *)
Definition query_char (c : N) : bool := uri_char c || bool_decide (c = 43%N).

(** [e], the encoding of [s], is printed by itself and read back, and holds neither of the
    separators. *)
Definition printed (s e : jstr) : Prop :=
  decodeURIComponent (unplus (plus e)) = Some s
  /\ forallb query_char (plus e) = true
  /\ forall t, plus (e ++ t) = plus e ++ plus t.

Lemma uri_query s : forallb uri_char s = true -> forallb query_char s = true.
Proof.
  rewrite !forallb_forall. intros H c Hc. unfold query_char. by rewrite (H c Hc).
Qed.

Lemma plus_escapes v t :
  scalar v ->
  exists p, plus (escapes v ++ t) = p ++ plus t /\ forallb query_char p = true.
Proof.
  intros Hv. destruct (decide (v = 32%N)) as [->|Hn].
  - exists [43%N]. split; [|done]. change (escapes 32) with (percent 32 ++ []).
    rewrite app_nil_r, plus_percent by done. by rewrite decide_True.
  - exists (escapes v). split; [|apply uri_query, escapes_chars, Hv].
    unfold escapes. by rewrite percents_through by (apply utf8_no_space; [apply Hv|done]).
Qed.

Lemma plus_escapes_app v e t :
  scalar v -> plus (e ++ t) = plus e ++ plus t ->
  plus ((escapes v ++ e) ++ t) = plus (escapes v ++ e) ++ plus t.
Proof.
  intros Hv He. rewrite <- app_assoc. destruct (decide (v = 32%N)) as [->|Hn].
  - change (escapes 32) with (percent 32 ++ []). rewrite app_nil_r, !plus_percent by done.
    by rewrite decide_True, He by done.
  - unfold escapes. rewrite !percents_through by (apply utf8_no_space; [apply Hv|done]).
    by rewrite He, app_assoc.
Qed.

(** A well-formed text survives being encoded, its spaces printed as plus signs, and
    being read back. *)
Lemma encode_printed s :
  well_formed s = true -> exists e, encodeURIComponent s = Some e /\ printed s e.
Proof.
  apply (encode_ind printed).
  - done.
  - intros c t e Hu (Hd & Hc & Ha). pose proof (unreserved_not_percent _ Hu) as Hp.
    split; [by rewrite plain_through, Hd|]. rewrite plus_cons by done. split.
    + cbn [forallb]. unfold query_char at 1, uri_char. by rewrite Hu, Hc.
    + intros u. cbn [app]. by rewrite plus_cons, Ha.
  - intros v t e Hv (Hd & Hc & Ha). split; [by rewrite escapes_through, Hd|]. split.
    + destruct (plus_escapes v e Hv) as (p & -> & Hq). by rewrite forallb_app, Hq, Hc.
    + intros u. by apply plus_escapes_app.
Qed.

Lemma query_no_char s c :
  forallb query_char s = true -> query_char c = false -> c ∉ s.
Proof.
  rewrite forallb_forall. intros H Hc Hin. rewrite (H c) in Hc; [done|].
  by apply list_elem_of_In.
Qed.

Lemma unplus_no_char s c : c ∉ s -> c ≠ 32%N -> c ∉ unplus s.
Proof.
  intros Hs Hc Hin. apply list_elem_of_fmap in Hin as (d & -> & Hd).
  case_decide; [done|by subst].
Qed.

(** What a printed pair is, and that it is read back. *)
Definition well_formed_pair (p : jstr * jstr) : Prop :=
  well_formed p.1 = true /\ well_formed p.2 = true.

#[export] Instance well_formed_pair_dec p : Decision (well_formed_pair p) := and_dec _ _.

Lemma param_pair_reads p :
  well_formed_pair p ->
  exists e, param_pair p = Some e /\ (forall t, plus (e ++ t) = plus e ++ plus t)
    /\ (38%N ∉ plus e) /\ (35%N ∉ plus e) /\ read_part (plus e) = Some p.
Proof.
  destruct p as [k v]. intros [Hk Hv]. cbn in Hk, Hv. unfold param_pair. cbn [fst snd].
  destruct (encode_printed k Hk) as (k' & -> & Hdk & Hck & Hak).
  destruct (encode_printed v Hv) as (v' & -> & Hdv & Hcv & Hav). cbn [mbind option_bind].
  exists (k' ++ js "=" ++ v'). split; [done|].
  assert (forall t, plus ((k' ++ js "=" ++ v') ++ t) = plus k' ++ 61%N :: plus v' ++ plus t)
    as Hall.
  { intros t. rewrite <- app_assoc, Hak. cbn [js app].
    rewrite plus_cons by done. by rewrite Hav. }
  pose proof (Hall []) as Hnil. rewrite app_nil_r in Hnil. cbn [plus] in Hnil.
  rewrite app_nil_r in Hnil. rewrite Hnil. split; [|split; [|split]].
  - intros t. rewrite Hall. by rewrite <- app_assoc.
  - rewrite not_elem_of_app, not_elem_of_cons.
    split_and!; [by apply query_no_char|done|by apply query_no_char].
  - rewrite not_elem_of_app, not_elem_of_cons.
    split_and!; [by apply query_no_char|done|by apply query_no_char].
  - unfold read_part. rewrite unplus_app.
    change (unplus (61%N :: plus v')) with (61%N :: unplus (plus v')).
    assert ((61%N ∉ plus k') /\ (61%N ∉ plus v')) as [Hk1 Hv1] by (split; by apply query_no_char).
    rewrite split_app_sep by (by apply unplus_no_char).
    rewrite split_no_sep by (by apply unplus_no_char). cbn [lookup list_lookup].
    unfold decode_arg, default, id. by rewrite Hdk, Hdv.
Qed.

Lemma plus_join es :
  Forall (fun e => forall t, plus (e ++ t) = plus e ++ plus t) es ->
  plus (join (js "&") es) = join (js "&") (map plus es).
Proof.
  change (js "&") with [38%N].
  induction 1 as [|e es He Hes IH]; [done|].
  destruct es as [|e' es]; [done|].
  change (map plus (e :: e' :: es)) with (plus e :: map plus (e' :: es)).
  rewrite !join_cons by done. rewrite He. cbn [app].
  rewrite plus_cons by done. by rewrite IH.
Qed.

(** What is printed of one pair: a part without separator or hash, that is read as it. *)
Definition part_of (e : jstr) (p : jstr * jstr) : Prop :=
  (38%N ∉ e) /\ (35%N ∉ e) /\ e ≠ [] /\ read_part e = Some p.

(** Printing pairs of well-formed texts succeeds, with one part for each, in order. *)
Lemma param_pairs_parts l :
  Forall well_formed_pair l ->
  exists ps, param_pairs l = Some (join [38%N] ps) /\ Forall2 part_of ps l.
Proof.
  intros Hl.
  assert (exists es, mapM param_pair l = Some es
    /\ Forall (fun e => forall t, plus (e ++ t) = plus e ++ plus t) es
    /\ Forall2 part_of (map plus es) l) as (es & Hm & Ha & Hp).
  { induction Hl as [|p l Hp _ (es & Hm & Ha & Hr)]; [by exists []|].
    destruct (param_pair_reads p Hp) as (e & He & Hae & Hse & Hhe & Hre).
    exists (e :: es). cbn [mapM map]. rewrite He, Hm. cbn [mbind option_bind].
    split_and!; [done|by constructor|]. constructor; [|done]. split_and!; try done.
    intros E. rewrite E in Hre. vm_compute in Hre. injection Hre as <-.
    vm_compute in He. injection He as <-. by vm_compute in E. }
  exists (map plus es). split; [|done]. unfold param_pairs. rewrite Hm.
  cbn [mbind option_bind]. by rewrite plus_join.
Qed.

Lemma parts_read ps l : Forall2 part_of ps l -> ps ≠ [] -> read_serialized (join [38%N] ps) = Some l.
Proof.
  intros Hp Hne. unfold read_serialized. rewrite split_join; [|done|].
  - clear Hne. induction Hp as [|e p ps l (_ & _ & _ & He) _ IH]; [done|].
    cbn [mapM]. by rewrite He, IH.
  - clear Hne. induction Hp as [|e p ps l (He & _) _ IH]; by constructor.
Qed.

(** What is printed is read back as the pairs, in order. *)
Lemma pairs_read_back l :
  Forall well_formed_pair l -> l ≠ [] ->
  exists q, param_pairs l = Some q /\ read_serialized q = Some l.
Proof.
  intros Hl Hne. destruct (param_pairs_parts l Hl) as (ps & Hq & Hp).
  exists (join [38%N] ps). split; [done|]. apply parts_read; [done|].
  intros ->. by inversion Hp; subst.
Qed.

(** * The form data set of HTML *)

(** The values with which a control is successful (HTML 4.01, 17.13.2), by the kind of
    the control; a file input without a file sends one empty value. *)
Definition html_values (f : form) (el : elt) : list evalue :=
  if is_tag "select" el
  then map (fun o => VText (o_value o))
           (filter (fun o => o_selected o && negb (o_disabled o) = true) (opts el))
  else if is_type "checkbox" el || is_type "radio" el
  then if checked el then [VText (val el)] else []
  else if is_type "submit" el
  then if bool_decide (clk f = Some (e_id el)) then [VText (val el)] else []
  else if is_type "reset" el || is_type "button" el then []
  else if is_type "file" el
  then match files el with [] => [VText []] | fs => map VFile fs end
  else [VText (val el)].

Definition html_control (el : elt) : bool :=
  listed el && bool_decide (tag el ∈ map js ["input"; "button"; "select"; "textarea"]).

Definition html_pairs (f : form) (el : elt) : list (jstr * evalue) :=
  if html_control el && negb (disabled el) && truthy (name el)
  then map (pair (default [] (name el))) (html_values f el) else [].

Definition html_data_set (f : form) : list (jstr * evalue) :=
  concat (map (html_pairs f) (els f)).

Definition sent (e : entry) : jstr * evalue := (en_name e, en_value e).

(** The types a select has; at most one option of a select-one is selected; [image] is a
    type of inputs. *)
Definition coherent (el : elt) : Prop :=
  (is_tag "select" el = true ->
     ty el = Some (js "select-one") \/ ty el = Some (js "select-multiple"))
  /\ (ty el = Some (js "select-one") ->
        length (filter (fun o => o_selected o = true) (opts el)) <= 1)%nat
  /\ (is_type "image" el = true -> is_tag "input" el = true).

(** The named controls are those of HTML 4, and no disabled option is selected; where an
    option without value has a value attribute, it is specified. *)
Definition html_ready (el : elt) : Prop :=
  coherent el
  /\ (listed el = true -> truthy (name el) = true -> html_control el = true)
  /\ Forall (fun o => o_attr o ≠ Some false /\ (o_selected o = true -> o_disabled o = false))
            (opts el).

Lemma option_loop_all ops a :
  option_loop false ops a
  = FArr (a ++ map option_value (filter (fun o => o_selected o = true) ops)).
Proof.
  revert a. induction ops as [|o ops IH]; intros a; cbn [option_loop]; [by rewrite app_nil_r|].
  rewrite filter_cons. destruct (o_selected o); cbn; rewrite IH; [|done].
  by rewrite <- app_assoc.
Qed.

Lemma option_value_plain o : o_attr o ≠ Some false -> option_value o = o_value o.
Proof. unfold option_value. intros H. by destruct (negb _), (o_attr o) as [[]|]. Qed.

(** The options from the selected index of a select-one: the one selected. *)
Lemma selected_one el i :
  selectedIndex el = Some i ->
  (length (filter (fun o => o_selected o = true) (opts el)) <= 1)%nat ->
  exists o, filter (fun o => o_selected o = true) (opts el) = [o] /\ o_selected o = true
    /\ take (i + 1 - i) (drop i (opts el)) = [o].
Proof.
  unfold selectedIndex. intros Hi Hlen.
  destruct (list_find _ (opts el)) as [[j o]|] eqn:E; [|done]. injection Hi as ->.
  apply list_find_Some in E as (Ho & Hsel & _). exists o.
  apply list_elem_of_split_length in Ho as (l1 & l2 & Hl & ->).
  rewrite Hl in *. rewrite filter_app, filter_cons, decide_True in Hlen |- * by done.
  rewrite length_app in Hlen. cbn [length] in Hlen.
  rewrite !(nil_length_inv (filter _ _)) by lia. split; [done|]. split; [done|].
  rewrite drop_app_length. by replace (length l1 + 1 - length l1)%nat with 1%nat by lia.
Qed.

Lemma no_selected el :
  selectedIndex el = None -> filter (fun o => o_selected o = true) (opts el) = [].
Proof.
  unfold selectedIndex. intros H. destruct (list_find _ (opts el)) eqn:E; [done|].
  apply list_find_None in E. induction E as [|o l Ho _ IH]; [done|].
  by rewrite filter_cons, decide_False.
Qed.

(** What [$.fieldValue] gives for a select, as a list. *)
Definition fval_list (v : fval) : list jstr :=
  match v with FNull => [] | FStr s => [s] | FArr l => l end.

Lemma select_value f el b :
  is_tag "select" el = true -> coherent el -> (b && unsuccessful f el = false \/
    selectedIndex el = None) ->
  fval_list (fieldValue f el (Some b))
  = map option_value (filter (fun o => o_selected o = true) (opts el)).
Proof.
  intros Ht (Hty & Hone & _) Hun. unfold fieldValue, default, id.
  rewrite Ht. destruct (selectedIndex el) as [i|] eqn:Hi.
  - destruct Hun as [-> |]; [|done]. destruct (Hty Ht) as [H|H].
    + assert (is_type "select-one" el = true) as -> by (by apply bool_decide_eq_true).
      destruct (selected_one el i Hi (Hone H)) as (o & -> & Ho & ->).
      cbn [option_loop]. by rewrite Ho.
    + assert (is_type "select-one" el = false) as ->.
      { apply bool_decide_eq_false. by rewrite H. }
      by rewrite option_loop_all, drop_0, Nat.sub_0_r, firstn_all.
  - rewrite no_selected by done. by destruct (_ && _).
Qed.

Lemma types_differ s t el :
  is_type s el = true -> js s ≠ js t -> is_type t el = false.
Proof.
  intros H Hst. apply bool_decide_eq_true in H. apply bool_decide_eq_false.
  rewrite H. congruence.
Qed.

(** The type of an element is one only. *)
Ltac one_type s el :=
  let E := fresh "T" in
  destruct (is_type s el) eqn:E;
  [repeat match goal with
          | |- context [is_type ?t el] =>
              lazymatch t with s => fail | _ => rewrite (types_differ s t el E) by done end
          end|].

Lemma gather_plain f el :
  truthy (name el) = true -> disabled el = false -> is_type "file" el = false ->
  map sent (fst (gather true f false el))
  = map (fun v => (default [] (name el), VText v)) (fval_list (fieldValue f el (Some true))).
Proof.
  intros Hn Hd Hf. unfold gather. rewrite Hn, Hd, Hf. cbn [negb orb andb].
  destruct (fieldValue f el (Some true)); [done|done|].
  cbn [fst fval_list]. rewrite map_map. done.
Qed.

Lemma gather_html f el :
  listed el = true -> html_ready el ->
  map sent (fst (gather true f false el)) = html_pairs f el.
Proof.
  intros Hl (Hco & Hctl & Hops). unfold html_pairs.
  destruct (truthy (name el)) eqn:Hn; [|unfold gather; rewrite Hn, andb_false_r; done].
  rewrite Hctl by done.
  destruct (disabled el) eqn:Hd; [unfold gather; rewrite Hn, Hd; done|]. cbn [andb negb].
  destruct (is_tag "select" el) eqn:Ht.
  - pose proof (select_value f el true Ht Hco) as Hv. destruct Hco as (Hty & _ & _).
    assert (forall s, js s ≠ js "select-one" -> js s ≠ js "select-multiple" ->
                      is_type s el = false) as Hs.
    { intros s H1 H2. apply bool_decide_eq_false. destruct (Hty Ht) as [E|E]; rewrite E; congruence. }
    rewrite gather_plain by (done || by apply Hs). rewrite Hv.
    + unfold html_values. rewrite Ht, !map_map. clear - Hops.
      induction Hops as [|o ops [Ha Hdis] _ IH]; [done|].
      rewrite !filter_cons. destruct (o_selected o); cbn; [|done].
      rewrite Hdis, !decide_True by done. cbn [map]. by rewrite IH, option_value_plain.
    + destruct (selectedIndex el) eqn:E; [left|by right].
      unfold unsuccessful. rewrite Hn, Hd, Ht, E, !Hs by done. done.
  - assert (is_type "image" el = false) as Him.
    { destruct (is_type "image" el) eqn:E; [|done]. destruct Hco as (_ & _ & Hi).
      revert Hl. unfold listed. rewrite E, Hi by done. by rewrite andb_false_r. }
    assert (owned el = true) as Ho by (revert Hl; unfold listed; by destruct (owned el)).
    unfold gather, fieldValue, html_values, unsuccessful, default, id.
    rewrite Ht, Hn, Hd, Him, Ho. cbn [negb orb andb].
    one_type "file" el; [by destruct (files el); cbn; rewrite ?map_map|].
    one_type "checkbox" el; [by destruct (checked el)|].
    one_type "radio" el; [by destruct (checked el)|].
    one_type "submit" el; [cbn [negb orb andb]; by repeat case_bool_decide|].
    one_type "reset" el; [done|].
    by one_type "button" el.
Qed.

Lemma unlisted_no_pairs f el : listed el = false -> html_pairs f el = [].
Proof. unfold html_pairs, html_control. by intros ->. Qed.

(** What the clicked image input contributes: its name with its value, as a submit
    button does, and the coordinates of the click under the name with [.x] and [.y]. *)
Definition image_pairs (f : form) (el : elt) : list (jstr * evalue) :=
  let n := default [] (name el) in
  if is_type "image" el && bool_decide (clk f = Some (e_id el)) && truthy n && negb (disabled el)
  then [(n, VText (val el)); (n ++ js ".x", VCoord (clk_x f)); (n ++ js ".y", VCoord (clk_y f))]
  else [].

Lemma truthy_name el : truthy (name el) = truthy (default [] (name el)).
Proof. by destruct (name el). Qed.

Lemma image_entries_sent f :
  NoDup (map e_id (els f)) -> map sent (image_entries f) = concat (map (image_pairs f) (els f)).
Proof.
  intros Hn. unfold image_entries, by_id. destruct (clk f) as [i|] eqn:Hc.
  2: { cbn. induction (els f) as [|el l IH]; [done|]. cbn [map concat].
       rewrite <- IH by (by apply NoDup_cons in Hn as [_ Hn]). unfold image_pairs.
       rewrite Hc, bool_decide_false by done. by rewrite andb_false_r. }
  cbn [mbind option_bind]. revert Hn. generalize (els f) as l.
  assert (Hother : forall l, i ∉ map e_id l -> concat (map (image_pairs f) l) = []).
  { induction l as [|el l IH]; [done|]. cbn [map]. intros [Hi Hl]%not_elem_of_cons. cbn [concat].
    rewrite IH by done. unfold image_pairs. rewrite Hc, bool_decide_false by congruence.
    by rewrite andb_false_r. }
  induction l as [|el l IH]; intros Hn; [done|]. cbn [map] in Hn. apply NoDup_cons in Hn as [Hel Hn].
  cbn [map concat list_find]. destruct (decide (e_id el = i)) as [<-|Hne].
  - rewrite Hother, app_nil_r by done. cbn [fmap option_fmap option_map snd]. unfold image_pairs.
    rewrite Hc, bool_decide_true, truthy_name by done.
    by destruct (is_type "image" el), (truthy (default [] (name el))), (disabled el).
  - assert (Hsnd : snd <$> (prod_map S id <$> list_find (fun el => e_id el = i) l)
      = snd <$> list_find (fun el => e_id el = i) l)
      by by destruct (list_find _ l) as [[]|].
    rewrite Hsnd, IH by done. unfold image_pairs at 2.
    rewrite Hc, bool_decide_false by congruence. by rewrite andb_false_r.
Qed.

(** C20. Where files can be read, and without asking for semantic order, what
    [formToArray] gathers is, name by name and value by value, the form data set that
    HTML 4 defines for the form, in the order of the document, followed by what the
    clicked image input contributes: for a form whose named elements are controls
    (no fieldset, object or output has a name), whose selects have no disabled option
    selected and options with their own values, and whose elements are distinct. *)
Theorem formToArray_sends_html f :
  Forall html_ready (els f) -> NoDup (map e_id (els f)) ->
  map sent (fst (formToArray true (Some f) false))
  = html_data_set f ++ concat (map (image_pairs f) (els f)).
Proof.
  intros Hf Hn. unfold formToArray, source_elements, html_data_set. cbn [fst negb].
  rewrite map_app, image_entries_sent by done. f_equal. clear Hn.
  induction Hf as [|el l Hel _ IH]; [done|].
  rewrite filter_cons. cbn [map concat]. rewrite <- IH. case_decide as Hl.
  - cbn [map concat]. by rewrite map_app, gather_html.
  - by rewrite unlisted_no_pairs by (by apply not_true_is_false).
Qed.

(** A form with a text, a select, two boxes and two submit buttons, the second clicked. *)
Definition control (i : nat) (tg t n v : string) : elt :=
  Elt i (js tg) (Some (js t)) (Some (js t)) (Some (js v)) (Some (js n)) None false false
      (Some (js v)) [] [] None true.

Definition an_option (v : string) (sel : bool) : opt :=
  Opt (js v) (js v) sel false (Some true) false.

Definition sample : form := Form
  [control 0 "INPUT" "text" "user" "J. R";
   (control 1 "SELECT" "select-multiple" "tag" "") <| opts :=
     [an_option "a" true; an_option "b" false; an_option "c" true] |>;
   (control 2 "INPUT" "checkbox" "on" "1") <| checked := true |>;
   control 3 "INPUT" "checkbox" "off" "1";
   control 4 "INPUT" "file" "doc" "";
   control 5 "INPUT" "submit" "do" "save";
   control 6 "BUTTON" "submit" "do" "drop"]
  (Some 6%nat) None None.

Example sample_texts :
  map entry_text (fst (formToArray true (Some sample) false))
  = map (fun p : string * string => (js p.1, js p.2))
        [("user", "J. R"); ("tag", "a"); ("tag", "c"); ("on", "1"); ("doc", "");
         ("do", "drop")]%string.
Proof. vm_compute. reflexivity. Qed.

Example sample_serialized :
  formSerialize true (Some sample) false = Some (js "user=J.+R&tag=a&tag=c&on=1&doc=&do=drop").
Proof. vm_compute. reflexivity. Qed.

Lemma sample_ready : Forall html_ready (els sample).
Proof.
  repeat (constructor; [unfold html_ready, coherent; repeat split;
    try (vm_compute; intros; congruence); try (vm_compute; intros; lia);
    try (intros; vm_compute; auto; fail);
    repeat constructor; vm_compute; intros; congruence|]).
  constructor.
Qed.

(** The same form with an image input, clicked at (3, 4). *)
Definition sample_image : form := Form
  (els sample ++ [control 7 "INPUT" "image" "map" "go"]) (Some 7%nat) (Some 3%Z) (Some 4%Z).

Lemma formToArray_sends_html_witness :
  concat (map (image_pairs sample_image) (els sample_image))
    = [(js "map", VText (js "go")); (js "map.x", VCoord (Some 3%Z)); (js "map.y", VCoord (Some 4%Z))] /\
  map sent (fst (formToArray true (Some sample_image) false))
    = html_data_set sample_image ++ concat (map (image_pairs sample_image) (els sample_image)).
Proof.
  split; [vm_compute; reflexivity|]. apply formToArray_sends_html.
  - apply Forall_app_2; [exact sample_ready|]. constructor; [|constructor].
    unfold html_ready, coherent. repeat split; try (vm_compute; intros; congruence);
      try (vm_compute; intros; lia); repeat constructor.
  - apply (bool_decide_unpack _). vm_compute. exact I.
Defined.

(** What [formSerialize] prints of a form whose names and values are well-formed texts
    is read back, by the loop of [deepSerialize], as exactly the names and values
    gathered, in order. *)
Theorem serialized_form_reads_back fileapi f semantic :
  Forall (fun e => well_formed_pair (entry_text e)) (fst (formToArray fileapi (Some f) semantic)) ->
  fst (formToArray fileapi (Some f) semantic) ≠ [] ->
  exists q, formSerialize fileapi (Some f) semantic = Some q
    /\ read_serialized q
       = Some (map entry_text (fst (formToArray fileapi (Some f) semantic))).
Proof.
  intros Hw Hne. unfold formSerialize, param. apply pairs_read_back.
  - by apply Forall_fmap.
  - by destruct (fst _).
Qed.

Lemma serialized_form_reads_back_witness :
  exists q, formSerialize true (Some sample) false = Some q
    /\ read_serialized q = Some (map entry_text (fst (formToArray true (Some sample) false))).
Proof.
  apply serialized_form_reads_back.
  - apply (bool_decide_unpack _). vm_compute. exact I.
  - vm_compute. discriminate.
Defined.

(** With nothing to send the printed text is empty, and it reads back as a pair: an empty
    name with the value "undefined". *)
Example empty_form_reads_undefined :
  formSerialize true (Some (Form [] None None None)) false = Some []
  /\ read_serialized [] = Some [([], js "undefined")].
Proof. split; vm_compute; reflexivity. Qed.

(** A named fieldset is a listed element: it is sent with an empty value. *)
Example fieldset_is_sent :
  map entry_text (fst (formToArray true
    (Some (Form [(control 0 "FIELDSET" "fieldset" "address" "") <| value := None |>]
                None None None)) false))
  = [(js "address", [])].
Proof. vm_compute. reflexivity. Qed.

(** In semantic mode every element with a name is: here an anchor of the page. *)
Example anchor_is_sent :
  map entry_text (fst (formToArray true
    (Some (Form [Elt 0 (js "A") (Some []) None None (Some (js "top")) None false false None
                     [] [] None false] None None None)) true))
  = [(js "top", [])].
Proof. vm_compute. reflexivity. Qed.

(** A disabled option that is selected is sent; in HTML it is not. *)
Example disabled_option_sent :
  let f := Form [(control 0 "SELECT" "select-one" "size" "") <| opts :=
                   [(an_option "none" true) <| o_disabled := true |>] |>] None None None in
  map entry_text (fst (formToArray true (Some f) false)) = [(js "size", js "none")]
  /\ html_data_set f = [].
Proof. split; vm_compute; reflexivity. Qed.

(** * Clearing *)

Section Clearing.
Context `{DomLaws}.

(** The controls [clearFields] is for. *)
Definition blanked (el : elt) : bool :=
  clearable el
  && (re_test el || is_tag "textarea" el || is_type "checkbox" el || is_type "radio" el
      || is_tag "select" el || is_type "file" el).

(** What they send afterwards: a text or a file control one empty value. *)
Definition blank_entries (fileapi : bool) (el : elt) : list entry :=
  if negb (truthy (name el)) || disabled el || is_type "checkbox" el || is_type "radio" el
     || is_tag "select" el then []
  else [Entry (default [] (name el)) (VText []) (ty el)
              (if fileapi && is_type "file" el then None else required el)].

(** The types of selects and text areas, and that neither a colour nor a range is there:
    the browser gives those a value even when they are cleared. *)
Definition clearable_ready (el : elt) : Prop :=
  (is_tag "select" el = true ->
     ty el = Some (js "select-one") \/ ty el = Some (js "select-multiple"))
  /\ (is_tag "textarea" el = true -> ty el = Some (js "textarea"))
  /\ is_type "color" el = false /\ is_type "range" el = false.

Lemma gather_clk fileapi f f' semantic el :
  clk f = clk f' -> clk_x f = clk_x f' -> clk_y f = clk_y f' ->
  gather fileapi f semantic el = gather fileapi f' semantic el.
Proof.
  intros E1 E2 E3. unfold gather, fieldValue, unsuccessful, image_coords. by rewrite E1, E2, E3.
Qed.

(** A text type is none of the types the plugin asks for. *)
Lemma re_test_other s el :
  re_test el = true -> bool_decide (js s ∈ text_types) = false -> ascii_lower (js s) = js s -> is_type s el = false.
Proof.
  unfold re_test, type_text. rewrite bool_decide_eq_true, bool_decide_eq_false. intros Hre Hs Hl.
  apply bool_decide_eq_false. intros E. rewrite E in Hre. unfold default, id in Hre.
  by rewrite Hl in Hre.
Qed.

Lemma gather_blank fileapi f semantic el g :
  keeps_rest g -> is_tag "select" el = false ->
  (re_test el = true \/ ty el = Some (js "textarea") \/ is_type "file" el = true) ->
  val (g el) = [] -> files (g el) = [] ->
  fst (gather fileapi f semantic (g el)) = blank_entries fileapi el.
Proof.
  intros Hg Hsel Hty Hv Hfs. destruct (Hg el) as (v & fs & Eg).
  assert (forall s, bool_decide (js s ∈ text_types) = false -> ascii_lower (js s) = js s -> js s ≠ js "textarea" ->
            js s ≠ js "file" -> is_type s el = false) as Hno.
  { intros s H1 H2 H3 H4. destruct Hty as [Hre|[E|E]].
    - by apply re_test_other.
    - apply bool_decide_eq_false. rewrite E. congruence.
    - apply (types_differ "file"); [done|congruence]. }
  unfold gather, fieldValue, unsuccessful, blank_entries, default, id. rewrite Hv, Hfs.
  assert (name (g el) = name el /\ disabled (g el) = disabled el /\ ty (g el) = ty el
    /\ required (g el) = required el /\ (forall s, is_type s (g el) = is_type s el)
    /\ is_tag "select" (g el) = is_tag "select" el)
    as (-> & -> & -> & -> & Hts & ->) by (by rewrite Eg).
  rewrite !Hts, Hsel, !(Hno "image"), !(Hno "reset"), !(Hno "button"), !(Hno "checkbox"),
    !(Hno "radio"), !(Hno "submit") by done.
  rewrite !andb_false_r, !andb_false_l, !orb_false_r.
  destruct (truthy (name el)), (disabled el); cbn [negb orb andb]; try done.
  by destruct (fileapi && _).
Qed.

Definition cleared (el : elt) : elt := if clearable el then clear_field NoHidden el else el.

Lemma keeps_fields g el :
  keeps_rest g ->
  tagName (g el) = tagName el /\ ty (g el) = ty el /\ name (g el) = name el
  /\ e_id (g el) = e_id el /\ owned (g el) = owned el.
Proof. intros Hg. destruct (Hg el) as (v & fs & ->). done. Qed.

Lemma clear_field_fields el :
  tagName (cleared el) = tagName el /\ ty (cleared el) = ty el /\ name (cleared el) = name el
  /\ e_id (cleared el) = e_id el /\ owned (cleared el) = owned el.
Proof.
  unfold cleared, clear_field.
  repeat case_match; try done; apply keeps_fields;
    [apply put_value_keeps|apply clone_keeps|apply put_value_keeps].
Qed.

Lemma cleared_listed el : listed (cleared el) = listed el.
Proof.
  destruct (clear_field_fields el) as (Ht & Hy & _ & _ & Ho).
  unfold listed, is_tag, is_type, tag. by rewrite Ht, Hy, Ho.
Qed.

(** A control without type takes part in nothing but its own kind. *)
Lemma unsuccessful_sends_nothing fileapi f semantic el :
  unsuccessful f el = true -> is_type "file" el = false -> is_type "image" el = false ->
  fst (gather fileapi f semantic el) = [].
Proof.
  intros Hun Hf Hi. unfold gather, fieldValue, default, id. rewrite Hun, Hf, Hi.
  rewrite !andb_false_r. cbn [andb]. by destruct (_ || _).
Qed.

Lemma clear_box fileapi f semantic el :
  is_type "checkbox" el || is_type "radio" el = true ->
  fst (gather fileapi f semantic (el <| checked := false |>)) = blank_entries fileapi el.
Proof.
  intros Hcr. unfold blank_entries. rewrite <- (orb_assoc _ (is_type "checkbox" el)), Hcr.
  rewrite orb_true_r. cbn [orb].
  assert (is_type "file" el = false /\ is_type "image" el = false) as [Hf Hi].
  { apply orb_true_iff in Hcr as [T|T]; split; by apply (types_differ _ _ _ T). }
  apply unsuccessful_sends_nothing; [|done|done].
  change (unsuccessful f (el <| checked := false |>)) with
    (negb (truthy (name el)) || disabled el || is_type "reset" el || is_type "button" el
     || (is_type "checkbox" el || is_type "radio" el) && negb false
     || (is_type "submit" el || is_type "image" el) && owned el
        && bool_decide (clk f ≠ Some (e_id el))
     || is_tag "select" el && negb (present (selectedIndex el))).
  rewrite Hcr. cbn [andb negb]. by rewrite !orb_true_r.
Qed.

Lemma deselected_index el l :
  selectedIndex (el <| opts := map (fun o => o <| o_selected := false |>) l |>) = None.
Proof.
  unfold selectedIndex. cbn. induction l as [|o l IH]; [done|]. cbn.
  by destruct (list_find _ _) as [[]|].
Qed.

Lemma clear_select fileapi f semantic el :
  is_tag "select" el = true ->
  ty el = Some (js "select-one") \/ ty el = Some (js "select-multiple") ->
  fst (gather fileapi f semantic
         (el <| opts := map (fun o => o <| o_selected := false |>) (opts el) |>))
  = blank_entries fileapi el.
Proof.
  intros Ht Hty. unfold blank_entries. rewrite Ht, orb_true_r.
  apply unsuccessful_sends_nothing.
  - apply orb_true_iff. right. rewrite deselected_index.
    change (is_tag "select" _) with (is_tag "select" el). by rewrite Ht.
  - apply bool_decide_eq_false. cbn. destruct Hty as [->| ->]; done.
  - apply bool_decide_eq_false. cbn. destruct Hty as [->| ->]; done.
Qed.

(** What a cleared element sends: one blank at most, if it is one of the controls that are
    cleared, and what it sent before otherwise. *)
Lemma clear_gather fileapi f semantic el :
  clearable_ready el ->
  fst (gather fileapi f semantic (cleared el))
  = if blanked el then blank_entries fileapi el else fst (gather fileapi f semantic el).
Proof.
  intros (Hsel & Hta & Hcol & Hran). unfold cleared, blanked.
  destruct (clearable el); [|done]. cbn [andb]. unfold clear_field.
  destruct (put_value_blank el Hcol Hran) as [Hv Hfs].
  assert (re_test el = true \/ ty el = Some (js "textarea") \/ is_type "file" el = true ->
          is_tag "select" el = false) as Hns.
  { destruct (is_tag "select" el); [|done]. unfold re_test, is_type, type_text.
    destruct (Hsel eq_refl) as [->| ->]; vm_compute; naive_solver. }
  destruct (re_test el) eqn:Hre; [|destruct (is_tag "textarea" el) eqn:Htt].
  - cbn [orb]. apply gather_blank; auto using put_value_keeps.
  - cbn [orb]. apply gather_blank; auto using put_value_keeps.
  - cbn [orb]. destruct (is_type "checkbox" el || is_type "radio" el) eqn:Hcr.
    + by apply clear_box.
    + destruct (is_tag "select" el) eqn:Ht; [apply clear_select; auto|].
      cbn [orb]. destruct (is_type "file" el) eqn:Hf; [|done].
      destruct msie eqn:Hie; [destruct (clone_blank el Hie)|]; apply gather_blank;
        auto using put_value_keeps, clone_keeps.
Qed.

Lemma cleared_image el :
  clearable_ready el -> is_type "image" el = true -> cleared el = el.
Proof.
  intros (Hsel & Hta & _ & _) Hi. unfold cleared, clear_field.
  rewrite !(types_differ "image" _ el Hi) by done.
  apply bool_decide_eq_true in Hi. unfold re_test, type_text. rewrite Hi.
  destruct (is_tag "textarea" el); [rewrite Hta in Hi; done|].
  destruct (is_tag "select" el); [destruct (Hsel eq_refl) as [E|E]; rewrite E in Hi; done|].
  by destruct (clearable el).
Qed.

Lemma by_id_cleared f i : by_id (clearForm NoHidden f) i = cleared <$> by_id f i.
Proof.
  unfold by_id, clearForm. cbn [els].
  change (els (f <| els := map _ (els f) |>)) with (map cleared (els f)).
  induction (els f) as [|el l IH]; [done|]. cbn [map list_find].
  assert (e_id (cleared el) = e_id el) as E by apply clear_field_fields. rewrite E.
  case_decide; [done|]. cbn. revert IH.
  by destruct (list_find _ (map cleared l)) as [[]|], (list_find _ l) as [[]|].
Qed.

Lemma cleared_image_entries f :
  Forall clearable_ready (els f) -> image_entries (clearForm NoHidden f) = image_entries f.
Proof.
  intros Hf. unfold image_entries.
  change (clk (clearForm NoHidden f)) with (clk f). destruct (clk f) as [i|]; [|done].
  cbn [mbind option_bind]. rewrite by_id_cleared.
  destruct (by_id f i) as [el|] eqn:E; [|done]. cbn [fmap option_fmap option_map].
  assert (clearable_ready el) as Hel.
  { unfold by_id in E. destruct (list_find _ (els f)) as [[j x]|] eqn:Hx; [|done].
    injection E as ->. apply list_find_Some in Hx as (Hj & _ & _).
    exact (Forall_lookup_1 _ _ _ _ Hf Hj). }
  destruct (is_type "image" el) eqn:Hi; [by rewrite cleared_image, ?Hi|].
  destruct (clear_field_fields el) as (_ & Hy & _). unfold is_type in *. rewrite Hy, Hi.
  by rewrite !andb_false_r.
Qed.

Lemma cleared_sources f semantic :
  source_elements (clearForm NoHidden f) semantic = map cleared (source_elements f semantic).
Proof.
  unfold source_elements. destruct semantic; [done|].
  change (els (clearForm NoHidden f)) with (map cleared (els f)).
  induction (els f) as [|el l IH]; [done|]. cbn [map]. rewrite !filter_cons.
  rewrite cleared_listed. case_decide; [|done]. cbn [map]. by rewrite IH.
Qed.

(** After [clearForm] the form gathers exactly this: one blank for each enabled named
    text, text area and file control, nothing for the boxes, radio buttons and selects, and
    what it gathered before for every other control, in the same order. *)
Theorem cleared_form_sends fileapi f semantic :
  Forall clearable_ready (els f) ->
  fst (formToArray fileapi (Some (clearForm NoHidden f)) semantic)
  = concat (map (fun el => if blanked el then blank_entries fileapi el
                           else fst (gather fileapi f semantic el))
                (source_elements f semantic))
    ++ (if semantic then [] else image_entries f).
Proof.
  intros Hf. unfold formToArray. cbn [fst]. f_equal.
  - rewrite cleared_sources, !map_map. f_equal. apply map_ext_in. intros el Hin.
    rewrite (gather_clk fileapi _ f) by done. apply clear_gather.
    rewrite Forall_forall in Hf. apply Hf. unfold source_elements in Hin.
    destruct semantic; [by apply list_elem_of_In|].
    by apply list_elem_of_In, list_elem_of_filter in Hin as [_ ?].
  - destruct semantic; [done|]. by apply cleared_image_entries.
Qed.
End Clearing.

(** A browser whose text controls take any text. *)
#[export] Instance plain_dom : Dom := {
  put_value s el := el <| value := Some s |> <| files := [] |>;
  put_selected el i b :=
    imap (fun j o => o <| o_selected := if decide (j = i) then b
                                        else negb (is_type "select-one" el && b) && o_selected o |>)
         (opts el);
  reset f := f;
  matches _ _ := false;
  clone_true el := el <| value := Some [] |> <| files := [] |>;
  msie := false
}.

#[export] Instance plain_dom_laws : DomLaws.
Proof.
  split; cbn.
  - intros s el. by exists (Some s), [].
  - done.
  - intros el. by exists (Some []), [].
  - done.
  - intros el i Hone Hi. rewrite Hone. apply list_eq. intros j.
    rewrite !list_lookup_fmap, list_lookup_imap.
    destruct (opts el !! j) as [o|] eqn:Ho; cbn.
    + rewrite lookup_seq_lt by (by eapply lookup_lt_Some). cbn.
      by destruct (decide (j = i)), (bool_decide_reflect (j = i)).
    + by rewrite lookup_seq_ge by (by apply lookup_ge_None).
  - intros el i b. apply list_eq. intros j.
    rewrite !list_lookup_fmap, list_lookup_imap. destruct (opts el !! j); done.
Qed.

Lemma cleared_form_sends_witness :
  fst (formToArray true (Some (clearForm NoHidden sample)) false)
  = [Entry (js "user") (VText []) (Some (js "text")) None;
     Entry (js "doc") (VText []) (Some (js "file")) None;
     Entry (js "do") (VText (js "drop")) (Some (js "submit")) None].
Proof.
  rewrite cleared_form_sends; [vm_compute; reflexivity|].
  repeat (constructor; [repeat split; try (vm_compute; intros; congruence);
                        try (intros; vm_compute; auto; fail)|]).
  constructor.
Defined.
