(* ===== verification/FormSubmit.v ===== *)
(** FormSubmit: how the jQuery Form plugin submits a form (jquery/jquery.form.js):
    [ajaxSubmit] with its hooks, the request it makes and its handlers of the answer, and
    the event handlers [ajaxForm] binds, and how it binds them.

    The hooks and the listeners of the plugin's events are functions of the form (and of
    the entries, which the later ones may change); that they may also change the options
    object is left out, as are the settings only passed on to jQuery. *)

From S2P Require Import Prelude Numbers Uri Form.
From coqutil Require Import Datatypes.RecordSettersUsingExistingGetters.

(** * Extra data, as [jQuery.param] prints it *)

Inductive data :=
  | DText (s : jstr)                    (* a string, number or boolean, by its text *)
  | DNull
  | DList (l : list data)
  | DObj (l : list (jstr * data)).

(** [String(t)], null inside an array being empty. *)
Fixpoint data_text (t : data) : jstr :=
  match t with
  | DText s => s
  | DNull => []
  | DList l => join (js ",") (map data_text l)
  | DObj _ => js "[object Object]"
  end.

(** [typeof t == "object"]. *)
Definition is_object (t : data) : bool := match t with DText _ => false | _ => true end.

(** [buildParams]: a list's scalar items share the name and "[]", its others are numbered;
    [i] counts them. *)
Fixpoint buildParams (traditional : bool) (prefix : jstr) (t : data) : list (jstr * jstr) :=
  match t with
  | DList l =>
      (fix items (i : nat) (l : list data) :=
         match l with
         | [] => []
         | x :: l =>
             (if traditional || ends_with (js "[]") prefix then [(prefix, data_text x)]
              else buildParams traditional
                     (prefix ++ js "[" ++ (if is_object x then js_of_N (N.of_nat i) else [])
                             ++ js "]") x)
             ++ items (S i) l
         end) 0%nat l
  | DObj l =>
      if traditional then [(prefix, data_text t)]
      else (fix fields (l : list (jstr * data)) :=
              match l with
              | [] => []
              | (k, x) :: l =>
                  buildParams traditional (prefix ++ js "[" ++ k ++ js "]") x ++ fields l
              end) l
  | DText _ | DNull => [(prefix, data_text t)]
  end.

(** What [options.data] may be: an object, or an array of names and values. *)
Inductive extra := EObj (l : list (jstr * data)) | EList (l : list (jstr * data)).

Definition extra_pairs (traditional : bool) (d : extra) : list (jstr * jstr) :=
  match d with
  | EObj l => concat (map (fun p => buildParams traditional p.1 p.2) l)
  | EList l => map (fun p => (p.1, data_text p.2)) l
  end.

Definition deepSerialize (traditional : bool) (extraData : extra)
    : option (list (jstr * jstr)) :=
  s ← param_pairs (extra_pairs traditional extraData); read_serialized s.

(** * The page and the options *)

(** A property of the form read with [prop]: a string, an element (when a control has that
    name) or something else. *)
Inductive prop_value := PropString (s : jstr) | PropElement | PropOther.

(** [attr2] where jQuery has [prop]. *)
Definition attr2 (p : prop_value) (attr : option jstr) : option jstr :=
  match p with PropString s => Some s | _ => attr end.

Record page := Page {
  href : jstr;
  prop_method : prop_value; attr_method : option jstr;
  prop_action : prop_value; attr_action : option jstr;
  enctype : option jstr; encoding : option jstr;
  fileapi : bool; formdata : bool;
  ajax_traditional : bool
}.

Record options := Options {
  o_type : option jstr;
  o_url : option jstr;
  o_data : option extra;
  semantic : bool;
  traditional : option bool;
  o_resetForm : bool;
  o_clearForm : bool;
  includeHidden : include_hidden;
  dataType : option jstr;
  target : option nat;                  (* the number of elements it selects *)
  success : bool;                       (* there is a handler *)
  iframe : option bool;
  closeKeepAlive : option jstr          (* a URL *)
}.

Record hooks := Hooks {
  pre_serialize : form -> form * bool;                  (* true: vetoed *)
  beforeSerialize : option (form -> form * bool);       (* true: it returned false *)
  beforeSubmit : option (list entry -> form -> list entry * form * bool);
  submit_validate : list entry -> form -> list entry * form * bool
}.

(** * The URL *)

Fixpoint before_hash (s : jstr) : jstr :=
  match s with
  | c :: s' => if decide (c = 35%N) then [] else c :: before_hash s'
  | [] => []
  end.

(** [(url.match(/^([^#]+)/) || [])[1]]. *)
Definition clean_url (url : jstr) : option jstr :=
  let m := before_hash url in if truthy m then Some m else None.

(** [a || b] of strings that may be missing. *)
Definition or_str (a b : option jstr) : option jstr := if truthy a then a else b.

Definition submit_method (pg : page) (o : options) : option jstr :=
  or_str (o_type o) (attr2 (prop_method pg) (attr_method pg)).

(** [options.url] after [$.extend]: the caller's, when it gives one, else the cleaned one. *)
Definition submit_url (pg : page) (o : options) : option jstr :=
  let action := or_str (o_url o) (attr2 (prop_action pg) (attr_action pg)) in
  let url := match action with Some a => trim a | None => [] end in
  let url := if truthy url then url else href pg in
  let url := if truthy url then clean_url url else Some url in
  match o_url o with Some u => Some u | None => url end.

Definition submit_type (pg : page) (o : options) : jstr :=
  match o_type o with
  | Some t => t
  | None => default (js "GET") (or_str (submit_method pg o) None)
  end.

Definition ascii_upper (s : jstr) : jstr :=
  map (fun c => if bool_decide (97 <= c <= 122)%N then (c - 32)%N else c) s.

(** [toUpperCase() == 'GET']. *)
Definition is_get (t : jstr) : bool := bool_decide (ascii_upper t = js "GET").

(** * [ajaxSubmit] *)

(** What is sent: by [$.ajax], as a FormData over XMLHttpRequest, or through an iframe.
    With [closeKeepAlive] a GET request of that URL is sent first, and the upload to
    [url] only when it was answered. *)
Inductive request :=
  | Ajax (url : option jstr) (type : jstr) (query : option jstr)
  | UploadXhr (url : option jstr) (type : jstr) (body : list (jstr * evalue))
  | UploadIframe (url : option jstr)
  | KeepAlive (get : jstr) (url : option jstr).

(** The requests that the answer to a request brings about. *)
Definition answered (r : request) : list request :=
  match r with KeepAlive _ url => [UploadIframe url] | _ => [] end.

(** A hook's step carries its answer: whether it refused, by a veto or by returning false. *)
Inductive step :=
  | TriggerPreSerialize (refused : bool)
  | CallBeforeSerialize (refused : bool)
  | CallBeforeSubmit (a : list entry) (refused : bool)
  | TriggerValidate (a : list entry) (refused : bool)
  | Send (r : request)
  | TriggerNotify.

(** Where a call stops: vetoed or skipped, with an exception, or submitted. *)
Inductive outcome := Stopped | Thrown | Submitted.

Record result := Result { r_steps : list step; r_form : form; r_outcome : outcome }.

(** [$('input[type=file]:enabled[value!=""]', this)]. *)
Definition file_input (el : elt) : bool :=
  is_tag "input" el && bool_decide (ascii_lower <$> type_attr el = Some (js "file"))
  && negb (disabled el) && bool_decide (value_attr el ≠ Some []).

Definition has_files (f : form) : bool := existsb file_input (els f).

Definition multipart (pg : page) : bool :=
  let mp := Some (js "multipart/form-data") in
  bool_decide (enctype pg = mp) || bool_decide (encoding pg = mp).

(** The body of [fileUploadXhr]. *)
Definition xhr_body (trad : bool) (a : list entry) (extraData : option extra)
    : option (list (jstr * evalue)) :=
  let sent := map (fun e => (en_name e, en_value e)) a in
  match extraData with
  | None => Some sent
  | Some d =>
      pairs ← deepSerialize trad d; Some (sent ++ map (fun p => (p.1, VText p.2)) pairs)
  end.

(** [q] with [qx] appended. *)
Definition with_extra (q : jstr) (qx : option jstr) : jstr :=
  if truthy qx then if truthy q then q ++ js "&" ++ default [] qx else default [] qx else q.

(** The choice of a transport; [url] and [query] are [options.url] and [options.data]. *)
Definition transport (pg : page) (o : options) (trad : bool) (f : form) (a : list entry)
    (url query : option jstr) : option request :=
  let fileAPI := fileapi pg && formdata pg in
  let uploads := has_files f || multipart pg in
  if negb (bool_decide (iframe o = Some false))
     && (bool_decide (iframe o = Some true) || uploads && negb fileAPI)
  then Some (if truthy (closeKeepAlive o)
             then KeepAlive (default [] (closeKeepAlive o)) url else UploadIframe url)
  else if uploads && fileAPI
       then body ← xhr_body trad a (o_data o);
            Some (UploadXhr url (default (js "POST") (or_str (submit_method pg o) None)) body)
       else Some (Ajax url (submit_type pg o) query).

(** From the serialization to the request; [None] is an exception. *)
Definition build_request (pg : page) (o : options) (trad : bool) (f : form)
    (a : list entry) (qx : option jstr) : option request :=
  q ← param a;
  let q := with_extra q qx in
  if is_get (submit_type pg o)
  then url ← submit_url pg o;
       transport pg o trad f a
         (Some (url ++ (if has_char question url then js "&" else js "?") ++ q)) None
  else transport pg o trad f a (submit_url pg o) (Some q).

Definition ajaxSubmit (hk : hooks) (pg : page) (o : options) (this : form) : result :=
  let '(f, veto) := pre_serialize hk this in
  let steps := [TriggerPreSerialize veto] in
  if veto then Result steps f Stopped
  else
  let '(steps, f, stop) :=
    match beforeSerialize hk with
    | Some h => let '(f, stop) := h f in (steps ++ [CallBeforeSerialize stop], f, stop)
    | None => (steps, f, false)
    end in
  if stop then Result steps f Stopped
  else
  let trad := default (ajax_traditional pg) (traditional o) in
  let a := fst (formToArray (fileapi pg) (Some f) (semantic o)) in
  match (match o_data o with
         | Some d => Some <$> param_pairs (extra_pairs trad d)
         | None => Some None
         end) with
  | None => Result steps f Thrown
  | Some qx =>
      let '(steps, a, f, stop) :=
        match beforeSubmit hk with
        | Some h => let '(a', f, stop) := h a f in (steps ++ [CallBeforeSubmit a stop], a', f, stop)
        | None => (steps, a, f, false)
        end in
      if stop then Result steps f Stopped
      else
      let '(a', f, veto) := submit_validate hk a f in
      let steps := steps ++ [TriggerValidate a veto] in
      if veto then Result steps f Stopped
      else match build_request pg o trad f a' qx with
           | None => Result steps f Thrown
           | Some r => Result (steps ++ [Send r; TriggerNotify]) f Submitted
           end
  end.

(** [$(…).ajaxSubmit(options)], with the fast exit when nothing is selected. *)
Definition fn_ajaxSubmit (hk : hooks) (pg : page) (o : options) (this : option form)
    : option result :=
  ajaxSubmit hk pg o <$> this.

(** * The answer *)

(** The functions of [callbacks], in order. *)
Inductive callback := CReset | CClear | CTarget (n : nat) | CSuccess.

Definition callbacks (o : options) : list callback :=
  (if o_resetForm o then [CReset] else []) ++ (if o_clearForm o then [CClear] else [])
  ++ match truthy (dataType o), target o with
     | false, Some n => [CTarget n]
     | _, _ => if success o then [CSuccess] else []
     end.

(** What the page sees of an answer. *)
Inductive effect := ShowInTarget | SuccessCalled.

Definition run_callback `{Dom} (o : options) (c : callback) (f : form)
    : form * list effect :=
  match c with
  | CReset => (resetForm f, [])
  | CClear => (clearForm (includeHidden o) f, [])
  | CTarget n => (f, ShowInTarget :: (if success o then replicate n SuccessCalled else []))
  | CSuccess => (f, [SuccessCalled])
  end.

(** [options.success]. *)
Definition on_success `{Dom} (o : options) (f : form) : form * list effect :=
  fold_left (fun fe c => let '(f, es) := run_callback o c fe.1 in (f, fe.2 ++ es))
            (callbacks o) (f, []).

(** What [$.ajax] requests of a URL: the part before the hash. *)
Definition ajax_url (url : jstr) : jstr := before_hash url.

(** * The handlers of [ajaxForm] *)

(** A click: the element hit and its ancestors, from the inside out, and the coordinates of
    the event and of the element. *)
Record click := Click {
  path : list elt;
  offsetXY : option (Z * Z);
  pageXY : Z * Z;
  elem_offset : Z * Z
}.

Definition type_is (s : string) (el : elt) : bool :=
  bool_decide (ascii_lower <$> type_attr el = Some (js s)).

(** The element that was used to submit the form, if the click is on one. *)
Definition submitting (e : click) : option elt :=
  match path e with
  | [] => None
  | t :: _ =>
      if type_is "submit" t || type_is "image" t then Some t
      else snd <$> list_find (fun el => type_is "submit" el = true) (path e)
  end.

(** The form with the timers of its clicks. *)
Record bound := Bound { b_form : form; b_timers : nat }.

Definition captureSubmittingElement (e : click) (b : bound) : bound :=
  match submitting e with
  | None => b
  | Some t =>
      let f := (b_form b) <| clk := Some (e_id t) |> in
      let f :=
        if is_type "image" t then
          let xy := match offsetXY e with
                    | Some xy => xy
                    | None => ((pageXY e).1 - (elem_offset e).1,
                               (pageXY e).2 - (elem_offset e).2)%Z
                    end in
          f <| clk_x := Some xy.1 |> <| clk_y := Some xy.2 |>
        else f in
      Bound f (S (b_timers b))
  end.

(** The timer of a click, 100 ms later. *)
Definition clear_vars (b : bound) : bound :=
  Bound ((b_form b) <| clk := None |> <| clk_x := None |> <| clk_y := None |>)
        (pred (b_timers b)).

(** [doAjaxSubmit]: what is submitted, and that the browser does not submit. *)
Definition doAjaxSubmit (hk : hooks) (pg : page) (o : options) (prevented : bool)
    (b : bound) : option result :=
  if prevented then None else Some (ajaxSubmit hk pg o (b_form b)).

(** * Binding: [ajaxForm] *)

Section Binding.
Context {O : Type}.                     (* the options of a call *)
Context (matches : jstr -> nat -> bool). (* does a selector select a form *)

Inductive kind := Submit | Click_.

#[export] Instance kind_eq_dec : EqDecision kind.
Proof. solve_decision. Defined.

(** The document: the forms parsed or inserted so far, the plugin's handlers bound to
    forms and to the document, in order, and the functions that wait for [ready]. *)
Record document := Document {
  isReady : bool;
  forms : list nat;
  own : list (nat * kind * O);
  delegated : list (jstr * kind * O);
  queued : list (jstr * O)
}.

(** What a call is made on: its elements, and the selector they come from. *)
Record call := Call { elements_ : list nat; selector : jstr; delegation : bool; data_ : O }.

Definition select (s : jstr) (d : document) : list nat := List.filter (matches s) (forms d).

(** [unbind('submit.form-plugin click.form-plugin')]. *)
Definition ajaxFormUnbind (els : list nat) (d : document) : document :=
  d <| own ::= List.filter (fun b => negb (bool_decide (b.1.1 ∈ els))) |>.

Definition bind (els : list nat) (k : kind) (o : O) (d : document) : document :=
  d <| own ::= fun l => l ++ map (fun e => (e, k, o)) els |>.

(** [$(document).off(..., selector, handler)] and [on]. *)
Definition off (s : jstr) (k : kind) (d : document) : document :=
  d <| delegated ::= List.filter (fun b => negb (bool_decide (b.1 = (s, k)))) |>.
Definition on (s : jstr) (k : kind) (o : O) (d : document) : document :=
  d <| delegated ::= fun l => l ++ [(s, k, o)] |>.

(** [has_on]: this jQuery has [on]. *)
Definition ajaxForm (has_on : bool) (c : call) (d : document) : document :=
  if delegation c && has_on then
    on (selector c) Click_ (data_ c) (on (selector c) Submit (data_ c)
      (off (selector c) Click_ (off (selector c) Submit d)))
  else match elements_ c with
       | [] =>
           if negb (isReady d) && truthy (selector c)
           then d <| queued ::= fun q => q ++ [(selector c, data_ c)] |> else d
       | els => bind els Click_ (data_ c) (bind els Submit (data_ c) (ajaxFormUnbind els d))
       end.

(** The document is parsed: the waiting calls are made again. *)
Definition ready (d : document) : document :=
  let q := queued d in
  let d := d <| isReady := true |> <| queued := [] |> in
  fold_left (fun d p => ajaxForm false (Call (select p.1 d) p.1 false p.2) d) q d.

(** The handlers of an event on a form: its own, then, as it bubbles, the document's. *)
Definition handlers (k : kind) (e : nat) (d : document) : list O :=
  map snd (List.filter (fun b => bool_decide (b.1 = (e, k))) (own d))
  ++ map snd (List.filter (fun b => bool_decide (b.1.2 = k) && matches b.1.1 e) (delegated d)).

(** [doAjaxSubmit] of each handler in turn: the options submitted with. *)
Fixpoint submits (prevented : bool) (l : list O) : list O :=
  match l with
  | [] => []
  | o :: l => (if prevented then [] else [o]) ++ submits true l
  end.

Definition submit_event (prevented : bool) (e : nat) (d : document) : list O :=
  submits prevented (handlers Submit e d).

Inductive doc_event :=
  | Parsed (e : nat)                    (* a form comes into the document *)
  | AjaxForm (c : call)
  | Unbind (els : list nat)
  | Ready.

Definition doc_handle (has_on : bool) (d : document) (ev : doc_event) : document :=
  match ev with
  | Parsed e => d <| forms ::= fun l => l ++ [e] |>
  | AjaxForm c => ajaxForm has_on c d
  | Unbind els => ajaxFormUnbind els d
  | Ready => ready d
  end.

Definition document_new : document := Document false [] [] [] [].

Definition doc_run (has_on : bool) (evs : list doc_event) : document :=
  fold_left (doc_handle has_on) evs document_new.
End Binding.
Arguments document : clear implicits.
Arguments call : clear implicits.
Arguments doc_event : clear implicits.
