(* ===== verification/FormSubmitFacts.v ===== *)
(** FormSubmitFacts: a submission goes through its hooks in order and makes one request or
    none; what a GET request carries reads back; the button pressed is the one sent; a form
    bound however often submits once. *)

From stdpp Require Import sorting.
From S2P Require Import Prelude Numbers Uri Form FormFacts FormSubmit.

From coqutil Require Import Datatypes.RecordSettersUsingExistingGetters.

(** * The order of a submission *)

Definition rank (s : step) : nat :=
  match s with
  | TriggerPreSerialize _ => 0
  | CallBeforeSerialize _ => 1
  | CallBeforeSubmit _ _ => 2
  | TriggerValidate _ _ => 3
  | Send _ => 4
  | TriggerNotify => 5
  end.

Definition sends (s : step) : bool := match s with Send _ => true | _ => false end.

Definition refuses (s : step) : bool :=
  match s with
  | TriggerPreSerialize b | CallBeforeSerialize b | CallBeforeSubmit _ b
  | TriggerValidate _ b => b
  | _ => false
  end.

(** The steps that ask: every hook there is, once. *)
Definition asks (s : step) : bool := match s with Send _ | TriggerNotify => false | _ => true end.

Definition hook_count (hk : hooks) : nat :=
  (2 + (if present (beforeSerialize hk) then 1 else 0)
   + (if present (beforeSubmit hk) then 1 else 0))%nat.

(** In order; stopped exactly by a refusal; submitted with one request, after every hook
    was asked, and notified. *)
Definition orderly (hk : hooks) (r : result) : Prop :=
  StronglySorted (fun s t => rank s < rank t)%nat (r_steps r)
  /\ (r_outcome r = Stopped <-> existsb refuses (r_steps r) = true)
  /\ (r_outcome r = Submitted -> length (List.filter sends (r_steps r)) = 1%nat
        /\ TriggerNotify ∈ r_steps r
        /\ length (List.filter asks (r_steps r)) = hook_count hk)
  /\ (r_outcome r ≠ Submitted -> List.filter sends (r_steps r) = []
        /\ TriggerNotify ∉ r_steps r).

Ltac orderly :=
  unfold hook_count; split_and!; cbn;
  [repeat constructor; cbn; lia
  | split; cbn; (done || congruence)
  | (done || (intros _; split_and!; [done|set_solver|congruence]))
  | (done || (intros _; split; [done|set_solver]))].

(** The rest of a submission, from the extra data on, with the form [f]. *)
Ltac from_data f :=
  destruct (match o_data _ with Some _ => _ | None => _ end); [|orderly];
  destruct (beforeSubmit _) as [?h|]; [destruct (h _ f) as [[? ?f] []]; [orderly|]|];
  match goal with
  | |- context [submit_validate ?hk ?a ?g] =>
      destruct (submit_validate hk a g) as [[? ?] []]; [orderly|]
  end;
  destruct (build_request _ _ _ _ _ _); orderly.

(** However the hooks and listeners answer, a submission goes through its steps in
    their order, each at most once; it stops exactly when one of them refuses; when it is
    submitted every one of them was asked, one request is made within the call (with
    [closeKeepAlive] the one whose answer brings about the upload) and one notice given;
    when it stops, or a text cannot be printed and it throws, neither. *)
Theorem submission_orderly hk pg o f : orderly hk (ajaxSubmit hk pg o f).
Proof.
  unfold ajaxSubmit, orderly, hook_count.
  destruct (pre_serialize hk f) as [f1 []]; [orderly|].
  destruct (beforeSerialize hk) as [h1|]; [|from_data f1].
  destruct (h1 f1) as [f2 []]; [orderly|from_data f2].
Qed.

(** * What a GET request carries *)

(** Hooks that change nothing and refuse nothing. *)
Definition quiet : hooks :=
  Hooks (fun f => (f, false)) None None (fun a f => (a, f, false)).

Lemma before_hash_none s : 35%N ∉ s -> before_hash s = s.
Proof.
  induction s as [|c s IH]; [done|]. rewrite not_elem_of_cons. intros [Hc Hs]. cbn.
  rewrite decide_False by done. by rewrite IH.
Qed.

Lemma before_hash_app s t : 35%N ∉ s -> before_hash (s ++ 35%N :: t) = s.
Proof.
  induction s as [|c s IH]; [done|]. rewrite not_elem_of_cons. intros [Hc Hs].
  cbn [app before_hash]. rewrite decide_False by done. by rewrite IH.
Qed.

Lemma parts_truthy ps l :
  Forall2 part_of ps l -> truthy (join [38%N] ps) = bool_decide (l ≠ []).
Proof.
  destruct 1 as [|e p ps l (_ & _ & He & _) _]; [done|].
  rewrite bool_decide_true by done. destruct e; [done|]. by destruct ps.
Qed.

Lemma parts_no_hash ps l : Forall2 part_of ps l -> 35%N ∉ join [38%N] ps.
Proof.
  induction 1 as [|e p ps l (_ & He & _) H IH]; [apply not_elem_of_nil|].
  destruct ps as [|e' ps]; [done|]. rewrite join_cons by done.
  rewrite !not_elem_of_app, not_elem_of_cons. split_and!; [done|done|apply not_elem_of_nil|done].
Qed.

(** Appending the extra data to the query is printing both together. *)
Lemma with_extra_parts l1 l2 :
  Forall well_formed_pair l1 -> Forall well_formed_pair l2 ->
  exists q1 q2 ps,
    param_pairs l1 = Some q1 /\ param_pairs l2 = Some q2
    /\ with_extra q1 (Some q2) = join [38%N] ps /\ Forall2 part_of ps (l1 ++ l2).
Proof.
  intros H1 H2. destruct (param_pairs_parts l1 H1) as (p1 & -> & Hp1).
  destruct (param_pairs_parts l2 H2) as (p2 & -> & Hp2).
  do 2 eexists. exists (p1 ++ p2). do 2 (split; [done|]). split; [|by apply Forall2_app].
  unfold with_extra. change (truthy (Some ?x)) with (truthy x).
  rewrite (parts_truthy p1 l1), (parts_truthy p2 l2) by done.
  destruct Hp1, Hp2; cbn [app]; rewrite ?app_nil_r; try done.
  do 2 (rewrite bool_decide_true by done). change (js "&") with [38%N].
  symmetry. exact (join_app [38%N] (_ :: _) (_ :: _) ltac:(done) ltac:(done)).
Qed.

Definition no_upload (pg : page) (o : options) (f : form) : Prop :=
  has_files f = false /\ multipart pg = false /\ iframe o ≠ Some true.

Lemma transport_ajax pg o trad f a url query :
  no_upload pg o f ->
  transport pg o trad f a url query = Some (Ajax url (submit_type pg o) query).
Proof.
  intros (Hf & Hm & Hi). unfold transport. rewrite Hf, Hm. cbn [orb andb].
  rewrite (bool_decide_false (iframe o = Some true)) by done. by rewrite andb_false_r.
Qed.

(** The texts of a submission: those of the form and those of the extra data. *)
Definition submitted_pairs (pg : page) (o : options) (f : form) : list (jstr * jstr) :=
  map entry_text (fst (formToArray (fileapi pg) (Some f) (semantic o)))
  ++ match o_data o with
     | Some d => extra_pairs (default (ajax_traditional pg) (traditional o)) d
     | None => []
     end.

(** The query of a submission, whatever carries it. *)
Lemma query_of_submission pg o f :
  Forall well_formed_pair (submitted_pairs pg o f) ->
  exists q qx ps,
    param (fst (formToArray (fileapi pg) (Some f) (semantic o))) = Some q
    /\ match o_data o with
       | Some d => Some <$> param_pairs (extra_pairs (default (ajax_traditional pg)
                                                       (traditional o)) d)
       | None => Some None
       end = Some qx
    /\ with_extra q qx = join [38%N] ps /\ Forall2 part_of ps (submitted_pairs pg o f).
Proof.
  unfold submitted_pairs. rewrite Forall_app. intros [H1 H2]. unfold param.
  destruct (o_data o) as [d|].
  - destruct (with_extra_parts _ _ H1 H2) as (q1 & q2 & ps & -> & -> & Hw & Hp).
    by exists q1, (Some q2), ps.
  - destruct (param_pairs_parts _ H1) as (ps & -> & Hp).
    exists (join [38%N] ps), None, ps. by rewrite app_nil_r.
Qed.

(** A form submitted by GET, without files and undisturbed by hooks, to a URL without
    query or hash makes one request of jQuery: for that URL with a question mark and a
    text, which jQuery keeps whole and from which the names and values of the form and of
    the extra data are read back, in order. *)
Theorem submitted_form_reads_back pg o f u :
  o_url o = Some u -> question ∉ u -> 35%N ∉ u -> is_get (submit_type pg o) = true ->
  no_upload pg o f -> Forall well_formed_pair (submitted_pairs pg o f) ->
  submitted_pairs pg o f ≠ [] ->
  exists a q,
    ajaxSubmit quiet pg o f
    = Result [TriggerPreSerialize false; TriggerValidate a false;
              Send (Ajax (Some (u ++ js "?" ++ q)) (submit_type pg o) None); TriggerNotify]
             f Submitted
    /\ ajax_url (u ++ js "?" ++ q) = u ++ js "?" ++ q
    /\ read_serialized q = Some (submitted_pairs pg o f).
Proof.
  intros Hu Hq Hh Hget Hno Hw Hne.
  destruct (query_of_submission pg o f Hw) as (q & qx & ps & Ha & Hx & Hwe & Hp).
  exists (fst (formToArray (fileapi pg) (Some f) (semantic o))), (join [38%N] ps).
  split; [|split].
  - unfold ajaxSubmit, quiet. cbn [pre_serialize beforeSerialize beforeSubmit submit_validate].
    rewrite Hx. unfold build_request. rewrite Ha. cbn [mbind option_bind]. rewrite Hget, Hwe.
    unfold submit_url. rewrite Hu. cbn [mbind option_bind].
    assert (has_char question u = false) as -> by (by apply bool_decide_eq_false).
    by rewrite transport_ajax.
  - apply before_hash_none. rewrite !not_elem_of_app.
    split_and!; [done|vm_compute; set_solver|by eapply parts_no_hash].
  - apply parts_read; [done|]. intros ->. apply Hne. by inversion Hp.
Qed.

(** When the URL given in the options has a hash, the query is appended behind it, and
    what jQuery requests is the part before: nothing of the form is sent. *)
Theorem hash_url_loses_form pg o f u h q :
  o_url o = Some (u ++ 35%N :: h) -> 35%N ∉ u -> is_get (submit_type pg o) = true ->
  no_upload pg o f -> o_data o = None ->
  param (fst (formToArray (fileapi pg) (Some f) (semantic o))) = Some q ->
  exists a url,
    ajaxSubmit quiet pg o f
    = Result [TriggerPreSerialize false; TriggerValidate a false;
              Send (Ajax (Some url) (submit_type pg o) None); TriggerNotify] f Submitted
    /\ ends_with q url = true /\ ajax_url url = u.
Proof.
  intros Hu Hh Hget Hno Hd Ha.
  exists (fst (formToArray (fileapi pg) (Some f) (semantic o))).
  eexists. split; [|split].
  - unfold ajaxSubmit, quiet. cbn [pre_serialize beforeSerialize beforeSubmit submit_validate].
    rewrite Hd. unfold build_request. rewrite Ha. cbn [mbind option_bind with_extra truthy].
    rewrite Hget. unfold submit_url. rewrite Hu. cbn [mbind option_bind].
    by rewrite transport_ajax.
  - unfold with_extra. cbn [truthy truthy_option]. apply ends_with_spec. rewrite app_assoc. by eexists.
  - rewrite <- app_assoc. by apply before_hash_app.
Qed.

(** * The button pressed *)

Definition a_button (el : elt) : bool := is_type "submit" el || is_type "image" el.

(** What the buttons of a form contribute to what is gathered. *)
Definition button_part (fileapi : bool) (f : form) : list entry :=
  concat (map (fun el => fst (gather fileapi f false el))
              (filter (fun el => a_button el = true) (source_elements f false)))
  ++ image_entries f.

Lemma listed_no_image el : coherent el -> listed el = true -> is_type "image" el = false.
Proof.
  intros (_ & _ & Hi) Hl. destruct (is_type "image" el) eqn:E; [|done].
  revert Hl. unfold listed. rewrite E, Hi by done. by rewrite andb_false_r.
Qed.

Lemma button_no_select el : coherent el -> a_button el = true -> is_tag "select" el = false.
Proof.
  intros (Hs & _) Hb. destruct (is_tag "select" el); [|done].
  revert Hb. unfold a_button, is_type. by destruct (Hs eq_refl) as [->| ->].
Qed.

Lemma idle_button fileapi f el :
  coherent el -> listed el = true -> a_button el = true -> clk f ≠ Some (e_id el) ->
  fst (gather fileapi f false el) = [].
Proof.
  intros Hc Hl Hb Hclk. pose proof (listed_no_image el Hc Hl) as Hi.
  assert (is_type "submit" el = true) as Hs by (revert Hb; unfold a_button; rewrite Hi, orb_false_r; done).
  apply unsuccessful_sends_nothing; [|by apply (types_differ "submit")|done].
  unfold unsuccessful. rewrite Hs. assert (owned el = true) as ->
    by (revert Hl; unfold listed; by destruct (owned el)).
  rewrite (bool_decide_true (clk f ≠ _)) by done. cbn [orb andb]. by rewrite orb_true_r.
Qed.

Lemma pressed_button fileapi f el :
  coherent el -> is_type "submit" el = true -> truthy (name el) = true ->
  disabled el = false -> clk f = Some (e_id el) ->
  fst (gather fileapi f false el)
  = [Entry (default [] (name el)) (VText (val el)) (ty el) (required el)].
Proof.
  intros Hc Hs Hn Hd Hclk.
  assert (is_tag "select" el = false) as Ht
    by (apply button_no_select; [done|]; unfold a_button; by rewrite Hs).
  unfold gather, fieldValue, unsuccessful, default, id. rewrite Hn, Hd, Ht.
  rewrite (types_differ "submit" "file" el Hs), (types_differ "submit" "reset" el Hs),
    (types_differ "submit" "button" el Hs), (types_differ "submit" "checkbox" el Hs),
    (types_differ "submit" "radio" el Hs) by done.
  rewrite (bool_decide_false (clk f ≠ _)) by (rewrite Hclk; naive_solver).
  by rewrite !andb_false_r.
Qed.

(** Everything but one element of a list contributes nothing. *)
Lemma concat_one {A B} (g : A -> list B) (l : list A) x :
  NoDup l -> x ∈ l -> (forall y, y ∈ l -> y ≠ x -> g y = []) -> concat (map g l) = g x.
Proof.
  intros Hnd Hx Hg. apply list_elem_of_split in Hx as (l1 & l2 & ->).
  apply NoDup_app in Hnd as (_ & Hd1 & Hnd). apply NoDup_cons in Hnd as [Hd2 _].
  assert (forall l, (forall y, y ∈ l -> g y = []) -> concat (map g l) = []) as Hnil.
  { clear. intros l. induction l as [|y l IH]; intros H; [done|]. cbn.
    rewrite H, IH by set_solver. done. }
  rewrite map_app, concat_app. cbn [map concat]. rewrite (Hnil l1), (Hnil l2), app_nil_r; [done| |].
  - intros y Hy. apply Hg; set_solver.
  - intros y Hy. apply Hg; set_solver.
Qed.

Lemma by_id_here f t :
  NoDup (map e_id (els f)) -> t ∈ els f -> by_id f (e_id t) = Some t.
Proof.
  intros Hnd Ht. unfold by_id.
  destruct (list_find (fun el => e_id el = e_id t) (els f)) as [[i x]|] eqn:E.
  - apply list_find_Some in E as (Hi & Hx & _). cbn. f_equal.
    apply list_elem_of_lookup in Ht as [j Hj].
    assert (i = j) as ->; [|congruence].
    apply (NoDup_lookup _ _ _ (e_id t) Hnd); rewrite list_lookup_fmap.
    + by rewrite Hi, <- Hx.
    + by rewrite Hj.
  - apply list_find_None in E. rewrite Forall_forall in E. by destruct (E t Ht).
Qed.

Lemma no_button_pressed fileapi f :
  Forall coherent (els f) -> clk f = None -> button_part fileapi f = [].
Proof.
  intros Hco Hclk. unfold button_part, image_entries. rewrite Hclk, app_nil_r.
  unfold source_elements. induction Hco as [|el l Hel _ IH]; [done|].
  rewrite filter_cons. case_decide as Hl; [|done]. rewrite filter_cons.
  case_decide as Hb; [|done]. cbn [map concat]. by rewrite IH, idle_button by (done || by rewrite Hclk).
Qed.

(** What the button [t] contributes when it is pressed: itself or, an image, also the
    coordinates. *)
Definition pressed_entries (f : form) (t : elt) : list entry :=
  if is_type "submit" t
  then [Entry (default [] (name t)) (VText (val t)) (ty t) (required t)]
  else plain_entry (default [] (name t)) (val t) :: image_coords f (default [] (name t)).

Lemma captured e b t :
  submitting e = Some t ->
  clk (b_form (captureSubmittingElement e b)) = Some (e_id t)
  /\ els (b_form (captureSubmittingElement e b)) = els (b_form b).
Proof. unfold captureSubmittingElement. intros ->. by destruct (is_type "image" t). Qed.

(** After a click on a submit button or an image input of the form, or on something
    inside one, what the buttons of the form contribute to the gathered entries is that
    button alone, an image with its coordinates; and after the timer, nothing. *)
Theorem pressed_button_alone_sends fileapi e b t :
  submitting e = Some t -> t ∈ els (b_form b) -> NoDup (map e_id (els (b_form b))) ->
  Forall coherent (els (b_form b)) ->
  listed t = is_type "submit" t -> a_button t = true ->
  truthy (name t) = true -> disabled t = false ->
  let b' := captureSubmittingElement e b in
  button_part fileapi (b_form b') = pressed_entries (b_form b') t
  /\ button_part fileapi (b_form (clear_vars b')) = [].
Proof.
  intros Hsub Hin Hnd Hco Hlis Hbut Hn Hd. cbn zeta.
  destruct (captured e b t Hsub) as [Hclk Hels].
  revert Hclk Hels. generalize (captureSubmittingElement e b). intros [f tm]. cbn [b_form].
  intros Hclk Hels. rewrite <- Hels in *. clear e b Hsub Hels.
  split; [|by apply no_button_pressed].
  pose proof (by_id_here f t Hnd Hin) as Hby.
  assert (coherent t) as Hct by (by rewrite Forall_forall in Hco; apply Hco).
  assert (forall el, el ∈ filter (fun el => a_button el = true) (source_elements f false) ->
            el ≠ t -> fst (gather fileapi f false el) = []) as Hidle.
  { intros el Hel Hne. apply list_elem_of_filter in Hel as [Hb Hel].
    apply list_elem_of_filter in Hel as [Hl Hel]. rewrite Forall_forall in Hco.
    apply idle_button; auto. rewrite Hclk. intros [= E].
    pose proof (by_id_here f el Hnd Hel) as Hby'. rewrite <- E, Hby in Hby'. congruence. }
  unfold button_part, pressed_entries, image_entries. rewrite Hclk. cbn [mbind option_bind].
  rewrite Hby, Hn, Hd. unfold a_button in Hbut. destruct (is_type "submit" t) eqn:Hs.
  - rewrite (types_differ "submit" "image" t Hs) by done. cbn [andb negb]. rewrite app_nil_r.
    rewrite (concat_one _ _ t); [by apply pressed_button| | |done].
    + do 2 apply NoDup_filter. by apply NoDup_fmap_1 in Hnd.
    + apply list_elem_of_filter. split; [unfold a_button; by rewrite Hs|].
      by apply list_elem_of_filter.
  - cbn [orb] in Hbut. rewrite Hbut. cbn [andb negb].
    assert (concat (map (fun el => fst (gather fileapi f false el))
      (filter (fun el => a_button el = true) (source_elements f false))) = []) as ->; [|done].
    apply concat_nil_Forall, Forall_map, Forall_forall. intros el Hel.
    apply Hidle; [done|]. intros ->. apply list_elem_of_filter in Hel as [_ Hel].
    apply list_elem_of_filter in Hel as [Hl _]. congruence.
Qed.

(** * Concrete submissions *)

Definition text_form : form := Form
  [control 0 "INPUT" "text" "user" "J. R";
   control 1 "INPUT" "submit" "do" "save";
   control 2 "INPUT" "image" "map" "go"] None None None.

Definition a_page : page :=
  Page (js "http://h/p") (PropString (js "get")) None (PropString (js "http://h/p")) None
       None None true true false.

Definition get_options : options :=
  Options None (Some (js "/list")) (Some (EObj [(js "tag", DList [DText (js "a"); DText (js "b")])]))
          false None false false NoHidden None None true None None.

Example submitted_url :
  r_steps (ajaxSubmit quiet a_page get_options text_form)
  = [TriggerPreSerialize false;
     TriggerValidate (fst (formToArray true (Some text_form) false)) false;
     Send (Ajax (Some (js "/list?user=J.+R&tag%5B%5D=a&tag%5B%5D=b")) (js "get") None);
     TriggerNotify].
Proof. vm_compute. reflexivity. Qed.

Lemma submitted_form_reads_back_witness :
  exists a q,
    ajaxSubmit quiet a_page get_options text_form
    = Result [TriggerPreSerialize false; TriggerValidate a false;
              Send (Ajax (Some (js "/list" ++ js "?" ++ q))
                         (submit_type a_page get_options) None); TriggerNotify]
             text_form Submitted
    /\ ajax_url (js "/list" ++ js "?" ++ q) = js "/list" ++ js "?" ++ q
    /\ read_serialized q = Some (submitted_pairs a_page get_options text_form).
Proof.
  apply submitted_form_reads_back.
  - reflexivity.
  - apply (bool_decide_unpack _). vm_compute. exact I.
  - apply (bool_decide_unpack _). vm_compute. exact I.
  - reflexivity.
  - split; [reflexivity|split; [reflexivity|discriminate]].
  - apply (bool_decide_unpack _). vm_compute. exact I.
  - vm_compute. discriminate.
Defined.

Definition hash_options : options :=
  Options None (Some (js "/list#top")) None false None false false NoHidden None None true None None.

Lemma hash_url_loses_form_witness :
  exists a url,
    ajaxSubmit quiet a_page hash_options text_form
    = Result [TriggerPreSerialize false; TriggerValidate a false;
              Send (Ajax (Some url) (submit_type a_page hash_options) None); TriggerNotify]
             text_form Submitted
    /\ ends_with (js "user=J.+R") url = true /\ ajax_url url = js "/list".
Proof.
  apply (hash_url_loses_form a_page hash_options text_form (js "/list") (js "top")).
  - reflexivity.
  - apply (bool_decide_unpack _). vm_compute. exact I.
  - reflexivity.
  - split; [reflexivity|split; [reflexivity|discriminate]].
  - reflexivity.
  - vm_compute. reflexivity.
Defined.

(** A click on the picture of [text_form], 3 and 4 pixels from its corner. *)
Definition picture_click : click :=
  Click [control 2 "INPUT" "image" "map" "go"] None (13, 24)%Z (10, 20)%Z.

Lemma text_form_coherent : Forall coherent (els text_form).
Proof.
  repeat (constructor; [split; [|split]; vm_compute; intros; (congruence || lia)|]).
  constructor.
Qed.

Lemma pressed_button_alone_sends_witness :
  let b' := captureSubmittingElement picture_click (Bound text_form 0) in
  button_part true (b_form b')
  = [Entry (js "map") (VText (js "go")) None None;
     Entry (js "map.x") (VCoord (Some 3%Z)) None None;
     Entry (js "map.y") (VCoord (Some 4%Z)) None None]
  /\ button_part true (b_form (clear_vars b')) = [].
Proof.
  apply (pressed_button_alone_sends true picture_click (Bound text_form 0)
           (control 2 "INPUT" "image" "map" "go")).
  - reflexivity.
  - cbn. set_solver.
  - apply (bool_decide_unpack _). vm_compute. exact I.
  - exact text_form_coherent.
  - reflexivity.
  - reflexivity.
  - reflexivity.
  - reflexivity.
Defined.

(** A button that submits because it has no type attribute is not found by the handler:
    its name and value are never sent. *)
Example untyped_button_lost :
  let t := (control 1 "BUTTON" "submit" "do" "drop") <| type_attr := None |> in
  let f := Form [t] None None None in
  is_type "submit" t = true
  /\ captureSubmittingElement (Click [t] None (0, 0)%Z (0, 0)%Z) (Bound f 0) = Bound f 0
  /\ fst (formToArray true (Some f) false) = [].
Proof. split; [|split]; vm_compute; reflexivity. Qed.

(** An empty object of extra data adds a nameless field "undefined" to an upload. *)
Example empty_data_uploads_undefined :
  xhr_body false [] (Some (EObj [])) = Some [([], VText (js "undefined"))].
Proof. vm_compute. reflexivity. Qed.

(** The answer resets, then clears, then reports: to the target, or to the handler. *)
Lemma success_order `{Dom} o f :
  o_resetForm o = true -> o_clearForm o = true -> dataType o = None -> target o = Some 1%nat ->
  success o = true ->
  on_success o f
  = (clearForm (includeHidden o) (resetForm f), [ShowInTarget; SuccessCalled]).
Proof.
  intros H1 H2 H3 H4 H5. unfold on_success, callbacks. rewrite H1, H2, H3, H4. cbn.
  by rewrite H5.
Qed.

(** With [closeKeepAlive] a form with a file makes a second request, when the first was
    answered. *)
Example kept_alive_upload :
  let o := get_options <| iframe := Some true |> <| closeKeepAlive := Some (js "/close") |> in
  exists url, (KeepAlive (js "/close") url) ∈
      omap (fun s => match s with Send r => Some r | _ => None end)
        (r_steps (ajaxSubmit quiet a_page o text_form)) /\
    answered (KeepAlive (js "/close") url) = [UploadIframe url].
Proof.
  exists (Some (js "/list?user=J.+R&tag%5B%5D=a&tag%5B%5D=b")).
  split; [vm_compute; left|reflexivity].
Qed.

(** * The binding of forms *)

(** What [ajaxForm] is for: a form has one set of options or none, and the document a list
    of selectors, each with one set of options. *)
Section BindingFacts.
Context {O : Type} (matches : jstr -> nat -> bool).

Record plan := Plan {
  p_ready : bool;
  p_forms : list nat;
  p_own : nat -> option O;
  p_delegated : list (jstr * O);
  p_waiting : list (jstr * O)
}.

Definition enlist (els : list nat) (o : O) (p : plan) : plan :=
  Plan (p_ready p) (p_forms p) (fun e => if bool_decide (e ∈ els) then Some o else p_own p e)
    (p_delegated p) (p_waiting p).

Definition plan_call (has_on : bool) (c : call O) (p : plan) : plan :=
  if delegation c && has_on then
    Plan (p_ready p) (p_forms p) (p_own p)
      (List.filter (fun b => negb (bool_decide (b.1 = selector c))) (p_delegated p)
       ++ [(selector c, data_ c)]) (p_waiting p)
  else if negb (p_ready p) && bool_decide (elements_ c = []) && truthy (selector c)
  then Plan (p_ready p) (p_forms p) (p_own p) (p_delegated p)
         (p_waiting p ++ [(selector c, data_ c)])
  else enlist (elements_ c) (data_ c) p.

Definition plan_handle (has_on : bool) (p : plan) (ev : doc_event O) : plan :=
  match ev with
  | Parsed e => Plan (p_ready p) (p_forms p ++ [e]) (p_own p) (p_delegated p) (p_waiting p)
  | AjaxForm c => plan_call has_on c p
  | Unbind els =>
      Plan (p_ready p) (p_forms p)
        (fun e => if bool_decide (e ∈ els) then None else p_own p e) (p_delegated p) (p_waiting p)
  | Ready =>
      fold_left (fun p w => enlist (List.filter (matches w.1) (p_forms p)) w.2 p) (p_waiting p)
        (Plan true (p_forms p) (p_own p) (p_delegated p) [])
  end.

Definition plan_run (has_on : bool) (evs : list (doc_event O)) : plan :=
  fold_left (plan_handle has_on) evs (Plan false [] (fun _ => None) [] []).

Definition own_of (e : nat) (k : kind) (l : list (nat * kind * O)) : list O :=
  map snd (List.filter (fun b => bool_decide (b.1 = (e, k))) l).
Definition kept_of (k : kind) (l : list (jstr * kind * O)) : list (jstr * O) :=
  map (fun b => (b.1.1, b.2)) (List.filter (fun b => bool_decide (b.1.2 = k)) l).

Record follows (d : document O) (p : plan) : Prop := {
  f_ready : isReady d = p_ready p;
  f_forms : forms d = p_forms p;
  f_own : forall e k, own_of e k (own d) = option_list (p_own p e);
  f_kept : forall k, kept_of k (delegated d) = p_delegated p;
  f_waiting : queued d = p_waiting p
}.

Lemma own_of_app e k l l' : own_of e k (l ++ l') = own_of e k l ++ own_of e k l'.
Proof. unfold own_of. by rewrite List.filter_app, map_app. Qed.

Lemma own_of_unbound e k (els : list nat) l :
  own_of e k (List.filter (fun b => negb (bool_decide (b.1.1 ∈ els))) l)
  = if bool_decide (e ∈ els) then [] else own_of e k l.
Proof.
  unfold own_of. induction l as [|[[e' k'] o] l IH]; cbn; [by case_bool_decide|].
  destruct (decide ((e', k') = (e, k))) as [[= -> ->]|Hne].
  - destruct (decide (e ∈ els)) as [H|H].
    + rewrite (bool_decide_true (e ∈ els)) in * by done. exact IH.
    + rewrite (bool_decide_false (e ∈ els)) in * by done. cbn. rewrite bool_decide_true by done.
      cbn. by rewrite IH.
  - rewrite (bool_decide_false ((e', k') = (e, k))) by done.
    destruct (bool_decide (e' ∈ els)); cbn; [exact IH|]. by rewrite bool_decide_false.
Qed.

Lemma own_of_bound e k k' o els :
  NoDup els ->
  own_of e k (map (fun e' => (e', k', o)) els)
  = if bool_decide (k = k') && bool_decide (e ∈ els) then [o] else [].
Proof.
  unfold own_of. induction 1 as [|e' els Hn Hnd IH]; cbn; [by rewrite andb_false_r|].
  destruct (decide ((e', k') = (e, k))) as [[= -> ->]|Hne].
  - rewrite (bool_decide_true ((e, k) = (e, k))), (bool_decide_true (k = k)) by done.
    rewrite (bool_decide_true (e ∈ e :: els)) by left. cbn. rewrite IH.
    by rewrite (bool_decide_false (e ∈ els)), andb_false_r.
  - rewrite bool_decide_false by done. rewrite IH.
    destruct (decide (k = k')) as [->|Hk]; [|by rewrite (bool_decide_false (k = k'))].
    rewrite (bool_decide_ext (e ∈ e' :: els) (e ∈ els)); [done|]. set_solver.
Qed.

Lemma kept_of_app k l l' : kept_of k (l ++ l') = kept_of k l ++ kept_of k l'.
Proof. unfold kept_of. by rewrite List.filter_app, map_app. Qed.

Lemma kept_of_off k k' s l :
  kept_of k (List.filter (fun b => negb (bool_decide (b.1 = (s, k')))) l)
  = if bool_decide (k = k') then List.filter (fun b => negb (bool_decide (b.1 = s))) (kept_of k l)
    else kept_of k l.
Proof.
  unfold kept_of. induction l as [|[[s' k''] o] l IH]; cbn; [by case_bool_decide|].
  destruct (decide (k'' = k)) as [->|Hk].
  - rewrite (bool_decide_true (k = k)) by done. destruct (decide (k = k')) as [<-|Hk'].
    + rewrite (bool_decide_true (k = k)) in * by done. cbn.
      destruct (decide (s' = s)) as [->|Hs].
      * rewrite !bool_decide_true by done. exact IH.
      * rewrite !bool_decide_false by congruence. cbn. rewrite bool_decide_true by done. cbn. by rewrite IH.
    + rewrite (bool_decide_false (k = k')) in * by done.
      rewrite bool_decide_false by congruence. cbn. rewrite bool_decide_true by done. cbn. by rewrite IH.
  - rewrite (bool_decide_false (k'' = k)) by done.
    destruct (negb _); cbn; [|exact IH]. by rewrite (bool_decide_false (k'' = k)).
Qed.

Lemma bound_follows els o d p : NoDup els -> follows d p ->
  follows (bind els Click_ o (bind els Submit o (ajaxFormUnbind els d))) (enlist els o p).
Proof.
  intros Hnd [H1 H2 H3 H4 H5]. split; try done. intros e k.
  change (own _) with ((List.filter (fun b => negb (bool_decide (b.1.1 ∈ els))) (own d)
    ++ map (fun e => (e, Submit, o)) els) ++ map (fun e => (e, Click_, o)) els).
  rewrite !own_of_app, own_of_unbound, !own_of_bound, H3 by done. cbn [enlist p_own].
  destruct (bool_decide (e ∈ els)), k; cbn; by rewrite ?app_nil_r.
Qed.

Lemma call_follows has_on c d p : NoDup (elements_ c) -> follows d p ->
  follows (ajaxForm has_on c d) (plan_call has_on c p).
Proof.
  intros Hnd H. pose proof H as [H1 H2 H3 H4 H5]. unfold ajaxForm, plan_call.
  destruct (delegation c && has_on).
  - split; try done. intros k. rewrite <- (H4 k).
    unfold on, off. cbn -[bool_decide kept_of List.filter app].
    rewrite !kept_of_app, !kept_of_off. by destruct k; cbn; rewrite ?app_nil_r.
  - rewrite <- H1. destruct (elements_ c) as [|e els] eqn:E.
    + rewrite bool_decide_true by done. rewrite andb_true_r.
      destruct (negb (isReady d) && truthy (selector c)).
      * split; try done. cbn. by rewrite H5.
      * by split.
    + rewrite bool_decide_false by done. rewrite andb_false_r. cbn [andb].
      by apply bound_follows.
Qed.

(** A call that waited binds what its selector selects now. *)
Lemma ready_call (d : document O) s o :
  isReady d = true ->
  ajaxForm false (Call (select matches s d) s false o) d
  = match select matches s d with
    | [] => d
    | els => bind els Click_ o (bind els Submit o (ajaxFormUnbind els d))
    end.
Proof. intros H. unfold ajaxForm. cbn. by rewrite H. Qed.

Lemma waiting_follow q (d : document O) (p : plan) :
  NoDup (forms d) -> isReady d = true -> follows d p ->
  follows (fold_left (fun d w => ajaxForm false (Call (select matches w.1 d) w.1 false w.2) d) q d)
    (fold_left (fun p w => enlist (List.filter (matches w.1) (p_forms p)) w.2 p) q p).
Proof.
  revert d p. induction q as [|[s o] q IH]; intros d p Hf Hr H; [done|]. cbn [fold_left fst snd].
  rewrite ready_call by done. rewrite <- (f_forms _ _ H). fold (select matches s d).
  destruct (select matches s d) as [|e els] eqn:E.
  - apply IH; [done..|]. destruct H. by split.
  - apply IH; [done..|]. apply bound_follows; [|done]. rewrite <- E.
    by apply NoDup_ListNoDup, List.NoDup_filter, NoDup_ListNoDup.
Qed.

Lemma event_follows has_on ev d p :
  NoDup (forms d) -> (forall c, ev = AjaxForm c -> NoDup (elements_ c)) -> follows d p ->
  follows (doc_handle matches has_on d ev) (plan_handle has_on p ev).
Proof.
  intros Hf Hc H. pose proof H as [H1 H2 H3 H4 H5].
  destruct ev as [e|c|els|]; cbn [doc_handle plan_handle].
  - split; try done. cbn. by rewrite H2.
  - apply call_follows; [by apply Hc|done].
  - split; try done. intros e k. cbn [p_own].
    change (own _) with (List.filter (fun b : nat * kind * O => negb (bool_decide (b.1.1 ∈ els))) (own d)).
    rewrite own_of_unbound, H3. by case_bool_decide.
  - unfold ready. rewrite <- H5. by apply waiting_follow.
Qed.

Definition parsed (ev : doc_event O) : option nat := match ev with Parsed e => Some e | _ => None end.

Lemma doc_forms has_on ev d :
  forms (doc_handle matches has_on d ev) = forms d ++ option_list (parsed ev).
Proof.
  assert (forall has_on (c : call O) d, forms (ajaxForm has_on c d) = forms d) as Hc.
  { intros h c d'. unfold ajaxForm. destruct (_ && _); [done|].
    destruct (elements_ c); [|done]. by destruct (_ && _). }
  destruct ev; cbn [doc_handle parsed option_list]; [done|rewrite app_nil_r..]; [apply Hc|done|].
  unfold ready. change (forms d) with (forms (d <| isReady := true |> <| queued := [] |>)).
  generalize (d <| isReady := true |> <| queued := [] |>).
  induction (queued d) as [|w q IH]; intros d'; [done|]. cbn [fold_left]. by rewrite IH, Hc.
Qed.

Lemma submits_first b (l : list O) : submits b l = if b then [] else take 1 l.
Proof.
  assert (submits true l = []) as H by (induction l; done).
  destruct b, l as [|o l]; try done. cbn. f_equal. induction l; done.
Qed.

(** The events that can happen: a form is parsed once, a jQuery set has no element twice. *)
Definition possible (evs : list (doc_event O)) : Prop :=
  NoDup (omap parsed evs) /\ forall c, AjaxForm c ∈ evs -> NoDup (elements_ c).

Lemma run_follows has_on evs :
  possible evs ->
  follows (doc_run matches has_on evs) (plan_run has_on evs)
  /\ forms (doc_run matches has_on evs) = omap parsed evs.
Proof.
  unfold doc_run, plan_run. induction evs as [|ev evs IH] using rev_ind; intros [Hn Hc].
  - split; [|done]. by split.
  - rewrite !fold_left_app. cbn [fold_left]. rewrite omap_app in Hn |- *.
    destruct IH as [IH1 IH2].
    { split; [by apply NoDup_app in Hn as (? & _ & _)|]. intros c H. apply Hc, elem_of_app. by left. }
    split.
    + apply event_follows; [|intros c ->; apply Hc, elem_of_app; right; left|done].
      rewrite IH2. by apply NoDup_app in Hn as (? & _ & _).
    + rewrite doc_forms, IH2. cbn. by destruct (parsed ev).
Qed.

(** C21. However [ajaxForm] and [ajaxFormUnbind] were called, directly, by delegation or
    before the document was ready, as long as each form is parsed once and no call's
    set holds a form twice: a submit event of a form that was not prevented makes one
    submission at most, with the options of the last direct call for that form that was
    not unbound, or else of the first selector delegated that selects it; a prevented
    event makes none. *)
Theorem forms_submit_once has_on evs prevented e :
  possible evs ->
  submit_event matches prevented e (doc_run matches has_on evs)
  = if prevented then []
    else match p_own (plan_run has_on evs) e with
         | Some o => [o]
         | None => take 1 (map snd (List.filter (fun b => matches b.1 e) (p_delegated (plan_run has_on evs))))
         end.
Proof.
  intros H. destruct (run_follows has_on evs H) as [[_ _ H3 H4 _] _].
  unfold submit_event. rewrite submits_first. destruct prevented; [done|]. unfold handlers.
  change (map snd (List.filter _ (own _))) with (own_of e Submit (own (doc_run matches has_on evs))).
  rewrite H3. destruct (p_own _ e) as [o|]; [done|].
  cbn [option_list option_rect app].
  rewrite <- (H4 Submit). unfold kept_of. cbn [option_list option_rect app].
  f_equal. clear. induction (delegated _) as [|[[s k] o] l IH]; [done|]. cbn.
  destruct (bool_decide (k = Submit)); cbn; [|exact IH]. destruct (matches s e); cbn; by rewrite IH.
Qed.
End BindingFacts.

(** A call by a selector before the document is ready, one again later, one delegated. *)
Definition sample_calls : list (doc_event nat) :=
  [Parsed 1; AjaxForm (Call [1] (js "form") false 10); Parsed 2;
   AjaxForm (Call [] (js "form.late") false 20); Parsed 3; Ready;
   AjaxForm (Call [] (js "form") true 30); Unbind [1]].

Definition sample_matches (s : jstr) (e : nat) : bool :=
  bool_decide (s = js "form") || bool_decide (s = js "form.late") && bool_decide (e = 3).

Lemma forms_submit_once_witness :
  map (fun e => submit_event sample_matches false e (doc_run sample_matches true sample_calls)) [1; 2; 3]
    = [[30]; [30]; [20]]
  /\ submit_event sample_matches false 3 (doc_run sample_matches true sample_calls)
     = match p_own (plan_run sample_matches true sample_calls) 3 with
       | Some o => [o]
       | None => take 1 (map snd (List.filter (fun b => sample_matches b.1 3)
                                    (p_delegated (plan_run sample_matches true sample_calls))))
       end.
Proof.
  split; [vm_compute; reflexivity|].
  apply (forms_submit_once sample_matches true sample_calls false 3).
  split; [apply (bool_decide_unpack _); vm_compute; exact I|].
  intros c Hc. unfold sample_calls in Hc.
  repeat (apply elem_of_cons in Hc as [Hc|Hc]; [try discriminate Hc; injection Hc as ->; repeat constructor; set_solver|]).
  by apply not_elem_of_nil in Hc.
Defined.

(** A call while the document is being read binds the forms read so far: those that come
    after them are left to the browser. *)
Example late_form_unbound :
  let matches := fun _ _ => true in
  submit_event matches false 2
    (doc_run matches true [Parsed 1; AjaxForm (Call [1] (js "form") false 10); Parsed 2; Ready]) = [].
Proof. reflexivity. Qed.

(** [ajaxFormUnbind] takes away what was bound to the forms, not what was delegated. *)
Example delegated_stays :
  let matches := fun _ _ => true in
  submit_event matches false 1
    (doc_run matches true [Parsed 1; AjaxForm (Call [1] (js "form") true 10); Unbind [1]]) = [10].
Proof. reflexivity. Qed.
