(* ===== verification/FormUpload.v ===== *)
(** FormUpload: the iframe upload of the jQuery Form plugin ([fileUploadIframe] in
    jquery/jquery.form.js): the mock request object, the callback of the frame's load with
    its retries, the timer and the server check, and an abort by the user.

    Every handler is a step of one upload: the frame's reports, the timers and the user's
    abort come in any order.  What a handler sees of the frame is the argument of its
    event.  Handlers given in the options are recorded when they are called; that they
    call back into the upload, and a data filter, are left out.  The form as it is submitted
    - its attributes and the hidden inputs - is a part of its own at the end. *)

From S2P Require Import Prelude Numbers Form FormSubmit.
From coqutil Require Import Datatypes.RecordSettersUsingExistingGetters.

(** * The settings and the response document *)

Record settings := Settings {
  global : bool;
  has_success : bool; has_error : bool; has_complete : bool;
  timeout : bool;
  iframeTarget : bool;
  s_dataType : option jstr;
  textarea : bool;
  forceSync : bool
}.

(** A textarea of the response, with its emulated status (0 for none or no number). *)
Record text_area := TextArea { ta_value : jstr; ta_status : Z; ta_statusText : jstr }.

(** A document in the frame; [d_body] and [d_root] are the markup inside the body and the
    document element, [d_texts] the text of the first pre and of the body. *)
Record rdoc := RDoc {
  at_iframeSrc : bool;
  is_xml : bool;
  d_body : option jstr;
  d_root : option jstr;
  d_status : Z;
  d_statusText : jstr;
  d_textarea : option text_area;
  d_pre : option jstr;
  d_text : jstr
}.

(** What [success] is given. *)
Inductive payload := PText (s : option jstr) | PXml | PJson (s : jstr) | PNothing.

(** The parsers that may throw, and whether the browser is Opera. *)
Class Engine := {
  parses_json : jstr -> bool;
  runs_script : jstr -> bool;
  parsed_xml : rdoc -> bool;
  opera : bool;
  lower_type : jstr -> jstr
}.

(** * The upload *)

Inductive err := ETimeout | EAborted | EParse | EStatusText (s : jstr).

(** What the upload does outside: calls of the handlers given, jQuery's global events, and
    the deferred's settling. *)
Inductive act :=
  | CallSuccess (p : payload)
  | CallError (status : jstr) (e : err)
  | CallComplete (status : option jstr)
  | Resolve | Reject
  | GlobalEvent (name : jstr).

Record upload := Upload {
  aborted : bool;
  callbackProcessed : bool;
  timedOut : bool;
  listening : bool;                (* cb listens to the frame's load *)
  timeoutHandle : bool;
  submit_waits : bool;             (* the timer of doSubmit *)
  checks : nat;                    (* timers of checkState *)
  retries : nat;                   (* timers of cb *)
  domCheckCount : nat;
  x_status : Z;
  x_statusText : jstr;
  dtype : option jstr;             (* s.dataType *)
  active : Z;                      (* $.active *)
  frame : bool;                    (* the frame it made is in the page *)
  cleanups : nat;
  acts : list act
}.

Definition say (a : list act) (u : upload) : upload := u <| acts := acts u ++ a |>.

(** A handler or an event that happens only under a condition. *)
Definition when (b : bool) (a : act) : list act := if b then [a] else [].

Section Upload.
Context `{Engine} (s : settings).

(** [xhr.abort(status)]. *)
Definition abort (timeout : bool) (u : upload) : upload :=
  let e := if timeout then ETimeout else EAborted in
  let name := if timeout then js "timeout" else js "aborted" in
  say (when (has_error s) (CallError name e)
       ++ when (global s) (GlobalEvent (js "ajaxError"))
       ++ when (has_complete s) (CallComplete (Some name)))
      (u <| aborted := true |>).

(** * [cb]: reading the response *)

Definition or_Z (a b : Z) : Z := if bool_decide (a = 0%Z) then b else a.
Definition or_jstr (a b : jstr) : jstr := if truthy a then a else b.

(** [/(json|script|text)/.test(dt)]. *)
Definition scr (dt : jstr) : bool :=
  contains (js "json") dt || contains (js "script") dt || contains (js "text") dt.

(** [isXml]. *)
Definition isXml (d : rdoc) (u : upload) : bool :=
  bool_decide (dtype u = Some (js "xml")) || is_xml d.

(** The response text with the emulated status and status text. *)
Definition read_response (d : rdoc) (u : upload) : option jstr * upload :=
  let docRoot := match d_body d with Some b => Some b | None => d_root d end in
  let u := if isXml d u then u <| dtype := Some (js "xml") |> else u in
  let u := if present docRoot
           then u <| x_status := or_Z (d_status d) (x_status u) |>
                  <| x_statusText := or_jstr (d_statusText d) (x_statusText u) |>
           else u in
  let dt := lower_type (default [] (dtype u)) in
  if scr dt || textarea s then
    match d_textarea d with
    | Some ta =>
        (Some (ta_value ta),
         u <| x_status := or_Z (ta_status ta) (x_status u) |>
           <| x_statusText := or_jstr (ta_statusText ta) (x_statusText u) |>)
    | None =>
        (if scr dt then
           match d_pre d, d_body d with
           | Some pre, _ => Some pre
           | None, Some _ => Some (d_text d)
           | None, None => docRoot
           end
         else docRoot, u)
    end
  else (docRoot, u).

(** [httpData]; [None] is an exception.  The content type is s.dataType. *)
Definition httpData (d : rdoc) (type : jstr) (u : upload) (responseText : option jstr)
    : option payload :=
  let ct := default [] (dtype u) in
  let xml := bool_decide (type = js "xml")
             || negb (truthy type) && contains (js "xml") ct in
  if xml then if parsed_xml d then Some PXml else None
  else match responseText with
       | None => Some (PText None)
       | Some t =>
           if bool_decide (type = js "json") || negb (truthy type) && contains (js "json") ct
           then if parses_json t then Some (PJson t) else None
           else if bool_decide (type = js "script")
                   || negb (truthy type) && contains (js "javascript") ct
           then if runs_script t then Some (PText (Some t)) else None
           else Some (PText (Some t))
       end.

Definition ok_status (z : Z) : bool :=
  bool_decide (200 <= z < 300)%Z || bool_decide (z = 304%Z).

(** The end of [cb], with the status so far, the message of an error and the data. *)
Definition finish (status : jstr) (errMsg : option err) (data : payload) (u : upload)
    : upload :=
  let status := if aborted u then None else Some status in
  let status := if bool_decide (x_status u = 0%Z) then status
                else Some (if ok_status (x_status u) then js "success" else js "error") in
  let u :=
    match status with
    | Some st =>
        if bool_decide (st = js "success")
        then say (when (has_success s) (CallSuccess data) ++ [Resolve]
                  ++ when (global s) (GlobalEvent (js "ajaxSuccess"))) u
        else say (when (has_error s)
                       (CallError st (default (EStatusText (x_statusText u)) errMsg))
                  ++ [Reject] ++ when (global s) (GlobalEvent (js "ajaxError"))) u
    | None => u
    end in
  let u := say (when (global s) (GlobalEvent (js "ajaxComplete"))) u in
  let u := if global s
           then let u := u <| active := (active u - 1)%Z |> in
                say (when (bool_decide (active u = 0%Z)) (GlobalEvent (js "ajaxStop"))) u
           else u in
  let u := say (when (has_complete s) (CallComplete status)) u in
  let u := u <| callbackProcessed := true |> in
  let u := if timeout s then u <| timeoutHandle := false |> else u in
  u <| cleanups := S (cleanups u) |>.

(** The argument of [cb]: an event or nothing, or one of the two codes. *)
Inductive cb_arg := CEvent | CLIENT_TIMEOUT_ABORT | SERVER_ABORT.

(** [cb] once the response is taken to be there. *)
Definition receive (d : rdoc) (u : upload) : upload :=
  let u := u <| listening := false |> in
  if timedOut u then finish (js "error") (Some ETimeout) PNothing u
  else
    let wait := negb (isXml d u) && opera && negb (truthy (d_body d)) in
    let u := if wait then u <| domCheckCount := pred (domCheckCount u) |> else u in
    if wait && bool_decide (domCheckCount u ≠ 0%nat)
    then u <| retries := S (retries u) |>
    else
      let '(responseText, u) := read_response d u in
      match httpData d (lower_type (default [] (dtype u))) u responseText with
      | Some data => finish (js "success") None data u
      | None => finish (js "parsererror") (Some EParse) PNothing u
      end.

(** [cb(e)] where [getDoc(io)] is [doc]. *)
Definition cb (e : cb_arg) (doc : option rdoc) (u : upload) : upload :=
  if aborted u || callbackProcessed u then u
  else
    let e := match doc with None => SERVER_ABORT | Some _ => e end in
    match e, doc with
    | CLIENT_TIMEOUT_ABORT, _ => say [Reject] (abort true u)
    | SERVER_ABORT, _ => say [Reject] (abort false u)
    | CEvent, Some d => if at_iframeSrc d && negb (timedOut u) then u else receive d u
    | CEvent, None => u
    end.

(** * Starting, submitting, watching *)

(** [doSubmit]: the timer, the frame and its listener, the check. *)
Definition doSubmit (u : upload) : upload :=
  let u := u <| submit_waits := false |> in
  let u := if timeout s then u <| timeoutHandle := true |> else u in
  let u := if negb (iframeTarget s) then u <| frame := true |> <| listening := true |> else u in
  u <| checks := S (checks u) |>.

(** What [s.beforeSend] does: it may abort the upload, and may return false. *)
Record before_send := BeforeSend { it_aborts : bool; returns_false : bool }.

(** [fileUploadIframe] up to the timer of [doSubmit]; [None] is an upload given up at once,
    with what it leaves: the requests counted active and the acts. *)
Definition fileUploadIframe (active0 : Z) (bs : option before_send)
    : upload * bool :=
  let u := Upload false false false false false false 0 0 50 0 (js "n/a") (s_dataType s)
             active0 false 0 [] in
  let u := if global s
           then say (when (bool_decide (active0 = 0%Z)) (GlobalEvent (js "ajaxStart"))
                     ++ [GlobalEvent (js "ajaxSend")]) (u <| active := (active0 + 1)%Z |>)
           else u in
  let u := match bs with Some b => if it_aborts b then abort false u else u | None => u end in
  if match bs with Some b => returns_false b | None => false end
  then (say [Reject] (if global s then u <| active := (active u - 1)%Z |> else u), false)
  else if aborted u then (say [Reject] u, false)
  else (if forceSync s then doSubmit u else u <| submit_waits := true |>, true).

(** [checkState]: [None] when looking at the document throws. *)
Definition checkState (readyState : option jstr) (doc : option rdoc) (u : upload) : upload :=
  let u := u <| checks := pred (checks u) |> in
  match readyState with
  | None => (cb SERVER_ABORT doc u) <| timeoutHandle := false |>
  | Some st =>
      if truthy st && bool_decide (ascii_lower st = js "uninitialized")
      then u <| checks := S (checks u) |> else u
  end.

(** The events of an upload under way. *)
Inductive event :=
  | DoSubmit
  | Load (doc : option rdoc)
  | TimedOut (doc : option rdoc)
  | CheckState (readyState : option jstr) (doc : option rdoc)
  | Retry (doc : option rdoc)
  | Cleanup
  | UserAbort.

(** What can happen in a state. *)
Definition enabled (u : upload) (e : event) : bool :=
  match e with
  | DoSubmit => submit_waits u
  | Load _ => listening u
  | TimedOut _ => timeoutHandle u
  | CheckState _ _ => bool_decide (checks u ≠ 0%nat)
  | Retry _ => bool_decide (retries u ≠ 0%nat)
  | Cleanup => bool_decide (cleanups u ≠ 0%nat)
  | UserAbort => true
  end.

Definition handle (u : upload) (e : event) : upload :=
  match e with
  | DoSubmit => doSubmit u
  | Load doc => cb CEvent doc u
  | TimedOut doc =>
      cb CLIENT_TIMEOUT_ABORT doc (u <| timeoutHandle := false |> <| timedOut := true |>)
  | CheckState st doc => checkState st doc u
  | Retry doc => cb CEvent doc (u <| retries := pred (retries u) |>)
  | Cleanup =>
      let u := u <| cleanups := pred (cleanups u) |> in
      if negb (iframeTarget s) then u <| frame := false |> else u
  | UserAbort => abort false u
  end.

Definition step_upload (u : upload) (e : event) : upload :=
  if enabled u e then handle u e else u.

Definition run_upload (u : upload) (es : list event) : upload := fold_left step_upload es u.

End Upload.

(** * The form while it is submitted *)

(** The attributes [doSubmit] sets. *)
Record form_attrs := FormAttrs {
  f_target : option jstr;
  f_method : option jstr;
  f_action : option jstr;
  f_enctype : option jstr;
  f_encoding : option jstr
}.

(** [/post/i.test(method)]. *)
Definition posts (method : jstr) : bool := contains (js "post") (ascii_lower method).

(** The attributes for the submission: [id] is the frame's name, [a] the form's action and
    [url] the one to use; [skip] is skipEncodingOverride. *)
Definition set_attrs (id : jstr) (method a url : option jstr) (skip : bool)
    (f : form_attrs) : form_attrs :=
  let f := f <| f_target := Some id |> in
  let f := if negb (truthy method) then f <| f_method := Some (js "POST") |> else f in
  let f := if negb (bool_decide (a = url)) then f <| f_action := Some (default (js "undefined") url) |> else f in
  if negb skip && (negb (truthy method) || posts (default [] method))
  then let mp := Some (js "multipart/form-data") in
       f <| f_encoding := mp |> <| f_enctype := mp |>
  else f.

(** What the finally clause puts back; [t] and [a] are the target and action before. *)
Definition restore_attrs (t a : option jstr) (f : form_attrs) : form_attrs :=
  f <| f_action := Some (default (js "undefined") a) |> <| f_target := if truthy t then t else None |>.

(** [extraData] as an object: an array's items are objects under their indices. *)
Definition extra_fields (d : extra) : list (jstr * data) :=
  match d with
  | EObj l => l
  | EList l => imap (fun i p => (js_of_N (N.of_nat i),
                                 DObj [(js "name", DText p.1); (js "value", p.2)])) l
  end.

(** [o[k] = x]. *)
Fixpoint put (k : jstr) (x : data) (l : list (jstr * data)) : list (jstr * data) :=
  match l with
  | [] => [(k, x)]
  | (k', y) :: l => if decide (k = k') then (k, x) :: l else (k', y) :: put k x l
  end.

Definition coord_data (z : option Z) : data :=
  match z with Some z => DText (text_of_Z z) | None => DNull end.

(** The submitting element and the token of [csrf] join the extra data. *)
Definition all_extra (d : option extra) (f : form) (csrf : option (jstr * jstr))
    : list (jstr * data) :=
  let l := default [] (extra_fields <$> d) in
  let l :=
    match clk f ≫= by_id f with
    | Some sub =>
        let n := default [] (name sub) in
        if truthy (name sub) && negb (disabled sub)
        then let l := put n (DText (default [] (value sub))) l in
             if is_type "image" sub
             then put (n ++ js ".y") (coord_data (clk_y f))
                      (put (n ++ js ".x") (coord_data (clk_x f)) l)
             else l
        else l
    | None => l
    end in
  match csrf with
  | Some (p, t) => if truthy p && truthy t then put p (DText t) l else l
  | None => l
  end.

(** The field of an object. *)
Definition field (k : jstr) (l : list (jstr * data)) : option data :=
  (fun r => r.2.2) <$> list_find (fun p : jstr * data => p.1 = k) l.

(** The hidden inputs appended to the form: their names and values. *)
Definition extraInputs (l : list (jstr * data)) : list (jstr * jstr) :=
  map (fun p =>
         match p.2 with
         | DObj o =>
             match field (js "name") o, field (js "value") o with
             | Some n, Some v => (data_text n, data_text v)
             | _, _ => (p.1, data_text p.2)
             end
         | x => (p.1, data_text x)
         end) l.

(** Every serialized input is enabled again; when the upload had to wait for
    [closeKeepAlive], the list of them has been cleared. *)
Definition reenable (kept_alive : bool) (elements : list nat) (f : form) : form :=
  if kept_alive then f else enable (Some true) elements f.
