(* ===== verification/FormUploadFacts.v ===== *)
(** FormUploadFacts: an iframe upload tells its outcome once and in order, and what the
    count of active requests is in each case; that a response is taken within fifty looks;
    and that an upload into the page's own frame is never answered. *)

From S2P Require Import Prelude Numbers Form FormFacts FormSubmit FormUpload.
From coqutil Require Import Datatypes.RecordSettersUsingExistingGetters.

(** What the upload has told its handlers and its deferred. *)
Definition to_handlers (a : act) : bool := match a with GlobalEvent _ => false | _ => true end.
Definition told (u : upload) : list act := List.filter to_handlers (acts u).

Section Facts.
Context `{Engine} (s : settings).

Inductive answer := Succeeded (p : payload) | Failed (status : jstr) (e : err).

Definition told_answer (a : answer) : list act :=
  match a with
  | Succeeded p =>
      when (has_success s) (CallSuccess p) ++ [Resolve]
      ++ when (has_complete s) (CallComplete (Some (js "success")))
  | Failed st e =>
      when (has_error s) (CallError st e) ++ [Reject]
      ++ when (has_complete s) (CallComplete (Some st))
  end.

Definition told_abort (timeout : bool) : list act :=
  let e := if timeout then ETimeout else EAborted in
  let name := if timeout then js "timeout" else js "aborted" in
  when (has_error s) (CallError name e) ++ when (has_complete s) (CallComplete (Some name))
  ++ [Reject].

(** The requests counted while the upload is under way and when it is over. *)
Definition counted (active0 : Z) (over : bool) : Z :=
  (if global s && negb over then active0 + 1 else active0)%Z.

(** Pending, and nothing is told; answered, and the count is back; or aborted, and the
    count stays up. *)
Definition state_ok (active0 : Z) (u : upload) : Prop :=
  (aborted u = false /\ callbackProcessed u = false /\ told u = []
     /\ active u = counted active0 false)
  \/ (aborted u = false /\ callbackProcessed u = true /\ active u = counted active0 true
      /\ exists a, told u = told_answer a)
  \/ (aborted u = true /\ callbackProcessed u = false /\ active u = counted active0 false
      /\ exists t, told u = told_abort t).

Lemma told_say a u : told (say a u) = told u ++ List.filter to_handlers a.
Proof. unfold told, say. cbn. apply List.filter_app. Qed.

Lemma told_when b a : List.filter to_handlers (when b a) = if to_handlers a then when b a else [].
Proof. by destruct b, a. Qed.

(** The fields a step reads and [state_ok] is about. *)
Definition same (u v : upload) : Prop :=
  aborted u = aborted v /\ callbackProcessed u = callbackProcessed v /\ acts u = acts v
  /\ active u = active v.

Lemma same_ok active0 u v : same u v -> state_ok active0 u -> state_ok active0 v.
Proof.
  intros (E1 & E2 & E3 & E4). unfold state_ok, told. by rewrite E1, E2, E3, E4.
Qed.

Lemma read_response_same d u : same u (read_response s d u).2.
Proof.
  unfold read_response. destruct (isXml d u), (d_body d), (d_root d); cbn;
    repeat case_match; repeat split.
Qed.

(** What is told by a list of acts put together from conditional ones. *)
Ltac told_by H :=
  rewrite ?List.filter_app, H, ?told_when; cbn -[js];
  rewrite ?List.filter_app, ?told_when; cbn -[js]; rewrite ?app_nil_r, <- ?app_assoc.

(** The handlers and the count of a finished upload. *)
Lemma finish_ok active0 status errMsg data u :
  aborted u = false -> told u = [] -> active u = counted active0 false ->
  state_ok active0 (finish s status errMsg data u).
Proof.
  intros Ha Ht Hc. unfold finish. rewrite Ha.
  destruct (if bool_decide (x_status u = 0%Z) then _ else _) as [st|] eqn:Est;
    [|by case_bool_decide].
  clear Est. right; left. unfold counted in *. cbn [negb] in *.
  rewrite ?andb_true_r, ?andb_false_r in *.
  destruct u. unfold told in *. cbn -[js] in *. subst.
  destruct (bool_decide_reflect (st = js "success")) as [->|_].
  - destruct (global s), (timeout s); cbn -[js];
      (split_and!; [done|done|unfold const; lia|exists (Succeeded data)]); by told_by Ht.
  - destruct (global s), (timeout s); cbn -[js];
      (split_and!; [done|done|unfold const; lia|eexists (Failed st _)]); by told_by Ht.
Qed.

Lemma abort_told t u :
  told u = [] ->
  told (say [Reject] (abort s t u)) = told_abort t.
Proof.
  intros Ht. unfold told, told_abort in *. cbn -[js].
  rewrite !List.filter_app, Ht, !told_when. cbn -[js]. by rewrite <- app_assoc.
Qed.

Lemma receive_ok active0 d u :
  aborted u = false -> callbackProcessed u = false -> told u = [] ->
  active u = counted active0 false -> state_ok active0 (receive s d u).
Proof.
  intros Ha Hp Ht Hc. unfold receive. cbn zeta.
  destruct (timedOut _); [by apply finish_ok|].
  destruct (negb (isXml d (u <| listening := false |>)) && opera && negb (truthy (d_body d))); cbn [andb].
  - destruct (bool_decide _); [by left|].
    pose proof (read_response_same d (u <| listening := false |>
      <| domCheckCount := pred (domCheckCount (u <| listening := false |>)) |>)) as Hs.
    destruct (read_response _ _ _) as [t v]. destruct Hs as (E1 & E2 & E3 & E4). cbn in *.
    destruct (httpData _ _ _ _); apply finish_ok; unfold told in *; congruence.
  - pose proof (read_response_same d (u <| listening := false |>)) as Hs.
    destruct (read_response _ _ _) as [t v]. destruct Hs as (E1 & E2 & E3 & E4). cbn in *.
    destruct (httpData _ _ _ _); apply finish_ok; unfold told in *; congruence.
Qed.

Lemma cb_ok active0 e doc u : state_ok active0 u -> state_ok active0 (cb s e doc u).
Proof.
  intros Hu. unfold cb. destruct (aborted u || callbackProcessed u) eqn:E; [done|].
  apply orb_false_iff in E as [Ha Hp].
  destruct Hu as [(_ & _ & Ht & Hc)|[(_ & ? & _)|(? & _)]]; [|congruence..].
  assert (forall t, state_ok active0 (say [Reject] (abort s t u))) as Hab.
  { intros t. right; right. split_and!; [done|done|done|]. exists t. by apply abort_told. }
  destruct doc as [d|]; [|apply Hab].
  destruct e; [|apply Hab..].
  destruct (_ && _); [by left|by apply receive_ok].
Qed.

Lemma step_ok active0 e u :
  e ≠ UserAbort -> state_ok active0 u -> state_ok active0 (step_upload s u e).
Proof.
  intros Hne Hu. unfold step_upload. destruct (enabled u e); [|done].
  destruct e as [|doc|doc|st doc|doc| |]; cbn [handle].
  - apply (same_ok _ u); [|done]. unfold doSubmit. by destruct (timeout s), (iframeTarget s).
  - by apply cb_ok.
  - apply cb_ok. by apply (same_ok _ u).
  - unfold checkState. destruct st as [st|]; [destruct (_ && _); by apply (same_ok _ u)|].
    apply (same_ok _ (cb s SERVER_ABORT doc (u <| checks := pred (checks u) |>))); [done|].
    apply cb_ok. by apply (same_ok _ u).
  - apply cb_ok. by apply (same_ok _ u).
  - destruct (iframeTarget s); by apply (same_ok _ u).
  - done.
Qed.

Lemma run_ok active0 es u :
  UserAbort ∉ es -> state_ok active0 u -> state_ok active0 (run_upload s u es).
Proof.
  revert u. induction es as [|e es IH]; intros u; [done|].
  rewrite not_elem_of_cons. intros [He Hes] Hu. apply IH; [done|]. by apply step_ok.
Qed.

Lemma started_ok active0 bs u :
  fileUploadIframe s active0 bs = (u, true) -> state_ok active0 u.
Proof.
  unfold fileUploadIframe.
  destruct bs as [[[] []]|]; cbn [it_aborts returns_false]; try done; intros E; left;
    revert E; unfold counted, doSubmit, told;
    destruct (global s), (forceSync s), (timeout s), (iframeTarget s), (bool_decide (active0 = 0%Z));
    cbn -[js]; intros [= <-]; done.
Qed.

(** C22. Whatever the order of its events, and unless the user aborts it, an upload that was
    started tells its outcome at most once and then never again: one of success and error,
    the deferred accordingly, and complete, in the order of an answer or of an abort; and
    it is counted among the active requests until it is answered - for ever, when it is
    aborted by its timer or by the server. *)
Theorem upload_tells_once active0 bs u es :
  fileUploadIframe s active0 bs = (u, true) -> UserAbort ∉ es ->
  state_ok active0 (run_upload s u es).
Proof. intros Hu Hes. apply run_ok; [done|]. by eapply started_ok. Qed.

(** * The response is taken *)

Definition pending (u : upload) : Prop :=
  aborted u = false /\ callbackProcessed u = false /\ timedOut u = false.

Lemma finish_processed status errMsg data u :
  callbackProcessed (finish s status errMsg data u) = true.
Proof. unfold finish. destruct (timeout s); done. Qed.

(** A look at a response ends the upload, or leaves one retry and one look less. *)
Lemma look d u :
  pending u -> at_iframeSrc d = false ->
  let v := cb s CEvent (Some d) u in
  callbackProcessed v = true
  \/ (pending v /\ retries v = S (retries u) /\ domCheckCount v = pred (domCheckCount u)
      /\ domCheckCount v ≠ 0%nat /\ listening v = false).
Proof.
  intros (Ha & Hp & Ht) Hd. cbn zeta. unfold cb. rewrite Ha, Hp, Hd. cbn [orb andb].
  unfold receive. cbn zeta. change (timedOut (u <| listening := false |>)) with (timedOut u).
  rewrite Ht. destruct (negb (isXml d (u <| listening := false |>)) && opera && negb (truthy (d_body d))); cbn [andb].
  - destruct (bool_decide_reflect (domCheckCount (u <| listening := false |>
        <| domCheckCount := pred (domCheckCount (u <| listening := false |>)) |>) ≠ 0%nat)).
    + by right.
    + left. destruct (read_response _ _ _). destruct (httpData _ _ _ _); apply finish_processed.
  - left. destruct (read_response _ _ _). destruct (httpData _ _ _ _); apply finish_processed.
Qed.

Lemma processed_stays e doc u :
  callbackProcessed u = true -> cb s e doc u = u.
Proof. intros Hu. unfold cb. by rewrite Hu, orb_true_r. Qed.

Lemma run_cons u e es : run_upload s u (e :: es) = run_upload s (step_upload s u e) es.
Proof. done. Qed.

Lemma step_retry u doc :
  retries u ≠ 0%nat ->
  step_upload s u (Retry doc) = cb s CEvent doc (u <| retries := pred (retries u) |>).
Proof. intros Hr. unfold step_upload. cbn [enabled]. by rewrite bool_decide_true. Qed.

Lemma run_processed u ds :
  callbackProcessed u = true ->
  callbackProcessed (run_upload s u (map (fun d => Retry (Some d)) ds)) = true.
Proof.
  revert u. induction ds as [|d ds IH]; intros u Hu; [done|]. cbn [map].
  rewrite run_cons. apply IH. destruct (decide (retries u = 0%nat)) as [Hr|Hr].
  - unfold step_upload. cbn [enabled]. by rewrite bool_decide_false by lia.
  - by rewrite step_retry, processed_stays.
Qed.

Lemma retries_end ds u :
  pending u -> retries u = 1%nat -> (domCheckCount u <= length ds)%nat ->
  Forall (fun d => at_iframeSrc d = false) ds -> (1 <= domCheckCount u)%nat ->
  callbackProcessed (run_upload s u (map (fun d => Retry (Some d)) ds)) = true.
Proof.
  intros Hu Hr Hle Hd. revert u Hu Hr Hle.
  induction Hd as [|d ds Hd _ IH]; intros u Hu Hr Hle Hpos; cbn [length] in Hle; [lia|].
  cbn [map]. rewrite run_cons, step_retry by lia.
  assert (pending (u <| retries := pred (retries u) |>)) as Hu' by done.
  destruct (look d _ Hu' Hd) as [Hp|(Hv & Hr' & Hc & Hn & _)]; [by apply run_processed|].
  apply IH; [done| | |lia].
  - rewrite Hr'. change (retries (u <| retries := pred (retries u) |>)) with (pred (retries u)).
    by rewrite Hr.
  - rewrite Hc. change (domCheckCount (u <| retries := pred (retries u) |>))
      with (domCheckCount u). lia.
Qed.

(** Once the frame reports a response, the upload is answered after at most fifty looks at
    it, the browser's being ready or not. *)
Lemma response_taken d ds u :
  pending u -> listening u = true -> retries u = 0%nat -> domCheckCount u = 50%nat ->
  length ds = 49%nat -> Forall (fun d => at_iframeSrc d = false) (d :: ds) ->
  callbackProcessed (run_upload s u (Load (Some d) :: map (fun d => Retry (Some d)) ds)) = true.
Proof.
  intros Hu Hl Hr Hc Hlen Hds. apply Forall_cons in Hds as [Hd Hds].
  rewrite run_cons. unfold step_upload. cbn [enabled handle]. rewrite Hl.
  destruct (look d u Hu Hd) as [Hp|(Hv & Hr' & Hc' & _)]; [by apply run_processed|].
  apply retries_end; [done|by rewrite Hr', Hr|rewrite Hc', Hc; cbn; lia|done|].
  rewrite Hc', Hc. cbn. lia.
Qed.

(** * An upload into the page's own frame *)

(** What can come without a timer, an abort or a failing check. *)
Definition untroubled (e : event) : bool :=
  match e with
  | UserAbort | TimedOut _ | CheckState None _ => false
  | _ => true
  end.

Definition deaf (u : upload) : Prop :=
  listening u = false /\ retries u = 0%nat /\ cleanups u = 0%nat /\ told u = []
  /\ callbackProcessed u = false.

Lemma deaf_step u e :
  iframeTarget s = true -> untroubled e = true -> deaf u -> deaf (step_upload s u e).
Proof.
  intros Ht He (Hl & Hr & Hc & Hto & Hp). unfold step_upload.
  destruct e as [|doc|doc|[st|] doc|doc| |]; cbn [enabled handle] in *; try done.
  - destruct (submit_waits u); [|done]. unfold doSubmit. rewrite Ht. cbn [negb].
    by destruct (timeout s).
  - by rewrite Hl.
  - destruct (bool_decide _); [|done]. unfold checkState. by destruct (_ && _).
  - by rewrite Hr.
  - by rewrite Hc.
Qed.

(** An upload whose answer is to come in a frame of the page ([iframeTarget]) never
    listens to that frame: however often it loads, no handler is called and the deferred
    stays as it is. *)
Theorem own_frame_never_answers active0 bs u es :
  iframeTarget s = true -> fileUploadIframe s active0 bs = (u, true) ->
  forallb untroubled es = true ->
  told (run_upload s u es) = [] /\ callbackProcessed (run_upload s u es) = false.
Proof.
  intros Ht Hu Hes.
  assert (deaf u) as Hd.
  { revert Hu. unfold fileUploadIframe, doSubmit. rewrite Ht.
    destruct bs as [[[] []]|]; cbn [it_aborts returns_false]; try done;
      unfold deaf, told; destruct (global s), (forceSync s), (timeout s),
        (bool_decide (active0 = 0%Z)); cbn -[js]; intros [= <-]; done. }
  clear Hu. revert u Hd. induction es as [|e es IH]; intros u Hd.
  - destruct Hd as (_ & _ & _ & ? & ?). done.
  - cbn in Hes. apply andb_true_iff in Hes as [He Hes]. rewrite run_cons.
    apply IH; [done|]. by apply deaf_step.
Qed.
End Facts.

(** * Concrete uploads *)

#[export] Instance plain_engine : Engine := {
  parses_json s := starts_with (js "{") s;
  runs_script _ := true;
  parsed_xml _ := true;
  opera := false;
  lower_type := ascii_lower
}.

Definition upload_settings (own : bool) : settings :=
  Settings true true true true true own (Some (js "json")) false false.

Definition response (status : Z) (text : string) : rdoc :=
  RDoc false false (Some (js text)) None status [] None None (js text).

Definition started (own : bool) : upload :=
  fst (fileUploadIframe (upload_settings own) 0 None).

Lemma upload_tells_once_witness :
  state_ok (upload_settings false) 0
    (run_upload (upload_settings false) (started false)
       [DoSubmit; TimedOut (Some (response 0 "")); Load (Some (response 200 "{}"))]).
Proof.
  apply (upload_tells_once (upload_settings false) 0 None); [reflexivity|].
  rewrite !not_elem_of_cons. split; [discriminate|]. split; [discriminate|].
  split; [discriminate|]. apply not_elem_of_nil.
Defined.

(** The timer ends it: jQuery still counts one active request, and ajaxStop is not told. *)
Example timed_out_stays_active :
  let u := run_upload (upload_settings false) (started false)
             [DoSubmit; TimedOut (Some (response 0 "")); Load (Some (response 200 "{}"))] in
  told u = [CallError (js "timeout") ETimeout; CallComplete (Some (js "timeout")); Reject]
  /\ active u = 1%Z /\ frame u = true.
Proof. vm_compute. split; [|split]; reflexivity. Qed.

Example answered :
  let u := run_upload (upload_settings false) (started false)
             [DoSubmit; CheckState (Some (js "complete")) None; Load (Some (response 0 "{}"));
              Cleanup] in
  told u = [CallSuccess (PJson (js "{}")); Resolve; CallComplete (Some (js "success"))]
  /\ active u = 0%Z /\ frame u = false.
Proof. vm_compute. split; [|split]; reflexivity. Qed.

(** A response that cannot be parsed counts as a success when it carries the status 200:
    the success handler is called without data. *)
Example unparsed_succeeds :
  told (run_upload (upload_settings false) (started false)
          [DoSubmit; Load (Some (response 200 "oops"))])
  = [CallSuccess PNothing; Resolve; CallComplete (Some (js "success"))].
Proof. vm_compute. reflexivity. Qed.

(** An abort after the answer reports an error nevertheless. *)
Example late_abort_fails :
  told (run_upload (upload_settings false) (started false)
          [DoSubmit; Load (Some (response 0 "{}")); UserAbort])
  = [CallSuccess (PJson (js "{}")); Resolve; CallComplete (Some (js "success"));
     CallError (js "aborted") EAborted; CallComplete (Some (js "aborted"))].
Proof. vm_compute. reflexivity. Qed.

Lemma own_frame_never_answers_witness :
  let u := run_upload (upload_settings true) (started true)
             [DoSubmit; Load (Some (response 200 "{}")); CheckState (Some (js "complete")) None] in
  told u = [] /\ callbackProcessed u = false.
Proof.
  apply (own_frame_never_answers (upload_settings true) 0 None (started true)); reflexivity.
Defined.

(** After an upload the form keeps the encoding it was given, so that later submissions,
    with or without files, count as multipart. *)
Example upload_leaves_multipart :
  let before := FormAttrs None (Some (js "post")) (Some (js "/p")) None None in
  let after := restore_attrs None (Some (js "/p"))
                 (set_attrs (js "jqFormIO1") (Some (js "post")) (Some (js "/p"))
                            (Some (js "/up")) false before) in
  f_target after = None /\ f_action after = f_action before
  /\ f_enctype before = None /\ f_enctype after = Some (js "multipart/form-data").
Proof. vm_compute. repeat split. Qed.

(** The same extra data is printed as two values over XMLHttpRequest and as one through
    the frame. *)
Example transports_differ :
  let d := EObj [(js "tag", DList [DText (js "a"); DText (js "b")])] in
  extra_pairs false d = [(js "tag[]", js "a"); (js "tag[]", js "b")]
  /\ extraInputs (all_extra (Some d) (Form [] None None None) None) = [(js "tag", js "a,b")].
Proof. vm_compute. split; reflexivity. Qed.

(** The button pressed goes along as a hidden input. *)
Example pressed_goes_along :
  extraInputs (all_extra None (Form [control 1 "INPUT" "submit" "do" "save"] (Some 1%nat) None None)
                         (Some (js "token", js "t")))
  = [(js "do", js "save"); (js "token", js "t")].
Proof. vm_compute. reflexivity. Qed.
