(* ===== verification/QunitEquiv.v ===== *)
(** QunitEquiv: [QUnit.equiv] of the test framework (fuelux/lib/qunit/qunit.js), the
    deep equality behind deepEqual.

    Objects live in a heap, so that values share and may be cyclic; the two stacks the code
    keeps, of the constructors and of the objects it is inside of, are arguments, being
    popped on every way out.  Getters are not modelled: reading a property gives its value. *)

From stdpp Require Import sorting.
From S2P Require Import Prelude.

(** * Values and objects *)

Inductive number := NotANumber | Num (z : Z) | Inf (neg : bool).

#[export] Instance number_eq_dec : EqDecision number.
Proof. solve_decision. Defined.

(** Primitive values and references. *)
Inductive value := VUndefined | VNull | VBool (b : bool) | VNum (n : number) | VStr (s : jstr)
  | VRef (l : nat).

#[export] Instance value_eq_dec : EqDecision value.
Proof. solve_decision. Defined.

Record regexp := RegExp {
  source : jstr; global : bool; ignoreCase : bool; multiline : bool;
  sticky : option bool                  (* undefined in old browsers *)
}.

#[export] Instance regexp_eq_dec : EqDecision regexp.
Proof. solve_decision. Defined.

(** What [Object.prototype.toString] tells apart; [Wrapper] is an object around a
    primitive value, made with new. *)
Inductive kind :=
  | Plain
  | Array (elems : list value)
  | Date (time : number)
  | Regexp (r : regexp)
  | Func
  | Wrapper (v : value).

(** [enumerable] are the properties for-in goes through, inherited ones included, in its
    order, of which those named in [from_proto] are inherited; [hidden] are those that are
    only found when they are read. *)
Record object := Object {
  o_kind : kind;
  constructor : value;
  proto : option nat;
  enumerable : list (jstr * value);
  hidden : list (jstr * value);
  from_proto : list jstr
}.

Abbreviation heap := (gmap nat object).

(** The functions Object and the object Object.prototype. *)
Record globals := Globals { Object_ctor : nat; Object_prototype : nat }.

Definition lookup_prop (k : jstr) (l : list (jstr * value)) : option value :=
  snd <$> (snd <$> list_find (fun p => p.1 = k) l).

(** [o[k]]. *)
Definition get (o : object) (k : jstr) : value :=
  match lookup_prop k (enumerable o) with
  | Some v => v
  | None => default VUndefined (lookup_prop k (hidden o))
  end.

(** * [QUnit.objectType] *)

Inductive type := TyUndefined | TyNull | TyNan | TyNumber | TyString | TyBoolean | TyArray
  | TyDate | TyRegexp | TyFunction | TyObject.

#[export] Instance type_eq_dec : EqDecision type.
Proof. solve_decision. Defined.

Definition prim_type (v : value) : type :=
  match v with
  | VUndefined => TyUndefined
  | VNull => TyNull
  | VBool _ => TyBoolean
  | VNum NotANumber => TyNan
  | VNum _ => TyNumber
  | VStr _ => TyString
  | VRef _ => TyObject
  end.

Definition kind_type (k : kind) : type :=
  match k with
  | Plain => TyObject
  | Array _ => TyArray
  | Date _ => TyDate
  | Regexp _ => TyRegexp
  | Func => TyFunction
  | Wrapper v => prim_type v
  end.

(** [None] for a reference outside the heap: there is no such value. *)
Definition objectType (h : heap) (v : value) : option type :=
  match v with
  | VRef l => kind_type ∘ o_kind <$> h !! l
  | v => Some (prim_type v)
  end.

(** [a === b]. *)
Definition strict_eq (a b : value) : bool :=
  bool_decide (a = b) && negb (bool_decide (a = VNum NotANumber)).

(** * Names in the order of [sort] *)

(** [a <= b] on strings, by their code units. *)
Fixpoint js_leb (a b : jstr) : bool :=
  match a, b with
  | [], _ => true
  | _ :: _, [] => false
  | x :: a, y :: b => bool_decide (x < y)%N || bool_decide (x = y) && js_leb a b
  end.

Definition js_le (a b : jstr) : Prop := js_leb a b = true.

#[export] Instance js_le_dec a b : Decision (js_le a b) := decide (js_leb a b = true).

Definition sort_names (l : list jstr) : list jstr := merge_sort js_le l.

(** * [innerEquiv] *)

Section Equiv.
Context (g : globals) (h : heap).

(** [useStrictEquality] once [a !== b]: an object around a primitive is an instance of the
    constructor of the primitive and of the other object's. *)
Definition useStrictEquality (a b : value) : bool :=
  let wrapped v := match v with
                   | VRef l => match o_kind <$> h !! l with Some (Wrapper w) => Some w | _ => None end
                   | _ => None
                   end in
  match wrapped a, wrapped b with
  | Some x, None => strict_eq x b
  | None, Some y => strict_eq a y
  | _, _ => strict_eq a b
  end.

(** [caller !== Object && typeof caller !== "undefined"]; the last caller comes first. *)
Definition skip_function (callers : list value) : bool :=
  match callers with
  | [] => false
  | c :: _ => negb (bool_decide (c = VRef (Object_ctor g))) && negb (bool_decide (c = VUndefined))
  end.

(** [parents[j] === a[i]] for some j. *)
Definition is_parent (parents : list nat) (v : value) : bool :=
  match v with VRef l => bool_decide (l ∈ parents) | _ => false end.

(** The constructors agree, or one object has no prototype and the other Object's. *)
Definition same_constructor (a b : object) : bool :=
  bool_decide (constructor a = constructor b)
  || bool_decide (proto a = None /\ proto b = Some (Object_prototype g))
  || bool_decide (proto b = None /\ proto a = Some (Object_prototype g)).

Section Callbacks.
Variable innerEquiv : list value -> list nat -> value -> value -> option bool.

(** The loop of "array"; [None] is a call that did not come back. *)
Fixpoint array_loop (callers : list value) (parents : list nat) (a b : list value)
    : option bool :=
  match a, b with
  | x :: a, y :: b =>
      if is_parent parents x then array_loop callers parents a b
      else r ← innerEquiv callers parents x y;
           if (r : bool) then array_loop callers parents a b else Some false
  | _, _ => Some true
  end.

(** The for-in loop of "object". *)
Fixpoint object_loop (callers : list value) (parents : list nat)
    (a : list (jstr * value)) (b : object) : option bool :=
  match a with
  | [] => Some true
  | (i, x) :: a =>
      if is_parent parents x then object_loop callers parents a b
      else r ← innerEquiv callers parents x (get b i);
           if (r : bool) then object_loop callers parents a b else Some false
  end.

(** [callbacks[type]], for a value [a] and one of the same type that is not the same.  The
    sorted names are compared by another call of [innerEquiv] in the source; on two new
    arrays of texts it answers whether they are equal, two calls deep whatever the heap. *)
Definition bindCallbacks (callers : list value) (parents : list nat) (a b : value)
    : option bool :=
  match objectType h a with
  | Some (TyString | TyBoolean | TyNumber | TyNull | TyUndefined) =>
      Some (useStrictEquality a b)
  | Some TyNan => Some true             (* b is of the same type *)
  | Some TyFunction => Some (skip_function callers)
  | _ =>
      match a, b with
      | VRef la, VRef lb =>
          match h !! la, h !! lb with
          | Some oa, Some ob =>
              match o_kind oa, o_kind ob with
              | Date ta, Date tb => Some (strict_eq (VNum ta) (VNum tb))
              | Regexp ra, Regexp rb => Some (bool_decide (ra = rb))
              | Array ea, Array eb =>
                  if negb (bool_decide (length ea = length eb)) then Some false
                  else array_loop callers (la :: parents) ea eb
              | Plain, Plain =>
                  if negb (same_constructor oa ob) then Some false
                  else
                    eq ← object_loop (constructor oa :: callers) (la :: parents)
                                     (enumerable oa) ob;
                    Some (eq && bool_decide (sort_names (map fst (enumerable oa))
                                             = sort_names (map fst (enumerable ob))))
              | _, _ => Some false
              end
          | _, _ => Some false
          end
      | _, _ => Some false
      end
  end.

End Callbacks.

(** The values of a pair; the depth of the calls is [fuel]. *)
Fixpoint innerEquiv (fuel : nat) (callers : list value) (parents : list nat) (a b : value)
    : option bool :=
  match fuel with
  | 0 => None
  | S fuel =>
      if strict_eq a b then Some true
      else if bool_decide (a = VNull) || bool_decide (b = VNull)
              || bool_decide (a = VUndefined) || bool_decide (b = VUndefined)
              || negb (bool_decide (objectType h a = objectType h b))
      then Some false
      else bindCallbacks (innerEquiv fuel) callers parents a b
  end%nat.

(** [QUnit.equiv] of any number of arguments: each with the next one. *)
Fixpoint equiv_args (fuel : nat) (args : list value) : option bool :=
  match args with
  | a :: (b :: _) as rest =>
      r ← innerEquiv fuel [] [] a b; if (r : bool) then equiv_args fuel rest else Some false
  | _ => Some true
  end.

(** A depth of one more than the objects there are (see [equiv_returns]). *)
Definition equiv (a b : value) : option bool := innerEquiv (size h + 1) [] [] a b.

End Equiv.
