(* ===== verification/QunitEquivFacts.v ===== *)
(** QunitEquivFacts: deep equality always ends, cycles or not; on trees it is structural
    equality up to the order of properties; and what a cycle hides. *)

From stdpp Require Import sorting.
From S2P Require Import Prelude QunitEquiv.

(** * The order of names *)

Lemma js_leb_refl a : js_leb a a = true.
Proof.
  induction a as [|x a IH]; [done|]. cbn. rewrite IH.
  by rewrite (bool_decide_true (x = x)), orb_true_r.
Qed.

Lemma js_leb_total a b : js_leb a b = true \/ js_leb b a = true.
Proof.
  revert b. induction a as [|x a IH]; intros [|y b]; cbn; auto.
  destruct (decide (x < y)%N); [left; by rewrite bool_decide_true|].
  destruct (decide (y < x)%N); [right; by rewrite (bool_decide_true (y < x)%N)|].
  assert (x = y) as -> by lia. rewrite !(bool_decide_true (y = y)) by done.
  destruct (IH b) as [-> | ->]; rewrite !orb_true_r; auto.
Qed.

Lemma js_leb_cons x y a b :
  js_leb (x :: a) (y :: b) = true <-> (x < y)%N \/ x = y /\ js_leb a b = true.
Proof.
  cbn. by rewrite orb_true_iff, andb_true_iff, !bool_decide_eq_true.
Qed.

#[export] Instance js_le_trans : Transitive js_le.
Proof.
  intros a. unfold js_le. induction a as [|x a IH]; intros [|y b] [|z c]; try done.
  rewrite !js_leb_cons. intros [H1|[-> H1]] [H2|[-> H2]]; [left; lia|auto|auto|].
  right. split; [done|by apply (IH b)].
Qed.

#[export] Instance js_le_antisymm : AntiSymm (=) js_le.
Proof.
  intros a. unfold js_le. induction a as [|x a IH]; intros [|y b]; try done.
  rewrite !js_leb_cons. intros [H1|[-> H1]] [H2|[E H2]]; try lia. f_equal. by apply IH.
Qed.

#[export] Instance js_le_total : Total js_le.
Proof. intros a b. apply js_leb_total. Qed.

(** Sorting forgets the order and nothing else. *)
Lemma sort_names_perm l m : sort_names l = sort_names m <-> l ≡ₚ m.
Proof.
  unfold sort_names. split; intros H.
  - transitivity (merge_sort js_le l); [symmetry; apply merge_sort_Permutation|].
    rewrite H. apply merge_sort_Permutation.
  - apply (StronglySorted_unique js_le); [eapply StronglySorted_merge_sort; apply _..|].
    transitivity l; [apply merge_sort_Permutation|]. rewrite H. symmetry.
    apply merge_sort_Permutation.
Qed.

(** * It always ends *)

Section Ends.
Context (g : globals) (h : heap).

(** The objects that are not being compared yet. *)
Definition fresh_objects (parents : list nat) : gset nat := dom h ∖ list_to_set parents.

Lemma fresh_smaller parents l :
  l ∈ dom h -> l ∉ parents ->
  (size (fresh_objects (l :: parents)) < size (fresh_objects parents))%nat.
Proof.
  intros Hl Hp. apply subset_size. unfold fresh_objects. split; [set_solver|].
  intros Hs. assert (l ∈ dom h ∖ list_to_set (l :: parents)) by set_solver. set_solver.
Qed.

(** One object deeper there is one fresh object less. *)
Lemma deeper parents l fuel :
  is_Some (h !! l) -> l ∉ parents -> (size (fresh_objects parents) < S fuel)%nat ->
  (size (fresh_objects (l :: parents)) < fuel)%nat.
Proof.
  intros Hl Hp Hf. apply elem_of_dom in Hl. pose proof (fresh_smaller parents l Hl Hp). lia.
Qed.

Section Loops.
Variable rec : list value -> list nat -> value -> value -> option bool.

Lemma array_loop_returns callers parents a b :
  (forall x y, is_parent parents x = false -> exists r, rec callers parents x y = Some r) ->
  exists r, array_loop rec callers parents a b = Some r.
Proof.
  intros Hrec. revert b. induction a as [|x a IH]; intros [|y b]; [by eexists..|].
  cbn [array_loop]. destruct (is_parent parents x) eqn:Hx; [apply IH|].
  destruct (Hrec x y Hx) as [[] ->]; cbn; [apply IH|by eexists].
Qed.

Lemma object_loop_returns callers parents a b :
  (forall x y, is_parent parents x = false -> exists r, rec callers parents x y = Some r) ->
  exists r, object_loop rec callers parents a b = Some r.
Proof.
  intros Hrec. induction a as [|[i x] a IH]; [by eexists|].
  cbn [object_loop]. destruct (is_parent parents x) eqn:Hx; [apply IH|].
  destruct (Hrec x (get b i) Hx) as [[] ->]; cbn; [apply IH|by eexists].
Qed.
End Loops.

Lemma innerEquiv_returns fuel callers parents a b :
  is_parent parents a = false -> (size (fresh_objects parents) < fuel)%nat ->
  exists r, innerEquiv g h fuel callers parents a b = Some r.
Proof.
  revert callers parents a b.
  induction fuel as [|fuel IH]; intros callers parents a b Hp Hf; [lia|].
  cbn [innerEquiv]. destruct (strict_eq a b); [by eexists|].
  destruct (_ || _); [by eexists|]. unfold bindCallbacks.
  assert (forall la cs x y, a = VRef la -> is_Some (h !! la) ->
    is_parent (la :: parents) x = false ->
    exists r, innerEquiv g h fuel cs (la :: parents) x y = Some r) as Hrec.
  { intros la cs x y -> Hla Hx. apply IH; [done|].
    cbn in Hp. apply bool_decide_eq_false in Hp. by apply deeper. }
  destruct (objectType h a) as [[]|]; try (by eexists);
    destruct a as [| | | | |la]; try (by eexists);
    destruct b as [| | | | |lb]; try (by eexists);
    destruct (h !! la) as [oa|] eqn:Ea; try (by eexists);
    destruct (h !! lb) as [ob|]; try (by eexists);
    destruct (o_kind oa), (o_kind ob); try (by eexists).
  all: try (destruct (negb _); [by eexists|]).
  all: try (apply array_loop_returns; intros; by eapply Hrec).
  all: edestruct (object_loop_returns (innerEquiv g h fuel)) as [r ->];
    [intros; by eapply Hrec|by eexists].
Qed.

Lemma all_fresh : size (fresh_objects []) = size h.
Proof. unfold fresh_objects. cbn [list_to_set]. by rewrite difference_empty_L, size_dom. Qed.

(** C29. Deep equality always comes back with an answer, cyclic objects or not, within a
    depth of calls of one more than there are objects. *)
Theorem equiv_returns a b : exists r, equiv g h a b = Some r.
Proof. apply innerEquiv_returns; [by destruct a|]. rewrite all_fresh. lia. Qed.
End Ends.

(** * Trees *)

(** The data a test compares: leaves, dates, regular expressions, arrays, and objects with
    their properties. *)
Inductive tree :=
  | TPrim (v : value)
  | TDate (z : Z)
  | TRegexp (r : regexp)
  | TArr (l : list tree)
  | TObj (l : list (jstr * tree)).

(** Structural equality: the order of an object's properties does not count. *)
Inductive same : tree -> tree -> Prop :=
  | same_prim v : same (TPrim v) (TPrim v)
  | same_date z : same (TDate z) (TDate z)
  | same_regexp r : same (TRegexp r) (TRegexp r)
  | same_arr l m : Forall2 same l m -> same (TArr l) (TArr m)
  | same_obj l m m' :
      m ≡ₚ m' -> Forall2 (fun p q => p.1 = q.1 /\ same p.2 q.2) l m' -> same (TObj l) (TObj m).

Lemma Forall2_det {A B} (P : A -> B -> Prop) l m m' :
  (forall x y y', y ∈ m -> P x y -> P x y' -> y = y') ->
  Forall2 P l m -> Forall2 P l m' -> m = m'.
Proof.
  intros HP H. revert m'. induction H as [|x y l m Hxy _ IH]; intros m' H';
    inversion H' as [|? y' ? m1 Hxy' Hl]; subst; [done|]. f_equal.
  - apply (HP x); [left|done..].
  - apply IH; [|done]. intros z w w' Hw. apply HP. by right.
Qed.

Section Structure.
Context (g : globals) (h : heap).

Definition is_prim (v : value) : bool := match v with VRef _ => false | _ => true end.

(** A value of the heap that unfolds to a tree: its objects are made by the constructor
    Object, and it may share parts, but is not cyclic. *)
Inductive denotes : value -> tree -> Prop :=
  | den_prim v : is_prim v = true -> denotes v (TPrim v)
  | den_date l o z : h !! l = Some o -> o_kind o = Date (Num z) -> denotes (VRef l) (TDate z)
  | den_regexp l o r : h !! l = Some o -> o_kind o = Regexp r -> denotes (VRef l) (TRegexp r)
  | den_arr l o vs ts :
      h !! l = Some o -> o_kind o = Array vs -> Forall2 denotes vs ts ->
      denotes (VRef l) (TArr ts)
  | den_obj l o ts :
      h !! l = Some o -> o_kind o = Plain -> constructor o = VRef (Object_ctor g) ->
      NoDup (map fst (enumerable o)) ->
      Forall2 (fun p q => p.1 = q.1 /\ denotes p.2 q.2) (enumerable o) ts ->
      denotes (VRef l) (TObj ts).

Fixpoint weight (t : tree) : nat :=
  match t with
  | TArr l => S (sum_list (map weight l))
  | TObj l => S (sum_list (map (fun p => weight p.2) l))
  | _ => 0
  end%nat.

Lemma weight_arr t l : t ∈ l -> (weight t < weight (TArr l))%nat.
Proof. induction 1; cbn in *; lia. Qed.

Lemma weight_obj p l : p ∈ l -> (weight p.2 < weight (TObj l))%nat.
Proof. induction 1; cbn in *; lia. Qed.

(** The tree of a value is one only. *)
Lemma denotes_fun v t t' : denotes v t -> denotes v t' -> t = t'.
Proof.
  remember (weight t) as n eqn:Hn. revert v t t' Hn.
  induction n as [n IH] using lt_wf_ind. intros v t t' -> Ht Ht'.
  destruct Ht as [v Hv|l o z Hl Hk|l o r Hl Hk|l o vs ts Hl Hk Hts|l o ts Hl Hk Hc Hnd Hts];
    inversion Ht'; subst; simplify_eq/=; try done; rewrite ?Hk in *; simplify_eq/=; try done.
  - f_equal. eapply Forall2_det; [|exact Hts|eassumption].
    intros x y y' Hy. apply (IH (weight y)); [by apply weight_arr|done].
  - f_equal. eapply Forall2_det; [|exact Hts|eassumption].
    intros x [k y] [k' y'] Hy [E1 D1] [E2 D2]. cbn in *. subst. f_equal.
    eapply (IH (weight y)); [exact (weight_obj _ _ Hy)|done..].
Qed.

Lemma same_refl t : same t t.
Proof.
  remember (weight t) as n eqn:Hn. revert t Hn.
  induction n as [n IH] using lt_wf_ind. intros [v|z|r|l|l] ->; [constructor..| |].
  - constructor. apply Forall_Forall2_diag, Forall_forall. intros t Ht.
    by apply (IH (weight t)); [apply weight_arr|].
  - apply (same_obj l l l); [done|].
    apply Forall_Forall2_diag, Forall_forall. intros p Hp. split; [done|].
    by apply (IH (weight p.2)); [apply weight_obj|].
Qed.

(** The types of trees. *)
Definition tree_type (t : tree) : type :=
  match t with
  | TPrim v => prim_type v
  | TDate _ => TyDate
  | TRegexp _ => TyRegexp
  | TArr _ => TyArray
  | TObj _ => TyObject
  end.

Lemma denotes_type v t : denotes v t -> objectType h v = Some (tree_type t).
Proof.
  destruct 1 as [v Hv|l o z Hl Hk|l o r Hl Hk|l o vs ts Hl Hk _|l o ts Hl Hk _ _ _];
    [by destruct v|cbn; rewrite Hl; cbn; by rewrite Hk..].
Qed.

Lemma same_type t u : same t u -> tree_type t = tree_type u.
Proof. by destruct 1. Qed.

Lemma denotes_prim v w : denotes v (TPrim w) -> v = w /\ is_prim w = true.
Proof. by inversion 1. Qed.

(** The objects around a value are heavier than it: it is none of them. *)
Definition above (parents : list nat) (t : tree) : Prop :=
  forall p, p ∈ parents -> exists tp, denotes (VRef p) tp /\ (weight t < weight tp)%nat.

Lemma above_no_parent parents v t :
  denotes v t -> above parents t -> is_parent parents v = false.
Proof.
  intros Hv Hab. destruct v as [| | | | |l]; try done. apply bool_decide_eq_false. intros Hl.
  destruct (Hab l Hl) as (tp & Hp & Hw). rewrite (denotes_fun _ _ _ Hp Hv) in Hw. lia.
Qed.

Lemma above_child parents l t t' :
  denotes (VRef l) t -> above parents t -> (weight t' < weight t)%nat -> above (l :: parents) t'.
Proof.
  intros Hl Hab Hw p Hp. apply elem_of_cons in Hp as [->|Hp]; [by exists t|].
  destruct (Hab p Hp) as (tp & ? & ?). exists tp. split; [done|lia].
Qed.

(** * The loops *)

Section Loop.
Variable rec : list value -> list nat -> value -> value -> option bool.
Variables (callers : list value) (parents : list nat).

(** [rec] decides structural equality below [t]. *)
Definition decides (t : tree) : Prop :=
  forall x y u r, denotes x t -> denotes y u -> rec callers parents x y = Some r ->
    (r = true <-> same t u).

Lemma array_loop_decides vs ts ws us r :
  Forall2 denotes vs ts -> Forall2 denotes ws us -> length vs = length ws ->
  Forall (fun t => above parents t /\ decides t) ts ->
  array_loop rec callers parents vs ws = Some r -> (r = true <-> Forall2 same ts us).
Proof.
  intros Hts. revert ws us r.
  induction Hts as [|v t vs ts Hv _ IH]; intros ws us r Hus Hlen Hd Hr;
    destruct Hus as [|w u ws us Hw Hus]; try done.
  - cbn in Hr. injection Hr as <-. split; [constructor|done].
  - apply Forall_cons in Hd as [[Hab Ht] Hd]. cbn [array_loop] in Hr.
    rewrite (above_no_parent _ _ _ Hv Hab) in Hr.
    destruct (rec callers parents v w) as [r1|] eqn:E1; [|done]. cbn in Hr.
    pose proof (Ht v w u r1 Hv Hw E1) as H1. cbn in Hlen. destruct r1.
    + rewrite (IH ws us r Hus ltac:(lia) Hd Hr), Forall2_cons. naive_solver.
    + injection Hr as <-. rewrite Forall2_cons. naive_solver.
Qed.

Lemma object_loop_decides ps ts us ob r :
  Forall2 (fun p q => p.1 = q.1 /\ denotes p.2 q.2) ps ts ->
  Forall2 (fun p q => p.1 = q.1 /\ denotes (get ob p.1) q.2) ts us ->
  Forall (fun p => above parents p.2 /\ decides p.2) ts ->
  object_loop rec callers parents ps ob = Some r ->
  (r = true <-> Forall2 (fun p q => p.1 = q.1 /\ same p.2 q.2) ts us).
Proof.
  intros Hts. revert us r.
  induction Hts as [|[k v] [k' t] ps ts [Hk Hv] _ IH]; intros us r Hus Hd Hr;
    inversion Hus as [|? [k'' u] ? us' [Hk' Hu] Hus']; subst; cbn in *; subst.
  - injection Hr as <-. split; [constructor|done].
  - apply Forall_cons in Hd as [[Hab Ht] Hd]. cbn in Hab, Ht.
    rewrite (above_no_parent _ _ _ Hv Hab) in Hr.
    destruct (rec callers parents v (get ob k'')) as [r1|] eqn:E1; [|done]. cbn in Hr.
    pose proof (Ht v _ u r1 Hv Hu E1) as H1. destruct r1.
    + rewrite (IH us' r Hus' Hd Hr), Forall2_cons. cbn. naive_solver.
    + injection Hr as <-. rewrite Forall2_cons. cbn. naive_solver.
Qed.
End Loop.

(** * Objects: the properties of the other, in this one's order *)

(** Lists of properties with the same names, each once. *)
Lemma reorder_by_names {A B} (l : list (jstr * A)) (m : list (jstr * B)) :
  map fst l ≡ₚ map fst m -> exists m', m ≡ₚ m' /\ map fst m' = map fst l.
Proof.
  intros H. destruct (Permutation_map_inv fst m H) as (m' & E & Hp). by exists m'.
Qed.

Lemma same_names_same_list {A} (m m' : list (jstr * A)) :
  NoDup (map fst m) -> m ≡ₚ m' -> map fst m = map fst m' -> m = m'.
Proof.
  revert m'. induction m as [|[k x] m IH]; intros m' Hnd Hp Hf.
  - by apply Permutation_nil_l in Hp.
  - destruct m' as [|[k' y] m']; [done|]. cbn in Hf. injection Hf as <- Hf.
    apply NoDup_cons in Hnd as [Hk Hnd].
    assert ((k, x) ∈ (k, y) :: m') as Hin by (rewrite <- Hp; left).
    apply elem_of_cons in Hin as [[= <-]|Hin].
    + f_equal. apply IH; [done| |done]. by apply Permutation_cons_inv in Hp.
    + exfalso. apply Hk. change (k ∈ map fst m). rewrite Hf.
      apply list_elem_of_fmap. by exists (k, x).
Qed.

Lemma lookup_prop_in k v l : NoDup (map fst l) -> (k, v) ∈ l -> lookup_prop k l = Some v.
Proof.
  unfold lookup_prop. induction l as [|[k' v'] l IH]; intros Hnd Hin; [by apply elem_of_nil in Hin|].
  apply NoDup_cons in Hnd as [Hk Hnd]. cbn [list_find].
  apply elem_of_cons in Hin as [[= <- <-]|Hin].
  - by rewrite decide_True.
  - cbn [map fst] in *. rewrite decide_False.
    + specialize (IH Hnd Hin). destruct (list_find _ l) as [[]|]; [done|done].
    + cbn. intros ->. apply Hk. apply list_elem_of_fmap. by exists (k, v).
Qed.

Lemma Forall2_names {A B} (P : A -> B -> Prop) (l : list (jstr * A)) (m : list (jstr * B)) :
  Forall2 (fun p q => p.1 = q.1 /\ P p.2 q.2) l m -> map fst l = map fst m.
Proof. induction 1 as [|p q l m [E _] _ IH]; [done|]. cbn. by rewrite E, IH. Qed.

(** What [b[k]] denotes, for the properties of [b] reordered. *)
Lemma gets_denote ob us m' ts :
  NoDup (map fst (enumerable ob)) ->
  Forall2 (fun p q => p.1 = q.1 /\ denotes p.2 q.2) (enumerable ob) us ->
  us ≡ₚ m' -> map fst m' = map fst (ts : list (jstr * tree)) ->
  Forall2 (fun p q => p.1 = q.1 /\ denotes (get ob p.1) q.2) ts m'.
Proof.
  intros Hnd Hus Hp Hn.
  assert (forall q, q ∈ m' -> denotes (get ob q.1) q.2) as Hq.
  { intros q Hq. rewrite <- Hp in Hq. apply list_elem_of_lookup in Hq as [i Hi].
    destruct (Forall2_lookup_r _ _ _ _ _ Hus Hi) as ([k v] & Hkv & E & Hv). cbn in *. subst.
    unfold get. rewrite (lookup_prop_in q.1 v); [done|done|].
    by eapply list_elem_of_lookup_2. }
  clear Hus Hp. revert ts Hn. induction m' as [|q m' IH]; intros [|p ts] Hn; try done.
  cbn in Hn. injection Hn as E Hn. constructor.
  - split; [done|]. rewrite <- E. apply Hq. left.
  - apply IH; [|done]. intros q' Hq'. apply Hq. by right.
Qed.

Lemma same_obj_iff ts us m' :
  NoDup (map fst us) -> us ≡ₚ m' -> map fst m' = map fst ts ->
  (same (TObj ts) (TObj us) <-> Forall2 (fun p q => p.1 = q.1 /\ same p.2 q.2) ts m').
Proof.
  intros Hnd Hp Hn. split; intros H; [|by apply (same_obj ts us m')].
  inversion H as [| | | |? ? m'' Hp' HF]; subst.
  rewrite (same_names_same_list m' m''); [done| | |].
  - by rewrite <- Hp.
  - by rewrite <- Hp, <- Hp'.
  - rewrite Hn. by apply Forall2_names in HF.
Qed.

Lemma same_obj_names ts us : same (TObj ts) (TObj us) -> map fst ts ≡ₚ map fst us.
Proof.
  inversion 1 as [| | | |? ? m' Hp HF]; subst. rewrite Hp. apply Forall2_names in HF.
  by rewrite HF.
Qed.

(** * The whole *)

Lemma obj_decides rec callers parents la oa ob ts us r :
  Forall2 (fun p q => p.1 = q.1 /\ denotes p.2 q.2) (enumerable oa) ts ->
  NoDup (map fst (enumerable ob)) ->
  Forall2 (fun p q => p.1 = q.1 /\ denotes p.2 q.2) (enumerable ob) us ->
  Forall (fun p => above (la :: parents) p.2
                   /\ decides rec callers (la :: parents) p.2) ts ->
  (eq ← object_loop rec callers (la :: parents) (enumerable oa) ob;
   Some (eq && bool_decide (sort_names (map fst (enumerable oa))
                            = sort_names (map fst (enumerable ob))))) = Some r ->
  (r = true <-> same (TObj ts) (TObj us)).
Proof.
  intros Hts Hnd Hus Hd Hr.
  pose proof (Forall2_names _ _ _ Hts) as En. pose proof (Forall2_names _ _ _ Hus) as Em.
  destruct (object_loop _ _ _ _ _) as [eq|] eqn:Hl; [|done]. cbn in Hr. injection Hr as <-.
  rewrite andb_true_iff, bool_decide_eq_true, sort_names_perm, En, Em.
  split.
  - intros [-> Hp]. destruct (reorder_by_names ts us Hp) as (m' & Hm & Hn).
    rewrite (same_obj_iff ts us m') by (done || by rewrite <- Em).
    eapply object_loop_decides; [done| |done|exact Hl|done]. by eapply gets_denote.
  - intros Hs. pose proof (same_obj_names _ _ Hs) as Hp. split; [|done].
    destruct (reorder_by_names ts us Hp) as (m' & Hm & Hn).
    eapply object_loop_decides; [exact Hts| |done|exact Hl|].
    + by eapply gets_denote.
    + by rewrite <- (same_obj_iff ts us m') by (done || by rewrite <- Em).
Qed.

Lemma strict_eq_true a b : strict_eq a b = true -> a = b.
Proof. unfold strict_eq. rewrite andb_true_iff, bool_decide_eq_true. by intros [-> _]. Qed.

Lemma strict_eq_same v : v ≠ VNum NotANumber -> strict_eq v v = true.
Proof. intros H. unfold strict_eq. by rewrite bool_decide_true, bool_decide_false. Qed.

Lemma prim_decides rec callers parents v w r :
  is_prim v = true -> is_prim w = true -> prim_type v = prim_type w -> strict_eq v w = false ->
  bindCallbacks g h rec callers parents v w = Some r -> (r = true <-> v = w).
Proof.
  intros Hv Hw Ht Hs Hr.
  destruct (decide (v = VNum NotANumber)) as [->|Hn].
  - cbn in Hr. injection Hr as <-. destruct w as [| | |[]| |]; done.
  - assert (v ≠ w) as Hne by (intros <-; by rewrite strict_eq_same in Hs).
    assert (r = strict_eq v w) as ->; [|by rewrite Hs].
    unfold bindCallbacks in Hr.
    destruct v as [| | |[]| |]; try done; destruct w as [| | |[]| |]; cbn in Hr, Ht;
      simplify_eq; done.
Qed.

(** What is not identical, and not null or undefined, and of one type. *)
Lemma callback_decides rec callers parents a b ta tb r :
  denotes a ta -> denotes b tb -> above parents ta -> tree_type ta = tree_type tb ->
  strict_eq a b = false ->
  (forall cs ps t, above ps t -> decides rec cs ps t) ->
  bindCallbacks g h rec callers parents a b = Some r -> (r = true <-> same ta tb).
Proof.
  intros Ha Hb Hab Hty Hne Hrec Hr.
  destruct Ha as [v Hv|l o z Hl Hk|l o x Hl Hk|l o vs ts Hl Hk Hts|l o ts Hl Hk Hc Hnd Hts];
    destruct Hb as [w Hw|l' o' z' Hl' Hk'|l' o' x' Hl' Hk'|l' o' ws us Hl' Hk' Hus
                   |l' o' us Hl' Hk' Hc' Hnd' Hus]; cbn [tree_type] in *;
    try (by destruct v as [| | |[]| |]); try (by destruct w as [| | |[]| |]); try done;
    unfold bindCallbacks in Hr; cbn [objectType] in Hr;
    try (rewrite Hl, Hl' in Hr; cbn in Hr; rewrite Hk in Hr; cbn in Hr; rewrite Hk' in Hr).
    rewrite (prim_decides rec callers parents v w r) by done.
    split; [intros ->; constructor|by inversion 1].
  - injection Hr as <-. unfold strict_eq.
    rewrite andb_true_iff, bool_decide_eq_true. split.
    + intros [[= ->] _]. constructor.
    + inversion 1. done.
  - injection Hr as <-. rewrite bool_decide_eq_true.
    split; [intros ->; constructor|by inversion 1].
  - destruct (bool_decide_reflect (length vs = length ws)) as [El|El]; cbn [negb] in Hr.
    + rewrite (array_loop_decides rec callers (l :: parents) vs ts ws us r); try done.
      * split; [by constructor|by inversion 1].
      * apply Forall_forall. intros t Ht. assert (above (l :: parents) t) by
          (eapply above_child; [by econstructor|done|by apply weight_arr]). auto.
    + injection Hr as <-. split; [done|]. inversion 1 as [| | |? ? HF|]; subst.
      apply Forall2_length in Hts, Hus, HF. congruence.
  - assert (same_constructor g o o' = true) as Hsc.
    { unfold same_constructor. by rewrite Hc, Hc', bool_decide_true. }
    rewrite Hsc in Hr. cbn [negb] in Hr.
    eapply (obj_decides rec); [exact Hts|exact Hnd'|exact Hus| |exact Hr].
    apply Forall_forall. intros t Ht. assert (above (l :: parents) t.2) by
      (eapply above_child; [by econstructor|done|by apply weight_obj]). auto.
Qed.

Lemma innerEquiv_decides fuel callers parents ta :
  above parents ta -> decides (innerEquiv g h fuel) callers parents ta.
Proof.
  revert callers parents ta. induction fuel as [|fuel IH]; intros callers parents ta Hab
    a b tb r Ha Hb Hr; [done|].
  cbn [innerEquiv] in Hr. destruct (strict_eq a b) eqn:Hs.
  - injection Hr as <-. apply strict_eq_true in Hs as ->.
    rewrite (denotes_fun _ _ _ Ha Hb). split; [intros _; apply same_refl|done].
  - destruct (_ || _) eqn:Hn.
    + injection Hr as <-. split; [done|]. intros Hsame. exfalso.
      rewrite !orb_true_iff, negb_true_iff, !bool_decide_eq_true, bool_decide_eq_false in Hn.
      rewrite (denotes_type _ _ Ha), (denotes_type _ _ Hb), (same_type _ _ Hsame) in Hn.
      destruct Hsame; inversion Ha; inversion Hb; subst; naive_solver.
    + eapply callback_decides; [exact Ha|exact Hb|done| |done| |exact Hr].
      * rewrite !orb_false_iff, negb_false_iff, !bool_decide_eq_true in Hn.
        destruct Hn as [_ Hn]. rewrite (denotes_type _ _ Ha), (denotes_type _ _ Hb) in Hn.
        by injection Hn.
      * intros cs ps t. apply IH.
Qed.

(** C28. On data without cycles, instances and functions - shared parts are allowed - deep
    equality answers true exactly when the two unfold to the same tree, the order of
    properties not counting. *)
Theorem equiv_is_structural a b ta tb :
  denotes a ta -> denotes b tb -> exists r, equiv g h a b = Some r /\ (r = true <-> same ta tb).
Proof.
  intros Ha Hb. destruct (innerEquiv_returns g h (size h + 1) [] [] a b) as [r Hr];
    [by destruct a|rewrite all_fresh; lia|]. exists r. split; [done|].
  eapply (innerEquiv_decides _ [] [] ta); [|exact Ha|exact Hb|exact Hr].
  intros p Hp. by apply elem_of_nil in Hp.
Qed.
End Structure.

(** * What a cycle hides *)

(** An object that is its own property [k] equals any object of its constructor whose
    only property is [k], whatever its value: the property is taken for walked already on
    one side and never looked at on the other. *)
Theorem cycle_hides_difference g h la lb oa ob k w :
  h !! la = Some oa -> h !! lb = Some ob -> la ≠ lb ->
  o_kind oa = Plain -> o_kind ob = Plain -> constructor oa = constructor ob ->
  enumerable oa = [(k, VRef la)] -> enumerable ob = [(k, w)] ->
  equiv g h (VRef la) (VRef lb) = Some true.
Proof.
  intros Ha Hb Hne Ka Kb Hc Ea Eb. unfold equiv.
  replace (size h + 1)%nat with (S (size h)) by lia. cbn [innerEquiv].
  assert (strict_eq (VRef la) (VRef lb) = false) as ->.
  { unfold strict_eq. rewrite bool_decide_false by congruence. done. }
  assert (objectType h (VRef la) = Some TyObject /\ objectType h (VRef lb) = Some TyObject)
    as [Ta Tb] by (cbn; rewrite Ha, Hb; cbn; by rewrite Ka, Kb).
  rewrite Ta, Tb. cbn [orb]. unfold bindCallbacks. rewrite Ta, Ha, Hb, Ka, Kb.
  assert (same_constructor g oa ob = true) as ->
    by (unfold same_constructor; by rewrite Hc, bool_decide_true).
  rewrite Ea, Eb. cbn. rewrite (bool_decide_true (la ∈ [la])) by left.
  rewrite !(bool_decide_false (VRef _ = _)), !bool_decide_true by done. done.
Qed.

(** * Concrete comparisons *)

Definition the_globals : globals := Globals 0 1.

Definition plain (ps : list (jstr * value)) : object :=
  Object Plain (VRef 0) (Some 1%nat) ps [] [].

(** 10: [{a: 1, b: [2]}], 11: [[2]], 12: [{b: [2], a: 1}], 13: [[2]], 14: [{a: 1}],
    20: an object that is its own [self], 21: [{self: 42}], 30 and 31: [new Number(1)],
    40 and 41: instances with a method. *)
Definition a_heap : heap := list_to_map
  [(10, plain [(js "a", VNum (Num 1)); (js "b", VRef 11)]);
   (11, Object (Array [VNum (Num 2)]) (VRef 2) (Some 3) [] [] []);
   (12, plain [(js "b", VRef 13); (js "a", VNum (Num 1))]);
   (13, Object (Array [VNum (Num 2)]) (VRef 2) (Some 3) [] [] []);
   (14, plain [(js "a", VNum (Num 1))]);
   (20, plain [(js "self", VRef 20)]);
   (21, plain [(js "self", VNum (Num 42))]);
   (30, Object (Wrapper (VNum (Num 1))) (VRef 4) (Some 5) [] [] []);
   (31, Object (Wrapper (VNum (Num 1))) (VRef 4) (Some 5) [] [] []);
   (40, Object Plain (VRef 6) (Some 7) [(js "m", VRef 42)] [] []);
   (41, Object Plain (VRef 6) (Some 7) [(js "m", VRef 43)] [] []);
   (42, Object Func (VRef 8) (Some 9) [] [] []);
   (43, Object Func (VRef 8) (Some 9) [] [] [])]%nat.

Definition a_tree : tree :=
  TObj [(js "a", TPrim (VNum (Num 1))); (js "b", TArr [TPrim (VNum (Num 2))])].
Definition b_tree : tree :=
  TObj [(js "b", TArr [TPrim (VNum (Num 2))]); (js "a", TPrim (VNum (Num 1)))].

Lemma a_denotes : denotes the_globals a_heap (VRef 10) a_tree.
Proof.
  eapply (den_obj _ _ 10); [vm_compute; reflexivity|reflexivity|reflexivity| |].
  - apply (bool_decide_unpack _). vm_compute. exact I.
  - repeat constructor; cbn. eapply (den_arr _ _ 11); [vm_compute; reflexivity|reflexivity|].
    repeat constructor.
Qed.

Lemma b_denotes : denotes the_globals a_heap (VRef 12) b_tree.
Proof.
  eapply (den_obj _ _ 12); [vm_compute; reflexivity|reflexivity|reflexivity| |].
  - apply (bool_decide_unpack _). vm_compute. exact I.
  - repeat constructor; cbn. eapply (den_arr _ _ 13); [vm_compute; reflexivity|reflexivity|].
    repeat constructor.
Qed.

Lemma equiv_is_structural_witness :
  exists r, equiv the_globals a_heap (VRef 10) (VRef 12) = Some r
            /\ (r = true <-> same a_tree b_tree).
Proof. apply equiv_is_structural; [exact a_denotes|exact b_denotes]. Defined.

Example some_comparisons :
  equiv the_globals a_heap (VRef 10) (VRef 12) = Some true
  /\ equiv the_globals a_heap (VRef 10) (VRef 14) = Some false
  /\ equiv the_globals a_heap (VNum NotANumber) (VNum NotANumber) = Some true
  /\ equiv the_globals a_heap (VNum (Num 1)) (VStr (js "1")) = Some false
  /\ equiv the_globals a_heap (VRef 40) (VRef 41) = Some true
  /\ equiv_args the_globals a_heap 10 [VRef 10; VRef 12; VRef 10] = Some true.
Proof. vm_compute. repeat split. Qed.

Lemma cycle_hides_difference_witness :
  equiv the_globals a_heap (VRef 20) (VRef 21) = Some true
  /\ equiv the_globals a_heap (VRef 21) (VRef 20) = Some false.
Proof.
  split; [|vm_compute; reflexivity].
  apply (cycle_hides_difference _ _ 20 21 (plain [(js "self", VRef 20)])
           (plain [(js "self", VNum (Num 42))]) (js "self") (VNum (Num 42)));
    first [discriminate | vm_compute; reflexivity].
Defined.

(** A number equals an object around it, but two such objects are never equal. *)
Example wrappers_differ :
  equiv the_globals a_heap (VNum (Num 1)) (VRef 30) = Some true
  /\ equiv the_globals a_heap (VRef 30) (VRef 31) = Some false.
Proof. split; vm_compute; reflexivity. Qed.
