(* ===== verification/QunitDiff.v ===== *)
(** QunitDiff: [QUnit.diff] of the test framework (fuelux/lib/qunit/qunit.js), which marks
    the words deleted from an expected text and inserted in an actual one.

    The two arrays are changed in place: a word that has a partner becomes an object with
    its text and the partner's row.  The tables of words are plain objects, so that a word
    named like a property of Object.prototype is found in them from the start. *)

From S2P Require Import Prelude Numbers.

(** The names an empty object inherits. *)
Class Inherited := inherited : jstr -> bool.

(** An element of [out.o] or [out.n]. *)
Inductive cell := Word (s : jstr) | Matched (text : jstr) (row : nat).

(** [c.text == null]: strings have no property of that name. *)
Definition unmatched (c : cell) : bool := match c with Word _ => true | Matched _ _ => false end.

Definition cell_text (c : cell) : jstr := match c with Word s => s | Matched s _ => s end.

(** * Words and spaces *)

(** [s.replace(/\s+$/, "")]. *)
Fixpoint trim_end (s : jstr) : jstr :=
  match s with
  | [] => []
  | c :: s => match trim_end s with
              | [] => if js_space c then [] else [c]
              | t => c :: t
              end
  end.

(** [s.split(/\s+/)] and [s.match(/\s+/g)]: the words, one more than the spaces. *)
Fixpoint split_ws (s : jstr) : list jstr * list jstr :=
  match s with
  | [] => ([[]], [])
  | c :: s' =>
      let '(ws, sp) := split_ws s' in
      if js_space c then
        match s', sp with
        | d :: _, x :: sp' => if js_space d then (ws, (c :: x) :: sp') else ([] :: ws, [c] :: sp)
        | _, _ => ([] :: ws, [c] :: sp)
        end
      else match ws with
           | w :: ws => ((c :: w) :: ws, sp)
           | [] => ([[c]], sp)
           end
  end.

Definition words (s : jstr) : list jstr := if truthy s then fst (split_ws s) else [].

(** [oSpace] and [nSpace]: the spaces, or one, and one more. *)
Definition spaces (s : jstr) : list jstr :=
  match snd (split_ws s) with [] => [js " "] | sp => sp ++ [js " "] end.

(** * Matching *)

Section Diff.
Context `{Inherited}.

(** The rows of a word. *)
Definition rows (w : jstr) (l : list jstr) : list nat :=
  fst <$> filter (fun p => p.2 = w) (imap pair l).

(** The words of a text in the order of their first row. *)
Fixpoint distinct (l : list jstr) : list jstr :=
  match l with
  | [] => []
  | w :: l => w :: filter (fun v => v ≠ w) (distinct l)
  end.

Abbreviation arrays := (list cell * list cell)%type.   (* o and n *)

(** Two rows become partners. *)
Definition pair_up (wo wn : jstr) (row_o row_n : nat) (a : arrays) : arrays :=
  (<[row_o := Matched wo row_n]> a.1, <[row_n := Matched wn row_o]> a.2).

(** The words that are once in each text are partners. *)
Definition match_unique (o n : list jstr) (a : arrays) (w : jstr) : arrays :=
  match rows w n, rows w o with
  | [i], [j] => pair_up w w j i a
  | _, _ => a
  end.

(** Two rows that are both words, and the same one. *)
Definition same_words (o n : list cell) (j i : nat) : option jstr :=
  match o !! j, n !! i with
  | Some (Word x), Some (Word y) => if decide (x = y) then Some x else None
  | _, _ => None
  end.

(** After partners, equal words are partners; before partners, too. *)
Definition extend_down (a : arrays) (i : nat) : arrays :=
  match a.2 !! i with
  | Some (Matched _ row) =>
      match same_words a.1 a.2 (row + 1) (i + 1) with
      | Some x => pair_up x x (row + 1) (i + 1) a
      | None => a
      end
  | _ => a
  end.

Definition extend_up (a : arrays) (i : nat) : arrays :=
  match a.2 !! i with
  | Some (Matched _ row) =>
      if bool_decide (0 < row)%nat then
        match same_words a.1 a.2 (row - 1) (i - 1) with
        | Some x => pair_up x x (row - 1) (i - 1) a
        | None => a
        end
      else a
  | _ => a
  end.

(** [diff]; [None] is the TypeError for a word found in an empty table. *)
Definition diff (o n : list jstr) : option arrays :=
  if existsb inherited (n ++ o) then None
  else
    let a := (map Word o, map Word n) in
    let a := fold_left (match_unique o n) (distinct n) a in
    let a := fold_left extend_down (seq 0 (length n - 1)) a in
    Some (fold_left extend_up (reverse (seq 1 (length n - 1))) a).

(** * The marked text *)

(** A piece of the result: a word with the space behind it. *)
Inductive piece := Del (w sp : jstr) | Ins (w sp : jstr) | Keep (w sp : jstr).

(** The loop over the unmatched rows of [out.o] from one on. *)
Fixpoint dels (o : list (cell * jstr)) : list piece :=
  match o with
  | (c, sp) :: o => if unmatched c then Del (cell_text c) sp :: dels o else []
  | [] => []
  end.

(** The rows with their spaces; a missing space is the text "undefined". *)
Definition spaced (l : list cell) (sp : list jstr) : list (cell * jstr) :=
  imap (fun i c => (c, default (js "undefined") (sp !! i))) l.

Definition piece_of (o : list (cell * jstr)) (c : cell * jstr) : list piece :=
  match c with
  | (Word w, sp) => [Ins w sp]
  | (Matched w row, sp) => Keep w sp :: dels (drop (row + 1) o)
  end.

Definition pieces (o n : list (cell * jstr)) : list piece :=
  match n with
  | [] => map (fun c => Del (cell_text c.1) c.2) o
  | (c, _) :: _ => (if unmatched c then dels o else []) ++ concat (map (piece_of o) n)
  end.

Definition piece_text (p : piece) : jstr :=
  match p with
  | Del w sp => js "<del>" ++ w ++ sp ++ js "</del>"
  | Ins w sp => js "<ins>" ++ w ++ sp ++ js "</ins>"
  | Keep w sp => js " " ++ w ++ sp
  end.

(** [QUnit.diff(o, n)]. *)
Definition QUnit_diff_pieces (o n : jstr) : option (list piece) :=
  let o := trim_end o in
  let n := trim_end n in
  out ← diff (words o) (words n);
  Some (pieces (spaced out.1 (spaces o)) (spaced out.2 (spaces n))).

Definition QUnit_diff (o n : jstr) : option jstr :=
  (fun ps => concat (map piece_text ps)) <$> QUnit_diff_pieces o n.

End Diff.
