(* ===== verification/QunitDiffFacts.v ===== *)
(** QunitDiffFacts: the partners of the difference are partners of each other, with one
    text, and words that are once in each text stay partners; what the marked text shows of
    the two texts; and what it loses. *)

From S2P Require Import Prelude Numbers QunitDiff.

(** * Words and spaces *)

(** A text from its words and the spaces behind them. *)
Fixpoint interleave (ws sp : list jstr) : jstr :=
  match ws, sp with
  | w :: ws, s :: sp => w ++ s ++ interleave ws sp
  | w :: _, [] => w
  | [], _ => []
  end.

Lemma split_ws_length s : length (fst (split_ws s)) = S (length (snd (split_ws s))).
Proof.
  induction s as [|c s IH]; [done|]. cbn [split_ws].
  destruct (split_ws s) as [ws sp]. cbn in IH.
  destruct (js_space c).
  - destruct s as [|d s]; [cbn in *; lia|]. destruct sp as [|x sp]; [cbn in *; lia|].
    destruct (js_space d); cbn in *; lia.
  - destruct ws; cbn in *; lia.
Qed.

(** A text that begins with a space begins with an empty word. *)
Lemma split_ws_space d s :
  js_space d = true -> exists x ws sp, split_ws (d :: s) = ([] :: ws, x :: sp).
Proof.
  revert d. induction s as [|c s IH]; intros d Hd; cbn [split_ws]; rewrite Hd; [by do 3 eexists|].
  destruct (js_space c) eqn:Hc.
  - destruct (IH c Hc) as (x & ws & sp & E). cbn [split_ws] in E. rewrite Hc in E.
    rewrite E. by do 3 eexists.
  - destruct (split_ws s) as [[|w ws] [|x sp]]; by do 3 eexists.
Qed.

Lemma split_ws_interleave s :
  interleave (fst (split_ws s)) (snd (split_ws s)) = s.
Proof.
  induction s as [|c s IH]; [done|]. cbn [split_ws].
  pose proof (split_ws_length s) as Hlen. destruct (split_ws s) as [ws sp] eqn:E. cbn in IH, Hlen.
  destruct (js_space c) eqn:Hc.
  - destruct s as [|d s]; [cbn in E; by injection E as <- <-|].
    destruct sp as [|x sp]; [cbn; by rewrite IH|].
    destruct (js_space d) eqn:Hd; [|cbn; cbn in IH; by rewrite IH].
    destruct (split_ws_space d s Hd) as (y & ws' & sp' & E'). rewrite E' in E.
    injection E as <- <- <-. cbn in *. by rewrite IH.
  - destruct ws as [|w ws]; [done|]. destruct sp as [|x sp]; cbn in *; by rewrite <- IH.
Qed.

Lemma words_spaces s :
  truthy s = true -> length (spaces s) = length (words s)
  /\ concat (zip_with app (words s) (spaces s)) = s ++ js " ".
Proof.
  intros Hs. unfold words, spaces. rewrite Hs.
  pose proof (split_ws_length s) as Hlen. pose proof (split_ws_interleave s) as Hint.
  destruct (split_ws s) as [ws sp]. cbn [fst snd] in *. destruct sp as [|x sp].
  - destruct ws as [|w [|]]; [done| |done]. cbn -[js] in *. rewrite Hint. by rewrite app_nil_r.
  - split; [rewrite length_app; cbn -[js] in *; lia|].
    rewrite <- Hint. clear Hint Hs. revert ws Hlen. generalize (x :: sp). clear.
    intros sp. induction sp as [|y sp IH]; intros ws Hlen.
    + destruct ws as [|w [|]]; cbn -[js] in *; [done|by rewrite app_nil_r|done].
    + destruct ws as [|w ws]; [done|]. cbn -[js] in *. rewrite IH by lia. by rewrite <- !app_assoc.
Qed.

(** * Partners *)

Lemma rows_spec w l i : i ∈ rows w l <-> l !! i = Some w.
Proof.
  unfold rows. rewrite list_elem_of_fmap. split.
  - intros ([j v] & -> & Hj). apply list_elem_of_filter in Hj as [Hv Hj]. cbn in *. subst.
    apply list_elem_of_lookup in Hj as [k Hk]. rewrite list_lookup_imap in Hk.
    destruct (l !! k) eqn:E; [|done]. cbn in Hk. by simplify_eq.
  - intros Hi. exists (i, w). split; [done|]. apply list_elem_of_filter. split; [done|].
    apply list_elem_of_lookup. exists i. rewrite list_lookup_imap, Hi. done.
Qed.

Lemma rows_one w l i : rows w l = [i] -> forall j, l !! j = Some w <-> j = i.
Proof. intros E j. rewrite <- rows_spec, E. set_solver. Qed.

Section Partners.
Context `{Inherited} (o n : list jstr).

(** Each cell keeps its word, and partners point to each other. *)
Definition partners (a : list cell * list cell) : Prop :=
  map cell_text a.1 = o /\ map cell_text a.2 = n
  /\ forall i j t, a.2 !! i = Some (Matched t j) <-> a.1 !! j = Some (Matched t i).

Lemma text_at l (cs : list cell) i c :
  map cell_text cs = l -> cs !! i = Some c -> l !! i = Some (cell_text c).
Proof. intros <- Hi. by rewrite list_lookup_fmap, Hi. Qed.

(** Two rows with one word become partners when neither has another one. *)
Lemma pair_up_partners w i j a :
  partners a -> o !! j = Some w -> n !! i = Some w ->
  (forall t k, a.1 !! j = Some (Matched t k) -> k = i) ->
  (forall t k, a.2 !! i = Some (Matched t k) -> k = j) ->
  partners (pair_up w w j i a).
Proof.
  intros (Ho & Hn & Hp) Hj Hi Fj Fi. unfold pair_up. split; [|split]; cbn.
  - rewrite <- Ho, (list_fmap_insert cell_text). apply list_insert_id. by rewrite Ho.
  - rewrite <- Hn, (list_fmap_insert cell_text). apply list_insert_id. by rewrite Hn.
  - assert (j < length a.1 /\ i < length a.2)%nat as [Lj Li].
    { rewrite <- (length_map cell_text a.1), <- (length_map cell_text a.2), Ho, Hn.
      by split; eapply lookup_lt_Some. }
    intros i' j' t. rewrite !list_lookup_insert_Some. split.
    + intros [(<- & [= <- <-] & _)|[Hne H1]]; [by left|]. right.
      split; [|by apply Hp]. intros <-. apply Hp, Fj in H1. done.
    + intros [(<- & [= <- <-] & _)|[Hne H1]]; [by left|]. right.
      split; [|by apply Hp]. intros <-. apply Hp, Fi in H1. done.
Qed.

Lemma match_unique_partners a w : partners a -> partners (match_unique o n a w).
Proof.
  intros Ha. pose proof Ha as (Ho & Hn & Hp). unfold match_unique.
  destruct (rows w n) as [|i [|]] eqn:En; try done.
  destruct (rows w o) as [|j [|]] eqn:Eo; try done.
  pose proof (rows_one w n i En) as Ri. pose proof (rows_one w o j Eo) as Rj.
  apply pair_up_partners; [done|by apply Rj|by apply Ri| |].
  - intros t k Hk. pose proof (text_at o _ _ _ Ho Hk) as Ht. cbn in Ht.
    assert (t = w) as -> by (rewrite (proj2 (Rj j) eq_refl) in Ht; congruence).
    apply Ri. apply Hp in Hk. by apply (text_at n _ _ _ Hn) in Hk.
  - intros t k Hk. pose proof (text_at n _ _ _ Hn Hk) as Ht. cbn in Ht.
    assert (t = w) as -> by (rewrite (proj2 (Ri i) eq_refl) in Ht; congruence).
    apply Rj. apply Hp in Hk. by apply (text_at o _ _ _ Ho) in Hk.
Qed.

Lemma same_words_partners a j i x :
  partners a -> same_words a.1 a.2 j i = Some x -> partners (pair_up x x j i a).
Proof.
  intros Ha Hs. pose proof Ha as (Ho & Hn & _). unfold same_words in Hs.
  destruct (a.1 !! j) as [[y|]|] eqn:Ej; try done.
  destruct (a.2 !! i) as [[z|]|] eqn:Ei; try done. case_decide; [|done]. simplify_eq.
  apply pair_up_partners; [done| | |congruence|congruence].
  - by apply (text_at o _ _ _ Ho) in Ej.
  - by apply (text_at n _ _ _ Hn) in Ei.
Qed.

Lemma extend_down_partners a i : partners a -> partners (extend_down a i).
Proof.
  intros Ha. unfold extend_down. destruct (a.2 !! i) as [[|t row]|]; try done.
  destruct (same_words _ _ _ _) eqn:E; [by apply same_words_partners|done].
Qed.

Lemma extend_up_partners a i : partners a -> partners (extend_up a i).
Proof.
  intros Ha. unfold extend_up. destruct (a.2 !! i) as [[|t row]|]; try done.
  destruct (bool_decide _); [|done].
  destruct (same_words _ _ _ _) eqn:E; [by apply same_words_partners|done].
Qed.

Lemma start_partners : partners (map Word o, map Word n).
Proof.
  split; [|split]; cbn; [by rewrite map_map, map_id..|]. intros i j t.
  rewrite !list_lookup_fmap. destruct (n !! i), (o !! j); cbn; naive_solver.
Qed.

Lemma fold_partners {A} (f : list cell * list cell -> A -> list cell * list cell) l a :
  (forall a x, partners a -> partners (f a x)) -> partners a -> partners (fold_left f l a).
Proof. intros Hf. revert a. induction l as [|x l IH]; intros a Ha; [done|]. apply IH, Hf, Ha. Qed.

(** The row [i] is kept, with the word [v]. *)
Definition keeps_row (v : jstr) (i j : nat) (a : list cell * list cell) : Prop :=
  partners a /\ a.2 !! i = Some (Matched v j).

Lemma match_unique_keeps v i j a w : keeps_row v i j a -> keeps_row v i j (match_unique o n a w).
Proof.
  intros [Ha Hi]. split; [by apply match_unique_partners|]. pose proof Ha as (Ho & Hn & Hp).
  unfold match_unique. destruct (rows w n) as [|i' [|]] eqn:En; try done.
  destruct (rows w o) as [|j' [|]] eqn:Eo; try done. cbn.
  destruct (decide (i' = i)) as [->|Hne]; [|by rewrite list_lookup_insert_ne].
  pose proof (proj2 (rows_one w n i En i) eq_refl) as Hw.
  pose proof (text_at n _ _ _ Hn Hi) as Hv. cbn in Hv. assert (v = w) as -> by congruence.
  apply Hp, (text_at o _ _ _ Ho) in Hi. cbn in Hi. apply (rows_one w o j' Eo) in Hi as ->.
  rewrite list_lookup_insert_eq; [done|]. rewrite <- (length_map cell_text a.2), Hn.
  by eapply lookup_lt_Some.
Qed.

Lemma same_words_keeps v i j a i' j' x :
  keeps_row v i j a -> same_words a.1 a.2 j' i' = Some x -> keeps_row v i j (pair_up x x j' i' a).
Proof.
  intros [Ha Hi] Hs. split; [by apply same_words_partners|]. cbn. unfold same_words in Hs.
  destruct (a.1 !! j') as [[y|]|]; try done. destruct (a.2 !! i') as [[z|]|] eqn:Ei; try done.
  rewrite list_lookup_insert_ne; [done|]. intros ->. congruence.
Qed.

Lemma extend_down_keeps v i j a k : keeps_row v i j a -> keeps_row v i j (extend_down a k).
Proof.
  intros Ha. unfold extend_down. destruct (a.2 !! k) as [[|t row]|]; try done.
  destruct (same_words _ _ _ _) eqn:E; [by apply same_words_keeps|done].
Qed.

Lemma extend_up_keeps v i j a k : keeps_row v i j a -> keeps_row v i j (extend_up a k).
Proof.
  intros Ha. unfold extend_up. destruct (a.2 !! k) as [[|t row]|]; try done.
  destruct (bool_decide _); [|done].
  destruct (same_words _ _ _ _) eqn:E; [by apply same_words_keeps|done].
Qed.

Lemma fold_keeps {A} v i j (f : list cell * list cell -> A -> list cell * list cell) l a :
  (forall a x, keeps_row v i j a -> keeps_row v i j (f a x)) ->
  keeps_row v i j a -> keeps_row v i j (fold_left f l a).
Proof. intros Hf. revert a. induction l as [|x l IH]; intros a Ha; [done|]. apply IH, Hf, Ha. Qed.

Lemma elem_of_distinct w l : w ∈ l -> w ∈ distinct l.
Proof.
  induction l as [|x l IH]; intros Hw; [by apply elem_of_nil in Hw|]. cbn.
  destruct (decide (w = x)) as [->|Hne]; [by left|]. right. apply list_elem_of_filter.
  split; [done|]. apply IH. by apply elem_of_cons in Hw as [?|?].
Qed.

Lemma match_all_keeps w i j l a :
  rows w n = [i] -> rows w o = [j] -> w ∈ l -> partners a ->
  keeps_row w i j (fold_left (match_unique o n) l a).
Proof.
  intros En Eo. revert a. induction l as [|x l IH]; intros a Hw Ha; [by apply elem_of_nil in Hw|].
  cbn [fold_left]. apply elem_of_cons in Hw as [<-|Hw]; [|apply IH; auto using match_unique_partners].
  apply fold_keeps; [eauto using match_unique_keeps|]. split; [by apply match_unique_partners|].
  unfold match_unique. rewrite En, Eo. cbn. rewrite list_lookup_insert_eq; [done|].
  destruct Ha as (_ & Hn & _). rewrite <- (length_map cell_text a.2), Hn.
  eapply lookup_lt_Some. by apply (rows_one w n i En).
Qed.

Lemma diff_keeps a w i j :
  diff o n = Some a -> rows w n = [i] -> rows w o = [j] -> a.2 !! i = Some (Matched w j).
Proof.
  unfold diff. destruct (existsb _ _); [done|]. intros [= <-] En Eo.
  apply (fold_keeps w i j); [eauto using extend_up_keeps|].
  apply (fold_keeps w i j); [eauto using extend_down_keeps|].
  apply match_all_keeps; try done; [|apply start_partners].
  apply elem_of_distinct, list_elem_of_lookup. exists i. by apply (rows_one w n i En).
Qed.

(** The arrays of the difference. *)
Lemma diff_partners a : diff o n = Some a -> partners a.
Proof.
  unfold diff. destruct (existsb _ _); [done|]. intros [= <-].
  do 3 (apply fold_partners; [eauto using extend_up_partners, extend_down_partners,
                              match_unique_partners|]).
  apply start_partners.
Qed.
End Partners.

(** * Runs of unmatched rows *)

(** The rows from the start up to the first partner. *)
Fixpoint lead (o : list cell) : list jstr :=
  match o with
  | Word w :: o => w :: lead o
  | _ => []
  end.

(** What [Keep] and the deletions behind it show of the expected text. *)
Definition group (o : list cell) (row : nat) : list jstr :=
  match o !! row with
  | Some c => cell_text c :: lead (drop (row + 1) o)
  | None => []
  end.

(** The rows that have partners, counted from [k]. *)
Fixpoint matched_rows (k : nat) (o : list cell) : list nat :=
  match o with
  | [] => []
  | Word _ :: o => matched_rows (S k) o
  | Matched _ _ :: o => k :: matched_rows (S k) o
  end.

Lemma matched_rows_shift k o : matched_rows (S k) o = S <$> matched_rows k o.
Proof. revert k. induction o as [|[w|w r] o IH]; intros k; cbn; by rewrite ?IH. Qed.

Lemma group_cons c o rs : concat (map (group (c :: o)) (S <$> rs)) = concat (map (group o) rs).
Proof. by rewrite map_map. Qed.

(** A text is its lead and the groups of its partners. *)
Lemma groups_cover o :
  map cell_text o = lead o ++ concat (map (group o) (matched_rows 0 o)).
Proof.
  induction o as [|[w|w r] o IH]; [done|..]; cbn [map cell_text lead matched_rows app].
  - by rewrite matched_rows_shift, group_cons, IH.
  - cbn [map concat]. rewrite matched_rows_shift, group_cons. cbn. by rewrite drop_0, IH.
Qed.

Lemma matched_rows_spec o i :
  i ∈ matched_rows 0 o <-> exists t k, o !! i = Some (Matched t k).
Proof.
  revert i. induction o as [|[w|w r] o IH]; intros i; cbn [matched_rows].
  - split; [by intros ?%elem_of_nil|by intros (? & ? & ?)].
  - rewrite matched_rows_shift, list_elem_of_fmap. split.
    + intros (k & -> & Hk). by apply IH.
    + intros (t & k & Hi). destruct i as [|i]; [done|]. exists i. split; [done|]. apply IH. eauto.
  - rewrite elem_of_cons, matched_rows_shift, list_elem_of_fmap. split.
    + intros [->|(k & -> & Hk)]; [by do 2 eexists|by apply IH].
    + intros (t & k & Hi). destruct i as [|i]; [by left|]. right. exists i.
      split; [done|]. apply IH. eauto.
Qed.

Lemma matched_rows_ge k o i : i ∈ matched_rows k o -> (k <= i)%nat.
Proof.
  revert k. induction o as [|[w|w r] o IH]; intros k; cbn.
  - by intros ?%elem_of_nil.
  - intros Hi%IH. lia.
  - intros [->|Hi%IH]%elem_of_cons; lia.
Qed.

Lemma matched_rows_NoDup k o : NoDup (matched_rows k o).
Proof.
  revert k. induction o as [|[w|w r] o IH]; intros k; cbn; [constructor|done|].
  constructor; [|done]. intros Hk%matched_rows_ge. lia.
Qed.

(** * What the pieces show *)

Definition new_text (p : piece) : jstr :=
  match p with Del _ _ => [] | Ins w sp | Keep w sp => w ++ sp end.

Definition old_words (ps : list piece) : list jstr :=
  omap (fun p => match p with Ins _ _ => None | Del w _ | Keep w _ => Some w end) ps.

Lemma dels_new o : concat (map new_text (dels o)) = [].
Proof. induction o as [|[[w|] sp] o IH]; [done|exact IH|done]. Qed.

Lemma dels_old o : old_words (dels o) = lead (map fst o).
Proof. induction o as [|[[w|w r] sp] o IH]; [done| |done]. cbn [dels unmatched map lead fst]. by rewrite <- IH. Qed.

Lemma piece_of_new o c : concat (map new_text (piece_of o c)) = cell_text c.1 ++ c.2.
Proof. destruct c as [[w|w r] sp]; cbn; [|rewrite dels_new]; by rewrite app_nil_r. Qed.

Lemma concat_map_concat {A B} (f : A -> list B) (ls : list (list A)) :
  concat (map f (concat ls)) = concat (map (fun l => concat (map f l)) ls).
Proof.
  induction ls as [|l ls IH]; [done|]. cbn. by rewrite map_app, concat_app, IH.
Qed.

(** Without the deletions the pieces are the actual words with their spaces. *)
Lemma pieces_new o n :
  concat (map new_text (pieces o n)) = concat (map (fun c => cell_text c.1 ++ c.2) n).
Proof.
  destruct n as [|[c sp] n]; cbn [pieces].
  - induction o as [|[c sp] o IH]; [done|exact IH].
  - rewrite map_app, concat_app.
    assert (concat (map new_text (if unmatched c then dels o else [])) = []) as ->
      by (destruct (unmatched c); [apply dels_new|done]).
    cbn [app]. rewrite concat_map_concat, map_map. f_equal. apply map_ext. intros x.
    apply piece_of_new.
Qed.

Lemma old_words_app a b : old_words (a ++ b) = old_words a ++ old_words b.
Proof. apply omap_app. Qed.

Lemma old_words_concat ls : old_words (concat ls) = concat (map old_words ls).
Proof. induction ls as [|l ls IH]; [done|]. cbn [concat map]. by rewrite old_words_app, IH. Qed.

(** The rows the actual text's partners point to. *)
Definition rows_of (n : list cell) : list nat :=
  omap (fun c => match c with Word _ => None | Matched _ row => Some row end) n.

Lemma pieces_old o n :
  (forall i t r, map fst n !! i = Some (Matched t r) ->
     exists k, map fst o !! r = Some (Matched t k)) ->
  concat (map (fun c => old_words (piece_of o c)) n)
  = concat (map (group (map fst o)) (rows_of (map fst n))).
Proof.
  induction n as [|[[w|w r] sp] n IH]; intros Hn; [done|..].
  - apply IH. intros i. apply (Hn (S i)).
  - destruct (Hn 0%nat w r eq_refl) as [k Hk].
    change (rows_of (map fst ((Matched w r, sp) :: n))) with (r :: rows_of (map fst n)).
    cbn [map concat]. rewrite IH by (intros i; apply (Hn (S i))). f_equal.
    change (old_words (piece_of o (Matched w r, sp))) with (w :: old_words (dels (drop (r + 1) o))).
    unfold group. rewrite Hk, dels_old. cbn [cell_text]. by rewrite skipn_map.
Qed.

(** The partners' rows are each other's, once each. *)
Lemma rows_of_matched ow nw o n :
  partners ow nw (o, n) -> rows_of n ≡ₚ matched_rows 0 o.
Proof.
  intros (_ & _ & Hp). cbn in Hp. apply NoDup_Permutation; [|apply matched_rows_NoDup|].
  - assert (forall i i' t t' r, n !! i = Some (Matched t r) -> n !! i' = Some (Matched t' r) ->
              i = i') as Hinj.
    { intros i i' t t' r H1%Hp H2%Hp. congruence. }
    clear Hp. induction n as [|[w|w r] n IH]; cbn; [constructor|..].
    + apply IH. intros i i' t t' r H1 H2. specialize (Hinj (S i) (S i') t t' r H1 H2). lia.
    + constructor.
      * rewrite list_elem_of_omap. intros ([|t r'] & Hin & [= ->]).
        apply list_elem_of_lookup in Hin as [i Hi]. specialize (Hinj 0 (S i) w t r eq_refl Hi)%nat.
        done.
      * apply IH. intros i i' t t' r' H1 H2. specialize (Hinj (S i) (S i') t t' r' H1 H2). lia.
  - intros r. rewrite matched_rows_spec. unfold rows_of. rewrite list_elem_of_omap. split.
    + intros ([|t r'] & Hin & [= ->]). apply list_elem_of_lookup in Hin as [i Hi].
      apply Hp in Hi. eauto.
    + intros (t & i & Hi). apply Hp in Hi. exists (Matched t r). split; [|done].
      by eapply list_elem_of_lookup_2.
Qed.

Definition is_keep (p : piece) : bool := match p with Keep _ _ => true | _ => false end.

(** The words that are not shown are those before the first one that is kept, if the marked
    text begins with a kept word. *)
Lemma pieces_old_all ow nw o n :
  partners ow nw (map fst o, map fst n) ->
  exists lost rest, ow = lost ++ rest /\ old_words (pieces o n) ≡ₚ rest
    /\ (lost = [] \/ exists p ps, pieces o n = p :: ps /\ is_keep p = true).
Proof.
  intros Hpart. pose proof Hpart as (Ho & _ & Hp). cbn in Ho, Hp.
  destruct n as [|[c sp] n].
  - exists [], ow. split_and!; [done| |by left]. cbn [pieces]. rewrite <- Ho. clear.
    induction o as [|[c sp] o IH]; [done|]. cbn. by rewrite IH.
  - assert (old_words (concat (map (piece_of o) ((c, sp) :: n)))
      ≡ₚ concat (map (group (map fst o)) (matched_rows 0 (map fst o)))) as Hg.
    { rewrite old_words_concat, map_map, pieces_old.
      - by rewrite (rows_of_matched _ _ _ _ Hpart).
      - intros i t r Hi. apply Hp in Hi. eauto. }
    cbn [pieces]. destruct c as [w|w r]; cbn [unmatched].
    + exists [], ow. split_and!; [done| |by left].
      by rewrite old_words_app, dels_old, Hg, <- Ho, <- groups_cover.
    + exists (lead (map fst o)). eexists. split_and!; [by rewrite <- Ho, groups_cover|exact Hg|].
      right. by do 2 eexists.
Qed.

(** A cell with a partner is a word that is kept. *)
Lemma pieces_kept o n w j sp : (Matched w j, sp) ∈ n -> Keep w sp ∈ pieces o n.
Proof.
  intros Hin. unfold pieces. destruct n as [|[c x] n]; [by apply elem_of_nil in Hin|].
  apply elem_of_app. right. apply list_elem_of_In, in_concat.
  exists (piece_of o (Matched w j, sp)). split; [|by left].
  apply in_map_iff. exists (Matched w j, sp). split; [done|]. by apply list_elem_of_In.
Qed.

(** * The marked text *)

Lemma imap_fst {A B} (f : nat -> A -> B) (l : list A) : map fst (imap (fun i c => (c, f i c)) l) = l.
Proof.
  apply list_eq. intros i. rewrite list_lookup_fmap, list_lookup_imap.
  by destruct (l !! i).
Qed.

Lemma spaced_texts l sp :
  length sp = length l ->
  map (fun c => cell_text c.1 ++ c.2) (spaced l sp) = zip_with app (map cell_text l) sp.
Proof.
  intros Hlen. apply list_eq. intros i. unfold spaced.
  rewrite list_lookup_fmap, list_lookup_imap, lookup_zip_with, list_lookup_fmap.
  destruct (l !! i) as [c|] eqn:Hi; [|done]. cbn.
  destruct (sp !! i) as [s|] eqn:Hs; [done|].
  apply lookup_ge_None in Hs. apply lookup_lt_Some in Hi. lia.
Qed.

Section Shown.
Context `{Inherited}.

(** A mark as it stands in the text: what is deleted and what is inserted between tags, and
    one space more before what is kept. *)
Definition marked (p : piece) : jstr :=
  match p with
  | Del w sp => js "<del>" ++ (w ++ sp) ++ js "</del>"
  | Ins w sp => js "<ins>" ++ (w ++ sp) ++ js "</ins>"
  | Keep w sp => js " " ++ (w ++ sp)
  end.

Definition once (w : jstr) (l : list jstr) : Prop := count_occ (decide_rel (=)) l w = 1%nat.

Lemma rows_count (f : nat -> nat) (w : jstr) (l : list jstr) :
  length (filter (fun p => p.2 = w) (imap (fun i x => (f i, x)) l))
  = count_occ (decide_rel (=)) l w.
Proof.
  revert f. induction l as [|x l IH]; intros f; [done|]. cbn [imap count_occ].
  rewrite filter_cons. cbn [snd]. unfold decide_rel at 1. fold (decide (x = w)).
  destruct (decide (x = w)); cbn [length]; [f_equal|]; apply (IH (f ∘ S)).
Qed.

Lemma once_row w l : once w l -> exists i, rows w l = [i].
Proof.
  intros Hw. assert (length (rows w l) = 1%nat) as Hlen.
  { rewrite <- Hw. unfold rows. rewrite length_fmap. apply (rows_count id). }
  destruct (rows w l) as [|i [|]]; try done. by exists i.
Qed.

(** C31. The difference is an answer unless one of the words is a name that empty objects
    inherit.  It is a text of marks: read without the deletions and their tags, the tags of
    the insertions and the space put before each kept word, it is the actual text and a
    space; a word that is once in each text is kept; and the deleted and the kept words are
    those of the expected text, each as often as there, but perhaps for some at its start,
    which are lost only when the difference begins with a kept word. *)
Theorem diff_shows_texts o n :
  let o' := trim_end o in
  let n' := trim_end n in
  (QUnit_diff o n = None <-> existsb inherited (words n' ++ words o') = true)
  /\ forall d, QUnit_diff o n = Some d -> exists ps,
       d = concat (map marked ps)
       /\ concat (map new_text ps) = (if truthy n' then n' ++ js " " else [])
       /\ (forall w, once w (words n') -> once w (words o') -> exists sp, Keep w sp ∈ ps)
       /\ exists lost rest, words o' = lost ++ rest /\ old_words ps ≡ₚ rest
            /\ (lost = [] \/ exists p qs, ps = p :: qs /\ is_keep p = true).
Proof.
  cbn zeta. unfold QUnit_diff, QUnit_diff_pieces. generalize (trim_end o) (trim_end n).
  clear o n. intros o n. split.
  - destruct (diff (words o) (words n)) as [a|] eqn:E; unfold diff in E; cbn;
      destruct (existsb _ _); done.
  - intros d Hd. destruct (diff (words o) (words n)) as [[ao an]|] eqn:E; [|done].
    cbn [mbind option_bind fst snd fmap option_fmap option_map] in Hd. injection Hd as <-.
    pose proof (diff_partners _ _ _ E) as Hp. pose proof Hp as (Ho & Hn & Hpt). cbn in Ho, Hn.
    eexists. split; [|split; [|split]].
    + f_equal. apply map_ext. intros []; cbn -[js]; by rewrite <- ?app_assoc.
    + rewrite pieces_new. destruct (truthy n) eqn:Ht.
      * destruct (words_spaces n Ht) as [Hlen <-].
        rewrite spaced_texts by (rewrite Hlen, <- Hn; apply length_map). by rewrite Hn.
      * unfold words in Hn. rewrite Ht in Hn. apply map_eq_nil in Hn as ->. done.
    + intros w [i Hi]%once_row [j Hj]%once_row. pose proof (diff_keeps _ _ _ _ _ _ E Hi Hj) as Hk.
      cbn in Hk. eexists. apply (pieces_kept _ _ w j). apply list_elem_of_lookup. exists i.
      unfold spaced. rewrite list_lookup_imap, Hk. done.
    + apply (pieces_old_all _ (words n)). unfold spaced. rewrite !imap_fst. exact Hp.
Qed.

(** A word: not empty, without spaces, and not inherited. *)
Definition is_word (w : jstr) : Prop :=
  w ≠ [] /\ Forall (fun c => js_space c = false) w /\ inherited w = false.

Lemma trim_word w : Forall (fun c => js_space c = false) w -> trim_end w = w.
Proof.
  induction 1 as [|c w Hc _ IH]; [done|]. cbn. rewrite IH, Hc. by destruct w.
Qed.

Lemma split_word w : Forall (fun c => js_space c = false) w -> split_ws w = ([w], []).
Proof. induction 1 as [|c w Hc _ IH]; [done|]. cbn. by rewrite IH, Hc. Qed.

Lemma split_two x a :
  Forall (fun c => js_space c = false) x -> Forall (fun c => js_space c = false) a -> a ≠ [] ->
  split_ws (x ++ js " " ++ a) = ([x; a], [js " "]).
Proof.
  intros Hx Ha Hne. induction Hx as [|c x Hc _ IH].
  - cbn [app js split_ws]. rewrite split_word by done.
    destruct a as [|d a]; [done|]. apply Forall_cons in Ha as [Hd _]. done.
  - cbn [app split_ws]. by rewrite IH, Hc.
Qed.

Lemma trim_app s t : trim_end t = t -> t ≠ [] -> trim_end (s ++ t) = s ++ t.
Proof.
  intros Ht Hne. induction s as [|c s IH]; [done|]. cbn [app trim_end]. rewrite IH.
  destruct (s ++ t) eqn:E; [|done]. by apply app_eq_nil in E as [_ ?].
Qed.

Lemma diff_first_deleted x a :
  inherited x = false -> inherited a = false -> x ≠ a ->
  diff [x; a] [a] = Some ([Word x; Matched a 0], [Matched a 1]).
Proof.
  intros Hx Ha Hne. unfold diff. cbn [app existsb]. rewrite Hx, Ha. cbn.
  assert (rows a [a] = [0%nat] /\ rows a [x; a] = [1%nat]) as [E1 E2].
  { unfold rows. cbn. unfold filter. cbn.
    destruct (decide (a = a)), (decide (x = a)); done. }
  unfold match_unique. by rewrite E1, E2.
Qed.

(** When the first word was deleted and the rest kept, the deletion is not marked: the
    word just disappears. *)
Theorem first_deletion_lost x a :
  is_word x -> is_word a -> x ≠ a ->
  QUnit_diff (x ++ js " " ++ a) a = Some (js " " ++ a ++ js " ").
Proof.
  intros (Hx & Sx & Ix) (Ha & Sa & Ia) Hne. unfold QUnit_diff, QUnit_diff_pieces.
  rewrite (trim_word a) by done. rewrite app_assoc, trim_app by (done || by apply trim_word).
  rewrite <- app_assoc.
  assert (words (x ++ js " " ++ a) = [x; a]) as ->.
  { unfold words. rewrite split_two by done. by destruct x. }
  assert (words a = [a]) as -> by (unfold words; rewrite split_word by done; by destruct a).
  rewrite diff_first_deleted by done. unfold spaces. rewrite split_two, split_word by done.
  cbn -[js]. by rewrite app_nil_r.
Qed.
End Shown.

(** * Concrete texts *)

(** What ordinary browsers' Object.prototype has. *)
#[export] Instance object_prototype : Inherited := fun w =>
  bool_decide (w ∈ map js ["constructor"; "toString"; "toLocaleString"; "valueOf";
    "hasOwnProperty"; "isPrototypeOf"; "propertyIsEnumerable"; "__proto__";
    "__defineGetter__"; "__defineSetter__"; "__lookupGetter__"; "__lookupSetter__"]%string).

(** The example of the source. *)
Example brown_fox :
  QUnit_diff (js "the quick brown fox jumped over") (js "the quick fox jumps over")
  = Some (js " the  quick <del>brown </del> fox <del>jumped </del><ins>jumps </ins> over ").
Proof. vm_compute. reflexivity. Qed.

Lemma first_deletion_lost_witness :
  QUnit_diff (js "not ok") (js "ok") = Some (js " ok ").
Proof.
  apply (first_deletion_lost (js "not") (js "ok")).
  - split; [discriminate|]. split; [repeat constructor|reflexivity].
  - split; [discriminate|]. split; [repeat constructor|reflexivity].
  - discriminate.
Defined.

(** Two words that changed places are both kept: nothing is marked. *)
Example swap_unmarked : QUnit_diff (js "a b") (js "b a") = Some (js " b  a ").
Proof. vm_compute. reflexivity. Qed.

(** A text with a word like constructor cannot be compared. *)
Example inherited_word_throws :
  QUnit_diff (js "the constructor") (js "the builder") = None.
Proof. vm_compute. reflexivity. Qed.

(** The first word is lost. *)
Lemma diff_shows_texts_witness :
  let d := js " b  <del>x </del><ins>y </ins> c " in
  QUnit_diff (js "a b  x c") (js "b  y c") = Some d
  /\ exists ps, d = concat (map marked ps)
    /\ concat (map new_text ps) = js "b  y c "
    /\ (exists sp, Keep (js "b") sp ∈ ps).
Proof.
  intros d. assert (QUnit_diff (js "a b  x c") (js "b  y c") = Some d) as E
    by (vm_compute; reflexivity).
  split; [exact E|]. destruct (diff_shows_texts (js "a b  x c") (js "b  y c")) as [_ Hs].
  destruct (Hs d E) as (ps & Hd & Hn & Hk & _). exists ps. split; [exact Hd|]. split; [exact Hn|].
  apply Hk; vm_compute; reflexivity.
Defined.
