(* ===== verification/QunitRunner.v ===== *)
(** QunitRunner: the test runner of QUnit (fuelux/lib/qunit/qunit.js): the queue of
    phases, [process] and its nested calls, stop and start with their timers, the counts and
    the reports.

    The code of the tests is given by commands, those of setup and teardown by actions: they
    define no tests.  Timers fire in any order; the clock that cuts [process] short is a
    list of answers in the state, given anew with each event.  The calls of stop and start
    are noted in [pauses], and a report says which test it is about; the program reads
    neither.  The handlers of the reports are recorded when they are
    called; that they call QUnit themselves is left out, as is a browser without setTimeout.
    The text of the messages is in QunitText. *)

From S2P Require Import Prelude.
From coqutil Require Import Datatypes.RecordSettersUsingExistingGetters.

(** * Tests *)

(** What a test does; [Assert] is any of the assertions with its result, a count is 0 when
    it is not given. *)
Inductive act :=
  | Assert (result : bool)
  | Expect (asserts : nat)
  | Stop (count : nat)
  | Start (count : nat)
  | Throw
  | SetGlobal (name : jstr)
  | DeleteGlobal (name : jstr).

Record env := Env { setup : list act; teardown : list act }.

Inductive cmd :=
  | Do (a : act)
  | Module (name : jstr) (e : env)
  | Test (name : jstr) (expected : option nat) (async : bool) (callback : list cmd).

(** The fields of a test that never change; [internal] marks a callback with validTest. *)
Record settings := Settings {
  testNumber : nat;
  testName : jstr;
  async : bool;
  callback : list cmd;
  module : option jstr;
  moduleTestEnvironment : env;
  internal : bool
}.

(** The fields that do; of an assertion, its result. *)
Record test := MkTest { expected : option nat; assertions : list bool }.

Inductive phase := PSetup | PRun | PTeardown | PFinish.

#[export] Instance phase_eq_dec : EqDecision phase.
Proof. solve_decision. Defined.

(** A function in [config.queue]. *)
Inductive item :=
  | Init (s : settings)
  | Defer (s : settings)               (* the [run] of [queue] *)
  | Phase (p : phase) (s : settings).

(** * The state *)

(** What the callbacks are told; [number] says which test it is, next to its name, and
    [Defined] is told to nobody: the test with this number is made. *)
Inductive report :=
  | Defined (number : nat)
  | Begin
  | ModuleStart (name : option jstr)
  | ModuleDone (name : option jstr) (failed passed total : Z)
  | TestStart (name : jstr) (module : option jstr)
  | Log (number : nat) (result : bool)
  | TestDone (number : nat) (name : jstr) (module : option jstr) (failed passed total : Z)
  | Done (failed passed total : Z).

Record stat := Stat { all : Z; bad : Z }.

(** A number that may be missing: adding to undefined gives NaN. *)
Inductive sem := Unset | SNaN | Num (z : Z).

(** The calls of stop and start, with their counts, and the end of a test's time. *)
Inductive pause := Stopped (count : nat) | Started (count : nat) | TimeUp.

Inductive timer := Restart | Next (last : bool) | TimedOut.

(** [storage] has for each key of sessionStorage its value as a number, if it is one;
    [clock] says for each question whether the time is up. *)
Record config := Config {
  queue : list item;
  blocking : bool;
  autorun : bool;
  autostart : option bool;
  semaphore : sem;
  pauses : list pause;
  depth : nat;
  count : nat;                         (* Test.count *)
  tests : gmap nat test;
  current : option nat;
  previousModule : option jstr;
  currentModule : option jstr;
  currentModuleTestEnvironment : env;
  modules : list jstr;
  stats : option stat;
  moduleStats : option stat;
  pollution : option (list jstr);
  globals : list jstr;                 (* the names on window *)
  storage : list (jstr * option Z);
  timers : list (nat * timer);
  last_timer : nat;
  timeout : option nat;
  clock : list bool;
  reports : list report;
  trace : list (phase * nat)           (* the phases begun *)
}.

(** The configuration that does not change, and the page. *)
Class Page := {
  reorder : bool;
  requireExpects : bool;
  notrycatch : bool;
  noglobals : bool;
  testTimeout : bool;
  has_storage : bool;                  (* defined.sessionStorage *)
  shown : bool;                        (* there is an element qunit-tests *)
  filter_ : option jstr;
  module_ : option jstr;
  only_number : Z;                     (* config.testNumber, 0 for null *)
  toLowerCase : jstr -> jstr           (* Unicode's table *)
}.

(** A call: the state after it, and whether it came back without an exception.  [None]
    stands for fuel that ran out. *)
Abbreviation action := (config -> option (config * bool)).

Definition done_with (f : config -> config) : action := fun c => Some (f c, true).
Definition throws (f : config -> config) : action := fun c => Some (f c, false).
Definition skip : action := done_with id.

Definition andThen (f g : action) : action := fun c =>
  r ← f c; if (snd r : bool) then g (fst r) else Some r.

(** [try { f } catch (e) { h }]. *)
Definition try_catch (f h : action) : action := fun c =>
  r ← f c; if (snd r : bool) then Some r else h (fst r).

Declare Scope runner_scope.
Delimit Scope runner_scope with runner.
Notation "f >>> g" := (andThen f g) (at level 62, right associativity) : runner_scope.
Open Scope runner_scope.

Definition tell (l : list report) (c : config) : config := c <| reports := reports c ++ l |>.

(** * Stop and start *)

Definition note (p : pause) (c : config) : config := c <| pauses := pauses c ++ [p] |>.

(** [window.setTimeout] and [clearTimeout]. *)
Definition setTimeout (t : timer) (c : config) : config :=
  c <| timers := timers c ++ [(S (last_timer c), t)] |> <| last_timer := S (last_timer c) |>.

Definition clearTimeout (i : nat) (c : config) : config :=
  c <| timers := filter (fun t => t.1 ≠ i) (timers c) |>.

(** [s + n] and [s > 0]. *)
Definition add_sem (n : Z) (s : sem) : sem :=
  match s with Num z => Num (z + n) | _ => SNaN end.

Definition positive (s : sem) : bool := match s with Num z => bool_decide (0 < z)%Z | _ => false end.

Definition count_or_1 (n : nat) : Z := if bool_decide (n = 0)%nat then 1%Z else Z.of_nat n.

Section Runner.
Context `{Page}.

(** [QUnit.start]; the rest is in [restart], when the timer fires. *)
Definition start (n : nat) (c : config) : config :=
  let c := note (Started n) c in
  let s := add_sem (- count_or_1 n) (semaphore c) in
  let c := c <| semaphore := s |> in
  if positive s then c
  else
    let c := match s with
             | Num z => if bool_decide (z < 0)%Z then c <| semaphore := Num 0 |> else c
             | _ => c
             end in
    setTimeout Restart c.

(** [QUnit.stop]. *)
Definition stop (n : nat) (c : config) : config :=
  let c := note (Stopped n) c in
  let c := c <| semaphore := add_sem (count_or_1 n) (semaphore c) |> <| blocking := true |> in
  if testTimeout then
    let c := match timeout c with Some i => clearTimeout i c | None => c end in
    let c := setTimeout TimedOut c in
    c <| timeout := Some (last_timer c) |>
  else c.

(** * Assertions *)

Definition the_test (i : nat) (c : config) : test := default (MkTest None []) (tests c !! i).

Definition set_test (i : nat) (f : test -> test) (c : config) : config :=
  c <| tests := <[i := f (the_test i c)]> (tests c) |>.

(** [QUnit.ok], [QUnit.push] and [QUnit.pushFailure]: an exception when no test runs. *)
Definition push (result : bool) : action := fun c =>
  match current c with
  | None => throws id c
  | Some i =>
      done_with (set_test i (fun t => t <| assertions := assertions t ++ [result] |>))
                (tell [Log i result] c)
  end.

Definition pushFailure : action := push false.

(** [QUnit.expect(asserts)]. *)
Definition expect (n : nat) : action := fun c =>
  match current c with
  | None => throws id c
  | Some i => done_with (set_test i (fun t => t <| expected := Some n |>)) c
  end.

Definition perform (a : act) : action :=
  match a with
  | Assert b => push b
  | Expect n => expect n
  | Stop n => done_with (stop n)
  | Start n => done_with (start n)
  | Throw => throws id
  | SetGlobal k => done_with (fun c =>
      c <| globals := if decide (k ∈ globals c) then globals c else globals c ++ [k] |>)
  | DeleteGlobal k => done_with (fun c => c <| globals := filter (fun g => g ≠ k) (globals c) |>)
  end.

Definition performs (l : list act) : action := foldr (fun a k => perform a >>> k) skip l.

(** * Globals *)

(** [saveGlobal]. *)
Definition saveGlobal (c : config) : config :=
  c <| pollution := Some (if noglobals
         then filter (fun k => negb (starts_with (js "qunit-test-output") k)) (globals c)
         else []) |>.

(** [diff]: what is in [a] and not in [b]. *)
Fixpoint diff (a b : list jstr) : list jstr :=
  match a with
  | [] => []
  | x :: a => if bool_decide (x ∈ b) then diff a b else x :: diff a b
  end.

Definition fail_if (b : bool) : action := if b then pushFailure else skip.

Definition checkPollution : action := fun c =>
  let old := default [] (pollution c) in
  let c := saveGlobal c in
  let new := default [] (pollution c) in
  (fail_if (negb (bool_decide (diff new old = [])))
   >>> fail_if (negb (bool_decide (diff old new = [])))) c.

(** * The storage of results *)

(** The key of a test: the module of a test without one reads "undefined". *)
Definition key (s : settings) : jstr :=
  js "qunit-test-" ++ default (js "undefined") (module s) ++ js "-" ++ testName s.

Definition getItem (k : jstr) (l : list (jstr * option Z)) : option (option Z) :=
  snd <$> (snd <$> list_find (fun p => p.1 = k) l).

Definition removeItem (k : jstr) (l : list (jstr * option Z)) : list (jstr * option Z) :=
  filter (fun p => p.1 ≠ k) l.

Fixpoint setItem (k : jstr) (v : option Z) (l : list (jstr * option Z)) : list (jstr * option Z) :=
  match l with
  | [] => [(k, v)]
  | p :: l => if decide (p.1 = k) then (k, v) :: l else p :: setItem k v l
  end.

(** The number stored for a test is not zero. *)
Definition failed_before (s : settings) (c : config) : bool :=
  reorder && has_storage
  && match getItem (key s) (storage c) with Some (Some z) => negb (bool_decide (z = 0%Z)) | _ => false end.

(** The loop of [done] over the stored keys, from [i] on; [i] grows twice each time. *)
Fixpoint clear_own (fuel : nat) (i : nat) (l : list (jstr * option Z)) : list (jstr * option Z) :=
  match fuel, l !! i with
  | S fuel, Some (k, _) =>
      clear_own fuel (i + 2) (if starts_with (js "qunit-test-") k then removeItem k l else l)
  | _, _ => l
  end.

(** * The phases of a test *)

(** [config.current = this]. *)
Definition enter (s : settings) (c : config) : config := c <| current := Some (testNumber s) |>.

Definition begin_phase (p : phase) (s : settings) (c : config) : config :=
  c <| trace := trace c ++ [(p, testNumber s)] |>.

Definition module_done (name : option jstr) (st : stat) : report :=
  ModuleDone name (bad st) (all st - bad st) (all st).

(** The reports of modules in [setup], and the counts of the new module. *)
Definition change_module (s : settings) : action := fun c =>
  if negb (bool_decide (module s = previousModule c)) then
    let start c := tell [ModuleStart (module s)]
                     (c <| previousModule := module s |> <| moduleStats := Some (Stat 0 0) |>) in
    if truthy (previousModule c) then
      match moduleStats c with
      | None => throws id c
      | Some st => done_with start (tell [module_done (previousModule c) st] c)
      end
    else done_with start c
  else if autorun c then done_with (tell [ModuleStart (module s)]) c
  else skip c.

(** [Test.prototype.setup]. *)
Definition do_setup (s : settings) : action :=
  change_module s
  >>> done_with (fun c =>
        let c := enter s c in
        let c := tell [TestStart (testName s) (module s)] c in
        match pollution c with None => saveGlobal c | Some _ => c end)
  >>> let call := performs (setup (moduleTestEnvironment s)) in
      if notrycatch then call else try_catch call pushFailure.

(** [Test.prototype.run]; [callback] is the call of the test's own function. *)
Definition do_run (callback : action) (s : settings) : action :=
  done_with (fun c => let c := enter s c in if async s then stop 1 c else c)
  >>> if notrycatch then callback
      else try_catch callback
             (pushFailure
              >>> done_with (fun c => let c := saveGlobal c in
                                      if blocking c then start 1 c else c)).

(** [Test.prototype.teardown]. *)
Definition do_teardown (s : settings) : action :=
  done_with (enter s)
  >>> let call := performs (teardown (moduleTestEnvironment s)) in
      if notrycatch then call else try_catch call pushFailure >>> checkPollution.

(** The failure [finish] adds when the number of assertions is not the expected one. *)
Definition miscounted (t : test) : bool :=
  match expected t with
  | None => requireExpects || bool_decide (assertions t = [])
  | Some n => negb (bool_decide (n = length (assertions t)))
  end.

Definition failures (l : list bool) : Z := Z.of_nat (length (filter (fun b => b = false) l)).

Definition total_of (l : list bool) : Z := Z.of_nat (length l).

Definition add_stat (all' bad' : Z) (st : stat) : stat := Stat (all st + all') (bad st + bad').

(** Both counts; the exception is for one that is undefined. *)
Definition add_stats (l : list bool) : action := fun c =>
  match stats c with
  | None => throws id c
  | Some st =>
      let c := c <| stats := Some (add_stat (total_of l) 0 st) |> in
      match moduleStats c with
      | None => throws id c
      | Some mst =>
          let c := c <| moduleStats := Some (add_stat (total_of l) (failures l) mst) |> in
          done_with (fun c => c <| stats := Some (add_stat (total_of l) (failures l) st) |>) c
      end
  end.

(** The result for the next time. *)
Definition store_result (s : settings) (failed : Z) (c : config) : config :=
  if shown && reorder && has_storage then
    c <| storage := if bool_decide (failed = 0%Z) then removeItem (key s) (storage c)
                    else setItem (key s) (Some failed) (storage c) |>
  else c.

(** The counts, the stored result and the report of [finish]. *)
Definition conclude (s : settings) : action :=
  (fun c => add_stats (assertions (the_test (testNumber s) c)) c)
  >>> done_with (fun c =>
        let l := assertions (the_test (testNumber s) c) in
        let c := store_result s (failures l) c in
        let c := tell [TestDone (testNumber s) (testName s) (module s) (failures l)
                                (total_of l - failures l) (total_of l)] c in
        c <| current := None |>).

(** [Test.prototype.finish]. *)
Definition do_finish (s : settings) : action :=
  done_with (enter s)
  >>> (fun c => fail_if (miscounted (the_test (testNumber s) c)) c)
  >>> conclude s.

(** * The queue *)

(** The report of the last module in [done]. *)
Definition last_module : action := fun c =>
  if truthy (currentModule c)
  then match moduleStats c with
       | None => throws id c
       | Some mst => done_with (tell [module_done (currentModule c) mst]) c
       end
  else skip c.

(** The rest of [done]: the stored results and the report. *)
Definition report_end : action := fun c =>
  match stats c with
  | None => throws id c
  | Some st =>
      let c := if reorder && has_storage && bool_decide (bad st = 0%Z)
               then c <| storage := clear_own (length (storage c)) 0 (storage c) |> else c in
      done_with (tell [Done (bad st) (all st - bad st) (all st)]) c
  end.

(** [done], once the queue is empty. *)
Definition finished : action :=
  done_with (fun c => c <| autorun := true |>) >>> last_module >>> report_end.

(** [validTest]. *)
Definition validTest (s : settings) : bool :=
  let fullName := toLowerCase (default (js "undefined") (module s) ++ js ": " ++ testName s) in
  if internal s then true
  else if negb (bool_decide (only_number = 0%Z))
  then bool_decide (Z.of_nat (testNumber s) = only_number)
  else
    let m := toLowerCase <$> module_ in
    if truthy m && (negb (truthy (module s)) || negb (bool_decide (toLowerCase <$> module s = m)))
    then false
    else
      match toLowerCase <$> filter_ with
      | None | Some [] => true
      | Some f =>
          let include := negb (first_is bang f) in
          let f := if include then f else drop 1 f in
          if contains f fullName then include else negb include
      end.

Section Process.
Variable process : bool -> action.

(** [synchronize]. *)
Definition synchronize (i : item) (last : bool) : action := fun c =>
  let c := c <| queue := queue c ++ [i] |> in
  if autorun c && negb (blocking c) then process last c else skip c.

(** The inner [run] of [Test.prototype.queue]. *)
Definition queue_phases (s : settings) : action :=
  synchronize (Phase PSetup s) false >>> synchronize (Phase PRun s) false
  >>> synchronize (Phase PTeardown s) false >>> synchronize (Phase PFinish s) false.

(** [Test.prototype.queue]. *)
Definition queue_test (s : settings) : action :=
  synchronize (Init s) false
  >>> (fun c => if failed_before s c then queue_phases s c else synchronize (Defer s) true c).

(** [QUnit.test]. *)
Definition QUnit_test (name : jstr) (expected : option nat) (async : bool)
    (callback : list cmd) (internal : bool) : action := fun c =>
  let n := S (count c) in
  let s := Settings n name async callback (currentModule c) (currentModuleTestEnvironment c)
                    internal in
  let c := tell [Defined n] (set_test n (fun _ => MkTest expected []) (c <| count := n |>)) in
  if validTest s then queue_test s c else skip c.

(** [QUnit.module]. *)
Definition QUnit_module (name : jstr) (e : env) (c : config) : config :=
  c <| currentModule := Some name |> <| currentModuleTestEnvironment := e |>
    <| modules := if decide (name ∈ modules c) then modules c else modules c ++ [name] |>.

Definition run_cmd (x : cmd) : action :=
  match x with
  | Do a => perform a
  | Module name e => done_with (QUnit_module name e)
  | Test name expected async callback => QUnit_test name expected async callback false
  end.

Definition run_cmds (l : list cmd) : action := foldr (fun x k => run_cmd x >>> k) skip l.

(** The functions in the queue. *)
Definition exec (i : item) : action :=
  match i with
  | Init _ => skip                     (* only the page changes *)
  | Defer s => queue_phases s
  | Phase p s =>
      done_with (begin_phase p s)
      >>> match p with
          | PSetup => do_setup s
          | PRun => do_run (run_cmds (callback s)) s
          | PTeardown => do_teardown s
          | PFinish => do_finish s
          end
  end.

End Process.

(** [process] around its loop: an exception leaves the depth as it is. *)
Definition process_with (loop : bool -> action) (last : bool) : action :=
  done_with (fun c => c <| depth := S (depth c) |>)
  >>> loop last
  >>> done_with (fun c => c <| depth := pred (depth c) |>)
  >>> (fun c => if last && negb (blocking c) && bool_decide (queue c = [])
                   && bool_decide (depth c = 0)
                then finished c else skip c).

(** The time is up: what the clock answers, and always before [load], which sets updateRate
    together with the counts: no number is less than undefined. *)
Definition late (c : config) : bool :=
  negb (present (stats c)) || match clock c with b :: _ => b | [] => false end.

Fixpoint loop (fuel : nat) (last : bool) : action := fun c =>
  match fuel with
  | 0 => None
  | S fuel =>
      match queue c with
      | i :: q =>
          if blocking c then skip c
          else
            let up := late c in
            let c := c <| clock := drop 1 (clock c) |> in
            if up then done_with (setTimeout (Next last)) c
            else (exec (process_with (loop fuel)) i >>> loop fuel last) (c <| queue := q |>)
      | [] => skip c
      end
  end.

Definition process (fuel : nat) : bool -> action := process_with (loop fuel).

(** * The browser *)

Inductive event :=
  | Load                               (* the page has loaded: QUnit.load *)
  | Fire (i : nat)                     (* a timer *)
  | Callback (l : list cmd)            (* a script, or a callback of a test *)
  | Error.                             (* any other error on the page *)

(** [QUnit.load], the page's parts left out. *)
Definition load (c : config) : config :=
  let c := tell [Begin] c in
  let c := c <| stats := Some (default (Stat 0 0) (stats c)) |>
             <| moduleStats := Some (default (Stat 0 0) (moduleStats c)) |>
             <| semaphore := match semaphore c with Unset => Num 0 | s => s end |>
             <| autostart := Some (default true (autostart c)) |>
             <| blocking := false |> in
  if truthy (autostart c) then start 1 c else c.

(** The functions given to setTimeout. *)
Definition restart (process : bool -> action) : action := fun c =>
  if positive (semaphore c) then skip c
  else
    let c := match timeout c with Some i => clearTimeout i c | None => c end in
    process true (c <| blocking := false |>).

Definition timed_out : action :=
  push false >>> done_with (fun c => start 1 (note TimeUp (c <| semaphore := Num 1 |>))).

Definition fire (process : bool -> action) (t : timer) : action :=
  match t with
  | Restart => restart process
  | Next last => process last
  | TimedOut => timed_out
  end.

(** [window.onerror]. *)
Definition onerror (process : bool -> action) : action := fun c =>
  match current c with
  | Some _ => pushFailure c
  | None => QUnit_test process (js "global failure") None false [Do (Assert false)] true c
  end.

(** What an event calls. *)
Definition call (process : bool -> action) (e : event) : action :=
  match e with
  | Load => done_with load
  | Fire i => fun c =>
      match snd <$> (snd <$> list_find (fun t => t.1 = i) (timers c)) with
      | Some t => fire process t (clearTimeout i c)
      | None => skip c
      end
  | Callback l => run_cmds process l
  | Error => onerror process
  end.

(** An exception that nothing caught is an error on the page. *)
Definition handle (fuel : nat) (e : event) : action :=
  try_catch (call (process fuel) e) (onerror (process fuel)).

(** The state when the script has run. *)
Definition config0 : config :=
  {| queue := []; blocking := true; autorun := false; autostart := None; semaphore := Unset;
     pauses := []; depth := 0; count := 0; tests := ∅; current := None; previousModule := None;
     currentModule := None; currentModuleTestEnvironment := Env [] []; modules := [];
     stats := None; moduleStats := None; pollution := None; globals := []; storage := [];
     timers := []; last_timer := 0; timeout := None; clock := []; reports := []; trace := [] |}.

End Runner.
