(* ===== verification/QunitRunnerFacts.v ===== *)
(** QunitRunnerFacts: the runner always gets to the end of its queue; the phases of a test
    come in order and are not mixed with another's; stopped tests wait; the counts are the
    sums of what the tests reported; and when the end is reported, or not. *)

From S2P Require Import Prelude QunitRunner.
From coqutil Require Import Datatypes.RecordSettersUsingExistingGetters.

(** * Calls *)

Section Calls.
Context (I : config -> Prop).

(** [I] is kept by a call, also when it ends with an exception. *)
Definition keeps (f : action) : Prop := forall c c' ok, I c -> f c = Some (c', ok) -> I c'.

Lemma keeps_done f : (forall c, I c -> I (f c)) -> keeps (done_with f).
Proof. intros Hf c c' ok Hc [= <- <-]. by apply Hf. Qed.

Lemma keeps_throws f : (forall c, I c -> I (f c)) -> keeps (throws f).
Proof. intros Hf c c' ok Hc [= <- <-]. by apply Hf. Qed.

Lemma keeps_skip : keeps skip.
Proof. by apply keeps_done. Qed.

Lemma keeps_andThen f g : keeps f -> keeps g -> keeps (f >>> g).
Proof.
  intros Hf Hg c c' ok Hc. unfold andThen. destruct (f c) as [[c1 ok1]|] eqn:E; [|done]. cbn.
  destruct ok1; [|intros [= <- <-]]; eauto.
Qed.

Lemma keeps_catch f h : keeps f -> keeps h -> keeps (try_catch f h).
Proof.
  intros Hf Hg c c' ok Hc. unfold try_catch. destruct (f c) as [[c1 ok1]|] eqn:E; [|done]. cbn.
  destruct ok1; [intros [= <- <-]|]; eauto.
Qed.

Lemma keeps_if (b : bool) f g : keeps f -> keeps g -> keeps (if b then f else g).
Proof. by destruct b. Qed.

(** A call that looks at the state first. *)
Lemma keeps_look (f : config -> action) : (forall d, keeps (f d)) -> keeps (fun c => f c c).
Proof. intros Hf c c' ok Hc E. by apply (Hf c c c' ok). Qed.
End Calls.

(** * What the code of a test changes *)

(** How many stops have not been started, from the calls alone: a call counts for its number,
    or for one, and starts too many are forgotten. *)
Definition calls (n : nat) : nat := if decide (n = 0) then 1 else n.

Definition pause_step (open : nat) (p : pause) : nat :=
  match p with
  | Stopped n => open + calls n
  | Started n => open - calls n
  | TimeUp => 1
  end.

Definition open_stops (l : list pause) : nat := foldl pause_step 0 l.

(** The semaphore is that number, and stops that are open block the queue. *)
Definition stops (c : config) : Prop :=
  semaphore c = Num (Z.of_nat (open_stops (pauses c)))
  /\ (positive (semaphore c) = true -> blocking c = true).

Lemma open_stops_snoc l p : open_stops (l ++ [p]) = pause_step (open_stops l) p.
Proof. unfold open_stops. by rewrite foldl_app. Qed.

(** What a test has logged since it was made, from the reports alone. *)
Definition logged_step (n : nat) (l : list bool) (r : report) : list bool :=
  match r with
  | Log m b => if decide (m = n) then l ++ [b] else l
  | Defined m => if decide (m = n) then [] else l
  | _ => l
  end.

Definition logged (n : nat) (l : list report) : list bool := foldl (logged_step n) [] l.

(** The assertions of every test are those. *)
Definition faithful (c : config) : Prop :=
  forall n, assertions (the_test n c) = logged n (reports c).

Definition on (m n : nat) (l : list bool) : list bool := if decide (m = n) then l else [].

Lemma logged_logs n m l k : logged n (l ++ map (Log m) k) = logged n l ++ on m n k.
Proof.
  unfold logged, on. rewrite foldl_app. generalize (foldl (logged_step n) [] l). clear l.
  induction k as [|b k IH]; intros l; cbn; [by case_decide; rewrite app_nil_r|].
  rewrite IH. case_decide; [by rewrite <- app_assoc|done].
Qed.

(** Reports that say nothing of an assertion. *)
Definition silent (r : report) : bool :=
  match r with Log _ _ | Defined _ => false | _ => true end.

Lemma logged_silent n l k : forallb silent k = true -> logged n (l ++ k) = logged n l.
Proof.
  unfold logged. rewrite foldl_app. generalize (foldl (logged_step n) [] l). clear l.
  induction k as [|r k IH]; intros l Hk; [done|]. cbn in *.
  apply andb_true_iff in Hk as [Hr Hk]. rewrite IH by done. by destruct r.
Qed.

Lemma faithful_silent c c' k :
  tests c' = tests c -> reports c' = reports c ++ k -> forallb silent k = true ->
  faithful c -> faithful c'.
Proof.
  intros Ht Hr Hk Hc n. unfold the_test. rewrite Ht, Hr, logged_silent by done. apply Hc.
Qed.

Lemma the_test_set i n f c :
  the_test n (set_test i f c) = if decide (i = n) then f (the_test i c) else the_test n c.
Proof.
  unfold the_test at 1, set_test.
  change (tests (c <| tests := <[i:=f (the_test i c)]> (tests c) |>))
    with (<[i:=f (the_test i c)]> (tests c)).
  case_decide as E; [subst; by rewrite lookup_insert_eq|by rewrite lookup_insert_ne].
Qed.

(** The fields an action leaves as they are; it may stop the queue, and only logs. *)
Record frame (c c' : config) : Prop := Frame {
  f_queue : queue c' = queue c;
  f_autorun : autorun c' = autorun c;
  f_depth : depth c' = depth c;
  f_count : count c' = count c;
  f_current : current c' = current c;
  f_stats : stats c' = stats c;
  f_moduleStats : moduleStats c' = moduleStats c;
  f_trace : trace c' = trace c;
  f_clock : clock c' = clock c;
  f_blocking : blocking c = true -> blocking c' = true;
  f_stops : stops c -> stops c';
  f_reports : exists l, reports c' = reports c ++ map (Log (default 0 (current c))) l;
  f_faithful : faithful c -> faithful c'
}.

#[export] Instance frame_refl : Reflexive frame.
Proof. intros c. split; try done. exists []. by rewrite app_nil_r. Qed.

#[export] Instance frame_trans : Transitive frame.
Proof.
  intros a b c [] []. split; try congruence; [auto..| |auto].
  destruct f_reports0 as [l El], f_reports1 as [m Em]. exists (l ++ m).
  by rewrite Em, El, map_app, <- app_assoc, f_current0.
Qed.

(** A change of the other fields. *)
Ltac framed := intros; split; try done; first [exists []; cbn; by rewrite app_nil_r|intros Hstops].

(** A call within the frame. *)
Definition frames (f : action) : Prop := forall d, keeps (frame d) f.

Lemma frames_done f : (forall c, frame c (f c)) -> frames (done_with f).
Proof. intros Hf d. apply keeps_done. intros c Hc. by transitivity c. Qed.

Lemma frames_throws f : (forall c, frame c (f c)) -> frames (throws f).
Proof. intros Hf d. apply keeps_throws. intros c Hc. by transitivity c. Qed.

Lemma frames_andThen f g : frames f -> frames g -> frames (f >>> g).
Proof. intros Hf Hg d. by apply keeps_andThen. Qed.

Lemma frames_catch f g : frames f -> frames g -> frames (try_catch f g).
Proof. intros Hf Hg d. by apply keeps_catch. Qed.

Create HintDb runner.
#[export] Hint Resolve keeps_skip keeps_andThen keeps_catch frames_andThen frames_catch : runner.

Section Frames.
Context `{Page}.

Lemma count_calls n : count_or_1 n = Z.of_nat (calls n).
Proof. unfold count_or_1, calls. case_bool_decide; destruct (decide _); lia. Qed.

Lemma calls_positive n : 0 < calls n.
Proof. unfold calls. destruct (decide _); lia. Qed.

(** The fields of [stops], computed. *)
Lemma stops_intro c z :
  semaphore c = Num z -> z = Z.of_nat (open_stops (pauses c)) ->
  ((0 < z)%Z -> blocking c = true) -> stops c.
Proof.
  intros Hs Hz Hb. split; [congruence|]. rewrite Hs. cbn. intros Hp. apply Hb.
  by apply bool_decide_eq_true in Hp.
Qed.

Lemma stops_start n c : stops c -> stops (start n c).
Proof.
  intros [Hs Hb]. rewrite Hs in Hb. unfold start, setTimeout. cbn zeta.
  change (semaphore (note (Started n) c)) with (semaphore c). rewrite Hs, count_calls.
  cbn [add_sem positive]. pose proof (calls_positive n) as Hn. pose proof (open_stops_snoc (pauses c) (Started n)) as Hp.
  cbn [pause_step] in Hp. case_bool_decide; [|case_bool_decide].
  - eapply stops_intro; [reflexivity| |].
    + match goal with |- context[open_stops (pauses ?d)] =>
        change (pauses d) with (pauses c ++ [Started n]) end. lia.
    + intros _. apply Hb. cbn. apply bool_decide_eq_true. lia.
  - eapply stops_intro; [reflexivity| |done]. match goal with |- context[open_stops (pauses ?d)] =>
        change (pauses d) with (pauses c ++ [Started n]) end. lia.
  - eapply stops_intro; [reflexivity| |lia]. match goal with |- context[open_stops (pauses ?d)] =>
        change (pauses d) with (pauses c ++ [Started n]) end. lia.
Qed.

Lemma frame_start n c : frame c (start n c).
Proof.
  split; try (unfold start, setTimeout; destruct (positive _); [done|];
    destruct (add_sem _ _); try case_bool_decide; done).
  - apply stops_start.
  - exists []. rewrite app_nil_r. unfold start, setTimeout. destruct (positive _); [done|].
    destruct (add_sem _ _); try case_bool_decide; done.
Qed.

Lemma stops_stop n c : stops c -> stops (stop n c).
Proof.
  intros [Hs Hb]. pose proof (open_stops_snoc (pauses c) (Stopped n)) as Hp. cbn [pause_step] in Hp.
  eapply (stops_intro _ (Z.of_nat (open_stops (pauses c) + calls n))).
  - unfold stop. cbn zeta. change (semaphore (note (Stopped n) c)) with (semaphore c).
    rewrite Hs, count_calls. cbn [add_sem]. rewrite <- Nat2Z.inj_add, Nat.add_comm.
    destruct testTimeout; [destruct (timeout _)|]; cbn; f_equal; lia.
  - f_equal. rewrite <- Hp. f_equal. unfold stop.
    destruct testTimeout; [destruct (timeout _)|]; done.
  - intros _. unfold stop. destruct testTimeout; [destruct (timeout _)|]; done.
Qed.

Lemma frame_stop n c : frame c (stop n c).
Proof.
  split; try (unfold stop; destruct testTimeout; [destruct (timeout _)|]; done).
  - apply stops_stop.
  - exists []. rewrite app_nil_r. unfold stop. destruct testTimeout; [destruct (timeout _)|]; done.
Qed.

(** A failure or a success is logged and kept. *)
Lemma faithful_push b i c :
  faithful c ->
  faithful (set_test i (fun t => t <| assertions := assertions t ++ [b] |>) (tell [Log i b] c)).
Proof.
  intros Hc n. rewrite the_test_set.
  change (reports _) with (reports c ++ map (Log i) [b]). rewrite logged_logs. unfold on.
  change (the_test i (tell [Log i b] c)) with (the_test i c).
  change (the_test n (tell [Log i b] c)) with (the_test n c).
  case_decide; [subst; cbn|rewrite app_nil_r]; by rewrite <- Hc.
Qed.

Lemma frames_push b : frames (push b).
Proof.
  intros d c c' ok Hd. unfold push. destruct (current c) as [i|] eqn:Ei; intros [= <- <-]; [|done].
  transitivity c; [done|]. split; try done; [|apply faithful_push].
  exists [b]. by rewrite Ei.
Qed.

Lemma frames_expect n : frames (expect n).
Proof.
  intros d c c' ok Hd. unfold expect. destruct (current c) as [i|]; intros [= <- <-]; [|done].
  transitivity c; [done|]. split; try done; [exists []; cbn; by rewrite app_nil_r|].
  intros Hc m. rewrite the_test_set. case_decide; [subst|]; apply Hc.
Qed.

Lemma frames_perform a : frames (perform a).
Proof.
  destruct a; cbn [perform]; auto using frames_push, frames_expect.
  - apply frames_done, frame_stop.
  - apply frames_done, frame_start.
  - by apply frames_throws.
  - apply frames_done. framed.
  - apply frames_done. framed.
Qed.

Lemma frames_skip : frames skip.
Proof. by apply frames_done. Qed.

Lemma frames_performs l : frames (performs l).
Proof.
  induction l as [|a l IH]; [apply frames_skip|].
  apply frames_andThen; [apply frames_perform|exact IH].
Qed.

Lemma frames_pushFailure : frames pushFailure.
Proof. apply frames_push. Qed.

Lemma frames_fail_if b : frames (fail_if b).
Proof. destruct b; [apply frames_push|apply frames_skip]. Qed.

Lemma frame_saveGlobal c : frame c (saveGlobal c).
Proof. framed. Qed.

Lemma frames_checkPollution : frames checkPollution.
Proof.
  intros d c c' ok Hd. unfold checkPollution.
  apply (keeps_andThen (frame d)); [apply frames_fail_if..|].
  transitivity c; [done|apply frame_saveGlobal].
Qed.
End Frames.

#[export] Hint Resolve frames_push frames_pushFailure frames_expect frames_perform frames_skip frames_performs
  frames_fail_if frames_checkPollution frame_start frame_stop frame_saveGlobal : runner.

(** * Changes that count nothing *)

Definition counts (r : report) : bool :=
  match r with TestDone _ _ _ _ _ _ | Done _ _ _ => true | _ => false end.

(** Neither the depth nor the counts change, no end is reported, and nothing starts while
    there are more stops. *)
Record calm (c c' : config) : Prop := Calm {
  a_depth : depth c' = depth c;
  a_autorun : autorun c' = autorun c;
  a_stops : stops c -> stops c';
  a_stats : stats c' = stats c;
  a_moduleStats : is_Some (moduleStats c) -> is_Some (moduleStats c');
  a_reports : exists l, reports c' = reports c ++ l /\ forallb (fun r => negb (counts r)) l = true;
  a_faithful : faithful c -> faithful c'
}.

#[export] Instance calm_refl : Reflexive calm.
Proof. intros c. split; try done. exists []. by rewrite app_nil_r. Qed.

#[export] Instance calm_trans : Transitive calm.
Proof.
  intros a b c [D1 A1 P1 S1 M1 (l1 & R1 & B1) F1] [D2 A2 P2 S2 M2 (l2 & R2 & B2) F2].
  split; [congruence|congruence|auto|congruence|auto| |auto]. exists (l1 ++ l2).
  by rewrite R2, R1, <- app_assoc, forallb_app, B1, B2.
Qed.

Lemma frame_calm c c' : frame c c' -> calm c c'.
Proof.
  intros []. split; [done|done|done|done|by rewrite f_moduleStats0| |done].
  destruct f_reports0 as [l ->]. eexists. split; [reflexivity|]. by induction l.
Qed.

(** A change of no field of [calm], or reports that count nothing. *)
Ltac calmed l := intros; split;
  [done|done|done|done|first [done|intros _; eexists; reflexivity]
   |exists l; split; [|done]; unfold tell; cbn; unfold const;
    by rewrite ?app_nil_r, <- ?app_assoc
   |apply (faithful_silent _ _ l); [done| |done]; unfold tell; cbn; unfold const;
    by rewrite ?app_nil_r, <- ?app_assoc].

(** A test is made. *)
Definition made (e : option nat) (c : config) : config :=
  tell [Defined (S (count c))]
    (set_test (S (count c)) (fun _ => MkTest e []) (c <| count := S (count c) |>)).

Lemma logged_made n l m : logged n (l ++ [Defined m]) = if decide (m = n) then [] else logged n l.
Proof. unfold logged. by rewrite foldl_app. Qed.

Lemma calm_made c e : calm c (made e c).
Proof.
  split; try done; [exists [Defined (S (count c))]; by split|]. intros Hc n.
  change (reports (made e c)) with (reports c ++ [Defined (S (count c))]). rewrite logged_made.
  unfold made. change (the_test n (tell ?l ?d)) with (the_test n d). rewrite the_test_set.
  case_decide; [done|apply Hc].
Qed.

(** What [conclude] leaves as it is, whatever comes of it. *)
Lemma conclude_fields `{Page} s c :
  exists c' ok, conclude s c = Some (c', ok)
    /\ queue c' = queue c /\ trace c' = trace c /\ count c' = count c /\ autorun c' = autorun c
    /\ blocking c' = blocking c /\ semaphore c' = semaphore c /\ clock c' = clock c
    /\ depth c' = depth c /\ currentModuleTestEnvironment c' = currentModuleTestEnvironment c
    /\ pauses c' = pauses c /\ tests c' = tests c.
Proof.
  unfold conclude, andThen, add_stats. cbv beta.
  destruct (stats c) as [st|]; [|by exists c, false].
  match goal with |- context[moduleStats ?d] => change (moduleStats d) with (moduleStats c) end.
  destruct (moduleStats c); [|by eexists _, false].
  cbn [done_with mbind option_bind fst snd]. eexists _, true. split; [reflexivity|].
  unfold store_result. by destruct (shown && _ && _).
Qed.

(** What [done] does when the counts are there. *)
Lemma finished_spec `{Page} c st mst :
  stats c = Some st -> moduleStats c = Some mst ->
  exists c' l, finished c = Some (c', true) /\ stats c' = stats c
    /\ moduleStats c' = moduleStats c
    /\ reports c' = (reports c ++ l) ++ [Done (bad st) (all st - bad st) (all st)]
    /\ forallb (fun r => negb (counts r)) l = true /\ forallb silent l = true.
Proof.
  intros Es Em. unfold finished, andThen, last_module. cbn [done_with mbind option_bind fst snd].
  set (c1 := c <| autorun := true |>).
  change (moduleStats c1) with (moduleStats c). rewrite Em.
  destruct (truthy (currentModule c1)).
  - cbn [done_with mbind option_bind fst snd]. unfold report_end.
    change (stats (tell _ c1)) with (stats c). rewrite Es.
    eexists _, [_]. split; [reflexivity|]. by destruct (_ && _).
  - cbn [skip done_with mbind option_bind fst snd]. unfold report_end.
    change (stats (id c1)) with (stats c). rewrite Es.
    eexists _, []. split; [reflexivity|]. rewrite app_nil_r. by destruct (_ && _).
Qed.

(** What it leaves as it is in any case. *)
Lemma finished_fields `{Page} c :
  exists c' ok, finished c = Some (c', ok) /\ queue c' = queue c /\ semaphore c' = semaphore c
    /\ blocking c' = blocking c /\ autorun c' = true /\ pauses c' = pauses c /\ tests c' = tests c
    /\ (stats c = None -> ok = false /\ stats c' = None
        /\ exists l, reports c' = reports c ++ l /\ forallb (fun r => negb (counts r)) l = true
          /\ forallb silent l = true).
Proof.
  unfold finished, andThen, last_module. cbn [done_with mbind option_bind fst snd].
  set (c1 := c <| autorun := true |>).
  assert (forall c2 l, queue c2 = queue c -> semaphore c2 = semaphore c -> blocking c2 = blocking c ->
    autorun c2 = true -> pauses c2 = pauses c -> tests c2 = tests c -> stats c2 = stats c -> reports c2 = reports c ++ l ->
    forallb (fun r => negb (counts r)) l = true -> forallb silent l = true ->
    exists c' ok, report_end c2 = Some (c', ok) /\ queue c' = queue c /\ semaphore c' = semaphore c
    /\ blocking c' = blocking c /\ autorun c' = true /\ pauses c' = pauses c /\ tests c' = tests c
    /\ (stats c = None -> ok = false /\ stats c' = None
        /\ exists l, reports c' = reports c ++ l /\ forallb (fun r => negb (counts r)) l = true
          /\ forallb silent l = true))
    as Hend.
  { intros c2 l Hq Hs Hb Ha Hp Ht Hst Hr Hl Hl'. unfold report_end. rewrite Hst.
    destruct (stats c) as [st|] eqn:Es.
    - eexists _, true. split; [reflexivity|]. destruct (_ && _); done.
    - eexists c2, false. split; [reflexivity|]. split_and!; try done. intros _. split_and!; eauto. }
  destruct (truthy (currentModule c1)).
  - destruct (moduleStats c1) as [mst|]; cbn [throws done_with mbind option_bind fst snd].
    + by apply (Hend _ [module_done (currentModule c1) mst]).
    + eexists _, false. split; [reflexivity|]. split_and!; try done. intros Hn.
      split_and!; [done|done|]. exists []. by rewrite app_nil_r.
  - cbn [skip done_with mbind option_bind fst snd]. apply (Hend _ []); try done.
    by rewrite app_nil_r.
Qed.

Section Keeps.
Context `{Page} (I : config -> Prop).
Hypothesis I_calm : forall c c', calm c c' -> I c -> I c'.
Hypothesis I_conclude : forall s, keeps I (conclude s).

Lemma keeps_frames f : frames f -> keeps I f.
Proof. intros Hf c c' ok Hc E. eapply I_calm, Hc. apply frame_calm. by eapply (Hf c). Qed.

Lemma keeps_calm f : (forall c, calm c (f c)) -> keeps I (done_with f).
Proof. intros Hf. apply keeps_done. eauto. Qed.

Lemma keeps_change_module s : keeps I (change_module s).
Proof.
  intros c c' ok Hc. unfold change_module. destruct (negb _).
  - destruct (truthy (previousModule c)); [destruct (moduleStats c) eqn:E; [|by intros [= <- <-]]|];
      intros [= <- <-]; apply (I_calm c); try done.
    + calmed [module_done (previousModule c) s0; ModuleStart (module s)].
    + calmed [ModuleStart (module s)].
  - destruct (autorun c); intros [= <- <-]; [|done]. apply (I_calm c); [|done].
    calmed [ModuleStart (module s)].
Qed.

Lemma keeps_setup s : keeps I (do_setup s).
Proof.
  apply keeps_andThen; [apply keeps_change_module|]. apply keeps_andThen.
  - apply keeps_calm. intros c. cbn. destruct (pollution c); calmed [TestStart (testName s) (module s)].
  - destruct notrycatch; [|apply keeps_catch]; apply keeps_frames; auto with runner.
Qed.

Lemma keeps_run f s : keeps I f -> keeps I (do_run f s).
Proof.
  intros Hf. apply keeps_andThen.
  - apply keeps_calm. intros c. destruct (async s); [|calmed (@nil report)].
    transitivity (enter s c); [calmed (@nil report)|apply frame_calm; auto with runner].
  - destruct notrycatch; [done|]. apply keeps_catch; [done|]. apply keeps_andThen.
    + apply keeps_frames. auto with runner.
    + apply keeps_calm. intros c. apply frame_calm. cbn.
      destruct (blocking c); [|auto with runner].
      etransitivity; [apply frame_saveGlobal|auto with runner].
Qed.

Lemma keeps_teardown s : keeps I (do_teardown s).
Proof.
  apply keeps_andThen; [apply keeps_calm; calmed (@nil report)|]. cbn zeta.
  destruct notrycatch; repeat first [apply keeps_andThen|apply keeps_catch];
    apply keeps_frames; auto with runner.
Qed.

Lemma keeps_finish s : keeps I (do_finish s).
Proof.
  apply keeps_andThen; [apply keeps_calm; calmed (@nil report)|]. apply keeps_andThen; [|done].
  apply (keeps_look I (fun c => fail_if (miscounted (the_test (testNumber s) c)))).
  intros d. apply keeps_frames. auto with runner.
Qed.

Section Process.
Context (process : bool -> action).
Hypothesis process_keeps : forall last, keeps I (process last).

Lemma keeps_synchronize i last : keeps I (synchronize process i last).
Proof.
  intros c c' ok Hc. unfold synchronize.
  assert (I (c <| queue := queue c ++ [i] |>)) by (apply (I_calm c); [calmed (@nil report)|done]).
  destruct (_ && _); [by apply process_keeps|by intros [= <- <-]].
Qed.

Lemma keeps_queue_phases s : keeps I (queue_phases process s).
Proof. unfold queue_phases. repeat apply keeps_andThen; apply keeps_synchronize. Qed.

Lemma keeps_queue_test s : keeps I (queue_test process s).
Proof.
  apply keeps_andThen; [apply keeps_synchronize|]. intros c c' ok Hc.
  destruct (failed_before s c); [by apply keeps_queue_phases|by apply keeps_synchronize].
Qed.

Lemma keeps_QUnit_test n e a f b : keeps I (QUnit_test process n e a f b).
Proof.
  intros c c' ok Hc. unfold QUnit_test. cbn zeta. set (s := Settings _ _ _ _ _ _ _).
  pose proof (I_calm _ _ (calm_made c e) Hc) as H1. unfold made in H1.
  destruct (validTest s); [by apply keeps_queue_test|by intros [= <- <-]].
Qed.

Lemma keeps_run_cmds l : keeps I (run_cmds process l).
Proof.
  induction l as [|x l IH]; [apply keeps_skip|]. apply keeps_andThen; [|exact IH].
  destruct x as [a|m e|n e a f]; cbn [run_cmd].
  - apply keeps_frames. auto with runner.
  - apply keeps_calm. calmed (@nil report).
  - apply keeps_QUnit_test.
Qed.

Lemma keeps_exec i : keeps I (exec process i).
Proof.
  destruct i as [s|s|p s]; cbn [exec]; [apply keeps_skip|apply keeps_queue_phases|].
  apply keeps_andThen; [apply keeps_calm; calmed (@nil report)|]. destruct p.
  - apply keeps_setup.
  - apply keeps_run, keeps_run_cmds.
  - apply keeps_teardown.
  - apply keeps_finish.
Qed.

Lemma keeps_onerror : keeps I (onerror process).
Proof.
  intros c c' ok Hc. unfold onerror. destruct (current c).
  - by apply (keeps_frames pushFailure); [apply frames_push|].
  - by apply keeps_QUnit_test.
Qed.

Lemma calm_restart c :
  positive (semaphore c) = false ->
  calm c ((match timeout c with Some i => clearTimeout i c | None => c end) <| blocking := false |>).
Proof.
  intros Hp. destruct (timeout c);
    (split; [done|done| |done|done|by exists []; rewrite app_nil_r|done]);
    intros [Hs _]; (split; [done|]); intros Hp'; cbn in Hp'; congruence.
Qed.

Lemma calm_timed_out c : calm c (start 1 (note TimeUp (c <| semaphore := Num 1 |>))).
Proof.
  split; [done|done| |done|done| |done]; [|exists []; by rewrite app_nil_r].
  intros _. eapply stops_intro; [reflexivity| |done].
  match goal with |- context[open_stops (pauses ?d)] =>
    change (pauses d) with ((pauses c ++ [TimeUp]) ++ [Started 1]) end.
  by rewrite !open_stops_snoc.
Qed.

(** The events but the load, which sets the counts. *)
Lemma keeps_call e : e ≠ Load -> keeps I (call process e).
Proof.
  intros He. destruct e as [|i|l|]; cbn [call]; [done| | |].
  - intros c c' ok Hc. destruct (snd <$> _) as [t|]; [|by intros [= <- <-]].
    assert (I (clearTimeout i c)) as Hc1 by (apply (I_calm c); [calmed (@nil report)|done]).
    revert Hc1. generalize (clearTimeout i c). clear c Hc. intros c Hc. destruct t; cbn [fire].
    + unfold restart. destruct (positive (semaphore c)) eqn:Hp; [by intros [= <- <-]|]. apply process_keeps.
      apply (I_calm c); [by apply calm_restart|done].
    + by apply process_keeps.
    + revert c c' ok Hc. apply keeps_andThen; [apply keeps_frames; auto with runner|].
      apply keeps_calm, calm_timed_out.
  - apply keeps_run_cmds.
  - apply keeps_onerror.
Qed.
End Process.
End Keeps.

(** A family of invariants, kept by the loop and by what [process] does around it. *)
Section Loop.
Context `{Page} {X : Type} (I : X -> config -> Prop).
Hypothesis I_calm : forall x c c', calm c c' -> I x c -> I x c'.
Hypothesis I_conclude : forall x s, keeps (I x) (conclude s).
Hypothesis I_process : forall loop, (forall x last, keeps (I x) (loop last)) ->
  forall x last, keeps (I x) (process_with loop last).

Lemma keeps_loop fuel x last : keeps (I x) (loop fuel last).
Proof.
  revert x last. induction fuel as [|fuel IH]; intros x last c c' ok Hc; [done|].
  cbn [loop]. destruct (queue c) as [|i q]; [by intros [= <- <-]|].
  destruct (blocking c); [by intros [= <- <-]|]. destruct (late c).
  - intros [= <- <-]. apply (I_calm x c); [calmed (@nil report)|done].
  - apply (keeps_andThen (I x)); [apply keeps_exec; eauto|by apply IH|].
    apply (I_calm x c); [calmed (@nil report)|done].
Qed.

Lemma keeps_process fuel x last : keeps (I x) (process fuel last).
Proof. apply I_process. intros y l. apply keeps_loop. Qed.

Lemma keeps_handle fuel x e : e ≠ Load -> keeps (I x) (handle fuel e).
Proof.
  intros He. apply keeps_catch; [|apply keeps_onerror; eauto using keeps_process].
  apply keeps_call; eauto using keeps_process.
Qed.
End Loop.

Lemma keeps_process_with `{Page} (I : config -> Prop) loop last :
  (forall c n, I c -> I (c <| depth := n |>)) -> keeps I (loop last) -> keeps I finished ->
  keeps I (process_with loop last).
Proof.
  intros Hd Hl Hf. apply keeps_andThen; [apply keeps_done; auto|].
  apply keeps_andThen; [done|]. apply keeps_andThen; [apply keeps_done; auto|].
  intros c c' ok Hc. destruct (_ && _); [by apply Hf|by intros [= <- <-]].
Qed.

(** * After an uncaught exception the end is never reported *)

Definition is_done (r : report) : bool := match r with Done _ _ _ => true | _ => false end.
Definition dones (c : config) : nat := length (filter is_done (reports c)).

Lemma dones_app (l : list report) c c' :
  reports c' = reports c ++ l -> forallb (fun r => negb (is_done r)) l = true -> dones c' = dones c.
Proof.
  intros E Hl. unfold dones. rewrite E, filter_app, length_app.
  enough (filter is_done l = []) as -> by (cbn; lia). clear E.
  induction l as [|r l IH]; [done|]. cbn in Hl. apply andb_true_iff in Hl as [Hr Hl].
  rewrite filter_cons_False; [auto|]. intros Hd; by destruct r.
Qed.

(** At a depth of [d] at least; below it, the end was reported [k] times. *)
Definition deep (x : nat * nat) (c : config) : Prop :=
  (x.1 <= depth c)%nat /\ ((0 < x.1)%nat -> dones c = x.2).

Section Deep.
Context `{Page}.

Lemma deep_calm x c c' : calm c c' -> deep x c -> deep x c'.
Proof.
  intros [D _ _ _ _ (l & R & B) _] [Hd Hk]. split; [by rewrite D|]. intros Hx. rewrite <- Hk by done.
  apply (dones_app l); [done|]. clear R. induction l as [|r l IH]; [done|].
  cbn in *. apply andb_true_iff in B as [Hr B]. rewrite IH by done. by destruct r.
Qed.

Lemma deep_conclude x s : keeps (deep x) (conclude s).
Proof.
  apply keeps_andThen.
  - intros c c' ok [Hd Hk]. unfold add_stats. destruct (stats c); [|by intros [= <- <-]].
    cbn. destruct (moduleStats c); by intros [= <- <-].
  - apply keeps_done. intros c [Hd Hk]. cbn zeta. unfold store_result.
    set (r := TestDone _ _ _ _ _ _).
    destruct (_ && _); (split; [done|]; intros Hx; rewrite <- Hk by done;
      by apply (dones_app [r])).
Qed.

Lemma deep_process loop :
  (forall x last, keeps (deep x) (loop last)) ->
  forall x last, keeps (deep x) (process_with loop last).
Proof.
  intros Hloop [d k] last c c' ok [Hd Hk]. cbn in Hd, Hk. unfold process_with, andThen at 1.
  cbn [done_with mbind option_bind fst snd]. unfold andThen at 1.
  destruct (loop last _) as [[c1 ok1]|] eqn:E; [|done]. cbn [mbind option_bind fst snd].
  assert (deep (S d, dones c) c1) as [Hd1 Hk1].
  { eapply (Hloop (S d, dones c)); [|exact E]. split; [exact (le_n_S _ _ Hd)|done]. }
  cbn in Hd1, Hk1. specialize (Hk1 ltac:(lia)).
  assert (0 < d -> dones c1 = k)%nat as Hk2 by (intros Hx; rewrite Hk1; auto).
  destruct ok1; [|intros [= <- <-]; split; cbn; [lia|done]].
  set (c2 := c1 <| depth := pred (depth c1) |>). intros E1.
  assert (depth c2 = pred (depth c1)) as Hc2 by done.
  destruct (Nat.eq_dec d 0) as [->|Hne]; [split; cbn; lia|].
  change ((if last && negb (blocking c2) && bool_decide (queue c2 = [])
              && bool_decide (depth c2 = 0)%nat then finished c2 else skip c2)
          = Some (c', ok)) in E1.
  rewrite (bool_decide_false (depth c2 = 0)%nat), andb_false_r in E1 by lia.
  injection E1 as <- <-. split; cbn [fst snd]; [lia|done].
Qed.
End Deep.

(** The clock answers [l]. *)
Definition clocked (l : list bool) (c : config) : config := c <| clock := l |>.

Lemma calm_clocked l c : calm c (clocked l c).
Proof. calmed (@nil report). Qed.

(** The events of the browser, in any order, each with what the clock answers meanwhile. *)
Definition step `{Page} (c c' : config) : Prop :=
  exists fuel e l ok, handle fuel e (clocked l c) = Some (c', ok).

Lemma steps_keep `{Page} (I : config -> Prop) c c' :
  (forall l d, I d -> I (clocked l d)) -> (forall fuel e, keeps I (handle fuel e)) ->
  rtc step c c' -> I c -> I c'.
Proof.
  intros HC HI Hs. induction Hs as [d|d d' d'' (f & e & l & ok & Hh) _ IH]; [done|].
  intros Hd. apply IH. by apply (HI f e (clocked l d) d' ok); [apply HC|].
Qed.

Section NeverDone.
Context `{Page}.

(** The counts are there. *)
Definition loaded (_ : unit) (c : config) : Prop := is_Some (stats c) /\ is_Some (moduleStats c).

Lemma loaded_calm x c c' : calm c c' -> loaded x c -> loaded x c'.
Proof. intros [_ _ _ S M _ _] [H1 H2]. split; [by rewrite S|auto]. Qed.

Lemma loaded_conclude x s : keeps (loaded x) (conclude s).
Proof.
  apply keeps_andThen.
  - intros c c' ok [[st Es] [mst Em]]. unfold add_stats. rewrite Es. cbn. rewrite Em.
    intros [= <- <-]. by split; eexists.
  - apply keeps_done. intros c Hc. cbn zeta. unfold store_result. by destruct (_ && _).
Qed.

Lemma loaded_process loop :
  (forall x last, keeps (loaded x) (loop last)) ->
  forall x last, keeps (loaded x) (process_with loop last).
Proof.
  intros Hloop x last. apply keeps_process_with; [done|apply Hloop|].
  intros c c' ok [[st Es] [mst Em]].
  destruct (finished_spec c st mst Es Em) as (c1 & l & -> & S1 & M1 & _). intros [= <- <-].
  split; eexists; [rewrite S1; exact Es|rewrite M1; exact Em].
Qed.

(** An exception comes from the loop, and leaves the depth at one or more. *)
Lemma exception_deep fuel last c c' :
  loaded () c -> process fuel last c = Some (c', false) -> deep (S (depth c), dones c) c'.
Proof.
  intros Hc E. unfold process, process_with, andThen at 1 in E.
  cbn [done_with mbind option_bind fst snd] in E.
  unfold andThen at 1 in E. set (c0 := c <| depth := S (depth c) |>) in E.
  assert (deep (S (depth c), dones c) c0) as H0 by (split; [exact (le_n _)|done]).
  destruct (loop fuel last c0) as [[c1 ok1]|] eqn:E1; [|done].
  cbn [mbind option_bind fst snd] in E.
  pose proof (keeps_loop deep deep_calm deep_conclude deep_process _ _ _ _ _ _ H0 E1) as H1.
  destruct ok1; [|by injection E as <-]. exfalso.
  pose proof (keeps_loop loaded loaded_calm loaded_conclude loaded_process _ () _ c0 _ _ Hc E1)
    as L1.
  unfold andThen in E. cbn [done_with mbind option_bind fst snd] in E.
  set (c2 := c1 <| depth := pred (depth c1) |>) in E.
  revert E. destruct (_ && _); [|done].
  destruct L1 as [[st Es] [mst Em]].
  by destruct (finished_spec c2 st mst Es Em) as (c3 & l & -> & _).
Qed.

Lemma deep_handle x fuel e : keeps (deep x) (handle fuel e).
Proof.
  destruct e as [|i|l|];
    try (apply (keeps_handle deep deep_calm deep_conclude deep_process); discriminate).
  intros c c' ok Hc. cbn. intros [= <- <-]. unfold load. destruct Hc as [Hd Hk].
  set (c1 := tell [Begin] c). set (c2 := c1 <| stats := _ |> <| moduleStats := _ |> <| semaphore := _ |>
    <| autostart := _ |> <| blocking := _ |>).
  assert (deep x c2) as H2.
  { split; [done|]. intros Hx. rewrite <- Hk by done. by apply (dones_app [Begin]). }
  destruct (truthy _); [|done]. eapply deep_calm, H2. apply frame_calm, frame_start.
Qed.

(** C27. Once an exception has left [process] - with notrycatch those of the tests do - the
    end of the tests is never reported again, whatever the browser does afterwards, even
    when all the tests have run. *)
Theorem uncaught_never_done fuel last c c1 c2 :
  loaded () c -> process fuel last c = Some (c1, false) -> rtc step c1 c2 -> dones c2 = dones c.
Proof.
  intros Hc E Hs. apply exception_deep in E; [|done].
  enough (deep (S (depth c), dones c) c2) as [_ Hk] by (apply Hk; cbn; lia).
  eapply steps_keep; [|apply deep_handle|exact Hs|done].
  intros l d. apply deep_calm, calm_clocked.
Qed.
End NeverDone.

(** * The counts *)

(** What the tests reported so far: failed and all assertions. *)
Definition add_report (a : Z * Z) (r : report) : Z * Z :=
  match r with TestDone _ _ _ failed _ total => (a.1 + failed, a.2 + total)%Z | _ => a end.

Definition sums (l : list report) : Z * Z := foldl add_report (0, 0)%Z l.

Definition how_many (b : bool) (l : list bool) : Z := Z.of_nat (count_occ Bool.bool_dec l b).

(** A report after the reports [l]. *)
Definition true_report (l : list report) (r : report) : Prop :=
  match r with
  | TestDone n _ _ failed passed total =>
      failed = how_many false (logged n l) /\ passed = how_many true (logged n l)
      /\ total = (failed + passed)%Z
  | Done failed passed total =>
      failed = (sums l).1 /\ total = (sums l).2 /\ passed = (total - failed)%Z
  | _ => True
  end.

Definition all_true (l : list report) : Prop :=
  forall l1 r l2, l = l1 ++ r :: l2 -> true_report l1 r.

Lemma all_true_snoc l r : all_true l -> true_report l r -> all_true (l ++ [r]).
Proof.
  intros Hl Hr l1 r' l2 E.
  destruct (decide (l2 = [])) as [->|Hne].
  - apply app_inj_tail in E as [<- <-]. done.
  - destruct (exists_last Hne) as (m & x & ->).
    rewrite app_comm_cons, app_assoc in E. apply app_inj_tail in E as [-> _].
    by apply (Hl l1 r' m).
Qed.

Lemma sums_harmless l m :
  forallb (fun r => negb (counts r)) m = true -> sums (l ++ m) = sums l.
Proof.
  unfold sums. rewrite foldl_app. generalize (foldl add_report (0, 0)%Z l). clear l.
  induction m as [|r m IH]; intros a Hm; [done|]. cbn in *.
  apply andb_true_iff in Hm as [Hr Hm]. rewrite IH by done. by destruct r.
Qed.

Lemma all_true_harmless l m :
  all_true l -> forallb (fun r => negb (counts r)) m = true -> all_true (l ++ m).
Proof.
  revert l. induction m as [|r m IH]; intros l Hl Hm; [by rewrite app_nil_r|].
  cbn in Hm. apply andb_true_iff in Hm as [Hr Hm].
  change (r :: m) with ([r] ++ m). rewrite app_assoc. apply IH; [|done].
  apply all_true_snoc; [done|]. by destruct r.
Qed.

Definition tally (_ : unit) (c : config) : Prop :=
  sums (reports c) = match stats c with Some st => (bad st, all st) | None => (0, 0)%Z end
  /\ (is_Some (stats c) -> is_Some (moduleStats c))
  /\ all_true (reports c) /\ faithful c.

Section Tally.
Context `{Page}.

Lemma tally_calm x c c' : calm c c' -> tally x c -> tally x c'.
Proof.
  intros [_ _ _ S M (l & R & B) F] (T1 & T2 & T3 & T4). split; [|split; [|split]].
  - by rewrite R, sums_harmless, S.
  - rewrite S. auto.
  - rewrite R. by apply all_true_harmless.
  - auto.
Qed.

Lemma failures_count l : failures l = how_many false l.
Proof. unfold failures, how_many. f_equal. by induction l as [|[] l IH]; cbn; [|exact IH|rewrite <- IH]. Qed.

Lemma total_count l : total_of l = (how_many false l + how_many true l)%Z.
Proof. unfold total_of, how_many. induction l as [|[] l IH]; cbn -[Z.of_nat]; lia. Qed.

(** The state after [conclude]. *)
Lemma conclude_spec s c st mst :
  stats c = Some st -> moduleStats c = Some mst ->
  let l := assertions (the_test (testNumber s) c) in
  exists c', conclude s c = Some (c', true)
    /\ stats c' = Some (add_stat (total_of l) (failures l) st)
    /\ moduleStats c' = Some (add_stat (total_of l) (failures l) mst)
    /\ current c' = None
    /\ reports c' = reports c ++ [TestDone (testNumber s) (testName s) (module s) (failures l)
                                           (total_of l - failures l) (total_of l)].
Proof.
  intros Es Em l. destruct c. cbn in Es, Em. subst. eexists. split.
  - unfold conclude, andThen, add_stats, store_result. cbn. reflexivity.
  - cbn. subst l. cbn. by destruct (_ && _).
Qed.

Lemma tally_conclude x s : keeps (tally x) (conclude s).
Proof.
  intros c c' ok (T1 & T2 & T3 & T4) E.
  destruct (conclude_fields s c) as (c1 & ok1 & E1 & F). rewrite E in E1. injection E1 as <- <-.
  destruct F as (_ & _ & _ & _ & _ & _ & _ & _ & _ & _ & Ht).
  destruct (stats c) as [st|] eqn:Es.
  - destruct (T2 ltac:(by eexists)) as [mst Em].
    destruct (conclude_spec s c st mst Es Em) as (c2 & E2 & S1 & M1 & _ & R1).
    rewrite E in E2. injection E2 as <- _. cbn zeta in *. split; [|split; [|split]].
    + rewrite S1, R1. unfold sums in *. rewrite foldl_app, T1. cbn. f_equal; lia.
    + by rewrite M1.
    + rewrite R1. apply all_true_snoc; [done|]. cbn. rewrite T4, failures_count, total_count.
      split_and!; lia.
    + by eapply (faithful_silent c); [exact Ht|exact R1|done|].
  - unfold conclude, andThen, add_stats in E. rewrite Es in E. cbn in E. injection E as <- _.
    split; [by rewrite Es|]. by rewrite Es.
Qed.

Lemma tally_finished x : keeps (tally x) finished.
Proof.
  intros c c' ok (T1 & T2 & T3 & T4) E.
  destruct (finished_fields c) as (c1 & ok1 & E1 & _ & _ & _ & _ & _ & Ht & F).
  rewrite E in E1. injection E1 as <- <-. destruct (stats c) as [st|] eqn:Es.
  - destruct (T2 ltac:(by eexists)) as [mst Em].
    destruct (finished_spec c st mst Es Em) as (c2 & l & E2 & S1 & M1 & R1 & Hl & Hl').
    rewrite E in E2. injection E2 as <- _.
    assert (sums (reports c ++ l) = (bad st, all st)) as T5 by by rewrite sums_harmless.
    split; [|split; [|split]].
    + rewrite S1, Es, R1. unfold sums in *. by rewrite foldl_app, T5.
    + by rewrite M1, Em.
    + rewrite R1. apply all_true_snoc; [by apply all_true_harmless|]. cbn. by rewrite T5.
    + eapply (faithful_silent c); [exact Ht|by rewrite <- app_assoc in R1; exact R1| |done].
      by rewrite forallb_app, Hl'.
  - destruct (F eq_refl) as (_ & S1 & l & R1 & Hl & Hl'). split; [|split; [|split]].
    + by rewrite S1, R1, sums_harmless.
    + rewrite S1. by intros [? ?].
    + rewrite R1. by apply all_true_harmless.
    + eapply (faithful_silent c); [exact Ht|exact R1|done|done].
Qed.

Lemma tally_process loop :
  (forall x last, keeps (tally x) (loop last)) ->
  forall x last, keeps (tally x) (process_with loop last).
Proof.
  intros Hloop x last. apply keeps_process_with; [done|apply Hloop|apply tally_finished].
Qed.

Lemma tally_handle x fuel e : keeps (tally x) (handle fuel e).
Proof.
  destruct e as [|i|l|];
    try (apply (keeps_handle tally tally_calm tally_conclude tally_process); discriminate).
  intros c c' ok (T1 & T2 & T3 & T4). cbn. intros [= <- <-]. unfold load.
  set (c1 := tell [Begin] c). set (c2 := c1 <| stats := _ |> <| moduleStats := _ |> <| semaphore := _ |>
    <| autostart := _ |> <| blocking := _ |>).
  assert (tally x c2) as H2.
  { split; [|split; [|split]].
    - change (sums (reports c ++ [Begin])
        = (bad (default (Stat 0 0) (stats c)), all (default (Stat 0 0) (stats c)))).
      rewrite sums_harmless by done. rewrite T1. by destruct (stats c).
    - intros _. by eexists.
    - by apply (all_true_harmless _ [Begin]).
    - by apply (faithful_silent c _ [Begin]). }
  destruct (truthy _); [|done]. eapply tally_calm, H2. apply frame_calm, frame_start.
Qed.

(** C25. Whatever the tests and the browser do, every report of a test counts the
    assertions that failed and those that passed among what the test has logged since it was
    made, and all of them; and every report of the end has the sums of the reports of the
    tests before it. *)
Theorem reports_add_up c :
  rtc step config0 c ->
  forall l1 r l2, reports c = l1 ++ r :: l2 -> true_report l1 r.
Proof.
  intros Hs. enough (tally () c) as (_ & _ & T & _) by exact T.
  eapply (steps_keep (tally ())); [|apply tally_handle|exact Hs|].
  { intros l d. apply tally_calm, calm_clocked. }
  split; [done|]. split; [by intros [? ?]|]. split; [by intros [|] ? ? ?|done].
Qed.
End Tally.

(** * Stopped tests wait *)

Section Waits.
Context `{Page}.

(** The events after the page has loaded. *)
Definition later_step (c c' : config) : Prop :=
  exists fuel e l ok, e ≠ Load /\ handle fuel e (clocked l c) = Some (c', ok).

(** The queue is blocked, and the phases begun are [t]. *)
Definition blocked_at (t : list (phase * nat)) (c : config) : Prop :=
  blocking c = true /\ trace c = t.

Lemma blocked_frame t c c' : frame c c' -> blocked_at t c -> blocked_at t c'.
Proof. intros [] [H1 H2]. split; [auto|congruence]. Qed.

Lemma blocked_frames t f : frames f -> keeps (blocked_at t) f.
Proof. intros Hf c c' ok Hc E. eapply blocked_frame, Hc. by eapply (Hf c). Qed.

Lemma blocked_done t f :
  (forall c, trace (f c) = trace c) -> (forall c, blocking (f c) = blocking c) ->
  keeps (blocked_at t) (done_with f).
Proof. intros H1 H2. apply keeps_done. intros c [Hb Ht]. split; [by rewrite H2|by rewrite H1]. Qed.

Lemma blocked_synchronize process t i last : keeps (blocked_at t) (synchronize process i last).
Proof.
  intros c c' ok [Hb Ht]. unfold synchronize.
  change (blocking (c <| queue := queue c ++ [i] |>)) with (blocking c). rewrite Hb, andb_false_r.
  by intros [= <- <-].
Qed.

Lemma blocked_QUnit_test process t n e a f b :
  keeps (blocked_at t) (QUnit_test process n e a f b).
Proof.
  intros c c' ok Hc. unfold QUnit_test. destruct (validTest _); [|by intros [= <- <-]].
  apply keeps_andThen with (I := blocked_at t); [apply blocked_synchronize| |exact Hc].
  intros d d' ok' Hd. destruct (failed_before _ d); [|by apply blocked_synchronize].
  revert Hd. unfold queue_phases. repeat apply keeps_andThen; apply blocked_synchronize.
Qed.

Lemma blocked_run_cmds process t l : keeps (blocked_at t) (run_cmds process l).
Proof.
  induction l as [|x l IH]; [apply keeps_skip|]. apply keeps_andThen; [|exact IH].
  destruct x as [a|m e|n e a f]; cbn [run_cmd].
  - apply blocked_frames. auto with runner.
  - by apply blocked_done.
  - apply blocked_QUnit_test.
Qed.

Lemma blocked_loop t fuel last : keeps (blocked_at t) (loop fuel last).
Proof.
  intros c c' ok Hc. destruct fuel; [done|]. cbn. destruct (queue c); [by intros [= <- <-]|].
  pose proof (proj1 Hc) as ->. by intros [= <- <-].
Qed.

Lemma blocked_process t fuel last : keeps (blocked_at t) (process fuel last).
Proof.
  apply keeps_andThen; [by apply blocked_done|]. apply keeps_andThen; [apply blocked_loop|].
  apply keeps_andThen; [by apply blocked_done|]. intros c c' ok Hc.
  pose proof (proj1 Hc) as Hb. rewrite Hb. cbn. rewrite andb_false_r. by intros [= <- <-].
Qed.

Lemma blocked_onerror process t : keeps (blocked_at t) (onerror process).
Proof.
  intros c c' ok. unfold onerror. destruct (current c).
  - apply (blocked_frames t pushFailure), frames_push.
  - apply blocked_QUnit_test.
Qed.

Lemma stopped_fire t fuel i c c' ok :
  positive (semaphore c) = true -> blocked_at t c -> call (process fuel) (Fire i) c = Some (c', ok) ->
  blocked_at t c'.
Proof.
  intros Hp Hc. cbn [call]. destruct (snd <$> _) as [tm|]; [|by intros [= <- <-]].
  destruct tm as [|last|]; cbn [fire].
  - unfold restart. change (semaphore (clearTimeout i c)) with (semaphore c). rewrite Hp.
    by intros [= <- <-].
  - by apply blocked_process.
  - apply (keeps_andThen (blocked_at t)); [apply blocked_frames, frames_push| |done].
    apply keeps_done. intros d Hd. eapply blocked_frame; [apply frame_start|done].
Qed.

Lemma stops_handle fuel e : e ≠ Load -> keeps stops (handle fuel e).
Proof.
  apply (keeps_handle (fun _ : unit => stops)); try exact ().
  - by intros _ c c' [].
  - intros _ s c c' ok Hc E.
    destruct (conclude_fields s c) as (c1 & ok1 & E1 & _ & _ & _ & _ & Hb & Hs & _ & _ & _ & Hp & _).
    rewrite E in E1. injection E1 as <- <-. unfold stops. by rewrite Hb, Hs, Hp.
  - intros lp Hlp x last. apply keeps_process_with; [done|apply (Hlp ())|].
    intros c c' ok Hc. destruct (finished_fields c) as (c1 & ok1 & -> & _ & Hs & Hb & _ & Hp & _).
    intros [= <- <-]. unfold stops. by rewrite Hs, Hb, Hp.
Qed.

Lemma stops_load c : semaphore c = Unset -> pauses c = [] -> stops (load c).
Proof.
  intros Hs Hp. unfold load.
  match goal with |- context[if _ then start 1 ?d else ?d] => assert (stops d) as Hd end.
  { eapply (stops_intro _ 0%Z); [|by cbn; rewrite Hp|lia]. cbn. by rewrite Hs. }
  destruct (truthy _); [by apply stops_start|done].
Qed.

(** C24. After the page has loaded, while stops are open - each call of stop or start counts
    for the number it is given, starts too many count for nothing, and when a test's time is
    up one stop is open - no phase of any test begins, whatever timer fires, whatever runs
    or fails.  Stop and start are not called before. *)
Theorem stopped_tests_wait c0 c c' :
  semaphore c0 = Unset -> pauses c0 = [] -> rtc later_step (load c0) c ->
  0 < open_stops (pauses c) -> later_step c c' -> trace c' = trace c.
Proof.
  intros H0 H1 Hs Hp (fuel & e & l & ok & He & Hh). assert (stops c) as [Hm Hb].
  { pose proof (stops_load c0 H0 H1) as Hl. clear He Hh Hp H0 H1.
    induction Hs as [d|d d1 d2 (f & e1 & l1 & ok1 & He1 & Hh) _ IH]; [done|].
    apply IH. apply (stops_handle f e1 He1 (clocked l1 d) d1 ok1); [exact Hl|done]. }
  assert (positive (semaphore c) = true) as Hs'.
  { rewrite Hm. apply bool_decide_eq_true. lia. }
  assert (blocked_at (trace c) (clocked l c)) as Hc by (split; [by apply Hb|done]).
  unfold handle, try_catch in Hh.
  destruct (call (process fuel) e (clocked l c)) as [[c1 ok1]|] eqn:E; [|done].
  assert (blocked_at (trace c) c1) as Hc1.
  { destruct e as [|i|k|]; [done|by eapply stopped_fire, E|by eapply blocked_run_cmds, E|
      by eapply blocked_onerror, E]. }
  cbn in Hh. destruct ok1; [injection Hh as <- <-; apply Hc1|].
  by apply (blocked_onerror _ _ _ _ _ Hc1 Hh).
Qed.
End Waits.
