(* ===== verification/QunitRunnerOrder.v ===== *)
(** QunitRunnerOrder: the runner gets to the end of its queue and says so; the phases of
    the tests in their order; what [finish] counts. *)

From S2P Require Import Prelude QunitRunner QunitRunnerFacts.
From coqutil Require Import Datatypes.RecordSettersUsingExistingGetters.

(** * Every event is handled *)

(** What a command can put into the queue, and an item together with what it can. *)
Fixpoint cmd_weight (x : cmd) : nat :=
  match x with
  | Test _ _ _ l => 6 + sum_list_with cmd_weight l
  | _ => 0
  end.

Definition code (l : list cmd) : nat := sum_list_with cmd_weight l.

Definition item_weight (i : item) : nat :=
  match i with
  | Init _ => 1
  | Defer s => 5 + code (callback s)
  | Phase PRun s => 1 + code (callback s)
  | Phase _ _ => 1
  end.

Definition weight (c : config) : nat := sum_list_with item_weight (queue c).

(** With [process] good for less than [F], a call comes back and adds [n] at most. *)
Definition returns (F n : nat) (f : action) : Prop :=
  forall c, weight c + n < F -> exists c' ok, f c = Some (c', ok) /\ weight c' <= weight c + n.

Lemma returns_andThen F n m f g : returns F n f -> returns F m g -> returns F (n + m) (f >>> g).
Proof.
  intros Hf Hg c Hc. destruct (Hf c ltac:(lia)) as (c1 & ok1 & E1 & W1). unfold andThen.
  rewrite E1. cbn. destruct ok1.
  - destruct (Hg c1 ltac:(lia)) as (c2 & ok2 & E2 & W2). exists c2, ok2. split; [done|lia].
  - exists c1, false. split; [done|lia].
Qed.

Lemma returns_catch F n m f g :
  returns F n f -> returns F m g -> returns F (n + m) (try_catch f g).
Proof.
  intros Hf Hg c Hc. destruct (Hf c ltac:(lia)) as (c1 & ok1 & E1 & W1). unfold try_catch.
  rewrite E1. cbn. destruct ok1.
  - exists c1, true. split; [done|lia].
  - destruct (Hg c1 ltac:(lia)) as (c2 & ok2 & E2 & W2). exists c2, ok2. split; [done|lia].
Qed.

Lemma returns_mono F n m f : n <= m -> returns F n f -> returns F m f.
Proof.
  intros Hnm Hf c Hc. destruct (Hf c ltac:(lia)) as (c1 & ok1 & E1 & W1).
  exists c1, ok1. split; [done|lia].
Qed.

Lemma returns_from F n f c c1 :
  returns F n f -> queue c1 = queue c -> weight c + n < F ->
  exists c' ok, f c1 = Some (c', ok) /\ weight c' <= weight c + n.
Proof. intros Hf Hq. unfold weight at 1 3. rewrite <- Hq. apply Hf. Qed.

(** Calls that leave the queue alone. *)
Definition plain (f : action) : Prop :=
  forall c, exists c' ok, f c = Some (c', ok) /\ queue c' = queue c.

Lemma plain_returns F f : plain f -> returns F 0 f.
Proof.
  intros Hf c _. destruct (Hf c) as (c' & ok & E & Q). exists c', ok. split; [done|].
  unfold weight. rewrite Q. lia.
Qed.

Lemma plain_andThen f g : plain f -> plain g -> plain (f >>> g).
Proof.
  intros Hf Hg c. destruct (Hf c) as (c1 & ok1 & E1 & Q1). unfold andThen. rewrite E1. cbn.
  destruct ok1; [|by eauto]. destruct (Hg c1) as (c2 & ok2 & E2 & Q2).
  exists c2, ok2. split; [done|congruence].
Qed.

Lemma plain_catch f g : plain f -> plain g -> plain (try_catch f g).
Proof.
  intros Hf Hg c. destruct (Hf c) as (c1 & ok1 & E1 & Q1). unfold try_catch. rewrite E1. cbn.
  destruct ok1; [by eauto|]. destruct (Hg c1) as (c2 & ok2 & E2 & Q2).
  exists c2, ok2. split; [done|congruence].
Qed.

Lemma plain_done f : (forall c, queue (f c) = queue c) -> plain (done_with f).
Proof. intros Hf c. exists (f c), true. by split. Qed.

Lemma plain_look (f : config -> action) : (forall d, plain (f d)) -> plain (fun c => f c c).
Proof. intros Hf c. apply (Hf c c). Qed.

Lemma plain_skip : plain skip.
Proof. by apply plain_done. Qed.

#[export] Hint Resolve plain_andThen plain_catch plain_skip : runner.

Section Plain.
Context `{Page}.

Lemma queue_start n c : queue (start n c) = queue c.
Proof. apply f_queue, frame_start. Qed.

Lemma queue_stop n c : queue (stop n c) = queue c.
Proof. apply f_queue, frame_stop. Qed.

Lemma plain_push b : plain (push b).
Proof. intros c. unfold push. destruct (current c); by eexists _, _. Qed.

Lemma plain_pushFailure : plain pushFailure.
Proof. apply plain_push. Qed.

Lemma plain_perform a : plain (perform a).
Proof.
  destruct a; cbn [perform].
  - apply plain_push.
  - intros c. unfold expect. destruct (current c); by eexists _, _.
  - apply plain_done, queue_stop.
  - apply plain_done, queue_start.
  - intros c. by eexists _, _.
  - by apply plain_done.
  - by apply plain_done.
Qed.

Lemma plain_performs l : plain (performs l).
Proof.
  induction l as [|a l IH]; [apply plain_skip|]. apply plain_andThen; [apply plain_perform|exact IH].
Qed.

Lemma plain_fail_if b : plain (fail_if b).
Proof. destruct b; [apply plain_push|apply plain_skip]. Qed.

Lemma plain_checkPollution : plain checkPollution.
Proof.
  intros c. unfold checkPollution. apply (plain_andThen _ _ (plain_fail_if _) (plain_fail_if _) (saveGlobal c)).
Qed.

Lemma plain_change_module s : plain (change_module s).
Proof.
  intros c. unfold change_module. destruct (negb _).
  - destruct (truthy _); [destruct (moduleStats c)|]; by eexists _, _.
  - destruct (autorun c); by eexists _, _.
Qed.

#[local] Hint Resolve plain_pushFailure plain_performs plain_checkPollution plain_change_module
  : runner.

Lemma plain_setup s : plain (do_setup s).
Proof.
  unfold do_setup. apply plain_andThen; [auto with runner|]. apply plain_andThen.
  - apply plain_done. intros c. cbn. by destruct (pollution c).
  - cbn zeta. destruct notrycatch; auto with runner.
Qed.

Lemma plain_teardown s : plain (do_teardown s).
Proof.
  unfold do_teardown. apply plain_andThen; [by apply plain_done|]. cbn zeta.
  destruct notrycatch; auto with runner.
Qed.

Lemma plain_conclude s : plain (conclude s).
Proof. intros c. destruct (conclude_fields s c) as (c' & ok & E & Q & _). by exists c', ok. Qed.

Lemma plain_finish s : plain (do_finish s).
Proof.
  unfold do_finish. apply plain_andThen; [by apply plain_done|].
  apply plain_andThen; [|apply plain_conclude].
  apply (plain_look (fun c => fail_if (miscounted (the_test (testNumber s) c)))).
  intros d. apply plain_fail_if.
Qed.

Lemma plain_finished : plain finished.
Proof. intros c. destruct (finished_fields c) as (c' & ok & E & Q & _). by exists c', ok. Qed.
End Plain.

Section Returns.
Context `{Page}.

Section Process.
Context (process : bool -> action) (F : nat).
Hypothesis process_returns : forall last, returns F 0 (process last).

Lemma returns_synchronize i last : returns F (item_weight i) (synchronize process i last).
Proof.
  intros c Hc. unfold synchronize.
  assert (weight (c <| queue := queue c ++ [i] |>) = weight c + item_weight i) as Hw.
  { unfold weight. change (queue (c <| queue := queue c ++ [i] |>)) with (queue c ++ [i]).
    rewrite sum_list_with_app. cbn. lia. }
  destruct (_ && _).
  - destruct (process_returns last (c <| queue := queue c ++ [i] |>) ltac:(lia))
      as (c' & ok & E & W). exists c', ok. split; [done|lia].
  - eexists _, _. split; [reflexivity|]. unfold id. lia.
Qed.

Lemma returns_queue_phases s : returns F (4 + code (callback s)) (queue_phases process s).
Proof.
  unfold queue_phases.
  apply (returns_mono F (1 + ((1 + code (callback s)) + (1 + 1)))); [lia|].
  repeat apply returns_andThen.
  - apply (returns_synchronize (Phase PSetup s)).
  - apply (returns_synchronize (Phase PRun s)).
  - apply (returns_synchronize (Phase PTeardown s)).
  - apply (returns_synchronize (Phase PFinish s)).
Qed.

Lemma returns_queue_test s : returns F (6 + code (callback s)) (queue_test process s).
Proof.
  apply (returns_andThen F 1 (5 + code (callback s))); [apply (returns_synchronize (Init s))|].
  intros c Hc. destruct (failed_before s c).
  - apply (returns_mono F (4 + code (callback s))); [lia|apply returns_queue_phases|done].
  - by apply (returns_synchronize (Defer s)).
Qed.

Lemma returns_QUnit_test n e a l b : returns F (6 + code l) (QUnit_test process n e a l b).
Proof.
  intros c Hc. unfold QUnit_test. set (s := Settings _ _ _ _ _ _ _). set (c1 := tell [Defined _] _).
  destruct (validTest s).
  - by apply (returns_queue_test s c1).
  - exists c1, true. split; [done|]. change (weight c1) with (weight c). lia.
Qed.

Lemma returns_run_cmds l : returns F (code l) (run_cmds process l).
Proof.
  induction l as [|x l IH]; [apply plain_returns, plain_skip|].
  change (returns F (cmd_weight x + code l) (run_cmd process x >>> run_cmds process l)).
  apply returns_andThen; [|exact IH]. destruct x as [a|m e|n e a f]; cbn [run_cmd cmd_weight].
  - apply plain_returns, plain_perform.
  - by apply plain_returns, plain_done.
  - apply returns_QUnit_test.
Qed.

Lemma returns_run n f s : returns F n f -> returns F n (do_run f s).
Proof.
  intros Hf. apply (returns_andThen F 0 n).
  - apply plain_returns, plain_done. intros c. by destruct (async s); [exact (queue_stop 1 (enter s c))|].
  - destruct notrycatch; [done|]. apply (returns_mono F (n + 0)); [lia|].
    apply returns_catch; [done|]. apply plain_returns, plain_andThen; [apply plain_push|].
    apply plain_done. intros c. cbn. destruct (blocking c); [exact (queue_start 1 (saveGlobal c))|done].
Qed.

Lemma returns_exec i : returns F (pred (item_weight i)) (exec process i).
Proof.
  destruct i as [s|s|p s].
  - apply plain_returns, plain_skip.
  - apply returns_queue_phases.
  - cbn [exec]. apply (returns_andThen F 0); [by apply plain_returns, plain_done|].
    destruct p; cbn [item_weight pred].
    + apply plain_returns, plain_setup.
    + apply returns_run, returns_run_cmds.
    + apply plain_returns, plain_teardown.
    + apply plain_returns, plain_finish.
Qed.

Lemma returns_onerror : returns F 6 (onerror process).
Proof.
  intros c Hc. unfold onerror. destruct (current c).
  - apply (returns_mono F 0); [lia|apply plain_returns, plain_push|done].
  - by apply (returns_QUnit_test _ _ _ [Do (Assert false)]).
Qed.
End Process.
End Returns.

Section Handled.
Context `{Page}.

Lemma returns_process_with F loop last :
  returns F 0 (loop last) -> returns F 0 (process_with loop last).
Proof.
  intros Hl. apply (returns_andThen F 0 0); [by apply plain_returns, plain_done|].
  apply (returns_andThen F 0 0); [done|].
  apply (returns_andThen F 0 0); [by apply plain_returns, plain_done|].
  apply plain_returns. intros c. destruct (_ && _); [apply plain_finished|apply plain_skip].
Qed.

Lemma loop_returns fuel last : returns fuel 0 (loop fuel last).
Proof.
  revert last. induction fuel as [|fuel IH]; intros last c Hc; [lia|]. cbn [loop].
  destruct (queue c) as [|i q] eqn:Eq; [exists c, true; split; [done|lia]|].
  destruct (blocking c); [exists c, true; split; [done|lia]|].
  assert (weight c = item_weight i + sum_list_with item_weight q) as Hw
    by (unfold weight; by rewrite Eq).
  assert (0 < item_weight i) as Hi by (destruct i as [| |[]]; cbn; lia).
  destruct (late c); [eexists _, true; split; [reflexivity|]; unfold weight; cbn; lia|].
  set (c1 := c <| clock := _ |> <| queue := q |>).
  assert (weight c1 = sum_list_with item_weight q) as Hw1 by done.
  assert (returns fuel (pred (item_weight i) + 0)
            (exec (process_with (loop fuel)) i >>> loop fuel last)) as Hr.
  { apply returns_andThen; [|apply IH]. apply returns_exec. intros l.
    apply returns_process_with, IH. }
  destruct (Hr c1 ltac:(lia)) as (c' & ok & E & W). exists c', ok. split; [exact E|lia].
Qed.

Lemma process_returns fuel last : returns fuel 0 (process fuel last).
Proof. apply returns_process_with, loop_returns. Qed.

(** What an event can put into the queue. *)
Definition event_weight (e : event) : nat :=
  6 + match e with Callback l => code l | Error => 6 | _ => 0 end.

(** Every event is handled to its end, however the tests are nested and whatever they
    throw: with fuel for what is queued and what the event can queue, the call returns. *)
Theorem events_return fuel e c :
  weight c + event_weight e < fuel -> exists c' ok, handle fuel e c = Some (c', ok).
Proof.
  intros Hc.
  enough (returns fuel (event_weight e) (handle fuel e)) as Hr.
  { destruct (Hr c Hc) as (c' & ok & E & _). by exists c', ok. }
  unfold event_weight. rewrite Nat.add_comm.
  apply returns_catch; [|apply returns_onerror, process_returns].
  destruct e as [|i|l|]; cbn [call].
  - apply plain_returns, plain_done. intros d. unfold load.
    match goal with |- context[if _ then start 1 ?x else ?x] => change (queue d) with (queue x) end.
    destruct (truthy _); [apply queue_start|done].
  - intros d Hd. destruct (snd <$> _) as [t|]; [|exists d, true; split; [done|lia]].
    assert (returns fuel 0 (fire (process fuel) t)) as Ht.
    { destruct t; cbn [fire]; [|apply process_returns|].
      - intros c1 H1. unfold restart. destruct (positive _); [exists c1, true; split; [done|lia]|].
        pose proof (process_returns fuel true) as Hp. destruct (timeout c1) as [n|].
        + by apply (returns_from fuel 0 (process fuel true) c1).
        + by apply (returns_from fuel 0 (process fuel true) c1).
      - apply plain_returns, plain_andThen; [apply plain_push|].
        apply plain_done. intros c1. exact (queue_start 1 (note TimeUp (c1 <| semaphore := Num 1 |>))). }
    by apply (Ht (clearTimeout i d)).
  - apply returns_run_cmds, process_returns.
  - apply returns_onerror, process_returns.
Qed.
End Handled.

(** * The order of the phases *)

(** The numbers of tests whose phases are still to be queued, and the phases queued. *)
Definition deferred (q : list item) : list nat :=
  omap (fun i => match i with Defer s => Some (testNumber s) | _ => None end) q.

Definition queued (q : list item) : list (phase * nat) :=
  omap (fun i => match i with Phase p s => Some (p, testNumber s) | _ => None end) q.

Definition all_phases (n : nat) : list (phase * nat) :=
  [(PSetup, n); (PRun, n); (PTeardown, n); (PFinish, n)].

(** The phases begun and queued are those of the tests [ts], each once. *)
Definition ordered (ts : list nat) (c : config) : Prop :=
  trace c ++ queued (queue c) = concat (map all_phases ts)
  /\ NoDup (ts ++ deferred (queue c))
  /\ Forall (fun n => n <= count c) (ts ++ deferred (queue c)).

(** Before the first end of the tests. *)
Definition first_time (c : config) : Prop := autorun c = false /\ exists ts, ordered ts c.

(** The fields the order is about. *)
Record still (c c' : config) : Prop := Still {
  s_queue : queue c' = queue c;
  s_trace : trace c' = trace c;
  s_count : count c' = count c;
  s_autorun : autorun c' = autorun c
}.

Definition stills (f : action) : Prop := forall d, keeps (still d) f.

#[export] Instance still_trans : Transitive still.
Proof. intros a b c [] []. split; congruence. Qed.

Lemma frame_still c c' : frame c c' -> still c c'.
Proof. by intros []. Qed.

Lemma stills_frames f : frames f -> stills f.
Proof.
  intros Hf d c c' ok Hd E. transitivity c; [done|]. by apply frame_still, (Hf c c c' ok).
Qed.

Lemma stills_done f : (forall c, still c (f c)) -> stills (done_with f).
Proof. intros Hf d. apply keeps_done. intros c Hc. by transitivity c. Qed.

Lemma first_still c c' : still c c' -> first_time c -> first_time c'.
Proof.
  intros [] [Ha [ts Hts]]. split; [congruence|]. exists ts. unfold ordered.
  by rewrite s_queue0, s_trace0, s_count0.
Qed.

Lemma first_stills f : stills f -> keeps first_time f.
Proof. intros Hf c c' ok Hc E. eapply first_still, Hc. by apply (Hf c c c' ok). Qed.

Section Order.
Context `{Page}.

Lemma stills_change_module s : stills (change_module s).
Proof.
  intros d c c' ok Hd. unfold change_module. destruct (negb _).
  - destruct (truthy _); [destruct (moduleStats c)|]; intros [= <- <-]; destruct Hd; by split.
  - destruct (autorun c); intros [= <- <-]; destruct Hd; by split.
Qed.

Lemma stills_setup s : stills (do_setup s).
Proof.
  intros d. apply keeps_andThen; [apply stills_change_module|]. apply keeps_andThen.
  - apply stills_done. intros c. cbn. by destruct (pollution c).
  - destruct notrycatch; [|apply keeps_catch]; apply stills_frames; auto with runner.
Qed.

Lemma stills_teardown s : stills (do_teardown s).
Proof.
  intros d. apply keeps_andThen; [by apply stills_done|]. cbn zeta.
  destruct notrycatch; repeat first [apply keeps_andThen|apply keeps_catch];
    apply stills_frames; auto with runner.
Qed.

Lemma stills_conclude s : stills (conclude s).
Proof.
  intros d c c' ok Hd E.
  destruct (conclude_fields s c) as (c1 & ok1 & E1 & Q & T & C & A & _).
  rewrite E in E1. injection E1 as <- <-. destruct Hd. split; congruence.
Qed.

Lemma stills_finish s : stills (do_finish s).
Proof.
  intros d. apply keeps_andThen; [by apply stills_done|].
  apply keeps_andThen; [|apply stills_conclude].
  apply (keeps_look _ (fun c => fail_if (miscounted (the_test (testNumber s) c)))).
  intros e. apply stills_frames. auto with runner.
Qed.

Section Process.
Context (process : bool -> action).

Definition enqueue (l : list item) (c : config) : config := c <| queue := queue c ++ l |>.

Lemma enqueue_app l m c : enqueue m (enqueue l c) = enqueue (l ++ m) c.
Proof. destruct c. unfold enqueue. cbn. unfold const. by rewrite app_assoc. Qed.

Lemma synchronize_waits i last c :
  autorun c = false -> synchronize process i last c = Some (enqueue [i] c, true).
Proof.
  intros Ha. unfold synchronize. change (autorun (c <| queue := queue c ++ [i] |>)) with (autorun c).
  by rewrite Ha.
Qed.

Definition phases_of (s : settings) : list item :=
  [Phase PSetup s; Phase PRun s; Phase PTeardown s; Phase PFinish s].

Lemma queue_phases_waits s c :
  autorun c = false -> queue_phases process s c = Some (enqueue (phases_of s) c, true).
Proof.
  intros Ha. unfold queue_phases, andThen.
  repeat (rewrite synchronize_waits by done; cbn [mbind option_bind fst snd]).
  by rewrite !enqueue_app.
Qed.

(** What a test puts into the queue when it is defined. *)
Lemma queue_test_waits s c :
  autorun c = false ->
  exists l, queue_test process s c = Some (enqueue (Init s :: l) c, true)
    /\ (l = phases_of s \/ l = [Defer s]).
Proof.
  intros Ha. unfold queue_test, andThen. rewrite synchronize_waits by done.
  cbn [mbind option_bind fst snd]. destruct (failed_before _ _).
  - rewrite queue_phases_waits by done. rewrite enqueue_app. eauto.
  - rewrite synchronize_waits by done. rewrite enqueue_app. eauto.
Qed.

Lemma deferred_app q r : deferred (q ++ r) = deferred q ++ deferred r.
Proof. apply omap_app. Qed.

Lemma queued_app q r : queued (q ++ r) = queued q ++ queued r.
Proof. apply omap_app. Qed.

(** The phases of a test that was not queued come behind the others. *)
Lemma ordered_phases ts s c :
  ordered ts c -> testNumber s ∉ ts ++ deferred (queue c) -> testNumber s <= count c ->
  ordered (ts ++ [testNumber s]) (enqueue (phases_of s) c).
Proof.
  intros (H1 & H2 & H3) Hn Hc. unfold ordered.
  change (queue (enqueue (phases_of s) c)) with (queue c ++ phases_of s).
  change (trace (enqueue (phases_of s) c)) with (trace c).
  change (count (enqueue (phases_of s) c)) with (count c).
  rewrite queued_app, deferred_app. change (deferred (phases_of s)) with (@nil nat).
  rewrite app_nil_r.
  assert ((ts ++ [testNumber s]) ++ deferred (queue c) ≡ₚ testNumber s :: ts ++ deferred (queue c))
    as Hp by (rewrite <- app_assoc; cbn; by rewrite Permutation_middle).
  split; [|split].
  - by rewrite app_assoc, H1, map_app, concat_app.
  - rewrite Hp. by constructor.
  - rewrite Hp. by constructor.
Qed.

Lemma ordered_defer ts s c :
  ordered ts c -> testNumber s ∉ ts ++ deferred (queue c) -> testNumber s <= count c ->
  ordered ts (enqueue [Defer s] c).
Proof.
  intros (H1 & H2 & H3) Hn Hc. unfold ordered.
  change (queue (enqueue [Defer s] c)) with (queue c ++ [Defer s]).
  change (trace (enqueue [Defer s] c)) with (trace c).
  change (count (enqueue [Defer s] c)) with (count c).
  rewrite queued_app, deferred_app. change (deferred [Defer s]) with [testNumber s].
  assert (ts ++ deferred (queue c) ++ [testNumber s] ≡ₚ testNumber s :: ts ++ deferred (queue c))
    as Hp by (rewrite app_assoc; by rewrite (Permutation_app_comm _ [_])).
  split; [|split].
  - change (queued [Defer s]) with (@nil (phase * nat)). by rewrite app_nil_r.
  - rewrite Hp. by constructor.
  - rewrite Hp. by constructor.
Qed.

Lemma ordered_init ts s c : ordered ts c -> ordered ts (enqueue [Init s] c).
Proof.
  unfold ordered. change (queue (enqueue [Init s] c)) with (queue c ++ [Init s]).
  rewrite queued_app, deferred_app. cbn [queued deferred omap list_omap]. by rewrite !app_nil_r.
Qed.

Lemma first_QUnit_test n e a l b : keeps first_time (QUnit_test process n e a l b).
Proof.
  intros c c' ok [Ha [ts Hts]]. unfold QUnit_test. set (s := Settings _ _ _ _ _ _ _).
  set (c1 := tell [Defined _] _).
  assert (testNumber s ∉ ts ++ deferred (queue c)) as Hn.
  { destruct Hts as (_ & _ & H3). intros Hin. rewrite Forall_forall in H3.
    specialize (H3 _ Hin). cbn in H3. lia. }
  assert (ordered ts c1) as H1.
  { destruct Hts as (H1 & H2 & H3). split; [done|]. split; [done|].
    eapply Forall_impl; [exact H3|]. intros m Hm. cbn in Hm. change (m <= S (count c)). lia. }
  destruct (validTest s); [|intros [= <- <-]; split; eauto].
  destruct (queue_test_waits s c1 Ha) as (q & -> & Hq). intros [= <- <-].
  split; [done|]. change (Init s :: q) with ([Init s] ++ q). rewrite <- enqueue_app.
  assert (testNumber s ∉ ts ++ deferred (queue (enqueue [Init s] c1))) as Hn'.
  { change (queue (enqueue [Init s] c1)) with (queue c ++ [Init s]).
    rewrite deferred_app. cbn [deferred omap list_omap]. by rewrite app_nil_r. }
  apply (ordered_init _ s) in H1.
  destruct Hq as [-> | ->].
  - eexists. by apply ordered_phases.
  - eexists. by apply ordered_defer.
Qed.

Lemma first_run_cmds l : keeps first_time (run_cmds process l).
Proof.
  induction l as [|x l IH]; [apply keeps_skip|]. apply keeps_andThen; [|exact IH].
  destruct x as [a|m e|n e a f]; cbn [run_cmd].
  - apply first_stills, stills_frames. auto with runner.
  - apply first_stills. by apply stills_done.
  - apply first_QUnit_test.
Qed.

Lemma first_run s : keeps first_time (do_run (run_cmds process (callback s)) s).
Proof.
  apply keeps_andThen.
  - apply first_stills, stills_done. intros c. destruct (async s); [|done].
    apply (still_trans _ (enter s c)); [done|apply frame_still, frame_stop].
  - destruct notrycatch; [apply first_run_cmds|]. apply keeps_catch; [apply first_run_cmds|].
    apply first_stills. intros d. apply keeps_andThen; [apply stills_frames; auto with runner|].
    apply stills_done. intros c. cbn. destruct (blocking c); [|done].
    apply (still_trans _ (saveGlobal c)); [done|apply frame_still, frame_start].
Qed.

(** An item that leaves the queue, with its effect. *)
Lemma first_exec i q c c' ok :
  first_time c -> queue c = i :: q -> exec process i (c <| queue := q |>) = Some (c', ok) ->
  first_time c'.
Proof.
  intros [Ha [ts (H1 & H2 & H3)]] Hq E. rewrite Hq in *. set (c1 := c <| queue := q |>) in E.
  destruct i as [s|s|p s].
  - injection E as <- <-. split; [done|]. by exists ts.
  - cbn [exec] in E. rewrite queue_phases_waits in E by done. injection E as <- <-.
    split; [done|]. exists (ts ++ [testNumber s]).
    change (deferred (Defer s :: q)) with (testNumber s :: deferred q) in H2, H3.
    rewrite <- Permutation_middle in H2, H3.
    apply NoDup_cons in H2 as [Hn H2]. apply Forall_cons in H3 as [Hs H3].
    by apply ordered_phases.
  - assert (first_time (begin_phase p s c1)) as Hf.
    { split; [done|]. exists ts. split; [|by split].
      change (trace (begin_phase p s c1)) with (trace c ++ [(p, testNumber s)]).
      rewrite <- app_assoc. exact H1. }
    cbn [exec] in E. unfold andThen in E. cbn [done_with mbind option_bind fst snd] in E.
    destruct p.
    + by apply (first_stills _ (stills_setup s) _ _ _ Hf E).
    + by apply (first_run s _ _ _ Hf E).
    + by apply (first_stills _ (stills_teardown s) _ _ _ Hf E).
    + by apply (first_stills _ (stills_finish s) _ _ _ Hf E).
Qed.
End Process.
End Order.

Section InOrder.
Context `{Page}.

Definition in_order (c : config) : Prop := autorun c = true \/ first_time c.

Lemma finished_autorun c c' ok : finished c = Some (c', ok) -> autorun c' = true.
Proof.
  intros E. destruct (finished_fields c) as (c1 & ok1 & E1 & _ & _ & _ & A & _).
  rewrite E in E1. by injection E1 as <- <-.
Qed.

(** Once true, autorun stays true. *)
Definition again (_ : unit) (c : config) : Prop := autorun c = true.

Lemma again_calm x c c' : calm c c' -> again x c -> again x c'.
Proof. intros [] Hc. unfold again in *. congruence. Qed.

Lemma again_conclude x s : keeps (again x) (conclude s).
Proof. intros c c' ok Hc E. pose proof (stills_conclude s c c c' ok) as []; [done..|]. unfold again. congruence. Qed.

Lemma again_process loop :
  (forall x last, keeps (again x) (loop last)) ->
  forall x last, keeps (again x) (process_with loop last).
Proof.
  intros Hl x last. apply keeps_process_with; [done|apply Hl|].
  intros c c' ok _. apply finished_autorun.
Qed.

Lemma again_onerror fuel : keeps (again ()) (onerror (process fuel)).
Proof.
  apply keeps_onerror; eauto using again_calm, again_conclude. intros last.
  apply (keeps_process again); eauto using again_calm, again_conclude, again_process.
Qed.

Lemma autorun_load c : autorun (load c) = autorun c.
Proof.
  unfold load. match goal with |- context[if _ then start 1 ?x else ?x] => set (d := x) end.
  destruct (truthy _); [|done]. by rewrite (f_autorun _ _ (frame_start 1 d)).
Qed.

Lemma again_handle fuel e : keeps (again ()) (handle fuel e).
Proof.
  destruct e as [|i|l|].
  2-4: apply (keeps_handle again again_calm again_conclude again_process); discriminate.
  intros c c' ok Hc [= <- <-]. unfold again. by rewrite autorun_load.
Qed.

Lemma first_loop fuel last : keeps first_time (loop fuel last).
Proof.
  induction fuel as [|fuel IH]; intros c c' ok Hc; [done|]. cbn [loop].
  destruct (queue c) as [|i q] eqn:Eq; [by intros [= <- <-]|].
  destruct (blocking c); [by intros [= <- <-]|].
  destruct (late c); [by intros [= <- <-]|]. unfold andThen.
  set (c1 := c <| clock := drop 1 (clock c) |>).
  destruct (exec _ i _) as [[c2 ok2]|] eqn:E; [|done]. cbn [mbind option_bind fst snd].
  assert (first_time c2) as H2 by by apply (first_exec (process_with (loop fuel)) i q c1 c2 ok2).
  destruct ok2; [by apply IH|by intros [= <- <-]].
Qed.

Lemma in_order_first f : keeps first_time f -> forall c c' ok,
  first_time c -> f c = Some (c', ok) -> in_order c'.
Proof. intros Hf c c' ok Hc E. right. by apply (Hf c c' ok). Qed.

Lemma process_in_order fuel last c c' ok :
  first_time c -> process fuel last c = Some (c', ok) -> in_order c'.
Proof.
  intros Hc. unfold process, process_with, andThen. cbn [done_with mbind option_bind fst snd].
  destruct (loop fuel last _) as [[c1 ok1]|] eqn:E1; [|done].
  assert (first_time c1) as H1 by (eapply first_loop, E1; by destruct Hc).
  cbn. destruct ok1; [|intros [= <- <-]; by right].
  destruct (_ && _); [|intros [= <- <-]; by right].
  intros E2. left. by apply finished_autorun in E2.
Qed.

Lemma onerror_first process : keeps first_time (onerror process).
Proof.
  intros c c' ok. unfold onerror. destruct (current c).
  - apply first_stills, stills_frames, frames_push.
  - apply first_QUnit_test.
Qed.

Lemma load_first c : first_time c -> first_time (load c).
Proof.
  intros Hc. unfold load.
  match goal with |- context[if _ then start 1 ?x else ?x] => set (d := x) end.
  assert (first_time d) as Hd by exact Hc.
  destruct (truthy _); [|done]. eapply first_still, Hd. apply frame_still, frame_start.
Qed.

Lemma call_in_order fuel e c c' ok :
  first_time c -> call (process fuel) e c = Some (c', ok) -> in_order c'.
Proof.
  intros Hc. destruct e as [|i|l|]; cbn [call].
  - intros [= <- <-]. right. by apply load_first.
  - destruct (snd <$> _) as [t|]; [|intros [= <- <-]; by right].
    assert (first_time (clearTimeout i c)) as H1 by exact Hc. revert H1.
    generalize (clearTimeout i c). clear Hc c. intros c Hc. destruct t; cbn [fire].
    + unfold restart. destruct (positive _); [intros [= <- <-]; by right|].
      apply process_in_order. by destruct (timeout c).
    + by apply process_in_order.
    + apply in_order_first; [|done]. apply first_stills. intros d.
      apply keeps_andThen; [apply stills_frames; auto with runner|]. apply stills_done.
      intros c1. apply (still_trans _ (note TimeUp (c1 <| semaphore := Num 1 |>))); [done|].
      apply frame_still, frame_start.
  - by apply in_order_first; [apply first_run_cmds|].
  - by apply in_order_first; [apply onerror_first|].
Qed.

Lemma handle_in_order fuel e : keeps in_order (handle fuel e).
Proof.
  intros c c' ok [Ha|Hc] E; [left; by apply (again_handle fuel e c c' ok)|].
  unfold handle, try_catch in E.
  destruct (call (process fuel) e c) as [[c1 ok1]|] eqn:E1; [|done]. cbn in E.
  pose proof (call_in_order _ _ _ _ _ Hc E1) as H1. destruct ok1; [by injection E as <- <-|].
  destruct H1 as [Ha|H1].
  - left. by apply (again_onerror fuel c1 c' ok).
  - right. by apply (onerror_first _ _ _ _ H1 E).
Qed.

(** C23. Until the end of the tests is first reported, the phases begun - setup, run,
    teardown and finish - are those of one test after the other, whole, in this order and
    each once: no test is mixed with another, whatever stops, throws or is deferred. *)
Theorem phases_in_order c :
  rtc step config0 c -> autorun c = false ->
  exists ts, NoDup ts /\ trace c `prefix_of` concat (map all_phases ts).
Proof.
  intros Hs Ha. enough (in_order c) as [Ha'|[_ (ts & H1 & H2 & _)]]; [congruence| |].
  - exists ts. apply NoDup_app in H2 as [H2 _]. split; [done|].
    rewrite <- H1. by apply prefix_app_r.
  - eapply steps_keep; [|apply handle_in_order|exact Hs|]; [by intros|]. right. split; [done|].
    exists []. split; [done|]. split; constructor.
Qed.
End InOrder.
