(* ===== verification/QunitRunnerEnd.v ===== *)
(** QunitRunnerEnd: tests that do not wait all run, and their end is reported once; the
    verdict of a test; and concrete runs, with what goes wrong in some of them. *)

From S2P Require Import Prelude QunitRunner QunitRunnerFacts QunitRunnerOrder.
From coqutil Require Import Datatypes.RecordSettersUsingExistingGetters.

(** * Tests that do not wait *)

Definition waits_not (a : act) : bool := match a with Stop _ => false | _ => true end.

Definition env_waits_not (e : env) : bool :=
  forallb waits_not (setup e) && forallb waits_not (teardown e).

(** Neither stop nor asyncTest, here or in the tests inside. *)
Fixpoint sync (x : cmd) : bool :=
  match x with
  | Do a => waits_not a
  | Module _ e => env_waits_not e
  | Test _ _ async l => negb async && forallb sync l
  end.

Definition sync_settings (s : settings) : bool :=
  negb (async s) && forallb sync (callback s) && env_waits_not (moduleTestEnvironment s).

Definition sync_item (i : item) : bool :=
  match i with Init s | Defer s | Phase _ s => sync_settings s end.

(** Loaded, at the depth [d], with such tests and a patient clock; the end was reported
    [k] times. *)
Record ready (d k : nat) (c : config) : Prop := Ready {
  r_autorun : autorun c = false;
  r_blocking : blocking c = false;
  r_clock : clock c = [];
  r_depth : depth c = d;
  r_loaded : loaded () c;
  r_queue : forallb sync_item (queue c) = true;
  r_env : env_waits_not (currentModuleTestEnvironment c) = true;
  r_dones : dones c = k
}.

(** Such a state with the fields of [ready] the same, but for harmless reports. *)
Record alike (c c' : config) : Prop := Alike {
  k_calm : calm c c';
  k_still : still c c';
  k_blocking : blocking c' = blocking c;
  k_clock : clock c' = clock c;
  k_env : currentModuleTestEnvironment c' = currentModuleTestEnvironment c;
  k_current : current c' = current c
}.

Lemma dones_harmless (l : list report) c c' :
  reports c' = reports c ++ l -> forallb (fun r => negb (counts r)) l = true -> dones c' = dones c.
Proof.
  intros E Hl. apply (dones_app l); [done|]. clear E. induction l as [|r l IH]; [done|].
  cbn in *. apply andb_true_iff in Hl as [Hr Hl]. rewrite IH by done. by destruct r.
Qed.

Lemma ready_like d k c c' :
  calm c c' -> still c c' -> blocking c' = blocking c -> clock c' = clock c ->
  currentModuleTestEnvironment c' = currentModuleTestEnvironment c ->
  ready d k c -> ready d k c'.
Proof.
  intros Hc [] Hb Hcl He []. pose proof (loaded_calm () _ _ Hc r_loaded0).
  destruct Hc. destruct a_reports as (l & R & B). split; try congruence; try done.
  rewrite <- r_dones0. by apply (dones_harmless l).
Qed.

Lemma ready_alike d k c c' : alike c c' -> ready d k c -> ready d k c'.
Proof. intros []. by apply ready_like. Qed.

#[export] Instance alike_trans : Transitive alike.
Proof.
  intros a b c [] []. split; try congruence; [by transitivity b|].
  by apply (still_trans _ b).
Qed.

(** In the middle of a test. *)
Definition running (d k i : nat) (c : config) : Prop := ready d k c /\ current c = Some i.

Lemma running_alike d k i c c' : alike c c' -> running d k i c -> running d k i c'.
Proof. intros H [H1 H2]. split; [by eapply ready_alike|]. destruct H. congruence. Qed.

Section Running.
Context `{Page}.

Lemma alike_frame c c' :
  frame c c' -> blocking c' = blocking c ->
  currentModuleTestEnvironment c' = currentModuleTestEnvironment c -> alike c c'.
Proof.
  intros Hf Hb He. split; [by apply frame_calm|by apply frame_still|done|by destruct Hf|done|
    by destruct Hf].
Qed.

Lemma alike_start n c : alike c (start n c).
Proof.
  apply alike_frame; [apply frame_start|..]; unfold start, setTimeout;
    destruct (positive _), (add_sem _ _); try case_bool_decide; done.
Qed.

Lemma alike_saveGlobal c : alike c (saveGlobal c).
Proof. by apply alike_frame; [apply frame_saveGlobal|..]. Qed.

(** An assertion during a test. *)
Lemma push_running d k i b c :
  running d k i c -> exists c', push b c = Some (c', true) /\ running d k i c'.
Proof.
  intros Hc. destruct (push b c) as [[c' ok]|] eqn:E;
    [|destruct (plain_push b c) as (? & ? & E' & _); congruence].
  pose proof (frames_push b c c c' ok (reflexivity c) E) as Hf.
  unfold push in E. rewrite (proj2 Hc) in E. injection E as <- <-. eexists. split; [reflexivity|].
  eapply running_alike, Hc. by apply alike_frame.
Qed.

Lemma perform_running d k i a :
  waits_not a = true -> keeps (running d k i) (perform a).
Proof.
  intros Ha c c' ok Hc E. pose proof (frames_perform a c c c' ok (reflexivity c) E) as Hf.
  eapply running_alike, Hc. apply alike_frame; [done|..]; clear Hf; destruct a; cbn in E;
    unfold push, expect in *; try (destruct (current c)); try (by injection E as <- <-);
    try done; injection E as <- <-; by destruct (alike_start count c).
Qed.

Lemma performs_running d k i l :
  forallb waits_not l = true -> keeps (running d k i) (performs l).
Proof.
  induction l as [|a l IH]; intros Hl; [apply keeps_skip|]. cbn in Hl.
  apply andb_true_iff in Hl as [Ha Hl]. apply keeps_andThen; [by apply perform_running|by apply IH].
Qed.

(** A call that comes back without an exception. *)
Definition fine (I J : config -> Prop) (f : action) : Prop :=
  forall c c' ok, I c -> f c = Some (c', ok) -> ok = true /\ J c'.

Lemma fine_andThen I J K f g : fine I J f -> fine J K g -> fine I K (f >>> g).
Proof.
  intros Hf Hg c c' ok Hc. unfold andThen. destruct (f c) as [[c1 ok1]|] eqn:E; [|done].
  destruct (Hf c c1 ok1 Hc E) as [-> H1]. by apply Hg.
Qed.

Lemma fine_catch I J f g : keeps I f -> (forall c, I c -> J c) -> fine I J g ->
  fine I J (try_catch f g).
Proof.
  intros Hf HJ Hg c c' ok Hc. unfold try_catch. destruct (f c) as [[c1 ok1]|] eqn:E; [|done].
  cbn. destruct ok1; [intros [= <- <-]; eauto|]. apply Hg. by apply (Hf c c1 false).
Qed.

Lemma fine_done (I J : config -> Prop) f : (forall c, I c -> J (f c)) -> fine I J (done_with f).
Proof. intros Hf c c' ok Hc [= <- <-]. auto. Qed.

Lemma fine_push d k i b : fine (running d k i) (running d k i) (push b).
Proof.
  intros c c' ok Hc E. destruct (push_running d k i b c Hc) as (c1 & E1 & H1).
  rewrite E in E1. by injection E1 as -> ->.
Qed.

Lemma fine_fail_if d k i b : fine (running d k i) (running d k i) (fail_if b).
Proof. destruct b; [apply fine_push|by apply fine_done]. Qed.

Lemma fine_checkPollution d k i : fine (running d k i) (running d k i) checkPollution.
Proof.
  intros c c' ok Hc. unfold checkPollution. cbn zeta.
  apply (fine_andThen _ _ _ _ _ (fine_fail_if d k i _) (fine_fail_if d k i _)).
  by eapply running_alike, Hc; apply alike_saveGlobal.
Qed.

Lemma fine_hook d k i l :
  notrycatch = false -> forallb waits_not l = true ->
  fine (running d k i) (running d k i) (try_catch (performs l) pushFailure).
Proof.
  intros _ Hl. apply fine_catch; [by apply performs_running|done|apply fine_push].
Qed.

Lemma fine_change_module d k s : fine (ready d k) (ready d k) (change_module s).
Proof.
  intros c c' ok Hc. unfold change_module. destruct (r_loaded _ _ _ Hc) as [_ [mst Em]].
  rewrite Em, (r_autorun _ _ _ Hc). destruct (negb _); [|by intros [= <- <-]].
  destruct (truthy _); intros [= <- <-]; (split; [done|]); (eapply ready_like; [..|exact Hc]);
    try done.
  - calmed [module_done (previousModule c) mst; ModuleStart (module s)].
  - calmed [ModuleStart (module s)].
Qed.

Lemma enter_running d k s c : ready d k c -> running d k (testNumber s) (enter s c).
Proof. intros Hc. split; [|done]. eapply ready_like; [..|exact Hc]; try done. calmed (@nil report). Qed.

Lemma fine_setup d k s :
  notrycatch = false -> env_waits_not (moduleTestEnvironment s) = true ->
  fine (ready d k) (ready d k) (do_setup s).
Proof.
  intros Hn He. apply andb_true_iff in He as [He _].
  apply (fine_andThen _ (ready d k)); [apply fine_change_module|].
  apply (fine_andThen _ (running d k (testNumber s))).
  - apply fine_done. intros c Hc. cbn zeta. apply (enter_running _ _ s) in Hc.
    set (c1 := tell _ _).
    assert (running d k (testNumber s) c1) as H1.
    { eapply running_alike, Hc. split; try done. calmed [TestStart (testName s) (module s)]. }
    destruct (pollution c1); [done|]. eapply running_alike, H1. apply alike_saveGlobal.
  - cbn zeta. rewrite Hn. intros c c' ok Hc E.
    destruct (fine_hook d k _ _ Hn He c c' ok Hc E) as [-> []]. done.
Qed.

Lemma fine_teardown d k s :
  notrycatch = false -> env_waits_not (moduleTestEnvironment s) = true ->
  fine (ready d k) (ready d k) (do_teardown s).
Proof.
  intros Hn He. apply andb_true_iff in He as [_ He].
  apply (fine_andThen _ (running d k (testNumber s))).
  - apply fine_done. apply enter_running.
  - cbn zeta. rewrite Hn. intros c c' ok Hc E.
    destruct (fine_andThen _ _ _ _ _ (fine_hook d k _ _ Hn He) (fine_checkPollution d k _)
                c c' ok Hc E) as [-> []]. done.
Qed.

Lemma fine_conclude d k s : fine (ready d k) (ready d k) (conclude s).
Proof.
  intros c c' ok [Ha Hb Hcl Hd [[st Es] [mst Em]] Hq He Hk] E.
  destruct (conclude_fields s c) as (c1 & ok1 & E1 & F1 & _ & _ & F2 & F3 & _ & F4 & F5 & F6 & _ & _).
  destruct (conclude_spec s c st mst Es Em) as (c2 & E2 & S2 & M2 & _ & R2).
  rewrite E in E1, E2. injection E1 as <- <-. injection E2 as -> ->. split; [done|].
  split; try congruence.
  - split; by eexists.
  - rewrite <- Hk. eapply dones_app; [exact R2|done].
Qed.

Lemma fine_finish d k s : fine (ready d k) (ready d k) (do_finish s).
Proof.
  apply (fine_andThen _ (running d k (testNumber s))); [apply fine_done, enter_running|].
  apply (fine_andThen _ (ready d k)); [|apply fine_conclude].
  intros c c' ok Hc E. destruct (fine_fail_if d k _ _ c c' ok Hc E) as [-> []]. done.
Qed.

Lemma ready_enqueue d k l c :
  forallb sync_item l = true -> ready d k c -> ready d k (enqueue l c).
Proof.
  intros Hl []. split; try done. change (queue (enqueue l c)) with (queue c ++ l).
  by rewrite forallb_app, r_queue0.
Qed.

Lemma sync_phases s : sync_settings s = true -> forallb sync_item (phases_of s) = true.
Proof. intros Hs. cbn. by rewrite Hs. Qed.

Lemma ready_made d k e c : ready d k c -> ready d k (made e c).
Proof.
  intros []. split; try done. rewrite <- r_dones0.
  by apply (dones_app [Defined (S (count c))]).
Qed.

Lemma QUnit_test_running process d k i n e l b :
  forallb sync l = true -> keeps (running d k i) (QUnit_test process n e false l b).
Proof.
  intros Hl c c' ok [Hc Hi]. unfold QUnit_test. set (s := Settings _ _ _ _ _ _ _).
  set (c1 := tell [Defined _] _).
  assert (sync_settings s = true) as Hs.
  { unfold sync_settings. cbn. by rewrite Hl, (r_env _ _ _ Hc). }
  assert (ready d k c1) as H1 by (by apply ready_made).
  destruct (validTest s); [|by intros [= <- <-]].
  destruct (queue_test_waits process s c1 (r_autorun _ _ _ H1)) as (q & -> & Hq).
  intros [= <- <-]. split; [|done]. apply ready_enqueue; [|done].
  cbn. rewrite Hs. destruct Hq as [-> | ->]; cbn; by rewrite Hs.
Qed.

Lemma run_cmds_running process d k i l :
  forallb sync l = true -> keeps (running d k i) (run_cmds process l).
Proof.
  induction l as [|x l IH]; intros Hl; [apply keeps_skip|]. cbn in Hl.
  apply andb_true_iff in Hl as [Hx Hl]. apply keeps_andThen; [|by apply IH].
  destruct x as [a|m e|n e a f]; cbn [run_cmd]; cbn in Hx.
  - by apply perform_running.
  - apply keeps_done. intros c [[] Hi]. by split.
  - apply andb_true_iff in Hx as [Ha Hf]. destruct a; [done|]. by apply QUnit_test_running.
Qed.

Lemma fine_run process d k s :
  notrycatch = false -> sync_settings s = true ->
  fine (ready d k) (ready d k) (do_run (run_cmds process (callback s)) s).
Proof.
  intros Hn Hs. unfold sync_settings in Hs. rewrite !andb_true_iff in Hs. destruct Hs as [[Ha Hl] He].
  apply (fine_andThen _ (running d k (testNumber s))).
  - apply fine_done. intros c Hc. destruct (async s); [done|]. by apply enter_running.
  - rewrite Hn. apply fine_catch; [by apply run_cmds_running|by intros c []|].
    apply (fine_andThen _ (running d k (testNumber s))); [apply fine_push|].
    apply fine_done. intros c Hc. apply (running_alike _ _ _ _ _ (alike_saveGlobal c)) in Hc.
    cbn zeta. destruct Hc as [Hc _]. by rewrite (r_blocking _ _ _ Hc).
Qed.

Lemma fine_exec process d k i :
  notrycatch = false -> sync_item i = true -> fine (ready d k) (ready d k) (exec process i).
Proof.
  intros Hn Hi. destruct i as [s|s|p s]; cbn [exec]; cbn in Hi.
  - by apply fine_done.
  - intros c c' ok Hc. rewrite queue_phases_waits by apply Hc. intros [= <- <-].
    split; [done|]. apply ready_enqueue; [by apply sync_phases|done].
  - apply (fine_andThen _ (ready d k)).
    + apply fine_done. intros c []. by split.
    + assert (env_waits_not (moduleTestEnvironment s) = true) as He
        by (by apply andb_true_iff in Hi as [_ Hi]).
      destruct p; [by apply fine_setup|by apply fine_run|by apply fine_teardown|apply fine_finish].
Qed.

Lemma ready_prompt d k c : ready d k c -> late c = false.
Proof.
  intros Hc. unfold late. destruct (r_loaded _ _ _ Hc) as [[st ->] _]. by rewrite (r_clock _ _ _ Hc).
Qed.

(** The first item leaves the queue. *)
Lemma ready_taken d k c i q :
  ready d k c -> queue c = i :: q ->
  ready d k (c <| clock := drop 1 (clock c) |> <| queue := q |>).
Proof.
  intros Hc Eq. destruct Hc. rewrite Eq in r_queue0. apply andb_true_iff in r_queue0 as [_ Hq].
  split; try done. change (drop 1 (clock c) = []). by rewrite r_clock0.
Qed.

Lemma fine_loop fuel last d k :
  notrycatch = false ->
  fine (ready d k) (fun c => ready d k c /\ queue c = []) (loop fuel last).
Proof.
  intros Hn. induction fuel as [|fuel IH]; intros c c' ok Hc; [done|]. cbn [loop].
  destruct (queue c) as [|i q] eqn:Eq; [by intros [= <- <-]|].
  rewrite (r_blocking _ _ _ Hc), (ready_prompt _ _ _ Hc).
  pose proof (r_queue _ _ _ Hc) as Hq. rewrite Eq in Hq. cbn in Hq.
  apply andb_true_iff in Hq as [Hi Hq].
  apply (fine_andThen _ _ _ _ _ (fine_exec _ d k i Hn Hi) IH). by apply (ready_taken _ _ _ i).
Qed.

End Running.
(** * What the tests log *)

(** What the code of a test logs: its assertions, and a failure for an exception, which ends
    it. *)
Fixpoint outcomes (l : list cmd) : list bool :=
  match l with
  | [] => []
  | Do (Assert b) :: l => b :: outcomes l
  | Do Throw :: _ => [false]
  | _ :: l => outcomes l
  end.

Definition outcome (p : phase) (s : settings) : list bool :=
  match p with
  | PSetup => outcomes (map Do (setup (moduleTestEnvironment s)))
  | PRun => outcomes (callback s)
  | PTeardown => outcomes (map Do (teardown (moduleTestEnvironment s)))
  | PFinish => []
  end.

(** The failures a phase may add: for globals that are new or gone, and for a wrong number of
    assertions. *)
Definition slack (p : phase) : nat := match p with PTeardown => 2 | PFinish => 1 | _ => 0 end.

(** What the queue holds of the test [n]. *)
Definition is_of (n : nat) (i : item) : bool :=
  match i with Init _ => false | Defer s | Phase _ s => bool_decide (testNumber s = n) end.

Definition left_of (n : nat) (q : list item) : list item := filter (is_of n) q.

(** The test is in the queue, and has not begun. *)
Definition waiting (s : settings) (c : config) : Prop :=
  testNumber s <= count c
  /\ (left_of (testNumber s) (queue c) = [Defer s]
      \/ left_of (testNumber s) (queue c) = phases_of s).

Section Logs.
Context `{Page} (n : nat).

(** Nothing of the test [n] is queued, and it logs [l]. *)
Record passes (l : list bool) (c c' : config) : Prop := Passes {
  p_count : count c <= count c';
  p_left : left_of n (queue c') = left_of n (queue c);
  p_logged : logged n (reports c') = logged n (reports c) ++ l
}.

Lemma passes_trans l m a b c : passes l a b -> passes m b c -> passes (l ++ m) a c.
Proof. intros [] []. split; [lia|congruence|]. by rewrite p_logged1, p_logged0, <- app_assoc. Qed.

Lemma passes_silent l c c' :
  queue c' = queue c -> count c' = count c -> reports c' = reports c ++ l ->
  forallb silent l = true -> passes [] c c'.
Proof. intros Hq Hn Hr Hl. split; [lia|by rewrite Hq|]. by rewrite Hr, logged_silent, app_nil_r. Qed.

Definition fit (c : config) : Prop := autorun c = false /\ loaded () c /\ n <= count c.
Definition busy (m : nat) (c : config) : Prop := fit c /\ current c = Some m.

(** Such a call comes back, and the test [n] logs [l]. *)
Definition gives (I : config -> Prop) (f : action) (l : list bool) (J : config -> Prop) : Prop :=
  forall c c' ok, I c -> f c = Some (c', ok) -> ok = true /\ passes l c c' /\ J c'.

Lemma gives_andThen I J K f g l m :
  gives I f l J -> gives J g m K -> gives I (f >>> g) (l ++ m) K.
Proof.
  intros Hf Hg c c' ok Hc. unfold andThen. destruct (f c) as [[c1 ok1]|] eqn:E; [|done].
  destruct (Hf c c1 ok1 Hc E) as (-> & P1 & H1). cbn. intros E2.
  destruct (Hg c1 c' ok H1 E2) as (-> & P2 & H2). split_and!; try done. by eapply passes_trans.
Qed.

Lemma on_app m l k : on m n (l ++ k) = on m n l ++ on m n k.
Proof. unfold on. by case_decide. Qed.

(** A call within the frame that logs [l]. *)
Lemma frame_passes m l c c' :
  frame c c' -> reports c' = reports c ++ map (Log m) l -> busy m c ->
  passes (on m n l) c c' /\ busy m c'.
Proof.
  intros [] Hr [[Ha [[Hs Hm] Hn]] Hc]. split.
  - split; [by rewrite f_count|by rewrite f_queue|by rewrite Hr, logged_logs].
  - split; [|congruence]. split; [congruence|]. split; [|by rewrite f_count].
    split; [by rewrite f_stats|by rewrite f_moduleStats].
Qed.

Lemma push_gives m b : gives (busy m) (push b) (on m n [b]) (busy m).
Proof.
  intros c c' ok Hc E. pose proof (frames_push b c c c' ok (reflexivity c) E) as Hf.
  unfold push in E. rewrite (proj2 Hc) in E. injection E as <- <-.
  split; [done|]. by apply (frame_passes m [b] c).
Qed.

Lemma reports_start k c : reports (start k c) = reports c.
Proof.
  unfold start, setTimeout. destruct (positive _); [done|].
  destruct (add_sem _ _); try case_bool_decide; done.
Qed.

Lemma reports_stop k c : reports (stop k c) = reports c.
Proof. unfold stop. destruct testTimeout; [destruct (timeout _)|]; done. Qed.

(** An action that neither asserts nor throws. *)
Lemma perform_gives m a :
  match a with Assert _ | Throw => False | _ => True end ->
  gives (busy m) (perform a) [] (busy m).
Proof.
  intros Ha c c' ok Hc E. pose proof (frames_perform a c c c' ok (reflexivity c) E) as Hf.
  assert (ok = true /\ reports c' = reports c ++ map (Log m) []) as [-> Hr].
  { rewrite app_nil_r. destruct a; try done; cbn in E; unfold expect in E;
      rewrite ?(proj2 Hc) in E; injection E as <- <-; (split; [done|]);
      auto using reports_start, reports_stop. }
  split; [done|]. destruct (frame_passes m [] c c' Hf Hr Hc) as [Hp Hb]. split; [|done].
  revert Hp. unfold on. by case_decide.
Qed.

Lemma passes_enqueue k c : left_of n k = [] -> passes [] c (enqueue k c).
Proof.
  intros Hk. split; [done| |by rewrite app_nil_r].
  change (queue (enqueue k c)) with (queue c ++ k). unfold left_of in *.
  by rewrite filter_app, Hk, app_nil_r.
Qed.

Lemma passes_made e c : n <= count c -> passes [] c (made e c).
Proof.
  intros Hn. split; [exact (Nat.le_succ_diag_r _)|done|].
  change (reports (made e c)) with (reports c ++ [Defined (S (count c))]).
  rewrite logged_made, decide_False by lia. by rewrite app_nil_r.
Qed.

Lemma QUnit_test_gives process m t e a l b : gives (busy m) (QUnit_test process t e a l b) [] (busy m).
Proof.
  intros c c' ok [[Ha [Hl Hn]] Hc]. unfold QUnit_test. cbn zeta. set (s := Settings _ _ _ _ _ _ _).
  fold (made e c). pose proof (passes_made e c Hn) as Hp.
  assert (busy m (made e c)) as Hb.
  { split; [split; [done|split; [done|]]|done]. destruct Hp. lia. }
  destruct (validTest s); [|by intros [= <- <-]].
  destruct (queue_test_waits process s (made e c) Ha) as (q & -> & Hq). intros [= <- <-].
  assert (left_of n (Init s :: q) = []) as Hq'.
  { assert (testNumber s ≠ n) by (cbn; lia). unfold left_of.
    destruct Hq as [-> | ->]; cbn; by rewrite !bool_decide_false by done. }
  split; [done|]. split; [|by destruct Hb as [[? [? ?]] ?]].
  apply (passes_trans [] [] _ (made e c)); [done|by apply passes_enqueue].
Qed.

(** The code of a test, up to an exception. *)
Lemma cmds_give process m h l :
  gives (busy m) h (on m n [false]) (busy m) ->
  gives (busy m) (try_catch (run_cmds process l) h) (on m n (outcomes l)) (busy m).
Proof.
  intros Hh. assert (on m n [] = []) as H0 by (unfold on; by case_decide).
  induction l as [|x l IH]; intros c c' ok Hc.
  { intros [= <- <-]. cbn [outcomes]. rewrite H0. split_and!; try done. by apply (passes_silent []); rewrite ?app_nil_r. }
  change (try_catch (run_cmds process (x :: l)) h c)
    with (try_catch (run_cmd process x >>> run_cmds process l) h c).
  unfold try_catch, andThen. destruct (run_cmd process x c) as [[c1 ok1]|] eqn:E; [|done]. cbn.
  assert (forall k, ok1 = true -> passes (on m n k) c c1 -> busy m c1 ->
    outcomes (x :: l) = k ++ outcomes l ->
    (r ← (r ← Some (c1, ok1); if snd r : bool then run_cmds process l (fst r) else Some r);
      if snd r : bool then Some r else h (fst r)) = Some (c', ok) ->
    ok = true /\ passes (on m n (outcomes (x :: l))) c c' /\ busy m c') as Hgo.
  { intros k -> Hp Hb -> E1. destruct (IH c1 c' ok Hb E1) as (-> & P2 & B2).
    rewrite on_app. split_and!; try done. by eapply passes_trans. }
  destruct x as [a|t e|t e a f]; cbn [run_cmd] in E.
  - pose proof (perform_gives m a) as Ha.
    destruct a; try (destruct (Ha Logic.I c c1 ok1 Hc E) as (-> & P & B);
      apply (Hgo []); by rewrite ?H0).
    + destruct (push_gives m result c c1 ok1 Hc E) as (-> & P & B). by apply (Hgo [result]).
    + cbn in E. injection E as <- <-. by apply Hh.
  - injection E as <- <-. apply (Hgo []); try done. rewrite H0.
    by apply (passes_silent []); rewrite ?app_nil_r.
  - destruct (QUnit_test_gives process m t e a f false c c1 ok1 Hc E) as (-> & P & B).
    apply (Hgo []); by rewrite ?H0.
Qed.

Lemma performs_cmds process l : performs l = run_cmds process (map Do l).
Proof. induction l as [|a l IH]; [done|]. cbn. unfold performs in IH. by rewrite IH. Qed.

Lemma hook_gives m l :
  gives (busy m) (try_catch (performs l) pushFailure) (on m n (outcomes (map Do l))) (busy m).
Proof.
  rewrite (performs_cmds (fun _ => skip)). apply cmds_give, (push_gives m false).
Qed.

(** A call after which the state is busy with the test, or about to leave it. *)
Lemma on_nil m : on m n [] = [].
Proof. unfold on. by case_decide. Qed.

Lemma passes_same c c' :
  queue c' = queue c -> count c' = count c -> reports c' = reports c -> passes [] c c'.
Proof. intros Hq Hn Hr. apply (passes_silent []); try done. by rewrite app_nil_r. Qed.

Lemma passes_refl c : passes [] c c.
Proof. by apply passes_same. Qed.

Lemma passes_first l a b c : passes [] a b -> passes l b c -> passes l a c.
Proof. apply (passes_trans []). Qed.

Lemma passes_last l a b c : passes l a b -> passes [] b c -> passes l a c.
Proof. rewrite <- (app_nil_r l) at 2. apply (passes_trans l []). Qed.

Lemma enter_busy s c : fit c -> passes [] c (enter s c) /\ busy (testNumber s) (enter s c).
Proof. intros Hc. split; [by apply passes_same|]. by split. Qed.

(** Changes of the frame that log nothing. *)
Lemma frame_quiet m c c' : frame c c' -> reports c' = reports c -> busy m c ->
  passes [] c c' /\ busy m c'.
Proof.
  intros Hf Hr. rewrite <- (on_nil m). apply frame_passes; [done|]. by rewrite app_nil_r.
Qed.

Lemma setup_gives s :
  notrycatch = false ->
  gives fit (do_setup s) (on (testNumber s) n (outcome PSetup s)) fit.
Proof.
  intros Hn c c' ok Hc. unfold do_setup. rewrite Hn. cbn zeta.
  unfold andThen at 1. destruct (change_module s c) as [[c1 ok1]|] eqn:E1; [|done].
  assert (ok1 = true /\ passes [] c c1 /\ fit c1) as (-> & P1 & H1).
  { destruct Hc as [Ha [[Hs [mst Hm]] Hl]]. unfold change_module in E1. rewrite Ha, Hm in E1.
    destruct (negb _); [destruct (truthy _)|]; injection E1 as <- <-;
      (split; [done|split; [|split; [done|split; [|done]]; split; [done|by eexists]]]).
    - by apply (passes_silent [module_done (previousModule c) mst; ModuleStart (module s)]);
        [..|cbn; unfold const; rewrite <- app_assoc|].
    - by apply (passes_silent [ModuleStart (module s)]).
    - apply passes_refl. }
  cbn [mbind option_bind fst snd]. unfold andThen. cbn [done_with mbind option_bind fst snd].
  set (c2 := match pollution _ with None => _ | Some _ => _ end). intros E.
  assert (passes [] c1 c2 /\ busy (testNumber s) c2) as [P2 H2].
  { subst c2. split.
    - apply (passes_silent [TestStart (testName s) (module s)]); try done;
        by destruct (pollution _).
    - by destruct (pollution _). }
  destruct (hook_gives _ _ _ _ _ H2 E) as (-> & P3 & H3 & _). split_and!; try done.
  by apply (passes_first _ _ c1), (passes_first _ _ c2).
Qed.

Lemma run_gives process s :
  notrycatch = false -> async s = false ->
  gives fit (do_run (run_cmds process (callback s)) s)
    (on (testNumber s) n (outcome PRun s)) fit.
Proof.
  intros Hn Ha c c' ok Hc. unfold do_run. rewrite Hn, Ha. unfold andThen at 1.
  cbn [done_with mbind option_bind fst snd]. intros E.
  destruct (enter_busy s c Hc) as [P1 H1].
  eapply cmds_give in E as (-> & P2 & H2 & _); [|clear E|exact H1].
  - split_and!; try done. by apply (passes_first _ _ (enter s c)).
  - rewrite <- (app_nil_r (on _ _ _)). apply (gives_andThen _ (busy (testNumber s)));
      [apply push_gives|].
    intros d d' ok' Hd [= <- <-]. split; [done|].
    assert (frame d (saveGlobal d)) as Hf by apply frame_saveGlobal.
    cbn zeta. change (blocking (saveGlobal d)) with (blocking d).
    destruct (blocking d); [|by apply frame_quiet]. apply frame_quiet; try done.
    + transitivity (saveGlobal d); [exact Hf|apply frame_start].
    + by rewrite reports_start.
Qed.

(** At most [k] failures more. *)
Definition slips (m k : nat) (f : action) : Prop :=
  forall c c' ok, busy m c -> f c = Some (c', ok) ->
  exists j, j <= k /\ ok = true /\ passes (on m n (replicate j false)) c c' /\ busy m c'.

Lemma fail_if_slips m b : slips m 1 (fail_if b).
Proof.
  intros c c' ok Hc E. destruct b.
  - destruct (push_gives m false c c' ok Hc E) as (-> & P & B). by exists 1.
  - injection E as <- <-. exists 0. split_and!; try done; [lia|]. rewrite on_nil. apply passes_refl.
Qed.

Lemma slips_andThen m j k f g : slips m j f -> slips m k g -> slips m (j + k) (f >>> g).
Proof.
  intros Hf Hg c c' ok Hc. unfold andThen. destruct (f c) as [[c1 ok1]|] eqn:E; [|done].
  destruct (Hf c c1 ok1 Hc E) as (x & Hx & -> & P1 & H1). cbn. intros E2.
  destruct (Hg c1 c' ok H1 E2) as (y & Hy & -> & P2 & H2). exists (x + y).
  split_and!; try done; [lia|]. rewrite replicate_add, on_app. by eapply passes_trans.
Qed.

Lemma checkPollution_slips m : slips m 2 checkPollution.
Proof.
  intros c c' ok Hc E. unfold checkPollution in E. cbn zeta in E.
  destruct (frame_quiet m c (saveGlobal c) (frame_saveGlobal c) eq_refl Hc) as [P B].
  destruct (slips_andThen m 1 1 _ _ (fail_if_slips m _) (fail_if_slips m _) _ _ _ B E)
    as (j & Hj & -> & P2 & H2).
  exists j. split_and!; try done. by apply (passes_first _ _ (saveGlobal c)).
Qed.

Lemma teardown_slips s c c' ok :
  notrycatch = false -> fit c -> do_teardown s c = Some (c', ok) ->
  exists j, j <= 2 /\ passes (on (testNumber s) n (outcome PTeardown s ++ replicate j false)) c c'.
Proof.
  intros Hn Hc. unfold do_teardown. rewrite Hn. cbn zeta. unfold andThen at 1.
  cbn [done_with mbind option_bind fst snd]. destruct (enter_busy s c Hc) as [P1 H1].
  unfold andThen. destruct (try_catch _ _ (enter s c)) as [[c1 ok1]|] eqn:E1; [|done].
  destruct (hook_gives _ _ _ _ _ H1 E1) as (-> & P2 & H2). cbn. intros E2.
  destruct (checkPollution_slips _ _ _ _ H2 E2) as (j & Hj & _ & P3 & _). exists j.
  split; [done|]. rewrite on_app. apply (passes_first _ _ (enter s c)); [done|].
  by eapply passes_trans.
Qed.

Lemma conclude_passes s c c' ok : fit c -> conclude s c = Some (c', ok) -> passes [] c c'.
Proof.
  intros [_ [[[st Es] [mst Em]] _]] E.
  destruct (conclude_fields s c) as (c1 & ok1 & E1 & Q & _ & N & _).
  destruct (conclude_spec s c st mst Es Em) as (c2 & E2 & _ & _ & _ & R).
  rewrite E in E1, E2. injection E1 as <- <-. injection E2 as <- _.
  by eapply passes_silent; [| |exact R|].
Qed.

Lemma finish_slips s c c' ok :
  fit c -> do_finish s c = Some (c', ok) ->
  exists j, j <= 1 /\ passes (on (testNumber s) n (replicate j false)) c c'.
Proof.
  intros Hc. unfold do_finish. unfold andThen at 1. cbn [done_with mbind option_bind fst snd].
  destruct (enter_busy s c Hc) as [P1 H1]. unfold andThen.
  destruct (fail_if _ (enter s c)) as [[c1 ok1]|] eqn:E1; [|done].
  destruct (fail_if_slips _ _ _ _ _ H1 E1) as (j & Hj & -> & P2 & H2 & _). cbn. intros E2.
  exists j. split; [done|]. apply (passes_first _ _ (enter s c)); [done|].
  apply (passes_last _ _ c1); [done|]. by apply (conclude_passes s _ _ ok).
Qed.

(** What a phase logs, its own test's or another's. *)
Lemma phase_slips process p s c c' ok :
  notrycatch = false -> async s = false -> fit c -> exec process (Phase p s) c = Some (c', ok) ->
  exists j, j <= slack p /\ passes (on (testNumber s) n (outcome p s ++ replicate j false)) c c'.
Proof.
  intros Hn Ha Hc. cbn [exec]. unfold andThen at 1. cbn [done_with mbind option_bind fst snd].
  set (c1 := begin_phase p s c). assert (passes [] c c1) as P1 by by apply passes_same.
  assert (fit c1) as H1 by exact Hc. intros E.
  enough (exists j, j <= slack p
    /\ passes (on (testNumber s) n (outcome p s ++ replicate j false)) c1 c') as (j & Hj & P2)
    by (exists j; split; [done|]; by apply (passes_first _ _ c1)).
  destruct p; cbn [slack].
  - destruct (setup_gives s Hn _ _ _ H1 E) as (_ & P & _). exists 0. by rewrite app_nil_r.
  - destruct (run_gives process s Hn Ha _ _ _ H1 E) as (_ & P & _). exists 0. by rewrite app_nil_r.
  - by apply (teardown_slips s c1 c' ok).
  - by apply (finish_slips s c1 c' ok).
Qed.

(** The phases [qs] of the test are left, and the others have logged what they do. *)
Definition stage (s : settings) (l : list bool) (c : config) : Prop :=
  n <= count c
  /\ ((left_of n (queue c) = [Defer s] /\ logged n (reports c) = l)
      \/ exists ps qs j, ps ++ qs = [PSetup; PRun; PTeardown; PFinish]
           /\ left_of n (queue c) = map (fun p => Phase p s) qs
           /\ j <= sum_list_with slack ps
           /\ logged n (reports c) = l ++ concat (map (fun p => outcome p s) ps)
                                       ++ replicate j false).

Lemma stage_passes s l c c' : passes [] c c' -> stage s l c -> stage s l c'.
Proof.
  intros [Hn Hl Hr] [Hc Hs]. rewrite app_nil_r in Hr. split; [lia|]. by rewrite Hl, Hr.
Qed.

(** A phase more of the test itself. *)
Lemma stage_phase s l p c c' q j :
  testNumber s = n -> n <= count c -> queue c = q ->
  stage s l (c <| queue := Phase p s :: q |>) ->
  j <= slack p -> passes (outcome p s ++ replicate j false) c c' -> stage s l c'.
Proof.
  intros Hs Hn Hq [_ [[Hl _]|(ps & qs & k & Hps & Hl & Hk & Hr)]] Hj [Hcount Hleft Hlog];
    unfold left_of in Hl; cbn in Hl; rewrite bool_decide_true in Hl by done; [done|].
  change (reports (c <| queue := Phase p s :: q |>)) with (reports c) in Hr.
  split; [lia|]. right. destruct qs as [|p' qs]; [done|]. injection Hl as <- Hl.
  exists (ps ++ [p]), qs, (k + j). split_and!.
  - by rewrite <- app_assoc.
  - rewrite Hleft, Hq. exact Hl.
  - rewrite sum_list_with_app. cbn. lia.
  - rewrite Hlog, Hr, map_app, concat_app. cbn. rewrite app_nil_r, replicate_add.
    destruct ps as [|x1 [|x2 [|x3 [|x4 ps]]]]; simplify_eq/=.
    1-3: assert (k = 0) as -> by lia; by rewrite <- ?app_assoc, ?app_nil_r.
    + by rewrite !app_nil_r, <- !app_assoc.
    + by destruct ps.
Qed.
End Logs.

Section Whole.
Context `{Page}.

Lemma ready_fit d k n c : ready d k c -> n <= count c -> fit n c.
Proof. intros [] Hn. by repeat split; try apply r_loaded0. Qed.

Lemma left_other n q i : is_of n i = false -> left_of n (i :: q) = left_of n q.
Proof. intros Hi. unfold left_of. rewrite filter_cons_False; [done|]. rewrite Hi. by intros []. Qed.

Lemma left_own n q i : is_of n i = true -> left_of n (i :: q) = i :: left_of n q.
Proof. intros Hi. unfold left_of. rewrite filter_cons_True; [done|]. by rewrite Hi. Qed.

Lemma left_phases n s : left_of n (phases_of s) = if decide (testNumber s = n) then phases_of s else [].
Proof.
  unfold left_of, phases_of. case_decide.
  - repeat rewrite filter_cons_True by (cbn; by rewrite bool_decide_true). done.
  - repeat rewrite filter_cons_False by (cbn; rewrite bool_decide_false by done; by intros []). done.
Qed.

(** An item of the queue and the test [s]. *)
Lemma stage_exec process d k s l i q c c' ok :
  notrycatch = false -> ready d k c -> queue c = q -> sync_item i = true ->
  stage (testNumber s) s l (c <| queue := i :: q |>) -> exec process i c = Some (c', ok) ->
  stage (testNumber s) s l c'.
Proof.
  intros Hn Hc Hq Hi Hs. set (n := testNumber s) in *.
  assert (n <= count c) as Hcount by apply Hs. pose proof (ready_fit _ _ n _ Hc Hcount) as Hf.
  assert (is_of n i = false -> stage n s l c) as Hother.
  { intros Ho. destruct Hs as [_ Hs]. split; [done|]. rewrite Hq.
    change (queue (c <| queue := i :: q |>)) with (i :: q) in Hs. by rewrite left_other in Hs. }
  destruct i as [s'|s'|p s']; cbn in Hi.
  - intros [= <- <-]. by apply Hother.
  - cbn [exec]. rewrite queue_phases_waits by apply Hc. intros [= <- <-].
    destruct (decide (testNumber s' = n)) as [E|E].
    + assert (is_of n (Defer s') = true) as Ho by by apply bool_decide_true.
      destruct Hs as [_ [[Hl Hr]|(ps & qs & j & _ & Hl & _)]];
        change (queue (c <| queue := Defer s' :: q |>)) with (Defer s' :: q) in Hl;
        rewrite (left_own _ _ _ Ho) in Hl; [|by destruct qs].
      injection Hl as <- Hl. split; [done|]. right. exists [], [PSetup; PRun; PTeardown; PFinish], 0.
      split_and!; try done; [|by rewrite !app_nil_r].
      change (queue (enqueue (phases_of s') c)) with (queue c ++ phases_of s').
      rewrite Hq. unfold left_of. rewrite filter_app. fold (left_of n q). rewrite Hl.
      pose proof (left_phases n s') as Hp. rewrite decide_True in Hp by done. exact Hp.
    + eapply stage_passes, Hother; [|by apply bool_decide_false].
      apply passes_enqueue. by rewrite left_phases, decide_False.
  - intros E0. assert (async s' = false) as Ha.
    { unfold sync_settings in Hi. rewrite !andb_true_iff in Hi. destruct Hi as [[Hi _] _]. by destruct (async s'). }
    destruct (phase_slips n process p s' c c' ok Hn Ha Hf E0) as (j & Hj & P).
    unfold on in P. destruct (decide (testNumber s' = n)) as [E|E].
    + assert (s' = s) as ->.
      { assert (is_of n (Phase p s') = true) as Ho by by apply bool_decide_true.
        destruct Hs as [_ [[Hl _]|(ps & qs & x & _ & Hl & _)]];
          change (queue (c <| queue := Phase p s' :: q |>)) with (Phase p s' :: q) in Hl;
          rewrite (left_own _ _ _ Ho) in Hl; [done|].
        destruct qs; cbn in Hl; congruence. }
      by eapply stage_phase.
    + eapply stage_passes, Hother; [exact P|by apply bool_decide_false].
Qed.

Lemma stage_loop fuel last d k s l :
  notrycatch = false -> forall c c' ok, ready d k c -> stage (testNumber s) s l c ->
  loop fuel last c = Some (c', ok) -> stage (testNumber s) s l c'.
Proof.
  intros Hn. induction fuel as [|fuel IH]; intros c c' ok Hc Hs; [done|]. cbn [loop].
  destruct (queue c) as [|i q] eqn:Eq; [by intros [= <- <-]|].
  rewrite (r_blocking _ _ _ Hc), (ready_prompt _ _ _ Hc).
  pose proof (r_queue _ _ _ Hc) as Hq. rewrite Eq in Hq. cbn in Hq.
  apply andb_true_iff in Hq as [Hi _]. pose proof (ready_taken _ _ _ _ _ Hc Eq) as H1.
  set (c1 := c <| clock := _ |> <| queue := q |>) in *.
  assert (stage (testNumber s) s l (c1 <| queue := i :: q |>)) as Hs1.
  { unfold stage in *. rewrite Eq in Hs. exact Hs. }
  unfold andThen. destruct (exec _ i c1) as [[c2 ok2]|] eqn:E; [|done].
  destruct (fine_exec _ d k i Hn Hi _ _ _ H1 E) as [-> H2]. cbn. apply IH; [done|].
  by apply (stage_exec (process_with (loop fuel)) d k s l i q c1 c2 true).
Qed.

Lemma waiting_stage s c :
  waiting s c -> stage (testNumber s) s (logged (testNumber s) (reports c)) c.
Proof.
  intros [Hn [Hl|Hl]]; (split; [done|]); [by left|right].
  exists [], [PSetup; PRun; PTeardown; PFinish], 0. split_and!; try done. by rewrite !app_nil_r.
Qed.

Lemma stage_over n s l c :
  stage n s l c -> queue c = [] ->
  exists j, j <= 3 /\ logged n (reports c)
    = l ++ outcome PSetup s ++ outcome PRun s ++ outcome PTeardown s ++ replicate j false.
Proof.
  intros [_ [[Hl _]|(ps & qs & j & Hps & Hl & Hj & Hr)]] Hq; rewrite Hq in Hl; [done|].
  destruct qs; [|done]. rewrite app_nil_r in Hps. subst ps. exists j. split; [exact Hj|].
  rewrite Hr. cbn. by rewrite <- !app_assoc.
Qed.

(** C26. When the tests do not wait, throw what they may, one call of [process] empties the
    queue and reports the end once, last; and each test that was waiting has logged the
    assertions of its setup, of its own code and of its teardown, each up to an exception
    and with a failure for it, and at most three failures more: for new globals, for missing
    ones and for a wrong number of assertions.  The page has loaded, nothing is blocked, the
    hooks of the current module do not stop either, the end has not been reported before,
    the clock lets [process] go on, it is the outermost call, and notrycatch is off. *)
Theorem sync_tests_end fuel k c :
  notrycatch = false -> ready 0 k c -> weight c < fuel ->
  exists c' l failed passed total,
    process fuel true c = Some (c', true)
    /\ queue c' = []
    /\ reports c' = l ++ [Done failed passed total]
    /\ dones c' = S k
    /\ forall s, waiting s c -> exists j, j <= 3
         /\ logged (testNumber s) (reports c') = logged (testNumber s) (reports c)
              ++ outcome PSetup s ++ outcome PRun s ++ outcome PTeardown s
              ++ replicate j false.
Proof.
  intros Hn Hc Hw. destruct (process_returns fuel true c ltac:(lia)) as (c' & ok & E & _).
  pose proof E as E0. unfold process, process_with, andThen in E. cbn [done_with mbind option_bind fst snd] in E.
  assert (ready 1 k (c <| depth := S (depth c) |>)) as H1.
  { pose proof (r_depth _ _ _ Hc) as Hd. destruct Hc. split; try done.
    change (S (depth c) = 1). by rewrite Hd. }
  destruct (loop fuel true _) as [[c1 ok1]|] eqn:E1; [|done].
  destruct (fine_loop fuel true 1 k Hn _ _ _ H1 E1) as [-> [H2 Hq]].
  cbn [mbind option_bind fst snd] in E. set (c2 := c1 <| depth := pred (depth c1) |>) in E.
  assert (depth c2 = 0) as Hd2 by (change (pred (depth c1) = 0); by rewrite (r_depth _ _ _ H2)).
  assert (blocking c2 = false) as Hb2 by apply H2. assert (queue c2 = []) as Hq2 by exact Hq.
  rewrite Hb2, !bool_decide_true in E by done. cbn [negb andb] in E.
  destruct (r_loaded _ _ _ H2) as [[st Es] [mst Em]].
  destruct (finished_spec c2 st mst Es Em) as (c3 & l & E3 & _ & _ & R3 & Hl & Hl').
  destruct (plain_finished c2) as (c4 & ok4 & E4 & Q4).
  rewrite E3 in E, E4. injection E as <- <-. injection E4 as <- _.
  exists c3, (reports c2 ++ l), (bad st), (all st - bad st)%Z, (all st).
  split; [exact E0|]. split; [by rewrite Q4|]. split; [exact R3|].
  split.
  { unfold dones. rewrite R3, filter_app, length_app.
  change (length (filter is_done [Done (bad st) (all st - bad st) (all st)])) with 1.
  rewrite Nat.add_1_r. f_equal. transitivity (dones c2); [|apply H2].
  exact (dones_harmless l c2 (c2 <| reports := reports c2 ++ l |>) eq_refl Hl). }
  intros s Hs. apply waiting_stage in Hs.
  assert (stage (testNumber s) s (logged (testNumber s) (reports c))
    (c <| depth := S (depth c) |>)) as Hs1 by exact Hs.
  pose proof (stage_loop fuel true 1 k s _ Hn _ _ _ H1 Hs1 E1) as Hs2.
  destruct (stage_over _ _ _ _ Hs2 Hq) as (j & Hj & Hr). exists j. split; [exact Hj|].
  rewrite R3, !logged_silent by done. exact Hr.
Qed.
End Whole.

(** * The verdict of a test *)

Section Verdict.
Context `{Page}.

Lemma getItem_set k v l : getItem k (setItem k v l) = Some v.
Proof.
  unfold getItem. induction l as [|[k' v'] l IH]; cbn; [by rewrite decide_True|].
  case_decide as E; cbn; [by rewrite decide_True|]. rewrite decide_False by done.
  destruct (list_find _ (setItem k v l)) as [[]|]; done.
Qed.

Lemma getItem_remove k l : getItem k (removeItem k l) = None.
Proof.
  unfold getItem, removeItem. induction l as [|[k' v'] l IH]; [done|].
  rewrite filter_cons. case_decide as E; [|done]. cbn. cbn in E. rewrite decide_False by done.
  destruct (list_find _ _) as [[]|]; done.
Qed.

Lemma conclude_storage s c c' :
  conclude s c = Some (c', true) ->
  storage c' = storage (store_result s (failures (assertions (the_test (testNumber s) c))) c).
Proof.
  unfold conclude, andThen, add_stats. cbv beta. destruct (stats c) as [st|]; [|done].
  match goal with |- context[moduleStats ?d] => change (moduleStats d) with (moduleStats c) end.
  destruct (moduleStats c); [|done]. cbn [done_with mbind option_bind fst snd].
  intros [= <-]. unfold store_result. by destruct (shown && _ && _).
Qed.

Lemma store_result_read s n c :
  shown && reorder && has_storage = true ->
  failed_before s (store_result s n c) = negb (bool_decide (n = 0%Z)).
Proof.
  intros Hs. unfold store_result, failed_before. rewrite Hs.
  rewrite !andb_true_iff in Hs. destruct Hs as [[_ ->] ->]. cbn [andb].
  case_bool_decide as Hn.
  - change (storage (c <| storage := removeItem (key s) (storage c) |>))
      with (removeItem (key s) (storage c)). by rewrite getItem_remove.
  - change (storage (c <| storage := setItem (key s) (Some n) (storage c) |>))
      with (setItem (key s) (Some n) (storage c)). rewrite getItem_set. by rewrite bool_decide_false.
Qed.

Lemma fail_if_spec b i c :
  current c = Some i ->
  exists c', fail_if b c = Some (c', true) /\ frame c c'
    /\ assertions (the_test i c') = assertions (the_test i c) ++ (if b then [false] else [])
    /\ reports c' = reports c ++ (if b then [Log i false] else []).
Proof.
  intros Hi. destruct b; cbn [fail_if].
  - unfold pushFailure. destruct (push false c) as [[c' ok]|] eqn:E;
      [|destruct (plain_push false c) as (? & ? & E' & _); congruence].
    pose proof (frames_push false c c c' ok (reflexivity c) E) as Hf.
    unfold push in E. rewrite Hi in E. injection E as <- <-.
    eexists. split; [reflexivity|]. split; [done|]. split; [|done].
    by rewrite the_test_set, decide_True.
  - exists c. rewrite !app_nil_r. by split_and!.
Qed.

(** A test that finishes is told of with its assertions, and one failure more when their
    number is not the expected one - none expected, at least one; with the same numbers the
    counts grow, and the next time it runs first exactly when something failed. *)
Theorem finish_verdict s c st mst :
  stats c = Some st -> moduleStats c = Some mst ->
  let t := the_test (testNumber s) c in
  let l := assertions t ++ (if miscounted t then [false] else []) in
  exists c', do_finish s c = Some (c', true) /\ current c' = None
    /\ reports c' = reports c ++ (if miscounted t then [Log (testNumber s) false] else [])
         ++ [TestDone (testNumber s) (testName s) (module s) (failures l) (total_of l - failures l) (total_of l)]
    /\ stats c' = Some (add_stat (total_of l) (failures l) st)
    /\ (shown && reorder && has_storage = true ->
        failed_before s c' = negb (bool_decide (failures l = 0%Z))).
Proof.
  intros Es Em t l. set (c1 := enter s c).
  destruct (fail_if_spec (miscounted t) (testNumber s) c1 eq_refl) as (c2 & E2 & F2 & A2 & R2).
  destruct (conclude_spec s c2 st mst) as (c3 & E3 & S3 & _ & C3 & R3).
  { rewrite (f_stats _ _ F2). exact Es. }
  { rewrite (f_moduleStats _ _ F2). exact Em. }
  change (assertions (the_test (testNumber s) c1)) with (assertions t) in A2.
  exists c3. split; [|split; [done|split; [|split]]].
  - unfold do_finish, andThen. cbn [done_with mbind option_bind fst snd].
    change (miscounted (the_test (testNumber s) (enter s c))) with (miscounted t).
    change (enter s c) with c1. rewrite E2. exact E3.
  - rewrite R3, R2, A2, <- app_assoc. done.
  - rewrite S3, A2. done.
  - intros Hs. pose proof (store_result_read s (failures l) c2 Hs) as Hr.
    apply conclude_storage in E3. rewrite A2 in E3. fold l in E3.
    unfold failed_before in *. by rewrite E3.
Qed.
End Verdict.

(** * Concrete runs *)

Section Runs.
Context `{Page}.

(** Events one after the other; a run that failed stays where it began. *)
Definition after (c : config) (e : event) : config :=
  match handle 100 e c with Some (c', _) => c' | None => c end.

Definition run_events (l : list event) (c : config) : config := foldl after c l.

Lemma after_step l c e :
  present (handle 100 e (clocked l c)) = true -> step c (after (clocked l c) e).
Proof.
  unfold after. intros Hp. destruct (handle 100 e (clocked l c)) as [[c' ok]|] eqn:E; [|done].
  by exists 100, e, l, ok.
Qed.

(** All the calls come back. *)
Fixpoint handled (l : list event) (c : config) : bool :=
  match l with
  | [] => true
  | e :: l => present (handle 100 e c) && handled l (after c e)
  end.

Lemma run_steps l c : handled l c = true -> rtc step c (run_events l c).
Proof.
  revert c. induction l as [|e l IH]; intros c Hl; [apply rtc_refl|]. cbn in Hl.
  apply andb_true_iff in Hl as [He Hl]. eapply rtc_l; [|by apply IH].
  assert (clocked (clock c) c = c) as Hc by by destruct c.
  pose proof (after_step (clock c) c e) as Hs. rewrite Hc in Hs. by apply Hs.
Qed.
End Runs.

(** A page with the list of results, with or without notrycatch, for a module or all. *)
Definition page (no_catch : bool) (m : option jstr) : Page := {|
  reorder := true; requireExpects := false; notrycatch := no_catch; noglobals := false;
  testTimeout := false; has_storage := true; shown := true; filter_ := None; module_ := m;
  only_number := 0; toLowerCase := id |}.

Definition ok : cmd := Do (Assert true).
Definition simple (name : string) (l : list cmd) : cmd := Test (js name) None false l.

(** The first test throws; the queue goes on after the next start. *)
Lemma uncaught_never_done_witness :
  let H := page true None in
  exists c c1 c2, process 100 true c = Some (c1, false) /\ rtc step c1 c2
    /\ queue c2 = [] /\ dones c2 = 0.
Proof.
  intros H.
  exists ((run_events [Callback [simple "a" [Do Throw]; simple "b" [ok]]; Load] config0)
          <| blocking := false |>).
  set (c := _ <| blocking := false |>).
  exists (match process 100 true c with Some (c1, _) => c1 | None => c end).
  set (c1 := match process 100 true c with Some _ => _ | None => _ end).
  exists (run_events [Callback [Do (Start 1)]; Fire 2] c1).
  assert (process 100 true c = Some (c1, false)) as E by (vm_compute; reflexivity).
  assert (rtc step c1 (run_events [Callback [Do (Start 1)]; Fire 2] c1)) as Hs
    by (apply run_steps; vm_compute; reflexivity).
  assert (loaded () c) as Hc by (split; eexists; vm_compute; reflexivity).
  split; [exact E|]. split; [exact Hs|]. split; [vm_compute; reflexivity|].
  transitivity (dones c); [|vm_compute; reflexivity].
  exact (uncaught_never_done 100 true c c1 _ Hc E Hs).
Defined.

(** A test stops three times and is started twice: it waits, while another is defined. *)
Lemma stopped_tests_wait_witness :
  let H := page false None in
  let c := run_events [Fire 1; Callback [Do (Start 2)]]
             (load (run_events [Callback [simple "a" [Do (Stop 3); ok]; simple "b" [ok]]] config0)) in
  open_stops (pauses c) = 1
  /\ trace (after c (Callback [simple "c" [ok]])) = [(PSetup, 1); (PRun, 1)].
Proof.
  intros H. set (c0 := run_events [Callback [simple "a" [Do (Stop 3); ok]; simple "b" [ok]]] config0).
  set (c := run_events [Fire 1; Callback [Do (Start 2)]] (load c0)). cbn zeta.
  split; [vm_compute; reflexivity|].
  transitivity (trace c); [|vm_compute; reflexivity].
  apply (stopped_tests_wait c0); [vm_compute; reflexivity..| |vm_compute; repeat constructor|].
  - apply (rtc_l _ _ (after (load c0) (Fire 1))); [|eapply rtc_l; [|apply rtc_refl]].
    + exists 100, (Fire 1), [], true. split; [discriminate|]. vm_compute. reflexivity.
    + exists 100, (Callback [Do (Start 2)]), [], true. split; [discriminate|]. vm_compute. reflexivity.
  - exists 100, (Callback [simple "c" [ok]]), [], true. split; [discriminate|].
    vm_compute. reflexivity.
Defined.

Definition three_tests : list event :=
  [Callback [simple "a" [ok; Do Throw]; Test (js "b") None true [ok]; simple "c" []]; Load; Fire 1].

(** The time is up after two phases, and [process] goes on later. *)
Lemma phases_in_order_witness :
  let H := page false None in
  let c1 := run_events (take 2 three_tests) config0 in
  let c2 := after (clocked (replicate 8 false ++ [true]) c1) (Fire 1) in
  let c3 := after (clocked [] c2) (Fire 2) in
  (length (trace c2), length (trace c3)) = (2, 6)
  /\ exists ts, NoDup ts /\ trace c3 `prefix_of` concat (map all_phases ts).
Proof.
  intros H c1 c2 c3. split; [vm_compute; reflexivity|].
  apply phases_in_order; [|vm_compute; reflexivity].
  apply (rtc_r _ c2); [|apply after_step; vm_compute; reflexivity].
  apply (rtc_r _ c1); [|apply after_step; vm_compute; reflexivity].
  apply run_steps. vm_compute. reflexivity.
Defined.

(** The first test logs a success and its exception; the second passes. *)
Lemma reports_add_up_witness :
  let H := page false None in
  let c := run_events (three_tests ++ [Callback [Do (Start 1)]; Fire 2]) config0 in
  let told := TestDone 1 (js "a") None 1 1 2 in
  (exists l m, reports c = l ++ told :: m /\ logged 1 l = [true; false] /\ true_report l told)
  /\ exists l, reports c = l ++ [Done 2 2 4] /\ true_report l (Done 2 2 4).
Proof.
  intros H c told. assert (rtc step config0 c) as Hs by (apply run_steps; vm_compute; reflexivity).
  split.
  - exists (take 7 (reports c)), (drop 8 (reports c)).
    split; [vm_compute; reflexivity|]. split; [vm_compute; reflexivity|].
    apply (reports_add_up c Hs) with (l2 := drop 8 (reports c)). vm_compute. reflexivity.
  - exists (take 14 (reports c)). split; [vm_compute; reflexivity|].
    apply (reports_add_up c Hs) with (l2 := []). vm_compute. reflexivity.
Defined.

Lemma events_return_witness :
  let H := page false None in
  exists c' b, handle 100 (Callback [simple "a" [simple "b" [ok]]]) config0 = Some (c', b).
Proof. intros H. apply events_return. vm_compute. repeat constructor. Defined.

(** The first test throws; another is defined on the way. *)
Lemma sync_tests_end_witness :
  let H := page false None in
  let c := (run_events [Callback [simple "a" [ok; Do Throw; ok]; simple "b" [simple "c" [ok]]]; Load]
              config0) <| blocking := false |> in
  exists c' l failed passed total,
    process 100 true c = Some (c', true) /\ queue c' = []
    /\ reports c' = l ++ [Done failed passed total] /\ dones c' = 1
    /\ exists j, logged 1 (reports c') = [true; false] ++ replicate j false.
Proof.
  intros H c.
  destruct (sync_tests_end 100 0 c) as (c' & l & failed & passed & total & E & Q & R & D & W);
    [reflexivity| |vm_compute; repeat constructor|].
  { split; try (vm_compute; reflexivity). split; eexists; vm_compute; reflexivity. }
  exists c', l, failed, passed, total.
  split; [exact E|]. split; [exact Q|]. split; [exact R|]. split; [exact D|].
  destruct (W (Settings 1 (js "a") false [ok; Do Throw; ok] None (Env [] []) false))
    as (j & _ & L).
  - split; [vm_compute; repeat constructor|]. left. vm_compute. reflexivity.
  - exists j. exact L.
Defined.

Lemma finish_verdict_witness :
  let H := page false None in
  let s := Settings 1 (js "a") false [] None (Env [] []) false in
  let c := (load config0) <| tests := {[ 1 := MkTest (Some 2) [true] ]} |> in
  exists c', do_finish s c = Some (c', true) /\ failed_before s c' = true.
Proof.
  intros H s c. destruct (finish_verdict s c (Stat 0 0) (Stat 0 0) eq_refl eq_refl)
    as (c' & E & _ & _ & _ & F).
  exists c'. split; [exact E|]. rewrite (F eq_refl). vm_compute. reflexivity.
Defined.

(** A start too many is not ignored: the end is reported twice. *)
Example extra_start_ends_twice :
  let H := page false None in
  dones (run_events [Callback [Test (js "a") None true [ok]]; Load; Fire 1;
                     Callback [Do (Start 1); Do (Start 1)]; Fire 2; Fire 3] config0) = 2.
Proof. vm_compute. reflexivity. Qed.

(** A stop before the page has loaded makes the semaphore NaN: one start resumes after two
    stops. *)
Example early_stop_forgets_stops :
  let H := page false None in
  let l := [simple "a" [Do (Stop 2); ok]] in
  let run l := run_events [Callback l; Load; Fire 1; Callback [Do (Start 1)]; Fire 2] config0 in
  (dones (run l), dones (run (Do (Stop 1) :: l))) = (0, 1).
Proof. vm_compute. reflexivity. Qed.

Definition about_module (r : report) : bool :=
  match r with ModuleDone _ _ _ _ | ModuleStart _ => true | _ => false end.

(** With a filter, the end of the last module defined is reported, none of which ran, with
    the counts of the last that ran, the end of which is not. *)
Example wrong_module_done :
  let H := page false (Some (js "A")) in
  filter (fun r => about_module r)
    (reports (run_events [Callback [Module (js "A") (Env [] []); simple "a" [ok];
                                    Module (js "B") (Env [] []); simple "b" [ok]];
                          Load; Fire 1] config0))
  = [ModuleStart (Some (js "A")); ModuleDone (Some (js "B")) 0 1 1].
Proof. vm_compute. reflexivity. Qed.

(** Of two stored results, one stays. *)
Example stale_result_stays :
  clear_own 2 0 [(js "qunit-test-M-a", Some 1%Z); (js "qunit-test-M-b", Some 1%Z)]
  = [(js "qunit-test-M-b", Some 1%Z)].
Proof. vm_compute. reflexivity. Qed.

(** After the first end, a test defined inside another one runs at once, in the middle of
    it.  The outer one's next assertion is an error outside of any test: its teardown and
    its finish are never queued, a global failure is the third test, and as the error left
    [process], no other end is reported. *)
Example nested_test_cuts_off :
  let H := page false None in
  let c := run_events [Load; Fire 1; Callback [simple "a" [simple "b" [ok]; ok]]] config0 in
  trace c = [(PSetup, 1); (PRun, 1)] ++ all_phases 2 ++ all_phases 3
  /\ queue c = [] /\ dones (run_events [Load; Fire 1] config0) = 1 /\ dones c = 1.
Proof. vm_compute. split_and!; reflexivity. Qed.
