(* ===== verification/QunitAssert.v ===== *)
(** QunitAssert: the assertions of the test framework (fuelux/lib/qunit/qunit.js,
    [QUnit.assert]), over the values of QunitEquiv.v; what they record goes through the
    runner's [push].

    How the language reads a number in a string, and what an object's own valueOf and
    toString make of it, are arguments, as are regular expressions and the functions that
    a test passes. *)

From S2P Require Import Prelude QunitRunner QunitEquiv.

(** [!!v]. *)
Definition to_bool (v : value) : bool :=
  match v with
  | VUndefined | VNull | VNum NotANumber => false
  | VBool b => b
  | VNum (Num z) => negb (bool_decide (z = 0%Z))
  | VNum (Inf _) | VRef _ => true
  | VStr s => truthy s
  end.

Section Asserts.
Context (g : globals) (h : heap).
Variables (string_number : jstr -> number)
          (to_primitive : nat -> option value)       (* None: it throws *)
          (matches : regexp -> value -> bool)
          (calls : nat -> value -> option value).    (* None: it throws *)

(** * Equality *)

Definition as_number (v : value) : option number :=
  match v with
  | VBool b => Some (Num (if b then 1 else 0))
  | VNum n => Some n
  | VStr s => Some (string_number s)
  | _ => None
  end.

(** [a == b] on primitive values. *)
Definition loose_prim (a b : value) : bool :=
  match a, b with
  | VUndefined, VUndefined | VUndefined, VNull | VNull, VUndefined | VNull, VNull => true
  | VStr s, VStr t => bool_decide (s = t)
  | _, _ =>
      match as_number a, as_number b with
      | Some n, Some m => strict_eq (VNum n) (VNum m)
      | _, _ => false
      end
  end.

Definition is_nothing (v : value) : bool :=
  match v with VUndefined | VNull => true | _ => false end.

(** [a == b]; [None]: an object's own conversion throws. *)
Definition loose_eq (a b : value) : option bool :=
  match a, b with
  | VRef l, VRef m => Some (bool_decide (l = m))
  | VRef l, v => if is_nothing v then Some false else p ← to_primitive l; Some (loose_prim p v)
  | v, VRef m => if is_nothing v then Some false else p ← to_primitive m; Some (loose_prim v p)
  | a, b => Some (loose_prim a b)
  end.

(** A comparison and [QUnit.push]. *)
Definition push_if (r : option bool) : action :=
  match r with Some b => QunitRunner.push b | None => QunitRunner.throws id end.

Definition ok (result : value) : action := QunitRunner.push (to_bool result).
Definition equal (actual expected : value) : action := push_if (loose_eq expected actual).
Definition notEqual (actual expected : value) : action := push_if (negb <$> loose_eq expected actual).
Definition deepEqual (actual expected : value) : action := push_if (equiv g h actual expected).
Definition notDeepEqual (actual expected : value) : action := push_if (negb <$> equiv g h actual expected).
Definition strictEqual (actual expected : value) : action := push_if (Some (strict_eq expected actual)).
Definition notStrictEqual (actual expected : value) : action :=
  push_if (Some (negb (strict_eq expected actual))).

(** * Exceptions *)

(** Whether the object [target] is among the prototypes of [l]. *)
Fixpoint in_chain (fuel : nat) (h : heap) (l target : nat) : bool :=
  match fuel with
  | 0 => false
  | S fuel =>
      match h !! l ≫= proto with
      | Some p => bool_decide (p = target) || in_chain fuel h p target
      | None => false
      end
  end.

(** [a instanceof f]; [None]: it throws, [f] being no function or having no prototype. *)
Definition instanceof (a f : value) : option bool :=
  match f with
  | VRef lf =>
      match h !! lf with
      | Some o =>
          match o_kind o, a, get o (js "prototype") with
          | Func, VRef la, VRef t => Some (in_chain (size h) h la t)
          | Func, VRef _, _ => None
          | Func, _, _ => Some false
          | _, _, _ => None
          end
      | None => None
      end
  | _ => None
  end.

(** What [throws] finds of an exception. *)
Definition verdict (actual expected : value) : option bool :=
  if negb (to_bool expected) then Some true
  else
    match expected with
    | VRef l =>
        match o_kind <$> h !! l with
        | Some (Regexp r) => Some (matches r actual)
        | _ =>
            i ← instanceof actual expected;
            if (i : bool) then Some true
            else r ← calls l actual; Some (strict_eq r (VBool true))
        end
    | _ => None
    end.

(** [throws]: the block gives the state it leaves and what it throws; a text in the place
    of the expectation is the message. *)
Definition throws (block : config -> config * option value) (expected : value) : action := fun c =>
  match current c with
  | None => QunitRunner.throws id c
  | Some _ =>
      let expected := match expected with VStr _ => VNull | v => v end in
      let '(c, thrown) := block c in
      match thrown with
      | Some v => if to_bool v then push_if (verdict v expected) c else pushFailure c
      | None => pushFailure c
      end
  end.

End Asserts.
