(* ===== verification/QunitAssertFacts.v ===== *)
(** QunitAssertFacts: where the assertions agree, what instanceof finds, and the exceptions
    that [throws] does not see. *)

From S2P Require Import Prelude QunitRunner QunitEquiv QunitEquivFacts QunitAssert.
From coqutil Require Import Datatypes.RecordSettersUsingExistingGetters.

(** * Equalities *)

Section Agree.
Context (g : globals) (h : heap).
Variables (string_number : jstr -> number) (to_primitive : nat -> option value).

Lemma prim_bindCallbacks rec callers parents v w :
  is_prim v = true -> is_prim w = true -> prim_type v = prim_type w ->
  exists r, bindCallbacks g h rec callers parents v w = Some r.
Proof. intros Hv Hw Ht. destruct v as [| | |[]| |]; try done; by eexists. Qed.

(** On primitive values deepEqual is sameness, NaN being the same as itself. *)
Lemma equiv_prim v w :
  is_prim v = true -> is_prim w = true -> equiv g h v w = Some (bool_decide (v = w)).
Proof.
  intros Hv Hw. unfold equiv. rewrite Nat.add_1_r. cbn [innerEquiv].
  destruct (strict_eq v w) eqn:Es.
  { apply strict_eq_true in Es as ->. by rewrite bool_decide_true. }
  destruct (_ || _ || _ || _ || _) eqn:E.
  - rewrite bool_decide_false; [done|]. intros ->.
    destruct (decide (w = VNum NotANumber)) as [->|Hn]; [|by rewrite strict_eq_same in Es].
    vm_compute in E. discriminate E.
  - apply orb_false_iff in E as [_ E]. apply negb_false_iff, bool_decide_eq_true in E.
    assert (Ht : prim_type v = prim_type w).
    { destruct v, w; try discriminate Hv; try discriminate Hw; first [reflexivity | injection E as E; exact E | discriminate E]. }
    destruct (prim_bindCallbacks (innerEquiv g h (size h)) [] [] v w Hv Hw Ht) as [r Hr].
    rewrite Hr. f_equal. apply Bool.eq_iff_eq_true. rewrite bool_decide_eq_true.
    by apply (prim_decides g h (innerEquiv g h (size h)) [] []).
Qed.

(** On primitive values of one type equal is strictEqual. *)
Lemma loose_prim_strict v w :
  is_prim v = true -> is_prim w = true -> prim_type v = prim_type w ->
  loose_eq string_number to_primitive v w = Some (strict_eq v w).
Proof.
  intros Hv Hw Ht. destruct v as [| |b|[]|s|], w as [| |b'|[]|s'|]; try discriminate; try done; cbn; f_equal.
  - by destruct b, b'.
  - unfold strict_eq. rewrite (bool_decide_false (VStr s = VNum _)) by done. rewrite andb_true_r.
    apply bool_decide_ext. naive_solver.
Qed.

Lemma strict_eq_refl_ref l : strict_eq (VRef l) (VRef l) = true.
Proof. by apply strict_eq_same. Qed.

(** Values of one primitive type other than NaN: equal, strictEqual and deepEqual record
    the same, whatever the state of the tests. *)
Theorem assertions_agree actual expected :
  is_prim actual = true -> is_prim expected = true -> prim_type actual = prim_type expected ->
  expected ≠ VNum NotANumber ->
  equal string_number to_primitive actual expected = strictEqual actual expected /\
  deepEqual g h actual expected = strictEqual actual expected.
Proof.
  intros Ha He Ht Hn. unfold equal, deepEqual, strictEqual.
  rewrite loose_prim_strict, equiv_prim by done. split; [done|]. do 2 f_equal.
  unfold strict_eq. rewrite (bool_decide_false (expected = VNum NotANumber)) by done. rewrite andb_true_r.
  apply bool_decide_ext. naive_solver.
Qed.

(** What passes strictEqual passes equal and deepEqual, for any values. *)
Theorem strictEqual_strongest actual expected c r :
  strictEqual actual expected c = QunitRunner.push true c -> current c = Some r ->
  equal string_number to_primitive actual expected c = QunitRunner.push true c /\
  deepEqual g h actual expected c = QunitRunner.push true c.
Proof.
  intros H Hc. assert (Es : strict_eq expected actual = true).
  { unfold strictEqual, push_if in H. destruct (strict_eq expected actual); [done|].
    unfold push in H. rewrite Hc in H.
    apply (f_equal (option_map (fun x => reports (fst x)))) in H.
    assert (E : reports c ++ [Log r false] = reports c ++ [Log r true]) by (by injection H).
    by apply app_inv_head in E. }
  pose proof (strict_eq_true _ _ Es) as <-. split.
  - unfold equal. assert (loose_eq string_number to_primitive expected expected = Some true) as ->; [|done].
    destruct (is_prim expected) eqn:Ep; [by rewrite loose_prim_strict, Es|].
    destruct expected; try discriminate Ep. cbn. by rewrite bool_decide_true.
  - unfold deepEqual, equiv. rewrite Nat.add_1_r. cbn [innerEquiv]. by rewrite Es.
Qed.
End Agree.

(** * The prototypes of an object *)

Definition proto_of (h : heap) (a b : nat) : Prop := h !! a ≫= proto = Some b.

Lemma proto_of_fun h a b c : proto_of h a b -> proto_of h a c -> b = c.
Proof. unfold proto_of. congruence. Qed.

Lemma proto_of_delete h x a b : a ≠ x -> proto_of h a b -> proto_of (delete x h) a b.
Proof. intros Hne H. unfold proto_of. by rewrite lookup_delete_ne. Qed.

(** A way up that begins with the step from [x] to [p] need not come through [x] again. *)
Lemma avoid_or_shorter h x p t k a :
  proto_of h x p -> nsteps (proto_of h) k a t ->
  nsteps (proto_of (delete x h)) k a t \/ exists j, j < k /\ nsteps (proto_of h) j p t.
Proof.
  intros Hx. revert a. induction k as [|k IH]; intros a H.
  - inversion H; subst. left. constructor.
  - inversion H as [|? ? y ? Hay Hyt]; subst. destruct (decide (a = x)) as [->|Hne].
    + right. exists k. split; [lia|]. by rewrite (proto_of_fun h x p y Hx Hay).
    + destruct (IH y Hyt) as [Hl|(j & Hj & Hp)].
      * left. econstructor; [by apply proto_of_delete|done].
      * right. exists j. split; [lia|done].
Qed.

Lemma avoids h x p t k :
  proto_of h x p -> nsteps (proto_of h) k p t -> exists j, nsteps (proto_of (delete x h)) j p t.
Proof.
  intros Hx. induction k as [k IH] using lt_wf_ind. intros H.
  destruct (avoid_or_shorter h x p t k p Hx H) as [Hl|(j & Hj & Hp)]; [by exists k|by apply (IH j)].
Qed.

Lemma in_chain_delete x n h a t : in_chain n (delete x h) a t = true -> in_chain n h a t = true.
Proof.
  revert a. induction n as [|n IH]; intros a H; [done|]. cbn [in_chain] in *.
  destruct (decide (a = x)) as [->|Hne]; [by rewrite lookup_delete_eq in H|].
  rewrite lookup_delete_ne in H by done. destruct (h !! a ≫= proto) as [p|]; [|done].
  apply orb_true_iff in H as [H|H]; [by rewrite H|]. by rewrite (IH p H), orb_true_r.
Qed.

Lemma in_chain_complete k n h a t :
  size h = n -> nsteps (proto_of h) (S k) a t -> in_chain n h a t = true.
Proof.
  revert k h a. induction n as [|n IH]; intros k h a Hn H; inversion H as [|? ? p ? Hap Hpt]; subst.
  - apply map_size_empty_inv in Hn as ->. unfold proto_of in Hap. by rewrite lookup_empty in Hap.
  - cbn [in_chain]. unfold proto_of in Hap. rewrite Hap. apply orb_true_iff.
    destruct (decide (p = t)) as [->|Hne]; [left; by apply bool_decide_true|right].
    destruct (avoids h a p t k Hap Hpt) as [j Hj]. destruct j as [|j]; [inversion Hj; by subst|].
    apply (in_chain_delete a), (IH j); [|done].
    rewrite map_size_delete_Some; [lia|].
    destruct (h !! a); [by eexists|done].
Qed.

Lemma in_chain_sound n h a t : in_chain n h a t = true -> tc (proto_of h) a t.
Proof.
  revert a. induction n as [|n IH]; intros a H; [done|]. cbn [in_chain] in H.
  destruct (h !! a ≫= proto) as [p|] eqn:E; [|done].
  apply orb_true_iff in H as [H|H].
  - apply bool_decide_eq_true in H as <-. by apply tc_once.
  - eapply tc_l; [exact E|by apply IH].
Qed.

(** In any heap, also one whose prototypes went round in a circle, as many steps as there
    are objects find every prototype of an object, and nothing else. *)
Theorem in_chain_prototypes h a t : in_chain (size h) h a t = true <-> tc (proto_of h) a t.
Proof.
  split; [apply in_chain_sound|]. intros (k & H0 & H)%tc_nsteps.
  destruct k as [|k]; [lia|]. by apply (in_chain_complete k).
Qed.

(** * throws *)

Section Throws.
Context (h : heap).
Variables (matches : regexp -> value -> bool) (calls : nat -> value -> option value).

(** When a test runs, [throws] records exactly one assertion, unless the expectation
    itself throws; it passes exactly when the block throws a value that is not taken for
    false and the expectation, if there is one, accepts it. *)
Theorem throws_records block expected c i c' thrown :
  current c = Some i -> block c = (c', thrown) ->
  let expected' := match expected with VStr _ => VNull | v => v end in
  let passes v := to_bool v = true /\ verdict h matches calls v expected' = Some true in
  let r := QunitAssert.throws h matches calls block expected c in
  match thrown with
  | Some v =>
      (passes v -> r = QunitRunner.push true c') /\
      (~ passes v -> r = QunitRunner.push false c' \/ verdict h matches calls v expected' = None)
  | None => r = QunitRunner.push false c'
  end.
Proof.
  intros Hc Hb. cbn zeta. unfold QunitAssert.throws. rewrite Hc, Hb. destruct thrown as [v|]; [|done].
  set (x := match expected with VStr _ => VNull | v => v end). split.
  - intros [-> ->]. done.
  - intros Hp. destruct (to_bool v); [|by left]. destruct (verdict h matches calls v x) as [[]|] eqn:Ev.
    + by destruct Hp.
    + by left.
    + by right.
Qed.
End Throws.

(** A test is running, and its block throws. *)
Definition in_test : config := config0 <| current := Some 0 |>.

Lemma throws_records_witness :
  QunitAssert.throws ∅ (fun _ _ => true) (fun _ _ => None) (fun c => (c, Some (VNum (QunitEquiv.Num 1)))) VUndefined in_test
  = QunitRunner.push true in_test.
Proof.
  apply (throws_records ∅ (fun _ _ => true) (fun _ _ => None)
    (fun c => (c, Some (VNum (QunitEquiv.Num 1)))) VUndefined in_test 0 in_test _ eq_refl eq_refl).
  split; reflexivity.
Defined.

Lemma assertions_agree_witness :
  equal (fun _ => NotANumber) (fun _ => None) (VStr (js "1")) (VStr (js "1"))
  = strictEqual (VStr (js "1")) (VStr (js "1")).
Proof.
  exact (proj1 (assertions_agree (Globals 0 1) ∅ (fun _ => NotANumber) (fun _ => None) (VStr (js "1"))
    (VStr (js "1")) eq_refl eq_refl eq_refl ltac:(discriminate))).
Defined.

(** throw 0, or an empty text, counts as no exception. *)
Example falsy_exception_unseen :
  let run v := option_map (fun x => reports (fst x))
    (QunitAssert.throws ∅ (fun _ _ => true) (fun _ _ => None) (fun c => (c, Some v)) VUndefined in_test) in
  run (VNum (QunitEquiv.Num 0)) = Some [Log 0 false] /\ run (VStr []) = Some [Log 0 false].
Proof. vm_compute. split; reflexivity. Qed.

(** NaN fails strictEqual and equal with itself, and passes deepEqual. *)
Example nan_is_deeply_itself :
  loose_eq (fun _ => NotANumber) (fun _ => None) (VNum NotANumber) (VNum NotANumber) = Some false /\
  equiv (Globals 0 1) ∅ (VNum NotANumber) (VNum NotANumber) = Some true.
Proof. vm_compute. split; reflexivity. Qed.
