(* ===== verification/QunitText.v ===== *)
(** QunitText: the texts QUnit makes (fuelux/lib/qunit/qunit.js): the markup of assertions
    and of test names, the stack shown with them, and the address of the page with its
    parameters.

    The dumped values are texts here; QunitDump makes them. *)

From S2P Require Import Prelude Numbers Uri QunitDiff.

Local Open Scope N_scope.

(** * Markup *)

(** The replacement in [escapeInnerText]. *)
Definition entity (c : N) : jstr :=
  if decide (c = 38) then js "&amp;"
  else if decide (c = 60) then js "&lt;"
  else if decide (c = 62) then js "&gt;"
  else [c].

(** [escapeInnerText]; undefined and null give the empty text, as the empty text does. *)
Definition escapeInnerText (s : option jstr) : jstr :=
  match s with Some s => concat (map entity s) | None => [] end.

(** [a || b]. *)
Definition or_text (a b : jstr) : jstr := if truthy a then a else b.

Definition okay_failed (result : bool) : jstr := js (if result then "okay" else "failed").

Definition span_message (s : jstr) : jstr :=
  js "<span class='test-message'>" ++ s ++ js "</span>".

(** A row of the table below a message. *)
Definition row (class head s : string) (text : jstr) : jstr :=
  js s ++ js "<tr class='" ++ js class ++ js "'><th>" ++ js head ++ js ": </th><td><pre>" ++ text
  ++ js "</pre></td></tr>".

Definition source_row (s : string) (source : option jstr) : jstr :=
  if truthy source then row "test-source" "Source" s (escapeInnerText source) else [].

(** The message of [QUnit.ok]. *)
Definition ok_message (result : bool) (msg source : option jstr) : jstr :=
  let text := if truthy msg then msg else Some (okay_failed result) in
  span_message (escapeInnerText text)
  ++ if negb result && truthy source then source_row "<table>" source ++ js "</table>" else [].

(** The message of [QUnit.push], with the dumped values; [None] when [QUnit.diff] throws. *)
Definition push_message `{Inherited} (result : bool) (actual expected : jstr)
    (message source : option jstr) : option jstr :=
  let output := span_message (or_text (escapeInnerText message) (okay_failed result)) in
  if result then Some output
  else
    let expected := escapeInnerText (Some expected) in
    let actual := escapeInnerText (Some actual) in
    let output := output ++ row "test-expected" "Expected" "<table>" expected in
    output ← (if bool_decide (actual = expected) then Some output
              else diff ← QUnit_diff expected actual;
                   Some (output ++ row "test-actual" "Result" "" actual
                         ++ row "test-diff" "Diff" "" diff));
    Some (output ++ source_row "" source ++ js "</table>").

(** The message of [QUnit.pushFailure]. *)
Definition pushFailure_message (message source actual : option jstr) : jstr :=
  span_message (or_text (escapeInnerText message) (js "error")) ++ js "<table>"
  ++ (if truthy actual then row "test-actual" "Result" "" (escapeInnerText actual) else [])
  ++ source_row "" source ++ js "</table>".

(** The name of a test in [QUnit.test]. *)
Definition test_name (module : option jstr) (testName : jstr) : jstr :=
  let name := js "<span class='test-name'>" ++ escapeInnerText (Some testName) ++ js "</span>" in
  match module with
  | Some m => if truthy m then js "<span class='module-name'>" ++ m ++ js "</span>: " ++ name
              else name
  | None => name
  end.

(** * The stack *)

Record error := MkError {
  stacktrace : option jstr;
  stack : option jstr;
  sourceURL : option jstr;
  line : jstr
}.

Definition newline : N := 10.

Definition lower (c : N) : N := if bool_decide (65 <= c <= 90) then c + 32 else c.

(** The lines before the first one that names the file. *)
Fixpoint before_file (fileName : jstr) (l : list jstr) : list jstr :=
  match l with
  | [] => []
  | x :: l => if contains fileName x then [] else x :: before_file fileName l
  end.

(** [/qunit.js$/.test(s)]. *)
Definition names_qunit (s : jstr) : bool :=
  match reverse s with
  | c3 :: c2 :: c1 :: r =>
      bool_decide (c3 = 115 /\ c2 = 106) && negb (bool_decide (c1 ∈ [10; 13; 8232; 8233]))
      && starts_with (js "tinuq") r
  | _ => false
  end.

(** [extractStacktrace]; undefined is [None]. *)
Definition extractStacktrace (fileName : jstr) (e : error) (offset : nat) : option jstr :=
  if truthy (stacktrace e)
  then split newline (default [] (stacktrace e)) !! (offset + 3)%nat
  else if truthy (stack e) then
    let l := split newline (default [] (stack e)) in
    let l := match l with
             | x :: l' => if bool_decide (map lower x = js "error") then l' else l
             | [] => l
             end in
    let include := if truthy fileName then before_file fileName (drop offset l) else [] in
    match include with
    | [] => l !! offset
    | _ => Some (join [newline] include)
    end
  else match sourceURL e with
       | Some u =>
           if negb (truthy u) || names_qunit u
           then None else Some (u ++ js ":" ++ line e)
       | None => None
       end.

(** * The address *)

(** A parameter of the address: a name alone stands for true. *)
Inductive param := PTrue | PText (s : jstr).

Abbreviation params := (list (jstr * param)).

Definition param_text (p : param) : jstr := match p with PTrue => js "true" | PText s => s end.

(** [o[k] = v] and [delete o[k]]; integer names, which an object lists first, are in their
    places here. *)
Fixpoint set_param (k : jstr) (v : param) (o : params) : params :=
  match o with
  | [] => [(k, v)]
  | p :: o => if decide (p.1 = k) then (k, v) :: o else p :: set_param k v o
  end.

Definition delete_param (k : jstr) (o : params) : params := filter (fun p => p.1 ≠ k) o.

(** [extend]: a property that is undefined is deleted. *)
Definition extend (a : params) (b : list (jstr * option param)) : params :=
  fold_left (fun a kv => match kv.2 with
                         | Some v => set_param kv.1 v a
                         | None => delete_param kv.1 a
                         end) b a.

(** One parameter with its ampersand; a lone surrogate is a URIError. *)
Definition param_part (p : jstr * param) : option jstr :=
  k ← encodeURIComponent p.1; v ← encodeURIComponent (param_text p.2);
  Some (k ++ js "=" ++ v ++ js "&").

(** [QUnit.url]: the text after the path. *)
Definition url (urlParams : params) (b : list (jstr * option param)) : option jstr :=
  parts ← mapM param_part (extend urlParams b);
  Some (but_last (js "?" ++ concat parts)).

(** One parameter read; a malformed escape is a URIError. *)
Definition read_param (s : jstr) : option (jstr * param) :=
  match split 61 s with
  | [] => None
  | k :: r =>
      k ← decodeURIComponent k;
      match r with
      | v :: _ => if truthy v then v ← decodeURIComponent v; Some (k, PText v) else Some (k, PTrue)
      | [] => Some (k, PTrue)
      end
  end.

(** [QUnit.urlParams], from [location.search]. *)
Definition read_search (search : jstr) : option params :=
  let l := split 38 (drop 1 search) in
  match l with
  | [] | [] :: _ => Some []
  | _ => ps ← mapM read_param l; Some (fold_left (fun o p => set_param p.1 p.2 o) ps [])
  end.
