(* ===== verification/QunitTextFacts.v ===== *)
(** QunitTextFacts: escaped text reads back and holds no markup; whatever is compared, the
    message of an assertion has only the tags of the framework; and the address gives its
    parameters back. *)

From S2P Require Import Prelude Numbers Uri QunitDiff QunitDiffFacts QunitText.

Local Open Scope N_scope.

(** * Escaping *)

(** How a browser reads the entities the framework writes, after [skip] more characters. *)
Fixpoint read_from (skip : nat) (s : jstr) : jstr :=
  match s, skip with
  | [], _ => []
  | _ :: s, S skip => read_from skip s
  | c :: s, 0%nat =>
      if decide (c = 38) then
        if starts_with (js "amp;") s then 38 :: read_from 4 s
        else if starts_with (js "lt;") s then 60 :: read_from 3 s
        else if starts_with (js "gt;") s then 62 :: read_from 3 s
        else c :: read_from 0 s
      else c :: read_from 0 s
  end.

Definition read_text : jstr -> jstr := read_from 0.

(** No character that begins or ends a tag. *)
Definition plain_text (s : jstr) : bool := forallb (fun c => negb (bool_decide (c = 60 \/ c = 62))) s.

Lemma plain_app a b : plain_text (a ++ b) = plain_text a && plain_text b.
Proof. apply forallb_app. Qed.

Lemma entity_plain c : plain_text (entity c) = true.
Proof.
  unfold entity. repeat case_decide; try reflexivity. cbn.
  rewrite bool_decide_false; [done|]. by intros [->| ->].
Qed.

Lemma escaped_plain s : plain_text (escapeInnerText s) = true.
Proof.
  destruct s as [s|]; [|done]. cbn. induction s as [|c s IH]; [done|]. cbn.
  by rewrite plain_app, entity_plain.
Qed.

(** Escaped text has no angle brackets, and the browser shows the text it was made from. *)
Theorem escape_reads_back s :
  plain_text (escapeInnerText (Some s)) = true /\ read_text (escapeInnerText (Some s)) = s.
Proof.
  split; [apply escaped_plain|]. unfold escapeInnerText, read_text.
  induction s as [|c s IH]; [done|]. cbn [map concat].
  unfold entity. destruct (decide (c = 38)) as [->|H1]; [|destruct (decide (c = 60)) as [->|H2];
    [|destruct (decide (c = 62)) as [->|H3]]].
  - change (38 :: read_from 0 (concat (map entity s)) = 38 :: s). by rewrite IH.
  - change (60 :: read_from 0 (concat (map entity s)) = 60 :: s). by rewrite IH.
  - change (62 :: read_from 0 (concat (map entity s)) = 62 :: s). by rewrite IH.
  - transitivity (c :: read_from 0 (concat (map entity s))); [|by rewrite IH].
    cbn -[starts_with]. by rewrite decide_False.
Qed.

(** * Tags *)

(** The tags of a markup, and what is read of one at its end; [st] is the tag begun. *)
Fixpoint scan (st : option jstr) (s : jstr) : list jstr * option jstr :=
  match s with
  | [] => ([], st)
  | c :: s =>
      match st with
      | None => scan (if decide (c = 60) then Some [] else None) s
      | Some t =>
          if decide (c = 62) then let '(l, e) := scan None s in (t :: l, e)
          else scan (Some (t ++ [c])) s
      end
  end.

(** Complete markup with tags of [l] only. *)
Definition tags_in (l : list jstr) (s : jstr) : Prop :=
  (scan None s).2 = None /\ Forall (fun t => t ∈ l) (scan None s).1.

Lemma scan_app st a b :
  scan st (a ++ b) = ((scan st a).1 ++ (scan (scan st a).2 b).1, (scan (scan st a).2 b).2).
Proof.
  revert st. induction a as [|c a IH]; intros st; [cbn; by destruct (scan st b)|].
  cbn [app scan]. destruct st as [t|]; [|apply IH].
  case_decide; [|apply IH]. rewrite IH. by destruct (scan None a) as [l e].
Qed.

Lemma tags_app l a b : tags_in l a -> tags_in l b -> tags_in l (a ++ b).
Proof.
  unfold tags_in. rewrite scan_app. intros [E1 F1] [E2 F2]. rewrite E1. cbn [fst snd].
  split; [done|]. by apply Forall_app.
Qed.

Lemma scan_plain s : plain_text s = true -> scan None s = ([], None).
Proof.
  induction s as [|c s IH]; intros Hs; [done|]. cbn in *. apply andb_true_iff in Hs as [Hc Hs].
  apply negb_true_iff, bool_decide_eq_false in Hc. rewrite decide_False by naive_solver. auto.
Qed.

Lemma tags_plain l s : plain_text s = true -> tags_in l s.
Proof. intros Hs. unfold tags_in. by rewrite scan_plain. Qed.

(** A text of the source: computed. *)
Lemma tags_literal l s :
  (scan None s).2 = None -> forallb (fun t => bool_decide (t ∈ l)) (scan None s).1 = true ->
  tags_in l s.
Proof.
  intros H1 H2. split; [done|]. apply Forall_forall. intros t Ht.
  rewrite forallb_forall in H2. apply (bool_decide_eq_true_1 (t ∈ l)), H2.
  by apply list_elem_of_In.
Qed.

(** The tags of the messages. *)
Definition own_tags : list jstr := map js
  ["span class='test-message'"; "/span"; "table"; "/table";
   "tr class='test-expected'"; "tr class='test-actual'"; "tr class='test-diff'";
   "tr class='test-source'"; "/tr"; "th"; "/th"; "td"; "/td"; "pre"; "/pre";
   "del"; "/del"; "ins"; "/ins"]%string.

Definition own (s : jstr) : Prop := tags_in own_tags s.

Lemma own_app a b : own a -> own b -> own (a ++ b).
Proof. apply tags_app. Qed.

Lemma own_plain s : plain_text s = true -> own s.
Proof. apply tags_plain. Qed.

Lemma own_escape s : own (escapeInnerText s).
Proof. apply own_plain, escaped_plain. Qed.

Create HintDb markup.
#[export] Hint Resolve own_app own_plain own_escape : markup.

(** A literal is evaluated. *)
Ltac literal := apply tags_literal; vm_compute; reflexivity.
#[export] Hint Extern 2 (own (js _)) => literal : markup.

(** * The difference holds no other markup *)

Definition plain (s : jstr) : Prop := plain_text s = true.

Lemma plain_cons c s : plain (c :: s) <-> plain [c] /\ plain s.
Proof. unfold plain. cbn. rewrite !andb_true_iff. tauto. Qed.

Lemma trim_end_plain s : plain s -> plain (trim_end s).
Proof.
  induction s as [|c s IH]; intros Hs; [done|]. apply plain_cons in Hs as [Hc Hs]. cbn.
  destruct (trim_end s); [by destruct (js_space c)|]. apply plain_cons. auto.
Qed.

Lemma split_ws_plain s :
  plain s -> Forall plain (split_ws s).1 /\ Forall plain (split_ws s).2.
Proof.
  induction s as [|c s IH]; intros Hs; [by repeat constructor|].
  apply plain_cons in Hs as [Hc Hs]. specialize (IH Hs) as [Hw Hp]. cbn [split_ws].
  destruct (split_ws s) as [ws sp]. cbn [fst snd] in *.
  assert (Forall plain ([] :: ws)) as Hw0 by by constructor.
  assert (Forall plain ([c] :: sp)) as Hp0 by by constructor.
  destruct (js_space c).
  - destruct s as [|d s], sp as [|x sp]; try done. destruct (js_space d); [|done].
    split; [done|]. apply Forall_cons in Hp as [Hx Hp]. constructor; [|done]. by apply plain_cons.
  - destruct ws as [|w ws]; [by repeat constructor|]. apply Forall_cons in Hw as [Hx Hw].
    split; [|done]. constructor; [|done]. by apply plain_cons.
Qed.

Lemma words_plain s : plain s -> Forall plain (words s).
Proof. intros Hs. unfold words. destruct (truthy s); [by apply split_ws_plain|constructor]. Qed.

Lemma spaces_plain s : plain s -> Forall plain (spaces s).
Proof.
  intros Hs. unfold spaces. destruct (split_ws_plain s Hs) as [_ Hp].
  destruct (split_ws s).2; [by repeat constructor|].
  apply Forall_app. split; [done|by repeat constructor].
Qed.

Definition plain_cell (p : cell * jstr) : Prop := plain (cell_text p.1) /\ plain p.2.

Definition plain_piece (p : piece) : Prop :=
  match p with Del w sp | Ins w sp | Keep w sp => plain w /\ plain sp end.

Lemma spaced_plain l sp :
  Forall plain (map cell_text l) -> Forall plain sp -> Forall plain_cell (spaced l sp).
Proof.
  intros Hl Hsp. unfold spaced. apply Forall_lookup. intros i p Hi.
  rewrite list_lookup_imap in Hi. destruct (l !! i) as [c|] eqn:E; [|done]. cbn in Hi.
  injection Hi as <-. split; cbn [fst snd].
  - rewrite Forall_lookup in Hl. apply (Hl i). by rewrite list_lookup_fmap, E.
  - destruct (sp !! i) eqn:E2; [|reflexivity]. cbn. rewrite Forall_lookup in Hsp. by apply (Hsp i).
Qed.

Lemma dels_plain o : Forall plain_cell o -> Forall plain_piece (dels o).
Proof.
  induction 1 as [|[c sp] o [H1 H2] _ IH]; [constructor|]. cbn.
  destruct (unmatched c); [|constructor]. by constructor.
Qed.

Lemma piece_of_plain o p : Forall plain_cell o -> plain_cell p -> Forall plain_piece (piece_of o p).
Proof.
  intros Ho [H1 H2]. destruct p as [[w|w r] sp]; cbn in *; (constructor; [done|]); [constructor|].
  by apply dels_plain, Forall_drop.
Qed.

Lemma pieces_plain o n :
  Forall plain_cell o -> Forall plain_cell n -> Forall plain_piece (pieces o n).
Proof.
  intros Ho Hn. destruct n as [|[c sp] n]; cbn [pieces].
  - apply Forall_map. eapply Forall_impl; [exact Ho|]. by intros [].
  - apply Forall_app. split; [destruct (unmatched c); [by apply dels_plain|constructor]|].
    apply Forall_concat, Forall_map. eapply Forall_impl; [exact Hn|]. intros p.
    by apply piece_of_plain.
Qed.

Lemma piece_own p : plain_piece p -> own (piece_text p).
Proof.
  destruct p as [w sp|w sp|w sp]; intros [H1 H2]; cbn [piece_text].
  1-2: apply own_app; [literal|]; apply own_app; [by apply own_plain|];
    apply own_app; [by apply own_plain|literal].
  apply own_app; [literal|]. apply own_app; by apply own_plain.
Qed.

Lemma diff_own `{Inherited} o n d :
  plain o -> plain n -> QUnit_diff o n = Some d -> own d.
Proof.
  intros Ho Hn. unfold QUnit_diff, QUnit_diff_pieces.
  apply trim_end_plain in Ho, Hn. revert Ho Hn. generalize (trim_end o) (trim_end n). clear o n.
  intros o n Ho Hn. destruct (diff (words o) (words n)) as [[ao an]|] eqn:E; [|done].
  cbn -[spaced pieces js]. intros [= <-]. destruct (diff_partners _ _ _ E) as (E1 & E2 & _). cbn in E1, E2.
  assert (Forall plain_piece (pieces (spaced ao (spaces o)) (spaced an (spaces n)))) as Hp.
  { apply pieces_plain; apply spaced_plain;
      rewrite ?E1, ?E2; auto using words_plain, spaces_plain. }
  induction Hp as [|p l Hp _ IH]; [by apply own_plain|]. cbn [map concat].
  apply own_app; [by apply piece_own|done].
Qed.

(** * Messages *)

Lemma row_own class head s text :
  own (js s) -> own (js "<tr class='" ++ js class ++ js "'><th>" ++ js head ++ js ": </th><td><pre>") ->
  own text -> own (row class head s text).
Proof.
  intros H1 H2 H3. unfold row.
  replace (js "<tr class='" ++ js class ++ js "'><th>" ++ js head ++ js ": </th><td><pre>" ++ text
           ++ js "</pre></td></tr>")
    with ((js "<tr class='" ++ js class ++ js "'><th>" ++ js head ++ js ": </th><td><pre>") ++ text
          ++ js "</pre></td></tr>") by (rewrite <- !app_assoc; done).
  apply own_app; [done|]. apply own_app; [done|]. apply own_app; [done|literal].
Qed.

(** Whatever values and messages an assertion has, its message is complete markup with
    the framework's own tags only; there is none when a word of the two texts shown is a
    name that empty objects inherit. *)
Theorem message_markup `{Inherited} result actual expected message source out :
  push_message result actual expected message source = Some out -> own out.
Proof.
  unfold push_message. set (msg := span_message _).
  assert (own msg) as Hm.
  { unfold msg, span_message. apply own_app; [literal|]. apply own_app; [|literal].
    unfold or_text. destruct (truthy _); [apply own_escape|].
    by apply own_plain; destruct result. }
  destruct result; [by intros [= <-]|]. cbn zeta.
  pose proof (escaped_plain (Some actual)) as Ha. pose proof (escaped_plain (Some expected)) as He.
  revert Ha He. generalize (escapeInnerText (Some actual)) (escapeInnerText (Some expected)).
  clear actual expected. intros a e Ha He.
  assert (own (source_row "" source ++ js "</table>")) as Hs.
  { apply own_app; [|literal]. unfold source_row. destruct (truthy source); [|by apply own_plain].
    apply row_own; [literal|literal|apply own_escape]. }
  assert (own (msg ++ row "test-expected" "Expected" "<table>" e)) as Hr.
  { apply own_app; [done|]. apply row_own; [literal|literal|by apply own_plain]. }
  clearbody msg. case_bool_decide; cbn [mbind option_bind].
  - intros H1. apply (inj Some) in H1 as <-. by apply own_app.
  - destruct (QUnit_diff e a) as [d|] eqn:E; [|done]. cbn [mbind option_bind].
    intros H1. apply (inj Some) in H1 as <-.
    apply own_app; [|done]. apply own_app; [done|].
    apply own_app; (apply row_own; [literal|literal|]); [by apply own_plain|].
    by apply (diff_own e a).
Qed.

Lemma message_markup_witness :
  exists out, push_message false (js "<b>2</b>") (js "1 & 3") (Some (js "<i>")) (Some (js "at f")) = Some out
    /\ own out.
Proof.
  eexists. split; [vm_compute; reflexivity|].
  apply (message_markup false (js "<b>2</b>") (js "1 & 3") (Some (js "<i>")) (Some (js "at f"))).
  vm_compute. reflexivity.
Defined.

(** The name of a module is not escaped, as the name of a test is. *)
Example module_name_is_markup :
  (scan None (test_name (Some (js "<b>M</b>")) (js "<i>T</i>"))).1
  = map js ["span class='module-name'"; "b"; "/b"; "/span"; "span class='test-name'"; "/span"]%string.
Proof. vm_compute. reflexivity. Qed.

(** * The address *)

(** A parameter that is read back: a text without lone surrogates, not empty. *)
Definition readable (p : jstr * param) : Prop :=
  well_formed p.1 = true /\ well_formed (param_text p.2) = true /\ param_text p.2 ≠ [].

(** What is read is a text. *)
Definition as_text (p : jstr * param) : jstr * param := (p.1, PText (param_text p.2)).

Lemma encoded_without c e : uri_char c = false -> forallb uri_char e = true -> c ∉ e.
Proof.
  intros Hc He Hin. rewrite forallb_forall in He. apply list_elem_of_In, He in Hin. congruence.
Qed.

(** One parameter: its part without the ampersand. *)
Lemma param_part_reads p :
  readable p ->
  exists q, param_part p = Some (q ++ [38]) /\ (38 ∉ q) /\ q ≠ [] /\ read_param q = Some (as_text p).
Proof.
  intros (Hk & Hv & Hne). destruct p as [k v]. cbn [fst snd] in *.
  destruct (encode_decode k Hk) as (k' & Ek & Dk & Ck).
  destruct (encode_decode _ Hv) as (v' & Ev & Dv & Cv).
  exists (k' ++ [61] ++ v'). unfold param_part. cbn [fst snd]. rewrite Ek, Ev.
  assert (v' ≠ []) as Hv'. { intros ->. apply Hne. cbn in Dv. by injection Dv. }
  split; [cbn; by rewrite <- !app_assoc|].
  split. { rewrite !not_elem_of_app, list_elem_of_singleton.
    split_and!; [by apply encoded_without|done|by apply encoded_without]. }
  split. { by intros [_ [? _]%app_eq_nil]%app_eq_nil. }
  unfold read_param. cbn [app]. rewrite split_app_sep by by apply encoded_without.
  rewrite split_no_sep by by apply encoded_without. rewrite Dk. cbn [mbind option_bind].
  destruct v' as [|c v']; [done|]. cbn [truthy truthy_str]. by rewrite Dv.
Qed.

Lemma set_param_new k v o : k ∉ map fst o -> set_param k v o = o ++ [(k, v)].
Proof.
  induction o as [|[k' v'] o IH]; intros Hk; [done|]. cbn in *.
  apply not_elem_of_cons in Hk as [H1 H2]. by rewrite decide_False, IH.
Qed.

Lemma set_params_new l o :
  NoDup (map fst (o ++ l)) -> fold_left (fun o p => set_param p.1 p.2 o) l o = o ++ l.
Proof.
  revert o. induction l as [|[k v] l IH]; intros o Hnd; [by rewrite app_nil_r|]. cbn.
  rewrite set_param_new.
  - rewrite IH by by rewrite <- app_assoc. by rewrite <- app_assoc.
  - rewrite map_app in Hnd. apply NoDup_app in Hnd as (_ & Hd & _). intros Hin.
    apply (Hd k Hin). left.
Qed.

(** The names of an object are different. *)
Lemma set_param_names k v o x : x ∈ map fst (set_param k v o) -> x = k \/ x ∈ map fst o.
Proof.
  induction o as [|[k' v'] o IH]; cbn; [set_solver|]. case_decide; cbn in *; set_solver.
Qed.

Lemma set_param_nodup k v o : NoDup (map fst o) -> NoDup (map fst (set_param k v o)).
Proof.
  induction o as [|[k' v'] o IH]; intros Hnd; cbn; [repeat constructor; set_solver|].
  apply NoDup_cons in Hnd as [H1 H2]. case_decide as E; cbn in *.
  - subst. by constructor.
  - constructor; [|by apply IH]. intros [->|?]%set_param_names; done.
Qed.

Lemma delete_param_nodup k o : NoDup (map fst o) -> NoDup (map fst (delete_param k o)).
Proof.
  unfold delete_param. induction o as [|[k' v'] o IH]; intros Hnd; [done|].
  apply NoDup_cons in Hnd as [H1 H2]. destruct (decide (k' ≠ k)).
  2: { rewrite filter_cons_False by done. by apply IH. }
  rewrite filter_cons_True by done. constructor; [|by apply IH]. intros Hin. apply H1. cbn in *.
  apply list_elem_of_fmap in Hin as (p & -> & Hp). apply list_elem_of_filter in Hp as [_ Hp].
  apply list_elem_of_fmap. by exists p.
Qed.

Lemma extend_nodup a b : NoDup (map fst a) -> NoDup (map fst (extend a b)).
Proof.
  unfold extend. revert a. induction b as [|[k [v|]] b IH]; intros a Ha; [done|..]; apply IH.
  - by apply set_param_nodup.
  - by apply delete_param_nodup.
Qed.

(** The address made of the page's parameters and some changes is read back as just
    those parameters, in their order; a flag comes back as the text "true". *)
Theorem url_reads_back urlParams b :
  NoDup (map fst urlParams) -> Forall readable (extend urlParams b) ->
  exists q, url urlParams b = Some q
    /\ read_search q = Some (map as_text (extend urlParams b)).
Proof.
  intros Hnd Hr. apply (extend_nodup _ b) in Hnd. unfold url.
  revert Hnd Hr. generalize (extend urlParams b). clear urlParams b. intros ps Hnd Hr.
  assert (exists qs, mapM param_part ps = Some (map (fun q => q ++ [38]) qs)
    /\ Forall (fun q => 38 ∉ q) qs /\ Forall (fun q => q ≠ []) qs
    /\ mapM read_param qs = Some (map as_text ps)) as (qs & E1 & H1 & H2 & E2).
  { clear Hnd. induction Hr as [|p ps Hp _ (qs & E1 & H1 & H2 & E2)]; [by exists []|].
    destruct (param_part_reads p Hp) as (q & Eq & Hq & Hne & Er). exists (q :: qs).
    cbn. rewrite Eq, E1, Er, E2. cbn. split_and!; try done; by constructor. }
  rewrite E1. cbn [mbind option_bind]. eexists. split; [reflexivity|].
  destruct qs as [|q0 qs0]; [cbn in E2; injection E2 as E2; destruct ps; done|].
  set (qs := q0 :: qs0) in *.
  assert (but_last (js "?" ++ concat (map (fun q => q ++ [38]) qs)) = js "?" ++ join [38] qs) as ->.
  { enough (concat (map (fun q => q ++ [38]) qs) = join [38] qs ++ [38]) as ->.
    { unfold but_last. rewrite app_assoc, length_app. cbn [length].
      rewrite Nat.add_sub. by rewrite take_app_length. }
    subst qs. clear. revert q0. induction qs0 as [|q1 qs IH]; intros q0; [cbn; by rewrite app_nil_r|].
    cbn [map concat]. rewrite join_cons by done. cbn [map concat] in IH. rewrite IH.
    by rewrite <- !app_assoc. }
  unfold read_search. change (drop 1 (js "?" ++ join [38] qs)) with (join [38] qs).
  rewrite split_join by done. subst qs. apply Forall_cons in H2 as [Hq0 _].
  destruct q0 as [|c q0]; [done|]. rewrite E2. cbn [mbind option_bind]. f_equal.
  rewrite set_params_new; [done|]. cbn [app]. by rewrite map_map.
Qed.

Lemma url_reads_back_witness :
  exists q, url [(js "filter", PText (js "a b")); (js "noglobals", PTrue)]
                [(js "testNumber", Some (PText (js "7"))); (js "filter", None)] = Some q
    /\ read_search q = Some [(js "noglobals", PText (js "true")); (js "testNumber", PText (js "7"))].
Proof.
  apply (url_reads_back [(js "filter", PText (js "a b")); (js "noglobals", PTrue)]
           [(js "testNumber", Some (PText (js "7"))); (js "filter", None)]).
  - by apply (bool_decide_unpack _).
  - repeat constructor; discriminate.
Defined.
