(* ===== verification/QunitDump.v ===== *)
(** QunitDump: [QUnit.jsDump] of the test framework (fuelux/lib/qunit/qunit.js), the text
    of the values an assertion shows.

    The settings are the given ones: several lines, no HTML.  [_depth_] and the stack of
    the objects that are being dumped are arguments, both being restored on the way out of
    a call that returns; an exception leaves [_depth_] where it was thrown.  The innermost
    object comes first.  NodeLists are left out. *)

From S2P Require Import Prelude Numbers QunitEquiv.

(** Texts that are up to the browser: a date, a function's source, any other object; and what
    the property toLowerCase of an object returns, when it is called, if it does. *)
Class Texts := {
  date_text : number -> jstr;
  function_text : nat -> jstr;
  object_text : nat -> jstr;
  lower_text : nat -> option jstr;
  toLowerCase : jstr -> jstr
}.

(** A call of [parse]: deeper than the fuel, ended by an exception that leaves [_depth_] at
    [depth], or with its text. *)
Inductive call (A : Type) := TooDeep | Threw (depth : nat) | Shown (a : A).

Arguments TooDeep {A}.
Arguments Threw {A} depth.
Arguments Shown {A} a.

#[export] Instance call_ret : MRet call := @Shown.

#[export] Instance call_bind : MBind call := fun A B f r =>
  match r with
  | TooDeep => TooDeep
  | Threw d => Threw d
  | Shown a => f a
  end.

Section Dump.
Context `{Texts} (h : heap).

(** * Parts *)

(** [quote]. *)
Definition quote (s : jstr) : jstr :=
  dquote :: flat_map (fun c => if decide (c = dquote) then [backslash; dquote] else [c]) s
  ++ [dquote].

Definition number_text (n : number) : jstr :=
  match n with
  | NotANumber => js "NaN"
  | Num z => text_of_Z z
  | Inf neg => if neg then js "-Infinity" else js "Infinity"
  end.

Definition flag (b : bool) (s : string) : jstr := if b then js s else [].

(** [r + ""]. *)
Definition regexp_text (r : regexp) : jstr :=
  js "/" ++ source r ++ js "/" ++ flag (global r) "g" ++ flag (ignoreCase r) "i"
  ++ flag (multiline r) "m" ++ flag (default false (sticky r)) "y".

(** [v + ""]. *)
Definition literal (v : value) : jstr :=
  match v with
  | VUndefined => js "undefined"
  | VNull => js "null"
  | VBool b => js (if b then "true" else "false")
  | VNum n => number_text n
  | VStr s => s
  | VRef l =>
      match o_kind <$> h !! l with
      | Some (Date t) => date_text t
      | Some (Regexp r) => regexp_text r
      | Some Func => function_text l
      | _ => object_text l
      end
  end.

(** [indent(extra)] at a depth: two spaces less one time. *)
Definition indent (depth extra : nat) : jstr := concat (repeat (js "  ") (depth + extra - 1)).

Definition separator : jstr := [10%N].

(** [join] of an array and of a text. *)
Definition join_text (depth : nat) (pre arr post : jstr) : jstr :=
  if truthy arr
  then join separator [pre; indent depth 1 ++ arr; indent depth 0 ++ post]
  else pre ++ post.

Definition join_array (depth : nat) (pre : jstr) (arr : list jstr) (post : jstr) : jstr :=
  join_text depth pre (join (js "," ++ separator ++ indent depth 1) arr) post.

(** * [typeOf] *)

Inductive dump_type := DNull | DUndefined | DRegexp | DDate | DFunction | DWindow | DDocument
  | DNode | DArray | DObject | DNumber | DString | DBoolean.

Definition truthy_value (v : value) : bool :=
  match v with
  | VUndefined | VNull => false
  | VBool b => b
  | VNum n => match n with NotANumber => false | Num z => negb (bool_decide (z = 0%Z)) | Inf _ => true end
  | VStr s => truthy s
  | VRef _ => true
  end.

(** An object by its properties; [typeof obj.setInterval !== undefined] is always true. *)
Definition object_type (o : object) : dump_type :=
  if negb (bool_decide (get o (js "document") = VUndefined))
     && bool_decide (get o (js "nodeType") = VUndefined) then DWindow
  else if bool_decide (get o (js "nodeType") = VNum (Num 9)) then DDocument
  else if truthy_value (get o (js "nodeType")) then DNode
  else match o_kind o with Array _ => DArray | _ => DObject end.

Definition typeOf (v : value) : dump_type :=
  match v with
  | VUndefined => DUndefined
  | VNull => DNull
  | VBool _ => DBoolean
  | VNum _ => DNumber
  | VStr _ => DString
  | VRef l =>
      match h !! l with
      | Some o => match o_kind o with
                  | Regexp _ => DRegexp
                  | Date _ => DDate
                  | Func => DFunction
                  | _ => object_type o
                  end
      | None => DUndefined
      end
  end.

(** * The parsers *)

(** [reName.exec(fn)[1]], for a match of [/^function (\w+)/]. *)
Definition is_word (c : N) : bool :=
  bool_decide (48 <= c <= 57)%N || bool_decide (65 <= c <= 90)%N || bool_decide (97 <= c <= 122)%N
  || bool_decide (c = 95)%N.

Fixpoint word_prefix (s : jstr) : jstr :=
  match s with
  | c :: s => if is_word c then c :: word_prefix s else []
  | [] => []
  end.

Definition re_name (s : jstr) : jstr :=
  if starts_with (js "function ") s then word_prefix (drop 9 s) else [].

(** The name shown of a function. *)
Definition function_name (l : nat) (o : object) : jstr :=
  match lookup_prop (js "name") (enumerable o ++ hidden o) with
  | Some v => if truthy_value v then literal v else []
  | None => re_name (function_text l)
  end.

(** ["functionArgs"]: letters for the parameters. *)
Definition function_args (o : object) : jstr :=
  match get o (js "length") with
  | VNum (Num z) =>
      if bool_decide (0 < z)%Z
      then js " " ++ join (js ", ") (map (fun i => [(97 + N.of_nat i)%N]) (seq 0 (Z.to_nat z)))
           ++ js " "
      else []
  | _ => []
  end.

Definition function_dump (depth l : nat) (o : object) : jstr :=
  let name := function_name l o in
  let ret := js "function" ++ (if truthy name then js " " ++ name else []) ++ js "( " in
  join_text depth (ret ++ function_args o ++ js "){") (js "[code]") (js "}").

(** One attribute of a node. *)
Definition node_attribute (o : object) (p : string * string) : jstr :=
  let v := get o (js p.2) in
  if truthy_value v then js " " ++ js p.1 ++ js "=" ++ quote (literal v) else [].

(** [node.nodeName.toLowerCase()]: what is no text has no such method, if it is not an
    object's own; undefined and null have none at all. *)
Definition lower_name (v : value) : option jstr :=
  match v with
  | VStr s => Some (toLowerCase s)
  | VRef l =>
      match o_kind <$> h !! l with
      | Some (Wrapper (VStr s)) => Some (toLowerCase s)
      | _ => lower_text l
      end
  | _ => None
  end.

Definition node_dump (depth : nat) (o : object) : call jstr :=
  match lower_name (get o (js "nodeName")) with
  | None => Threw depth
  | Some tag =>
      Shown (js "<" ++ tag
        ++ concat (map (node_attribute o) [("id", "id"); ("name", "name"); ("class", "className")]%string)
        ++ js "></" ++ tag ++ js ">")
  end.

(** [Object.keys(map)], sorted. *)
Definition keys (o : object) : list jstr :=
  sort_names (filter (fun k => k ∉ from_proto o) (map fst (enumerable o))).

Definition elements (o : object) : list value :=
  match o_kind o with Array l => l | _ => [] end.

(** [parse]; an array from its end on. *)
Fixpoint parse (fuel depth : nat) (stack : list nat) (v : value) : call jstr :=
  match fuel with
  | 0 => TooDeep
  | S fuel =>
      match v with
      | VRef l =>
          match list_find (fun p => p = l) stack with
          | Some (i, _) => Shown (js "recursion(" ++ text_of_Z (- Z.of_nat (i + 1)) ++ js ")")
          | None =>
              match h !! l with
              | None => Shown (literal v)     (* there is no such value *)
              | Some o =>
                  match typeOf v with
                  | DArray =>
                      ret ← mapM (parse fuel (depth + 1) (l :: stack)) (reverse (elements o));
                      Shown (join_array depth (js "[") (reverse ret) (js "]"))
                  | DObject =>
                      ret ← mapM (fun key =>
                              val ← parse fuel (depth + 1) (l :: stack) (get o key);
                              Shown (quote key ++ js ": " ++ val)) (keys o);
                      Shown (join_array depth (js "{") ret (js "}"))
                  | DFunction => Shown (function_dump depth l o)
                  | DNode => node_dump depth o
                  | DDate => Shown (quote (literal v))
                  | DRegexp => Shown (literal v)
                  | DWindow => Shown (js "[Window]")
                  | _ => Shown (js "[Document]")
                  end
              end
          end
      | VStr s => Shown (quote s)
      | _ => Shown (literal v)
      end
  end.

(** A dump while [_depth_] is [depth], 1 at first.  A depth of calls of one more than the
    objects there are is enough (see [parse_returns]). *)
Definition jsDump (depth : nat) (v : value) : call jstr := parse (size h + 1) depth [] v.

End Dump.
