(* ===== verification/QunitDumpFacts.v ===== *)
(** QunitDumpFacts: every dump ends, cycles or not, with a text unless it meets something
    like a node without a name; data that are deeply equal have the same text; and some that
    are not, too. *)

From stdpp Require Import sorting.
From S2P Require Import Prelude Numbers QunitEquiv QunitEquivFacts QunitDump.

Section Facts.
Context `{Texts} (g : globals) (h : heap).

(** * It always ends *)

(** The call comes back, and with an exception only if [P]. *)
Definition comes_back {A} (P : Prop) (r : call A) : Prop :=
  match r with TooDeep => False | Threw _ => P | Shown _ => True end.

Lemma bind_comes_back {A B} P (r : call A) (f : A -> call B) :
  comes_back P r -> (forall x, r = Shown x -> comes_back P (f x)) -> comes_back P (r ≫= f).
Proof. destruct r; cbn; auto. Qed.

Lemma mapM_comes_back {A B} P (f : A -> call B) l :
  (forall x, comes_back P (f x)) -> comes_back P (mapM f l).
Proof.
  intros Hf. induction l as [|x l IH]; [done|]. cbn. apply bind_comes_back; [done|].
  intros y _. by apply bind_comes_back.
Qed.

(** There is an object that looks like a node, with no name that can be put in lower case. *)
Definition nameless_node : Prop :=
  exists l o, h !! l = Some o /\ typeOf h (VRef l) = DNode /\ lower_name h (get o (js "nodeName")) = None.

Lemma parse_returns fuel depth stack v :
  (size (fresh_objects h stack) < fuel)%nat ->
  comes_back nameless_node (parse h fuel depth stack v).
Proof.
  revert depth stack v. induction fuel as [|fuel IH]; intros depth stack v Hf; [lia|].
  destruct v as [| | | | |l]; try done. cbn [parse].
  destruct (list_find (fun p => p = l) stack) as [[i p]|] eqn:E; [done|].
  destruct (h !! l) as [o|] eqn:Eo; [|done].
  assert (size (fresh_objects h (l :: stack)) < fuel)%nat as Hd.
  { apply deeper; [by exists o| |done]. intros Hl. apply list_find_None in E.
    rewrite Forall_forall in E. by apply (E l Hl). }
  destruct (typeOf h (VRef l)) eqn:Et; try done.
  - unfold node_dump. destruct (lower_name h _) eqn:En; [done|]. by exists l, o.
  - apply bind_comes_back; [|done]. apply mapM_comes_back. intros x. by apply IH.
  - apply bind_comes_back; [|done]. apply mapM_comes_back. intros x.
    apply bind_comes_back; [by apply IH|done].
Qed.

Lemma mapM_shown {A B} (f : A -> call B) l k :
  mapM f l = Shown k -> Forall2 (fun x y => f x = Shown y) l k.
Proof.
  revert k. induction l as [|x l IH]; intros k; cbn; [intros [= <-]; constructor|].
  destruct (f x) as [| |y] eqn:E; [done..|]. cbn. destruct (mapM f l) as [| |m]; [done..|].
  cbn. intros [= <-]. constructor; auto.
Qed.

(** * Data *)

(** A primitive value as it is shown. *)
Definition prim_text (v : value) : jstr :=
  match v with VStr s => quote s | _ => literal h v end.

Definition assoc {A} (k : jstr) (l : list (jstr * A)) : option A :=
  snd <$> (snd <$> list_find (fun p => p.1 = k) l).

(** The text of a tree: the properties sorted by their names. *)
Fixpoint tree_text (depth : nat) (t : tree) : jstr :=
  match t with
  | TPrim v => prim_text v
  | TDate z => quote (date_text (Num z))
  | TRegexp r => regexp_text r
  | TArr l => join_array depth (js "[") (map (tree_text (depth + 1)) l) (js "]")
  | TObj l =>
      let ps := map (fun p => (p.1, tree_text (depth + 1) p.2)) l in
      join_array depth (js "{")
        (map (fun k => quote k ++ js ": " ++ default [] (assoc k ps)) (sort_names (map fst l)))
        (js "}")
  end.

(** Objects of which none looks like a node or a window, or inherits for-in properties. *)
Definition tame : Prop :=
  forall l o, h !! l = Some o ->
    get o (js "document") = VUndefined /\ get o (js "nodeType") = VUndefined /\ from_proto o = [].

Lemma assoc_in {A} k (v : A) l : NoDup (map fst l) -> (k, v) ∈ l -> assoc k l = Some v.
Proof.
  unfold assoc. induction l as [|[k' v'] l IH]; intros Hnd Hin; [by apply elem_of_nil in Hin|].
  apply NoDup_cons in Hnd as [Hk Hnd]. cbn [list_find].
  apply elem_of_cons in Hin as [[= <- <-]|Hin]; [by rewrite decide_True|].
  cbn [map fst] in *. rewrite decide_False.
  - specialize (IH Hnd Hin). by destruct (list_find _ l) as [[]|].
  - cbn. intros ->. apply Hk, list_elem_of_fmap. by exists (k, v).
Qed.

Lemma assoc_map {A B} (f : A -> B) k l :
  assoc k (map (fun p => (p.1, f p.2)) l) = f <$> assoc k l.
Proof.
  unfold assoc. induction l as [|[k' v'] l IH]; [done|]. cbn. case_decide; [done|].
  destruct (list_find _ (map _ l)) as [[]|], (list_find _ l) as [[]|]; done.
Qed.

Lemma mapM_text {A} (f : A -> call jstr) (r : A -> jstr) l k :
  (forall x s, x ∈ l -> f x = Shown s -> s = r x) -> mapM f l = Shown k -> k = map r l.
Proof.
  intros Hf Hk. apply mapM_shown in Hk. induction Hk as [|x s l k Hx _ IH]; [done|]. cbn.
  rewrite (Hf x s) by (done || left). f_equal. apply IH. intros y t Hy. apply Hf. by right.
Qed.

Lemma Forall2_text (f : value -> call jstr) (r : tree -> jstr) vs ts k :
  Forall2 (fun v t => forall s, f v = Shown s -> s = r t) vs ts ->
  mapM f (reverse vs) = Shown k -> reverse k = map r ts.
Proof.
  intros Hf Hk. apply mapM_shown in Hk.
  apply Forall2_reverse in Hk. rewrite reverse_involutive in Hk. revert Hk. generalize (reverse k).
  clear k. induction Hf as [|v t vs ts Hv _ IH]; intros k Hk.
  - by inversion Hk.
  - inversion Hk as [|? s ? k' Hs Hk']; subst. cbn. rewrite (Hv s Hs). f_equal. by apply IH.
Qed.

Lemma not_on_stack stack l t :
  denotes g h (VRef l) t -> above g h stack t -> list_find (fun p => p = l) stack = None.
Proof.
  intros Hl Hab. pose proof (above_no_parent g h stack _ _ Hl Hab) as Hp. cbn in Hp.
  apply bool_decide_eq_false in Hp. apply list_find_None, Forall_forall. by intros p Hin ->.
Qed.

Lemma tame_type l o :
  tame -> h !! l = Some o ->
  (forall e, o_kind o = Array e -> typeOf h (VRef l) = DArray)
  /\ (o_kind o = Plain -> typeOf h (VRef l) = DObject).
Proof.
  intros Ht Hl. destruct (Ht l o Hl) as (E1 & E2 & _).
  split; intros; cbn; rewrite Hl; unfold object_type; rewrite E1, E2;
    match goal with E : o_kind o = _ |- _ => by rewrite E end.
Qed.

Lemma keys_tame l o :
  tame -> h !! l = Some o -> keys o = sort_names (map fst (enumerable o)).
Proof.
  intros Ht Hl. destruct (Ht l o Hl) as (_ & _ & E). unfold keys. rewrite E. f_equal.
  induction (map fst (enumerable o)) as [|k ks IH]; [done|].
  rewrite filter_cons_True by apply not_elem_of_nil. by rewrite IH.
Qed.

(** What an object's property denotes, by its name. *)
Lemma property_denotes o ts k :
  NoDup (map fst (enumerable o)) ->
  Forall2 (fun p q => p.1 = q.1 /\ denotes g h p.2 q.2) (enumerable o) ts ->
  k ∈ map fst (enumerable o) -> exists t, (k, t) ∈ ts /\ denotes g h (get o k) t.
Proof.
  intros Hnd Hts Hk. apply list_elem_of_fmap in Hk as ([k' v] & -> & Hin).
  apply list_elem_of_lookup in Hin as [i Hi].
  destruct (Forall2_lookup_l _ _ _ _ _ Hts Hi) as ([k t] & Ht & E & Hd). cbn in *. subst k'.
  exists t. split; [by eapply list_elem_of_lookup_2|].
  unfold get. rewrite (lookup_prop_in k v); [done|done|]. by eapply list_elem_of_lookup_2.
Qed.

Lemma parse_tree fuel depth stack v t s :
  tame -> denotes g h v t -> above g h stack t -> parse h fuel depth stack v = Shown s ->
  s = tree_text depth t.
Proof.
  intros Ht. revert depth stack v t s.
  induction fuel as [|fuel IH]; intros depth stack v t s Hv Hab Hs; [done|].
  pose proof Hv as Hv0. destruct Hv as [v Hp|l o z Hl Hk|l o r Hl Hk|l o vs ts Hl Hk Hts|
                                        l o ts Hl Hk Hc Hnd Hts].
  - destruct v; cbn in *; try done; by injection Hs.
  - cbn [parse typeOf literal] in Hs. rewrite (not_on_stack _ _ _ Hv0 Hab), Hl in Hs.
    cbn in Hs. rewrite Hk in Hs. by injection Hs.
  - cbn [parse typeOf literal] in Hs. rewrite (not_on_stack _ _ _ Hv0 Hab), Hl in Hs.
    cbn in Hs. rewrite Hk in Hs. by injection Hs.
  - cbn [parse] in Hs. rewrite (not_on_stack _ _ _ Hv0 Hab), Hl in Hs.
    rewrite (proj1 (tame_type l o Ht Hl) vs Hk) in Hs. unfold elements in Hs. rewrite Hk in Hs.
    destruct (mapM _ (reverse vs)) as [| |k] eqn:Ek; [done..|]. injection Hs as <-.
    cbn [tree_text]. f_equal. apply (Forall2_text (parse h fuel (depth + 1) (l :: stack)) _ vs ts);
      [|exact Ek].
    assert (forall u, u ∈ ts -> above g h (l :: stack) u) as Hin
      by (intros u Hu; eapply above_child; [exact Hv0|done|by apply weight_arr]).
    clear Ek Hv0 Hab Hk Hl. induction Hts as [|w u ws us Hw _ IHf]; [constructor|].
    constructor; [|apply IHf; intros u' Hu'; apply Hin; by right].
    intros s. apply IH; [done|]. apply Hin. left.
  - cbn [parse] in Hs. rewrite (not_on_stack _ _ _ Hv0 Hab), Hl in Hs.
    rewrite (proj2 (tame_type l o Ht Hl) Hk), (keys_tame l o Ht Hl) in Hs.
    destruct (mapM _ (sort_names _)) as [| |k] eqn:Ek; [done..|]. injection Hs as <-.
    cbn [tree_text]. f_equal. rewrite <- (Forall2_names _ _ _ Hts).
    eapply (mapM_text _ _ _ _ _ Ek). Unshelve.
    intros key s Hin Hs. cbn in Hs.
    assert (key ∈ map fst (enumerable o)) as Hkey
      by (by rewrite <- (merge_sort_Permutation js_le (map fst (enumerable o)))).
    destruct (property_denotes o ts key Hnd Hts Hkey) as (u & Hu & Du).
    destruct (parse h fuel _ _ (get o key)) as [| |val] eqn:Ev; [done..|]. injection Hs as <-.
    assert (above g h (l :: stack) u) as Hau.
    { eapply above_child; [exact Hv0|done|]. exact (weight_obj (key, u) ts Hu). }
    rewrite (IH _ _ _ _ _ Du Hau Ev), assoc_map, (assoc_in key u); [done| |done].
    by rewrite <- (Forall2_names _ _ _ Hts).
Qed.

(** The texts of equal trees. *)
Lemma same_text v w t u depth :
  denotes g h v t -> denotes g h w u -> same t u -> tree_text depth t = tree_text depth u.
Proof.
  remember (weight t) as n eqn:Hn. revert v w t u depth Hn.
  induction n as [n IH] using lt_wf_ind. intros v w t u depth -> Hv Hw Hs.
  destruct Hs as [x|z|r|l m Hlm|l m m' Hp Hlm]; try done.
  - cbn [tree_text]. f_equal. inversion Hv as [| | |? ? vs ? ? ? Hl|]; subst.
    inversion Hw as [| | |? ? ws ? ? ? Hm|]; subst.
    apply list_eq. intros i. rewrite !list_lookup_fmap.
    destruct (l !! i) as [a|] eqn:Ea.
    + destruct (Forall2_lookup_l _ _ _ _ _ Hlm Ea) as (b & Eb & Hab).
      destruct (Forall2_lookup_r _ _ _ _ _ Hl Ea) as (x & _ & Hx).
      destruct (Forall2_lookup_r _ _ _ _ _ Hm Eb) as (y & _ & Hy).
      rewrite Eb. cbn. f_equal. eapply (IH (weight a)); [|done|exact Hx|exact Hy|done].
      apply weight_arr. by eapply list_elem_of_lookup_2.
    + apply lookup_ge_None in Ea. pose proof (Forall2_length _ _ _ Hlm).
      assert (m !! i = None) as -> by (apply lookup_ge_None; lia). done.
  - cbn [tree_text]. f_equal. inversion Hv as [| | | |? oa ? ? ? ? Hnl Hl]; subst.
    inversion Hw as [| | | |? ob ? ? ? ? Hnm Hm]; subst.
    rewrite (Forall2_names _ _ _ Hl) in Hnl. rewrite (Forall2_names _ _ _ Hm) in Hnm.
    pose proof (Forall2_names _ _ _ Hlm) as Hf.
    assert (sort_names (map fst l) = sort_names (map fst m)) as <-.
    { apply sort_names_perm. by rewrite Hf, Hp. }
    apply map_ext_in. intros k Hk%list_elem_of_In. f_equal. f_equal. f_equal.
    unfold sort_names in Hk. rewrite merge_sort_Permutation in Hk.
    apply list_elem_of_fmap in Hk as ([k' a] & -> & Hin). cbn [fst].
    apply list_elem_of_lookup in Hin as [i Hi].
    destruct (Forall2_lookup_l _ _ _ _ _ Hlm Hi) as ([k2 b] & Hj & E & Hab). cbn in E, Hab. subst k2.
    assert ((k', b) ∈ m) as Hbm by (rewrite Hp; by eapply list_elem_of_lookup_2).
    assert ((k', a) ∈ l) as Hal by by eapply list_elem_of_lookup_2.
    rewrite !assoc_map, (assoc_in k' a), (assoc_in k' b) by done. cbn.
    destruct (Forall2_lookup_r _ _ _ _ _ Hl Hi) as ([? x] & _ & _ & Hx).
    apply list_elem_of_lookup in Hbm as [j Hbm].
    destruct (Forall2_lookup_r _ _ _ _ _ Hm Hbm) as ([? y] & _ & _ & Hy). cbn in Hx, Hy.
    f_equal. eapply (IH (weight a)); [|done|exact Hx|exact Hy|done]. exact (weight_obj (k', a) l Hal).
Qed.

End Facts.

(** * Concrete values *)

#[export] Instance some_texts : Texts := {|
  date_text _ := js "Thu Jan 01 1970"; function_text _ := js "function f(){}";
  object_text _ := js "[object Object]"; lower_text _ := None; QunitDump.toLowerCase := id |}.

(** 1 and 2: the same properties in two orders, 3: an object that is its own [self], 4 and
    5: objects with different properties [document], 6: [new Number(1)], 10: an object with
    a type of nodes and no name, 11: one that holds it. *)
Definition dump_heap : heap := list_to_map
  [(1, plain [(js "b", VNum (Num 1)); (js "a", VStr (js "x"))]);
   (2, plain [(js "a", VStr (js "x")); (js "b", VNum (Num 1))])]%nat.

Definition odd_heap : heap := list_to_map
  [(3, plain [(js "self", VRef 3)]);
   (4, plain [(js "document", VNum (Num 1))]);
   (5, plain [(js "document", VNum (Num 2))]);
   (6, Object (Wrapper (VNum (Num 1))) (VRef 7) (Some 8) [] [] []);
   (10, plain [(js "nodeType", VNum (Num 1))]);
   (11, plain [(js "a", VRef 10)]);
   (9, Object (Array [VRef 3; VNull]) (VRef 2) (Some 3) [] [] [])]%nat.

Definition dump_tree (swap : bool) : tree :=
  let a := (js "a", TPrim (VStr (js "x"))) in
  let b := (js "b", TPrim (VNum (Num 1))) in
  TObj (if swap then [b; a] else [a; b]).


Definition lines (l : list string) : jstr := Prelude.join [10%N] (map js l).

Example a_cycle_shown :
  jsDump odd_heap 1 (VRef 9)
  = Shown (js "[" ++ [10%N] ++ js "  {" ++ [10%N] ++ js "    " ++ quote (js "self")
          ++ lines [": recursion(-1)"; "  },"; "  null"; "]"]%string).
Proof. vm_compute. reflexivity. Qed.

(** Objects with a property document are all shown as windows, whatever it is: the test of
    setInterval compares a text with undefined.  Equality tells them apart. *)
Example documents_hidden :
  equiv the_globals odd_heap (VRef 4) (VRef 5) = Some false
  /\ jsDump odd_heap 1 (VRef 4) = Shown (js "[Window]")
  /\ jsDump odd_heap 1 (VRef 5) = Shown (js "[Window]").
Proof. split_and!; vm_compute; reflexivity. Qed.

(** An object around a number is shown without it. *)
Example wrapper_shown : jsDump odd_heap 1 (VRef 6) = Shown (js "{}").
Proof. vm_compute. reflexivity. Qed.

(** A backslash is not escaped: the text shown is not a literal of the string. *)
Example backslash_shown :
  quote [backslash; dquote] = [dquote; backslash; backslash; dquote; dquote].
Proof. vm_compute. reflexivity. Qed.

(** A plain object with a property nodeType ends the dump with a TypeError, and the
    indentation of what is dumped later stays too deep. *)
Example node_without_name :
  jsDump odd_heap 1 (VRef 11) = Threw 2
  /\ jsDump dump_heap 2 (VRef 1) <> jsDump dump_heap 1 (VRef 1).
Proof. split; [vm_compute; reflexivity|by vm_compute]. Qed.
