(* ===== verification/Md5.v ===== *)
(** Md5: the message digest of js/md5-min.js.

    JavaScript's bit operators take their operands to signed 32-bit integers ([int32]),
    the unsigned right shift to unsigned ones; other arithmetic is on numbers, here
    integers.  A raw string is a list of character codes.  An array index that was never
    written reads as undefined, which every operator here takes for 0. *)

From S2P Require Import Prelude.
From S2P Require Import Uri.

Local Open Scope Z_scope.

(** * 32-bit integers *)

Definition two32 : Z := 4294967296.

Definition uint32 (z : Z) : Z := z mod two32.
Definition int32 (z : Z) : Z := (z + 2147483648) mod two32 - 2147483648.

Definition js_and (a b : Z) : Z := Z.land (int32 a) (int32 b).
Definition js_or (a b : Z) : Z := Z.lor (int32 a) (int32 b).
Definition js_xor (a b : Z) : Z := Z.lxor (int32 a) (int32 b).
Definition js_not (a : Z) : Z := Z.lnot (int32 a).

(** [a << n], [a >> n], [a >>> n] for n below 32. *)
Definition js_shl (a n : Z) : Z := int32 (Z.shiftl (int32 a) n).
Definition js_sar (a n : Z) : Z := Z.shiftr (int32 a) n.
Definition js_shr (a n : Z) : Z := Z.shiftr (uint32 a) n.

Definition safe_add (a d : Z) : Z :=
  let c := js_and a 65535 + js_and d 65535 in
  let b := js_sar a 16 + js_sar d 16 + js_sar c 16 in
  js_or (js_shl b 16) (js_and c 65535).

Definition bit_rol (a b : Z) : Z := js_or (js_shl a b) (js_shr a (32 - b)).

Definition md5_cmn (h e d c g f : Z) : Z :=
  safe_add (bit_rol (safe_add (safe_add e h) (safe_add c f)) g) d.

Definition md5_ff (g f k j e i h : Z) : Z :=
  md5_cmn (js_or (js_and f k) (js_and (js_not f) j)) g f e i h.
Definition md5_gg (g f k j e i h : Z) : Z :=
  md5_cmn (js_or (js_and f j) (js_and k (js_not j))) g f e i h.
Definition md5_hh (g f k j e i h : Z) : Z :=
  md5_cmn (js_xor (js_xor f k) j) g f e i h.
Definition md5_ii (g f k j e i h : Z) : Z :=
  md5_cmn (js_xor k (js_or f (js_not j))) g f e i h.

(** * Arrays of numbers *)

(** [p[i]] where it is used as a number. *)
Definition word_at (p : list Z) (i : nat) : Z := default 0 (p !! i).

(** [p[i] = x]: the array grows when it has to. *)
Definition store (i : nat) (x : Z) (p : list Z) : list Z :=
  if decide (i < length p)%nat then <[i := x]> p else p ++ replicate (i - length p) 0 ++ [x].

(** * [binl_md5] *)

Inductive fn := Ff | Gg | Hh | Ii.
Inductive reg := Ro | Rn | Rm | Rl.

Record regs := Regs { reg_o : Z; reg_n : Z; reg_m : Z; reg_l : Z }.

Definition read (r : reg) (s : regs) : Z :=
  match r with Ro => reg_o s | Rn => reg_n s | Rm => reg_m s | Rl => reg_l s end.

Definition assign (r : reg) (x : Z) (s : regs) : regs :=
  match r with
  | Ro => Regs x (reg_n s) (reg_m s) (reg_l s)
  | Rn => Regs (reg_o s) x (reg_m s) (reg_l s)
  | Rm => Regs (reg_o s) (reg_n s) x (reg_l s)
  | Rl => Regs (reg_o s) (reg_n s) (reg_m s) x
  end.

(** [a = md5_..(a, b, c, d, p[g+index], shift, constant)]. *)
Record instr := Instr {
  i_fn : fn; i_a : reg; i_b : reg; i_c : reg; i_d : reg;
  i_index : nat; i_shift : Z; i_const : Z
}.

Definition apply_fn (f : fn) : Z -> Z -> Z -> Z -> Z -> Z -> Z -> Z :=
  match f with Ff => md5_ff | Gg => md5_gg | Hh => md5_hh | Ii => md5_ii end.

Definition exec (p : list Z) (g : nat) (s : regs) (i : instr) : regs :=
  assign (i_a i)
    (apply_fn (i_fn i) (read (i_a i) s) (read (i_b i) s) (read (i_c i) s) (read (i_d i) s)
       (word_at p (g + i_index i)) (i_shift i) (i_const i)) s.

(** The body of the loop, instruction by instruction. *)
Definition program : list instr :=
  [
   Instr Ff Ro Rn Rm Rl 0 7 (-680876936);
   Instr Ff Rl Ro Rn Rm 1 12 (-389564586);
   Instr Ff Rm Rl Ro Rn 2 17 606105819;
   Instr Ff Rn Rm Rl Ro 3 22 (-1044525330);
   Instr Ff Ro Rn Rm Rl 4 7 (-176418897);
   Instr Ff Rl Ro Rn Rm 5 12 1200080426;
   Instr Ff Rm Rl Ro Rn 6 17 (-1473231341);
   Instr Ff Rn Rm Rl Ro 7 22 (-45705983);
   Instr Ff Ro Rn Rm Rl 8 7 1770035416;
   Instr Ff Rl Ro Rn Rm 9 12 (-1958414417);
   Instr Ff Rm Rl Ro Rn 10 17 (-42063);
   Instr Ff Rn Rm Rl Ro 11 22 (-1990404162);
   Instr Ff Ro Rn Rm Rl 12 7 1804603682;
   Instr Ff Rl Ro Rn Rm 13 12 (-40341101);
   Instr Ff Rm Rl Ro Rn 14 17 (-1502002290);
   Instr Ff Rn Rm Rl Ro 15 22 1236535329;
   Instr Gg Ro Rn Rm Rl 1 5 (-165796510);
   Instr Gg Rl Ro Rn Rm 6 9 (-1069501632);
   Instr Gg Rm Rl Ro Rn 11 14 643717713;
   Instr Gg Rn Rm Rl Ro 0 20 (-373897302);
   Instr Gg Ro Rn Rm Rl 5 5 (-701558691);
   Instr Gg Rl Ro Rn Rm 10 9 38016083;
   Instr Gg Rm Rl Ro Rn 15 14 (-660478335);
   Instr Gg Rn Rm Rl Ro 4 20 (-405537848);
   Instr Gg Ro Rn Rm Rl 9 5 568446438;
   Instr Gg Rl Ro Rn Rm 14 9 (-1019803690);
   Instr Gg Rm Rl Ro Rn 3 14 (-187363961);
   Instr Gg Rn Rm Rl Ro 8 20 1163531501;
   Instr Gg Ro Rn Rm Rl 13 5 (-1444681467);
   Instr Gg Rl Ro Rn Rm 2 9 (-51403784);
   Instr Gg Rm Rl Ro Rn 7 14 1735328473;
   Instr Gg Rn Rm Rl Ro 12 20 (-1926607734);
   Instr Hh Ro Rn Rm Rl 5 4 (-378558);
   Instr Hh Rl Ro Rn Rm 8 11 (-2022574463);
   Instr Hh Rm Rl Ro Rn 11 16 1839030562;
   Instr Hh Rn Rm Rl Ro 14 23 (-35309556);
   Instr Hh Ro Rn Rm Rl 1 4 (-1530992060);
   Instr Hh Rl Ro Rn Rm 4 11 1272893353;
   Instr Hh Rm Rl Ro Rn 7 16 (-155497632);
   Instr Hh Rn Rm Rl Ro 10 23 (-1094730640);
   Instr Hh Ro Rn Rm Rl 13 4 681279174;
   Instr Hh Rl Ro Rn Rm 0 11 (-358537222);
   Instr Hh Rm Rl Ro Rn 3 16 (-722521979);
   Instr Hh Rn Rm Rl Ro 6 23 76029189;
   Instr Hh Ro Rn Rm Rl 9 4 (-640364487);
   Instr Hh Rl Ro Rn Rm 12 11 (-421815835);
   Instr Hh Rm Rl Ro Rn 15 16 530742520;
   Instr Hh Rn Rm Rl Ro 2 23 (-995338651);
   Instr Ii Ro Rn Rm Rl 0 6 (-198630844);
   Instr Ii Rl Ro Rn Rm 7 10 1126891415;
   Instr Ii Rm Rl Ro Rn 14 15 (-1416354905);
   Instr Ii Rn Rm Rl Ro 5 21 (-57434055);
   Instr Ii Ro Rn Rm Rl 12 6 1700485571;
   Instr Ii Rl Ro Rn Rm 3 10 (-1894986606);
   Instr Ii Rm Rl Ro Rn 10 15 (-1051523);
   Instr Ii Rn Rm Rl Ro 1 21 (-2054922799);
   Instr Ii Ro Rn Rm Rl 8 6 1873313359;
   Instr Ii Rl Ro Rn Rm 15 10 (-30611744);
   Instr Ii Rm Rl Ro Rn 6 15 (-1560198380);
   Instr Ii Rn Rm Rl Ro 13 21 1309151649;
   Instr Ii Ro Rn Rm Rl 4 6 (-145523070);
   Instr Ii Rl Ro Rn Rm 11 10 (-1120210379);
   Instr Ii Rm Rl Ro Rn 2 15 718787259;
   Instr Ii Rn Rm Rl Ro 9 21 (-343485551)].

Definition block (p : list Z) (g : nat) (s : regs) : regs :=
  let t := foldl (exec p g) s program in
  Regs (safe_add (reg_o t) (reg_o s)) (safe_add (reg_n t) (reg_n s))
       (safe_add (reg_m t) (reg_m s)) (safe_add (reg_l t) (reg_l s)).

(** [for (var g = 0; g < p.length; g += 16)]: as many blocks as it takes. *)
Fixpoint blocks (count g : nat) (p : list Z) (s : regs) : regs :=
  match count with
  | 0%nat => s
  | S count => if decide (g < length p)%nat then blocks count (g + 16)%nat p (block p g s) else s
  end.

(** [binl_md5(p, k)]; the loop runs at most as often as there are words. *)
Definition binl_md5 (p : list Z) (k : Z) : list Z :=
  let i := Z.to_nat (js_sar k 5) in
  let p := store i (js_or (word_at p i) (js_shl 128 (k mod 32))) p in
  let p := store (Z.to_nat (js_shl (js_shr (k + 64) 9) 4 + 14)) k p in
  let s := blocks (length p) 0 p (Regs 1732584193 (-271733879) (-1732584194) 271733878) in
  [reg_o s; reg_n s; reg_m s; reg_l s].

(** * Strings and words *)

(** The loop body of [rstr2binl], for the character [x] at the place [c / 8]. *)
Definition put_byte (a : list Z) (j : nat) (x : N) : list Z :=
  let c := 8 * Z.of_nat j in
  let i := Z.to_nat (js_sar c 5) in
  store i (js_or (word_at a i) (js_shl (js_and (Z.of_N x) 255) (c mod 32))) a.

Fixpoint put_bytes (a : list Z) (j : nat) (s : jstr) : list Z :=
  match s with [] => a | x :: s => put_bytes (put_byte a j x) (S j) s end.

Definition rstr2binl (b : jstr) : list Z :=
  put_bytes (replicate (Z.to_nat (js_sar (Z.of_nat (length b)) 2)) 0) 0 b.

Definition binl2rstr (b : list Z) : jstr :=
  map (fun j => let c := 8 * Z.of_nat j in
                Z.to_N (js_and (js_shr (word_at b (Z.to_nat (js_sar c 5))) (c mod 32)) 255))
    (seq 0 (4 * length b)).

Definition rstr_md5 (a : jstr) : jstr := binl2rstr (binl_md5 (rstr2binl a) (Z.of_nat (length a) * 8)).

(** The digits of [rstr2hex]. *)
Definition hex_digit (hexcase : bool) (d : Z) : N :=
  Z.to_N (if d <? 10 then 48 + d else if hexcase then 55 + d else 87 + d).

Definition rstr2hex (hexcase : bool) (c : jstr) : jstr :=
  concat (map (fun x => [hex_digit hexcase (js_and (js_shr (Z.of_N x) 4) 15);
                         hex_digit hexcase (js_and (Z.of_N x) 15)]) c).

(** The octets of one code point, by its bits. *)
Definition octets (a : N) : jstr :=
  let z := Z.of_N a in
  let octet (mark shift mask : Z) := Z.to_N (js_or mark (js_and (js_shr z shift) mask)) in
  let last := Z.to_N (js_or 128 (js_and z 63)) in
  if bool_decide (a <= 127)%N then [a]
  else if bool_decide (a <= 2047)%N then [octet 192 6 31; last]
  else if bool_decide (a <= 65535)%N then [octet 224 12 15; octet 128 6 63; last]
  else if bool_decide (a <= 2097151)%N then [octet 240 18 7; octet 128 12 63; octet 128 6 63; last]
  else [].

(** A pair of surrogates. *)
Definition joined (a e : N) : N :=
  Z.to_N (65536 + js_shl (js_and (Z.of_N a) 1023) 10 + js_and (Z.of_N e) 1023).

(** [str2rstr_utf8]; past the end the next code unit counts as 0, no low surrogate. *)
Fixpoint str2rstr_utf8 (c : jstr) : jstr :=
  match c with
  | [] => []
  | a :: ((e :: c'') as c') =>
      if bool_decide (55296 <= a /\ a <= 56319)%N && bool_decide (56320 <= e /\ e <= 57343)%N
      then octets (joined a e) ++ str2rstr_utf8 c''
      else octets a ++ str2rstr_utf8 c'
  | [a] => octets a
  end.

Definition hex_md5 (hexcase : bool) (a : jstr) : jstr := rstr2hex hexcase (rstr_md5 (str2rstr_utf8 a)).

(** [rstr_hmac_md5(c, f)]: the key and the data. *)
Definition rstr_hmac_md5 (c f : jstr) : jstr :=
  let e := rstr2binl c in
  let e := if decide (16 < length e)%nat then binl_md5 e (Z.of_nat (length c) * 8) else e in
  let a := map (fun b => js_xor (word_at e b) 909522486) (seq 0 16) in
  let d := map (fun b => js_xor (word_at e b) 1549556828) (seq 0 16) in
  let g := binl_md5 (a ++ rstr2binl f) (512 + Z.of_nat (length f) * 8) in
  binl2rstr (binl_md5 (d ++ g) (512 + 128)).

Definition hex_hmac_md5 (hexcase : bool) (a b : jstr) : jstr :=
  rstr2hex hexcase (rstr_hmac_md5 (str2rstr_utf8 a) (str2rstr_utf8 b)).
