(* ===== verification/Md5Facts.v ===== *)
(** Md5Facts: js/md5-min.js computes the message digest of RFC 1321.

    The reference works on octets and unsigned words: padding, the table of the standard,
    four registers that rotate, little-endian output.  The code works on signed 32-bit
    numbers in place; its operators are first seen modulo two to the 32, octets as
    little-endian words, and the simulation relates the unsigned values. *)

From Stdlib Require Import Zbitwise.
From S2P Require Import Prelude.
From S2P Require Import Uri.
From S2P Require Import Md5.

Local Open Scope Z_scope.

(** * The unsigned value of what an operator returns *)

Lemma uint32_pow z : uint32 z = z mod 2 ^ 32.
Proof. reflexivity. Qed.

Lemma uint32_range z : 0 <= uint32 z < two32.
Proof. apply Z.mod_pos_bound. reflexivity. Qed.

Lemma uint32_small z : 0 <= z < two32 -> uint32 z = z.
Proof. apply Z.mod_small. Qed.

Lemma uint32_idemp z : uint32 (uint32 z) = uint32 z.
Proof. apply uint32_small, uint32_range. Qed.

Lemma uint32_add_l a b : uint32 (uint32 a + b) = uint32 (a + b).
Proof. apply Zplus_mod_idemp_l. Qed.

Lemma uint32_add_r a b : uint32 (a + uint32 b) = uint32 (a + b).
Proof. apply Zplus_mod_idemp_r. Qed.

Lemma int32_shift z : exists q, int32 z = z + q * two32.
Proof.
  exists (- ((z + 2147483648) / two32)). unfold int32.
  pose proof (Z.div_mod (z + 2147483648) two32 ltac:(discriminate)). lia.
Qed.

Lemma int32_range z : -2147483648 <= int32 z < 2147483648.
Proof.
  unfold int32. pose proof (Z.mod_pos_bound (z + 2147483648) two32 ltac:(reflexivity)).
  unfold two32 in *. lia.
Qed.

Lemma int32_small z : -2147483648 <= z < 2147483648 -> int32 z = z.
Proof. intros H. unfold int32. rewrite Z.mod_small; [lia|unfold two32; lia]. Qed.

Lemma uint32_int32 z : uint32 (int32 z) = uint32 z.
Proof. destruct (int32_shift z) as [q ->]. apply Z_mod_plus_full. Qed.

Lemma uint32_bit z n : 0 <= n -> Z.testbit (uint32 z) n = (n <? 32) && Z.testbit z n.
Proof. intros Hn. rewrite uint32_pow. by apply Z.testbit_mod_pow2. Qed.

Lemma int32_bit z n : 0 <= n < 32 -> Z.testbit (int32 z) n = Z.testbit z n.
Proof.
  intros Hn. pose proof (uint32_bit (int32 z) n ltac:(lia)) as H.
  rewrite uint32_int32, uint32_bit in H by lia.
  replace (n <? 32) with true in H by (symmetry; lia). done.
Qed.

(** Two unsigned words are equal when their 32 bits are. *)
Lemma uint32_ext a b :
  0 <= b < two32 -> (forall n, 0 <= n < 32 -> Z.testbit a n = Z.testbit b n) -> uint32 a = b.
Proof.
  intros Hb H. rewrite <- (uint32_small b Hb). apply Z.bits_inj'. intros n Hn.
  rewrite !uint32_bit by lia. destruct (Z.ltb_spec n 32); [|done]. cbn. apply H. lia.
Qed.

Ltac word_bits :=
  intros; apply uint32_ext;
  [apply uint32_range
  |let n := fresh "n" in intros n ?;
   rewrite ?uint32_bit, ?Z.land_spec, ?Z.lor_spec, ?Z.lxor_spec, ?Z.lnot_spec, ?uint32_bit,
     ?int32_bit by lia].

Lemma bitop_range (f : Z -> Z -> Z) (g : bool -> bool -> bool) a b :
  (forall a b n, Z.testbit (f a b) n = g (Z.testbit a n) (Z.testbit b n)) ->
  g false false = false ->
  uint32 (f (uint32 a) (uint32 b)) = f (uint32 a) (uint32 b).
Proof.
  intros Hf Hg. apply Z.bits_inj'. intros n Hn. rewrite uint32_bit, !Hf, !uint32_bit by lia.
  by destruct (n <? 32).
Qed.

Lemma uint32_and a b : uint32 (js_and a b) = Z.land (uint32 a) (uint32 b).
Proof.
  rewrite <- (bitop_range Z.land andb a b Z.land_spec) by done. unfold js_and. word_bits.
  by replace (n <? 32) with true by (symmetry; lia).
Qed.

Lemma uint32_or a b : uint32 (js_or a b) = Z.lor (uint32 a) (uint32 b).
Proof.
  rewrite <- (bitop_range Z.lor orb a b Z.lor_spec) by done. unfold js_or. word_bits.
  by replace (n <? 32) with true by (symmetry; lia).
Qed.

Lemma uint32_xor a b : uint32 (js_xor a b) = Z.lxor (uint32 a) (uint32 b).
Proof.
  rewrite <- (bitop_range Z.lxor xorb a b Z.lxor_spec) by done. unfold js_xor. word_bits.
  by replace (n <? 32) with true by (symmetry; lia).
Qed.

Lemma uint32_not a : uint32 (js_not a) = two32 - 1 - uint32 a.
Proof.
  unfold js_not, Z.lnot, Z.pred. destruct (int32_shift a) as [q ->].
  unfold uint32, two32. pose proof (Z.div_mod a 4294967296 ltac:(discriminate)).
  pose proof (Z.mod_pos_bound a 4294967296 ltac:(reflexivity)).
  symmetry. apply (Z.mod_unique _ _ (- q - a / 4294967296 - 1)); lia.
Qed.

Lemma uint32_shl a n : 0 <= n -> uint32 (js_shl a n) = uint32 (uint32 a * 2 ^ n).
Proof.
  intros Hn. unfold js_shl. rewrite uint32_int32, Z.shiftl_mul_pow2 by done.
  unfold uint32. rewrite Zmult_mod_idemp_l, <- (Zmult_mod_idemp_l (int32 a)).
  change (int32 a mod two32) with (uint32 (int32 a)). rewrite uint32_int32.
  unfold uint32. by rewrite Zmult_mod_idemp_l.
Qed.

Lemma js_shr_div a n : 0 <= n -> js_shr a n = uint32 a / 2 ^ n.
Proof. intros Hn. unfold js_shr. by rewrite Z.shiftr_div_pow2. Qed.

Lemma js_shr_range a n : 0 <= n -> 0 <= js_shr a n < two32.
Proof.
  intros Hn. rewrite js_shr_div by done. pose proof (uint32_range a).
  pose proof (Z.pow_pos_nonneg 2 n ltac:(lia) Hn).
  split; [apply Z.div_pos; lia|]. apply Z.div_lt_upper_bound; nia.
Qed.

(** Bits that do not overlap. *)
Lemma lor_add hi lo k : 0 <= k -> 0 <= lo < 2 ^ k -> Z.lor (hi * 2 ^ k) lo = hi * 2 ^ k + lo.
Proof.
  intros Hk Hlo. pose proof (Z.add_lor_land (hi * 2 ^ k) lo) as Hadd.
  enough (Z.land (hi * 2 ^ k) lo = 0) by lia.
  apply Z.bits_inj'. intros n Hn. rewrite Z.land_spec, Z.bits_0.
  destruct (Z.lt_ge_cases n k) as [H|H].
  - by rewrite Z.mul_pow2_bits_low.
  - rewrite andb_comm. rewrite <- (Z.mod_small lo (2 ^ k)) by done.
    rewrite Z.mod_pow2_bits_high by lia. done.
Qed.

Lemma js_and_low a k : 0 <= k < 32 -> js_and a (2 ^ k - 1) = uint32 a mod 2 ^ k.
Proof.
  intros Hk. unfold js_and.
  assert (1 <= 2 ^ k <= 2147483648) by
    (split; [apply (Z.pow_le_mono_r 2 0 k)|apply (Z.pow_le_mono_r 2 k 31)]; lia).
  rewrite (int32_small (2 ^ k - 1)) by lia.
  replace (2 ^ k - 1) with (Z.ones k) by (rewrite Z.ones_equiv; lia).
  rewrite Z.land_ones by lia. apply Z.bits_inj'. intros n Hn.
  rewrite !Z.testbit_mod_pow2, uint32_bit by lia.
  destruct (Z.ltb_spec n k); [|done]. rewrite int32_bit by lia.
  by replace (n <? 32) with true by (symmetry; lia).
Qed.

(** The sum in two halves is the sum modulo two to the 32. *)
Lemma uint32_safe_add a d : uint32 (safe_add a d) = uint32 (a + d).
Proof.
  assert (forall z, js_and z 65535 = int32 z mod 65536) as Hand.
  { intros z. unfold js_and. rewrite (int32_small 65535) by lia.
    change 65535 with (Z.ones 16). by rewrite Z.land_ones. }
  assert (forall z, js_sar z 16 = int32 z / 65536) as Hsar.
  { intros z. unfold js_sar. by rewrite Z.shiftr_div_pow2. }
  unfold safe_add. rewrite uint32_or, uint32_shl by lia. rewrite !Hand, !Hsar.
  destruct (int32_shift a) as [qa Ha], (int32_shift d) as [qd Hd].
  set (a' := int32 a) in *. set (d' := int32 d) in *.
  set (c := a' mod 65536 + d' mod 65536).
  pose proof (Z.div_mod a' 65536 ltac:(discriminate)).
  pose proof (Z.div_mod d' 65536 ltac:(discriminate)).
  pose proof (Z.mod_pos_bound a' 65536 ltac:(reflexivity)).
  pose proof (Z.mod_pos_bound d' 65536 ltac:(reflexivity)).
  pose proof (Z.div_mod c 65536 ltac:(discriminate)).
  pose proof (Z.mod_pos_bound c 65536 ltac:(reflexivity)).
  rewrite (int32_small c) by (unfold c; lia).
  set (b := a' / 65536 + d' / 65536 + c / 65536).
  rewrite (uint32_small (c mod 65536)) by (unfold two32; lia).
  assert (uint32 (uint32 b * 2 ^ 16) = (b mod 65536) * 2 ^ 16) as ->.
  { unfold uint32. rewrite Zmult_mod_idemp_l. unfold two32.
    change 4294967296 with (65536 * 2 ^ 16). by rewrite Z.mul_mod_distr_r. }
  rewrite lor_add by lia.
  pose proof (Z.div_mod b 65536 ltac:(discriminate)).
  unfold uint32, two32 in *. change (2 ^ 16) with 65536.
  apply (Z.mod_unique _ _ (b / 65536 - qa - qd)); [|unfold b in *; lia].
  left. pose proof (Z.mod_pos_bound b 65536 ltac:(reflexivity)). lia.
Qed.

(** * Rotation *)

(** A word turned left by s bits. *)
Definition rotl (x s : Z) : Z := uint32 (x * 2 ^ s) + x / 2 ^ (32 - s).

Lemma uint32_bit_rol a s : 0 <= s <= 32 -> uint32 (bit_rol a s) = rotl (uint32 a) s.
Proof.
  intros Hs. unfold bit_rol, rotl. rewrite uint32_or, uint32_shl by lia.
  rewrite (uint32_small (js_shr a _)) by (apply js_shr_range; lia).
  rewrite js_shr_div by lia.
  set (x := uint32 a). pose proof (uint32_range a : 0 <= x < two32).
  assert (two32 = 2 ^ (32 - s) * 2 ^ s) as Hp.
  { rewrite <- Z.pow_add_r by lia. by replace (32 - s + s) with 32 by lia. }
  assert (uint32 (x * 2 ^ s) = (x mod 2 ^ (32 - s)) * 2 ^ s) as ->.
  { unfold uint32. rewrite Hp. apply Z.mul_mod_distr_r; apply Z.pow_nonzero; lia. }
  apply lor_add; [lia|].
  pose proof (Z.pow_pos_nonneg 2 (32 - s) ltac:(lia) ltac:(lia)).
  split; [apply Z.div_pos; lia|]. apply Z.div_lt_upper_bound; lia.
Qed.

(** * Equality modulo two to the 32, for rewriting in sums *)

Record eq32 (a b : Z) : Prop := Eq32 { eq32_uint : uint32 a = uint32 b }.

#[export] Instance eq32_equivalence : Equivalence eq32.
Proof.
  split; [intros ?|intros ? ? []|intros ? ? ? [] []]; constructor; congruence.
Qed.

#[export] Instance eq32_add : Proper (eq32 ==> eq32 ==> eq32) Z.add.
Proof.
  intros a a' [Ha] b b' [Hb]. constructor.
  by rewrite <- uint32_add_l, <- uint32_add_r, Ha, Hb, uint32_add_l, uint32_add_r.
Qed.

Lemma eq32_uint32 a : eq32 (uint32 a) a.
Proof. constructor. apply uint32_idemp. Qed.

Lemma eq32_safe_add a d : eq32 (safe_add a d) (a + d).
Proof. constructor. apply uint32_safe_add. Qed.

Lemma eq32_bit_rol a s : 0 <= s <= 32 -> eq32 (bit_rol a s) (rotl (uint32 a) s).
Proof.
  intros Hs. constructor. rewrite <- uint32_bit_rol by done. by rewrite uint32_idemp.
Qed.

(** * Words of octets *)

Definition byte_at (bs : list N) (j : nat) : Z := Z.of_N (default 0%N (bs !! j)).

(** The i-th little-endian word; past the end every octet counts as 0. *)
Definition word (bs : list N) (i : nat) : Z :=
  byte_at bs (4 * i) + byte_at bs (4 * i + 1) * 2 ^ 8 + byte_at bs (4 * i + 2) * 2 ^ 16
  + byte_at bs (4 * i + 3) * 2 ^ 24.

Definition is_octet (x : N) : Prop := (x < 256)%N.

Lemma byte_at_range bs j : Forall is_octet bs -> 0 <= byte_at bs j < 256.
Proof.
  intros H. unfold byte_at. destruct (bs !! j) as [x|] eqn:E; cbn; [|lia].
  pose proof (Forall_lookup_1 _ _ _ _ H E) as Hx. unfold is_octet in Hx. lia.
Qed.

Lemma byte_at_ge bs j : (length bs <= j)%nat -> byte_at bs j = 0.
Proof. intros H. unfold byte_at. by rewrite lookup_ge_None_2. Qed.

Lemma byte_at_app_l bs cs j : (j < length bs)%nat -> byte_at (bs ++ cs) j = byte_at bs j.
Proof. intros H. unfold byte_at. by rewrite lookup_app_l. Qed.

Lemma byte_at_app_r bs cs j :
  (length bs <= j)%nat -> byte_at (bs ++ cs) j = byte_at cs (j - length bs).
Proof. intros H. unfold byte_at. by rewrite lookup_app_r. Qed.

Lemma word_range bs i : Forall is_octet bs -> 0 <= word bs i < two32.
Proof.
  intros H. unfold word.
  pose proof (byte_at_range bs (4 * i) H). pose proof (byte_at_range bs (4 * i + 1) H).
  pose proof (byte_at_range bs (4 * i + 2) H). pose proof (byte_at_range bs (4 * i + 3) H).
  unfold two32. lia.
Qed.

Lemma word_ge bs i : (length bs <= 4 * i)%nat -> word bs i = 0.
Proof. intros H. unfold word. by rewrite !byte_at_ge by lia. Qed.

(** Words that lie before the end of a prefix. *)
Lemma word_app_l bs cs i : (4 * i + 4 <= length bs)%nat -> word (bs ++ cs) i = word bs i.
Proof. intros H. unfold word. by rewrite !byte_at_app_l by lia. Qed.

Lemma word_app_zeros bs n i : word (bs ++ replicate n 0%N) i = word bs i.
Proof.
  assert (forall j, byte_at (bs ++ replicate n 0%N) j = byte_at bs j) as H.
  { intros j. destruct (decide (j < length bs)%nat) as [Hj|Hj]; [by apply byte_at_app_l|].
    rewrite byte_at_app_r, (byte_at_ge bs) by lia. unfold byte_at.
    destruct (replicate n 0%N !! (j - length bs)%nat) as [x|] eqn:E; [|done].
    by apply lookup_replicate_1 in E as [-> _]. }
  unfold word. by rewrite !H.
Qed.

Lemma word_app_r bs cs i j :
  length bs = (4 * j)%nat -> (j <= i)%nat -> word (bs ++ cs) i = word cs (i - j).
Proof.
  intros Hl Hi. unfold word. rewrite !byte_at_app_r by lia. rewrite Hl.
  replace (4 * i - 4 * j)%nat with (4 * (i - j))%nat by lia.
  replace (4 * i + 1 - 4 * j)%nat with (4 * (i - j) + 1)%nat by lia.
  replace (4 * i + 2 - 4 * j)%nat with (4 * (i - j) + 2)%nat by lia.
  by replace (4 * i + 3 - 4 * j)%nat with (4 * (i - j) + 3)%nat by lia.
Qed.

(** One octet more: the bits above those there already. *)
Lemma word_snoc bs x i :
  word (bs ++ [x]) i =
  if decide (i = length bs / 4)%nat then word bs i + Z.of_N x * 2 ^ (8 * Z.of_nat (length bs mod 4))
  else word bs i.
Proof.
  assert (forall j, byte_at (bs ++ [x]) j = if decide (j = length bs) then Z.of_N x else byte_at bs j) as Hb.
  { intros j. destruct (decide (j = length bs)) as [->|Hne].
    - unfold byte_at. by rewrite lookup_app_r, Nat.sub_diag by lia.
    - destruct (decide (j < length bs)%nat) as [Hj|Hj]; [by apply byte_at_app_l|].
      rewrite !byte_at_ge; [done|lia|rewrite length_app; cbn; lia]. }
  assert (byte_at bs (length bs) = 0) as H0 by (apply byte_at_ge; lia).
  pose proof (Nat.div_mod (length bs) 4 ltac:(discriminate)).
  pose proof (Nat.mod_upper_bound (length bs) 4 ltac:(discriminate)).
  unfold word. rewrite !Hb. set (m := (length bs mod 4)%nat) in *. set (q := (length bs / 4)%nat) in *.
  destruct (decide (i = q)) as [->|Hne].
  - assert (m = 0 \/ m = 1 \/ m = 2 \/ m = 3)%nat as [Hm|[Hm|[Hm|Hm]]] by lia; rewrite Hm in *;
      repeat case_decide; try lia;
      repeat match goal with |- context [byte_at bs ?k] =>
        replace (byte_at bs k) with 0 by (symmetry; apply byte_at_ge; lia) end; lia.
  - repeat case_decide; lia.
Qed.

Lemma word_partial bs : Forall is_octet bs ->
  0 <= word bs (length bs / 4) < 2 ^ (8 * Z.of_nat (length bs mod 4)).
Proof.
  intros H.
  pose proof (Nat.div_mod (length bs) 4 ltac:(discriminate)).
  pose proof (Nat.mod_upper_bound (length bs) 4 ltac:(discriminate)).
  unfold word. set (m := (length bs mod 4)%nat) in *. set (q := (length bs / 4)%nat) in *.
  pose proof (byte_at_range bs (4 * q) H). pose proof (byte_at_range bs (4 * q + 1) H).
  pose proof (byte_at_range bs (4 * q + 2) H).
  rewrite (byte_at_ge bs (4 * q + 3)) by lia.
  assert (m = 0 \/ m = 1 \/ m = 2 \/ m = 3)%nat as [Hm|[Hm|[Hm|Hm]]] by lia; rewrite Hm in *.
  - rewrite !byte_at_ge by lia. done.
  - rewrite (byte_at_ge bs (4 * q + 1)), (byte_at_ge bs (4 * q + 2)) by lia.
    change (8 * Z.of_nat 1) with 8. lia.
  - rewrite (byte_at_ge bs (4 * q + 2)) by lia. change (8 * Z.of_nat 2) with 16. lia.
  - change (8 * Z.of_nat 3) with 24. lia.
Qed.

(** * RFC 1321 *)

(** The n octets of a number, the low one first. *)
Fixpoint le_octets (n : nat) (z : Z) : list N :=
  match n with O => [] | S n => Z.to_N (z mod 256) :: le_octets n (z / 256) end.

(** A one bit, zeros up to 56 modulo 64, and the length in bits on eight octets. *)
Definition rfc_padded (bs : list N) : list N :=
  let n := length bs in
  bs ++ 128%N :: replicate ((119 - n mod 64) mod 64) 0%N ++ le_octets 8 (8 * Z.of_nat n).

(** The table: the integer part of 4294967296 times abs(sin(i + 1)). *)
Definition rfc_T : list Z :=
  [0xd76aa478; 0xe8c7b756; 0x242070db; 0xc1bdceee;
   0xf57c0faf; 0x4787c62a; 0xa8304613; 0xfd469501;
   0x698098d8; 0x8b44f7af; 0xffff5bb1; 0x895cd7be;
   0x6b901122; 0xfd987193; 0xa679438e; 0x49b40821;
   0xf61e2562; 0xc040b340; 0x265e5a51; 0xe9b6c7aa;
   0xd62f105d; 0x02441453; 0xd8a1e681; 0xe7d3fbc8;
   0x21e1cde6; 0xc33707d6; 0xf4d50d87; 0x455a14ed;
   0xa9e3e905; 0xfcefa3f8; 0x676f02d9; 0x8d2a4c8a;
   0xfffa3942; 0x8771f681; 0x6d9d6122; 0xfde5380c;
   0xa4beea44; 0x4bdecfa9; 0xf6bb4b60; 0xbebfbc70;
   0x289b7ec6; 0xeaa127fa; 0xd4ef3085; 0x04881d05;
   0xd9d4d039; 0xe6db99e5; 0x1fa27cf8; 0xc4ac5665;
   0xf4292244; 0x432aff97; 0xab9423a7; 0xfc93a039;
   0x655b59c3; 0x8f0ccc92; 0xffeff47d; 0x85845dd1;
   0x6fa87e4f; 0xfe2ce6e0; 0xa3014314; 0x4e0811a1;
   0xf7537e82; 0xbd3af235; 0x2ad7d2bb; 0xeb86d391].

Definition rfc_S : list (list Z) := [[7; 12; 17; 22]; [5; 9; 14; 20]; [4; 11; 16; 23]; [6; 10; 15; 21]].

Record words := Words { w_a : Z; w_b : Z; w_c : Z; w_d : Z }.

(** The auxiliary function, the word, the rotation and the constant of step i. *)
Definition rfc_aux (round : nat) (x y z : Z) : Z :=
  let not v := two32 - 1 - v in
  match round with
  | 0%nat => Z.lor (Z.land x y) (Z.land (not x) z)
  | 1%nat => Z.lor (Z.land x z) (Z.land y (not z))
  | 2%nat => Z.lxor (Z.lxor x y) z
  | _ => Z.lxor y (Z.lor x (not z))
  end.

Definition rfc_index (i : nat) : nat :=
  match i / 16 with
  | 0%nat => i mod 16
  | 1%nat => (1 + 5 * i) mod 16
  | 2%nat => (5 + 3 * i) mod 16
  | _ => (7 * i) mod 16
  end%nat.

Definition rfc_shift (i : nat) : Z := nth (i mod 4) (nth (i / 16) rfc_S []) 0.
Definition rfc_const (i : nat) : Z := nth i rfc_T 0.

(** One step: the registers rotate. *)
Definition rfc_step (x : nat -> Z) (w : words) (i : nat) : words :=
  let sum := uint32 (w_a w + rfc_aux (i / 16) (w_b w) (w_c w) (w_d w) + x (rfc_index i) + rfc_const i) in
  Words (w_d w) (uint32 (w_b w + rotl sum (rfc_shift i))) (w_b w) (w_c w).

Definition rfc_block (x : nat -> Z) (w : words) : words :=
  let v := foldl (rfc_step x) w (seq 0 64) in
  Words (uint32 (w_a v + w_a w)) (uint32 (w_b v + w_b w))
        (uint32 (w_c v + w_c w)) (uint32 (w_d v + w_d w)).

Definition rfc_init : words := Words 0x67452301 0xefcdab89 0x98badcfe 0x10325476.

Definition rfc_words (bs : list N) : words :=
  let m := rfc_padded bs in
  foldl (fun w t => rfc_block (fun k => word m (16 * t + k)) w) rfc_init
    (seq 0 (length m / 64)).

Definition rfc1321 (bs : list N) : list N :=
  let w := rfc_words bs in
  le_octets 4 (w_a w) ++ le_octets 4 (w_b w) ++ le_octets 4 (w_c w) ++ le_octets 4 (w_d w).

Definition hex_octets (hexcase : bool) (bs : list N) : jstr :=
  concat (map (fun b => map (hex_digit hexcase) [Z.of_N (b / 16); Z.of_N (b mod 16)]) bs).

(** The code points of a string: an unpaired surrogate stands for itself. *)
Fixpoint code_points (s : jstr) : list N :=
  match s with
  | [] => []
  | a :: ((e :: s'') as s') =>
      if is_high a && is_low e then pair_point a e :: code_points s'' else a :: code_points s'
  | [a] => [a]
  end.

Definition utf8_string (s : jstr) : list N := concat (map utf8 (code_points s)).

(** * One instruction is one step *)

Definition to_words (r : reg * reg * reg * reg) (s : regs) : words :=
  let '(a, b, c, d) := r in
  Words (uint32 (read a s)) (uint32 (read b s)) (uint32 (read c s)) (uint32 (read d s)).

(** Which variable plays which register at step i. *)
Definition roles (i : nat) : reg * reg * reg * reg :=
  match (i mod 4)%nat with
  | 0%nat => (Ro, Rn, Rm, Rl)
  | 1%nat => (Rl, Ro, Rn, Rm)
  | 2%nat => (Rm, Rl, Ro, Rn)
  | _ => (Rn, Rm, Rl, Ro)
  end.

Definition round_of (f : fn) : nat :=
  match f with Ff => 0 | Gg => 1 | Hh => 2 | Ii => 3 end%nat.

Definition conforms (i : nat) (ins : instr) : Prop :=
  (i_a ins, i_b ins, i_c ins, i_d ins) = roles i /\ round_of (i_fn ins) = (i / 16)%nat /\
  i_index ins = rfc_index i /\ i_shift ins = rfc_shift i /\ 0 <= i_shift ins <= 32 /\
  uint32 (i_const ins) = rfc_const i.

(** The 64 lines of the code against the table of the standard. *)
Lemma program_conforms : Forall2 conforms (seq 0 64) program.
Proof. unfold program. cbn [seq]. repeat constructor; reflexivity || discriminate. Qed.

Lemma uint32_cmn h e d c g f : 0 <= g <= 32 ->
  uint32 (md5_cmn h e d c g f) =
  uint32 (uint32 d + rotl (uint32 (uint32 e + uint32 h + uint32 c + uint32 f)) g).
Proof.
  intros Hg. apply eq32_uint. unfold md5_cmn.
  rewrite eq32_safe_add, eq32_bit_rol, (eq32_uint32 d), Z.add_comm by done.
  f_equiv. assert (uint32 (safe_add (safe_add e h) (safe_add c f)) =
    uint32 (uint32 e + uint32 h + uint32 c + uint32 f)) as ->; [|done].
  apply eq32_uint. rewrite !eq32_safe_add, !eq32_uint32. by rewrite !Z.add_assoc.
Qed.

Lemma uint32_apply_fn f a b c d x s t : 0 <= s <= 32 ->
  uint32 (apply_fn f a b c d x s t) =
  uint32 (uint32 b + rotl (uint32 (uint32 a + rfc_aux (round_of f) (uint32 b) (uint32 c) (uint32 d)
                                   + uint32 x + uint32 t)) s).
Proof.
  intros Hs. destruct f; cbn [apply_fn round_of];
    unfold md5_ff, md5_gg, md5_hh, md5_ii; rewrite uint32_cmn by done; do 7 f_equal;
    unfold rfc_aux; by rewrite ?uint32_or, ?uint32_xor, ?uint32_or, ?uint32_and, ?uint32_not.
Qed.

Lemma exec_step p g i ins s : conforms i ins ->
  to_words (roles (S i)) (exec p g s ins) =
  rfc_step (fun k => uint32 (word_at p (g + k))) (to_words (roles i) s) i.
Proof.
  intros (Hr & Hf & Hi & Hsh & Hs & Hc). unfold exec, rfc_step.
  rewrite <- Hi, <- Hsh, <- Hc, <- Hf, <- Hr. cbn [to_words w_a w_b w_c w_d].
  rewrite <- uint32_apply_fn by done. set (x := apply_fn _ _ _ _ _ _ _ _). clearbody x.
  unfold roles in *. rewrite <- (Nat.add_1_r i), Nat.Div0.add_mod.
  pose proof (Nat.mod_upper_bound i 4 ltac:(discriminate)) as Hi4.
  destruct (i mod 4)%nat as [|[|[|[|]]]]; [..|lia]; injection Hr as -> -> -> ->; done.
Qed.

Lemma exec_steps p g l i s :
  Forall2 conforms (seq i (length l)) l ->
  to_words (roles (i + length l)) (foldl (exec p g) s l) =
  foldl (rfc_step (fun k => uint32 (word_at p (g + k)))) (to_words (roles i) s) (seq i (length l)).
Proof.
  revert i s. induction l as [|ins l IH]; intros i s H; cbn in *; [by rewrite Nat.add_0_r|].
  apply Forall2_cons in H as [H1 H2]. rewrite <- (exec_step p g i ins s H1), <- IH by done.
  by rewrite Nat.add_succ_r.
Qed.

Abbreviation final := (to_words (Ro, Rn, Rm, Rl)).

Lemma block_words p g s :
  final (block p g s) = rfc_block (fun k => uint32 (word_at p (g + k))) (final s).
Proof.
  pose proof (exec_steps p g program 0 s program_conforms) as H. unfold block.
  set (t := foldl _ _ _) in *. change (roles (0 + length program)) with (Ro, Rn, Rm, Rl) in H.
  change (seq 0 (length program)) with (seq 0 64) in H.
  change (roles 0) with (Ro, Rn, Rm, Rl) in H.
  unfold rfc_block. rewrite <- H. cbn [to_words read reg_o reg_n reg_m reg_l w_a w_b w_c w_d].
  f_equal; rewrite uint32_safe_add, uint32_add_l, uint32_add_r; done.
Qed.

(** * The array of words *)

Lemma store_length i x p : length (store i x p) = (length p `max` S i)%nat.
Proof.
  unfold store. case_decide; [rewrite length_insert; lia|].
  rewrite !length_app, length_replicate. cbn. lia.
Qed.

Lemma word_at_store i x p j : word_at (store i x p) j = if decide (j = i) then x else word_at p j.
Proof.
  unfold word_at, store. case_decide as Hi.
  - destruct (decide (j = i)) as [->|Hne]; [by rewrite list_lookup_insert_eq|].
    by rewrite list_lookup_insert_ne.
  - destruct (decide (j < length p)%nat) as [Hj|Hj].
    { rewrite lookup_app_l by done. case_decide; [lia|done]. }
    rewrite lookup_app_r, (lookup_ge_None_2 p) by lia.
    destruct (decide (j < i)%nat) as [Hji|Hji].
    { rewrite lookup_app_l, lookup_replicate_2 by (rewrite ?length_replicate; lia).
      case_decide; [lia|done]. }
    rewrite lookup_app_r; rewrite length_replicate; [|lia]. case_decide as He.
    + subst. by replace (i - length p - (i - length p))%nat with 0%nat by lia.
    + rewrite lookup_ge_None_2; [done|cbn; lia].
Qed.

(** The array [a] holds the words of the octets [bs]. *)
Definition holds (a : list Z) (bs : list N) : Prop :=
  forall i, uint32 (word_at a i) = word bs i.

(** The index and the shift for the octet j: below two to the 28. *)
Lemma byte_index j : (8 * Z.of_nat j < 2147483648) ->
  Z.to_nat (js_sar (8 * Z.of_nat j) 5) = (j / 4)%nat.
Proof.
  intros H. unfold js_sar. rewrite int32_small, Z.shiftr_div_pow2 by lia.
  change (2 ^ 5) with (8 * 4). rewrite <- Z.div_div by lia.
  rewrite (Z.mul_comm 8), Z.div_mul by lia. rewrite <- (Nat2Z.id (j / 4)), Nat2Z.inj_div. done.
Qed.

Lemma byte_shift j : (8 * Z.of_nat j) mod 32 = 8 * Z.of_nat (j mod 4).
Proof. change 32 with (8 * 4). rewrite Z.mul_mod_distr_l by lia. by rewrite Nat2Z.inj_mod. Qed.

Lemma put_byte_holds a bs x :
  8 * Z.of_nat (length bs) < 2147483648 -> Forall is_octet bs -> is_octet x ->
  holds a bs -> holds (put_byte a (length bs) x) (bs ++ [x]).
Proof.
  intros Hn Hbs Hx H i. unfold put_byte. rewrite byte_index, byte_shift by done.
  rewrite word_at_store, word_snoc. case_decide as Hi; [subst i|apply H].
  rewrite uint32_or, H, uint32_shl by lia.
  change 255 with (2 ^ 8 - 1). rewrite js_and_low by lia. unfold is_octet in Hx.
  pose proof (Nat.mod_upper_bound (length bs) 4 ltac:(discriminate)).
  assert (2 ^ (8 * Z.of_nat (length bs mod 4)) <= 2 ^ 24) by (apply Z.pow_le_mono_r; lia).
  pose proof (Z.pow_pos_nonneg 2 (8 * Z.of_nat (length bs mod 4)) ltac:(lia) ltac:(lia)).
  rewrite (uint32_small (Z.of_N x)), (Z.mod_small (Z.of_N x)) by (unfold two32; lia).
  rewrite (uint32_small (Z.of_N x)) by (unfold two32; lia).
  rewrite (uint32_small (_ * _)) by (unfold two32; nia).
  rewrite Z.lor_comm, lor_add; [lia|lia|]. by apply word_partial.
Qed.

Lemma put_bytes_holds s : forall a bs,
  8 * Z.of_nat (length bs + length s) < 2147483648 -> Forall is_octet bs -> Forall is_octet s ->
  holds a bs -> holds (put_bytes a (length bs) s) (bs ++ s).
Proof.
  induction s as [|x s IH]; intros a bs Hn Hbs Hs H; cbn in *; [by rewrite app_nil_r|].
  apply Forall_cons in Hs as [Hx Hs].
  pose proof (IH (put_byte a (length bs) x) (bs ++ [x])) as IH'.
  rewrite length_app, <- app_assoc in IH'. cbn in IH'. rewrite Nat.add_1_r in IH'.
  apply IH'; [lia|by apply Forall_app_2; [|constructor]|done|].
  apply put_byte_holds; [lia|done..].
Qed.

Definition quarter (n : nat) : nat := ((n + 3) / 4)%nat.

Lemma put_bytes_length s : forall a j,
  8 * Z.of_nat (j + length s) < 2147483648 -> (quarter j <= length a)%nat ->
  length (put_bytes a j s) = (length a `max` quarter (j + length s))%nat.
Proof.
  induction s as [|x s IH]; intros a j Hn Ha; cbn [put_bytes length] in *; [rewrite Nat.add_0_r; lia|].
  assert (length (put_byte a j x) = (length a `max` quarter (S j))%nat) as Hl.
  { unfold put_byte. rewrite store_length, byte_index by lia. unfold quarter.
    replace (S j + 3)%nat with (1 * 4 + j)%nat by lia. by rewrite Nat.div_add_l by done. }
  rewrite IH; rewrite ?Hl; [|lia|lia].
  assert (quarter (S j) <= quarter (S j + length s))%nat by (apply Nat.Div0.div_le_mono; lia).
  replace (j + S (length s))%nat with (S j + length s)%nat by lia. lia.
Qed.

Lemma rstr2binl_holds bs :
  8 * Z.of_nat (length bs) < 2147483648 -> Forall is_octet bs ->
  holds (rstr2binl bs) bs /\ length (rstr2binl bs) = quarter (length bs).
Proof.
  intros Hn Hbs. unfold rstr2binl. set (n := Z.to_nat _). split.
  - apply (put_bytes_holds bs _ []); [done|constructor|done|]. intros i.
    rewrite word_ge by (cbn; lia). unfold word_at.
    destruct (replicate n 0 !! i) as [x|] eqn:E; [|done].
    by apply lookup_replicate_1 in E as [-> _].
  - rewrite put_bytes_length; [|done|cbn; lia]. rewrite length_replicate. cbn [plus].
    assert (n <= quarter (length bs))%nat; [|lia]. unfold n, js_sar, quarter.
    rewrite int32_small, Z.shiftr_div_pow2 by lia. change (2 ^ 2) with (Z.of_nat 4).
    rewrite <- Nat2Z.inj_div, Nat2Z.id. apply Nat.Div0.div_le_mono. lia.
Qed.

(** * Padding *)

Lemma le_octets_length n z : length (le_octets n z) = n.
Proof. revert z. induction n; intros z; cbn; [done|by rewrite IHn]. Qed.

Lemma byte_at_cons_0 x bs : byte_at (x :: bs) 0 = Z.of_N x.
Proof. reflexivity. Qed.

(** The two words of the length. *)
Lemma le_octets_words z : 0 <= z < two32 ->
  word (le_octets 8 z) 0 = z /\ word (le_octets 8 z) 1 = 0.
Proof.
  intros Hz. unfold word, byte_at. cbn -[Z.modulo Z.div Z.of_N Z.to_N Z.mul Z.add Z.pow].
  rewrite !Z2N.id by (apply Z.mod_pos_bound; reflexivity).
  assert (z / 256 / 256 / 256 / 256 = 0) as ->.
  { rewrite !Z.div_div by lia. by apply Z.div_small. }
  split; [|reflexivity]. unfold two32 in Hz. Z.to_euclidean_division_equations. lia.
Qed.

(** How many blocks the octets take. *)
Definition block_count (n : nat) : nat := ((n + 8) / 64 + 1)%nat.

Lemma zeros_length n : (n + 1 + (119 - n mod 64) mod 64 = 64 * block_count n - 8)%nat.
Proof.
  unfold block_count. pose proof (Nat.div_mod n 64 ltac:(discriminate)) as Hd.
  pose proof (Nat.mod_upper_bound n 64 ltac:(discriminate)) as Hm.
  set (q := (n / 64)%nat) in *. set (r := (n mod 64)%nat) in *.
  destruct (decide (r < 56)%nat).
  - replace ((n + 8) / 64)%nat with q by (apply (Nat.div_unique _ 64 q (r + 8)); lia).
    replace ((119 - r) mod 64)%nat with (55 - r)%nat; [lia|].
    apply (Nat.mod_unique _ 64 1); lia.
  - replace ((n + 8) / 64)%nat with (q + 1)%nat by (apply (Nat.div_unique _ 64 _ (r - 56)); lia).
    rewrite Nat.mod_small; lia.
Qed.

Lemma rfc_padded_length bs : length (rfc_padded bs) = (64 * block_count (length bs))%nat.
Proof.
  unfold rfc_padded. rewrite length_app. cbn [length].
  rewrite length_app, length_replicate, le_octets_length.
  pose proof (zeros_length (length bs)). unfold block_count in *. lia.
Qed.

Lemma rfc_padded_words bs i : 8 * Z.of_nat (length bs) < two32 ->
  word (rfc_padded bs) i =
  if decide (i = 16 * block_count (length bs) - 2)%nat then 8 * Z.of_nat (length bs)
  else word (bs ++ [128%N]) i.
Proof.
  intros Hn. pose proof (zeros_length (length bs)) as Hz.
  assert (1 <= block_count (length bs))%nat by (unfold block_count; lia).
  set (nz := ((119 - length bs mod 64) mod 64)%nat) in *. set (m := block_count (length bs)) in *.
  assert (rfc_padded bs = ((bs ++ [128%N]) ++ replicate nz 0%N) ++ le_octets 8 (8 * Z.of_nat (length bs)))
    as -> by (unfold rfc_padded; by rewrite <- !app_assoc).
  assert (length ((bs ++ [128%N]) ++ replicate nz 0%N) = 4 * (16 * m - 2))%nat as Hl
    by (rewrite !length_app, length_replicate; cbn [length]; lia).
  destruct (decide (i < 16 * m - 2)%nat) as [Hi|Hi].
  - rewrite decide_False by lia. rewrite word_app_l by lia. apply word_app_zeros.
  - rewrite (word_app_r _ _ _ _ Hl) by lia.
    destruct (le_octets_words (8 * Z.of_nat (length bs)) ltac:(lia)) as [H0 H1].
    case_decide as Hi2; [by rewrite Hi2, Nat.sub_diag|].
    rewrite (word_ge (bs ++ _)) by (rewrite length_app; cbn [length]; lia).
    destruct (decide (i = 16 * m - 1)%nat) as [->|].
    + by replace (16 * m - 1 - (16 * m - 2))%nat with 1%nat by lia.
    + apply word_ge. rewrite le_octets_length. lia.
Qed.

(** The array the loop of [binl_md5] runs on. *)
Definition padded (p : list Z) (k : Z) : list Z :=
  let i := Z.to_nat (js_sar k 5) in
  let p := store i (js_or (word_at p i) (js_shl 128 (k mod 32))) p in
  store (Z.to_nat (js_shl (js_shr (k + 64) 9) 4 + 14)) k p.

Lemma length_index n : 8 * Z.of_nat n < 2147483648 ->
  Z.to_nat (js_shl (js_shr (8 * Z.of_nat n + 64) 9) 4 + 14) = (16 * block_count n - 2)%nat.
Proof.
  intros Hn. rewrite js_shr_div by lia. rewrite uint32_small by (unfold two32; lia).
  replace (8 * Z.of_nat n + 64) with (8 * Z.of_nat (n + 8)) by lia.
  change (2 ^ 9) with (8 * 64). rewrite Z.div_mul_cancel_l by lia.
  change 64 with (Z.of_nat 64). rewrite <- Nat2Z.inj_div. unfold block_count.
  set (q := ((n + 8) / 64)%nat). assert (Z.of_nat q < 4194305).
  { unfold q. rewrite Nat2Z.inj_div. apply Z.div_lt_upper_bound; lia. }
  unfold js_shl. rewrite (int32_small (Z.of_nat q)), Z.shiftl_mul_pow2 by lia.
  rewrite int32_small by lia. lia.
Qed.

Lemma padded_holds p bs :
  8 * Z.of_nat (length bs) < 2147483648 -> Forall is_octet bs ->
  holds p bs -> length p = quarter (length bs) ->
  holds (padded p (8 * Z.of_nat (length bs))) (rfc_padded bs) /\
  length (padded p (8 * Z.of_nat (length bs))) = (16 * block_count (length bs) - 1)%nat.
Proof.
  intros Hn Hbs Hp Hl. unfold padded. rewrite length_index by done.
  pose proof (put_byte_holds p bs 128%N Hn Hbs eq_refl Hp) as H. unfold put_byte in H.
  change (js_and (Z.of_N 128) 255) with 128 in H. split.
  - intros i. rewrite word_at_store, rfc_padded_words by (unfold two32; lia).
    case_decide; [apply uint32_small; unfold two32; lia|apply H].
  - rewrite !store_length, Hl, byte_index by done. unfold block_count, quarter.
    pose proof (Nat.div_mod (length bs + 8) 64 ltac:(discriminate)).
    pose proof (Nat.mod_upper_bound (length bs + 8) 64 ltac:(discriminate)).
    pose proof (Nat.div_mod (length bs + 3) 4 ltac:(discriminate)).
    pose proof (Nat.div_mod (length bs) 4 ltac:(discriminate)). lia.
Qed.

(** * The loop *)

Lemma rfc_block_ext x y w : (forall k, x k = y k) -> rfc_block x w = rfc_block y w.
Proof.
  intros Hxy. unfold rfc_block. assert (foldl (rfc_step x) w (seq 0 64) = foldl (rfc_step y) w (seq 0 64)) as ->;
    [|done].
  generalize (seq 0 64). intros l. revert w. induction l as [|i l IH]; intros w; cbn; [done|].
  rewrite IH. f_equal. unfold rfc_step. by rewrite Hxy.
Qed.

Lemma blocks_words m p n count t s :
  holds p m -> length p = (16 * n - 1)%nat -> (t <= n <= t + count)%nat ->
  final (blocks count (16 * t) p s) =
  foldl (fun w t => rfc_block (fun k => word m (16 * t + k)) w) (final s) (seq t (n - t)).
Proof.
  intros Hp Hl. revert t s. induction count as [|count IH]; intros t s Ht.
  - by replace (n - t)%nat with 0%nat by lia.
  - cbn [blocks]. case_decide as Hc; [|by replace (n - t)%nat with 0%nat by lia].
    replace (16 * t + 16)%nat with (16 * S t)%nat by lia. rewrite IH by lia.
    replace (n - t)%nat with (S (n - S t)) by lia. cbn [seq foldl]. f_equal.
    rewrite block_words. apply rfc_block_ext. intros k. apply Hp.
Qed.

Lemma rfc_init_words : final (Regs 1732584193 (-271733879) (-1732584194) 271733878) = rfc_init.
Proof. reflexivity. Qed.

Lemma binl_md5_words p bs :
  8 * Z.of_nat (length bs) < 2147483648 -> Forall is_octet bs ->
  holds p bs -> length p = quarter (length bs) ->
  map uint32 (binl_md5 p (8 * Z.of_nat (length bs))) =
  let w := rfc_words bs in [w_a w; w_b w; w_c w; w_d w].
Proof.
  intros Hn Hbs Hp Hl. destruct (padded_holds p bs Hn Hbs Hp Hl) as [Hm Hlm].
  unfold binl_md5. fold (padded p (8 * Z.of_nat (length bs))).
  set (q := padded _ _) in *.
  assert (1 <= block_count (length bs))%nat by (unfold block_count; lia).
  pose proof (blocks_words (rfc_padded bs) q (block_count (length bs)) (length q) 0
    (Regs 1732584193 (-271733879) (-1732584194) 271733878) Hm Hlm ltac:(lia)) as Hb.
  assert (final (blocks (length q) 0 q (Regs 1732584193 (-271733879) (-1732584194) 271733878))
    = rfc_words bs) as <-; [|done].
  unfold rfc_words. rewrite rfc_padded_length.
  rewrite (Nat.mul_comm 64), Nat.div_mul by discriminate.
  rewrite <- rfc_init_words. rewrite Nat.sub_0_r in Hb. exact Hb.
Qed.

(** * Octets out *)

Lemma octet_out w s : 0 <= s -> Z.to_N (js_and (js_shr w s) 255) = Z.to_N (uint32 w / 2 ^ s mod 256).
Proof.
  intros Hs. change 255 with (2 ^ 8 - 1). rewrite js_and_low by lia.
  rewrite uint32_small by (by apply js_shr_range). by rewrite js_shr_div.
Qed.

Lemma le_octets_4 z :
  le_octets 4 z = map (fun s => Z.to_N (z / 2 ^ s mod 256)) [0; 8; 16; 24].
Proof.
  cbn [le_octets map]. rewrite !Z.div_div by lia. by rewrite Z.div_1_r.
Qed.

Lemma binl2rstr_4 a b c d :
  binl2rstr [a; b; c; d] =
  le_octets 4 (uint32 a) ++ le_octets 4 (uint32 b) ++ le_octets 4 (uint32 c) ++ le_octets 4 (uint32 d).
Proof. rewrite !le_octets_4. cbn [map app]. rewrite <- !octet_out by lia. reflexivity. Qed.

Lemma le_octets_octets n z : Forall is_octet (le_octets n z).
Proof.
  revert z. induction n as [|n IH]; intros z; cbn [le_octets]; constructor; [|apply IH].
  unfold is_octet. pose proof (Z.mod_pos_bound z 256 ltac:(reflexivity)). lia.
Qed.

Lemma rfc1321_octets bs : Forall is_octet (rfc1321 bs).
Proof. unfold rfc1321. repeat apply Forall_app_2; apply le_octets_octets. Qed.

Lemma rfc1321_length bs : length (rfc1321 bs) = 16%nat.
Proof. unfold rfc1321. by rewrite !length_app, !le_octets_length. Qed.

Lemma digest_out p bs :
  8 * Z.of_nat (length bs) < 2147483648 -> Forall is_octet bs ->
  holds p bs -> length p = quarter (length bs) ->
  binl2rstr (binl_md5 p (8 * Z.of_nat (length bs))) = rfc1321 bs.
Proof.
  intros Hn Hbs Hp Hl. pose proof (binl_md5_words _ bs Hn Hbs Hp Hl) as H.
  unfold binl_md5 in *. rewrite binl2rstr_4. injection H as H1 H2 H3 H4. unfold rfc1321.
  by rewrite H1, H2, H3, H4.
Qed.

Lemma rstr_md5_rfc bs :
  8 * Z.of_nat (length bs) < 2147483648 -> Forall is_octet bs -> rstr_md5 bs = rfc1321 bs.
Proof.
  intros Hn Hbs. destruct (rstr2binl_holds bs Hn Hbs) as [Hp Hl].
  unfold rstr_md5. rewrite (Z.mul_comm (Z.of_nat _)). by apply digest_out.
Qed.

Lemma rstr2hex_octets hexcase bs : Forall is_octet bs -> rstr2hex hexcase bs = hex_octets hexcase bs.
Proof.
  intros H. unfold rstr2hex, hex_octets. f_equal. apply map_ext_Forall.
  refine (Forall_impl _ _ _ H _). intros x Hx. unfold is_octet in Hx. cbn [map].
  change 15 with (2 ^ 4 - 1). rewrite !js_and_low by lia. rewrite js_shr_div by lia.
  rewrite (uint32_small (Z.of_N x)) by (unfold two32; lia).
  change (2 ^ 4) with (Z.of_N 16). rewrite <- N2Z.inj_div, <- N2Z.inj_mod.
  rewrite uint32_small by (unfold two32; pose proof (N.Div0.div_le_upper_bound x 16 x); lia).
  rewrite <- N2Z.inj_mod. do 3 f_equal. f_equal. apply N.mod_small.
  apply N.Div0.div_lt_upper_bound. lia.
Qed.

(** * Octets in *)

Lemma octet_in mark k z s :
  0 <= k < 8 -> 0 <= s -> 0 <= mark -> mark * 2 ^ k < 256 -> 0 <= z < two32 ->
  Z.to_N (js_or (mark * 2 ^ k) (js_and (js_shr z s) (2 ^ k - 1))) =
  Z.to_N (mark * 2 ^ k + (z / 2 ^ s) mod 2 ^ k).
Proof.
  intros Hk Hs Hm Hmk Hz. f_equal. rewrite js_and_low by lia.
  rewrite uint32_small by (by apply js_shr_range). rewrite js_shr_div, uint32_small by done.
  pose proof (Z.mod_pos_bound (z / 2 ^ s) (2 ^ k) (Z.pow_pos_nonneg 2 k ltac:(lia) ltac:(lia))).
  assert (2 ^ k <= 2 ^ 7) by (apply Z.pow_le_mono_r; lia).
  assert (0 <= mark * 2 ^ k) by (apply Z.mul_nonneg_nonneg; [|apply Z.pow_nonneg]; lia).
  unfold js_or. rewrite !int32_small by lia. apply lor_add; lia.
Qed.

Lemma octet_last z : 0 <= z < two32 ->
  Z.to_N (js_or 128 (js_and z 63)) = Z.to_N (128 + z mod 64).
Proof.
  intros Hz. pose proof (octet_in 2 6 z 0 ltac:(lia) ltac:(lia) ltac:(lia) ltac:(lia) Hz) as H.
  change (2 * 2 ^ 6) with 128 in H. change (2 ^ 6 - 1) with 63 in H. change (2 ^ 6) with 64 in H.
  rewrite Z.div_1_r in H. rewrite <- H. unfold js_and, js_shr. f_equal. f_equal.
  by rewrite Z.shiftr_0_r, uint32_small.
Qed.

Lemma octets_utf8 a : (a < 2097152)%N -> octets a = utf8 a.
Proof.
  intros Ha. unfold octets, utf8. set (z := Z.of_N a).
  assert (0 <= z < two32) as Hz by (unfold z, two32; lia).
  change 31 with (2 ^ 5 - 1). change 15 with (2 ^ 4 - 1). change 7 with (2 ^ 3 - 1).
  change 192 with (6 * 2 ^ 5). change 224 with (14 * 2 ^ 4). change 240 with (30 * 2 ^ 3).
  rewrite !octet_in by lia. rewrite octet_last by done.
  change (js_or 128 (js_and (js_shr z 6) 63)) with
    (js_or (2 * 2 ^ 6) (js_and (js_shr z 6) (2 ^ 6 - 1))).
  change (js_or 128 (js_and (js_shr z 12) 63)) with
    (js_or (2 * 2 ^ 6) (js_and (js_shr z 12) (2 ^ 6 - 1))).
  rewrite !octet_in by lia.
  repeat case_bool_decide; try lia; unfold z; repeat f_equal;
    apply N2Z.inj; rewrite Z2N.id; rewrite ?N2Z.inj_add, ?N2Z.inj_mod, ?N2Z.inj_div, ?N2Z.inj_mod;
    Z.to_euclidean_division_equations; lia.
Qed.

Lemma joined_pair a e : is_high a = true -> is_low e = true -> joined a e = pair_point a e.
Proof.
  unfold is_high, is_low, joined, pair_point. intros Ha He.
  apply bool_decide_eq_true in Ha, He. change 1023 with (2 ^ 10 - 1).
  rewrite !js_and_low by lia. rewrite !uint32_small by (unfold two32; lia).
  unfold js_shl. change (2 ^ 10) with 1024.
  assert (Z.of_N a mod 1024 = Z.of_N a - 55296) as -> by (Z.to_euclidean_division_equations; lia).
  assert (Z.of_N e mod 1024 = Z.of_N e - 56320) as -> by (Z.to_euclidean_division_equations; lia).
  rewrite (int32_small (Z.of_N a - 55296)), Z.shiftl_mul_pow2 by lia.
  rewrite int32_small by lia. lia.
Qed.

Definition is_unit (c : N) : Prop := (c < 65536)%N.

Lemma str2rstr_utf8_pair a e s :
  str2rstr_utf8 (a :: e :: s) =
  if bool_decide (55296 <= a /\ a <= 56319)%N && bool_decide (56320 <= e /\ e <= 57343)%N
  then octets (joined a e) ++ str2rstr_utf8 s else octets a ++ str2rstr_utf8 (e :: s).
Proof. reflexivity. Qed.

Lemma code_points_pair a e s :
  code_points (a :: e :: s) =
  if is_high a && is_low e then pair_point a e :: code_points s else a :: code_points (e :: s).
Proof. reflexivity. Qed.

Lemma str2rstr_utf8_string s : Forall is_unit s -> str2rstr_utf8 s = utf8_string s.
Proof.
  unfold utf8_string. induction s as [s IH] using (well_founded_ind (well_founded_ltof _ length)).
  intros H. destruct s as [|a [|e s]]; [done| |].
  - apply Forall_cons in H as [Ha _]. unfold is_unit in Ha. cbn.
    rewrite app_nil_r. apply octets_utf8. lia.
  - apply Forall_cons in H as [Ha H]. pose proof H as H'. apply Forall_cons in H' as [He H'].
    unfold is_unit in Ha, He. rewrite str2rstr_utf8_pair, code_points_pair.
    assert (bool_decide (55296 <= a /\ a <= 56319)%N = is_high a) as ->
      by (apply bool_decide_ext; lia).
    assert (bool_decide (56320 <= e /\ e <= 57343)%N = is_low e) as ->
      by (apply bool_decide_ext; lia).
    destruct (is_high a && is_low e) eqn:Hp; cbn [map concat].
    + apply andb_true_iff in Hp as [Hh Hl]. rewrite IH; [|unfold ltof; cbn; lia|done].
      rewrite joined_pair, octets_utf8; [done| |done..].
      unfold is_high, is_low, pair_point in *. apply bool_decide_eq_true in Hh, Hl. lia.
    + rewrite IH; [|unfold ltof; cbn; lia|done]. by rewrite octets_utf8 by lia.
Qed.

Lemma code_points_range s : Forall is_unit s -> Forall (fun v => (v < 1114112)%N) (code_points s).
Proof.
  induction s as [s IH] using (well_founded_ind (well_founded_ltof _ length)).
  intros H. destruct s as [|a [|e s]]; [constructor| |].
  - apply Forall_cons in H as [Ha _]. unfold is_unit in Ha. repeat constructor. lia.
  - apply Forall_cons in H as [Ha H]. pose proof H as H'. apply Forall_cons in H' as [He H'].
    unfold is_unit in Ha, He. rewrite code_points_pair.
    destruct (is_high a && is_low e) eqn:Hp; constructor.
    + unfold is_high, is_low, pair_point in *. apply andb_true_iff in Hp as [Hh Hl].
      apply bool_decide_eq_true in Hh, Hl. lia.
    + apply IH; [unfold ltof; cbn; lia|done].
    + lia.
    + apply IH; [unfold ltof; cbn; lia|done].
Qed.

Lemma utf8_string_octets s : Forall is_unit s -> Forall is_octet (utf8_string s).
Proof.
  intros H%code_points_range. unfold utf8_string.
  induction H as [|v l Hv _ IH]; cbn; [constructor|].
  apply Forall_app_2; [by apply utf8_octets|done].
Qed.

(** * Keyed digests (RFC 2104) *)

(** A key of more than one block is digested first; the two pads. *)
Definition rfc2104 (key text : list N) : list N :=
  let key := if decide (64 < length key)%nat then rfc1321 key else key in
  let k := key ++ replicate (64 - length key) 0%N in
  let pad c := map (fun x => N.lxor x c) k in
  rfc1321 (pad 0x5c%N ++ rfc1321 (pad 0x36%N ++ text)).

Lemma lxor_split lo hi lo' hi' : 0 <= lo < 2 ^ 8 -> 0 <= lo' < 2 ^ 8 ->
  Z.lxor (hi * 2 ^ 8 + lo) (hi' * 2 ^ 8 + lo') = Z.lxor hi hi' * 2 ^ 8 + Z.lxor lo lo'.
Proof.
  intros H H'.
  assert (0 <= Z.lxor lo lo' < 2 ^ 8) as Hx.
  { assert (Z.lxor lo lo' = Z.lxor lo lo' mod 2 ^ 8) as ->; [|by apply Z.mod_pos_bound].
    rewrite <- (Z.mod_small lo (2 ^ 8)), <- (Z.mod_small lo' (2 ^ 8)) by done.
    apply Z.bits_inj'. intros n Hn. rewrite Z.testbit_mod_pow2, Z.lxor_spec, !Z.testbit_mod_pow2 by lia.
    by destruct (n <? 8). }
  rewrite <- !lor_add by lia. apply Z.bits_inj'. intros n Hn.
  rewrite Z.lxor_spec, !Z.lor_spec, Z.lxor_spec.
  destruct (Z.lt_ge_cases n 8).
  - rewrite !Z.mul_pow2_bits_low by lia. done.
  - rewrite !Z.mul_pow2_bits by lia. rewrite Z.lxor_spec.
    rewrite <- (Z.mod_small lo (2 ^ 8)), <- (Z.mod_small lo' (2 ^ 8)) by done.
    rewrite !Z.mod_pow2_bits_high by lia. by rewrite !orb_false_r.
Qed.

Lemma lxor_octet x c : is_octet x -> is_octet c -> is_octet (N.lxor x c).
Proof.
  unfold is_octet. intros Hx Hc. change 256%N with (2 ^ 8)%N in *.
  rewrite <- (N.mod_small x (2 ^ 8)), <- (N.mod_small c (2 ^ 8)) by done.
  assert (N.lxor (x mod 2 ^ 8) (c mod 2 ^ 8) = N.lxor (x mod 2 ^ 8) (c mod 2 ^ 8) mod 2 ^ 8)%N as ->;
    [|by apply N.mod_lt].
  apply N.bits_inj. intros n. destruct (N.lt_ge_cases n 8).
  - by rewrite N.mod_pow2_bits_low.
  - by rewrite N.mod_pow2_bits_high, N.lxor_spec, !N.mod_pow2_bits_high by done.
Qed.

Lemma byte_at_map_xor bs c j : (j < length bs)%nat ->
  byte_at (map (fun x => N.lxor x c) bs) j = Z.lxor (byte_at bs j) (Z.of_N c).
Proof.
  intros Hj. unfold byte_at. change map with (@list_fmap). rewrite list_lookup_fmap.
  destruct (lookup_lt_is_Some_2 bs j Hj) as [x ->]. cbn. by destruct x, c.
Qed.

Lemma word_map_xor bs c i : Forall is_octet bs -> is_octet c -> (4 * i + 4 <= length bs)%nat ->
  word (map (fun x => N.lxor x c) bs) i = Z.lxor (word bs i) (Z.of_N c * 0x01010101).
Proof.
  intros Hbs Hc Hi. unfold word. rewrite !byte_at_map_xor by lia.
  pose proof (byte_at_range bs (4 * i) Hbs). pose proof (byte_at_range bs (4 * i + 1) Hbs).
  pose proof (byte_at_range bs (4 * i + 2) Hbs). pose proof (byte_at_range bs (4 * i + 3) Hbs).
  assert (0 <= Z.of_N c < 2 ^ 8) by (unfold is_octet in Hc; lia).
  set (b0 := byte_at bs (4 * i)) in *. set (b1 := byte_at bs (4 * i + 1)) in *.
  set (b2 := byte_at bs (4 * i + 2)) in *. set (b3 := byte_at bs (4 * i + 3)) in *.
  set (z := Z.of_N c) in *.
  replace (b0 + b1 * 2 ^ 8 + b2 * 2 ^ 16 + b3 * 2 ^ 24)
    with (((b3 * 2 ^ 8 + b2) * 2 ^ 8 + b1) * 2 ^ 8 + b0) by lia.
  replace (z * 16843009) with (((z * 2 ^ 8 + z) * 2 ^ 8 + z) * 2 ^ 8 + z) by lia.
  rewrite !lxor_split by lia. lia.
Qed.

Lemma word_le_4 z : 0 <= z < two32 -> word (le_octets 4 z) 0 = z.
Proof.
  intros Hz. unfold word, byte_at. cbn -[Z.modulo Z.div Z.of_N Z.to_N Z.mul Z.add Z.pow].
  rewrite !Z2N.id by (apply Z.mod_pos_bound; reflexivity).
  unfold two32 in Hz. Z.to_euclidean_division_equations. lia.
Qed.

Lemma word_le_first z bs : 0 <= z < two32 -> word (le_octets 4 z ++ bs) 0 = z.
Proof. intros Hz. rewrite word_app_l by (by rewrite le_octets_length). by apply word_le_4. Qed.

Lemma word_le_next z bs i : word (le_octets 4 z ++ bs) (S i) = word bs i.
Proof.
  rewrite (word_app_r _ _ _ 1) by (rewrite ?le_octets_length; lia).
  cbn [Nat.sub]. by rewrite Nat.sub_0_r.
Qed.

(** The four numbers of a digest are the words of its octets. *)
Lemma digest_holds l a b c d :
  map uint32 l = [a; b; c; d] ->
  holds l (le_octets 4 a ++ le_octets 4 b ++ le_octets 4 c ++ le_octets 4 d).
Proof.
  intros H i. destruct l as [|a' [|b' [|c' [|d' []]]]]; try discriminate.
  injection H as <- <- <- <-. rewrite <- (app_nil_r (le_octets 4 (uint32 d'))).
  destruct i as [|[|[|[|i]]]]; rewrite ?word_le_next, ?word_le_first by apply uint32_range;
    [done..|]. by rewrite word_ge by (cbn; lia).
Qed.

Lemma binl_md5_holds p bs :
  8 * Z.of_nat (length bs) < 2147483648 -> Forall is_octet bs ->
  holds p bs -> length p = quarter (length bs) ->
  holds (binl_md5 p (8 * Z.of_nat (length bs))) (rfc1321 bs).
Proof. intros Hn Hbs Hp Hl. apply digest_holds. by apply binl_md5_words. Qed.

Lemma pad_holds e k m c rest t :
  holds e k -> (length k <= 64)%nat -> Forall is_octet k -> is_octet c ->
  m = Z.of_N c * 0x01010101 -> holds rest t ->
  holds (map (fun b => js_xor (word_at e b) m) (seq 0 16) ++ rest)
        (map (fun x => N.lxor x c) (k ++ replicate (64 - length k) 0%N) ++ t).
Proof.
  intros He Hk Hks Hc -> Ht i. set (l := map _ (seq 0 16)). set (k' := k ++ _).
  assert (length k' = 64%nat) as Hk' by (unfold k'; rewrite length_app, length_replicate; lia).
  assert (Forall is_octet k') as Hks'.
  { apply Forall_app_2; [done|]. by apply Forall_replicate. }
  destruct (decide (i < 16)%nat) as [Hi|Hi].
  - rewrite word_app_l by (rewrite length_map; lia). rewrite word_map_xor by (done || lia).
    unfold word_at. rewrite lookup_app_l by (unfold l; rewrite length_map, length_seq; lia).
    unfold l. change map with (@list_fmap). rewrite list_lookup_fmap, lookup_seq_lt by lia.
    cbn [fmap option_fmap option_map default from_option plus id].
    rewrite uint32_xor, He. unfold k'. rewrite word_app_zeros. f_equal.
    apply uint32_small. unfold is_octet in Hc. unfold two32. lia.
  - rewrite (word_app_r _ _ _ 16) by (rewrite ?length_map; lia).
    rewrite <- Ht. unfold word_at. by rewrite lookup_app_r by (unfold l; rewrite length_map, length_seq; lia).
Qed.

(** The key both pads are made of. *)
Lemma hmac_key key :
  8 * Z.of_nat (length key) < 2147483648 -> Forall is_octet key ->
  let e := rstr2binl key in
  let e := if decide (16 < length e)%nat then binl_md5 e (Z.of_nat (length key) * 8) else e in
  let k := if decide (64 < length key)%nat then rfc1321 key else key in
  holds e k /\ (length k <= 64)%nat /\ Forall is_octet k.
Proof.
  intros Hn Ho. destruct (rstr2binl_holds key Hn Ho) as [Hk Hl]. cbv zeta. rewrite Hl.
  assert (16 < quarter (length key) <-> 64 < length key)%nat as Hiff.
  { unfold quarter. pose proof (Nat.div_mod (length key + 3) 4 ltac:(discriminate)).
    pose proof (Nat.mod_upper_bound (length key + 3) 4 ltac:(discriminate)). lia. }
  rewrite (Z.mul_comm (Z.of_nat _)). repeat case_decide; try lia; split_and!.
  - by apply binl_md5_holds.
  - by rewrite rfc1321_length; lia.
  - apply rfc1321_octets.
  - done.
  - lia.
  - done.
Qed.

Definition padded_key (k : list N) (c : N) : list N :=
  map (fun x => N.lxor x c) (k ++ replicate (64 - length k) 0%N).

Lemma padded_key_length k c : (length k <= 64)%nat -> length (padded_key k c) = 64%nat.
Proof. intros H. unfold padded_key. rewrite length_map, length_app, length_replicate. lia. Qed.

Lemma padded_key_octets k c : Forall is_octet k -> is_octet c -> Forall is_octet (padded_key k c).
Proof.
  intros Hk Hc. apply Forall_map, Forall_app_2; [|by apply Forall_replicate].
  refine (Forall_impl _ _ _ Hk _). intros x Hx. by apply lxor_octet.
Qed.

Lemma quarter_add_64 n : quarter (64 + n) = (16 + quarter n)%nat.
Proof. unfold quarter. by rewrite <- (Nat.div_add_l 16 4) by done. Qed.

(** A padded key before a message, as [binl_md5] gets it. *)
Lemma pad_digest e k m c rest t :
  holds e k -> (length k <= 64)%nat -> Forall is_octet k -> is_octet c ->
  m = Z.of_N c * 0x01010101 ->
  holds rest t -> length rest = quarter (length t) -> Forall is_octet t ->
  8 * Z.of_nat (64 + length t) < 2147483648 ->
  let p := map (fun b => js_xor (word_at e b) m) (seq 0 16) ++ rest in
  let n := 8 * Z.of_nat (64 + length t) in
  holds (binl_md5 p n) (rfc1321 (padded_key k c ++ t)) /\
  binl2rstr (binl_md5 p n) = rfc1321 (padded_key k c ++ t).
Proof.
  intros He Hk Hks Hc Hm Ht Hl Hts Hn. cbv zeta.
  assert (64 + length t = length (padded_key k c ++ t))%nat as E
    by (by rewrite length_app, padded_key_length).
  pose proof (pad_holds e k m c rest t He Hk Hks Hc Hm Ht) as Hp.
  assert (Forall is_octet (padded_key k c ++ t)) by (apply Forall_app_2; [by apply padded_key_octets|done]).
  assert (forall l : list Z, length (map (fun b => js_xor (word_at e b) m) (seq 0 16) ++ l)
    = 16 + length l)%nat as Hlen by (intros; by rewrite length_app, length_map, length_seq).
  rewrite E in Hn |- *. split; [apply binl_md5_holds|apply digest_out]; try done;
    by rewrite Hlen, Hl, <- E, quarter_add_64.
Qed.

Lemma rstr_hmac_md5_rfc key text :
  8 * Z.of_nat (length key) < 2147483648 -> 8 * Z.of_nat (64 + length text) < 2147483648 ->
  Forall is_octet key -> Forall is_octet text ->
  rstr_hmac_md5 key text = rfc2104 key text.
Proof.
  intros Hkey Htext Ok Ot. destruct (hmac_key key Hkey Ok) as (He & Hk & Hko).
  destruct (rstr2binl_holds text ltac:(lia) Ot) as [Ht Htl].
  unfold rstr_hmac_md5, rfc2104. cbv zeta in *.
  set (e := if decide (16 < _)%nat then _ else _) in *.
  set (k := if decide (64 < _)%nat then _ else _) in *.
  replace (512 + Z.of_nat (length text) * 8) with (8 * Z.of_nat (64 + length text)) by lia.
  destruct (pad_digest e k 909522486 54%N _ _ He Hk Hko eq_refl eq_refl Ht Htl Ot Htext) as [Hg _].
  set (g := binl_md5 _ (8 * Z.of_nat (64 + length text))) in *.
  assert (length g = quarter (length (rfc1321 (padded_key k 54 ++ text)))) as Hgl
    by (by rewrite rfc1321_length).
  destruct (pad_digest e k 1549556828 92%N _ _ He Hk Hko eq_refl eq_refl Hg Hgl
    (rfc1321_octets _)) as [_ Hout]; rewrite rfc1321_length in *; done.
Qed.

(** * The two functions of the page *)

(** C35. For every string of UTF-16 code units whose UTF-8 form is shorter than two to the
    28 octets, hex_md5 returns the hexadecimal form of the RFC 1321 digest of that UTF-8
    form: the encoding of surrogate pairs, the words, the padding, the 64 in-place signed
    32-bit instructions of every block and the output all agree with the standard's
    octets, unsigned words, table and rotating registers. *)
Theorem hex_md5_is_rfc1321 hexcase s :
  Forall is_unit s -> 8 * Z.of_nat (length (utf8_string s)) < 2147483648 ->
  hex_md5 hexcase s = hex_octets hexcase (rfc1321 (utf8_string s)).
Proof.
  intros Hs Hn. unfold hex_md5. rewrite str2rstr_utf8_string, rstr_md5_rfc by auto using utf8_string_octets.
  apply rstr2hex_octets, rfc1321_octets.
Qed.

(** A pair of surrogates, two octets, three, and a text of more than one block. *)
Lemma hex_md5_is_rfc1321_witness :
  hex_md5 false (js "0123456789012345678901234567890123456789012345678901234567890123"
                 ++ [55357; 56832; 233; 8364]%N)
  = hex_octets false (rfc1321 (utf8_string
      (js "0123456789012345678901234567890123456789012345678901234567890123"
       ++ [55357; 56832; 233; 8364]%N))).
Proof.
  apply (hex_md5_is_rfc1321 false).
  - apply (bool_decide_unpack _). vm_compute. exact I.
  - vm_compute. reflexivity.
Defined.

(** Hex_hmac_md5 returns the hexadecimal form of the RFC 2104 keyed digest of the
    UTF-8 forms of the key and the text: a key of more than 64 octets is digested first,
    the key is extended with zeros to a block, xored with the two pads, and the outer
    digest is taken of the inner one. *)
Theorem hex_hmac_md5_is_rfc2104 hexcase key text :
  Forall is_unit key -> Forall is_unit text ->
  8 * Z.of_nat (length (utf8_string key)) < 2147483648 ->
  8 * Z.of_nat (64 + length (utf8_string text)) < 2147483648 ->
  hex_hmac_md5 hexcase key text = hex_octets hexcase (rfc2104 (utf8_string key) (utf8_string text)).
Proof.
  intros Hk Ht Hkn Htn. unfold hex_hmac_md5. rewrite !str2rstr_utf8_string by done.
  rewrite rstr_hmac_md5_rfc by auto using utf8_string_octets.
  apply rstr2hex_octets, rfc1321_octets.
Qed.

Lemma hex_hmac_md5_is_rfc2104_witness :
  hex_hmac_md5 true (js "Jefe") (js "what do ya want for nothing?")
  = hex_octets true (rfc2104 (utf8_string (js "Jefe")) (utf8_string (js "what do ya want for nothing?"))).
Proof.
  apply (hex_hmac_md5_is_rfc2104 true);
    (apply (bool_decide_unpack _); vm_compute; exact I) || (vm_compute; reflexivity).
Defined.

(** The library's own test. *)
Example md5_vm_test : hex_md5 false (js "abc") = js "900150983cd24fb0d6963f7d28e17f72".
Proof. vm_compute. reflexivity. Qed.

(** The test vectors of RFC 1321 (the alphabet) and RFC 2104. *)
Example rfc1321_test : hex_octets false (rfc1321 (utf8_string (js "abcdefghijklmnopqrstuvwxyz")))
  = js "c3fcd3d76192e4007dfb496cca67e13b".
Proof. vm_compute. reflexivity. Qed.

Example rfc2104_test :
  hex_octets false (rfc2104 (utf8_string (js "Jefe")) (utf8_string (js "what do ya want for nothing?")))
  = js "750c783e6ab0b503eaa86e310a5db738".
Proof. vm_compute. reflexivity. Qed.
