(* ===== verification/Slides.v ===== *)
(** Slides: the picture show crImgScrollW and the counting timer $Timer of
    js/tw.new.index.min.0.0.14.js.

    The pictures stand in a row of which the window shows one; the last picture is followed
    by a copy of the first ([_initView]), so that the show can go on and then jump back.
    Places in the row are pixels; an animation is a request that ends at an event of its
    own.  Running intervals are their handles. *)

From S2P Require Import Prelude.
From coqutil Require Import Datatypes.RecordSettersUsingExistingGetters.

Local Open Scope Z_scope.

(** * crImgScrollW *)

(** [animate({left: j}, speed, function)]: the function knows [k] and [h]. *)
Record animation := Animation { to_left : Z; jumps : bool; goal : nat }.

Record scroller := Scroller {
  num : nat;                 (* c.num, the switches *)
  width : Z;                 (* c.w *)
  auto : bool;               (* c.opti.auto *)
  left : option Z;           (* css left, None standing for auto *)
  now : nat;
  ready : bool;              (* c.t *)
  tm : option nat;
  timers : list nat;         (* the intervals that are running *)
  fresh : nat;
  marked : list bool;        (* which switches have the class c.cls *)
  animations : list animation
}.

Definition autoRun (c : scroller) : scroller :=
  if auto c
  then c <| tm := Some (fresh c) |> <| timers ::= fun l => l ++ [fresh c] |> <| fresh ::= S |>
  else c.

Definition stopRun (c : scroller) : scroller :=
  match tm c with
  | Some id => c <| timers ::= List.filter (fun u => negb (Nat.eqb u id)) |>
  | None => c
  end.

Definition changeTo (h : nat) (c : scroller) : scroller :=
  if bool_decide (now c = h) || negb (ready c) then c
  else
    let j := (Z.of_nat (now c) - Z.of_nat h) * width c in
    let g := default 0 (left c) in
    let j := g + j in
    let c := c <| ready := false |> in
    let k := bool_decide (j = 0) && bool_decide (g = - (Z.of_nat (num c) - 1) * width c) in
    let j := if k then - Z.of_nat (num c) * width c else j in
    c <| animations ::= fun l => l ++ [Animation j k h] |>.

Definition run (c : scroller) : scroller :=
  let f := S (now c) in
  changeTo (if decide (f = num c) then 0%nat else f) c.

(** [change(f)]: the class goes from the switch at [now] to that at [f]. *)
Definition change (f : nat) (c : scroller) : scroller :=
  let c := c <| marked ::= map_at (fun _ => false) [now c] |> in
  let c := c <| now := f |> in
  c <| marked ::= map_at (fun _ => true) [now c] |>.

(** The end of the first animation, with its function. *)
Definition animated (c : scroller) : scroller :=
  match animations c with
  | [] => c
  | a :: rest =>
      let c := c <| animations := rest |> <| left := Some (to_left a) |> in
      let c := if jumps a then c <| left := Some 0 |> else c in
      (change (goal a) c) <| ready := true |>
  end.

(** [init]: [_initView] only adds the copy; the handlers are the events below. *)
Definition scroller_new (n : nat) (w : Z) (a : bool) : scroller :=
  change 0 (autoRun (Scroller n w a None 0 true None [] 0 (replicate n false) [])).

Inductive event := Tick (id : nat) | Click (f : nat) | Enter | Leave | Animated.

Definition handle (e : event) (c : scroller) : scroller :=
  match e with
  | Tick id => if decide (id ∈ timers c) then run c else c
  | Click f => if decide (f < num c)%nat then autoRun (stopRun (changeTo f c)) else c
  | Enter => stopRun c
  | Leave => autoRun c
  | Animated => animated c
  end.

Definition events (es : list event) (c : scroller) : scroller := foldl (fun c e => handle e c) c es.

(** The row of pictures, and the one at the window. *)
Definition row {A} (pictures : list A) : list A :=
  pictures ++ match pictures with p :: _ => [p] | [] => [] end.

Definition shown {A} (pictures : list A) (c : scroller) : option A :=
  row pictures !! Z.to_nat (- default 0 (left c) / width c).

(** * $Timer *)

Record timer := Timer {
  limit : nat;               (* f, 0 when there is none *)
  delay : Z;
  runs : nat;                (* calls of d *)
  count : nat;               (* e *)
  handle_of : option nat;    (* a *)
  running : list (nat * Z);  (* the intervals that are running, with their delays *)
  next_handle : nat
}.

Definition Timer_new (c : Z) (f : nat) : timer := Timer f c 0 0 None [] 0.

Definition remove (t : timer) : timer :=
  match handle_of t with
  | Some a => t <| running ::= List.filter (fun u => negb (Nat.eqb (fst u) a)) |>
  | None => t
  end.

Definition start (t : timer) : timer :=
  t <| handle_of := Some (next_handle t) |>
    <| running ::= fun l => l ++ [(next_handle t, delay t)] |>
    <| next_handle ::= S |>.

Definition timer_pause (t : timer) : timer := remove t.
Definition timer_stop (t : timer) : timer := (remove t) <| count := 0%nat |>.
Definition setDelay (g : Z) (t : timer) : timer := start (timer_pause (t <| delay := g |>)).

(** The function of the interval. *)
Definition timer_tick (t : timer) : timer :=
  let t := t <| runs ::= S |> in
  let t := t <| count ::= S |> in
  if negb (Nat.eqb (limit t) 0) && Nat.eqb (count t) (limit t) then remove t else t.

(** One of the running intervals elapses [n] times, as long as it runs. *)
Fixpoint timer_ticks (n : nat) (t : timer) : timer :=
  match n with
  | O => t
  | S n => match running t with [] => t | _ :: _ => timer_ticks n (timer_tick t) end
  end.

(** * At rest the window shows the marked picture *)

#[local] Arguments map_at : simpl never.

Definition only (n i : nat) : list bool := map (fun j => bool_decide (j = i)) (seq 0 n).

#[local] Arguments only : simpl never.

(** At rest the window is at [now]; under way the one animation goes to its goal's place,
    or, where it jumps back, to that of the copy of the first picture. *)
Record tidy (c : scroller) : Prop := Tidy {
  tidy_width : 0 < width c;
  tidy_now : (now c < num c)%nat;
  tidy_marked : marked c = only (num c) (now c);
  tidy_left : default 0 (left c) = - (Z.of_nat (now c) * width c);
  tidy_rest : ready c = true -> animations c = [];
  tidy_way : ready c = false -> exists a, animations c = [a] /\ (goal a < num c)%nat /\
    if jumps a then goal a = 0%nat else to_left a = - (Z.of_nat (goal a) * width c)
}.

Lemma tidy_frame c c' :
  num c' = num c -> width c' = width c -> left c' = left c -> now c' = now c ->
  ready c' = ready c -> marked c' = marked c -> animations c' = animations c ->
  tidy c -> tidy c'.
Proof. intros H1 H2 H3 H4 H5 H6 H7 []. split; rewrite ?H1, ?H2, ?H3, ?H4, ?H5, ?H6, ?H7; done. Qed.

Lemma tidy_stopRun c : tidy c -> tidy (stopRun c).
Proof. unfold stopRun. destruct (tm c); [by apply tidy_frame|done]. Qed.

Lemma tidy_autoRun c : tidy c -> tidy (autoRun c).
Proof. unfold autoRun. destruct (auto c); [by apply tidy_frame|done]. Qed.

Lemma tidy_changeTo h c : (h < num c)%nat -> tidy c -> tidy (changeTo h c).
Proof.
  intros Hh Hc. unfold changeTo. case_bool_decide as Hn; [done|]. cbn [orb].
  destruct (ready c) eqn:Hr; [|done]. cbn [negb]. destruct Hc as [H0 H1 H2 H3 H4 _].
  split; cbn; try done. intros _. rewrite (H4 Hr). eexists. split; [reflexivity|].
  cbn [goal jumps to_left]. split; [done|]. rewrite H3.
  destruct (bool_decide _ && bool_decide _) eqn:E; [|lia].
  apply andb_true_iff in E as [E%bool_decide_eq_true _].
  assert (Z.of_nat h * width c = 0) as [?|?]%Z.mul_eq_0 by lia; lia.
Qed.

Lemma tidy_run c : tidy c -> tidy (run c).
Proof.
  intros Hc. pose proof (tidy_now c Hc). unfold run.
  case_decide; apply tidy_changeTo; done || lia.
Qed.

Lemma marks_lookup n i j : only n i !! j = if decide (j < n)%nat then Some (bool_decide (j = i)) else None.
Proof.
  unfold only. change map with (@list_fmap). rewrite list_lookup_fmap. case_decide as H.
  - by rewrite lookup_seq_lt.
  - by rewrite lookup_seq_ge by lia.
Qed.

(** The mark moves. *)
Lemma change_marked f c : (f < num c)%nat -> marked c = only (num c) (now c) ->
  marked (change f c) = only (num c) f.
Proof.
  intros Hf Hm. cbn. change (const f (now c)) with f. rewrite Hm. apply list_eq. intros j.
  rewrite !map_at_lookup, !marks_lookup. destruct (decide (j < num c)%nat) as [Hj|Hj]; [|done].
  cbn. f_equal.
  repeat case_decide; repeat case_bool_decide; done || (exfalso; set_solver).
Qed.

Lemma tidy_animated c : tidy c -> tidy (animated c).
Proof.
  intros Hc. pose proof Hc as [H0 H1 H2 H3 H4 H5]. unfold animated.
  destruct (animations c) as [|a rest] eqn:Ha; [done|].
  destruct (ready c) eqn:Hr; [by specialize (H4 eq_refl)|].
  destruct (H5 eq_refl) as (a' & [= <- ->] & Hg & Ht). clear H4 H5.
  set (d := if jumps a then _ else _).
  assert (num d = num c /\ width d = width c /\ marked d = marked c /\ now d = now c /\
    animations d = [] /\ default 0 (left d) = - (Z.of_nat (goal a) * width c)) as (E1 & E2 & E3 & E4 & E5 & E6).
  { unfold d. destruct (jumps a); cbn; split_and!; try done. by rewrite Ht. }
  clearbody d. split; cbn.
  - by rewrite E2.
  - by rewrite E1.
  - change (map_at _ _ _) with (marked (change (goal a) d)). rewrite change_marked; rewrite ?E1, ?E3, ?E4; done.
  - by rewrite E6, E2.
  - done.
  - done.
Qed.

Lemma tidy_handle e c : tidy c -> tidy (handle e c).
Proof.
  intros Hc. destruct e; cbn.
  - case_decide; [by apply tidy_run|done].
  - case_decide; [|done]. by apply tidy_autoRun, tidy_stopRun, tidy_changeTo.
  - by apply tidy_stopRun.
  - by apply tidy_autoRun.
  - by apply tidy_animated.
Qed.

Lemma tidy_new n w a : (0 < n)%nat -> 0 < w -> tidy (scroller_new n w a).
Proof.
  intros Hn Hw. unfold scroller_new, autoRun, change. split; cbn; destruct a; cbn; try done.
  all: apply list_eq; intros j; rewrite !map_at_lookup, marks_lookup.
  all: destruct (decide (j < n)%nat) as [Hj|Hj];
    [rewrite lookup_replicate_2 by done; cbn; f_equal;
     repeat case_decide; repeat case_bool_decide; done || (exfalso; set_solver)
    |by rewrite lookup_ge_None_2 by (rewrite length_replicate; lia)].
Qed.

Lemma tidy_events es c : tidy c -> tidy (events es c).
Proof. revert c. induction es as [|e es IH]; intros c Hc; [done|]. by apply IH, tidy_handle. Qed.

Lemma events_shape es c : num (events es c) = num c /\ width (events es c) = width c.
Proof.
  revert c. induction es as [|e es IH]; intros c; [done|].
  change (events (e :: es) c) with (events es (handle e c)). destruct (IH (handle e c)) as [-> ->].
  unfold handle, animated, change, run, changeTo, autoRun, stopRun.
  repeat (case_match; cbn; try done); split; reflexivity.
Qed.

(** C39. After every sequence of ticks, clicks, pointer moves and ends of animations, while
    no animation is under way exactly one switch is marked, and the picture in the window
    is the one of that switch: also after the show went on to the copy of the first
    picture behind the last and jumped back. *)
Theorem slides_show_marked {A} (pictures : list A) w a es :
  pictures <> [] -> 0 < w ->
  let c := events es (scroller_new (length pictures) w a) in
  ready c = true ->
  exists i, marked c = only (length pictures) i /\ (i < length pictures)%nat /\
            shown pictures c = pictures !! i.
Proof.
  intros Hp Hw c Hr. set (n := length pictures) in *.
  assert (0 < n)%nat as Hn by (destruct pictures; [done|cbn in *; lia]).
  destruct (tidy_events es _ (tidy_new n w a Hn Hw)) as [_ H1 H2 H3 _ _].
  destruct (events_shape es (scroller_new n w a)) as [E1 E2]. fold c in H1, H2, H3, E1, E2.
  assert (num c = n) as En by (rewrite E1; by destruct a).
  assert (width c = w) as Ew by (rewrite E2; by destruct a).
  exists (now c). rewrite <- En. split_and!; [done|done|].
  unfold shown, row. rewrite H3, Ew, Z.opp_involutive, Z.div_mul, Nat2Z.id by lia.
  apply lookup_app_l. fold n. lia.
Qed.

(** A click, an automatic step over the end, and the pointer. *)
Lemma slides_show_marked_witness :
  let c := events [Click 2; Animated; Tick 1; Animated; Enter; Leave; Tick 2; Animated]
             (scroller_new 3 400 true) in
  ready c = true /\
  exists i, marked c = only 3 i /\ (i < 3)%nat /\ shown ["a"; "b"; "c"]%string c = ["a"; "b"; "c"]%string !! i.
Proof.
  split; [reflexivity|].
  apply (slides_show_marked ["a"; "b"; "c"]%string 400 true
    [Click 2; Animated; Tick 1; Animated; Enter; Leave; Tick 2; Animated]); done.
Defined.

Lemma run_animated c : tidy c -> ready c = true ->
  let c' := animated (run c) in
  tidy c' /\ ready c' = true /\ timers c' = timers c /\ num c' = num c /\
  now c' = (S (now c) mod num c)%nat.
Proof.
  intros Hc Hr. cbv zeta. split; [by apply tidy_animated, tidy_run|].
  pose proof (tidy_now c Hc) as Hn. pose proof (tidy_rest c Hc Hr) as Ha.
  assert ((if decide (S (now c) = num c) then 0 else S (now c)) = S (now c) mod num c)%nat as Hf.
  { case_decide as E; [by rewrite E, Nat.Div0.mod_same|rewrite Nat.mod_small; lia]. }
  unfold run. rewrite Hf. unfold changeTo. rewrite Hr. case_bool_decide as E; cbn [orb negb].
  - unfold animated. rewrite Ha. done.
  - unfold animated. cbn. rewrite Ha. cbn. set (k := bool_decide _ && bool_decide _). by destruct k.
Qed.

(** Left alone, the show goes round: after k ticks of its interval, each followed by
    the end of its animation, it stands k pictures further, beginning again after the
    last one. *)
Theorem show_goes_round k id c :
  tidy c -> ready c = true -> id ∈ timers c ->
  let c' := events (concat (replicate k [Tick id; Animated])) c in
  tidy c' /\ ready c' = true /\ now c' = ((now c + k) mod num c)%nat.
Proof.
  intros Hc Hr Hid. cbv zeta. revert c Hc Hr Hid. induction k as [|k IH]; intros c Hc Hr Hid.
  - cbn. rewrite Nat.add_0_r, Nat.mod_small by apply (tidy_now c Hc). done.
  - cbn [replicate concat app]. unfold events. cbn [foldl handle].
    rewrite decide_True by done. destruct (run_animated c Hc Hr) as (Hc' & Hr' & Ht' & Hn' & Hw').
    change (foldl _ ?s ?l) with (events l s).
    destruct (IH _ Hc' Hr') as (H1 & H2 & H3); [by rewrite Ht'|]. split_and!; [done|done|].
    rewrite H3, Hn', Hw', Nat.Div0.add_mod_idemp_l. f_equal. lia.
Qed.

Lemma show_goes_round_witness :
  let c' := events (concat (replicate 7 [Tick 0; Animated])) (scroller_new 3 400 true) in
  tidy c' /\ ready c' = true /\ now c' = 1%nat.
Proof.
  apply (show_goes_round 7 0 (scroller_new 3 400 true));
    [apply tidy_new; [lia|reflexivity]|reflexivity|vm_compute; left].
Defined.

(** * Intervals *)

(** The pointer is in the window or not; switches are outside. *)
Fixpoint pointer (inside : bool) (es : list event) : option bool :=
  match es with
  | [] => Some inside
  | Enter :: es => if inside then None else pointer true es
  | Leave :: es => if inside then pointer false es else None
  | Click _ :: es => if inside then None else pointer inside es
  | _ :: es => pointer inside es
  end.

Definition timed (inside : bool) (c : scroller) : Prop :=
  timers c = if auto c && negb inside then option_list (tm c) else [].

Lemma changeTo_timers h c :
  timers (changeTo h c) = timers c /\ tm (changeTo h c) = tm c /\ auto (changeTo h c) = auto c.
Proof. unfold changeTo. by destruct (bool_decide _ || _). Qed.

Lemma animated_timers c :
  timers (animated c) = timers c /\ tm (animated c) = tm c /\ auto (animated c) = auto c.
Proof. unfold animated. destruct (animations c) as [|a l]; [done|]. by destruct (jumps a). Qed.

Lemma stopRun_timed c : timed false c -> timed true (stopRun c).
Proof.
  unfold timed, stopRun. cbn [negb]. rewrite andb_true_r, andb_false_r. intros H.
  destruct (tm c) as [id|] eqn:E; cbn.
  - rewrite H. destruct (auto c); [|done]. cbn. by rewrite Nat.eqb_refl.
  - rewrite H. by destruct (auto c).
Qed.

Lemma autoRun_timed c : timed true c -> timed false (autoRun c).
Proof.
  unfold timed, autoRun. cbn [negb]. rewrite andb_true_r, andb_false_r. intros H.
  destruct (auto c) eqn:E; cbn; rewrite E, H; done.
Qed.

(** The show's interval, when it runs by itself and the pointer is elsewhere, is the only
    one; there is none while the pointer is in the window. *)
Lemma one_interval es inside inside' c :
  timed inside c -> pointer inside es = Some inside' -> timed inside' (events es c).
Proof.
  revert inside c. induction es as [|e es IH]; intros inside c Hc Hp; [by injection Hp as <-|].
  change (events (e :: es) c) with (events es (handle e c)).
  destruct e as [id|f| | |]; cbn in Hp |- *.
  - apply (IH inside); [|done]. case_decide; [|done]. unfold run, timed.
    destruct (changeTo_timers (if decide (S (now c) = num c) then 0%nat else S (now c)) c) as (-> & -> & ->).
    exact Hc.
  - destruct inside; [done|]. apply (IH false); [|done]. case_decide; [|done].
    apply autoRun_timed, stopRun_timed. unfold timed.
    destruct (changeTo_timers f c) as (-> & -> & ->). exact Hc.
  - destruct inside; [done|]. apply (IH true); [by apply stopRun_timed|done].
  - destruct inside; [|done]. apply (IH false); [by apply autoRun_timed|done].
  - apply (IH inside); [|done]. unfold timed.
    destruct (animated_timers c) as (-> & -> & ->). exact Hc.
Qed.

Lemma timed_new n w a : timed false (scroller_new n w a).
Proof. by destruct a. Qed.

(** As long as switches are clicked with the pointer outside the window, at most one
    interval runs at any time. *)
Theorem at_most_one_interval n w a es inside :
  pointer false es = Some inside -> (length (timers (events es (scroller_new n w a))) <= 1)%nat.
Proof.
  intros H. rewrite (one_interval es false inside _ (timed_new n w a) H).
  destruct (_ && _); [|cbn; lia]. destruct (tm _); cbn; lia.
Qed.

Lemma at_most_one_interval_witness :
  pointer false [Click 1; Animated; Enter; Leave; Click 0] = Some false /\
  (length (timers (events [Click 1; Animated; Enter; Leave; Click 0] (scroller_new 3 400 true))) <= 1)%nat.
Proof. split; [reflexivity|]. by apply (at_most_one_interval 3 400 true _ false). Defined.

(** A click while the pointer is in the window (a touch, a switch drawn over it) starts an
    interval that the leaving does not stop: the show goes on at twice the pace, and stays
    in motion under the pointer. *)
Example click_inside_leaks :
  timers (events [Enter; Click 1; Leave] (scroller_new 3 400 true)) = [1; 2]%nat /\
  timers (events [Enter; Click 1; Leave; Enter] (scroller_new 3 400 true)) = [1]%nat.
Proof. split; reflexivity. Qed.

(** * The timer *)

#[local] Arguments Nat.eqb : simpl never.

Lemma timer_counts n t i d :
  running t = [(i, d)] -> handle_of t = Some i -> (count t + n < limit t)%nat ->
  timer_ticks n t = t <| runs ::= plus n |> <| count ::= plus n |>.
Proof.
  revert t. induction n as [|n IH]; intros t Hr Hh Hn; [by destruct t|].
  cbn [timer_ticks]. rewrite Hr. unfold timer_tick.
  assert (Nat.eqb (S (count t)) (limit t) = false) as E by (apply Nat.eqb_neq; lia).
  cbn. rewrite E, andb_false_r. rewrite IH by (cbn; done || lia).
  destruct t. cbv -[Nat.add]. f_equal; lia.
Qed.

Lemma timer_over n t : running t = [] -> timer_ticks n t = t.
Proof. intros H. destruct n; [done|]. cbn. by rewrite H. Qed.

Lemma timer_ticks_add m n t : timer_ticks (m + n) t = timer_ticks n (timer_ticks m t).
Proof.
  revert t. induction m as [|m IH]; intros t; [done|]. cbn.
  destruct (running t) eqn:E; [by rewrite timer_over|apply IH].
Qed.

(** A timer with a limit f, started once, calls its function exactly f times, however
    long one waits: before, its interval runs, and with the last call it is cleared. *)
Theorem timer_calls_f_times d f n :
  (0 < f)%nat ->
  let t := timer_ticks n (start (Timer_new d f)) in
  runs t = Nat.min n f /\ (running t = [] <-> f <= n)%nat.
Proof.
  intros Hf t. set (t0 := start (Timer_new d f)) in *.
  destruct (decide (n < f)%nat) as [Hn|Hn].
  - unfold t. rewrite (timer_counts n t0 0 d) by (done || (cbn; lia)). cbn. split; [lia|].
    split; [done|lia].
  - unfold t. replace n with ((f - 1) + (1 + (n - f)))%nat by lia. rewrite timer_ticks_add.
    rewrite (timer_counts _ t0 0 d) by (done || (cbn; lia)). cbn [timer_ticks plus]. cbn [running].
    unfold timer_tick. cbn. assert (S (f - 1 + 0) = f) as -> by lia.
    rewrite Nat.eqb_refl, (proj2 (Nat.eqb_neq f 0)) by lia. cbn.
    rewrite timer_over by done. cbn. split; [lia|]. split; [lia|done].
Qed.

Lemma timer_calls_f_times_witness :
  runs (timer_ticks 10 (start (Timer_new 100 3))) = 3%nat /\
  (running (timer_ticks 10 (start (Timer_new 100 3))) = [] <-> (3 <= 10)%nat).
Proof. apply (timer_calls_f_times 100 3 10). lia. Defined.

(** Started again after its last call, the timer has its count at the limit already and
    goes past it: it never stops; [stop] would have reset the count. *)
Example restarted_timer_runs_on :
  let t := timer_ticks 50 (start (timer_ticks 10 (start (Timer_new 100 3)))) in
  runs t = 53%nat /\ running t = [(1%nat, 100)].
Proof. split; reflexivity. Qed.

(** Started twice, it loses the handle of the first interval, which no method stops. *)
Example twice_started_timer_leaks :
  running (timer_stop (start (start (Timer_new 100 0)))) = [(0%nat, 100)].
Proof. reflexivity. Qed.
