(* ===== verification/Passport.v ===== *)
(** Passport: the account card of js/tw.new.index.min.0.0.14.js (PassportSC): the list of
    completions under its e-mail field, and the two password fields that take turns.

    The card completes the library object PassportSC of js/jquery.sohu.tw.min.0.0.6.js,
    whose key handlers and [upDSindex] are modelled with it.  Where the list stands on the
    page is layout.  [inner] is what reading back the innerHTML of a link gives that was
    assigned a text. *)

From S2P Require Import Prelude.
From coqutil Require Import Datatypes.RecordSettersUsingExistingGetters.

(** The hint in the empty field (nickname, e-mail or mobile number, in Chinese). *)
Definition hint : jstr := [26165; 31216; 47; 37038; 31665; 47; 25163; 26426; 21495]%N.

Definition at_sign : N := 64.

(** [s.lastIndexOf(p)]. *)
Fixpoint last_pos (p s : jstr) : option nat :=
  match s with
  | [] => match p with [] => Some 0 | _ => None end
  | _ :: s' => match last_pos p s' with
               | Some n => Some (S n)
               | None => if starts_with p s then Some 0 else None
               end
  end.

(** [s.lastIndexOf(p) == 0]. *)
Definition only_at_start (p s : jstr) : bool := bool_decide (last_pos p s = Some 0).

(** The regular expression G: one to a hundred of these code units. *)
Definition user_char (c : N) : bool :=
  bool_decide (19968 <= c <= 40869)%N || bool_decide (c = 44)%N
  || bool_decide (97 <= c <= 122)%N || bool_decide (65 <= c <= 90)%N || bool_decide (48 <= c <= 57)%N
  || bool_decide (c ∈ [45; 95; 46; 64]%N).
Definition user_text (L : jstr) : bool :=
  forallb user_char L && bool_decide (1 <= length L <= 100).

(** [c.replace(/&amp;/g, '&')]. *)
Fixpoint replace_amp (s : jstr) : jstr :=
  match s with
  | (38 :: ((97 :: 109 :: 112 :: 59 :: s4) as s1))%N => 38%N :: replace_amp s4
  | c :: s' => c :: replace_amp s'
  | [] => []
  end.

(** * The card *)

(** A completion: a list item with its link. *)
Record suggestion := Suggestion { idx : Z; text : jstr; active : bool }.

(** What the page configures. *)
Record config := Config {
  emailPostfix : list (option jstr);   (* None: not a string *)
  autopad : jstr;
  usePostFix : bool;
  browser : nat                        (* getBrowserType() *)
}.

Record card := Card {
  value : jstr;                  (* emailInput.value *)
  listed : bool;                 (* dsElement is displayed *)
  suggestions : list suggestion; (* the items of dsAnchor *)
  curDSindex : Z;
  pw_value : jstr;               (* #password *)
  pw_shown : bool;               (* #password is displayed *)
  pw1_shown : bool;              (* #password1, which shows the word password, is *)
  blurred : bool                 (* #email has the class blur *)
}.

(** [changePass]. *)
Definition changePass (c : card) : card := c <| pw1_shown := false |> <| pw_shown := true |>.

(** * [fillEmailSelect] *)

(** The name before the last at sign, and what follows it. *)
Definition name_of (L : jstr) : jstr :=
  match last_index_of at_sign L with None => L | Some H => take H L end.
Definition tail_of (L : jstr) : jstr :=
  match last_index_of at_sign L with
  | None => []
  | Some H => if decide (H = length L - 1) then [] else drop (S H) L
  end.

(** The completions for what may be a mobile number. *)
Definition mobile : jstr := js "mobile".
Definition uniqname : jstr := js "uniqname".
Definition postfixes (cf : config) (L : jstr) : list (option jstr) :=
  if first_is 49 L
  then [Some mobile; Some (js "qq.com"); Some (js "focus.cn")]
       ++ (if truthy (autopad cf) then [Some (autopad cf)] else [])
  else emailPostfix cf.

(** The loop's variables: E, D, N, w and the items; I is their number. *)
Record scan := Scan {
  sc_E : jstr; sc_D : bool; sc_N : Z; sc_w : bool; sc_items : list suggestion
}.

(** [this.autopad != '' && this.autopad.lastIndexOf(p) < 0]. *)
Definition not_padded (cf : config) (p : jstr) : bool :=
  truthy (autopad cf) && negb (present (last_pos p (autopad cf))).

(** [y.lastIndexOf('@') > 0]: the two sides of it. *)
Definition full_address (y : jstr) : option (jstr * jstr) :=
  match last_index_of at_sign y with
  | Some (S p) => Some (take (S p) y, drop (S (S p)) y)
  | _ => None
  end.

(** The first half of the loop's body: [None] is a [continue], else E and D. *)
Definition admits (cf : config) (i M y : jstr) (E : jstr) (D : bool) : option (jstr * bool) :=
  if truthy M && negb (only_at_start M y) then None
  else match full_address y with
       | Some (x, rest) =>
           if not_padded cf rest then None
           else if negb (only_at_start i x) then None
           else Some (if bool_decide (x = i) then rest else E, true)
       | None => if not_padded cf y then None else Some (E, D)
       end.

(** The text of the link. *)
Definition completion (cf : config) (i y : jstr) (D : bool) : jstr :=
  if bool_decide (y = mobile) || bool_decide (y = uniqname) then i
  else if negb D then (if usePostFix cf then i ++ at_sign :: y else i)
  else if usePostFix cf then y
       else match last_index_of at_sign y with Some p => take p y | None => [] end.

(** The loop's body for the text y at the index J. *)
Definition scan_one (cf : config) (i M : jstr) (cur J : Z) (y : jstr) (s : scan) : scan :=
  match admits cf i M y (sc_E s) (sc_D s) with
  | None => s
  | Some (E, D) =>
      if bool_decide (y = E) then s <| sc_E := E |> <| sc_D := D |>
      else
        Scan E false (if decide (sc_N s = -1)%Z then J else sc_N s)
          (if decide (cur = J) then true else sc_w s)
          (sc_items s ++ [Suggestion J (completion cf i y D) false])
  end.

(** The loop, from the index J. *)
Fixpoint scan_loop (cf : config) (i M : jstr) (cur : Z) (J : Z) (z : list (option jstr)) (s : scan)
    : scan :=
  match z with
  | [] => s
  | None :: z => scan_loop cf i M cur (J + 1) z s
  | Some y :: z => scan_loop cf i M cur (J + 1) z (scan_one cf i M cur J y s)
  end.

(** [findDSindex(g)] finds the first item with the index; these change its link. *)
Fixpoint on_index (f : suggestion -> suggestion) (g : Z) (l : list suggestion) : list suggestion :=
  match l with
  | [] => []
  | s :: l => if decide (idx s = g) then f s :: l else s :: on_index f g l
  end.

Definition setFocus (c : card) : card :=
  c <| suggestions ::= on_index (fun s => s <| active := true |>) (curDSindex c) |>.
Definition clearFocus (c : card) : card :=
  c <| suggestions ::= on_index (fun s => s <| active := false |>) (curDSindex c) |>.

(** [fillEmailSelect]; the flag tells that it throws: [dsAnchor.firstChild] is null. *)
Definition fillEmailSelect (cf : config) (c : card) : card * bool :=
  let L := value c in
  if bool_decide (L = []) || negb (user_text L) then (c <| listed := false |>, false)
  else
    let M := tail_of L in
    let i := name_of L in
    let c := c <| listed := true |> in
    let s := scan_loop cf i M (curDSindex c) 0 (postfixes cf L) (Scan [] false (-1) false []) in
    let c :=
      if decide (0 < length (sc_items s))
      then
        let c := c <| suggestions := sc_items s |> in
        let c := if sc_w s then c else c <| curDSindex := sc_N s |> in
        setFocus c
      else c <| listed := false |> <| curDSindex := (-1)%Z |> in
    (c, negb (present (head (suggestions c)))).

(** * Moving and choosing *)

(** The index of the item after the one at the current index, or of the first. *)
Fixpoint after (g : Z) (l : list suggestion) : option Z :=
  match l with
  | [] => None
  | s :: l => if decide (idx s = g) then idx <$> head l else after g l
  end.

Definition downDSindex (c : card) : card :=
  match suggestions c with
  | [] => c
  | s :: _ => c <| curDSindex := default (idx s) (after (curDSindex c) (suggestions c)) |>
  end.

(** [upDSindex]: [c] is the index before, -1 for none. *)
Fixpoint before (g : Z) (prev : Z) (l : list suggestion) : option Z :=
  match l with
  | [] => None
  | s :: l => if decide (idx s = g) then Some prev else before g (idx s) l
  end.

Definition upDSindex (c : card) : card :=
  match suggestions c with
  | [] => c
  | s :: _ =>
      match before (curDSindex c) (-1)%Z (suggestions c) with
      | None => c <| curDSindex := idx s |>
      | Some p => if decide (p = -1)%Z
                  then c <| curDSindex := default (idx s) (idx <$> last (suggestions c)) |>
                  else c <| curDSindex := p |>
      end
  end.

Definition findDSindex (g : Z) (l : list suggestion) : option suggestion :=
  find (fun s => bool_decide (idx s = g)) l.

Section Choosing.
Variable inner : jstr -> jstr.

Definition doSelect (c : card) : card :=
  let c := c <| listed := false |> in
  let c :=
    match findDSindex (curDSindex c) (suggestions c) with
    | Some d =>
        let t := inner (text d) in
        if truthy t && negb (bool_decide (value c = hint)) then c <| value := replace_amp t |> else c
    | None => c
    end in
  if truthy (value c) && negb (bool_decide (value c = hint)) then changePass c else c.

(** A link's handlers. *)
Definition onmouseover (g : Z) (c : card) : card :=
  setFocus ((clearFocus c) <| curDSindex := g |>).
Definition onclick (c : card) : card := doSelect c.

(** * The keys of the field *)

Definition enter_key : nat := 13.
Definition up_key : nat := 38.
Definition down_key : nat := 40.

Definition move (key : nat) (c : card) : card :=
  let c := clearFocus c in
  setFocus (if decide (key = up_key) then upDSindex c else downDSindex c).

Definition arrow (key : nat) : bool := Nat.eqb key up_key || Nat.eqb key down_key.

(** [checkKeyPress]: some letters ask for the list ten milliseconds later, an event. *)
Definition checkKeyPress (key : nat) (shift : bool) (c : card) : card :=
  if arrow key && negb shift then move key c else c.

Definition checkKeyUp (cf : config) (key : nat) (shift : bool) (c : card) : card :=
  let '(c, thrown) := fillEmailSelect cf c in
  if thrown then c
  else
    let c := if decide (key = enter_key) then doSelect c else c in
    if (Nat.eqb (browser cf) 7 || Nat.eqb (browser cf) 4) && arrow key && negb shift
    then move key c else c.

(** [checkMousedown]. *)
Definition checkMousedown (c : card) : card :=
  if bool_decide (value c = hint) then c <| value := [] |> else c.

(** * [_drawLoginForm]: the fields and the handlers it binds *)

(** The new form: the field shows the hint and what was there is gone; the list stays.
    [bindSelector] forgets the current index. *)
Definition draw_fields (c : card) : card :=
  c <| value := hint |> <| blurred := true |> <| pw_value := [] |> <| pw_shown := false |>
    <| pw1_shown := true |>.
Definition bindSelector (c : card) : card := c <| curDSindex := (-1)%Z |>.

(** The blur handlers of #email: the one that puts the hint back, then [doSelect], which
    [bindSelector] binds to the form already drawn. *)
Definition email_blur (c : card) : card :=
  let c := if bool_decide (value c = []) then c <| value := hint |> <| blurred := true |> else c in
  doSelect c.

(** In Mozilla browsers, a click on the field or its focus. *)
Definition email_focus (c : card) : card :=
  if bool_decide (value c = hint) then c <| value := [] |> <| blurred := false |> else c.

Definition password_blur (c : card) : card :=
  if bool_decide (pw_value c = []) then c <| pw_shown := false |> <| pw1_shown := true |> else c.
Definition password1_focus (c : card) : card := c <| pw1_shown := false |> <| pw_shown := true |>.

(** * What can happen to a form once it is drawn *)

Inductive event :=
  | Edit (v : jstr)               (* the user changes the text of the field *)
  | KeyPress (key : nat) (shift : bool)
  | KeyUp (key : nat) (shift : bool)
  | Later                         (* the timer of checkKeyPress *)
  | Over (n : nat)                (* the pointer comes to the nth item *)
  | ClickItem
  | MouseDown
  | EmailFocus
  | EmailBlur
  | EditPassword (v : jstr)
  | PasswordBlur
  | Password1Focus.

Definition handle (cf : config) (e : event) (c : card) : card :=
  match e with
  | Edit v => c <| value := v |>
  | KeyPress key shift => checkKeyPress key shift c
  | KeyUp key shift => checkKeyUp cf key shift c
  | Later => fst (fillEmailSelect cf c)
  | Over n => match suggestions c !! n with Some s => onmouseover (idx s) c | None => c end
  | ClickItem => onclick c
  | MouseDown => checkMousedown c
  | EmailFocus => email_focus c
  | EmailBlur => email_blur c
  | EditPassword v => c <| pw_value := v |>
  | PasswordBlur => password_blur c
  | Password1Focus => password1_focus c
  end.

Definition events (cf : config) (es : list event) (c : card) : card :=
  foldl (fun c e => handle cf e c) c es.

End Choosing.

Definition card_new : card := Card hint false [] (-1) [] false true true.

(** The postfixes of the page: [firstDomain] first, then its own domain and the list. *)
Definition page_config : config :=
  Config (map (fun s => Some (js s))
    ["uniqname"; "t.sohu.com"; "sohu.com"; "chinaren.com"; "sogou.com"; "vip.sohu.com"]%string) [] true 7.
