(* ===== verification/PassportFacts.v ===== *)
(** PassportFacts: of the completions shown exactly one is marked, and it is the one that
    is taken; completions keep the name that was typed. *)

From S2P Require Import Prelude.
From S2P Require Import Passport.
From coqutil Require Import Datatypes.RecordSettersUsingExistingGetters.

(** * The loop *)

(** The items so far, with what N and w say of them. *)
Record scanned (cur J : Z) (s : scan) : Prop := Scanned {
  scanned_idx : Forall (fun x => (0 <= idx x < J)%Z /\ active x = false) (sc_items s);
  scanned_nodup : NoDup (map idx (sc_items s));
  scanned_first : sc_N s = default (-1)%Z (idx <$> head (sc_items s));
  scanned_cur : sc_w s = true <-> cur ∈ map idx (sc_items s)
}.

Lemma scanned_mono cur J s : scanned cur J s -> scanned cur (J + 1) s.
Proof.
  intros []. split; [|done..]. refine (Forall_impl _ _ _ scanned_idx0 _).
  intros x [? ?]. split; [lia|done].
Qed.

Lemma scan_one_scanned cf i M cur J y s : (0 <= J)%Z ->
  scanned cur J s -> scanned cur (J + 1) (scan_one cf i M cur J y s).
Proof.
  intros HJ Hs. unfold scan_one.
  destruct (admits cf i M y (sc_E s) (sc_D s)) as [[E D]|]; [|by apply scanned_mono].
  case_bool_decide as HyE; [apply scanned_mono; by destruct Hs|].
  pose proof Hs as [H1 H2 H3 H4].
  assert (J ∉ map idx (sc_items s)) as HJn.
  { intros (x & -> & Hx)%list_elem_of_fmap. rewrite Forall_forall in H1.
    destruct (H1 x) as [? _]; [done|lia]. }
  split; cbn.
  - apply Forall_app_2; [by destruct (scanned_mono _ _ _ Hs)|].
    repeat constructor; cbn; lia.
  - rewrite map_app. apply NoDup_app. split_and!; [done| |apply NoDup_singleton].
    intros x Hx ->%list_elem_of_singleton. done.
  - destruct (sc_items s) as [|x l] eqn:E'; cbn in *; [by rewrite decide_True|].
    apply Forall_cons in H1 as [[? _] _]. rewrite decide_False; [done|lia].
  - rewrite map_app, elem_of_app, <- H4. cbn. rewrite list_elem_of_singleton.
    case_decide; naive_solver.
Qed.

Lemma scan_loop_scanned cf i M cur z : forall J s, (0 <= J)%Z ->
  scanned cur J s -> exists J', scanned cur J' (scan_loop cf i M cur J z s).
Proof.
  induction z as [|[y|] z IH]; intros J s HJ Hs; [by exists J|..]; cbn [scan_loop];
    (apply IH; [lia|]); [by apply scan_one_scanned|by apply scanned_mono].
Qed.

(** * The mark *)

(** The items have different indices, the current one among them, and its link alone is
    marked. *)
Record marked (c : card) : Prop := Marked {
  marked_nodup : NoDup (map idx (suggestions c));
  marked_cur : curDSindex c ∈ map idx (suggestions c);
  marked_active : Forall (fun s => active s = bool_decide (idx s = curDSindex c)) (suggestions c);
  marked_from_0 : Forall (fun s => 0 <= idx s)%Z (suggestions c)
}.

Definition card_ok (c : card) : Prop := listed c = true -> marked c.

Lemma on_index_idx f g l : (forall s, idx (f s) = idx s) -> map idx (on_index f g l) = map idx l.
Proof.
  intros Hf. induction l as [|s l IH]; cbn; [done|]. case_decide; cbn; [by rewrite Hf|by rewrite IH].
Qed.

(** Setting and clearing the mark where indices differ. *)
Lemma on_index_active b g l :
  NoDup (map idx l) ->
  on_index (fun s => s <| active := b |>) g l =
  map (fun s => if decide (idx s = g) then s <| active := b |> else s) l.
Proof.
  induction l as [|s l IH]; cbn; [done|]. intros [Hs Hl]%NoDup_cons. case_decide as Hg.
  - f_equal. rewrite <- (map_id l) at 1. apply map_ext_in. intros x Hx.
    rewrite decide_False; [done|]. intros <-. apply Hs. rewrite Hg.
    apply list_elem_of_In, in_map_iff. eauto.
  - by rewrite IH.
Qed.

Lemma setFocus_marked c :
  NoDup (map idx (suggestions c)) -> curDSindex c ∈ map idx (suggestions c) ->
  Forall (fun s => active s = false) (suggestions c) ->
  Forall (fun s => 0 <= idx s)%Z (suggestions c) -> marked (setFocus c).
Proof.
  intros H1 H2 H3 H4. unfold setFocus. split; cbn; rewrite ?on_index_idx by done; try done.
  - rewrite on_index_active by done. apply Forall_map. refine (Forall_impl _ _ _ H3 _).
    intros s Hs. cbn. case_decide as Hd; cbn; [by rewrite bool_decide_true|].
    by rewrite Hs, bool_decide_false.
  - rewrite on_index_active by done. apply Forall_map. refine (Forall_impl _ _ _ H4 _).
    intros s Hs. by case_decide.
Qed.

Lemma clearFocus_inactive c : marked c ->
  Forall (fun s => active s = false) (suggestions (clearFocus c)).
Proof.
  intros [H1 H2 H3 H4]. unfold clearFocus. cbn. rewrite on_index_active by done.
  apply Forall_map. refine (Forall_impl _ _ _ H3 _). intros s Hs. cbn.
  destruct (decide (idx s = curDSindex c)) as [Hd|Hd]; [done|]. by rewrite Hs, bool_decide_false.
Qed.

(** The mark goes from one item to another. *)
Lemma refocus_marked c g :
  marked c -> g ∈ map idx (suggestions c) -> marked (setFocus ((clearFocus c) <| curDSindex := g |>)).
Proof.
  intros Hc Hg. pose proof (clearFocus_inactive c Hc) as Hi. destruct Hc as [H1 H2 H3 H4].
  unfold clearFocus in *. cbn in Hi.
  apply setFocus_marked; cbn; rewrite ?on_index_idx by done; try done.
  rewrite on_index_active by done. apply Forall_map. refine (Forall_impl _ _ _ H4 _).
  intros s Hs. by case_decide.
Qed.

Lemma fill_ok cf c : card_ok (fst (fillEmailSelect cf c)).
Proof.
  unfold fillEmailSelect. destruct (bool_decide _ || _); [done|]. cbn [fst].
  destruct (scan_loop_scanned cf (name_of (value c)) (tail_of (value c)) (curDSindex c)
    (postfixes cf (value c)) 0 (Scan [] false (-1) false []) ltac:(lia)) as [J Hs].
  { split; cbn; [constructor|constructor|done|]. split; [done|]. by intros ?%elem_of_nil. }
  cbn [curDSindex] in *. change (curDSindex (c <| listed := true |>)) with (curDSindex c).
  set (s := scan_loop _ _ _ _ _ _ _) in *. clearbody s. destruct Hs as [H1 H2 H3 H4].
  case_decide as Hl; [|done]. intros _. apply setFocus_marked.
  - by destruct (sc_w s).
  - destruct (sc_w s) eqn:Hw; cbn; [by apply H4|].
    destruct (sc_items s) as [|x l]; cbn in *; [lia|]. rewrite H3. left.
  - assert (suggestions (if sc_w s then c <| listed := true |> <| suggestions := sc_items s |>
      else c <| listed := true |> <| suggestions := sc_items s |> <| curDSindex := sc_N s |>)
      = sc_items s) as -> by by destruct (sc_w s).
    refine (Forall_impl _ _ _ H1 _). by intros ? [].
  - assert (suggestions (if sc_w s then c <| listed := true |> <| suggestions := sc_items s |>
      else c <| listed := true |> <| suggestions := sc_items s |> <| curDSindex := sc_N s |>)
      = sc_items s) as -> by by destruct (sc_w s).
    refine (Forall_impl _ _ _ H1 _). intros ? [? ?]. lia.
Qed.

(** * Moving stays on the list *)

Lemma after_in g l h : after g l = Some h -> h ∈ map idx l.
Proof.
  induction l as [|s l IH]; [done|]. cbn. case_decide.
  - destruct l as [|s' l]; [done|]. intros [= <-]. right. left.
  - intros Ha. right. by apply IH.
Qed.

Lemma before_in g p l h : before g p l = Some h -> h = p \/ h ∈ map idx l.
Proof.
  revert p. induction l as [|s l IH]; intros p; [done|]. cbn. case_decide.
  - intros [= <-]. by left.
  - intros [-> |Hb]%IH; right; [left|by right].
Qed.

Lemma last_in s l : default (idx s) (idx <$> last (s :: l)) ∈ map idx (s :: l).
Proof.
  destruct (last (s :: l)) as [t|] eqn:Hl; [|left]. apply last_Some_elem_of in Hl.
  change (idx t ∈ map idx (s :: l)). apply list_elem_of_fmap. eauto.
Qed.

Lemma move_marked key c : marked c -> marked (move key c).
Proof.
  intros Hc. unfold move. pose proof (clearFocus_inactive c Hc) as Hi.
  pose proof Hc as [H1 H2 _ H4].
  assert (map idx (suggestions (clearFocus c)) = map idx (suggestions c)) as Hm
    by (unfold clearFocus; cbn; by apply on_index_idx).
  assert (forall d : card, suggestions d = suggestions (clearFocus c) ->
    curDSindex d ∈ map idx (suggestions c) -> marked (setFocus d)) as Hset.
  { intros d Hd Hcur. apply setFocus_marked; rewrite ?Hd; try done; rewrite ?Hm; try done.
    rewrite Forall_forall. intros s Hs. rewrite Forall_forall in H4.
    assert (idx s ∈ map idx (suggestions c)) as (t & -> & Ht)%list_elem_of_fmap
      by (rewrite <- Hm; apply list_elem_of_fmap; eauto). by apply H4. }
  assert (curDSindex (clearFocus c) = curDSindex c) as Hcur by done.
  case_decide; apply Hset; unfold upDSindex, downDSindex;
    destruct (suggestions (clearFocus c)) as [|s l] eqn:E; try (by rewrite <- E); try (by rewrite ?Hcur).
  - destruct (before _ _ _) as [p|]; [case_decide|]; done.
  - rewrite <- Hm. rewrite Hcur. destruct (before (curDSindex c) (-1) (s :: l)) as [p|] eqn:Hb.
    + apply before_in in Hb as [-> |Hb]; [|case_decide; cbn; [|done]].
      * rewrite decide_True by done. apply last_in.
      * apply last_in.
    + left.
  - rewrite <- Hm, Hcur. cbn -[after]. destruct (after (curDSindex c) (s :: l)) as [h|] eqn:Ha; cbn; [|left].
    by apply after_in in Ha.
Qed.

Lemma doSelect_unlisted inner c : listed (doSelect inner c) = false.
Proof.
  unfold doSelect. set (d := match findDSindex _ _ with Some _ => _ | None => _ end).
  assert (listed d = false) as Hd by (unfold d; destruct (findDSindex _ _); [case_match|]; done).
  by destruct (_ && _).
Qed.

Lemma move_listed key c : listed (move key c) = listed c.
Proof.
  unfold move, setFocus, clearFocus, upDSindex, downDSindex. cbn. case_decide; cbn;
    destruct (on_index _ _ _); cbn; try done; repeat (case_match; cbn; try done).
Qed.

Lemma move_ok key c : card_ok c -> card_ok (move key c).
Proof. intros Hc Hl. rewrite move_listed in Hl. by apply move_marked, Hc. Qed.

Lemma card_ok_frame c c' :
  listed c' = listed c -> suggestions c' = suggestions c -> curDSindex c' = curDSindex c ->
  card_ok c -> card_ok c'.
Proof.
  intros H1 H2 H3 Hc Hl. rewrite H1 in Hl. destruct (Hc Hl). split; by rewrite ?H2, ?H3.
Qed.

Lemma doSelect_ok inner c : card_ok (doSelect inner c).
Proof. intros Hl. by rewrite doSelect_unlisted in Hl. Qed.

Lemma handle_ok inner cf e c : card_ok c -> card_ok (handle inner cf e c).
Proof.
  intros Hc. destruct e; cbn [handle].
  - by apply (card_ok_frame c).
  - unfold checkKeyPress. case_match; [by apply move_ok|done].
  - unfold checkKeyUp. pose proof (fill_ok cf c) as Hf. destruct (fillEmailSelect cf c) as [d b].
    cbn in Hf. destruct b; [done|].
    assert (card_ok (if decide (key = enter_key) then doSelect inner d else d)) as Hd
      by (case_decide; [apply doSelect_ok|done]).
    set (d' := if decide _ then _ else _) in *. clearbody d'.
    destruct (_ && negb shift); [by apply move_ok|done].
  - apply fill_ok.
  - destruct (suggestions c !! n) as [s|] eqn:E; [|done]. intros Hl. apply refocus_marked.
    + apply Hc. exact Hl.
    + apply list_elem_of_fmap. exists s. split; [done|]. by apply list_elem_of_lookup_2 in E.
  - apply doSelect_ok.
  - unfold checkMousedown. case_match; [by apply (card_ok_frame c)|done].
  - unfold email_focus. case_match; [by apply (card_ok_frame c)|done].
  - apply doSelect_ok.
  - by apply (card_ok_frame c).
  - unfold password_blur. case_match; [by apply (card_ok_frame c)|done].
  - by apply (card_ok_frame c).
Qed.

Lemma events_ok inner cf es c : card_ok c -> card_ok (events inner cf es c).
Proof. revert c. induction es as [|e es IH]; intros c Hc; [done|]. by apply IH, handle_ok. Qed.

(** The one element a flag and the search agree on. *)
Lemma filter_inactive {A} (f : A -> bool) l : Forall (fun x => f x = false) l -> List.filter f l = [].
Proof. induction 1 as [|x l Hx _ IH]; cbn; [done|]. by rewrite Hx. Qed.

Lemma filter_one {A} (f : A -> bool) (g : A -> Z) k l :
  NoDup (map g l) -> k ∈ map g l -> Forall (fun x => f x = bool_decide (g x = k)) l ->
  exists x, List.filter f l = [x] /\ find (fun x => bool_decide (g x = k)) l = Some x.
Proof.
  induction l as [|x l IH]; cbn; [by intros _ ?%elem_of_nil|].
  intros [Hx Hl]%NoDup_cons Hk [Hf Hfs]%Forall_cons. rewrite Hf. case_bool_decide as E.
  - exists x. split; [|done]. f_equal. apply filter_inactive. rewrite Forall_forall in Hfs |- *.
    intros y Hy. rewrite Hfs by done. apply bool_decide_false. intros <-. apply Hx.
    rewrite E. apply list_elem_of_fmap. eauto.
  - apply IH; [done| |done]. by apply elem_of_cons in Hk as [Hk|Hk]; [congruence|].
Qed.

(** The [k]th completion is marked and no other. *)
Definition marks (c : card) (k : nat) : Prop :=
  k < length (suggestions c)
  /\ forall j t, suggestions c !! j = Some t -> active t = bool_decide (j = k).

(** The indices of the items do not change while the mark moves. *)
Definition ids (c : card) : list Z := map idx (suggestions c).

Lemma marked_marks c k : marked c -> ids c !! k = Some (curDSindex c) -> marks c k.
Proof.
  intros [H1 _ H3 _] Hk. unfold ids in *. split.
  - rewrite <- (length_map idx). by eapply lookup_lt_Some.
  - intros j t Hj. rewrite Forall_lookup in H3. rewrite (H3 j t Hj). apply bool_decide_ext.
    assert (map idx (suggestions c) !! j = Some (idx t)) as Hi by by rewrite list_lookup_fmap, Hj.
    split; [|congruence]. intros E. rewrite E in Hi. by eapply (NoDup_lookup _ _ _ _ H1).
Qed.

Lemma after_lookup g l k : NoDup (map idx l) -> map idx l !! k = Some g -> after g l = map idx l !! S k.
Proof.
  revert k. induction l as [|s l IH]; intros k; [done|]. cbn [map after].
  intros [Hs Hl]%NoDup_cons Hk. case_decide as E.
  - destruct k as [|k]; [by destruct l|]. cbn in Hk.
    exfalso. apply Hs. rewrite E. by eapply list_elem_of_lookup_2.
  - destruct k as [|k]; [cbn in Hk; congruence|]. by apply IH.
Qed.

Lemma before_lookup g p l k :
  NoDup (map idx l) -> map idx l !! k = Some g ->
  before g p l = match k with 0 => Some p | S k => map idx l !! k end.
Proof.
  revert p k. induction l as [|s l IH]; intros p k; [done|]. cbn [map before].
  intros [Hs Hl]%NoDup_cons Hk. case_decide as E.
  - destruct k as [|k]; [done|]. cbn in Hk. exfalso. apply Hs. rewrite E.
    by eapply list_elem_of_lookup_2.
  - destruct k as [|k]; [cbn in Hk; congruence|]. rewrite (IH (idx s) k Hl Hk).
    by destruct k.
Qed.

Lemma last_lookup s l : default (idx s) (idx <$> last (s :: l)) = default 0%Z (map idx (s :: l) !! length l).
Proof. rewrite last_lookup, list_lookup_fmap. cbn [length pred]. by destruct ((s :: l) !! length l) eqn:E; [|apply lookup_ge_None in E; cbn in E; lia]. Qed.

Lemma ids_move key c : ids (move key c) = ids c.
Proof.
  unfold ids, move, setFocus, clearFocus. cbn [suggestions].
  assert (forall d e : card, suggestions (if decide (key = up_key) then upDSindex d else downDSindex d)
    = suggestions d) as Hs.
  { intros d _. unfold upDSindex, downDSindex. destruct (suggestions d) eqn:E; [by case_decide|].
    repeat case_match; cbn; done. }
  cbn. rewrite on_index_idx by done. rewrite (Hs _ c). cbn. by rewrite on_index_idx.
Qed.

(** The items while the mark is off: the same indices. *)
Lemma cleared_ids c : map idx (suggestions (clearFocus c)) = ids c.
Proof. unfold clearFocus, ids. cbn. by apply on_index_idx. Qed.

(** The arrow keys move the mark by one, from the last item to the first and back. *)
Lemma cur_down c k :
  marked c -> ids c !! k = Some (curDSindex c) ->
  ids c !! ((k + 1) mod length (ids c)) = Some (curDSindex (move down_key c)).
Proof.
  intros [H1 _ _ _] Hk. pose proof (cleared_ids c) as Hc. fold (ids c) in H1.
  change (curDSindex (move down_key c)) with (curDSindex (downDSindex (clearFocus c))).
  unfold downDSindex. change (curDSindex (clearFocus c)) with (curDSindex c).
  rewrite <- Hc in *. destruct (suggestions (clearFocus c)) as [|s l] eqn:E; [done|].
  pose proof (after_lookup _ _ _ H1 Hk) as Ha. pose proof (lookup_lt_Some _ _ _ Hk) as Hlt.
  cbn [curDSindex]. set (n := length (map idx (s :: l))) in *.
  change (curDSindex (clearFocus c <| curDSindex := ?x |>)) with x. rewrite Ha.
  destruct (decide (S k < n)) as [Hs|Hs].
  - rewrite Nat.mod_small by lia. rewrite Nat.add_1_r.
    destruct (lookup_lt_is_Some_2 (map idx (s :: l)) (S k) Hs) as [x ->]. done.
  - assert (k + 1 = n) as -> by lia. rewrite Nat.Div0.mod_same.
    rewrite (proj2 (lookup_ge_None (map idx (s :: l)) (S k))) by (fold n; lia). done.
Qed.

Lemma cur_up c k :
  marked c -> ids c !! k = Some (curDSindex c) ->
  ids c !! ((k + length (ids c) - 1) mod length (ids c)) = Some (curDSindex (move up_key c)).
Proof.
  intros [H1 _ _ H4] Hk. pose proof (cleared_ids c) as Hc. fold (ids c) in H1.
  assert (forall x, x ∈ ids c -> (0 <= x)%Z) as Hpos.
  { intros x (t & -> & Ht)%list_elem_of_fmap. rewrite Forall_forall in H4. by apply H4. }
  change (curDSindex (move up_key c)) with (curDSindex (upDSindex (clearFocus c))).
  unfold upDSindex. change (curDSindex (clearFocus c)) with (curDSindex c).
  rewrite <- Hc in *. destruct (suggestions (clearFocus c)) as [|s l] eqn:E; [done|].
  rewrite (before_lookup _ (-1) _ _ H1 Hk). pose proof (lookup_lt_Some _ _ _ Hk) as Hlt.
  assert (length (map idx (s :: l)) = S (length l)) as Hn by (cbn; by rewrite length_map).
  rewrite Hn in *. destruct k as [|k].
  - rewrite decide_True by done.
    change (curDSindex (clearFocus c <| curDSindex := ?x |>)) with x.
    rewrite last_lookup. replace ((0 + S (length l) - 1) mod S (length l)) with (length l)
      by (rewrite Nat.mod_small; lia).
    destruct (lookup_lt_is_Some_2 (map idx (s :: l)) (length l)) as [x ->]; [rewrite Hn; lia|done].
  - replace ((S k + S (length l) - 1) mod S (length l)) with k.
    2: { replace (S k + S (length l) - 1) with (k + 1 * S (length l)) by lia.
         rewrite Nat.Div0.mod_add, Nat.mod_small; lia. }
    destruct (lookup_lt_is_Some_2 (map idx (s :: l)) k) as [x Hx]; [rewrite Hn; lia|].
    rewrite Hx. rewrite decide_False; [done|]. intros ->.
    assert (0 <= -1)%Z by by eapply Hpos, list_elem_of_lookup_2. lia.
Qed.

(** The list is hidden and the field has the text of the item, as reading back its link
    gives it; the card goes on to the password, unless that is the hint or nothing. *)
Definition taken (inner : jstr -> jstr) (s : suggestion) (c c' : card) : Prop :=
  let v := replace_amp (inner (text s)) in
  listed c' = false
  /\ (value c <> hint -> inner (text s) <> [] ->
       value c' = v /\ (v <> hint -> v <> [] -> pw_shown c' = true)).

Lemma doSelect_takes inner c k s :
  marked c -> ids c !! k = Some (curDSindex c) -> suggestions c !! k = Some s ->
  taken inner s c (doSelect inner c).
Proof.
  intros [H1 H2 H3 _] Hk Hs. split; [apply doSelect_unlisted|]. intros Hv Hi.
  destruct (filter_one active idx _ _ H1 H2 H3) as (s' & _ & Hf).
  assert (s' = s) as ->.
  { apply find_some in Hf as [Hin%list_elem_of_In Hx]. apply bool_decide_eq_true in Hx.
    apply list_elem_of_lookup in Hin as [j Hj].
    assert (ids c !! j = Some (curDSindex c)) as Hj' by (unfold ids; rewrite list_lookup_fmap, Hj; cbn; congruence).
    pose proof (NoDup_lookup _ _ _ _ H1 Hk Hj') as ->. congruence. }
  unfold doSelect, findDSindex. cbn. rewrite Hf, (bool_decide_false (value c = hint)) by done.
  destruct (inner (text s)) as [|x l] eqn:E; [done|]. cbn [truthy truthy_str negb andb]. split.
  - by destruct (_ && _).
  - intros Hh Hn. set (v := replace_amp (x :: l)) in *. clearbody v. cbn.
    change (const v (value c)) with v. rewrite bool_decide_false by done. by destruct v.
Qed.

Lemma marked_place c : marked c -> exists k s, ids c !! k = Some (curDSindex c) /\ suggestions c !! k = Some s.
Proof.
  intros [_ H2 _ _]. apply list_elem_of_lookup in H2 as [k Hk]. exists k.
  pose proof Hk as Hk'. rewrite list_lookup_fmap in Hk'. destruct (suggestions c !! k) as [s|]; [|done].
  by exists s.
Qed.

(** The mark of a list made anew: the item with the index of the old one, or the first. *)
Lemma fill_mark cf c :
  let d := fst (fillEmailSelect cf c) in
  listed d = true ->
  curDSindex d = curDSindex c \/ (curDSindex c ∉ ids d) /\ ids d !! 0 = Some (curDSindex d).
Proof.
  cbn zeta. unfold fillEmailSelect. destruct (bool_decide _ || _); [done|]. cbn [fst].
  destruct (scan_loop_scanned cf (name_of (value c)) (tail_of (value c)) (curDSindex c)
    (postfixes cf (value c)) 0 (Scan [] false (-1) false []) ltac:(lia)) as [J Hs].
  { split; cbn; [constructor|constructor|done|]. split; [done|]. by intros ?%elem_of_nil. }
  change (curDSindex (c <| listed := true |>)) with (curDSindex c).
  set (s := scan_loop _ _ _ _ _ _ _) in *. clearbody s. destruct Hs as [_ _ H3 H4].
  case_decide as Hl; [|done]. intros _. destruct (sc_w s) eqn:Hw; [by left|right].
  unfold ids, setFocus. cbn [suggestions]. cbn. rewrite on_index_idx by done. split.
  - intros Hin. by apply H4 in Hin.
  - change (const (sc_N s) (curDSindex c)) with (sc_N s).
    destruct (sc_items s) as [|x l]; cbn in *; [lia|congruence].
Qed.

Lemma fill_lists cf c :
  listed (fst (fillEmailSelect cf c)) = true -> snd (fillEmailSelect cf c) = false.
Proof.
  intros Hl. pose proof (fill_ok cf c Hl) as Hm. destruct (marked_place _ Hm) as (k & s & _ & Hk).
  unfold fillEmailSelect in *. destruct (bool_decide _ || _); [done|]. cbn [fst snd] in *.
  set (d := if decide _ then _ else _) in *. by destruct (suggestions d).
Qed.

(** C36. From a card whose list is hidden, whatever the user types, presses, points at and
    leaves: as long as completions are shown, exactly one of them is marked.
    The pointer over an item marks that one; the arrow keys mark the next and the one
    before, around the ends; a click, and leaving a field that is not empty, take it into the field and hide the list, unless the field
    shows the hint or the link reads as nothing: then they only hide the list.  Enter makes
    the list anew for the text that is there by then, and if there still is one takes the
    item with the index of the marked one, or the first if that is not offered any more. *)
Theorem marked_is_taken inner cf es c0 :
  listed c0 = false ->
  let c := events inner cf es c0 in
  let n := length (suggestions c) in
  listed c = true ->
  exists k s, suggestions c !! k = Some s /\ marks c k
    /\ (forall j, j < n -> marks (handle inner cf (Over j) c) j)
    /\ marks (handle inner cf (KeyPress down_key false) c) ((k + 1) mod n)
    /\ marks (handle inner cf (KeyPress up_key false) c) ((k + n - 1) mod n)
    /\ taken inner s c (handle inner cf ClickItem c)
    /\ (value c <> [] -> taken inner s c (handle inner cf EmailBlur c))
    /\ forall sh, let d := fst (fillEmailSelect cf c) in
         listed d = true ->
         exists k' s', suggestions d !! k' = Some s' /\ marks d k'
           /\ (idx s' = idx s \/ (idx s ∉ ids d) /\ k' = 0)
           /\ taken inner s' d (handle inner cf (KeyUp enter_key sh) c).
Proof.
  intros H0 c n Hl.
  assert (marked c) as Hm by (apply events_ok; [intros ?; congruence|done]).
  destruct (marked_place c Hm) as (k & s & Hk & Hs). exists k, s.
  assert (length (ids c) = n) as Hn by (unfold ids; by rewrite length_map).
  split; [done|]. split; [by apply marked_marks|]. split; [|split; [|split; [|split; [|split]]]].
  - intros j Hj. destruct (lookup_lt_is_Some_2 (suggestions c) j Hj) as [t Ht].
    cbn [handle]. rewrite Ht.
    assert (ids c !! j = Some (idx t)) as Hi by (unfold ids; by rewrite list_lookup_fmap, Ht).
    apply marked_marks.
    + apply refocus_marked; [done|]. by eapply list_elem_of_lookup_2.
    + unfold onmouseover, setFocus, clearFocus, ids. cbn. by rewrite !on_index_idx.
  - change (marks (move down_key c) ((k + 1) mod n)). apply marked_marks; [by apply move_marked|].
    rewrite ids_move, <- Hn. by apply cur_down.
  - change (marks (move up_key c) ((k + n - 1) mod n)). apply marked_marks; [by apply move_marked|].
    rewrite ids_move, <- Hn. by apply cur_up.
  - by apply (doSelect_takes _ _ k).
  - intros Hv. cbn [handle]. unfold email_blur. rewrite bool_decide_false by done.
    by apply (doSelect_takes _ _ k).
  - intros sh d Hd. pose proof (fill_ok cf c Hd) as Hmd. fold d in Hmd.
    destruct (marked_place d Hmd) as (k' & s' & Hk' & Hs'). exists k', s'.
    assert (idx s = curDSindex c) as Ei by (unfold ids in Hk; rewrite list_lookup_fmap, Hs in Hk; by injection Hk).
    assert (idx s' = curDSindex d) as Ei' by (unfold ids in Hk'; rewrite list_lookup_fmap, Hs' in Hk'; by injection Hk').
    split; [done|]. split; [by apply marked_marks|]. split.
    + rewrite Ei, Ei'. pose proof (fill_mark cf c Hd) as Hf. cbn zeta in Hf.
      fold d in Hf. destruct Hf as [E|[E1 E2]]; [by left|right].
      split; [done|]. destruct Hmd as [H1 _ _ _]. by eapply NoDup_lookup.
    + cbn [handle]. unfold checkKeyUp. pose proof (fill_lists cf c Hd) as Ht.
      rewrite (surjective_pairing (fillEmailSelect cf c)), Ht. fold d.
      rewrite decide_True by done. change (arrow enter_key) with false.
      rewrite andb_false_r. cbn [andb]. by apply (doSelect_takes _ _ k').
Qed.

(** Of the two completions of joe@so the second is marked after a key down; up again marks
    the first one, and Enter takes the second. *)
Lemma marked_is_taken_witness :
  let c := events id page_config [EmailFocus; Edit (js "joe@so"); KeyUp 79 false; KeyUp 40 false] card_new in
  listed c = true /\ length (suggestions c) = 2 /\ marks c 1
  /\ marks (handle id page_config (KeyPress up_key false) c) 0
  /\ value (handle id page_config (KeyUp enter_key false) c) = js "joe@sogou.com".
Proof.
  set (es := [EmailFocus; Edit (js "joe@so"); KeyUp 79 false; KeyUp 40 false]).
  intros c. split; [vm_compute; reflexivity|].
  assert (length (suggestions (events id page_config es card_new)) = 2) as Hn by (vm_compute; reflexivity).
  split; [exact Hn|].
  destruct (marked_is_taken id page_config es card_new eq_refl) as (k & s & H1 & H2 & _ & _ & H3 & _ & _ & H4);
    [vm_compute; reflexivity|].
  assert (k = 1) as ->.
  { destruct H2 as [Hk Hm]. destruct (suggestions (events id page_config es card_new) !! 1) as [t|] eqn:E;
      [|vm_compute in E; discriminate].
    pose proof (Hm 1 t E) as Ht. vm_compute in E. injection E as <-.
    symmetry in Ht. by apply bool_decide_eq_true in Ht. }
  split; [exact H2|]. rewrite Hn in H3. change ((1 + 2 - 1) mod 2) with 0 in H3.
  split; [exact H3|].
  destruct (H4 false) as (k' & s' & E1 & [_ Hm] & _ & Ht); [vm_compute; reflexivity|].
  destruct (suggestions (fst (fillEmailSelect page_config (events id page_config es card_new))) !! 1)
    as [t|] eqn:E; [|vm_compute in E; discriminate].
  pose proof (Hm 1 t E) as Hk. vm_compute in E. injection E as <-.
  symmetry in Hk. apply bool_decide_eq_true in Hk as <-. vm_compute in E1. injection E1 as <-.
  destruct Ht as [_ Ht]. destruct Ht as [Ht _]; [vm_compute; discriminate..|].
  etransitivity; [exact Ht|vm_compute; reflexivity].
Defined.

(** * What is offered *)

Lemma last_pos_Some p s n : last_pos p s = Some n -> exists a b, s = a ++ p ++ b /\ length a = n.
Proof.
  revert n. induction s as [|x s IH]; intros n; cbn -[starts_with].
  - destruct p; [|done]. intros [= <-]. by exists [], [].
  - destruct (last_pos p s) as [m|].
    + intros [= <-]. destruct (IH m eq_refl) as (a & b & -> & <-). by exists (x :: a), b.
    + destruct (starts_with p (x :: s)) eqn:E; [|done]. intros [= <-].
      apply starts_with_spec in E as [b ->]. by exists [], b.
Qed.

Lemma only_at_start_prefix p s : only_at_start p s = true -> exists r, s = p ++ r.
Proof.
  unfold only_at_start. intros H%bool_decide_eq_true. apply last_pos_Some in H as (a & b & -> & Ha).
  destruct a; [|done]. by exists b.
Qed.

Definition keeps (i : jstr) (s : suggestion) : Prop := exists r, text s = i ++ r.

Lemma completion_keeps cf i M y E D E' D' :
  D = false -> admits cf i M y E D = Some (E', D') -> exists r, completion cf i y D' = i ++ r.
Proof.
  intros ->. unfold admits, completion. destruct (truthy M && _); [done|].
  destruct (full_address y) as [[x rest]|] eqn:Hfa.
  - destruct (not_padded cf rest); [done|]. destruct (only_at_start i x) eqn:Hi; [|done].
    intros [= <- <-]. apply only_at_start_prefix in Hi as [r ->].
    unfold full_address in Hfa. destruct (last_index_of at_sign y) as [[|p]|] eqn:Hp; try done.
    injection Hfa as Hx _. case_match; [exists []; by rewrite app_nil_r|]. cbn [negb].
    case_match; [|by exists r].
    exists (r ++ drop (S p) y). rewrite app_assoc, <- Hx. by rewrite take_drop.
  - destruct (not_padded cf y); [done|]. intros [= <- <-].
    case_match; [exists []; by rewrite app_nil_r|]. cbn [negb].
    case_match; [eauto|exists []; by rewrite app_nil_r].
Qed.

(** D is put back by every item added; where none is, because y is E, y was no address. *)
Record kept (i : jstr) (s : scan) : Prop := Kept {
  kept_items : Forall (keeps i) (sc_items s);
  kept_D : sc_D s = false;
  kept_E : at_sign ∉ sc_E s
}.

Lemma last_index_of_after c s n : last_index_of c s = Some n -> c ∉ drop (S n) s.
Proof.
  revert n. induction s as [|x s IH]; intros n; cbn; [done|].
  destruct (last_index_of c s) as [m|] eqn:E; [intros [= <-]; by apply IH|].
  case_decide; [|done]. intros [= <-]. rewrite drop_0. by apply last_index_of_None.
Qed.

Lemma full_address_at y x rest : full_address y = Some (x, rest) -> at_sign ∈ y /\ at_sign ∉ rest.
Proof.
  unfold full_address. destruct (last_index_of at_sign y) as [[|p]|] eqn:E; try done.
  intros [= <- <-]. split.
  - destruct (decide (at_sign ∈ y)) as [|Hn]; [done|].
    apply last_index_of_None in Hn. congruence.
  - by apply last_index_of_after.
Qed.

Lemma scan_one_kept cf i M cur J y s : kept i s -> kept i (scan_one cf i M cur J y s).
Proof.
  intros [H1 H2 H3]. unfold scan_one. destruct (admits cf i M y _ _) as [[E D]|] eqn:Ha; [|done].
  pose proof (completion_keeps cf i M y _ _ E D H2 Ha) as Hk.
  assert ((at_sign ∉ E) /\ (D = true -> at_sign ∈ y)) as [HE HD].
  { unfold admits in Ha. rewrite H2 in Ha. destruct (_ && _); [done|].
    destruct (full_address y) as [[x rest]|] eqn:Hf.
    - apply full_address_at in Hf as [Hy Hr]. repeat (case_match; try done). all: by injection Ha as <- <-.
    - case_match; [done|]. by injection Ha as <- <-. }
  case_bool_decide as HyE.
  - split; cbn; [done| |done]. change (const E (sc_E s)) with E. destruct D; [|done].
    exfalso. subst y. by apply HE, HD.
  - split; cbn; [|done..]. apply Forall_app_2; [done|]. by repeat constructor.
Qed.

Lemma scan_loop_kept cf i M cur z : forall J s, kept i s -> kept i (scan_loop cf i M cur J z s).
Proof.
  induction z as [|[y|] z IH]; intros J s Hs; cbn [scan_loop]; [done|..]; apply IH; [|done].
  by apply scan_one_kept.
Qed.

(** Every completion that [fillEmailSelect] offers begins with the name that was typed,
    the part before the last at sign: taking one never changes the name. *)
Theorem completions_keep_name cf c :
  listed (fst (fillEmailSelect cf c)) = true ->
  Forall (keeps (name_of (value c))) (suggestions (fst (fillEmailSelect cf c))).
Proof.
  unfold fillEmailSelect. destruct (bool_decide _ || _); [done|]. cbn [fst].
  change (curDSindex (c <| listed := true |>)) with (curDSindex c).
  pose proof (scan_loop_kept cf (name_of (value c)) (tail_of (value c)) (curDSindex c)
    (postfixes cf (value c)) 0 (Scan [] false (-1) false [])) as [Hk _ _].
  { split; cbn; [constructor|done|apply not_elem_of_nil]. }
  set (s := scan_loop _ _ _ _ _ _ _) in *. clearbody s. case_decide as Hl; [|done]. intros _.
  unfold setFocus. destruct (sc_w s); cbn.
  all: set (g := curDSindex c) || set (g := sc_N s); clear Hl.
  all: set (l := sc_items s) in *; clearbody l.
  all: match goal with |- Forall _ (on_index _ ?g _) => generalize g end; intros h.
  all: induction Hk as [|x l Hx Hl IH]; cbn; [constructor|].
  all: case_decide; constructor; done.
Qed.

Lemma completions_keep_name_witness :
  let c := card_new <| value := js "joe@so" |> in
  listed (fst (fillEmailSelect page_config c)) = true /\
  Forall (keeps (name_of (value c))) (suggestions (fst (fillEmailSelect page_config c))).
Proof. split; [vm_compute; reflexivity|]. apply completions_keep_name. vm_compute. reflexivity. Defined.

(** A postfix that completes what was typed behind the at sign. *)
Definition offered (M y : jstr) : bool :=
  (negb (truthy M) || only_at_start M y) && truthy y.

Lemma scan_loop_offers cf i M cur ys : forall J s,
  autopad cf = [] -> Forall (fun y => at_sign ∉ y) ys -> sc_E s = [] -> sc_D s = false ->
  map text (sc_items (scan_loop cf i M cur J (map Some ys) s)) =
  map text (sc_items s) ++ map (fun y => completion cf i y false) (List.filter (offered M) ys).
Proof.
  induction ys as [|y ys IH]; intros J s Hp Hys HE HD; cbn [map scan_loop];
    [by rewrite app_nil_r|].
  apply Forall_cons in Hys as [Hy Hys].
  assert (full_address y = None) as Hf.
  { unfold full_address. by rewrite (proj2 (last_index_of_None _ _) Hy). }
  assert (scan_one cf i M cur J y s = if offered M y then
    Scan [] false (if decide (sc_N s = -1)%Z then J else sc_N s)
      (if decide (cur = J) then true else sc_w s)
      (sc_items s ++ [Suggestion J (completion cf i y false) false]) else s) as ->.
  { unfold scan_one, admits, offered, not_padded. rewrite Hf, Hp, HE, HD. cbn [truthy truthy_str andb].
    destruct (truthy M) eqn:HM, (only_at_start M y) eqn:Ho; cbn [negb andb orb]; try done.
    all: destruct y as [|x y]; [rewrite bool_decide_true by done|by rewrite bool_decide_false].
    all: destruct s; cbn in *; by subst. }
  cbn [List.filter]. destruct (offered M y); rewrite IH by done; [|done].
  cbn. rewrite map_app, <- app_assoc. done.
Qed.

Lemma on_index_text g l :
  map text (on_index (fun s => s <| active := true |>) g l) = map text l.
Proof. induction l as [|s l IH]; cbn; [done|]. case_decide; cbn; [done|by rewrite IH]. Qed.

(** Where the postfixes hold no full addresses and none is prescribed, the list offers,
    in their order, exactly the postfixes that begin with what was typed behind the at sign
    and do not repeat it later on, each behind the typed name; it is hidden when there are
    none. *)
Theorem fill_offers cf ys c :
  emailPostfix cf = map Some ys -> autopad cf = [] -> Forall (fun y => at_sign ∉ y) ys ->
  user_text (value c) = true -> first_is 49 (value c) = false ->
  let i := name_of (value c) in
  let M := tail_of (value c) in
  let texts := map (fun y => completion cf i y false) (List.filter (offered M) ys) in
  let c' := fst (fillEmailSelect cf c) in
  listed c' = negb (bool_decide (texts = [])) /\ (texts <> [] -> map text (suggestions c') = texts).
Proof.
  intros He Hp Hys Hu H1. cbv zeta. unfold fillEmailSelect.
  rewrite bool_decide_false by (intros E; rewrite E in Hu; discriminate).
  rewrite Hu. cbn [orb negb fst]. change (curDSindex (c <| listed := true |>)) with (curDSindex c).
  unfold postfixes. rewrite H1, He.
  pose proof (scan_loop_offers cf (name_of (value c)) (tail_of (value c)) (curDSindex c) ys 0
    (Scan [] false (-1) false []) Hp Hys eq_refl eq_refl) as Hs. cbn [sc_items map app] in Hs.
  rewrite <- Hs. set (s := scan_loop _ _ _ _ _ _ _). clearbody s. clear.
  destruct (sc_items s) as [|x l] eqn:E; cbn -[setFocus]; [done|]. split; [by destruct (sc_w s)|].
  intros _. unfold setFocus. destruct (sc_w s); apply (on_index_text _ (x :: l)).
Qed.

Lemma fill_offers_witness :
  let c := card_new <| value := js "joe@so" |> in
  let texts := map (fun y => completion page_config (js "joe") y false) (List.filter (offered (js "so"))
    (map js ["uniqname"; "t.sohu.com"; "sohu.com"; "chinaren.com"; "sogou.com"; "vip.sohu.com"]%string)) in
  let c' := fst (fillEmailSelect page_config c) in
  listed c' = negb (bool_decide (texts = [])) /\ (texts <> [] -> map text (suggestions c') = texts).
Proof.
  refine (fill_offers page_config _ (card_new <| value := js "joe@so" |>) _ _ _ _ _);
    try reflexivity.
  apply (bool_decide_unpack _). vm_compute. exact I.
Defined.

(** A beginning that comes again later in the postfix is not found by lastIndexOf: for
    joe@c, chinaren.com is not offered, for joe@ch it is. *)
Example repeated_beginning_not_offered :
  let offers v := map text (suggestions (fst (fillEmailSelect page_config
    (card_new <| value := js v |>)))) in
  offers "joe@c"%string = [] /\ offers "joe@ch"%string = [js "joe@chinaren.com"].
Proof. split; vm_compute; reflexivity. Qed.

(** After a text the list does not take, the completions of the text before are hidden but
    still there: leaving the field puts one of them in its place. *)
Example hidden_completion_taken :
  let c := events id page_config [EmailFocus; Edit (js "joe"); KeyUp 69 false;
             Edit (js "joe smith"); KeyUp 72 false] card_new in
  listed c = false /\ value c = js "joe smith" /\
  value (handle id page_config EmailBlur c) = js "joe".
Proof. repeat split; vm_compute; reflexivity. Qed.

(** As long as nothing was ever offered, [fillEmailSelect] throws: the Enter that follows
    no longer goes on to the password. *)
Example nothing_offered_throws :
  let c := card_new <| value := js "joe@gmail.com" |> in
  snd (fillEmailSelect page_config c) = true /\
  pw_shown (handle id page_config (KeyUp 13 false) c) = false /\
  pw_shown (doSelect id c) = true.
Proof. repeat split; vm_compute; reflexivity. Qed.

(** Someone types joe@so, goes one down and presses Enter. *)
Example joe_completes :
  let c := events id page_config [EmailFocus; Edit (js "joe@so"); KeyUp 79 false;
             KeyUp 40 false; KeyUp 13 false] card_new in
  value c = js "joe@sogou.com" /\ listed c = false /\ pw_shown c = true.
Proof. repeat split; vm_compute; reflexivity. Qed.
