(* ===== verification/PassportLogin.v ===== *)
(** PassportLogin: a login with the account card: what the form checks, the request that is
    sent by a script element, the interval that waits for its answer, and the form or the
    page that follows ([doLogin], [loginFailCall], [drawLoginForm], [autoFillUserId] of
    js/tw.new.index.min.0.0.14.js; [loginHandle], [loginIntervalProc], [loginSuccessCall] of
    the library object in js/jquery.sohu.tw.min.0.0.6.js).

    The answer is a script that sets the global login_status.  The digest of the password
    ([hash], hex_md5) and whether an instant is after MIN_HTTS_TIMESTAMP are arguments; so
    are the cookies' answers.  Log requests are left out. *)

From S2P Require Import Prelude.
From S2P Require Import Uri.
From S2P Require Import Passport PassportFacts.
From coqutil Require Import Datatypes.RecordSettersUsingExistingGetters.

(** What the card shows: its form, the waiting page, or nothing, as the page was left. *)
Inductive page := FormPage | WaitPage | Left.

#[export] Instance page_eq_dec : EqDecision page.
Proof. solve_decision. Defined.

(** The messages of [reportMsg]. *)
Inductive message :=
  | NoName | BadDomain | NoPassword | WrongPassword | TimedOut | NoCookie | Failed
  | NotNow | BadBrowser.

(** A request of [loginHandle]. *)
Record request := Request {
  rq_https : bool; rq_userid : jstr; rq_password : jstr; rq_persistent : bool
}.

Record login := Login {
  fields : card;
  remember : bool;                 (* a.fucrem has the class done *)
  email : jstr;
  login_status : jstr;
  intervalCount : nat;
  eInterval : option nat;
  intervals : list nat;            (* the intervals that are running *)
  next_interval : nat;
  https : bool;                    (* loginProtocal == 'https' *)
  state : jstr;
  http_url : request;
  shows : page;
  msg : option message;
  requests : list request;
  posted : bool;                   (* doPost sent the form *)
  showEmailInputTip : bool;
  pass_timers : nat                (* setTimeout(changePass, 50) of drawLoginForm *)
}.

(** White space at the ends goes: [strip]. *)
Definition is_space (c : N) : bool :=
  bool_decide (c ∈ [9; 10; 11; 12; 13; 32; 160; 5760; 8232; 8233; 8239; 8287; 12288; 65279]%N)
  || bool_decide (8192 <= c <= 8202)%N.
Fixpoint drop_spaces (s : jstr) : jstr :=
  match s with c :: s' => if is_space c then drop_spaces s' else s | [] => [] end.
Definition strip (s : jstr) : jstr := reverse (drop_spaces (reverse (drop_spaces s))).

Section Card.
Variable hash : jstr -> jstr.          (* hex_md5 *)
Variable cf : config.
Variable usePost : bool.
Variable cookies : bool.               (* checkCookieEnabled() *)
Variable user_cookie : bool.           (* parsePassportCookie finds a userid *)
Variable recent : bool.                (* getTime() > MIN_HTTS_TIMESTAMP *)
Variable isSetFocus : bool.
Variable pptmpuserid : jstr.           (* that cookie *)

Definition maxIntervalCount : nat := 100.

Definition set_value (v : jstr) (l : login) : login :=
  l <| fields ::= fun c => c <| value := v |> |>.
Definition clear_password (l : login) : login :=
  l <| fields ::= fun c => c <| pw_value := [] |> |>.
Definition change_pass (l : login) : login := l <| fields ::= changePass |>.

Definition autoFillUserId (l : login) : login :=
  if showEmailInputTip l then l <| showEmailInputTip := false |>
  else set_value (if truthy (email l) then email l else pptmpuserid) l.

(** [drawLoginForm]: the link that remembers is drawn with its mark. *)
Definition drawLoginForm (l : login) : login :=
  let l := l <| fields ::= draw_fields |> <| remember := true |> <| shows := FormPage |> in
  let l := l <| fields ::= bindSelector |> in
  let l := autoFillUserId l in
  let v := value (fields l) in
  if truthy v && isSetFocus && negb (bool_decide (v = hint))
  then l <| pass_timers ::= S |> else l.

Definition reportMsg (m : message) (l : login) : login := l <| msg := Some m |>.

Definition loginFailCall (l : login) : login :=
  let l := drawLoginForm l in
  if decide (maxIntervalCount <= intervalCount l) then change_pass (reportMsg TimedOut l)
  else if bool_decide (login_status l = js "error3") || bool_decide (login_status l = js "error2")
  then change_pass (reportMsg WrongPassword l)
  else if bool_decide (login_status l = js "error5") then reportMsg NotNow l
  else if bool_decide (login_status l = js "error13") then l <| shows := Left |>
  else if negb cookies then reportMsg BadBrowser l
  else change_pass (reportMsg Failed l).

(** [loginRedirectUrl] is set, so a success leaves the page. *)
Definition loginSuccessCall (l : login) : login :=
  if user_cookie then l <| email := [] |> <| shows := Left |>
  else reportMsg NoCookie (drawLoginForm l).

Definition setInterval (l : login) : login :=
  l <| eInterval := Some (next_interval l) |>
    <| intervals ::= fun ids => ids ++ [next_interval l] |> <| next_interval ::= S |>.

Definition clearInterval (l : login) : login :=
  match eInterval l with
  | Some id => l <| intervals ::= List.filter (fun u => negb (Nat.eqb u id)) |>
  | None => l
  end.

(** [loginHandle]: a name that cannot be encoded goes as it is. *)
Definition loginHandle (name password : jstr) (persistent : bool) (l : login) : login :=
  if negb cookies then loginFailCall l
  else
    let l := l <| login_status := [] |> in
    let user := default name (encodeURIComponent name) in
    let l := l <| http_url := Request false user (hash password) persistent |> in
    let a := Request (https l && recent) user (hash password) persistent in
    let l := l <| state := js (if https l then "1100" else "2200") |> in
    setInterval (l <| requests ::= fun rs => rs ++ [a] |>).

(** What follows the last at sign, or everything. *)
Definition domain_of (h : jstr) : jstr :=
  match last_index_of at_sign h with Some p => drop (S p) h | None => h end.

Definition doLogin (l : login) : login :=
  if present (eInterval l) then l
  else
    let l := l <| login_status := [] |> <| intervalCount := 0 |> in
    let l := l <| email := strip (value (fields l)) |> in
    let h := email l in
    let g := strip (pw_value (fields l)) in
    let f := remember l in
    if bool_decide (h = []) then reportMsg NoName l
    else if not_padded cf (domain_of h) then clear_password (reportMsg BadDomain l)
    else if bool_decide (g = []) then change_pass (clear_password (reportMsg NoPassword l))
    else if usePost then l <| posted := true |>
    else loginHandle h g f (l <| shows := WaitPage |>).

(** [loginIntervalProc], each tenth of a second. *)
Definition loginIntervalProc (l : login) : login :=
  if bool_decide (login_status l = []) && bool_decide (intervalCount l < maxIntervalCount)
  then l <| intervalCount ::= S |>
  else
    let l := (clearInterval l) <| eInterval := None |> in
    let l :=
      if bool_decide (login_status l = []) && bool_decide (maxIntervalCount <= intervalCount l)
      then if bool_decide (state l = js "2200") then l <| state := js "2210" |>
           else if bool_decide (state l = js "1200") then l <| state := js "1210" |> else l
      else l in
    if negb (bool_decide (login_status l = js "success"))
       || bool_decide (maxIntervalCount <= intervalCount l)
    then
      if https l && bool_decide (login_status l = [])
      then
        let l := l <| intervalCount := 0 |> <| https := false |> <| state := js "1200" |> in
        setInterval (l <| requests ::= fun rs => rs ++ [http_url l] |>)
      else loginFailCall l
    else loginSuccessCall l.

(** * What can happen *)

Inductive happening :=
  | TypeName (v : jstr)
  | TypePassword (v : jstr)
  | Remember                      (* a click on the link that remembers *)
  | Login_pressed                 (* the button's timer, or Enter in the password *)
  | Elapsed                       (* a tenth of a second, for the interval that runs *)
  | Answered (st : jstr)          (* the script sets login_status *)
  | PassTimer.

Definition happens (l : login) (e : happening) : login :=
  match e with
  | TypeName v => if decide (shows l = FormPage) then set_value v l else l
  | TypePassword v =>
      if decide (shows l = FormPage) then l <| fields ::= fun c => c <| pw_value := v |> |> else l
  | Remember => if decide (shows l = FormPage) then l <| remember ::= negb |> else l
  | Login_pressed => if decide (shows l = Left) then l else doLogin l
  | Elapsed => match intervals l with [] => l | _ :: _ => loginIntervalProc l end
  | Answered st => l <| login_status := st |>
  | PassTimer =>
      match pass_timers l with
      | O => l
      | S n => change_pass (l <| pass_timers := n |>)
      end
  end.

Definition happen (es : list happening) (l : login) : login := foldl happens l es.

End Card.

(** The card as the page draws it first. *)
Definition login_new (focus : bool) (tmp : jstr) : login :=
  drawLoginForm focus tmp
    (Login card_new true [] [] 0 None [] 0 true (js "0000") (Request false [] [] false)
       FormPage None [] false true 0).

(** * The interval and the waiting page *)

Section Waiting.
Context (hash : jstr -> jstr) (cf : config) (usePost cookies user_cookie recent isSetFocus : bool)
  (pptmpuserid : jstr).

Local Abbreviation step := (happens hash cf usePost cookies user_cookie recent isSetFocus pptmpuserid).
Local Abbreviation run := (happen hash cf usePost cookies user_cookie recent isSetFocus pptmpuserid).
Local Abbreviation draw := (drawLoginForm isSetFocus pptmpuserid).

(** While the card waits one interval runs, otherwise none. *)
Record login_ok (l : login) : Prop := LoginOk {
  ok_wait : shows l = WaitPage -> exists id, eInterval l = Some id /\ intervals l = [id];
  ok_rest : shows l <> WaitPage -> eInterval l = None /\ intervals l = [];
  ok_count : intervalCount l <= maxIntervalCount
}.

(** What does not touch the interval. *)
Record same_wait (l l' : login) : Prop := SameWait {
  same_eInterval : eInterval l' = eInterval l;
  same_intervals : intervals l' = intervals l;
  same_count : intervalCount l' = intervalCount l
}.

Lemma draw_same l : same_wait l (draw l) /\ shows (draw l) = FormPage.
Proof.
  unfold drawLoginForm, autoFillUserId. cbn. destruct (showEmailInputTip l); cbn; case_match; done.
Qed.

Lemma fail_same l : same_wait l (loginFailCall cookies isSetFocus pptmpuserid l) /\
  shows (loginFailCall cookies isSetFocus pptmpuserid l) <> WaitPage.
Proof.
  unfold loginFailCall. destruct (draw_same l) as [[H1 H2 H3] H4]. set (d := draw l) in *. clearbody d.
  repeat case_match; cbn; (split; [split; cbn|rewrite ?H4]); done.
Qed.

Lemma success_same l : same_wait l (loginSuccessCall user_cookie isSetFocus pptmpuserid l) /\
  shows (loginSuccessCall user_cookie isSetFocus pptmpuserid l) <> WaitPage.
Proof.
  unfold loginSuccessCall. destruct (draw_same l) as [[H1 H2 H3] H4]. set (d := draw l) in *. clearbody d.
  destruct user_cookie; cbn; (split; [split; cbn|rewrite ?H4]); done.
Qed.

Lemma wait_over_ok l l' : same_wait l l' -> shows l' <> WaitPage ->
  eInterval l = None -> intervals l = [] -> intervalCount l <= maxIntervalCount -> login_ok l'.
Proof.
  intros [H1 H2 H3] Hs He Hi Hc. split; rewrite ?H1, ?H2, ?H3; try done.
Qed.

Lemma setInterval_ok l : shows l = WaitPage -> intervals l = [] -> intervalCount l <= maxIntervalCount ->
  login_ok (setInterval l).
Proof.
  intros Hs Hi Hc. split; cbn; try done. intros _. rewrite Hi. by eexists.
Qed.

Lemma frame_ok l l' : same_wait l l' -> shows l' = shows l -> login_ok l -> login_ok l'.
Proof. intros [H1 H2 H3] Hs []. split; rewrite ?H1, ?H2, ?H3, ?Hs; done. Qed.

Lemma doLogin_ok l : login_ok l -> login_ok (doLogin hash cf usePost cookies recent isSetFocus pptmpuserid l).
Proof.
  intros Hl. pose proof Hl as [H1 H2 H3]. unfold doLogin. destruct (eInterval l) as [id|] eqn:E; [done|].
  assert (shows l <> WaitPage) as Hs by (intros Hw; destruct (H1 Hw) as (? & ? & _); congruence).
  destruct (H2 Hs) as [_ Hi]. cbn [present].
  set (d := (l <| login_status := [] |> <| intervalCount := 0 |>) <| email := _ |>).
  assert (login_ok d) as Hd by (split; cbn; [done|by rewrite E|apply Nat.le_0_l]).
  assert (eInterval d = None /\ intervals d = [] /\ intervalCount d = 0) as (Ed & Id & Cd) by done.
  clearbody d. case_bool_decide; [by apply (frame_ok d)|].
  case_match; [by apply (frame_ok d)|]. case_bool_decide; [by apply (frame_ok d)|].
  destruct usePost; [by apply (frame_ok d)|]. unfold loginHandle. destruct (negb cookies).
  - destruct (fail_same (d <| shows := WaitPage |>)) as [Hf Hf'].
    apply (wait_over_ok _ _ Hf Hf'); [exact Ed|exact Id|].
    apply (Nat.le_trans _ 0); [by apply Nat.eq_le_incl|apply Nat.le_0_l].
  - apply setInterval_ok; [reflexivity|exact Id|].
    apply (Nat.le_trans _ 0); [by apply Nat.eq_le_incl|apply Nat.le_0_l].
Qed.

Lemma clear_ok l id : eInterval l = Some id -> intervals l = [id] ->
  intervals (clearInterval l) = [].
Proof. intros He Hi. unfold clearInterval. rewrite He. cbn. rewrite Hi. cbn. by rewrite Nat.eqb_refl. Qed.

(** Where the interval's function goes on after clearing its interval. *)
Local Abbreviation proc := (loginIntervalProc cookies user_cookie isSetFocus pptmpuserid).

(** How often the interval can still elapse before the card stops waiting. *)
Definition patience (l : login) : nat :=
  (if https l then S maxIntervalCount else 0) + (S maxIntervalCount - intervalCount l).

Lemma proc_cleared l l' : eInterval l' = None -> intervals l' = [] -> shows l' = WaitPage ->
  intervalCount l' <= maxIntervalCount -> https l' = https l -> intervalCount l' = intervalCount l ->
  let r :=
    if negb (bool_decide (login_status l' = js "success")) || bool_decide (maxIntervalCount <= intervalCount l')
    then if https l' && bool_decide (login_status l' = [])
         then setInterval (l' <| intervalCount := 0 |> <| https := false |> <| state := js "1200" |>
                              <| requests ::= fun rs => rs ++ [http_url l'] |>)
         else loginFailCall cookies isSetFocus pptmpuserid l'
    else loginSuccessCall user_cookie isSetFocus pptmpuserid l' in
  login_ok r /\ (shows r <> WaitPage \/ patience r < patience l).
Proof.
  intros He Hi Hs Hc Hh Hn. cbv zeta. destruct (_ || _).
  - destruct (https l') eqn:E; cbn [andb]; [case_bool_decide|].
    + split; [apply setInterval_ok; [done|done|apply Nat.le_0_l]|].
      right. apply (Nat.le_lt_trans _ (S maxIntervalCount)); [reflexivity|].
      unfold patience. assert (https l = true) as -> by congruence. rewrite <- Hn. unfold maxIntervalCount in *. lia.
    + destruct (fail_same l') as [Hf Hf']. split; [by apply (wait_over_ok _ _ Hf Hf')|by left].
    + destruct (fail_same l') as [Hf Hf']. split; [by apply (wait_over_ok _ _ Hf Hf')|by left].
  - destruct (success_same l') as [Hf Hf']. split; [by apply (wait_over_ok _ _ Hf Hf')|by left].
Qed.

Lemma proc_ok l : login_ok l -> shows l = WaitPage ->
  login_ok (proc l) /\ (shows (proc l) <> WaitPage \/ patience (proc l) < patience l).
Proof.
  intros Hl Hs. pose proof Hl as [H1 _ H3]. destruct (H1 Hs) as (id & He & Hi).
  unfold loginIntervalProc. destruct (bool_decide _ && bool_decide _) eqn:E.
  - apply andb_true_iff in E as [_ E%bool_decide_eq_true]. split.
    + split; cbn; [done|done|lia].
    + right. unfold patience. cbn -[Nat.sub]. change (const _ _) with (S (intervalCount l)) || idtac. lia.
  - set (d := (clearInterval l) <| eInterval := None |>).
    assert (intervals d = []) as Hd by (by apply (clear_ok l id)).
    assert (eInterval d = None /\ shows d = WaitPage /\ intervalCount d = intervalCount l /\ https d = https l)
      as (E1 & E2 & E3 & E4) by (unfold d, clearInterval; rewrite He; done).
    clearbody d. set (d' := if bool_decide _ && bool_decide _ then _ else d).
    assert (eInterval d' = None /\ shows d' = WaitPage /\ intervalCount d' = intervalCount l /\
      https d' = https l /\ intervals d' = []) as (F1 & F2 & F3 & F4 & F5).
    { unfold d'. repeat case_match; cbn; split_and!; done. }
    clearbody d'.
    exact (proc_cleared l d' F1 F5 F2 (eq_ind_r (fun n => n <= _) H3 F3) F4 F3).
Qed.

Lemma happens_ok e l : login_ok l -> login_ok (step l e).
Proof.
  intros Hl. destruct e; cbn [happens]; try (case_decide; [|done]); try by apply (frame_ok l).
  - case_decide; [done|by apply doLogin_ok].
  - destruct (intervals l) as [|id ids] eqn:E; [done|]. apply proc_ok; [done|].
    destruct (decide (shows l = WaitPage)) as [|Hn]; [done|]. destruct Hl as [_ H2 _].
    destruct (H2 Hn). congruence.
  - destruct (pass_timers l); [done|]. by apply (frame_ok l).
Qed.

(** While the card waits, only the interval changes what is left. *)
Definition elapsed (e : happening) : nat := match e with Elapsed => 1 | _ => 0 end.

Lemma step_patience e l : login_ok l -> shows l = WaitPage -> shows (step l e) = WaitPage ->
  patience (step l e) + elapsed e <= patience l.
Proof.
  intros Hl Hs Hs'. pose proof Hl as [H1 _ _]. destruct (H1 Hs) as (id & He & Hi).
  destruct e; cbn [happens elapsed] in *; rewrite ?Nat.add_0_r.
  - by rewrite decide_False by congruence.
  - by rewrite decide_False by congruence.
  - by rewrite decide_False by congruence.
  - rewrite decide_False by congruence. unfold doLogin. by rewrite He.
  - rewrite Hi in *. destruct (proc_ok l Hl Hs) as [_ [Hp|Hp]]; [done|lia].
  - done.
  - by destruct (pass_timers l).
Qed.

Lemma waiting_ends_from es : forall l, login_ok l ->
  patience l <= sum_list (map elapsed es) -> exists n, shows (run (take n es) l) <> WaitPage.
Proof.
  induction es as [|e es IH]; intros l Hl Hp.
  { exfalso. pose proof (ok_count l Hl). unfold patience in Hp. cbn [map sum_list] in Hp. lia. }
  destruct (decide (shows l = WaitPage)) as [Hs|Hs]; [|by exists 0].
  destruct (decide (shows (step l e) = WaitPage)) as [Hs'|Hs']; [|by exists 1].
  pose proof (step_patience e l Hl Hs Hs'). cbn in Hp.
  destruct (IH (step l e)) as [n Hn]; [by apply happens_ok|lia|]. by exists (S n).
Qed.

Lemma happen_ok es l : login_ok l -> login_ok (run es l).
Proof. revert l. induction es as [|e es IH]; intros l Hl; [done|]. by apply IH, happens_ok. Qed.

End Waiting.

Lemma new_ok focus tmp : login_ok (login_new focus tmp).
Proof.
  unfold login_new. set (l := Login _ _ _ _ _ _ _ _ _ _ _ _ _ _ _ _ _).
  destruct (draw_same focus tmp l) as [Hf Hs]. apply (wait_over_ok _ _ Hf); [by rewrite Hs|done..|].
  apply Nat.le_0_l.
Qed.

(** C37. Nobody is left on the waiting page: whatever happened before on the card, when its
    interval elapses 202 times among whatever else happens, with or without an answer, at
    some point the card shows its form again or the page was left. *)
Theorem login_waiting_ends hash cf usePost cookies user_cookie recent focus tmp before es :
  let run := happen hash cf usePost cookies user_cookie recent focus tmp in
  202 <= sum_list (map elapsed es) ->
  exists n, shows (run (take n es) (run before (login_new focus tmp))) <> WaitPage.
Proof.
  intros run H. apply waiting_ends_from; [apply happen_ok, new_ok|].
  fold run. set (l := run before _). unfold patience, maxIntervalCount.
  destruct (https l); lia.
Qed.

(** A server that never answers: the form is back with the message of the time-out, after
    two requests, the second one not encrypted. *)
Lemma login_waiting_ends_witness :
  let run := happen id page_config false true true true true [] in
  let es := replicate 202 Elapsed in
  let l := run [TypeName (js "joe@sohu.com"); TypePassword (js "secret"); Login_pressed] (login_new true []) in
  shows l = WaitPage /\ map rq_https (requests (run es l)) = [true; false] /\
  msg (run es l) = Some TimedOut /\
  exists n, shows (run (take n es) l) <> WaitPage.
Proof.
  split_and!; [vm_compute; reflexivity..|].
  apply (login_waiting_ends id page_config false true true true true []
    [TypeName (js "joe@sohu.com"); TypePassword (js "secret"); Login_pressed] (replicate 202 Elapsed)).
  apply (bool_decide_unpack _). vm_compute. exact I.
Defined.

(** * What is sent *)

Section Sent.
Context (hash : jstr -> jstr) (cf : config) (usePost cookies user_cookie recent isSetFocus : bool)
  (pptmpuserid : jstr).

Local Abbreviation step := (happens hash cf usePost cookies user_cookie recent isSetFocus pptmpuserid).
Local Abbreviation run := (happen hash cf usePost cookies user_cookie recent isSetFocus pptmpuserid).

(** [t] is [s] without the white space at its ends. *)
Definition trimmed (s t : jstr) : Prop :=
  (exists a b, s = a ++ t ++ b /\ Forall (fun c => is_space c = true) (a ++ b))
  /\ (forall c, head t = Some c -> is_space c = false)
  /\ (forall c, last t = Some c -> is_space c = false).

(** What follows the last at sign of a name - all of it, when there is none - is a part of
    the prescribed domain, if one is prescribed. *)
Definition domain_allowed (name : jstr) : Prop :=
  autopad cf = []
  \/ exists d, ((exists x, name = x ++ at_sign :: d) \/ name = d) /\ (at_sign ∉ d)
       /\ exists a b, autopad cf = a ++ d ++ b.

(** A request made from what the fields hold. *)
Definition made_from (l : login) (r : request) : Prop :=
  exists name password,
    trimmed (value (fields l)) name /\ trimmed (pw_value (fields l)) password
    /\ name <> [] /\ password <> [] /\ domain_allowed name
    /\ rq_userid r = default name (encodeURIComponent name)
    /\ rq_password r = hash password /\ rq_persistent r = remember l.

Lemma drop_spaces_split s :
  exists a, s = a ++ drop_spaces s /\ Forall (fun c => is_space c = true) a
    /\ forall c, head (drop_spaces s) = Some c -> is_space c = false.
Proof.
  induction s as [|c s (a & E & Ha & Hh)]; [by exists []|]. cbn [drop_spaces].
  destruct (is_space c) eqn:Ec; [|exists []; split_and!; try done; by intros d [= <-]].
  exists (c :: a). split_and!; [by rewrite E at 1|by constructor|done].
Qed.

Lemma strip_trimmed s : trimmed s (strip s).
Proof.
  unfold strip. destruct (drop_spaces_split s) as (a & E1 & Ha & Hu). set (u := drop_spaces s) in *.
  clearbody u. destruct (drop_spaces_split (reverse u)) as (b & E2 & Hb & Hv).
  set (v := drop_spaces (reverse u)) in *. clearbody v.
  assert (u = reverse v ++ reverse b) as E3 by by rewrite <- reverse_app, <- E2, reverse_involutive.
  split; [|split].
  - exists a, (reverse b). rewrite <- E3. split; [done|]. apply Forall_app_2; [done|].
    by apply Forall_reverse.
  - intros c Hc. apply Hu. rewrite E3. by destruct (reverse v).
  - intros c Hc. apply Hv. by rewrite last_reverse in Hc.
Qed.

Lemma last_index_of_split c s n : last_index_of c s = Some n -> s = take n s ++ c :: drop (S n) s.
Proof.
  revert n. induction s as [|x s IH]; intros n; cbn; [done|].
  destruct (last_index_of c s) as [m|]; [intros [= <-]; cbn; f_equal; by apply IH|].
  case_decide as E; [|done]. intros [= <-]. by rewrite E.
Qed.

Lemma domain_of_allowed name : not_padded cf (domain_of name) = false -> domain_allowed name.
Proof.
  unfold not_padded, domain_allowed, domain_of. intros H.
  destruct (autopad cf) as [|x l] eqn:Ep; [by left|right]. cbn [truthy truthy_str andb] in H.
  assert (forall d, present (last_pos d (x :: l)) = true -> exists a b, x :: l = a ++ d ++ b) as Hd.
  { intros d Hp. destruct (last_pos d (x :: l)) as [n|] eqn:E; [|done].
    apply last_pos_Some in E as (a & b & E & _). by exists a, b. }
  apply negb_false_iff in H. destruct (last_index_of at_sign name) as [p|] eqn:E.
  - exists (drop (S p) name). split; [|split; [|by apply Hd]].
    + left. exists (take p name). by apply last_index_of_split.
    + by apply last_index_of_after.
  - exists name. split; [by right|]. split; [by apply last_index_of_None|by apply Hd].
Qed.

(** All the requests, and the one that may follow, are like this. *)
Record sends (P : request -> Prop) (l : login) : Prop := Sends {
  sent_all : Forall P (requests l);
  next_one : intervals l <> [] -> P (http_url l)
}.

Lemma sends_frame P l l' : requests l' = requests l -> http_url l' = http_url l ->
  intervals l' = intervals l -> sends P l -> sends P l'.
Proof. intros H1 H2 H3 []. split; rewrite ?H1, ?H2, ?H3; done. Qed.

Lemma draw_sends P l : sends P l -> sends P (drawLoginForm isSetFocus pptmpuserid l).
Proof.
  apply sends_frame; unfold drawLoginForm, autoFillUserId; cbn;
    destruct (showEmailInputTip l); cbn; case_match; done.
Qed.

Lemma fail_sends P l : sends P l -> sends P (loginFailCall cookies isSetFocus pptmpuserid l).
Proof.
  intros H%draw_sends. unfold loginFailCall. set (d := drawLoginForm _ _ l) in *. clearbody d.
  repeat case_match; by apply (sends_frame P d).
Qed.

Lemma success_sends P l : sends P l -> sends P (loginSuccessCall user_cookie isSetFocus pptmpuserid l).
Proof.
  intros H. unfold loginSuccessCall. destruct user_cookie; [by apply (sends_frame P l)|].
  apply draw_sends in H. by apply (sends_frame P (drawLoginForm isSetFocus pptmpuserid l)).
Qed.

Lemma handle_sends (P : request -> Prop) name password persistent l :
  (forall b, P (Request b (default name (encodeURIComponent name)) (hash password) persistent)) ->
  sends P l ->
  sends P (loginHandle hash cookies recent isSetFocus pptmpuserid name password persistent l).
Proof.
  intros Hc Hl. unfold loginHandle. destruct (negb cookies); [by apply fail_sends|].
  destruct Hl as [H1 _]. split; [|intros _; apply Hc].
  apply Forall_app_2; [exact H1|]. constructor; [apply Hc|constructor].
Qed.

Lemma doLogin_sends (P : request -> Prop) l :
  (forall r, made_from l r -> P r) -> sends P l ->
  sends P (doLogin hash cf usePost cookies recent isSetFocus pptmpuserid l).
Proof.
  intros HP Hl. unfold doLogin. destruct (present _); [done|].
  set (d := (l <| login_status := [] |> <| intervalCount := 0 |>) <| email := _ |>).
  assert (sends P d) as Hd by (by apply (sends_frame P l)).
  assert (email d = strip (value (fields l)) /\ pw_value (fields d) = pw_value (fields l)
    /\ remember d = remember l) as (E1 & E2 & E3) by done.
  clearbody d. case_bool_decide as Hn; [by apply (sends_frame P d)|].
  destruct (not_padded cf (domain_of (email d))) eqn:E; [by apply (sends_frame P d)|].
  case_bool_decide as Hp; [by apply (sends_frame P d)|].
  destruct usePost; [by apply (sends_frame P d)|]. apply handle_sends; [|by apply (sends_frame P d)].
  intros b. apply HP. exists (email d), (strip (pw_value (fields d))).
  split_and!; try done; try by (rewrite ?E1, ?E2; apply strip_trimmed).
  by apply domain_of_allowed.
Qed.

Lemma proc_sends P l : sends P l -> intervals l <> [] ->
  sends P (loginIntervalProc cookies user_cookie isSetFocus pptmpuserid l).
Proof.
  intros Hl Hi. unfold loginIntervalProc. destruct (_ && _); [by apply (sends_frame P l)|].
  set (d := (clearInterval l) <| eInterval := None |>).
  assert (requests d = requests l /\ http_url d = http_url l) as [E1 E2]
    by (unfold d, clearInterval; by destruct (eInterval l)).
  assert (Forall P (requests d) /\ P (http_url d)) as Hd.
  { destruct Hl as [H1 H2]. rewrite E1, E2. split; [done|by apply H2]. }
  clearbody d. set (d' := if bool_decide _ && bool_decide _ then _ else d).
  assert (requests d' = requests d /\ http_url d' = http_url d) as [F1 F2]
    by (unfold d'; repeat case_match; done).
  clearbody d'. rewrite <- F1, <- F2 in Hd. destruct Hd as [Hd1 Hd2].
  assert (sends P d') as Hd' by (by split).
  destruct (_ || _); [|by apply success_sends].
  destruct (_ && _); [|by apply fail_sends].
  split; [|by intros _]. apply Forall_app_2; [exact Hd1|]. by repeat constructor.
Qed.

Lemma step_sends (P : request -> Prop) e l :
  (e = Login_pressed -> forall r, made_from l r -> P r) -> sends P l -> sends P (step l e).
Proof.
  intros HP Hl. destruct e; cbn [happens]; try (case_decide; [|done]); try by apply (sends_frame P l).
  - case_decide; [done|by apply doLogin_sends; [apply HP|]].
  - destruct (intervals l) as [|id ids] eqn:E; [done|]. apply proc_sends; [done|]. by rewrite E.
  - destruct (pass_timers l); [done|]. by apply (sends_frame P l).
Qed.

(** The moment a request was made: the button was pressed while the fields held it. *)
Definition pressed_before (l0 : login) (es : list happening) (r : request) : Prop :=
  exists es1 es2, es = es1 ++ Login_pressed :: es2 /\ made_from (run es1 l0) r.

Lemma run_sends es l : sends (fun _ => False) l -> sends (pressed_before l es) (run es l).
Proof.
  intros Hl. assert (forall P Q : request -> Prop, (forall r, P r -> Q r) ->
    forall d, sends P d -> sends Q d) as Hmono.
  { intros P Q HPQ d [H1 H2]. split; [|auto]. eapply Forall_impl; [exact H1|exact HPQ]. }
  induction es as [|e es IH] using rev_ind; [by eapply Hmono, Hl|].
  unfold happen. rewrite foldl_app. apply (step_sends _ e).
  - intros -> r Hr. by exists es, [].
  - eapply Hmono, IH. intros r (es1 & es2 & -> & Hr). exists es1, (es2 ++ [e]).
    split; [by rewrite <- app_assoc|done].
Qed.
End Sent.

(** C38. Every request the card ever sends, the second one after a time-out included, comes
    from a press of the button, and says what the form held then: the name that was in the
    field, without white space around it, encoded where it can be; the digest of the
    password, without white space around it; and whether to remember.  Neither was empty;
    and where a domain is prescribed, what followed the name's last at sign was a part of
    it - perhaps an empty one, [empty_domain_sent]. *)
Theorem requests_are_checked hash cf usePost cookies user_cookie recent focus tmp es r :
  let run es := happen hash cf usePost cookies user_cookie recent focus tmp es (login_new focus tmp) in
  r ∈ requests (run es) ->
  exists es1 es2, es = es1 ++ Login_pressed :: es2 /\ made_from hash cf (run es1) r.
Proof.
  intros run Hr.
  assert (sends (pressed_before hash cf usePost cookies user_cookie recent focus tmp
                   (login_new focus tmp) es) (run es)) as [H _].
  { apply run_sends, draw_sends. by split; [constructor|]. }
  rewrite Forall_forall in H. by apply H.
Qed.

Definition joe : list happening :=
  [TypeName (js " joe@sohu.com "); TypePassword (js "secret"); Login_pressed].

(** The request repeated after a time-out is the one of the form, which is gone by then. *)
Lemma requests_are_checked_witness :
  let run es := happen (fun s => js "digest of " ++ s) page_config false true true true true [] es
                  (login_new true []) in
  let r := Request false (js "joe%40sohu.com") (js "digest of secret") true in
  last (requests (run (joe ++ replicate 101 Elapsed))) = Some r
  /\ exists es1 es2, joe ++ replicate 101 Elapsed = es1 ++ Login_pressed :: es2
       /\ made_from (fun s => js "digest of " ++ s) page_config (run es1) r.
Proof.
  intros run r. split; [vm_compute; reflexivity|].
  apply (requests_are_checked (fun s => js "digest of " ++ s) page_config false true true true true []).
  apply last_Some_elem_of. vm_compute. reflexivity.
Defined.

(** A name that ends in an at sign has an empty domain, which is a part of any. *)
Example empty_domain_sent :
  map rq_userid (requests (happen id (Config [] (js "sohu.com") true 7) false true true true true []
    [TypeName (js "joe@"); TypePassword (js "secret"); Login_pressed] (login_new true [])))
  = [js "joe%40"].
Proof. vm_compute. reflexivity. Qed.

(** The hint in the untouched field is a name like any other for [doLogin]: with a password
    it is sent. *)
Example hint_is_sent :
  map rq_userid (requests (happen id page_config false true true true true []
    [TypePassword (js "secret"); Login_pressed] (login_new true [])))
  = option_list (encodeURIComponent hint).
Proof. vm_compute. reflexivity. Qed.

(** An answer of success that comes when the count has reached its end is taken for a
    time-out: the user is logged in and sees the form with that message. *)
Example late_success_times_out :
  let l := happen id page_config false true true true true []
    ([TypeName (js "joe@sohu.com"); TypePassword (js "secret"); Login_pressed] ++
     replicate 100 Elapsed ++ [Answered (js "success"); Elapsed]) (login_new true []) in
  shows l = FormPage /\ msg l = Some TimedOut.
Proof. split; vm_compute; reflexivity. Qed.

(** After one time-out the protocol stays http: every later login is sent unencrypted. *)
Example later_logins_unencrypted :
  map rq_https (requests (happen id page_config false true true true true []
    ([TypeName (js "joe@sohu.com"); TypePassword (js "secret"); Login_pressed] ++
     replicate 202 Elapsed ++ [TypePassword (js "secret"); Login_pressed]) (login_new true [])))
  = [true; false; false].
Proof. vm_compute. reflexivity. Qed.
