(* ===== verification/Microblog.v ===== *)
(** Microblog: the page's settings (CRTWCONFIG), the counter image (CA) and the address of
    the MSN login in js/tw.new.index.min.0.0.14.js. *)

From S2P Require Import Prelude.
From S2P Require Import Uri.

Local Open Scope string_scope.
Local Open Scope list_scope.

(** * CRTWCONFIG *)

(** The values of settings; functions and objects by a name. *)
Inductive setting :=
  | Str (s : jstr) | Num (n : Z) | Bool (b : bool) | Fun (name : string) | Obj (name : string)
  | Undefined.

#[export] Instance setting_eq_dec : EqDecision setting.
Proof. solve_decision. Defined.

(** The object a: [href] is location.href. *)
Definition defaults (href : jstr) : list (string * setting) :=
  [("VERSION", Str (js "0.1.")); ("BACK_URL", Str href); ("NUM", Num 140); ("G_NUM", Num 10);
   ("MG_NUM", Num 10); ("CUT", Num 200); ("CA", Bool true); ("CA_SRC", Str (js "other"));
   ("CA_SN", Str []); ("UPURL", Str (js "http://up.t.sohu.com/twitter/upload.php"));
   ("C_AUTO", Bool true); ("C_CACHE", Bool false); ("C_TIP", Bool false); ("C_ADD", Bool true);
   ("C_SYS_TIP", Str []); ("C_ADD_SUCCESS", Fun "nothing"); ("TW_DEL_SUCCESS", Fun "nothing");
   ("ST_URL", Str (js "http://s6.cr.itc.cn/user"));
   ("TOPIC_SEARCH_URL", Str (js "/search/topic_inc.jsp"));
   ("UPLOAD_SWF", Str (js "http://t.sohu.com/t/swfupload.swf"));
   ("C_SWF", Str (js "http://s1.cr.itc.cn/img/s/i.gif"));
   ("I_SWF", Str (js "http://s2.cr.itc.cn/img/t/iptfile4.png"));
   ("AT_ADD", Bool false); ("SUB_PG", Bool false); ("SUB_PG_NUM", Num 5); ("PR_EMOTE", Str []);
   ("MAP", Str (js "http://s2.cr.itc.cn/twitter/map/1.4/"));
   ("MAP_ENGINE", Str (js "http://lspengine.go2map.com/EngineV5/Engine"));
   ("MAP_ICON", Str (js "/t/"));
   ("IPLOC", Str (js "http://s1.cr.itc.cn/twitter/iploc/cr.iploc.min.js"));
   ("FED", Bool false); ("FT", Num 5000); ("UPDATE_MODE", Str (js "direct"));
   ("SAD", Str (js "/t/twAction.jsp")); ("ADP", Obj "ADP"); ("RP_P", Obj "RP_P");
   ("STATIC_GROUPBY", Bool true); ("USE_MEMO", Bool false); ("LAZYLOAD_ONCE", Bool false);
   ("ADD_REPLY_FUNC", Str [])].

(** [b.extend(a, window.CRTWCONFIG || {})] passes over what is undefined. *)
Definition extend (a : gmap string setting) (o : gmap string setting) : gmap string setting :=
  filter (fun kv => kv.2 <> Undefined) o ∪ a.

(** [window.location.href.indexOf('chinaren.com') > 0]. *)
Definition on_chinaren (href : jstr) : bool :=
  contains (js "chinaren.com") (drop 1 href) && negb (starts_with (js "chinaren.com") href).

Definition CRTWCONFIG (href : jstr) (o : gmap string setting) : gmap string setting :=
  let c := extend (list_to_map (defaults href)) o in
  if on_chinaren href
  then <["UPURL" := Str (js "http://upload.chinaren.com/twitter/upload.php")]> c else c.

Definition HOST (host : jstr) : jstr := js "http://" ++ host.

(** * CA *)

(** [q(e)]: the new source of the image, if it is there; [None]: encodeURIComponent threw. *)
Definition q (img : bool) (time : N) (referrer e : jstr) : option (option jstr) :=
  if negb img then Some None
  else
    r ← (if truthy referrer then (fun u => [js "r=" ++ u]) <$> encodeURIComponent referrer else Some []);
    let b := (js "t=" ++ js_of_N time) :: r ++ (if truthy e then [js "from=" ++ e] else []) in
    Some (Some (js "http://z.t.sohu.com/cc.gif?" ++ join [38%N] b)).

(** * MSNLogin *)

Definition MSNLogin (host : jstr) : jstr :=
  js "https://consent.live.com/Connect.aspx" ++ js "?" ++
  (js "wrap_callback=http://" ++ host ++
   js "/msn/callBack&wrap_client_id=000000004004F407&wrap_scope=WL_Activities.Update,WL_Contacts.View,WL_Profiles.View,Messenger.SignIn,IMControl.IMAllowAll,WL_Activities.View,WL_Photos.View&mkt=zh-cn&wrap_client_state=1").

(** * What the page can set *)

(** What the page sets stands, but for the upload address on chinaren.com; what it leaves
    out, or leaves undefined, is the default. *)
Lemma settings_stand href o k v :
  (on_chinaren href = true -> k <> "UPURL") ->
  o !! k = Some v -> v <> Undefined -> CRTWCONFIG href o !! k = Some v.
Proof.
  intros Hk Ho Hv. unfold CRTWCONFIG, extend.
  assert ((filter (fun kv : string * setting => kv.2 <> Undefined) o ∪ list_to_map (defaults href)) !! k = Some v) as H.
  { apply lookup_union_Some_l. by apply map_lookup_filter_Some_2. }
  destruct (on_chinaren href); [|done]. rewrite lookup_insert_ne; [done|]. intros <-. by apply Hk.
Qed.

Lemma settings_default href o k :
  (on_chinaren href = true -> k <> "UPURL") ->
  default Undefined (o !! k) = Undefined ->
  CRTWCONFIG href o !! k = (list_to_map (defaults href) : gmap string setting) !! k.
Proof.
  intros Hk Ho. unfold CRTWCONFIG, extend.
  assert ((filter (fun kv : string * setting => kv.2 <> Undefined) o ∪ list_to_map (defaults href)) !! k
    = (list_to_map (defaults href) : gmap string setting) !! k) as H.
  { apply lookup_union_r. apply map_lookup_filter_None_2. destruct (o !! k) as [v|] eqn:E; [|by left].
    right. intros w Hw Hn. cbn in *. congruence. }
  destruct (on_chinaren href); [|done]. rewrite lookup_insert_ne; [done|]. intros <-. by apply Hk.
Qed.

(** A counted page's address is encoded; where it came from is not. *)
Example counted :
  q true 7 (js "http://a/?b&c") (js "x&y")
  = Some (Some (js "http://z.t.sohu.com/cc.gif?t=7&r=http%3A%2F%2Fa%2F%3Fb%26c&from=x&y")).
Proof. vm_compute. reflexivity. Qed.
