(* ===== verification/QunitPage.v ===== *)
(** QunitPage: what QUnit shows (fuelux/lib/qunit/qunit.js): the toolbar [QUnit.load]
    builds, with the box that hides passed tests, the boxes of the address's parameters
    and the choice of a module; the list of results; and the end of the tests.

    The page has QUnit's elements.  sessionStorage is there or not ([storage]); what
    hiding does is in the style sheet (qunit.css): with the class hidepass on the list
    only failed tests are displayed. *)

From S2P Require Import Prelude Uri QunitText QunitTextFacts.
From coqutil Require Import Datatypes.RecordSettersUsingExistingGetters.

(** * The toolbar *)

Definition get (k : jstr) (ps : params) : option param := snd <$> find (fun p => bool_decide (p.1 = k)) ps.

(** An entry of [config.urlConfig]: a name, or an object. *)
Record url_config := UrlConfig { uc_id : jstr; uc_label : jstr; uc_tooltip : jstr }.
Inductive url_entry := Named (s : jstr) | Full (c : url_config).

Definition as_config (e : url_entry) : url_config :=
  match e with Named s => UrlConfig s s (js "[no tooltip available]") | Full c => c end.

Definition default_urlConfig : list url_entry :=
  [Full (UrlConfig (js "noglobals") (js "Check for Globals")
     (js "Enabling this will test if any test introduces new properties on the `window` object. Stored as query-strings."));
   Full (UrlConfig (js "notrycatch") (js "No try-catch")
     (js "Enabling this will run tests outside of a try-catch block. Makes debugging exceptions in IE reasonable. Stored as query-strings."))].

Definition param_true (p : option param) : bool :=
  match p with Some PTrue => true | Some (PText s) => truthy s | None => false end.

(** [config[val.id] = QUnit.urlParams[val.id]] and the box that shows it. *)
Definition checkbox_html (ps : params) (e : url_entry) : jstr :=
  let c := as_config e in
  js "<input id='qunit-urlconfig-" ++ uc_id c ++ js "' name='" ++ uc_id c ++ js "' type='checkbox'"
  ++ (if param_true (get (uc_id c) ps) then js " checked='checked'" else [])
  ++ js " title='" ++ uc_tooltip c ++ js "'><label for='qunit-urlconfig-" ++ uc_id c
  ++ js "' title='" ++ uc_tooltip c ++ js "'>" ++ uc_label c ++ js "</label>".

Definition urlConfigHtml (ps : params) (l : list url_entry) : jstr := concat (map (checkbox_html ps) l).

(** The handler of the boxes: the new address. *)
Definition checkbox_changed (ps : params) (name : jstr) (checked : bool) : option jstr :=
  url ps [(name, if checked then Some PTrue else None)].

Definition module_key : jstr := js "module".

(** An option of the choice of modules; [None]: encodeURIComponent threw. *)
Definition module_option (current : option jstr) (i : jstr) : option jstr :=
  v ← encodeURIComponent i;
  Some (js "<option value='" ++ v ++ js "' " ++ (if bool_decide (current = Some i) then js "selected" else [])
        ++ js ">" ++ i ++ js "</option>").

Definition moduleFilterHtml (current : option jstr) (modules : list jstr) : option jstr :=
  os ← mapM (module_option current) modules;
  Some (js "<label for='qunit-modulefilter'>Module: </label><select id='qunit-modulefilter' name='modulefilter'><option value='' "
        ++ (if bool_decide (current = None) then js "selected" else []) ++ js ">< All Modules ></option>"
        ++ concat os ++ js "</select>").

(** What the browser reads of an attribute between apostrophes. *)
Fixpoint attribute (s : jstr) : jstr :=
  match s with [] => [] | c :: s => if decide (c = 39%N) then [] else c :: attribute s end.

(** The handler of the choice, for the option of the module [i]: the new address. *)
Definition module_chosen (ps : params) (i : jstr) : option jstr :=
  v ← encodeURIComponent i;
  selectedModule ← decodeURIComponent (attribute v);
  url ps [(module_key, if truthy selectedModule then Some (PText selectedModule) else None)].

(** The link around the title: all tests, with the other parameters kept. *)
Definition header_href (ps : params) : option jstr :=
  url ps [(js "filter", None); (module_key, None); (js "testNumber", None)].

(** * The page *)

(** A test in the list: a strong element with its name (and counts: failed, passed, all),
    the link that runs it again, and, once it is finished, the list of its assertions. *)
Inductive child := Strong | Rerun | Assertions.

Record item := Item {
  it_class : jstr;
  it_name : jstr;
  it_href : jstr;
  it_children : list child;
  it_counts : option (nat * nat * nat);
  it_lines : list (jstr * jstr);        (* class and text of its assertions *)
  it_display : jstr                     (* the style of that list *)
}.

Record page := Page {
  container : bool;                     (* #qunit, which QUnit.init fills *)
  storage : bool;                       (* defined.sessionStorage *)
  stored : bool;                        (* it holds qunit-filter-passed-tests *)
  checked : bool;                       (* the box of hidden tests *)
  ol_class : jstr;                      (* the class of #qunit-tests *)
  results : list item;
  banner_class : jstr;
  result_html : jstr;
  title : jstr
}.

Definition hidepass : jstr := js "hidepass".

(** [s.replace(p, r)] for a text [p]: the first place. *)
Fixpoint replace_first (p r s : jstr) : jstr :=
  if starts_with p s then r ++ drop (length p) s
  else match s with [] => [] | c :: s => c :: replace_first p r s end.

(** [s.replace(/[\n\t\r]/g, ' ')]. *)
Definition to_space (c : N) : N := if bool_decide (c ∈ [9; 10; 13]%N) then 32%N else c.

(** The box is made: [config.hidepassed], or what was stored. *)
Definition load_filter (hidepassed : bool) (p : page) : page :=
  if hidepassed || storage p && stored p
  then p <| checked := true |> <| ol_class ::= fun c => c ++ js " hidepass" |>
  else p.

(** A click on the box, which the browser has changed already. *)
Definition filter_click (p : page) : page :=
  let p := p <| checked ::= negb |> in
  let p :=
    if checked p then p <| ol_class ::= fun c => c ++ js " hidepass" |>
    else let tmp := [32%N] ++ map to_space (ol_class p) ++ [32%N] in
         p <| ol_class := replace_first (js " hidepass ") [32%N] tmp |> in
  if storage p then p <| stored := checked p |> else p.

Definition running : jstr := js "running".
Definition pass : jstr := js "pass".
Definition fail : jstr := js "fail".

(** [Test.prototype.init]. *)
Definition test_init (name href : jstr) (p : page) : page :=
  p <| results ::= fun l => l ++ [Item running name href [Strong; Rerun] None [] []] |>.

(** The lines of [Test.prototype.finish]. *)
Definition line_of (a : bool * jstr) : jstr * jstr :=
  (if fst a then pass else fail, or_text (snd a) (okay_failed (fst a))).

Definition count (b : bool) (l : list (bool * jstr)) : nat :=
  length (List.filter (fun a => Bool.eqb (fst a) b) l).

(** [li.removeChild(li.firstChild)], and the three children appended again. *)
Definition finish_item (assertions : list (bool * jstr)) (it : item) : item :=
  let bad := count false assertions in
  let a := match it_children it with _ :: a :: _ => [a] | _ => [] end in
  let rest := match it_children it with _ :: _ :: r => r | _ => [] end in
  Item (if Nat.eqb bad 0 then pass else fail) (it_name it) (it_href it)
    (rest ++ [Strong] ++ a ++ [Assertions])
    (Some (bad, count true assertions, length assertions)) (map line_of assertions)
    (if Nat.eqb bad 0 then js "none" else []).

Definition test_finish (i : nat) (assertions : list (bool * jstr)) (p : page) : page :=
  p <| results ::= alter (finish_item assertions) i |>.

(** A click on the strong element of a finished test: [b.nextSibling.nextSibling]. *)
Definition result_click (i : nat) (p : page) : page :=
  p <| results ::= alter (fun it =>
    match it_children it with
    | [Strong; _; Assertions] =>
        Item (it_class it) (it_name it) (it_href it) (it_children it) (it_counts it) (it_lines it)
          (if bool_decide (it_display it = js "none") then js "block" else js "none")
    | _ => it
    end) i |>.

(** The title of the document: its mark, if it has one, is replaced. *)
Definition unmarked (t : jstr) : jstr :=
  match t with
  | m :: s :: t' => if bool_decide (m ∈ [10004; 10006]%N) && bool_decide (s = 32%N) then t' else t
  | _ => t
  end.

Definition mark_of (bad : nat) : N := if Nat.eqb bad 0 then 10004%N else 10006%N.

(** [done]: what it shows. *)
Definition page_done (altertitle : bool) (runtime : N) (all bad : nat) (p : page) : page :=
  let passed := all - bad in
  let html := js "Tests completed in " ++ js_of_N runtime ++ js " milliseconds.<br/><span class='passed'>"
    ++ js (pretty passed) ++ js "</span> tests of <span class='total'>" ++ js (pretty all)
    ++ js "</span> passed, <span class='failed'>" ++ js (pretty bad) ++ js "</span> failed." in
  let p := p <| banner_class := js (if Nat.eqb bad 0 then "qunit-pass" else "qunit-fail") |> in
  let p := p <| result_html := html |> in
  if altertitle && truthy (title p)
  then p <| title := mark_of bad :: 32%N :: unmarked (title p) |> else p.

(** [QUnit.init]: the list is emptied, its class stays unless the list is made anew. *)
Definition page_init (p : page) : page :=
  let p := if container p then p <| ol_class := [] |> else p in
  p <| results := [] |> <| banner_class := [] |> <| result_html := js "Running...<br/>&nbsp;" |>.

Inductive event :=
  | TestInit (name href : jstr)
  | TestFinish (i : nat) (assertions : list (bool * jstr))
  | FilterClick
  | ResultClick (i : nat)
  | AllDone (altertitle : bool) (runtime : N) (all bad : nat).

Definition handle (p : page) (e : event) : page :=
  match e with
  | TestInit name href => test_init name href p
  | TestFinish i l => test_finish i l p
  | FilterClick => filter_click p
  | ResultClick i => result_click i p
  | AllDone a r n b => page_done a r n b p
  end.

(** [QUnit.load], and what happens after. *)
Definition show (hidepassed : bool) (es : list event) (p : page) : page :=
  foldl handle (load_filter hidepassed (page_init p)) es.

(** The style sheet: which tests are displayed. *)
Definition words (s : jstr) : list jstr := List.filter truthy (split 32 (map to_space s)).
Definition displayed (p : page) (it : item) : bool :=
  negb (bool_decide (hidepass ∈ words (ol_class p))) || bool_decide (it_class it = fail).

(** * The box of hidden tests *)

Lemma to_space_idemp c : to_space (to_space c) = to_space c.
Proof. unfold to_space. repeat case_bool_decide; done || set_solver. Qed.

Lemma words_to_space s : words (map to_space s) = words s.
Proof. unfold words. rewrite map_map. do 2 f_equal. apply map_ext, to_space_idemp. Qed.

Lemma split_app_space a b : split 32 (a ++ 32%N :: b) = split 32 a ++ split 32 b.
Proof.
  induction a as [|c a IH]; cbn [app split]; [by rewrite decide_True|].
  rewrite IH. case_decide; [done|]. destruct (split 32 a) as [|x l] eqn:E; [|done].
  by apply split_not_nil in E.
Qed.

Lemma words_app a b : words (a ++ 32%N :: b) = words a ++ words b.
Proof.
  unfold words. rewrite map_app. cbn [map]. change (to_space 32) with 32%N.
  by rewrite split_app_space, List.filter_app.
Qed.

Lemma words_hide c : words (c ++ js " hidepass") = words c ++ [hidepass].
Proof. exact (words_app c hidepass). Qed.

(** A word stands between spaces. *)
Lemma word_between w s : w ∈ words s -> exists a b, 32%N :: map to_space s ++ [32%N] = a ++ 32%N :: w ++ 32%N :: b.
Proof.
  unfold words. set (t := map to_space s). intros Hw.
  assert (w ∈ split 32 t) as H by (apply list_elem_of_In, filter_In, proj1 in Hw; by apply list_elem_of_In).
  clear Hw. apply list_elem_of_split in H as (l1 & l2 & H).
  rewrite <- (join_split 32 t), H. clear.
  exists (match l1 with [] => [] | _ => 32%N :: join [32%N] l1 end).
  exists (match l2 with [] => [] | _ => join [32%N] l2 ++ [32%N] end).
  destruct l1 as [|x l1], l2 as [|y l2].
  - done.
  - cbn [app]. rewrite join_cons by done. by rewrite <- !app_assoc.
  - rewrite join_app by done. cbn [app]. by rewrite <- !app_assoc.
  - rewrite join_app by done. rewrite (join_cons _ w) by done. by rewrite <- !app_assoc.
Qed.

Lemma replace_first_spec p r s a b :
  s = a ++ p ++ b -> exists a' b', s = a' ++ p ++ b' /\ replace_first p r s = a' ++ r ++ b'.
Proof.
  revert a. induction s as [|c s IH]; intros a H; cbn [replace_first].
  - destruct a; [|done]. destruct p; [|done]. destruct b; [|done]. exists [], []. by rewrite app_nil_r.
  - destruct (starts_with p (c :: s)) eqn:E.
    + apply starts_with_spec in E as [t E]. rewrite E. exists [], t.
      split; [done|]. by rewrite drop_app_length.
    + destruct a as [|x a].
      { exfalso. cbn in H. assert (starts_with p (c :: s) = true) as E'; [|congruence].
        apply starts_with_spec. by exists b. }
      injection H as -> H. destruct (IH a H) as (a' & b' & H1 & H2).
      exists (x :: a'), b'. split; [by rewrite H1|by rewrite H2].
Qed.

(** The last word of a class is taken away, wherever the text has it. *)
Lemma remove_word base s :
  hidepass ∉ base -> words s = base ++ [hidepass] ->
  words (replace_first (js " hidepass ") [32%N] ([32%N] ++ map to_space s ++ [32%N])) = base.
Proof.
  intros Hb Hs. assert (hidepass ∈ words s) as Hin by (rewrite Hs; apply elem_of_app; right; left).
  destruct (word_between _ _ Hin) as (a & b & E).
  change (32%N :: hidepass ++ 32%N :: b) with (js " hidepass " ++ b) in E.
  destruct (replace_first_spec _ [32%N] _ _ _ E) as (a' & b' & E1 & E2).
  change ([32%N] ++ map to_space s ++ [32%N]) with (32%N :: map to_space s ++ [32%N]).
  rewrite E2. change (a' ++ [32%N] ++ b') with (a' ++ 32%N :: b'). rewrite words_app.
  apply (f_equal words) in E1. change (js " hidepass " ++ b') with (32%N :: hidepass ++ 32%N :: b') in E1.
  rewrite words_app, words_app in E1. change (words hidepass) with [hidepass] in E1.
  assert (words (32%N :: map to_space s ++ [32%N]) = words s) as Ew.
  { change (32%N :: map to_space s ++ [32%N]) with ([] ++ 32%N :: map to_space s ++ 32%N :: []).
    rewrite !words_app, words_to_space. change (words []) with (@nil jstr). by rewrite app_nil_r. }
  rewrite Ew, Hs in E1. clear -Hb E1.
  revert E1. generalize (words a') (words b'). clear a' b'. induction base as [|x base IH]; intros l k E.
  - destruct l as [|y l]; cbn [app] in *; [by injection E as ->|]. injection E as <- E. by destruct l.
  - apply not_elem_of_cons in Hb as [Hx Hb]. destruct l as [|y l]; cbn [app] in E.
    + injection E as E _. congruence.
    + injection E as <- E. cbn. f_equal. by apply IH.
Qed.

(** The class of the list follows the box. *)
Definition filter_ok (base : list jstr) (p : page) : Prop :=
  words (ol_class p) = base ++ if checked p then [hidepass] else [].

Lemma load_filter_ok hidepassed p :
  checked p = false -> filter_ok (words (ol_class p)) (load_filter hidepassed p).
Proof.
  intros Hc. unfold load_filter, filter_ok. destruct (_ || _).
  - apply words_hide.
  - by rewrite Hc, app_nil_r.
Qed.

Lemma filter_click_class p :
  ol_class (filter_click p) =
    (if checked p then replace_first (js " hidepass ") [32%N] ([32%N] ++ map to_space (ol_class p) ++ [32%N])
     else ol_class p ++ js " hidepass")
  /\ checked (filter_click p) = negb (checked p)
  /\ stored (filter_click p) = (if storage p then negb (checked p) else stored p)
  /\ results (filter_click p) = results p.
Proof.
  unfold filter_click. change (checked (p <| checked ::= negb |>)) with (negb (checked p)).
  destruct (checked p) eqn:E; cbn [negb].
  - set (q := (p <| checked ::= negb |>) <| ol_class := _ |>).
    change (storage q) with (storage p). change (checked q) with (negb (checked p)).
    destruct (storage p); repeat split; cbn -[replace_first js]; by rewrite ?E.
  - set (q := (p <| checked ::= negb |>) <| ol_class ::= _ |>).
    change (storage q) with (storage p). change (checked q) with (negb (checked p)).
    destruct (storage p); repeat split; cbn -[js]; by rewrite ?E.
Qed.

Lemma filter_click_ok base p : hidepass ∉ base -> filter_ok base p -> filter_ok base (filter_click p).
Proof.
  unfold filter_ok. intros Hb H. destruct (filter_click_class p) as (-> & -> & _).
  destruct (checked p); cbn [negb].
  - rewrite app_nil_r. by apply remove_word.
  - rewrite words_hide, H. by rewrite app_nil_r.
Qed.

(** * The list of results *)

Definition is_running (it : item) : Prop :=
  it_class it = js "running" /\ it_children it = [Strong; Rerun] /\ it_counts it = None.

(** The line of an assertion: its result is the class, and its message the text, or, without
    one, the result in a word. *)
Definition tells (a : bool * jstr) (line : jstr * jstr) : Prop :=
  line.1 = js (if a.1 then "pass" else "fail")
  /\ line.2 = (if decide (a.2 = []) then js (if a.1 then "okay" else "failed") else a.2).

(** The item of a test with the assertions [l]. *)
Definition finished_with (l : list (bool * jstr)) (it : item) : Prop :=
  it_class it = (if forallb fst l then js "pass" else js "fail")
  /\ it_children it = [Strong; Rerun; Assertions]
  /\ it_counts it = Some (count_occ Bool.bool_dec (map fst l) false,
                          count_occ Bool.bool_dec (map fst l) true, length l)
  /\ Forall2 tells l (it_lines it).

(** The tests that began, and when their ends are told: each once, and after it began. *)
Definition init_of (e : event) : option (jstr * jstr) :=
  match e with TestInit name href => Some (name, href) | _ => None end.
Definition finish_of (e : event) : option nat := match e with TestFinish i _ => Some i | _ => None end.

Definition begun (es : list event) : list (jstr * jstr) := omap init_of es.

Definition timely (es : list event) : Prop :=
  NoDup (omap finish_of es)
  /\ forall es1 i l es2, es = es1 ++ TestFinish i l :: es2 -> i < length (begun es1).

Lemma timely_init es e : timely (es ++ [e]) -> timely es.
Proof.
  intros [H1 H2]. rewrite omap_app in H1. split; [by apply NoDup_app in H1 as (? & _ & _)|].
  intros es1 i l es2 ->. apply (H2 es1 i l (es2 ++ [e])). by rewrite <- app_assoc.
Qed.

Lemma count_false l : count false l = count_occ Bool.bool_dec (map fst l) false.
Proof. unfold count. induction l as [|[[] m] l IH]; [done|exact IH|]. cbn. by rewrite IH. Qed.

Lemma count_true l : count true l = count_occ Bool.bool_dec (map fst l) true.
Proof. unfold count. induction l as [|[[] m] l IH]; [done| |exact IH]. cbn. by rewrite IH. Qed.

Lemma count_none l : Nat.eqb (count false l) 0 = forallb fst l.
Proof. unfold count. induction l as [|[[] m] l IH]; [done|exact IH|done]. Qed.

Lemma lines_tell l : Forall2 tells l (map line_of l).
Proof.
  induction l as [|[b m] l IH]; constructor; [|done]. split; [by destruct b|].
  unfold line_of, or_text. cbn [fst snd]. destruct m as [|c m]; [by destruct b|done].
Qed.

Lemma finish_item_finished l it :
  is_running it -> finished_with l (finish_item l it)
  /\ it_name (finish_item l it) = it_name it /\ it_href (finish_item l it) = it_href it.
Proof.
  intros (H1 & H2 & H3). unfold finish_item. rewrite H2. split; [|done].
  unfold finished_with. cbn [it_class it_children it_counts it_lines].
  rewrite count_none, count_false, count_true. by split_and!; [| | |apply lines_tell].
Qed.

(** Each item is as its test left it. *)
Definition item_ok (es : list event) (i : nat) (it : item) : Prop :=
  begun es !! i = Some (it_name it, it_href it)
  /\ ((forall l, TestFinish i l ∉ es) /\ is_running it
      \/ exists l, TestFinish i l ∈ es /\ finished_with l it).

Definition results_ok (es : list event) (p : page) : Prop :=
  length (results p) = length (begun es)
  /\ forall i it, results p !! i = Some it -> item_ok es i it.

(** An event that is not about the item. *)
Lemma item_ok_later es e i it it' :
  finish_of e ≠ Some i -> it_name it' = it_name it -> it_href it' = it_href it ->
  (is_running it -> is_running it') ->
  (forall l, finished_with l it -> finished_with l it') ->
  item_ok es i it -> item_ok (es ++ [e]) i it'.
Proof.
  intros He Hn Hh Hr Hf [Hi H]. split.
  - unfold begun. rewrite omap_app, Hn, Hh. by apply lookup_app_l_Some.
  - destruct H as [[H1 H2]|(l & H1 & H2)]; [left|right].
    + split; [|auto]. intros l [Hl|Hl]%elem_of_app; [by apply (H1 l)|].
      apply list_elem_of_singleton in Hl as <-. by apply He.
    + exists l. split; [|auto]. apply elem_of_app. by left.
Qed.

Lemma begun_snoc es e : init_of e = None -> begun (es ++ [e]) = begun es.
Proof. intros He. unfold begun. rewrite omap_app. cbn. rewrite He. apply app_nil_r. Qed.

Lemma results_ok_same es e p p' :
  init_of e = None -> finish_of e = None -> results p' = results p ->
  results_ok es p -> results_ok (es ++ [e]) p'.
Proof.
  intros H1 H2 Hr [Hl H]. split; [by rewrite Hr, begun_snoc|]. intros i it. rewrite Hr. intros Hi.
  eapply item_ok_later; [by rewrite H2| | | | |by apply H]; auto.
Qed.

Lemma results_ok_step es e p :
  timely (es ++ [e]) -> results_ok es p -> results_ok (es ++ [e]) (handle p e).
Proof.
  intros Ht Hp. pose proof Hp as [Hlen H].
  destruct e as [name href|k l| |k|a r n b]; cbn [handle].
  - split.
    + unfold begun, test_init. cbn. rewrite omap_app, !length_app. unfold begun in Hlen. cbn. lia.
    + intros i it Hi. unfold test_init in Hi. cbn in Hi.
      apply lookup_app_Some in Hi as [Hi|[Hge Hi]].
      { eapply item_ok_later; [done| | | | |by apply H]; auto. }
      apply list_lookup_singleton_Some in Hi as [Hi <-]. rewrite Hlen in *. split.
      * unfold begun. rewrite omap_app, lookup_app_r by exact Hge. cbn. unfold begun in Hi. by rewrite Hi.
      * left. split; [|done]. intros l [Hl|Hl%list_elem_of_singleton]%elem_of_app; [|done].
        apply list_elem_of_split in Hl as (l1 & l2 & ->). destruct Ht as [_ Ht].
        specialize (Ht l1 i l (l2 ++ [TestInit name href])). rewrite <- app_assoc in Ht.
        specialize (Ht eq_refl). unfold begun in Hge, Ht. rewrite omap_app, length_app in Hge. lia.
  - split; [unfold test_finish; cbn; by rewrite length_alter, begun_snoc|].
    intros i it Hi. unfold test_finish in Hi. cbn in Hi. destruct (decide (i = k)) as [->|Hne].
    + rewrite list_lookup_alter_eq in Hi. destruct (results p !! k) as [it0|] eqn:E; [|done].
      cbn in Hi. injection Hi as <-. destruct (H k it0 E) as [Hb [[_ Hr]|(l' & Hl' & _)]].
      * destruct (finish_item_finished l it0 Hr) as (F1 & F2 & F3). split.
        { unfold begun. rewrite omap_app, F2, F3. by apply lookup_app_l_Some. }
        right. exists l. split; [|done]. apply elem_of_app. right. by apply list_elem_of_singleton.
      * exfalso. destruct Ht as [Ht _]. rewrite omap_app in Ht. apply NoDup_app in Ht as (_ & Hd & _).
        apply (Hd k); [|left]. apply list_elem_of_omap. by eexists.
    + rewrite list_lookup_alter_ne in Hi by done.
      eapply item_ok_later; [| | | | |by apply H]; auto. cbn. congruence.
  - destruct (filter_click_class p) as (_ & _ & _ & Hr). by apply (results_ok_same _ _ p).
  - split; [unfold result_click; cbn; by rewrite length_alter, begun_snoc|].
    intros i it Hi. unfold result_click in Hi. cbn in Hi. destruct (decide (i = k)) as [->|Hne].
    + rewrite list_lookup_alter_eq in Hi. destruct (results p !! k) as [it0|] eqn:E; [|done].
      cbn in Hi. injection Hi as <-.
      eapply (item_ok_later es _ k it0); [done| | | | |by apply H].
      1,2: by destruct (it_children it0) as [|[] [|? [|[] [|]]]].
      * intros (R1 & R2 & R3). by rewrite R2.
      * intros l (F1 & F2 & F3 & F4). by rewrite F2.
    + rewrite list_lookup_alter_ne in Hi by done.
      eapply item_ok_later; [done| | | | |by apply H]; auto.
  - apply (results_ok_same _ _ p); try done. unfold page_done. by destruct (_ && _).
Qed.

Lemma finished_once es i l l' :
  NoDup (omap finish_of es) -> TestFinish i l ∈ es -> TestFinish i l' ∈ es -> l = l'.
Proof.
  induction es as [|e es IH]; intros Hnd H1 H2; [by apply elem_of_nil in H1|].
  assert (forall m, TestFinish i m ∈ es -> i ∈ omap finish_of es) as Hin
    by (intros m Hm; apply list_elem_of_omap; by eexists).
  apply elem_of_cons in H1 as [<-|H1], H2 as [E|H2].
  - by injection E.
  - apply NoDup_cons in Hnd as [Hn _]. by destruct Hn; eapply Hin.
  - subst e. apply NoDup_cons in Hnd as [Hn _]. by destruct Hn; eapply Hin.
  - apply IH; try done. cbn in Hnd. destruct (finish_of e); [by apply NoDup_cons in Hnd as [_ ?]|done].
Qed.

Lemma handle_filter base e p : hidepass ∉ base -> filter_ok base p -> filter_ok base (handle p e).
Proof.
  intros Hb H. destruct e; cbn [handle]; try exact H; [by apply filter_click_ok|].
  unfold page_done. by destruct (_ && _).
Qed.

(** C40. Whatever is clicked while tests begin, finish once each after that, and end: the
    list has an item for each test that began, in that order, with its name and its link;
    when the test has finished the item shows what it reported - a class that says whether
    all assertions passed, how many failed and passed, and a line for each in order with
    its result and its message, or okay or failed where there is none - and until then it
    is running.  With the box checked exactly the failed tests are displayed, without it
    all of them, if the class of the list did not hide them before. *)
Theorem page_tells_results hidepassed es p0 :
  checked p0 = false -> hidepass ∉ words (ol_class p0) -> timely es ->
  let p := show hidepassed es p0 in
  length (results p) = length (begun es)
  /\ forall i it, results p !! i = Some it ->
       begun es !! i = Some (it_name it, it_href it)
       /\ (forall l, TestFinish i l ∈ es -> finished_with l it)
       /\ ((forall l, TestFinish i l ∉ es) -> is_running it)
       /\ displayed p it = (negb (checked p) || bool_decide (it_class it = js "fail")).
Proof.
  intros Hc Hw Ht p. unfold p, show. clear p.
  set (q := page_init p0). set (base := words (ol_class q)).
  assert (hidepass ∉ base) as Hb.
  { unfold base, q, page_init. destruct (container p0); [apply not_elem_of_nil|done]. }
  assert (checked q = false) as Hq by (unfold q, page_init; by destruct (container p0)).
  assert (results_ok es (foldl handle (load_filter hidepassed q) es)
    /\ filter_ok base (foldl handle (load_filter hidepassed q) es)) as [[H0 H1] H2].
  { induction es as [|e es IH] using rev_ind.
    - assert (results (load_filter hidepassed q) = []) as Hr
        by (unfold load_filter, q, page_init; by destruct (_ || _)).
      split; [|by apply load_filter_ok]. split; cbn [foldl]; rewrite Hr; [done|]. by intros i it.
    - rewrite foldl_snoc. destruct (IH (timely_init _ _ Ht)) as [IH1 IH2].
      split; [by apply results_ok_step|by apply handle_filter]. }
  split; [done|]. intros i it Hi. destruct (H1 i it Hi) as [Hn Hr]. split; [done|].
  split; [|split].
  - intros l Hl. destruct Hr as [[Hno _]|(l' & Hl' & Hf)]; [by destruct (Hno l)|].
    by rewrite (finished_once es i l l' (proj1 Ht) Hl Hl').
  - intros Hno. destruct Hr as [[_ Hr]|(l & Hl & _)]; [done|by destruct (Hno l)].
  - unfold displayed. rewrite H2. f_equal. f_equal.
    destruct (checked (foldl handle (load_filter hidepassed q) es)).
    + apply bool_decide_true. apply elem_of_app. right. left.
    + apply bool_decide_false. by rewrite app_nil_r.
Qed.

Definition empty_page : page := Page true true false false (js "x") [] [] [] (js "Tests").

Definition sample_events : list event :=
  [TestInit (js "a") (js "?testNumber=1"); TestFinish 0 [(true, []); (false, js "no")];
   FilterClick; TestInit (js "b") (js "?testNumber=2"); TestFinish 1 [(true, [])];
   ResultClick 0; AllDone true 5 3 1].

Fixpoint in_time (n : nat) (es : list event) : bool :=
  match es with
  | [] => true
  | TestInit _ _ :: es => in_time (S n) es
  | TestFinish i _ :: es => Nat.ltb i n && in_time n es
  | _ :: es => in_time n es
  end.

Lemma in_time_timely n es es1 i l es2 :
  in_time n es = true -> es = es1 ++ TestFinish i l :: es2 -> i < n + length (begun es1).
Proof.
  revert n es1. induction es as [|e es IH]; intros n [|e' es1] H E; try done.
  - injection E as -> ->. cbn in H. apply andb_true_iff in H as [H _]. apply Nat.ltb_lt in H. cbn. lia.
  - injection E as <- E. unfold begun in *. destruct e as [name href|k m| | |]; cbn in *.
    + specialize (IH (S n) es1 H E). lia.
    + apply andb_true_iff in H as [_ H]. by apply IH.
    + by apply IH.
    + by apply IH.
    + by apply IH.
Qed.

(** Two tests, the first of which fails: with the box checked the other is not displayed. *)
Lemma page_tells_results_witness :
  let p := show false sample_events empty_page in
  exists it, results p !! 1 = Some it /\ it_name it = js "b"
    /\ finished_with [(true, [])] it /\ displayed p it = false.
Proof.
  cbn zeta.
  destruct (results (show false sample_events empty_page) !! 1) as [it|] eqn:E;
    [|vm_compute in E; discriminate]. exists it. split; [done|].
  destruct (page_tells_results false sample_events empty_page) as [_ H].
  - reflexivity.
  - apply (bool_decide_unpack _). vm_compute. exact I.
  - split; [apply (bool_decide_unpack _); vm_compute; exact I|].
    intros es1 i l es2. by apply (in_time_timely 0).
  - destruct (H 1 it E) as (Hn & Hf & _ & Hd).
    assert (TestFinish 1 [(true, [])] ∈ sample_events) as Hin by (do 4 right; left).
    specialize (Hf _ Hin). split; [|split; [exact Hf|]].
    + vm_compute in Hn. by injection Hn.
    + rewrite Hd, (proj1 Hf). vm_compute. reflexivity.
Defined.

(** The title keeps one mark, that of the last end. *)
Lemma title_marked_once r r' n n' b b' p :
  title p <> [] ->
  title (page_done true r' n' b' (page_done true r n b p)) = mark_of b' :: 32%N :: unmarked (title p).
Proof.
  intros H. unfold page_done. cbn -[js unmarked mark_of]. destruct (title p) as [|c t] eqn:E; [done|].
  cbn -[js unmarked mark_of]. unfold mark_of at 2. by destruct (Nat.eqb b 0).
Qed.

(** What the box stores is what it shows, after a click. *)
Lemma click_stores p : storage p = true -> stored (filter_click p) = checked (filter_click p).
Proof. intros H. destruct (filter_click_class p) as (_ & -> & -> & _). by rewrite H. Qed.

(** * The choice of a module *)

Lemma get_set k v x ps : get x (set_param k v ps) = if decide (x = k) then Some v else get x ps.
Proof.
  unfold get. induction ps as [|[k' v'] ps IH]; cbn.
  - case_decide; [by rewrite bool_decide_true|by rewrite bool_decide_false].
  - destruct (decide (k' = k)) as [->|Hne]; cbn.
    + destruct (decide (x = k)) as [->|Hx]; [by rewrite bool_decide_true|].
      by rewrite !bool_decide_false by congruence.
    + destruct (decide (k' = x)) as [->|Hx].
      * rewrite bool_decide_true by done. by rewrite decide_False.
      * rewrite bool_decide_false by done. exact IH.
Qed.

Lemma get_as_text k ps : get k (map as_text ps) = (fun v => PText (param_text v)) <$> get k ps.
Proof.
  unfold get. induction ps as [|[k' v'] ps IH]; cbn; [done|].
  case_bool_decide; [done|exact IH].
Qed.

Lemma set_param_readable k v ps :
  readable (k, v) -> Forall readable ps -> Forall readable (set_param k v ps).
Proof.
  intros Hr. induction 1 as [|p ps Hp Hps IH]; cbn [set_param].
  - by constructor.
  - case_decide; by constructor.
Qed.

Lemma escapes_apostrophe v : 39%N ∉ escapes v.
Proof.
  unfold escapes. induction (utf8 v) as [|b bs IH]; cbn [map concat]; [apply not_elem_of_nil|].
  intros H. apply elem_of_app in H as [H|H]; [|done].
  assert (forall d, hex_upper d ≠ 39%N) as Hh.
  { intros d. unfold hex_upper. case_bool_decide; lia. }
  unfold percent in H. rewrite !elem_of_cons in H. pose proof (Hh (b / 16)%N). pose proof (Hh (b mod 16)%N).
  destruct H as [H|[H|[H|H]]]; [done|congruence|congruence|by apply not_elem_of_nil in H].
Qed.

Lemma attribute_whole s : 39%N ∉ s -> attribute s = s.
Proof.
  induction s as [|c s IH]; [done|]. intros [Hc Hs]%not_elem_of_cons. cbn [attribute].
  rewrite decide_False by congruence. by rewrite IH.
Qed.

(** A name without apostrophes comes through the attribute. *)
Lemma encoded_apostrophe s e :
  well_formed s = true -> encodeURIComponent s = Some e -> 39%N ∉ s -> 39%N ∉ e.
Proof.
  intros Hs He. enough (exists e, encodeURIComponent s = Some e /\ (39%N ∉ s -> 39%N ∉ e)) as (e' & He' & H).
  { rewrite He in He'. by injection He' as <-. }
  revert s Hs He. intros s Hs _. revert s Hs. apply (encode_ind (fun s e => 39%N ∉ s -> 39%N ∉ e)).
  - done.
  - intros c s' e' _ IH [Hc Hs']%not_elem_of_cons. apply not_elem_of_cons. auto.
  - intros v s' e' _ IH [_ Hs']%not_elem_of_app. apply not_elem_of_app.
    split; [apply escapes_apostrophe|auto].
Qed.

(** What the choice of a module leads to, for a name without apostrophes: the address
    is built without an error, and the page it leads to reads that module in it and every
    other parameter as it was. *)
Theorem module_choice_reads_back ps name :
  NoDup (map fst ps) -> Forall readable ps -> well_formed name = true -> name ≠ [] -> 39%N ∉ name ->
  exists q ps', module_chosen ps name = Some q /\ read_search q = Some ps'
    /\ get module_key ps' = Some (PText name)
    /\ forall k, k ≠ module_key -> get k ps' = (fun v => PText (param_text v)) <$> get k ps.
Proof.
  intros Hnd Hps Hw Hne Hap. destruct (encode_decode name Hw) as (e & He & Hd & _).
  destruct (url_reads_back ps [(module_key, Some (PText name))] Hnd) as (q & Hq & Hr).
  { by apply set_param_readable. }
  exists q, (map as_text (set_param module_key (PText name) ps)).
  repeat split; [|exact Hr|..].
  - unfold module_chosen. rewrite He. cbn [mbind option_bind].
    rewrite attribute_whole by (by eapply encoded_apostrophe). rewrite Hd. cbn [mbind option_bind].
    destruct name; [done|]. exact Hq.
  - by rewrite get_as_text, get_set, decide_True.
  - intros k Hk. by rewrite get_as_text, get_set, decide_False.
Qed.

Lemma module_choice_reads_back_witness :
  let ps := [(js "noglobals", PTrue); (module_key, PText (js "core"))] in
  exists q ps', module_chosen ps (js "a & b") = Some q /\ read_search q = Some ps'
    /\ get module_key ps' = Some (PText (js "a & b"))
    /\ forall k, k ≠ module_key -> get k ps' = (fun v => PText (param_text v)) <$> get k ps.
Proof.
  apply (module_choice_reads_back [(js "noglobals", PTrue); (module_key, PText (js "core"))] (js "a & b")).
  - apply (bool_decide_unpack _). vm_compute. exact I.
  - repeat constructor; discriminate.
  - reflexivity.
  - discriminate.
  - apply (bool_decide_unpack _). vm_compute. exact I.
Defined.

(** An option's value ends at an apostrophe, which [encodeURIComponent] leaves: the choice
    of such a module leads to the tests of another name. *)
Lemma apostrophe_cuts ps :
  module_chosen ps (js "it's") = module_chosen ps (js "it").
Proof. reflexivity. Qed.

(** The choice keeps the number of a test: with it in the address only that test is run. *)
Lemma choice_keeps_test_number :
  module_chosen [(js "testNumber", PText (js "7"))] (js "core") = Some (js "?testNumber=7&module=core").
Proof. vm_compute. reflexivity. Qed.

Lemma get_delete k x ps : get x (delete_param k ps) = if decide (x = k) then None else get x ps.
Proof.
  unfold get, delete_param. induction ps as [|[k' v] ps IH]; [by case_decide|].
  destruct (decide (k' = k)) as [->|Hne].
  - rewrite filter_cons_False by (cbn; auto). rewrite IH. case_decide; [done|].
    cbn. by rewrite bool_decide_false.
  - rewrite filter_cons_True by done. cbn [find fst]. destruct (decide (k' = x)) as [->|Hx].
    + rewrite bool_decide_true by done. by rewrite decide_False.
    + rewrite bool_decide_false by done. exact IH.
Qed.

(** The link of the title leaves out the choices of tests, and keeps every other one. *)
Theorem header_link_runs_all ps :
  NoDup (map fst ps) -> Forall readable ps ->
  exists q ps', header_href ps = Some q /\ read_search q = Some ps'
    /\ get module_key ps' = None /\ get (js "filter") ps' = None /\ get (js "testNumber") ps' = None
    /\ forall k, k ≠ js "filter" -> k ≠ module_key -> k ≠ js "testNumber" ->
       get k ps' = (fun v => PText (param_text v)) <$> get k ps.
Proof.
  intros Hnd Hps. set (f := js "filter"). set (t := js "testNumber").
  assert (forall k l, Forall readable l -> Forall readable (delete_param k l)) as Hd.
  { intros k l H. apply Forall_forall. intros x Hx. unfold delete_param in Hx.
    apply list_elem_of_filter in Hx as [_ Hx]. by eapply Forall_forall in H. }
  destruct (url_reads_back ps [(f, None); (module_key, None); (t, None)] Hnd) as (q & Hq & Hr).
  { by apply Hd, Hd, Hd. }
  change (extend _ _) with (delete_param t (delete_param module_key (delete_param f ps))) in Hr.
  exists q, (map as_text (delete_param t (delete_param module_key (delete_param f ps)))).
  split; [exact Hq|]. split; [exact Hr|].
  repeat split; [..|intros k H1 H2 H3]; rewrite get_as_text, !get_delete.
  - by case_decide.
  - by repeat case_decide.
  - by case_decide.
  - by rewrite !decide_False.
Qed.

Lemma header_link_runs_all_witness :
  let ps := [(js "module", PText (js "m")); (js "noglobals", PTrue)] in
  exists q ps', header_href ps = Some q /\ read_search q = Some ps'
    /\ get module_key ps' = None /\ get (js "filter") ps' = None /\ get (js "testNumber") ps' = None
    /\ forall k, k ≠ js "filter" -> k ≠ module_key -> k ≠ js "testNumber" ->
       get k ps' = (fun v => PText (param_text v)) <$> get k ps.
Proof.
  apply (header_link_runs_all [(js "module", PText (js "m")); (js "noglobals", PTrue)]).
  - apply (bool_decide_unpack _). vm_compute. exact I.
  - repeat constructor; discriminate.
Defined.
